(* ===== verification/_CoqProject ===== *)
-Q . S2P
Prelude.v
Errors.v
Limits.v
Varint.v
Wire.v
FrameStream.v
Identifiers.v
ProtoCodec.v
FieldCodec.v
Protocol.v
Security.v
Operation.v
Identity.v
Signing.v
TrustGrant.v
SessionHello.v
SignalingProtocol.v
Clock.v
ReplayCache.v
SessionRestart.v
RelayTtlTable.v
RelayRateLimiter.v
RelayLeaseTable.v
RelayEnrollmentThrottle.v
SessionChannels.v
ChannelScheduling.v
CapacityWaits.v
PairingProtocol.v
PeerSession.v
PeerSessionRuns.v
PeerSessionHandshake.v
PeerSessionPairing.v
Password.v
TrustStore.v
PairingService.v
GatewayAddress.v
GatewayPolicy.v
Effects.v
ByteStream.v
ByteStreamInvariant.v
ByteStreamFrames.v
ByteStreamRuns.v
ByteStreamTransfer.v
ServiceSession.v
PeerSessionServices.v
ByteStreamSession.v
ByteStreamExamples.v
MessageProtocol.v
MessageService.v
MessageServiceRules.v
MessageServiceCache.v
MessageServiceRuns.v
MessageServiceSession.v
MessageServiceExamples.v
