(* ===== verification/Prelude.v ===== *)
(** * heyaki: a verification library

    heyaki connects devices peer to peer. Two nodes learn of each other through a
    relay or on the local network, exchange signed offers and answers, open a
    transport, authenticate it with one signed session hello, and then exchange
    frames; pairing leaves behind signed trust grants that say what a peer may
    do. This library models the core of that program, [src/core], the sessions,
    channels, byte streams, messages, restart and pairing of its client,
    [src/client], the trust store of its profile, [src/profile], and the tables of its relay, [src/relay], as Rocq
    functions that follow the C++ statement by statement, and proves what the rest
    of the program relies on.

    ** How the code is modelled

    A byte is an integer from 0 to 255 ([is_byte]), a span or vector of bytes, an
    identifier, a nonce and a string on the wire are lists of them; sizes are
    integers ([zlen]). Machine integers are integers with the wrap-around of
    their width written out ([u16], [u32], [u64]). [Result<T>] is the sum
    [Result] with the error object, so every early return is a value; an
    out-of-bounds read is [None] of an option around the whole step. A class is a
    record of its members, a method that changes it returns the next record, and
    a [std::unique_ptr] that a move may have emptied is an option. A [std::map]
    is a [gmap] with iteration in key order, a time point is an integer of
    nanoseconds ([Clock.v]). libsodium is the parameter [Sodium] of the
    definitions that call it, with its documented behaviour as the class
    [SodiumLaws]; a concrete instance shows that the laws can hold. SQLite is the
    tables the statements act on, and every statement completes. The transport of
    a session is the class [SessionEnv], its callbacks are events of a run, and
    the handlers its owner installs are the class [Handlers]; reading an empty
    optional is [None] of the option around the step, as an out-of-bounds read is.

    ** The files

    - [Prelude.v]: bytes, spans, widths, lexicographic order, the tactics and
      hint databases. [Errors.v]: [error.hpp], [error.cpp], with the notations
      [let?] and [fail_if]. [Limits.v]: [limits.hpp], [limits.cpp].
    - [Varint.v]: the theory of little-endian base-128 numbers that the readers
      and writers below share.
    - [Wire.v]: [wire.cpp], the frame layout with its one-shot codec.
      [FrameStream.v]: [frame_stream.cpp], the incremental decoder and encoder.
    - [Identifiers.v]: [ids.cpp]. [ProtoCodec.v]: [proto_codec.hpp], the field
      reader and writers, and the class [Codec] that the message codecs
      instantiate. [Protocol.v]: [protocol.cpp], versions, capabilities and LAN
      datagrams. [Security.v]: [security.cpp]. [Operation.v]: [operation.cpp] and
      [client/connection_attempt.cpp].
    - [Identity.v]: [identity.cpp]. [Signing.v]: [signing.cpp], the canonical
      bytes of every signed object. [TrustGrant.v]: [trust_grant.cpp].
      [SessionHello.v]: [session_protocol.cpp].
    - [Clock.v]: clocks and ordered maps. [ReplayCache.v]:
      [signaling_replay_cache.cpp]. [RelayTtlTable.v], [RelayRateLimiter.v],
      [RelayLeaseTable.v], [RelayEnrollmentThrottle.v]: the files of [src/relay]
      of those names.
    - [FieldCodec.v]: what the message codecs share. [SignalingProtocol.v]:
      [signaling_protocol.cpp]. [SessionRestart.v]: [session_restart.cpp] and the
      part of [client/node.cpp] that drives it. [PairingProtocol.v]:
      [pairing_protocol.cpp].
    - [SessionChannels.v]: [client/session_channels.cpp]; [ChannelScheduling.v]
      and [CapacityWaits.v] hold the theorems about its runs.
    - [PeerSession.v]: [client/peer_session.cpp], on top of the hello, the frame
      codec, the channels and the pairing protocol. [PeerSessionRuns.v]: every
      sequence of calls and transport events. [PeerSessionHandshake.v] and
      [PeerSessionPairing.v]: two sessions, end to end over the bytes they send.
    - [Password.v]: [profile/password.cpp]. [TrustStore.v]: the tables of
      [profile/profile_store.cpp] that hold policy, verifier and grants.
      [PairingService.v]: [client/pairing_service.cpp].
    - [GatewayAddress.v], [GatewayPolicy.v]: [gateway_protocol.cpp].
    - [ServiceSession.v]: the interface a service needs of the session below it.
      [PeerSessionServices.v]: what a peer session promises the services above it.
      [Effects.v]: operations that change the members of a service, with the rules
      for their total weakest precondition.
    - [ByteStream.v]: [client/byte_stream.cpp], against the interface
      [StreamSession]. [ByteStreamInvariant.v] and [ByteStreamFrames.v]: every
      operation and every frame keeps the invariant. [ByteStreamRuns.v]: runs of one
      service, and of two over a network. [ByteStreamTransfer.v]: one write from end
      to end, and the credit of the first window update. [ByteStreamSession.v]: the session of [PeerSession.v] implements the
      interface. [ByteStreamExamples.v]: sample runs and the runs that lose a stream.
    - [MessageProtocol.v]: [message.hpp], [message_protocol.cpp].
      [MessageService.v]: [client/message_service.cpp], against the interface
      [MessageSession]. [MessageServiceRules.v]: the effect of every operation.
      [MessageServiceCache.v]: what the cache of message ids remembers and gives up.
      [MessageServiceRuns.v]: runs of one service, and of two over a network.
      [MessageServiceSession.v]: the session of [PeerSession.v] implements the
      interface. [MessageServiceExamples.v]: sample runs.

    In each file the definitions that translate code are in a module with the
    name of the component, enumerations in a module of their own name; the
    lemmas follow at the top level. Where the word [admit] is a method name of
    the source, the definition is [admit_hello], [admit_signed], [admit_call]
    or [admit_attempt].

    ** What the theorems show

    - Framing: [parse_frame] accepts exactly the encodings of frames; the
      incremental decoder agrees with it, stays inside its buffer and loses
      nothing, however the bytes are cut; the one input on which it reads out of
      bounds is characterised, as is the one frame type on which the two codecs
      disagree.
    - Codecs: identifiers, field lists, LAN datagrams, trust grants, session
      hellos and message envelopes are parsed back to what was encoded, and what a parser returns is
      well-formed.
    - Signatures: canonical bytes are injective over all domains, so a
      signature means one object; UTF-8 and scope lists are checked exactly;
      what is signed verifies, and what verifies was signed over all its fields.
    - Authorisation: adjudication grants exactly what request, grant and policy
      have in common.
    - Sessions: admission of the hello refines a contract, accepts at most one
      hello, only from the expected peer, and accepts the honest one;
      negotiation is symmetric and sound; operations settle once and attempts
      follow legal stages.
    - Peer sessions: along every run a session that is past authentication has
      admitted a hello its expected peer signed; what an untrusted peer sends
      reaches no handler but those of the domains the basic policy names; refused
      calls change nothing;
      the send loop returns. Two honest sessions authorize each other over one
      hello each way, and a granted pairing authorizes both.
    - Restart: crossing offers resolve to one side, the exchange ends with both
      sides holding the same facts, and candidates stay within their budget.
    - Channels: along every run of frames that fit the limit the budgets hold; no
      class is passed over, though a turn the transport puts back is lost; frames of
      a class keep their order, and a capacity wait completes at most once.
    - Pairing and trust: a pairing leaves the grant the target issued with both
      sides, and the target authorizes by it; during its wait a source that guessed
      too often learns nothing about the password; revocation lasts; rotation of the password revokes exactly the
      grants of older generations; the store keeps its tables well typed.
    - Gateway: an address is dialled exactly when the built-in list and the rules of
      the profile allow it.
    - Byte streams: what a stream accepts is a prefix of what its peer sent, whatever
      the network does to the order of the frames; a write within its credit arrives;
      buffers and queues stay within their windows and limits; every call returns over
      a peer session. The DATA frames that are read out of bounds are characterised.
      The first window update grants more frames than the reader has room for, and
      runs of honest peers show how that and FIN can cost them a stream.
    - Messages: while the cache has room, the handler runs at most once for an id in
      the lifetime of its messages; a tracked message ends once; what is reported
      acknowledged was received by the peer; the tables stay within their
      capacities and every call returns over a peer session. A sender without the
      scope is acknowledged when it repeats itself, and a full cache gives up the
      smallest id where the code speaks of the oldest.
    - Replay: an object that was acted on is a duplicate for as long as it can
      pass the expiry check, while the two clocks of the node stay within four and a
      half minutes of each other; the cache stays within its bounds.
    - Relay tables: the expiring table refines a bounded map with exact expiry;
      the rate limiter grants at most the configured rate over any history, when
      its window is no longer than its entries live; the
      lease table keeps its quotas and its index by device; failures are
      throttled with the documented backoff.
    - Findings: some theorems and lemmas prove behaviour that a comment, a header
      or the evident intention contradicts, among them an out-of-bounds read in the
      incremental decoder, a peer-opened channel on which a session reads an empty
      optional, a repeated hello that ends a session, a closed session that is
      authorized again, grants that cannot be received, a failure table that only
      grows and a rate that never refills.

    ** Bounds and fuel

    Most loops recurse on the list they walk. The others carry fuel: ten rounds
    for writing or reading a 64-bit varint and five for a 32-bit one, which is
    what the code's own loop bounds or the width allow ([varint_fuel]); three for
    the digits that leave the base-32 accumulator, which holds at most twelve
    bits ([emit_digits_spec]); the length of the input for the UTF-8 check and
    for the field reader, whose every round consumes a byte
    ([proto_fold_fuel] shows that more fuel changes nothing, on any input); the
    length of the text for address literals and for the ICE user fragment; two
    calls for the scheduler, which refills at most once; the number of open
    channels plus two for the search of a free channel id; five rounds for the
    calibration of the password parameters; and one round more than there are
    queued frames for the send loop of a session ([pump_returns]). The reads of a
    stream are served with one round per pending read, and its writes with one round
    per pending byte and write; [peer_streams_return] shows that no call runs out of
    it. The eviction from the cache of message ids has one round per entry, each of
    which removes one. Time
    points are not bounded: the 64-bit nanosecond clock wraps after 292 years.
    Counters wrap as the code's do.

    ** What is not modelled

    Sockets, threads, TLS, WebRTC, SQLite, Argon2, processes and terminals;
    zeroing of key memory; moves and destructors except that a moved-from object
    is empty. The observer a session reports its diagnostics to is left out, so
    nothing is said of an observer that calls back into the session; the wall
    clock is read once per call of the pairing service. The payload codecs of
    RPC, events, files and shell, the LAN codecs and directory, the
    coordination of signaling, the relay's login and enrollment exchanges and its
    endpoint directory have pure cores that are not modelled yet. A handler of a byte
    stream that calls back into the service before it returns is not modelled, nor is
    the release of the memory of a stream handle; the same holds for a sink of the
    message service that calls back into it. The services for RPC, events and the
    gateway are not modelled. *)

From Stdlib Require Import ZArith Lia ZifyBool.
From Stdlib Require Import String Ascii.
From stdpp Require Import base tactics option list numbers strings gmap.

(** Notations of the development live in a scope of their own. *)
Declare Scope heyaki_scope.
Delimit Scope heyaki_scope with heyaki.
Open Scope heyaki_scope.
#[local] Open Scope Z_scope.

(** Hint databases: [bytes] closes byte- and width-range side conditions,
    [wire] rewrites sizes of concatenated encodings. *)
Create HintDb bytes.
Create Rewrite HintDb wire.

(** ** Sizes, spans and machine words *)

(** [size()] of a span, vector or string. *)
Definition zlen {A} (l : list A) : Z := Z.of_nat (length l).

(** [span.subspan(offset, count)] and [span.subspan(offset)]. *)
Definition subspan {A} (offset count : Z) (l : list A) : list A :=
  take (Z.to_nat count) (drop (Z.to_nat offset) l).
Definition subspan_from {A} (offset : Z) (l : list A) : list A :=
  drop (Z.to_nat offset) l.

(** [find(c)] with the [substr] before it and the one after it: the text up to
    the first [c], and what follows, when there is one. *)
Fixpoint cut (c : Z) (text : list Z) : list Z * option (list Z) :=
  match text with
  | [] => ([], None)
  | x :: text =>
      if x =? c then ([], Some text)
      else let '(group, rest) := cut c text in (x :: group, rest)
  end.

(** [span[index]]; every use is guarded by a size check of the source, except
    where a model makes the access partial explicitly. *)
Definition byte_at (l : list Z) (index : Z) : Z := nth (Z.to_nat index) l 0.

(** Unsigned wrap-around at the widths the source uses. *)
Definition u8 (z : Z) : Z := z mod 2 ^ 8.
Definition u16 (z : Z) : Z := z mod 2 ^ 16.
Definition u32 (z : Z) : Z := z mod 2 ^ 32.
Definition u64 (z : Z) : Z := z mod 2 ^ 64.

Definition u32_max : Z := 2 ^ 32 - 1.
Definition u64_max : Z := 2 ^ 64 - 1.

(** The values a [std::byte], [std::uint32_t], [std::uint64_t] can hold. *)
Definition is_byte (b : Z) : Prop := 0 <= b < 256.
Definition is_u16 (z : Z) : Prop := 0 <= z < 2 ^ 16.
Definition is_u32 (z : Z) : Prop := 0 <= z < 2 ^ 32.
Definition is_u64 (z : Z) : Prop := 0 <= z < 2 ^ 64.
Definition bytes_ok (l : list Z) : Prop := Forall is_byte l.

(** The characters of a string literal, as unsigned bytes. *)
Fixpoint bytes_of_string (s : string) : list Z :=
  match s with
  | EmptyString => []
  | String c s => Z.of_N (N_of_ascii c) :: bytes_of_string s
  end.

(** [std::lexicographical_compare] on unsigned bytes. *)
Fixpoint lex_lt (a b : list Z) : bool :=
  match a, b with
  | [], [] => false
  | [], _ :: _ => true
  | _ :: _, [] => false
  | x :: a, y :: b => if x <? y then true else if y <? x then false else lex_lt a b
  end.

(** [std::all_of(..., byte == 0)], the [is_zero] of identifiers and nonces. *)
Definition all_zero (l : list Z) : bool := forallb (Z.eqb 0) l.

Definition bytes_eqb (a b : list Z) : bool := bool_decide (a = b).

(** ** Tactics *)

(** Case analysis on the matches and tests of a hypothesis or the goal. *)
Ltac split_match :=
  repeat (case_match; simplify_eq/=; try done).

Ltac split_match_in H :=
  repeat (match type of H with
          | context [match ?x with _ => _ end] =>
              let E := fresh "E" in destruct x eqn:E
          end; try discriminate H).

(** Arithmetic over sizes. *)
Ltac zlia := unfold zlen, is_byte, is_u16, is_u32, is_u64, u32_max, u64_max in *; lia.

(** ** Lists *)

Section lists.
Context {A : Type}.
Implicit Types l k : list A.

Lemma zlen_nonneg l : 0 <= zlen l.
Proof. zlia. Qed.

Lemma zlen_app l k : zlen (l ++ k) = zlen l + zlen k.
Proof. unfold zlen. rewrite length_app. lia. Qed.

Lemma zlen_cons x l : zlen (x :: l) = 1 + zlen l.
Proof. unfold zlen. simpl. lia. Qed.

Lemma zlen_nil : zlen ([] : list A) = 0.
Proof. done. Qed.

Lemma zlen_drop n l : zlen (drop n l) = Z.max 0 (zlen l - Z.of_nat n).
Proof. unfold zlen. rewrite length_drop. lia. Qed.

Lemma zlen_take n l : zlen (take n l) = Z.min (Z.of_nat n) (zlen l).
Proof. unfold zlen. rewrite length_take. lia. Qed.

Lemma drop_zlen_app l k : drop (Z.to_nat (zlen l)) (l ++ k) = k.
Proof. unfold zlen. rewrite Nat2Z.id. apply drop_app_length. Qed.

Lemma take_zlen_app l k : take (Z.to_nat (zlen l)) (l ++ k) = l.
Proof. unfold zlen. rewrite Nat2Z.id. apply take_app_length. Qed.

Lemma subspan_app l k : subspan 0 (zlen l) (l ++ k) = l.
Proof. unfold subspan. apply take_zlen_app. Qed.

Lemma subspan_skip (l1 l2 k : list A) n m :
  n = zlen l1 -> m = zlen l2 -> subspan n m (l1 ++ l2 ++ k) = l2.
Proof.
  intros -> ->. unfold subspan. rewrite drop_zlen_app. apply take_zlen_app.
Qed.

Lemma subspan_app_l (l k : list A) o c :
0 <= o -> 0 <= c -> o + c <= zlen l -> subspan o c (l ++ k) = subspan o c l.
Proof.
intros. unfold subspan, zlen in *. rewrite drop_app_le, take_app_le; [done | | lia].
rewrite length_drop. lia.
Qed.

Lemma zlen_subspan o c l :
  0 <= o -> 0 <= c -> o + c <= zlen l -> zlen (subspan o c l) = c.
Proof.
  intros. unfold subspan. rewrite zlen_take, zlen_drop. lia.
Qed.

Lemma app_zlen_inj (l1 l2 k1 k2 : list A) :
  zlen l1 = zlen l2 -> l1 ++ k1 = l2 ++ k2 -> l1 = l2 /\ k1 = k2.
Proof.
  intros Hlen Happ. apply app_inj_1; [zlia | done].
Qed.
End lists.

#[export] Hint Rewrite @zlen_app @zlen_cons @zlen_nil : wire.

Lemma bytes_ok_app a b : bytes_ok (a ++ b) <-> bytes_ok a /\ bytes_ok b.
Proof. apply Forall_app. Qed.

Lemma bytes_ok_cons x a : bytes_ok (x :: a) <-> is_byte x /\ bytes_ok a.
Proof. apply Forall_cons. Qed.

Lemma bytes_ok_nil : bytes_ok [].
Proof. constructor. Qed.

Lemma bytes_ok_drop n a : bytes_ok a -> bytes_ok (drop n a).
Proof. apply Forall_drop. Qed.

Lemma bytes_ok_take n a : bytes_ok a -> bytes_ok (take n a).
Proof. apply Forall_take. Qed.

Lemma bytes_ok_subspan o c a : bytes_ok a -> bytes_ok (subspan o c a).
Proof. intros. by apply Forall_take, Forall_drop. Qed.

#[export] Hint Resolve bytes_ok_nil bytes_ok_drop bytes_ok_take bytes_ok_subspan : bytes.

Lemma forallb_false {A} (f : A -> bool) l :
  forallb f l = false -> exists x, x ∈ l /\ f x = false.
Proof.
  induction l as [| x l IH]; cbn; [done |]. intros [H | (y & Hy & Hf)%IH]%andb_false_iff.
  - exists x. split; [left | done].
  - exists y. split; [by right | done].
Qed.

Lemma bytes_ok_decide a : forallb (fun b => (0 <=? b) && (b <? 256)) a = true -> bytes_ok a.
Proof.
  intros H. apply Forall_forall. intros b Hb. rewrite forallb_forall in H.
  apply list_elem_of_In, H in Hb. zlia.
Qed.

(** Decide a closed goal made of conjunctions, byte strings and comparisons of
    literals. *)
Ltac concrete :=
  repeat first
    [ apply bytes_ok_decide; vm_compute; reflexivity
    | vm_compute; reflexivity
    | vm_compute; discriminate
    | apply List.Forall_nil
    | apply List.Forall_cons
    | split ].

Lemma byte_at_is_byte l i : bytes_ok l -> is_byte (byte_at l i).
Proof.
  intros H. unfold byte_at. destruct (nth_in_or_default (Z.to_nat i) l 0) as [Hin | ->].
  - eapply Forall_forall; [exact H | by apply list_elem_of_In].
  - unfold is_byte. lia.
Qed.

#[export] Hint Resolve byte_at_is_byte : bytes.

Lemma byte_at_app l k i : 0 <= i -> byte_at (l ++ k) (zlen l + i) = byte_at k i.
Proof.
  intros. unfold byte_at, zlen. rewrite app_nth2 by lia. f_equal. lia.
Qed.

Lemma byte_at_app_zlen l k : byte_at (l ++ k) (zlen l) = byte_at k 0.
Proof. rewrite <- (Z.add_0_r (zlen l)). by apply byte_at_app. Qed.

Lemma byte_at_app_l l k i : 0 <= i < zlen l -> byte_at (l ++ k) i = byte_at l i.
Proof. intros. unfold byte_at. apply app_nth1. zlia. Qed.

Lemma bytes_eqb_eq a b : bytes_eqb a b = true <-> a = b.
Proof. unfold bytes_eqb. by rewrite bool_decide_eq_true. Qed.

Lemma bytes_eqb_refl a : bytes_eqb a a = true.
Proof. by apply bytes_eqb_eq. Qed.

(** ** Bit operations as arithmetic *)

(** A boolean property of bytes is decided by computing it on all of them. *)
Lemma byte_forall (P : Z -> bool) :
  forallb P (seqZ 0 256) = true -> forall b, is_byte b -> P b = true.
Proof.
  intros H b Hb. rewrite forallb_forall in H. apply H.
  apply list_elem_of_In, elem_of_seqZ. zlia.
Qed.

Lemma land_127 z : Z.land z 127 = z mod 128.
Proof. change 127 with (Z.ones 7). by rewrite Z.land_ones. Qed.

Lemma land_255 z : Z.land z 255 = z mod 256.
Proof. change 255 with (Z.ones 8). by rewrite Z.land_ones. Qed.

Lemma land_7 z : Z.land z 7 = z mod 8.
Proof. change 7 with (Z.ones 3). by rewrite Z.land_ones. Qed.

Lemma land_128_zero b : is_byte b -> (Z.land b 128 =? 0) = (b <? 128).
Proof.
  intros Hb. apply eqb_prop.
  exact (byte_forall (fun b => Bool.eqb (Z.land b 128 =? 0) (b <? 128)) eq_refl b Hb).
Qed.

Lemma land_240_zero b : is_byte b -> (Z.land b 240 =? 0) = (b <? 16).
Proof.
  intros Hb. apply eqb_prop.
  exact (byte_forall (fun b => Bool.eqb (Z.land b 240 =? 0) (b <? 16)) eq_refl b Hb).
Qed.

Lemma land_254_zero b : is_byte b -> (Z.land b 254 =? 0) = (b <? 2).
Proof.
  intros Hb. apply eqb_prop.
  exact (byte_forall (fun b => Bool.eqb (Z.land b 254 =? 0) (b <? 2)) eq_refl b Hb).
Qed.

Lemma lor_128 b : 0 <= b < 128 -> Z.lor b 128 = b + 128.
Proof.
  intros Hb. apply Z.eqb_eq.
  assert (H := byte_forall (fun b => (128 <=? b) || (Z.lor b 128 =? b + 128)) eq_refl b).
  zlia.
Qed.

(** Shifting into bits that are still clear is addition. *)
Lemma lor_shiftl_add a b n :
  0 <= n -> 0 <= a < 2 ^ n -> 0 <= b -> Z.lor a (Z.shiftl b n) = a + b * 2 ^ n.
Proof.
  intros Hn Ha Hb. rewrite <- Z.shiftl_mul_pow2 by lia.
  symmetry. apply Z.add_nocarry_lor. apply Z.bits_inj'. intros i Hi.
  rewrite Z.land_spec, Z.bits_0.
  destruct (Z.lt_ge_cases i n).
  - rewrite (Z.shiftl_spec_low _ _ _) by lia. by rewrite andb_false_r.
  - rewrite <- (Z.mod_small a (2 ^ n)) by lia.
    by rewrite Z.mod_pow2_bits_high by lia.
Qed.

(** Sixteen bits in network order. *)
Lemma be16_split n :
  0 <= n < 65536 ->
  Z.land (Z.shiftr n 8) 0xff = n / 256 /\ Z.land n 0xff = n mod 256 /\
  Z.lor (Z.shiftl (n / 256) 8) (n mod 256) = n.
Proof.
  intros Hn. rewrite !land_255, Z.shiftr_div_pow2 by lia. change (2 ^ 8) with 256.
  assert (Hd := Z.div_mod n 256 ltac:(lia)). assert (Hm := Z.mod_pos_bound n 256 ltac:(lia)).
  assert (Hq : 0 <= n / 256 < 256) by (split; [apply Z.div_pos; lia | apply Z.div_lt_upper_bound; lia]).
  split_and!; [by apply Z.mod_small | done |].
  rewrite Z.lor_comm, lor_shiftl_add by lia. change (2 ^ 8) with 256. lia.
Qed.

Lemma u32_small z : 0 <= z < 2 ^ 32 -> u32 z = z.
Proof. intros. by apply Z.mod_small. Qed.

Lemma u64_small z : 0 <= z < 2 ^ 64 -> u64 z = z.
Proof. intros. by apply Z.mod_small. Qed.

Lemma u64_range z : 0 <= u64 z < 2 ^ 64.
Proof. by apply Z.mod_pos_bound. Qed.

(** ** Positional notation *)

(** The number a big-endian digit string denotes. *)
Definition be (base : Z) (digits : list Z) : Z := foldl (fun a d => a * base + d) 0 digits.

Lemma be_snoc base l d : be base (l ++ [d]) = be base l * base + d.
Proof. unfold be. by rewrite foldl_app. Qed.

Lemma be_inj base l k :
  0 < base -> Forall (fun d => 0 <= d < base) l -> Forall (fun d => 0 <= d < base) k ->
  length l = length k -> be base l = be base k -> l = k.
Proof.
  intros Hb. revert k. induction l as [| x l IH] using rev_ind; intros k Hl Hk Hlen Heq.
  { destruct k; [done | discriminate]. }
  destruct k as [| y k _] using rev_ind; [by rewrite length_app in Hlen; cbn in Hlen; lia |].
  rewrite !be_snoc in Heq. rewrite !length_app in Hlen. cbn in Hlen.
  apply Forall_app in Hl as [Hl Hx%Forall_inv], Hk as [Hk Hy%Forall_inv].
  assert (be base l = be base k /\ x = y) as [Heq' ->]
    by (apply (Z.div_mod_unique base); lia).
  by rewrite (IH k) by (done || lia).
Qed.

(** A digit leaves the accumulator from the top. *)
Lemma mod_split a bits k :
  0 <= k <= bits -> a mod 2 ^ bits = (a / 2 ^ (bits - k)) mod 2 ^ k * 2 ^ (bits - k) + a mod 2 ^ (bits - k).
Proof.
  intros Hk. replace (2 ^ bits) with (2 ^ (bits - k) * 2 ^ k).
  - rewrite Z.rem_mul_r by lia. lia.
  - rewrite <- Z.pow_add_r by lia. f_equal. lia.
Qed.

(** ** Lexicographic order on byte strings *)

Lemma lex_lt_irrefl a : lex_lt a a = false.
Proof. induction a as [| x a IH]; [done |]. simpl. by rewrite Z.ltb_irrefl. Qed.

Lemma lex_lt_trans a b c : lex_lt a b = true -> lex_lt b c = true -> lex_lt a c = true.
Proof.
  revert b c. induction a as [| x a IH]; intros [| y b] [| z c]; simpl; try done.
  intros H1 H2.
  destruct (Z.ltb_spec x y), (Z.ltb_spec y z), (Z.ltb_spec x z); try done; try lia;
    destruct (Z.ltb_spec y x), (Z.ltb_spec z y), (Z.ltb_spec z x); try done; try lia.
  by apply (IH b).
Qed.

Lemma lex_lt_asym a b : lex_lt a b = true -> lex_lt b a = false.
Proof.
  intros H. destruct (lex_lt b a) eqn:E; [| done].
  by rewrite <- (lex_lt_irrefl a), (lex_lt_trans a b a).
Qed.

Lemma lex_lt_total a b : lex_lt a b = false -> lex_lt b a = false -> a = b.
Proof.
  revert b. induction a as [| x a IH]; intros [| y b]; simpl; try done.
  destruct (Z.ltb_spec x y), (Z.ltb_spec y x); try done; try lia.
  intros. assert (x = y) as -> by lia. f_equal. by apply IH.
Qed.

#[global] Arguments zlen : simpl never.
#[global] Arguments subspan : simpl never.
#[global] Arguments subspan_from : simpl never.
#[global] Arguments byte_at : simpl never.
#[global] Arguments u8 : simpl never.
#[global] Arguments u16 : simpl never.
#[global] Arguments u32 : simpl never.
#[global] Arguments u64 : simpl never.
