(* ===== verification/Errors.v ===== *)
(** * Errors and results

    [include/heyaki/error.hpp] and [src/core/error.cpp]: the error codes, the
    [Error] object whose constructor sanitises its two tokens, and [Result<T>],
    the value every fallible operation of the program returns. *)

From S2P Require Import Prelude.
From Stdlib Require Import ZArith Lia String Ascii.
From stdpp Require Import base tactics option list numbers strings.
#[local] Open Scope Z_scope.

(** [enum class ErrorCode]. *)
Module ErrorCode.
Inductive ErrorCode : Type :=
  | configuration | identity | authentication | permission | not_registered
  | enrollment_revoked | profile_locked | pairing_required | pairing_denied
  | pairing_rate_limited | peer_offline | endpoint_offline | signaling
  | nat_traversal | relay_unavailable | transport | protocol | timeout
  | cancelled | would_block | resource_exhausted | remote_error
  | outcome_unknown | internal | secret_unavailable | secret_backend_degraded
  | profile_permissions | profile_corrupt | schema_too_new | storage.
End ErrorCode.
Abbreviation ErrorCode := ErrorCode.ErrorCode.

#[export] Instance ErrorCode_eq_dec : EqDecision ErrorCode.
Proof. solve_decision. Defined.

(** The numeric values of the enumerators. *)
Definition error_code_value (code : ErrorCode) : Z :=
  match code with
  | ErrorCode.configuration => 1 | ErrorCode.identity => 2 | ErrorCode.authentication => 3 | ErrorCode.permission => 4
  | ErrorCode.not_registered => 5 | ErrorCode.enrollment_revoked => 6 | ErrorCode.profile_locked => 7
  | ErrorCode.pairing_required => 8 | ErrorCode.pairing_denied => 9 | ErrorCode.pairing_rate_limited => 10
  | ErrorCode.peer_offline => 11 | ErrorCode.endpoint_offline => 12 | ErrorCode.signaling => 13
  | ErrorCode.nat_traversal => 14 | ErrorCode.relay_unavailable => 15 | ErrorCode.transport => 16
  | ErrorCode.protocol => 17 | ErrorCode.timeout => 18 | ErrorCode.cancelled => 19 | ErrorCode.would_block => 20
  | ErrorCode.resource_exhausted => 21 | ErrorCode.remote_error => 22 | ErrorCode.outcome_unknown => 23
  | ErrorCode.internal => 24 | ErrorCode.secret_unavailable => 25 | ErrorCode.secret_backend_degraded => 26
  | ErrorCode.profile_permissions => 27 | ErrorCode.profile_corrupt => 28 | ErrorCode.schema_too_new => 29
  | ErrorCode.storage => 30
  end.

Definition error_code_name (code : ErrorCode) : string :=
  match code with
  | ErrorCode.configuration => "configuration"
  | ErrorCode.identity => "identity"
  | ErrorCode.authentication => "authentication"
  | ErrorCode.permission => "permission"
  | ErrorCode.not_registered => "not_registered"
  | ErrorCode.enrollment_revoked => "enrollment_revoked"
  | ErrorCode.profile_locked => "profile_locked"
  | ErrorCode.pairing_required => "pairing_required"
  | ErrorCode.pairing_denied => "pairing_denied"
  | ErrorCode.pairing_rate_limited => "pairing_rate_limited"
  | ErrorCode.peer_offline => "peer_offline"
  | ErrorCode.endpoint_offline => "endpoint_offline"
  | ErrorCode.signaling => "signaling"
  | ErrorCode.nat_traversal => "nat_traversal"
  | ErrorCode.relay_unavailable => "relay_unavailable"
  | ErrorCode.transport => "transport"
  | ErrorCode.protocol => "protocol"
  | ErrorCode.timeout => "timeout"
  | ErrorCode.cancelled => "cancelled"
  | ErrorCode.would_block => "would_block"
  | ErrorCode.resource_exhausted => "resource_exhausted"
  | ErrorCode.remote_error => "remote_error"
  | ErrorCode.outcome_unknown => "outcome_unknown"
  | ErrorCode.internal => "internal"
  | ErrorCode.secret_unavailable => "secret_unavailable"
  | ErrorCode.secret_backend_degraded => "secret_backend_degraded"
  | ErrorCode.profile_permissions => "profile_permissions"
  | ErrorCode.profile_corrupt => "profile_corrupt"
  | ErrorCode.schema_too_new => "schema_too_new"
  | ErrorCode.storage => "storage"
  end.

Definition max_safe_detail_bytes : Z := 64.

(** The character test of the loop in [is_safe_detail_token]. *)
Definition is_safe_detail_char (c : Z) : bool :=
  let is_lower := (97 <=? c) && (c <=? 122) in
  let is_digit := (48 <=? c) && (c <=? 57) in
  is_lower || is_digit || (c =? 95) || (c =? 45) || (c =? 46).

Definition is_safe_detail_token (value : string) : bool :=
  let chars := bytes_of_string value in
  if (zlen chars =? 0) || (max_safe_detail_bytes <? zlen chars) then false
  else forallb is_safe_detail_char chars.

(** [class Error]. Device and operation identifiers are byte arrays. *)
Record Error : Type := mkError {
  code_ : ErrorCode;
  underlying_code_ : option Z;
  peer_id_ : option (list Z);
  operation_id_ : option (list Z);
  component_ : string;
  safe_detail_ : string;
}.

(** The constructor [Error::Error]. *)
Definition make_error_full (code : ErrorCode) (component safe_detail : string)
    (underlying_code : option Z) (peer_id operation_id : option (list Z)) : Error :=
  {| code_ := code;
     underlying_code_ := underlying_code;
     peer_id_ := peer_id;
     operation_id_ := operation_id;
     component_ := if is_safe_detail_token component then component
                   else "invalid_component";
     safe_detail_ := if is_safe_detail_token safe_detail then safe_detail
                     else "invalid_safe_detail" |}.

(** The constructor with its defaulted arguments. *)
Definition make_error (code : ErrorCode) (component safe_detail : string) : Error :=
  make_error_full code component safe_detail None None None.

(** The default constructor [Error() = default]. *)
Definition default_error : Error :=
  {| code_ := ErrorCode.internal; underlying_code_ := None; peer_id_ := None;
     operation_id_ := None; component_ := "core"; safe_detail_ := "internal_error" |}.

(** [Result<T>]; [Result<void>] is [Result unit]. *)
Inductive Result (T : Type) : Type :=
  | success (value : T)
  | failure (error : Error).
Arguments success {T} value.
Arguments failure {T} error.

Definition has_value {T} (r : Result T) : bool :=
  match r with success _ => true | failure _ => false end.

(** The early return of a failed [Result] to the caller. *)
Definition result_bind {T U} (r : Result T) (k : T -> Result U) : Result U :=
  match r with success x => k x | failure e => failure e end.

Notation "'let?' x := r 'in' k" := (result_bind r (fun x => k))
  (at level 10, x name, r at level 100, k at level 200)
  : heyaki_scope.

Notation "'let?' x , y := r 'in' k" := (result_bind r (fun p => let '(x, y) := p in k))
  (at level 10, x name, y name, r at level 100, k at level 200)
  : heyaki_scope.

(** A guard that returns a failure when its condition holds. *)
Notation "'fail_if' c 'with' e ';' k" := (if c then failure e else k)
  (at level 10, c at level 100, e at level 100, k at level 200)
  : heyaki_scope.

#[global] Arguments make_error : simpl never.
#[global] Arguments make_error_full : simpl never.

(** ** Properties *)

(** What a log line or a peer may see of an error. *)
Definition error_is_safe (e : Error) : Prop :=
  is_safe_detail_token (component_ e) = true /\
  is_safe_detail_token (safe_detail_ e) = true.

Lemma result_bind_success {T U} (r : Result T) (k : T -> Result U) u :
  result_bind r k = success u <-> exists x, r = success x /\ k x = success u.
Proof. destruct r; simpl; naive_solver. Qed.

Lemma result_bind_failure {T U} (r : Result T) (k : T -> Result U) e :
  result_bind r k = failure e <->
  r = failure e \/ exists x, r = success x /\ k x = failure e.
Proof. destruct r; simpl; naive_solver. Qed.

(** Destructs the binds and guards of a computation known to succeed. *)
Ltac inv_result H :=
  repeat match type of H with
         | result_bind _ _ = success _ =>
             let x := fresh "r" in let E := fresh "E" in
             apply result_bind_success in H as (x & E & H)
         | (if ?c then failure _ else _) = success _ =>
             let E := fresh "G" in destruct c eqn:E; [discriminate H |]
         | failure _ = success _ => discriminate H
         | success _ = success _ => injection H as H; subst
         end.

(** No caller can smuggle unsafe text through an error: whatever strings the
    constructor is given, both tokens of the object it builds are safe. *)
Lemma make_error_full_safe code component detail underlying peer op :
  error_is_safe (make_error_full code component detail underlying peer op).
Proof. unfold error_is_safe, make_error_full. simpl. split; by case_match. Qed.

Lemma error_code_name_safe code : is_safe_detail_token (error_code_name code) = true.
Proof. by destruct code. Qed.

Lemma error_code_name_inj a b : error_code_name a = error_code_name b -> a = b.
Proof. destruct a, b; try done; intros H; discriminate H. Qed.

Lemma error_code_value_inj a b : error_code_value a = error_code_value b -> a = b.
Proof. destruct a, b; try done; intros H; discriminate H. Qed.
