(* ===== verification/Limits.v ===== *)
(** * Resource limits

    [include/heyaki/limits.hpp] and [src/core/limits.cpp]: the frozen ceilings
    every codec and service is configured with, and their validation. *)

From S2P Require Import Prelude Errors.
From Stdlib Require Import ZArith Lia ZifyBool String.
From stdpp Require Import base tactics option list numbers strings.
#[local] Open Scope Z_scope.

Definition kib : Z := 1024.
Definition mib : Z := 1024 * kib.
Definition gib : Z := 1024 * mib.

(** [struct Limits]. *)
Record Limits : Type := mkLimits {
  max_frame_bytes : Z;
  max_control_frame_bytes : Z;
  max_message_bytes : Z;
  max_rpc_payload_bytes : Z;
  max_event_payload_bytes : Z;
  max_send_queue_messages : Z;
  max_send_queue_bytes : Z;
  max_receive_window_frames : Z;
  max_receive_window_bytes : Z;
  max_file_bytes : Z;
  max_expanded_file_bytes : Z;
  max_file_chunk_bytes : Z;
  max_concurrent_operations : Z;
  max_pairing_payload_bytes : Z;
  max_pairing_attempts_per_session : Z;
  max_endpoint_manifest_bytes : Z;
  max_diagnostic_events : Z;
  max_shell_data_bytes : Z;
  max_shell_control_bytes : Z;
}.

(** The default member initialisers of [struct Limits]. *)
Definition default_limits : Limits :=
  {| max_frame_bytes := 2 * 1024 * 1024;
     max_control_frame_bytes := 64 * 1024;
     max_message_bytes := 1024 * 1024;
     max_rpc_payload_bytes := 1024 * 1024;
     max_event_payload_bytes := 256 * 1024;
     max_send_queue_messages := 1024;
     max_send_queue_bytes := 8 * 1024 * 1024;
     max_receive_window_frames := 256;
     max_receive_window_bytes := 4 * 1024 * 1024;
     max_file_bytes := 16 * 1024 * 1024 * 1024;
     max_expanded_file_bytes := 16 * 1024 * 1024 * 1024;
     max_file_chunk_bytes := 256 * 1024;
     max_concurrent_operations := 256;
     max_pairing_payload_bytes := 8 * 1024;
     max_pairing_attempts_per_session := 5;
     max_endpoint_manifest_bytes := 64 * 1024;
     max_diagnostic_events := 2048;
     max_shell_data_bytes := 32 * 1024;
     max_shell_control_bytes := 2 * 1024 |}.

Definition invalid_limit (name : string) : Error :=
  make_error ErrorCode.configuration "limits" name.

Definition outside (value minimum maximum : Z) : bool :=
  (value <? minimum) || (maximum <? value).

Definition max_file_limit : Z := 16 * 1024 * 1024 * 1024 * 1024.
Definition shell_data_header_bytes : Z := 28.

Definition validate_limits (limits : Limits) : Result unit :=
  fail_if outside (max_frame_bytes limits) 256 (64 * mib)
    with invalid_limit "max_frame_bytes";
  fail_if outside (max_control_frame_bytes limits) 256 (1024 * kib)
          || (max_frame_bytes limits <? max_control_frame_bytes limits)
    with invalid_limit "max_control_frame_bytes";
  fail_if outside (max_message_bytes limits) 1 (16 * mib)
          || (max_frame_bytes limits <? max_message_bytes limits)
    with invalid_limit "max_message_bytes";
  fail_if outside (max_rpc_payload_bytes limits) 1 (16 * mib)
          || (max_frame_bytes limits <? max_rpc_payload_bytes limits)
    with invalid_limit "max_rpc_payload_bytes";
  fail_if outside (max_event_payload_bytes limits) 1 (16 * mib)
          || (max_frame_bytes limits <? max_event_payload_bytes limits)
    with invalid_limit "max_event_payload_bytes";
  fail_if outside (max_send_queue_messages limits) 1 65536
    with invalid_limit "max_send_queue_messages";
  fail_if outside (max_send_queue_bytes limits) (max_frame_bytes limits) gib
    with invalid_limit "max_send_queue_bytes";
  fail_if outside (max_receive_window_frames limits) 1 65536
    with invalid_limit "max_receive_window_frames";
  fail_if outside (max_receive_window_bytes limits) (max_frame_bytes limits) gib
    with invalid_limit "max_receive_window_bytes";
  fail_if (max_file_bytes limits <? max_file_chunk_bytes limits)
          || (max_file_limit <? max_file_bytes limits)
    with invalid_limit "max_file_bytes";
  fail_if outside (max_expanded_file_bytes limits) (max_file_chunk_bytes limits) max_file_limit
    with invalid_limit "max_expanded_file_bytes";
  fail_if outside (max_file_chunk_bytes limits) (4 * kib) (1024 * kib)
          || (max_frame_bytes limits <? max_file_chunk_bytes limits)
    with invalid_limit "max_file_chunk_bytes";
  fail_if outside (max_concurrent_operations limits) 1 65536
    with invalid_limit "max_concurrent_operations";
  fail_if outside (max_pairing_payload_bytes limits) 256 (64 * kib)
          || (max_control_frame_bytes limits <? max_pairing_payload_bytes limits)
    with invalid_limit "max_pairing_payload_bytes";
  fail_if outside (max_pairing_attempts_per_session limits) 1 20
    with invalid_limit "max_pairing_attempts_per_session";
  fail_if outside (max_endpoint_manifest_bytes limits) 256 (1024 * kib)
          || (max_frame_bytes limits <? max_endpoint_manifest_bytes limits)
    with invalid_limit "max_endpoint_manifest_bytes";
  fail_if outside (max_diagnostic_events limits) 16 (1024 * 1024)
    with invalid_limit "max_diagnostic_events";
  fail_if outside (max_shell_data_bytes limits) 256 (1024 * kib)
          || (max_frame_bytes limits <? u64 (max_shell_data_bytes limits + shell_data_header_bytes))
    with invalid_limit "max_shell_data_bytes";
  fail_if outside (max_shell_control_bytes limits) 256 (64 * kib)
          || (max_frame_bytes limits <? max_shell_control_bytes limits)
    with invalid_limit "max_shell_control_bytes";
  success tt.

(** ** Properties *)

Lemma default_limits_valid : validate_limits default_limits = success tt.
Proof. reflexivity. Qed.

(** What a validated configuration guarantees: every payload ceiling fits in a
    frame, a shell slice fits together with its header, and no ceiling is
    larger than the absolute bounds. *)
Lemma validate_limits_bounds limits :
  validate_limits limits = success tt ->
  256 <= max_frame_bytes limits <= 64 * mib /\
  256 <= max_control_frame_bytes limits <= max_frame_bytes limits /\
  1 <= max_message_bytes limits <= max_frame_bytes limits /\
  1 <= max_rpc_payload_bytes limits <= max_frame_bytes limits /\
  1 <= max_event_payload_bytes limits <= max_frame_bytes limits /\
  max_frame_bytes limits <= max_send_queue_bytes limits <= gib /\
  max_frame_bytes limits <= max_receive_window_bytes limits <= gib /\
  4 * kib <= max_file_chunk_bytes limits <= max_frame_bytes limits /\
  max_file_chunk_bytes limits <= max_file_bytes limits <= max_file_limit /\
  256 <= max_pairing_payload_bytes limits <= max_control_frame_bytes limits /\
  256 <= max_shell_data_bytes limits /\
  max_shell_data_bytes limits + shell_data_header_bytes <= max_frame_bytes limits /\
  256 <= max_shell_control_bytes limits <= max_frame_bytes limits.
Proof.
  unfold validate_limits, outside. intros H. inv_result H.
  assert (Hs : 0 <= max_shell_data_bytes limits + shell_data_header_bytes < 2 ^ 64).
  { unfold shell_data_header_bytes, kib in *. lia. }
  rewrite (u64_small _ Hs) in *. unfold shell_data_header_bytes, kib, mib, gib, max_file_limit in *.
  repeat split; lia.
Qed.

(** The part the framing codecs use. *)
Lemma validate_limits_frame limits :
  validate_limits limits = success tt ->
  256 <= max_frame_bytes limits <= 64 * mib /\
  256 <= max_control_frame_bytes limits <= max_frame_bytes limits.
Proof. intros H%validate_limits_bounds. naive_solver. Qed.

Lemma validate_limits_component limits e :
  validate_limits limits = failure e -> component_ e = "limits"%string.
Proof. unfold validate_limits. intros H. split_match_in H; by injection H as <-. Qed.
