(* ===== verification/Varint.v ===== *)
(** * Base-128 varints

    The framing codecs ([src/core/wire.cpp], [src/core/frame_stream.cpp]) and
    the protobuf codec ([src/core/proto_codec.hpp]) each carry a copy of the
    same canonical varint at widths 32 and 64.  This file holds the encoder
    loop they share and a reference decoder [scan] in plain arithmetic; the
    bit-level decoders of the source are proved equal to [scan] in the files
    that model them, and the round-trip theory is proved here once. *)

From S2P Require Import Prelude.
From Stdlib Require Import ZArith Lia ZifyBool.
From stdpp Require Import base tactics option list numbers.
#[local] Open Scope Z_scope.

(** The [do ... while (value != 0)] loop of every [append_varint].  Ten turns
    are enough for a 64-bit value; see [varint_fuel]. *)
Fixpoint varint_loop (fuel : nat) (value : Z) : list Z :=
  match fuel with
  | O => []
  | S fuel =>
      let byte := Z.land value 127 in
      let value := Z.shiftr value 7 in
      if value =? 0 then [byte] else Z.lor byte 128 :: varint_loop fuel value
  end.

Definition varint (value : Z) : list Z := varint_loop 10 value.

(** The [while (value >= 0x80)] loop of [varint_size]. *)
Fixpoint varint_size_loop (fuel : nat) (value size : Z) : Z :=
  match fuel with
  | O => size
  | S fuel =>
      if 128 <=? value then varint_size_loop fuel (Z.shiftr value 7) (size + 1) else size
  end.

Definition varint_size (value : Z) : Z := varint_size_loop 10 value 1.

Inductive varint_outcome : Type :=
  | VParsed (value bytes : Z)
  | VTruncated
  | VOverflow
  | VNonCanonical.

(** Reference decoder: at most [fuel] bytes, the last of which must be below
    [last]; [weight] is [128 ^ index]. *)
Fixpoint scan (last : Z) (fuel : nat) (index weight acc : Z) (input : list Z) : varint_outcome :=
  match fuel with
  | O => VOverflow
  | S fuel =>
      match input with
      | [] => VTruncated
      | b :: rest =>
          if (fuel =? 0)%nat && (last <=? b) then VOverflow
          else
            let acc := acc + (b mod 128) * weight in
            if b <? 128 then
              if (0 <? index) && (b =? 0) then VNonCanonical else VParsed acc (index + 1)
            else scan last fuel (index + 1) (128 * weight) acc rest
      end
  end.

(** Widths 32 and 64: five bytes with the last below 16, ten with the last
    below 2. *)
Definition scan32 (input : list Z) : varint_outcome := scan 16 5 0 1 0 input.
Definition scan64 (input : list Z) : varint_outcome := scan 2 10 0 1 0 input.

(** ** The encoder *)

Lemma varint_loop_S fuel v :
  0 <= v ->
  varint_loop (S fuel) v =
  if v <? 128 then [v] else (v mod 128 + 128) :: varint_loop fuel (v / 128).
Proof.
  intros Hv. cbn [varint_loop]. rewrite land_127, Z.shiftr_div_pow2 by lia.
  change (2 ^ 7) with 128. assert (Hm := Z.mod_pos_bound v 128 ltac:(lia)).
  destruct (Z.ltb_spec v 128).
  - rewrite Z.div_small, Z.mod_small by lia. done.
  - assert (1 <= v / 128) by (apply Z.div_le_lower_bound; lia).
    rewrite (proj2 (Z.eqb_neq _ _)) by lia. by rewrite lor_128.
Qed.

(** Enough fuel gives the same encoding: [n] turns write any value below
    [128 ^ n]. *)
Lemma varint_fuel n m v :
  (1 <= n <= m)%nat -> 0 <= v < 128 ^ Z.of_nat n -> varint_loop m v = varint_loop n v.
Proof.
  revert m v. induction n as [| n IH]; intros m v Hnm Hv; [lia |].
  destruct m as [| m]; [lia |]. rewrite !varint_loop_S by lia.
  destruct (Z.ltb_spec v 128); [done |]. f_equal.
  destruct n as [| n]; [change (128 ^ Z.of_nat 1) with 128 in Hv; lia |].
  apply IH; [lia |]. split; [apply Z.div_pos; lia |].
  apply Z.div_lt_upper_bound; [lia |].
  rewrite <- Z.pow_succ_r by lia. rewrite <- Nat2Z.inj_succ. lia.
Qed.

Lemma varint_step v :
  0 <= v < 2 ^ 64 ->
  varint v = if v <? 128 then [v] else (v mod 128 + 128) :: varint (v / 128).
Proof.
  intros Hv. unfold varint. rewrite varint_loop_S by lia.
  destruct (Z.ltb_spec v 128); [done |]. f_equal.
  symmetry. apply varint_fuel; [lia |]. split; [apply Z.div_pos; lia |].
  apply Z.div_lt_upper_bound; [lia |]. change (128 ^ Z.of_nat 9) with (2 ^ 63). lia.
Qed.

(** Induction that follows the encoding of a 64-bit value. *)
Lemma varint_ind (P : Z -> Prop) :
  (forall v, 0 <= v < 128 -> P v) ->
  (forall v, 128 <= v < 2 ^ 64 -> P (v / 128) -> P v) ->
  forall v, 0 <= v < 2 ^ 64 -> P v.
Proof.
  intros Hbase Hstep v Hv. assert (Hv' := Hv). revert Hv'.
  apply (Z_lt_induction (fun v => 0 <= v < 2 ^ 64 -> P v)); [| lia].
  intros x IH Hx. destruct (Z.lt_ge_cases x 128); [apply Hbase; lia |].
  apply Hstep; [lia |]. assert (0 <= x / 128 < x) by (split; [apply Z.div_pos | apply Z.div_lt]; lia).
  apply IH; lia.
Qed.

Lemma varint_bytes_ok v : 0 <= v < 2 ^ 64 -> bytes_ok (varint v).
Proof.
  revert v. apply varint_ind; intros v Hv.
  - rewrite varint_step by lia. rewrite (proj2 (Z.ltb_lt _ _)) by lia.
    repeat constructor; lia.
  - intros IH. rewrite varint_step by lia. rewrite (proj2 (Z.ltb_ge _ _)) by lia.
    assert (Hm := Z.mod_pos_bound v 128 ltac:(lia)).
    constructor; [zlia | done].
Qed.

Lemma zlen_varint_step v :
  0 <= v < 2 ^ 64 -> zlen (varint v) = if v <? 128 then 1 else 1 + zlen (varint (v / 128)).
Proof. intros. rewrite varint_step by lia. case_match; by autorewrite with wire. Qed.

Lemma zlen_varint_bound (n : nat) v :
  (1 <= n)%nat -> 0 <= v < 2 ^ 64 -> v < 128 ^ Z.of_nat n ->
  1 <= zlen (varint v) <= Z.of_nat n.
Proof.
  revert v. induction n as [| n IH]; intros v Hn Hv Hlt; [lia |].
  rewrite zlen_varint_step by lia. destruct (Z.ltb_spec v 128); [lia |].
  destruct n as [| n]; [change (128 ^ Z.of_nat 1) with 128 in Hlt; lia |].
  assert (0 <= v / 128 < v) by (split; [apply Z.div_pos | apply Z.div_lt]; lia).
  assert (v / 128 < 128 ^ Z.of_nat (S n)).
  { apply Z.div_lt_upper_bound; [lia |]. rewrite <- Z.pow_succ_r by lia.
    rewrite <- Nat2Z.inj_succ. lia. }
  specialize (IH (v / 128) ltac:(lia) ltac:(lia) ltac:(lia)). lia.
Qed.

Lemma zlen_varint32 v : 0 <= v < 2 ^ 32 -> 1 <= zlen (varint v) <= 5.
Proof.
  intros. apply (zlen_varint_bound 5); [lia | lia |].
  change (128 ^ Z.of_nat 5) with (2 ^ 35). lia.
Qed.

Lemma zlen_varint64 v : 0 <= v < 2 ^ 64 -> 1 <= zlen (varint v) <= 10.
Proof.
  intros. apply (zlen_varint_bound 10); [lia | lia |].
  change (128 ^ Z.of_nat 10) with (2 ^ 70). lia.
Qed.

(** The size computed ahead of time is the size written. *)
Lemma varint_size_loop_spec fuel v s :
  0 <= v < 2 ^ 64 -> zlen (varint v) <= Z.of_nat fuel + 1 ->
  varint_size_loop fuel v s = s + zlen (varint v) - 1.
Proof.
  revert v s. induction fuel as [| fuel IH]; intros v s Hv; rewrite zlen_varint_step by lia.
  - assert (Hd : (v <? 128) = false -> 1 <= zlen (varint (v / 128))).
    { intros. apply zlen_varint64. split; [apply Z.div_pos; lia |].
      apply Z.div_lt_upper_bound; lia. }
    simpl. destruct (v <? 128); [lia |]. intros. specialize (Hd eq_refl). lia.
  - cbn [varint_size_loop]. rewrite Z.shiftr_div_pow2 by lia. change (2 ^ 7) with 128.
    intros Hl. destruct (Z.ltb_spec v 128), (Z.leb_spec 128 v); try lia.
    assert (0 <= v / 128 < v) by (split; [apply Z.div_pos | apply Z.div_lt]; lia).
    rewrite IH by lia. lia.
Qed.

Lemma varint_size_spec v : 0 <= v < 2 ^ 64 -> varint_size v = zlen (varint v).
Proof.
  intros Hv. assert (Hb := zlen_varint64 v Hv).
  unfold varint_size. rewrite varint_size_loop_spec; lia.
Qed.

(** ** The reference decoder *)

Section scan.
Context (last : Z) (last_range : 0 < last <= 128).

Lemma scan_cons fuel index weight acc b rest :
  scan last (S fuel) index weight acc (b :: rest) =
  if (fuel =? 0)%nat && (last <=? b) then VOverflow
  else if b <? 128 then
    if (0 <? index) && (b =? 0) then VNonCanonical
    else VParsed (acc + (b mod 128) * weight) (index + 1)
  else scan last fuel (index + 1) (128 * weight) (acc + (b mod 128) * weight) rest.
Proof. done. Qed.

(** Decoding an encoding gives the value back, and stops at its end. *)
Lemma scan_varint fuel index weight acc v rest :
  0 <= index -> 0 <= v < 2 ^ 64 -> (0 < index -> 0 < v) ->
  v < last * 128 ^ Z.of_nat fuel ->
  scan last (S fuel) index weight acc (varint v ++ rest) =
  VParsed (acc + v * weight) (index + zlen (varint v)).
Proof.
  revert index weight acc v.
  induction fuel as [| fuel IH]; intros index weight acc v Hi Hv Hpos Hlt;
    rewrite zlen_varint_step, (varint_step v) by lia.
  - assert (v < last) by (change (128 ^ Z.of_nat 0) with 1 in Hlt; lia).
    rewrite (proj2 (Z.ltb_lt v 128)) by lia. cbn [app].
    rewrite scan_cons, (proj2 (Z.leb_gt last v)) by lia. cbn [Nat.eqb andb].
    rewrite (proj2 (Z.ltb_lt v 128)), (Z.mod_small v) by lia.
    replace ((0 <? index) && (v =? 0)) with false by lia. done.
  - destruct (Z.ltb_spec v 128); cbn [app]; rewrite scan_cons; cbn [Nat.eqb andb].
    + rewrite (proj2 (Z.ltb_lt v 128)), (Z.mod_small v) by lia.
      replace ((0 <? index) && (v =? 0)) with false by lia. done.
    + assert (Hm := Z.mod_pos_bound v 128 ltac:(lia)).
      assert (Hdm := Z.div_mod v 128 ltac:(lia)).
      assert (0 <= v / 128 < v) by (split; [apply Z.div_pos | apply Z.div_lt]; lia).
      rewrite (proj2 (Z.ltb_ge (v mod 128 + 128) 128)) by lia.
      replace ((v mod 128 + 128) mod 128) with (v mod 128)
        by (rewrite Zplus_mod, Z_mod_same_full, Z.add_0_r, !Zmod_mod; done).
      rewrite (IH (index + 1) (128 * weight)); try lia.
      * f_equal; nia.
      * rewrite Nat2Z.inj_succ, Z.pow_succ_r in Hlt by lia.
        apply Z.div_lt_upper_bound; lia.
Qed.

(** Whatever it accepts is the canonical encoding of the value it returns. *)
Lemma scan_sound fuel index weight acc input v n :
  0 <= index -> bytes_ok input ->
  last * 128 ^ Z.of_nat fuel <= 2 ^ 64 ->
  scan last (S fuel) index weight acc input = VParsed v n ->
  exists u rest, v = acc + u * weight /\ n = index + zlen (varint u) /\
    input = varint u ++ rest /\ 0 <= u < last * 128 ^ Z.of_nat fuel /\ (0 < index -> 0 < u).
Proof.
  revert index weight acc input.
  induction fuel as [| fuel IH]; intros index weight acc [| b rest] Hi Hok Hbig Hs;
    try done; rewrite scan_cons in Hs;
    apply bytes_ok_cons in Hok as [Hb Hok]; unfold is_byte in Hb.
  - cbn [Nat.eqb andb] in Hs. change (128 ^ Z.of_nat 0) with 1 in *.
    destruct (Z.leb_spec last b); [done |].
    destruct (Z.ltb_spec b 128); [| done].
    destruct ((0 <? index) && (b =? 0)) eqn:E; simplify_eq.
    exists b, rest. rewrite (varint_step b), (proj2 (Z.ltb_lt b 128)), Z.mod_small by lia.
    autorewrite with wire. repeat split; lia.
  - cbn [Nat.eqb andb] in Hs.
    assert (Hpow : last * 128 ^ Z.of_nat (S fuel) = 128 * (last * 128 ^ Z.of_nat fuel)).
    { rewrite Nat2Z.inj_succ, Z.pow_succ_r by lia. lia. }
    assert (Hpos : 1 <= 128 ^ Z.of_nat fuel).
    { apply (Z.pow_le_mono_r 128 0); lia. }
    destruct (Z.ltb_spec b 128).
    + destruct ((0 <? index) && (b =? 0)) eqn:E; simplify_eq.
      exists b, rest. rewrite (varint_step b), (proj2 (Z.ltb_lt b 128)), Z.mod_small by lia.
      autorewrite with wire. repeat split; nia.
    + apply IH in Hs as (u & rest' & -> & -> & -> & Hu & Hupos); [| lia | done | lia].
      exists (b mod 128 + 128 * u), rest'.
      assert (Hm := Z.mod_pos_bound b 128 ltac:(lia)).
      assert (Hdm := Z.div_mod b 128 ltac:(lia)).
      assert (b / 128 = 1) by (assert (b / 128 < 2) by (apply Z.div_lt_upper_bound; lia);
        assert (1 <= b / 128) by (apply Z.div_le_lower_bound; lia); lia).
      assert (Hdiv : (b mod 128 + 128 * u) / 128 = u).
      { rewrite (Z.mul_comm 128 u), Z.div_add, (Z.div_small (b mod 128)) by lia. lia. }
      assert (Hmod : (b mod 128 + 128 * u) mod 128 = b mod 128).
      { rewrite (Z.mul_comm 128 u), Z.mod_add, Zmod_mod by lia. done. }
      rewrite (varint_step (b mod 128 + 128 * u)), Hdiv, Hmod by lia.
      rewrite (proj2 (Z.ltb_ge (b mod 128 + 128 * u) 128)) by lia.
      autorewrite with wire. repeat split; try nia. cbn [app]. f_equal. lia.
Qed.

(** A verdict other than truncation does not depend on later bytes. *)
Lemma scan_app fuel index weight acc input more :
  scan last fuel index weight acc input <> VTruncated ->
  scan last fuel index weight acc (input ++ more) = scan last fuel index weight acc input.
Proof.
  revert index weight acc input.
  induction fuel as [| fuel IH]; intros index weight acc [| b rest]; cbn [scan app]; try done.
  split_match; intros; try done. by apply IH.
Qed.

(** Truncation means every byte seen so far announced another one. *)
Lemma scan_truncated fuel index weight acc input :
  scan last fuel index weight acc input = VTruncated ->
  zlen input < Z.of_nat fuel.
Proof.
  revert index weight acc input.
  induction fuel as [| fuel IH]; intros index weight acc [| b rest]; cbn [scan]; try done.
  split_match. intros Ht%IH. autorewrite with wire. lia.
Qed.

Lemma scan_bytes_bound fuel index weight acc input v n :
  scan last fuel index weight acc input = VParsed v n ->
  index + 1 <= n <= index + Z.of_nat fuel /\ n - index <= zlen input.
Proof.
  revert index weight acc input.
  induction fuel as [| fuel IH]; intros index weight acc [| b rest]; cbn [scan]; try done.
  assert (Hz := zlen_nonneg rest).
  split_match; intros; simplify_eq; autorewrite with wire; [lia |].
  match goal with H : scan _ _ _ _ _ _ = _ |- _ => apply IH in H end. lia.
Qed.
End scan.

(** The two widths. *)
Lemma scan32_varint v rest :
  0 <= v < 2 ^ 32 -> scan32 (varint v ++ rest) = VParsed v (zlen (varint v)).
Proof.
  intros. unfold scan32. rewrite scan_varint; try lia.
  f_equal; lia.
Qed.

Lemma scan32_sound input v n :
  bytes_ok input -> scan32 input = VParsed v n ->
  0 <= v < 2 ^ 32 /\ n = zlen (varint v) /\ exists rest, input = varint v ++ rest.
Proof.
  intros Hok Hs. apply scan_sound in Hs as (u & rest & -> & -> & -> & Hu & _); try lia; try done.
  change (16 * 128 ^ Z.of_nat 4) with (2 ^ 32) in Hu.
  replace (0 + u * 1) with u by lia. split; [lia |]. split; [lia |]. by exists rest.
Qed.

Lemma scan64_varint v rest :
  0 <= v < 2 ^ 64 -> scan64 (varint v ++ rest) = VParsed v (zlen (varint v)).
Proof.
  intros. unfold scan64. rewrite scan_varint; try lia.
  f_equal; lia.
Qed.

Lemma scan64_sound input v n :
  bytes_ok input -> scan64 input = VParsed v n ->
  0 <= v < 2 ^ 64 /\ n = zlen (varint v) /\ exists rest, input = varint v ++ rest.
Proof.
  intros Hok Hs. apply scan_sound in Hs as (u & rest & -> & -> & -> & Hu & _); try lia; try done.
  change (2 * 128 ^ Z.of_nat 9) with (2 ^ 64) in Hu.
  replace (0 + u * 1) with u by lia. split; [lia |]. split; [lia |]. by exists rest.
Qed.

(** Varints are self-delimiting: no encoding is a prefix of another. *)
Lemma varint_prefix_free v1 v2 r1 r2 :
  0 <= v1 < 2 ^ 64 -> 0 <= v2 < 2 ^ 64 ->
  varint v1 ++ r1 = varint v2 ++ r2 -> v1 = v2 /\ r1 = r2.
Proof.
  intros H1 H2 E. assert (S1 := scan64_varint v1 r1 H1).
  rewrite E, scan64_varint in S1 by done. by simplify_eq.
Qed.

#[export] Hint Resolve varint_bytes_ok : bytes.
#[global] Arguments varint : simpl never.
#[global] Arguments varint_size : simpl never.
#[global] Arguments scan32 : simpl never.
#[global] Arguments scan64 : simpl never.
