(* ===== verification/Wire.v ===== *)
(** * The frame codec

    [include/heyaki/wire.hpp] and [src/core/wire.cpp]: frame types, the
    per-domain payload ceilings, [encode_frame] and the one-shot
    [parse_frame].  A frame on the wire is

      varint(body size) . type . flags . varint(channel) . message id (16) . payload

    The theorems say that the parser accepts exactly what the encoder writes,
    reads it back unchanged whatever bytes follow, and never changes a verdict
    when more bytes arrive. *)

From S2P Require Import Prelude Errors Limits Varint.
From Stdlib Require Import ZArith Lia ZifyBool String.
From stdpp Require Import base tactics option list numbers strings.
#[local] Open Scope Z_scope.

Module Wire.

(** [enum class FrameType]. *)
Inductive FrameType : Type :=
  | session_hello | protocol_close | ping | pong | cancel
  | session_restart_offer | session_restart_answer | session_restart_candidate
  | pairing_request | pairing_result | pairing_approval_request
  | message | message_ack
  | rpc_request | rpc_response | rpc_cancel
  | event_subscribe | event_item | event_unsubscribe
  | stream_open | stream_data | stream_window_update | stream_fin | stream_reset
  | file_manifest | file_accept | file_chunk | file_complete | file_reject
  | shell_open | shell_input | shell_output | shell_resize | shell_signal
  | shell_exit | shell_eof | shell_error | shell_close.

Definition frame_type_value (t : FrameType) : Z :=
  match t with
  | session_hello => 0x01 | protocol_close => 0x02 | ping => 0x03 | pong => 0x04
  | cancel => 0x05 | session_restart_offer => 0x06 | session_restart_answer => 0x07
  | session_restart_candidate => 0x08
  | pairing_request => 0x10 | pairing_result => 0x11 | pairing_approval_request => 0x12
  | message => 0x20 | message_ack => 0x21
  | rpc_request => 0x30 | rpc_response => 0x31 | rpc_cancel => 0x32
  | event_subscribe => 0x40 | event_item => 0x41 | event_unsubscribe => 0x42
  | stream_open => 0x50 | stream_data => 0x51 | stream_window_update => 0x52
  | stream_fin => 0x53 | stream_reset => 0x54
  | file_manifest => 0x60 | file_accept => 0x61 | file_chunk => 0x62
  | file_complete => 0x63 | file_reject => 0x64
  | shell_open => 0x70 | shell_input => 0x71 | shell_output => 0x72
  | shell_resize => 0x73 | shell_signal => 0x74 | shell_exit => 0x75
  | shell_eof => 0x76 | shell_error => 0x77 | shell_close => 0x78
  end.

(** The cases of the switch in [is_known_frame_type]. *)
Definition known_frame_types : list FrameType :=
  [session_hello; protocol_close; ping; pong; cancel; session_restart_offer;
   session_restart_answer; session_restart_candidate; pairing_request;
   pairing_result; pairing_approval_request; message; message_ack; rpc_request;
   rpc_response; rpc_cancel; event_subscribe; event_item; event_unsubscribe;
   stream_open; stream_data; stream_window_update; stream_fin; stream_reset;
   file_manifest; file_accept; file_chunk; file_complete; file_reject;
   shell_open; shell_input; shell_output; shell_resize; shell_signal;
   shell_exit; shell_eof; shell_error; shell_close].

Definition is_known_frame_type (type : Z) : bool :=
  existsb (fun t => frame_type_value t =? type) known_frame_types.

Definition frame_flag_required : Z := 0x01.
Definition frame_known_flags : Z := frame_flag_required.

Definition message_id_bytes : Z := 16.

(** [struct Frame]; [struct FrameView] has the same fields, its payload being a
    span into the parsed buffer. *)
Record Frame : Type := mkFrame {
  type : Z;
  flags : Z;
  channel_id : Z;
  message_id : list Z;
  payload : list Z;
}.

Inductive FrameParseStatus : Type := parsed | need_more | invalid.
Inductive UnknownFrameAction : Type := process | skip | close_channel.

(** [struct FrameParseResult]. *)
Record FrameParseResult : Type := mkFrameParseResult {
  status : FrameParseStatus;
  consumed : Z;
  frame : option Frame;
  error : option Error;
}.

(** [struct VarintResult]; its [detail] is read only when the status is
    [invalid]. *)
Record VarintResult : Type := mkVarintResult {
  vstatus : FrameParseStatus;
  value : Z;
  bytes : Z;
  detail : string;
}.

Definition varint_need_more : VarintResult := mkVarintResult need_more 0 0 "truncated_varint".
Definition varint_invalid (d : string) : VarintResult := mkVarintResult invalid 0 0 d.
Definition varint_parsed (v n : Z) : VarintResult := mkVarintResult parsed v n "truncated_varint".

(** The [for] loop of [decode_varint]: [fuel] is [available - index], [after]
    is what the code returns when the loop runs to its end. *)
Fixpoint decode_varint_loop (after : VarintResult) (maximum : Z) (fuel : nat)
    (index value : Z) (rest : list Z) : VarintResult :=
  match fuel, rest with
  | S fuel, byte :: rest =>
      if (index =? 4) && negb (Z.land byte 0xf0 =? 0) then varint_invalid "varint_overflow"
      else
        let value := Z.lor value (u32 (Z.shiftl (Z.land byte 0x7f) (7 * index))) in
        if Z.land byte 0x80 =? 0 then
          if (0 <? index) && (Z.land byte 0x7f =? 0) then varint_invalid "non_canonical_varint"
          else if maximum <? value then varint_invalid "varint_limit"
          else varint_parsed value (index + 1)
        else decode_varint_loop after maximum fuel (index + 1) value rest
  | _, _ => after
  end.

Definition max_varint_bytes : Z := 5.

Definition decode_varint (input : list Z) (maximum : Z) : VarintResult :=
  let available := Z.min (zlen input) max_varint_bytes in
  let after := if max_varint_bytes <=? zlen input then varint_invalid "varint_overflow"
               else varint_need_more in
  decode_varint_loop after maximum (Z.to_nat available) 0 0 input.

Definition append_varint (output : list Z) (value : Z) : list Z := output ++ varint value.

Definition wire_error (detail : string) : Error := make_error ErrorCode.protocol "wire" detail.

Definition invalid_frame (detail : string) : FrameParseResult :=
  mkFrameParseResult invalid 0 None (Some (wire_error detail)).

(** The value-initialised result, [need_more] with nothing consumed. *)
Definition need_more_result : FrameParseResult := mkFrameParseResult need_more 0 None None.

Definition is_control_type (type : Z) : bool := type <? 0x20.

Definition requires_control_channel (type : Z) : bool :=
  ((frame_type_value session_hello <=? type) && (type <=? frame_type_value pong))
  || (type =? frame_type_value pairing_request)
  || (type =? frame_type_value pairing_result)
  || (type =? frame_type_value pairing_approval_request).

Definition requires_business_channel (type : Z) : bool :=
  (frame_type_value message <=? type) && is_known_frame_type type.

Definition channel_error (type channel_id : Z) : option string :=
  if requires_control_channel type && negb (channel_id =? 0)
  then Some "control_channel_required"
  else if requires_business_channel type && (channel_id =? 0)
  then Some "business_channel_required"
  else None.

Definition file_chunk_header_bytes : Z := 60.

Definition payload_limit_error (type payload_size : Z) (limits : Limits) : option string :=
  if ((type =? frame_type_value message) || (type =? frame_type_value message_ack))
     && (max_message_bytes limits <? payload_size)
  then Some "message_payload_limit"
  else if (frame_type_value rpc_request <=? type) && (type <=? frame_type_value rpc_cancel)
     && (max_rpc_payload_bytes limits <? payload_size)
  then Some "rpc_payload_limit"
  else if (frame_type_value event_subscribe <=? type)
     && (type <=? frame_type_value event_unsubscribe)
     && (max_event_payload_bytes limits <? payload_size)
  then Some "event_payload_limit"
  else if (((frame_type_value pairing_request <=? type) && (type <=? frame_type_value pairing_result))
           || (type =? frame_type_value pairing_approval_request))
     && (max_pairing_payload_bytes limits <? payload_size)
  then Some "pairing_payload_limit"
  else if (type =? frame_type_value file_chunk)
     && (file_chunk_header_bytes <? payload_size)
     && (max_file_chunk_bytes limits <? payload_size - file_chunk_header_bytes)
  then Some "file_chunk_limit"
  else if ((type =? frame_type_value shell_input) || (type =? frame_type_value shell_output))
     && (shell_data_header_bytes <? payload_size)
     && (max_shell_data_bytes limits <? payload_size - shell_data_header_bytes)
  then Some "shell_data_limit"
  else
    let shell_control :=
      (type =? frame_type_value shell_open) || (type =? frame_type_value shell_resize)
      || (type =? frame_type_value shell_signal) || (type =? frame_type_value shell_exit)
      || (type =? frame_type_value shell_eof) || (type =? frame_type_value shell_error)
      || (type =? frame_type_value shell_close) in
    if shell_control && (max_shell_control_bytes limits <? payload_size)
    then Some "shell_control_limit"
    else None.

Definition frame_payload_limit_error := payload_limit_error.

Definition unknown_frame_action (f : Frame) : UnknownFrameAction :=
  if is_known_frame_type (type f) then process
  else if Z.land (flags f) frame_flag_required =? 0 then skip else close_channel.

Definition fixed_body_size : Z := 1 + 1 + message_id_bytes.

(** [flags & ~frame_known_flags] on [std::uint8_t] operands. *)
Definition reserved_flags (flags : Z) : Z := Z.land flags (255 - frame_known_flags).

Definition encode_frame (f : Frame) (limits : Limits) : Result (list Z) :=
  let? _ := validate_limits limits in
  fail_if negb (reserved_flags (flags f) =? 0) with wire_error "reserved_frame_flags";
  fail_if all_zero (message_id f) with wire_error "zero_message_id";
  match channel_error (type f) (channel_id f) with
  | Some d => failure (wire_error d)
  | None =>
  let channel_size := varint_size (channel_id f) in
  fail_if (max_frame_bytes limits <? zlen (payload f))
          || (max_frame_bytes limits - zlen (payload f) <? fixed_body_size + channel_size)
    with wire_error "frame_length_limit";
  match payload_limit_error (type f) (zlen (payload f)) limits with
  | Some d => failure (wire_error d)
  | None =>
  let body_size := fixed_body_size + channel_size + zlen (payload f) in
  fail_if u32_max <? body_size with wire_error "frame_length_overflow";
  fail_if is_control_type (type f) && (max_control_frame_bytes limits <? body_size)
    with wire_error "control_frame_limit";
  let output := append_varint [] (u32 body_size) in
  let output := output ++ [type f] in
  let output := output ++ [flags f] in
  let output := append_varint output (channel_id f) in
  let output := output ++ message_id f in
  let output := output ++ payload f in
  success output
  end end.

Definition minimum_body_size : Z := 1 + 1 + 1 + message_id_bytes.

(** The second half of [parse_frame], over the body of a complete frame. *)
Definition parse_body (limits : Limits) (total_size : Z) (body : list Z) : FrameParseResult :=
  let type := byte_at body 0 in
  let flags := byte_at body 1 in
  if negb (reserved_flags flags =? 0) then invalid_frame "reserved_frame_flags" else
  let channel := decode_varint (subspan_from 2 body) u32_max in
  match vstatus channel with
  | invalid => invalid_frame (detail channel)
  | need_more => invalid_frame "channel_varint_truncated"
  | parsed =>
  let message_offset := 2 + bytes channel in
  if zlen body <? message_offset + message_id_bytes
  then invalid_frame "frame_header_truncated" else
  let message_bytes := subspan message_offset message_id_bytes body in
  if all_zero message_bytes then invalid_frame "zero_message_id" else
  match channel_error type (value channel) with
  | Some d => invalid_frame d
  | None =>
  let payload := subspan_from (message_offset + message_id_bytes) body in
  match payload_limit_error type (zlen payload) limits with
  | Some d => invalid_frame d
  | None =>
      mkFrameParseResult parsed total_size
        (Some (mkFrame type flags (value channel) message_bytes payload)) None
  end end end.

Definition parse_frame (input : list Z) (limits : Limits) : FrameParseResult :=
  match validate_limits limits with
  | failure e => mkFrameParseResult invalid 0 None (Some e)
  | success _ =>
  let length := decode_varint input (u32 (Z.min (max_frame_bytes limits) u32_max)) in
  match vstatus length with
  | need_more => need_more_result
  | invalid => invalid_frame (detail length)
  | parsed =>
  if value length <? minimum_body_size then invalid_frame "frame_header_truncated" else
  if (bytes length <? zlen input) && is_control_type (byte_at input (bytes length))
     && (max_control_frame_bytes limits <? value length)
  then invalid_frame "control_frame_limit" else
  let total_size := bytes length + value length in
  if zlen input <? total_size then need_more_result else
  parse_body limits total_size (subspan (bytes length) (value length) input)
  end end.

(** The types of the C++ fields: bytes, a 32-bit channel, a 16-byte id. *)
Definition frame_ok (f : Frame) : Prop :=
  is_byte (type f) /\ is_byte (flags f) /\ is_u32 (channel_id f) /\
  bytes_ok (message_id f) /\ zlen (message_id f) = message_id_bytes /\
  bytes_ok (payload f).

End Wire.

Import Wire.

(** ** Varints of the frame header *)

(** The verdict of [decode_varint] in terms of the reference decoder. *)
Definition varint_verdict (maximum : Z) (o : varint_outcome) : VarintResult :=
  match o with
  | VParsed v n => if maximum <? v then varint_invalid "varint_limit" else varint_parsed v n
  | VTruncated => varint_need_more
  | VOverflow => varint_invalid "varint_overflow"
  | VNonCanonical => varint_invalid "non_canonical_varint"
  end.

Lemma u32_septet b index :
  is_byte b -> 0 <= index <= 4 -> (index = 4 -> b < 16) ->
  u32 (Z.shiftl (b mod 128) (7 * index)) = Z.shiftl (b mod 128) (7 * index).
Proof.
  intros Hb Hi H4. rewrite Z.shiftl_mul_pow2 by lia. apply u32_small.
  assert (Hm := Z.mod_pos_bound b 128 ltac:(lia)). unfold is_byte in Hb.
  assert (index = 0 \/ index = 1 \/ index = 2 \/ index = 3 \/ index = 4) as Hcases by lia.
  destruct Hcases as [-> | [-> | [-> | [-> | ->]]]]; cbn; try lia.
  rewrite Z.mod_small by lia. lia.
Qed.

Lemma decode_varint_loop_scan after maximum (k : nat) index value rest :
  bytes_ok rest -> index = 5 - Z.of_nat k -> 0 <= index -> 0 <= value < 2 ^ (7 * index) ->
  after = (if 5 <=? index + zlen rest then varint_invalid "varint_overflow" else varint_need_more) ->
  decode_varint_loop after maximum (Nat.min (length rest) k) index value rest =
  varint_verdict maximum (scan 16 k index (2 ^ (7 * index)) value rest).
Proof.
  revert index value rest. induction k as [| k IH]; intros index value rest Hok Hidx Hi Hv Hafter.
  - rewrite Nat.min_0_r. assert (Hz := zlen_nonneg rest).
    rewrite (proj2 (Z.leb_le 5 (index + zlen rest))) in Hafter by lia.
    rewrite Hafter. by destruct rest.
  - destruct rest as [| b rest].
    { rewrite zlen_nil in Hafter.
      rewrite (proj2 (Z.leb_gt 5 (index + 0))) in Hafter by lia. by rewrite Hafter. }
    apply bytes_ok_cons in Hok as [Hb Hok]. autorewrite with wire in Hafter.
    rewrite scan_cons. cbn [length Nat.min decode_varint_loop].
    rewrite (land_240_zero b Hb), (land_128_zero b Hb), land_127.
    replace (index =? 4) with (k =? 0)%nat by lia.
    replace (negb (b <? 16)) with (16 <=? b) by lia.
    destruct ((k =? 0)%nat && (16 <=? b)) eqn:E; [done |].
    rewrite u32_septet by (try done; lia).
    assert (Hm := Z.mod_pos_bound b 128 ltac:(lia)).
    assert (Hp : 2 ^ (7 * (index + 1)) = 128 * 2 ^ (7 * index)).
    { replace (7 * (index + 1)) with (7 + 7 * index) by lia. by rewrite Z.pow_add_r by lia. }
    rewrite lor_shiftl_add by lia.
    destruct (Z.ltb_spec b 128).
    + rewrite (Z.mod_small b) by (unfold is_byte in Hb; lia).
      destruct ((0 <? index) && (b =? 0)); [done |]. done.
    + rewrite IH; [by rewrite Hp | done | lia | lia | rewrite Hp; nia |].
      rewrite Hafter. by rewrite Z.add_assoc.
Qed.

(** The bit-level decoder is the reference decoder followed by the limit
    check. *)
Lemma decode_varint_scan input maximum :
  bytes_ok input -> decode_varint input maximum = varint_verdict maximum (scan32 input).
Proof.
  intros Hok. unfold decode_varint, max_varint_bytes.
  replace (Z.to_nat (Z.min (zlen input) 5)) with (Nat.min (length input) 5) by zlia.
  unfold scan32. change 1 with (2 ^ (7 * 0)). by apply decode_varint_loop_scan.
Qed.

Lemma decode_varint_varint v rest maximum :
  0 <= v < 2 ^ 32 -> v <= maximum -> bytes_ok rest ->
  decode_varint (varint v ++ rest) maximum = varint_parsed v (zlen (varint v)).
Proof.
  intros Hv Hm Hr.
  assert (bytes_ok (varint v ++ rest)).
  { apply bytes_ok_app. split; [apply varint_bytes_ok; lia | done]. }
  rewrite decode_varint_scan, scan32_varint by done.
  cbn. by rewrite (proj2 (Z.ltb_ge _ _)) by lia.
Qed.

Lemma decode_varint_parsed input maximum :
  bytes_ok input -> vstatus (decode_varint input maximum) = parsed ->
  exists v rest, decode_varint input maximum = varint_parsed v (zlen (varint v)) /\
    0 <= v < 2 ^ 32 /\ v <= maximum /\ input = varint v ++ rest.
Proof.
  intros Hok. rewrite decode_varint_scan by done.
  destruct (scan32 input) eqn:E; cbn; try done. case_match eqn:Em; cbn; try done.
  apply scan32_sound in E as (? & -> & rest & ->); [| done]. intros _.
  eexists _, rest. split_and!; (done || lia).
Qed.

Lemma decode_varint_app input more maximum :
  bytes_ok (input ++ more) -> vstatus (decode_varint input maximum) <> need_more ->
  decode_varint (input ++ more) maximum = decode_varint input maximum.
Proof.
  intros Hok. assert (bytes_ok input) by (apply bytes_ok_app in Hok; tauto).
  rewrite !decode_varint_scan by done. intros Hn. unfold scan32 in *. rewrite scan_app; [done |].
  intros E. by rewrite E in Hn.
Qed.

(** ** The frame layout *)

Definition frame_body (f : Frame) : list Z :=
  [type f; flags f] ++ varint (channel_id f) ++ message_id f ++ payload f.

(** What [encode_frame] requires of a frame. *)
Definition encodable (f : Frame) (limits : Limits) : Prop :=
  validate_limits limits = success tt /\
  reserved_flags (flags f) = 0 /\
  all_zero (message_id f) = false /\
  channel_error (type f) (channel_id f) = None /\
  zlen (frame_body f) <= max_frame_bytes limits /\
  payload_limit_error (type f) (zlen (payload f)) limits = None /\
  (is_control_type (type f) = true -> zlen (frame_body f) <= max_control_frame_bytes limits).

Lemma frame_body_bytes_ok f : frame_ok f -> bytes_ok (frame_body f).
Proof.
  intros (Ht & Hf & Hc & Hm & _ & Hp). unfold frame_body.
  repeat (apply bytes_ok_app; split); try done.
  - repeat (apply bytes_ok_cons; split); auto with bytes.
  - apply varint_bytes_ok. zlia.
Qed.

Lemma zlen_frame_body f :
  frame_ok f ->
  zlen (frame_body f) = fixed_body_size + varint_size (channel_id f) + zlen (payload f) /\
  1 <= varint_size (channel_id f) <= 5.
Proof.
  intros (Ht & Hf & Hc & Hm & Hl & Hp). unfold frame_body, is_u32 in *.
  assert (Hv := zlen_varint32 _ Hc). rewrite varint_size_spec by lia.
  autorewrite with wire. unfold fixed_body_size. lia.
Qed.

(** The arithmetic of the size checks, on either side. *)
Lemma frame_size_checks f limits :
  frame_ok f -> validate_limits limits = success tt ->
  let body_size := fixed_body_size + varint_size (channel_id f) + zlen (payload f) in
  zlen (frame_body f) = body_size /\
  ((max_frame_bytes limits <? zlen (payload f))
   || (max_frame_bytes limits - zlen (payload f) <? fixed_body_size + varint_size (channel_id f)))
  = negb (body_size <=? max_frame_bytes limits) /\
  (body_size <= max_frame_bytes limits -> (u32_max <? body_size) = false /\ u32 body_size = body_size).
Proof.
  intros Hok Hval body_size. destruct (zlen_frame_body f Hok) as [Hlen Hvs].
  assert (Hz := zlen_nonneg (payload f)).
  destruct (validate_limits_frame _ Hval) as [Hmf _]. unfold mib, kib in Hmf.
  split; [done |]. unfold body_size, fixed_body_size, message_id_bytes, u32_max.
  split; [lia |]. intros. split; [lia | apply u32_small; lia].
Qed.

Lemma encode_frame_layout f limits b :
  frame_ok f -> encode_frame f limits = success b ->
  encodable f limits /\ b = varint (zlen (frame_body f)) ++ frame_body f.
Proof.
  intros Hok H. unfold encode_frame in H. apply result_bind_success in H as ([] & Hval & H).
  destruct (frame_size_checks f limits Hok Hval) as (Hlen & Hfit & Hu32).
  rewrite Hfit in H. unfold encodable. rewrite Hlen.
  set (size := fixed_body_size + _ + _) in *. split_match_in H.
  destruct (Hu32 ltac:(lia)) as [_ Hu]. rewrite Hu in H. injection H as <-.
  split; [repeat split; (done || lia) |].
  unfold append_varint, frame_body. rewrite <- !app_assoc. done.
Qed.

Lemma encode_frame_complete f limits :
  frame_ok f -> encodable f limits ->
  encode_frame f limits = success (varint (zlen (frame_body f)) ++ frame_body f).
Proof.
  intros Hok (Hval & Hres & Hzero & Hch & Hmax & Hpl & Hctl).
  destruct (frame_size_checks f limits Hok Hval) as (Hlen & Hfit & Hu32).
  unfold encode_frame. rewrite Hval. cbn [result_bind].
  rewrite Hres, Hzero, Hch, Hfit, Hpl. rewrite Hlen in *.
  set (size := fixed_body_size + _ + _) in *.
  destruct (Hu32 Hmax) as [-> ->]. rewrite Z.eqb_refl. cbn [negb].
  rewrite (proj2 (Z.leb_le _ _) Hmax). cbn [negb].
  replace (is_control_type (type f) && _) with false by (destruct (is_control_type (type f)); lia).
  unfold append_varint, frame_body. rewrite <- !app_assoc. done.
Qed.

(** ** Parsing the layout back *)

Lemma parse_body_frame_body f limits total :
  frame_ok f -> encodable f limits ->
  parse_body limits total (frame_body f) = mkFrameParseResult parsed total (Some f) None.
Proof.
  intros Hok (_ & Hres & Hzero & Hch & _ & Hpl & _).
  destruct Hok as (Ht & Hf & Hc & Hm & Hl & Hp). unfold is_u32 in Hc.
  destruct f as [t fl c m p]; cbn [type flags channel_id message_id payload] in *.
  unfold parse_body, frame_body. cbn [type flags channel_id message_id payload].
  change (byte_at _ 0) with t. change (byte_at _ 1) with fl.
  rewrite Hres, Z.eqb_refl. cbn [negb].
  change (subspan_from 2 ([t; fl] ++ varint c ++ m ++ p)) with (varint c ++ m ++ p).
  rewrite decode_varint_varint by (try apply bytes_ok_app; try zlia; done).
  cbn [varint_parsed vstatus value bytes].
  assert (Hz := zlen_nonneg p).
  rewrite (proj2 (Z.ltb_ge _ _)) by (autorewrite with wire; lia).
  assert (Hpre : 2 + zlen (varint c) = zlen ([t; fl] ++ varint c)) by by autorewrite with wire.
  replace (subspan (2 + zlen (varint c)) message_id_bytes ([t; fl] ++ varint c ++ m ++ p)) with m.
  2: { rewrite app_assoc. symmetry. by apply subspan_skip. }
  replace (subspan_from (2 + zlen (varint c) + message_id_bytes) ([t; fl] ++ varint c ++ m ++ p)) with p.
  2: { unfold subspan_from. rewrite <- Hl, Hpre, <- zlen_app, !app_assoc. symmetry. apply drop_zlen_app. }
  by rewrite Hzero, Hch, Hpl.
Qed.

Lemma parse_body_sound limits total body :
  bytes_ok body -> 2 <= zlen body -> status (parse_body limits total body) = parsed ->
  exists f, frame_ok f /\ body = frame_body f /\
    reserved_flags (flags f) = 0 /\ all_zero (message_id f) = false /\
    channel_error (type f) (channel_id f) = None /\
    payload_limit_error (type f) (zlen (payload f)) limits = None /\
    parse_body limits total body = mkFrameParseResult parsed total (Some f) None.
Proof.
  intros Hok Hlen. destruct body as [| t [| fl tail]]; [done | done |]. clear Hlen.
  apply bytes_ok_cons in Hok as [Ht Hok]. apply bytes_ok_cons in Hok as [Hf Hok].
  unfold parse_body. change (byte_at _ 0) with t. change (byte_at _ 1) with fl.
  change (subspan_from 2 (t :: fl :: tail)) with tail.
  destruct (Z.eqb_spec (reserved_flags fl) 0) as [Hres | ?]; cbn [negb]; [| done].
  destruct (vstatus (decode_varint tail u32_max)) eqn:Hd; try done.
  destruct (decode_varint_parsed _ _ Hok Hd) as (c & rest & -> & Hv & _ & ->).
  cbn [varint_parsed value bytes]. apply bytes_ok_app in Hok as [_ Hrest].
  case_match eqn:Hsz; [done |]. autorewrite with wire in Hsz.
  assert (Hpre : 2 + zlen (varint c) = zlen (t :: fl :: varint c)) by (autorewrite with wire; lia).
  set (m := take 16 rest). set (p := drop 16 rest).
  assert (Hmp : rest = m ++ p) by (symmetry; apply take_drop).
  assert (Hml : zlen m = message_id_bytes).
  { unfold m. rewrite zlen_take. unfold message_id_bytes in *. lia. }
  replace (subspan (2 + zlen (varint c)) message_id_bytes (t :: fl :: varint c ++ rest)) with m.
  2: { rewrite Hmp. symmetry. apply (subspan_skip (t :: fl :: varint c) m p); done. }
  replace (subspan_from (2 + zlen (varint c) + message_id_bytes) (t :: fl :: varint c ++ rest)) with p.
  2: { rewrite Hpre, Hmp. unfold subspan_from. rewrite <- Hml, <- zlen_app.
       change (t :: fl :: varint c ++ m ++ p) with ((t :: fl :: varint c) ++ m ++ p).
       rewrite app_assoc. symmetry. apply drop_zlen_app. }
  destruct (all_zero m) eqn:Hzero; [done |].
  destruct (channel_error t c) eqn:Hch; [done |].
  destruct (payload_limit_error t (zlen p) limits) eqn:Hpl; [done |]. intros _.
  exists (mkFrame t fl c m p). unfold frame_ok, frame_body.
  cbn [type flags channel_id message_id payload].
  split_and!; try done; try (rewrite Hmp; done); unfold m, p; auto with bytes.
Qed.

(** ** The one-shot parser *)

(** The stages of [parse_frame] up to the body, for an input that starts with
    the encoding of a frame size. *)
Lemma parse_frame_prefix size body rest limits :
  validate_limits limits = success tt ->
  bytes_ok (body ++ rest) -> zlen body = size -> size <= max_frame_bytes limits ->
  parse_frame (varint size ++ body ++ rest) limits =
  if size <? minimum_body_size then invalid_frame "frame_header_truncated" else
  if is_control_type (byte_at body 0) && (max_control_frame_bytes limits <? size)
  then invalid_frame "control_frame_limit" else
  parse_body limits (zlen (varint size) + size) body.
Proof.
  intros Hval Hok Hsize Hmax. destruct (validate_limits_frame _ Hval) as [Hmf _].
  unfold mib, kib in Hmf. assert (Hz := zlen_nonneg body). assert (Hr := zlen_nonneg rest).
  unfold parse_frame. rewrite Hval, u32_small by (unfold u32_max; lia).
  rewrite decode_varint_varint by (unfold u32_max; try done; lia).
  cbn [varint_parsed vstatus value bytes].
  destruct (Z.ltb_spec size minimum_body_size) as [| Hmin]; [done |].
  unfold minimum_body_size, message_id_bytes in Hmin. autorewrite with wire.
  rewrite (proj2 (Z.ltb_lt _ _)) by lia. cbn [andb].
  rewrite byte_at_app_zlen, byte_at_app_l by lia. case_match; [done |].
  rewrite (proj2 (Z.ltb_ge _ _)) by lia.
  by rewrite (subspan_skip _ body rest) by done.
Qed.

(** Round trip: parsing the bytes [encode_frame] writes, whatever follows
    them in the buffer, returns the same frame and consumes exactly those
    bytes. *)
Lemma parse_encode_frame f limits b rest :
  frame_ok f -> bytes_ok rest -> encode_frame f limits = success b ->
  parse_frame (b ++ rest) limits = mkFrameParseResult parsed (zlen b) (Some f) None.
Proof.
  intros Hok Hrest (Henc & ->)%encode_frame_layout; [| done].
  assert (Henc' := Henc). destruct Henc' as (Hval & Hres & Hzero & Hch & Hmax & Hpl & Hctl).
  assert (Hbody := frame_body_bytes_ok f Hok).
  destruct (zlen_frame_body f Hok) as [Hlen Hvs]. assert (Hz := zlen_nonneg (payload f)).
  rewrite <- app_assoc, parse_frame_prefix by (try apply bytes_ok_app; done).
  rewrite (proj2 (Z.ltb_ge _ _)) by (unfold minimum_body_size, fixed_body_size in *; lia).
  change (byte_at (frame_body f) 0) with (type f).
  replace (is_control_type (type f) && _) with false by (destruct (is_control_type (type f)); lia).
  rewrite parse_body_frame_body by done. by autorewrite with wire.
Qed.

(** Canonicity: whatever [parse_frame] accepts is the encoding of the frame it
    returns. *)
Lemma parse_frame_canonical input limits f n e :
  bytes_ok input -> parse_frame input limits = mkFrameParseResult parsed n (Some f) e ->
  frame_ok f /\ n <= zlen input /\
  encode_frame f limits = success (take (Z.to_nat n) input).
Proof.
  intros Hin H. unfold parse_frame in H.
  destruct (validate_limits limits) as [[] | ?] eqn:Hval; [| done].
  destruct (validate_limits_frame _ Hval) as [Hmf _]. unfold mib, kib in Hmf.
  destruct (vstatus (decode_varint input _)) eqn:Hd; try done.
  destruct (decode_varint_parsed _ _ Hin Hd) as (size & rest & Hdec & Hv & Hmax & ->).
  rewrite Hdec in H. clear Hd Hdec. cbn [varint_parsed value bytes] in H.
  rewrite u32_small in * by (unfold u32_max; lia). apply bytes_ok_app in Hin as [Hvok Hrest]. autorewrite with wire in H.
  destruct (Z.ltb_spec size minimum_body_size) as [| Hmin]; [done |].
  unfold minimum_body_size, message_id_bytes in Hmin.
  case_match eqn:Hctl; [done |]. case_match eqn:Htot; [done |].
  assert (Hbody : subspan (zlen (varint size)) size (varint size ++ rest) = take (Z.to_nat size) rest)
    by (unfold subspan; by rewrite drop_zlen_app).
  rewrite Hbody in H. set (body := take (Z.to_nat size) rest) in *.
  assert (Hlb : zlen body = size) by (unfold body; rewrite zlen_take; lia).
  destruct (parse_body_sound limits (zlen (varint size) + size) body)
    as (g & Hg & Hbg & Hres & Hzero & Hch & Hpl & Hpb);
    [by apply bytes_ok_take | lia | by rewrite H |].
  rewrite Hpb in H. injection H as <- -> <-. split; [done |]. autorewrite with wire. split; [lia |].
  assert (Htype : byte_at (varint size ++ rest) (zlen (varint size)) = type f).
  { rewrite byte_at_app_zlen, <- (take_drop (Z.to_nat size) rest). fold body.
    rewrite byte_at_app_l by lia. by rewrite Hbg. }
  rewrite Htype in Hctl.
  assert (Henc : encodable f limits).
  { unfold encodable. rewrite <- Hbg, Hlb. split_and!; try done; lia. }
  rewrite (encode_frame_complete f limits Hg Henc). f_equal. rewrite <- Hbg, Hlb.
  replace (Z.to_nat (zlen (varint size) + size))
    with (length (varint size) + Z.to_nat size)%nat by zlia.
  by rewrite take_app_add.
Qed.

(** Once a prefix of the stream has been accepted or rejected, no later byte
    changes the verdict. *)
Lemma parse_frame_stable input more limits :
  bytes_ok (input ++ more) -> status (parse_frame input limits) <> need_more ->
  parse_frame (input ++ more) limits = parse_frame input limits.
Proof.
  intros Hok Hns. assert (Hin : bytes_ok input) by (apply bytes_ok_app in Hok; tauto).
  unfold parse_frame in *.
  destruct (validate_limits limits) as [[] |] eqn:Hval; [| done].
  destruct (vstatus (decode_varint input _)) eqn:Hd; try done;
    rewrite decode_varint_app by (rewrite ?Hd; done); rewrite Hd; [| done].
  destruct (decode_varint_parsed _ _ Hin Hd) as (size & rest & Hdec & Hv & _ & Heq).
  rewrite Hdec in *. cbn [varint_parsed value bytes] in *.
  assert (Hz : zlen (varint size) <= zlen input)
    by (rewrite Heq; autorewrite with wire; assert (Hr := zlen_nonneg rest); lia).
  assert (Hvz := zlen_nonneg (varint size)). assert (Hm := zlen_nonneg more).
  destruct (Z.ltb_spec size minimum_body_size) as [| Hmin]; [done |].
  unfold minimum_body_size, message_id_bytes in Hmin.
  destruct (Z.ltb_spec (zlen (varint size)) (zlen input)) as [Hlt |]; cbn [andb] in *.
  2: { rewrite (proj2 (Z.ltb_lt (zlen input) _)) in Hns by lia. done. }
  autorewrite with wire. rewrite (proj2 (Z.ltb_lt (zlen (varint size)) _)) by lia. cbn [andb].
  rewrite byte_at_app_l by lia. case_match eqn:Hctl; [done |].
  destruct (Z.ltb_spec (zlen input) (zlen (varint size) + size)); [done |].
  rewrite (proj2 (Z.ltb_ge _ _)) by lia. by rewrite subspan_app_l by lia.
Qed.

Lemma parse_frame_need_more_bound input limits :
  bytes_ok input -> status (parse_frame input limits) = need_more ->
  zlen input < max_varint_bytes + max_frame_bytes limits.
Proof.
  intros Hin Hs. unfold parse_frame in Hs.
  destruct (validate_limits limits) as [[] |] eqn:Hval; [| done].
  destruct (validate_limits_frame _ Hval) as [Hmf _]. unfold mib, kib in Hmf.
  rewrite u32_small in Hs by (unfold u32_max; lia).
  destruct (vstatus (decode_varint input _)) eqn:Hd; [| | done].
  - destruct (decode_varint_parsed _ _ Hin Hd) as (size & rest & Hdec & Hv & Hmax & _).
    rewrite Hdec in Hs. cbn [varint_parsed value bytes] in Hs.
    assert (Hb := zlen_varint32 size Hv).
    repeat case_match; try done; unfold max_varint_bytes; [lia |].
    unfold parse_body in Hs. by repeat case_match.
  - rewrite decode_varint_scan in Hd by done. unfold max_varint_bytes, scan32 in *.
    destruct (scan _ _ _ _ _ _) eqn:E in Hd; cbn in Hd; try done; [by split_match_in Hd |].
    apply scan_truncated in E. lia.
Qed.

Lemma encode_frame_pos f limits b :
  frame_ok f -> encode_frame f limits = success b -> 0 < zlen b.
Proof.
  intros Hok (Henc & ->)%encode_frame_layout; [| done].
  destruct (zlen_frame_body f Hok) as [Hlen Hvs]. assert (Hz := zlen_nonneg (payload f)).
  assert (Hv := zlen_nonneg (varint (zlen (frame_body f)))).
  autorewrite with wire. unfold fixed_body_size, message_id_bytes in *. lia.
Qed.

(** C1. The parser accepts exactly what the encoder writes: [parse_frame]
    returns frame [f] and consumes [n] bytes if and only if the input starts
    with the [n] bytes [encode_frame] produces for [f], whatever follows. So the
    round trip is lossless, no two encodings parse to the same frame, and the
    encoder accepts every frame the parser produces. *)
Theorem parse_frame_exact input limits f n :
  bytes_ok input ->
  parse_frame input limits = mkFrameParseResult parsed n (Some f) None <->
  frame_ok f /\ exists b rest,
    encode_frame f limits = success b /\ input = b ++ rest /\ n = zlen b.
Proof.
  intros Hin. split.
  - intros H. destruct (parse_frame_canonical _ _ _ _ _ Hin H) as (Hok & Hn & Henc).
    assert (Hpos := encode_frame_pos _ _ _ Hok Henc). rewrite zlen_take in Hpos.
    split; [done |]. eexists _, (drop (Z.to_nat n) input). rewrite take_drop, zlen_take.
    split_and!; [exact Henc | done | lia].
  - intros (Hok & b & rest & Henc & -> & ->). apply bytes_ok_app in Hin as [_ Hr].
    by apply parse_encode_frame.
Qed.

(** Incremental reading: while [parse_frame] asks for more bytes the caller
    holds less than one maximum frame and its length prefix, and once it has
    accepted or rejected a prefix no later byte changes the verdict, the frame
    or the error. *)
Theorem parse_frame_incremental input limits :
  bytes_ok input ->
  match status (parse_frame input limits) with
  | need_more => zlen input < max_varint_bytes + max_frame_bytes limits
  | _ => forall more, bytes_ok more -> parse_frame (input ++ more) limits = parse_frame input limits
  end.
Proof.
  intros Hin. destruct (status (parse_frame input limits)) eqn:Hs;
    [| by apply parse_frame_need_more_bound |];
    intros more Hm; apply parse_frame_stable; (by apply bytes_ok_app) || congruence.
Qed.

(** ** Witnesses *)

(** A message frame on channel 300 with a three-byte payload, and its wire
    image: the two-byte channel varint and the 16-byte message id included. *)
Definition sample_id : list Z := [1; 2; 3; 4; 5; 6; 7; 8; 9; 10; 11; 12; 13; 14; 15; 16].
Definition sample_frame : Frame := mkFrame 0x20 0 300 sample_id [104; 105; 33].
Definition sample_bytes : list Z :=
  [23; 0x20; 0; 172; 2] ++ sample_id ++ [104; 105; 33].

Lemma parse_frame_exact_witness :
  parse_frame (sample_bytes ++ [7; 7]) default_limits =
  mkFrameParseResult parsed 24 (Some sample_frame) None.
Proof.
  apply parse_frame_exact; [concrete |]. split; [concrete |].
  exists sample_bytes, [7; 7]. split; [vm_compute; reflexivity | done].
Defined.

Lemma parse_frame_incremental_witness :
  match status (parse_frame (take 20 sample_bytes) default_limits) with
  | need_more => zlen (take 20 sample_bytes) < max_varint_bytes + max_frame_bytes default_limits
  | _ => forall more, bytes_ok more ->
         parse_frame (take 20 sample_bytes ++ more) default_limits
         = parse_frame (take 20 sample_bytes) default_limits
  end.
Proof. apply parse_frame_incremental. concrete. Defined.
