(* ===== verification/FrameStream.v ===== *)
(** * The incremental framing codec

    [src/core/frame_stream.cpp] and [include/heyaki/frame_stream.hpp]:
    [FrameStreamDecoder] keeps a buffer, the offset of its unread part, the end
    of the last view and a poisoned flag, and hands out one frame at a time from
    arbitrary byte chunks; [FrameStreamEncoder] appends frames to a caller's
    buffer. A read past the end of the pending bytes is undefined behaviour in
    the source, and the model of the operation is then [None]. *)

From Stdlib Require Import ZArith Lia ZifyBool String.
From stdpp Require Import base tactics option list numbers strings relations.
From S2P Require Import Prelude Errors Limits Varint Wire.

#[local] Open Scope Z_scope.

Module FrameStreamStatus.
Inductive FrameStreamStatus : Type := parsed | need_more | invalid.
End FrameStreamStatus.
Abbreviation FrameStreamStatus := FrameStreamStatus.FrameStreamStatus.

Module FrameStream.
Import Wire.

Definition frame_stream_error (code : ErrorCode) (detail : string) : Error :=
  make_error code "frame_stream" detail.

Definition max_frame_length_varint_bytes : Z := 5.

(** The same loop as [decode_varint] of wire.cpp, with the constant above and a
    status type of its own. *)
Definition decode_length_varint (input : list Z) (maximum : Z) : VarintResult :=
  let available := Z.min (zlen input) max_frame_length_varint_bytes in
  let after := if max_frame_length_varint_bytes <=? zlen input
               then varint_invalid "varint_overflow" else varint_need_more in
  decode_varint_loop after maximum (Z.to_nat available) 0 0 input.

Definition minimum_frame_body_bytes : Z := 1 + 1 + 1 + message_id_bytes.

Record FrameStreamStep : Type := mkStep {
  step_status : FrameStreamStatus;
  step_frame : option Frame;
  step_error : option Error;
}.

Record FrameStreamDecoder : Type := mkDecoder {
  limits_ : Limits;
  buffer_ : list Z;
  offset_ : Z;
  last_view_end_ : option Z;
  poisoned_ : bool;
}.

(** The constructor. *)
Definition new_decoder (limits : Limits) : FrameStreamDecoder :=
  mkDecoder limits [] 0 None false.

Definition poison (d : FrameStreamDecoder) : FrameStreamDecoder :=
  mkDecoder (limits_ d) (buffer_ d) (offset_ d) (last_view_end_ d) true.

Definition append (d : FrameStreamDecoder) (bytes : list Z)
    : Result unit * FrameStreamDecoder :=
  if poisoned_ d then (failure (frame_stream_error ErrorCode.protocol "decoder_poisoned"), d) else
  match validate_limits (limits_ d) with
  | failure e => (failure e, poison d)
  | success _ =>
      let '(buffer, offset) :=
        if (0 <? offset_ d) && (offset_ d =? zlen (buffer_ d)) then ([], 0)
        else if 0 <? offset_ d then (subspan_from (offset_ d) (buffer_ d), 0)
        else (buffer_ d, offset_ d) in
      (success tt, mkDecoder (limits_ d) (buffer ++ bytes) offset None false)
  end.

(** The value-initialised step, and a step that poisons the decoder. *)
Definition need_more_step : FrameStreamStep := mkStep FrameStreamStatus.need_more None None.

Definition invalid_step (d : FrameStreamDecoder) (e : Error)
    : option (FrameStreamStep * FrameStreamDecoder) :=
  Some (mkStep FrameStreamStatus.invalid None (Some e), poison d).

Definition stream_invalid (d : FrameStreamDecoder) (detail : string)
    : option (FrameStreamStep * FrameStreamDecoder) :=
  invalid_step d (frame_stream_error ErrorCode.protocol detail).

(** [requires_control], the same in the decoder and the encoder. *)
Definition stream_requires_control (type : Z) : bool :=
  ((frame_type_value session_hello <=? type) && (type <=? frame_type_value pong))
  || (type =? frame_type_value pairing_request)
  || (type =? frame_type_value pairing_result).

(** The checks on a processed frame, from [unknown_frame_action] on; [None]
    when all pass. *)
Definition view_error (limits : Limits) (view : Frame) : option string :=
  match unknown_frame_action view with
  | process =>
      let requires_business := frame_type_value message <=? type view in
      if stream_requires_control (type view) && negb (channel_id view =? 0)
      then Some "control_channel_required"
      else if requires_business && (channel_id view =? 0)
      then Some "business_channel_required"
      else frame_payload_limit_error (type view) (zlen (payload view)) limits
  | _ => None
  end.

(** [next_view] over the body of a complete frame. *)
Definition next_view_body (d : FrameStreamDecoder) (total : Z) (body : list Z)
    : option (FrameStreamStep * FrameStreamDecoder) :=
  let type := byte_at body 0 in
  let flags := byte_at body 1 in
  if negb (reserved_flags flags =? 0) then stream_invalid d "reserved_frame_flags" else
  let channel := decode_length_varint (subspan_from 2 body) u32_max in
  match vstatus channel with
  | invalid => stream_invalid d (detail channel)
  | need_more => stream_invalid d "channel_varint_truncated"
  | parsed =>
  let message_offset := 2 + bytes channel in
  if zlen body <? message_offset + message_id_bytes
  then stream_invalid d "frame_header_truncated" else
  let message_bytes := subspan message_offset message_id_bytes body in
  if all_zero message_bytes then stream_invalid d "zero_message_id" else
  let payload_offset := message_offset + message_id_bytes in
  let payload := subspan_from payload_offset body in
  let view := mkFrame type flags (value channel) message_bytes payload in
  match view_error (limits_ d) view with
  | Some detail => stream_invalid d detail
  | None =>
      Some (mkStep FrameStreamStatus.parsed (Some view) None,
            mkDecoder (limits_ d) (buffer_ d) (offset_ d) (Some (offset_ d + total)) (poisoned_ d))
  end end.

Definition next_view (d : FrameStreamDecoder) : option (FrameStreamStep * FrameStreamDecoder) :=
  if poisoned_ d
  then Some (mkStep FrameStreamStatus.invalid None
               (Some (frame_stream_error ErrorCode.protocol "decoder_poisoned")), d)
  else
  match validate_limits (limits_ d) with
  | failure e => invalid_step d e
  | success _ =>
  let pending := subspan_from (offset_ d) (buffer_ d) in
  let maximum := u32 (Z.min (max_frame_bytes (limits_ d)) u32_max) in
  let length := decode_length_varint pending maximum in
  match vstatus length with
  | need_more => Some (need_more_step, d)
  | invalid => stream_invalid d (detail length)
  | parsed =>
  if value length <? minimum_frame_body_bytes
  then stream_invalid d "frame_header_truncated" else
  match pending !! Z.to_nat (bytes length) with
  | None => None
  | Some first =>
  if is_control_type first && (max_control_frame_bytes (limits_ d) <? value length)
  then stream_invalid d "control_frame_limit" else
  let total := bytes length + value length in
  if zlen pending <? total then
    let retention_ceiling := max_frame_length_varint_bytes
                             + Z.min (max_frame_bytes (limits_ d)) u32_max in
    if retention_ceiling <? zlen pending
    then stream_invalid d "frame_length_limit"
    else Some (need_more_step, d)
  else next_view_body d total (subspan (bytes length) (value length) pending)
  end end end.

Definition consume_view (d : FrameStreamDecoder) : Result unit * FrameStreamDecoder :=
  match last_view_end_ d with
  | None => (failure (frame_stream_error ErrorCode.configuration "no_frame_to_consume"), d)
  | Some offset =>
      if offset =? zlen (buffer_ d)
      then (success tt, mkDecoder (limits_ d) [] 0 None (poisoned_ d))
      else (success tt, mkDecoder (limits_ d) (buffer_ d) offset None (poisoned_ d))
  end.

Definition take_frame (d : FrameStreamDecoder)
    : option (Result (option Frame) * FrameStreamDecoder) :=
  match next_view d with
  | None => None
  | Some (step, d) =>
      match step_status step, step_frame step, step_error step with
      | FrameStreamStatus.need_more, _, _ => Some (success None, d)
      | FrameStreamStatus.invalid, _, Some e => Some (failure e, d)
      | FrameStreamStatus.parsed, Some view, _ =>
          match consume_view d with
          | (failure e, d) => Some (failure e, d)
          | (success _, d) => Some (success (Some view), d)
          end
      | _, _, _ => None
      end
  end.

Definition buffered_bytes (d : FrameStreamDecoder) : Z := zlen (buffer_ d) - offset_ d.

Definition reset (d : FrameStreamDecoder) : FrameStreamDecoder :=
  mkDecoder (limits_ d) [] 0 None false.

(** ** FrameStreamEncoder *)

Definition encoded_size (limits : Limits) (channel_id payload_size : Z) : Result Z :=
  let body_size := u64 (fixed_body_size + varint_size channel_id + payload_size) in
  fail_if (max_frame_bytes limits <? payload_size) || (max_frame_bytes limits <? body_size)
          || (u32_max <? body_size)
    with frame_stream_error ErrorCode.protocol "frame_length_limit";
  success (varint_size (u32 body_size) + body_size).

(** Returns the value the source returns and the extended output. *)
Definition encode_header (limits : Limits) (output : list Z) (type flags channel_id : Z)
    (message_id : list Z) (payload_size : Z) : Result (Z * list Z) :=
  let? _ := validate_limits limits in
  fail_if negb (reserved_flags flags =? 0)
    with frame_stream_error ErrorCode.protocol "reserved_frame_flags";
  fail_if all_zero message_id with frame_stream_error ErrorCode.protocol "zero_message_id";
  let requires_business := (frame_type_value message <=? type) && is_known_frame_type type in
  fail_if stream_requires_control type && negb (channel_id =? 0)
    with frame_stream_error ErrorCode.protocol "control_channel_required";
  fail_if requires_business && (channel_id =? 0)
    with frame_stream_error ErrorCode.protocol "business_channel_required";
  let? size := encoded_size limits channel_id payload_size in
  fail_if is_control_type type && (max_control_frame_bytes limits <? size)
    with frame_stream_error ErrorCode.protocol "control_frame_limit";
  let body_size := u64 (fixed_body_size + varint_size channel_id + payload_size) in
  let output := append_varint output (u32 body_size) in
  let payload_offset := zlen output in
  let output := output ++ [type] in
  let output := output ++ [flags] in
  let output := append_varint output channel_id in
  let output := output ++ message_id in
  success (payload_offset, output).

Definition encode (limits : Limits) (output : list Z) (view : Frame) : Result (Z * list Z) :=
  let? header := encode_header limits output (type view) (flags view) (channel_id view)
                   (message_id view) (zlen (payload view)) in
  success (fst header + zlen (payload view), snd header ++ payload view).

End FrameStream.

Import Wire FrameStream.

(** ** The decoder against the one-shot parser *)

(** The unread bytes of a decoder. *)
Definition pending (d : FrameStreamDecoder) : list Z := subspan_from (offset_ d) (buffer_ d).

(** The representation invariant of the class. *)
Definition decoder_wf (d : FrameStreamDecoder) : Prop :=
  bytes_ok (buffer_ d) /\ 0 <= offset_ d <= zlen (buffer_ d) /\
  (forall e, last_view_end_ d = Some e -> offset_ d <= e <= zlen (buffer_ d)).

(** The pending bytes are a complete length prefix and nothing else. *)
Definition bare_length (limits : Limits) (p : list Z) : Prop :=
  exists v, p = varint v /\ minimum_frame_body_bytes <= v <= max_frame_bytes limits.

(** The pending bytes start a [pairing_approval_request] frame. *)
Definition approval_next (p : list Z) : Prop :=
  exists v rest, p = varint v ++ frame_type_value pairing_approval_request :: rest.

(** The step that reports a result of [parse_frame], under the component name
    of the streaming decoder, and the decoder after it. *)
Definition stream_error_of (e : Error) : Error :=
  if bool_decide (component_ e = "wire"%string)
  then mkError (code_ e) (underlying_code_ e) (peer_id_ e) (operation_id_ e)
         "frame_stream" (safe_detail_ e)
  else e.

Definition stream_status_of (s : FrameParseStatus) : FrameStreamStatus :=
  match s with
  | parsed => FrameStreamStatus.parsed
  | need_more => FrameStreamStatus.need_more
  | invalid => FrameStreamStatus.invalid
  end.

Definition step_of (r : FrameParseResult) : FrameStreamStep :=
  mkStep (stream_status_of (status r)) (frame r) (option_map stream_error_of (error r)).

Definition settle (d : FrameStreamDecoder) (r : FrameParseResult) : FrameStreamDecoder :=
  match status r with
  | parsed => mkDecoder (limits_ d) (buffer_ d) (offset_ d)
                (Some (offset_ d + consumed r)) (poisoned_ d)
  | need_more => d
  | invalid => poison d
  end.

Lemma stream_invalid_settle d detail :
  stream_invalid d detail = Some (step_of (invalid_frame detail), settle d (invalid_frame detail)).
Proof. done. Qed.

(** Only known types have a payload limit or a channel rule. *)
Definition limited_type (t : Z) : bool :=
  (t =? 0x20) || (t =? 0x21) || ((0x30 <=? t) && (t <=? 0x32)) || ((0x40 <=? t) && (t <=? 0x42))
  || ((0x10 <=? t) && (t <=? 0x12)) || (t =? 0x62) || ((0x70 <=? t) && (t <=? 0x78)).

Lemma payload_limit_unlimited t n limits :
  limited_type t = false -> payload_limit_error t n limits = None.
Proof.
  unfold limited_type, payload_limit_error. cbn [frame_type_value]. intros H.
  repeat (case_match; [exfalso; lia |]). done.
Qed.

Lemma unknown_type_free t n c limits :
  is_byte t -> is_known_frame_type t = false ->
  channel_error t c = None /\ payload_limit_error t n limits = None.
Proof.
  intros Ht Hk.
  assert (Hb := byte_forall (fun t => is_known_frame_type t
    || negb (limited_type t || requires_control_channel t)) eq_refl t Ht).
  cbv beta in Hb. rewrite Hk in Hb. apply negb_true_iff, orb_false_iff in Hb as [Hl Hc].
  split; [| by apply payload_limit_unlimited].
  unfold channel_error, requires_business_channel. by rewrite Hc, Hk, andb_false_r.
Qed.

(** What [parse_frame] checks once the fields are known. *)
Definition wire_view_error (limits : Limits) (f : Frame) : option string :=
  match channel_error (type f) (channel_id f) with
  | Some d => Some d
  | None => payload_limit_error (type f) (zlen (payload f)) limits
  end.

Lemma view_error_agrees limits f :
  is_byte (type f) ->
  type f <> frame_type_value pairing_approval_request \/ wire_view_error limits f = None ->
  view_error limits f = wire_view_error limits f.
Proof.
  intros Ht Hx. unfold view_error, wire_view_error, unknown_frame_action in *.
  destruct (is_known_frame_type (type f)) eqn:Hk.
  2: { destruct (unknown_type_free _ (zlen (payload f)) (channel_id f) limits Ht Hk) as [-> ->].
       by destruct (Z.land _ _ =? 0). }
  unfold channel_error, requires_control_channel, requires_business_channel,
    stream_requires_control, frame_payload_limit_error in *.
  rewrite Hk in *. cbn [frame_type_value] in *.
  destruct Hx as [Hne | Hx]; [rewrite (proj2 (Z.eqb_neq _ _) Hne) | revert Hx];
    rewrite ?andb_true_r, ?orb_false_r; repeat case_match; try done; lia.
Qed.

Lemma decode_length_varint_eq input maximum :
  decode_length_varint input maximum = decode_varint input maximum.
Proof. done. Qed.

Lemma next_view_body_agrees d total body :
  is_byte (byte_at body 0) ->
  byte_at body 0 <> frame_type_value pairing_approval_request \/
  status (parse_body (limits_ d) total body) <> invalid ->
  next_view_body d total body =
  Some (step_of (parse_body (limits_ d) total body), settle d (parse_body (limits_ d) total body)).
Proof.
  intros Ht. unfold next_view_body, parse_body.
  setoid_rewrite decode_length_varint_eq.
  destruct (negb _); [done |].
  destruct (vstatus (decode_varint _ _)); [| done | done].
  destruct (zlen body <? _); [done |].
  destruct (all_zero _); [done |].
  set (f := mkFrame _ _ _ _ _). intros Hx.
  rewrite (view_error_agrees (limits_ d) f Ht).
  - unfold wire_view_error. cbn [f type channel_id payload].
    destruct (channel_error _ _); [done |]. by destruct (payload_limit_error _ _ _).
  - destruct Hx as [Hx | Hx]; [by left | right]. unfold wire_view_error. cbn [f type channel_id payload].
    destruct (channel_error _ _); [done |]. by destruct (payload_limit_error _ _ _).
Qed.

Lemma lookup_byte_at (l : list Z) i : 0 <= i < zlen l -> l !! Z.to_nat i = Some (byte_at l i).
Proof.
  intros Hi. unfold byte_at. destruct (lookup_lt_is_Some_2 l (Z.to_nat i)) as [b Hb]; [zlia |].
  by rewrite Hb, (nth_lookup_Some _ _ _ _ Hb).
Qed.

Lemma byte_at_subspan o c (l : list Z) :
  0 <= o -> 0 < c -> byte_at (subspan o c l) 0 = byte_at l o.
Proof.
  intros Ho Hc. unfold byte_at, subspan. rewrite !nth_lookup.
  rewrite lookup_take_lt, lookup_drop by lia. do 2 f_equal. lia.
Qed.

(** Off the two exceptions, one step of the decoder is one call of
    [parse_frame] on the pending bytes. *)
Lemma next_view_step d :
  decoder_wf d -> poisoned_ d = false ->
  ~ (validate_limits (limits_ d) = success tt /\ bare_length (limits_ d) (pending d)) ->
  ~ approval_next (pending d) \/ status (parse_frame (pending d) (limits_ d)) <> invalid ->
  next_view d = Some (step_of (parse_frame (pending d) (limits_ d)),
                      settle d (parse_frame (pending d) (limits_ d))).
Proof.
  intros (Hok & Hoff & _) Hp Hbare Hx. unfold next_view, parse_frame in *. rewrite Hp.
  destruct (validate_limits (limits_ d)) as [[] | e] eqn:Hval.
  2: { apply validate_limits_component in Hval. unfold invalid_step, step_of, settle, stream_error_of.
       cbn. by rewrite bool_decide_false by congruence. }
  destruct (validate_limits_frame _ Hval) as [Hmf _]. unfold mib, kib in Hmf.
  fold (pending d) in *. assert (Hpok : bytes_ok (pending d)) by by apply bytes_ok_drop.
  rewrite decode_length_varint_eq. rewrite u32_small in * by (unfold u32_max; lia).
  rewrite Z.min_l in * by (unfold u32_max; lia).
  destruct (vstatus (decode_varint (pending d) _)) eqn:Hd; [| done | done].
  destruct (decode_varint_parsed _ _ Hpok Hd) as (size & rest & Hdec & Hv & Hmax & Heq).
  rewrite Hdec in *. cbn [varint_parsed value bytes] in *.
  change minimum_frame_body_bytes with minimum_body_size.
  destruct (Z.ltb_spec size minimum_body_size) as [| Hmin]; [done |].
  destruct rest as [| t rest].
  { rewrite app_nil_r in Heq. destruct Hbare. split; [done |]. by exists size. }
  assert (Hlk : zlen (varint size) < zlen (pending d))
    by (rewrite Heq; autorewrite with wire; assert (Hr := zlen_nonneg rest); lia).
  assert (Hz := zlen_nonneg (varint size)). rewrite lookup_byte_at by lia.
  rewrite (proj2 (Z.ltb_lt _ _) Hlk) in *. cbn [andb] in *.
  destruct (is_control_type _ && _); [done |].
  destruct (Z.ltb_spec (zlen (pending d)) (zlen (varint size) + size)) as [Hlt | Hge].
  { assert (Hb := zlen_varint32 size Hv). unfold max_frame_length_varint_bytes.
    by rewrite (proj2 (Z.ltb_ge _ _)) by lia. }
  unfold minimum_body_size, message_id_bytes in Hmin.
  assert (Hfirst : byte_at (subspan (zlen (varint size)) size (pending d)) 0 = t).
  { rewrite byte_at_subspan by lia. rewrite Heq. apply byte_at_app_zlen. }
  apply next_view_body_agrees; rewrite Hfirst.
  - rewrite Heq in Hpok. apply bytes_ok_app in Hpok as [_ Hpok]. by apply bytes_ok_cons in Hpok as [].
  - destruct Hx as [Hx | Hx]; [left | by right]. intros ->. apply Hx. by exists size, rest.
Qed.

Lemma next_view_body_some d total body : is_Some (next_view_body d total body).
Proof. unfold next_view_body, stream_invalid, invalid_step. repeat case_match; by eexists. Qed.

Lemma next_view_bare d :
  decoder_wf d -> poisoned_ d = false -> validate_limits (limits_ d) = success tt ->
  bare_length (limits_ d) (pending d) -> next_view d = None.
Proof.
  intros (Hok & Hoff & _) Hp Hval (v & Heq & Hv). unfold next_view. rewrite Hp, Hval.
  destruct (validate_limits_frame _ Hval) as [Hmf _]. unfold mib, kib in Hmf.
  fold (pending d). rewrite u32_small, Z.min_l by (unfold u32_max; lia).
  unfold minimum_frame_body_bytes, message_id_bytes in Hv.
  assert (Hdec : decode_length_varint (pending d) (max_frame_bytes (limits_ d)) =
                 varint_parsed v (zlen (varint v))).
  { rewrite Heq, <- (app_nil_r (varint v)) at 1.
    by apply decode_varint_varint; [lia | lia | apply bytes_ok_nil]. }
  rewrite Hdec. cbn [varint_parsed vstatus value bytes].
  rewrite (proj2 (Z.ltb_ge v minimum_frame_body_bytes))
    by (unfold minimum_frame_body_bytes, message_id_bytes; lia).
  by rewrite Heq, lookup_ge_None_2 by zlia.
Qed.

Lemma next_view_none d :
  decoder_wf d -> next_view d = None ->
  validate_limits (limits_ d) = success tt /\ bare_length (limits_ d) (pending d).
Proof.
  intros (Hok & Hoff & _). unfold next_view. destruct (poisoned_ d); [done |].
  destruct (validate_limits (limits_ d)) as [[] |] eqn:Hval; [| done]. intros Hn. split; [done |].
  destruct (validate_limits_frame _ Hval) as [Hmf _]. unfold mib, kib in Hmf. revert Hn.
  fold (pending d). assert (Hpok : bytes_ok (pending d)) by by apply bytes_ok_drop.
  rewrite decode_length_varint_eq, u32_small, Z.min_l by (unfold u32_max; lia).
  destruct (vstatus (decode_varint (pending d) _)) eqn:Hd; [| done | done].
  destruct (decode_varint_parsed _ _ Hpok Hd) as (size & rest & -> & Hv & Hmax & Heq).
  cbn [varint_parsed value bytes]. destruct (Z.ltb_spec size minimum_frame_body_bytes); [done |].
  destruct (pending d !! _) eqn:Hlk.
  - destruct (is_control_type _ && _); [done |]. repeat case_match; try done.
    by destruct (next_view_body_some d (zlen (varint size) + size)
      (subspan (zlen (varint size)) size (pending d))) as [? ->].
  - intros _. exists size. split; [| lia]. apply lookup_ge_None_1 in Hlk. rewrite Heq in Hlk |- *.
    rewrite length_app in Hlk. destruct rest; [by rewrite app_nil_r | cbn in Hlk; zlia].
Qed.

(** C40. The streaming decoder against the one-shot parser, on a decoder that is not
    poisoned. [next_view] reads past the end of its buffer exactly when the pending
    bytes are one complete length prefix; whenever it returns, and the pending
    bytes are not an approval request that [parse_frame] rejects, it reports what
    [parse_frame] says of them, frame and error detail included, poisons itself on a
    violation and remembers the end of a parsed frame. On a rejected approval
    request the two differ, as [approval_channel_divergence] shows. *)
Theorem next_view_agrees d :
  decoder_wf d -> poisoned_ d = false ->
  (next_view d = None <->
     validate_limits (limits_ d) = success tt /\ bare_length (limits_ d) (pending d)) /\
  (forall s, next_view d = Some s ->
     ~ approval_next (pending d) \/ status (parse_frame (pending d) (limits_ d)) <> invalid ->
     s = (step_of (parse_frame (pending d) (limits_ d)),
          settle d (parse_frame (pending d) (limits_ d)))).
Proof.
  intros Hwf Hp. split.
  - split; [by apply next_view_none | intros []; by apply next_view_bare].
  - intros s Hs Hx. rewrite next_view_step in Hs; [congruence | done | done | | done].
    intros [Hval Hb]. by rewrite (next_view_bare d Hwf Hp Hval Hb) in Hs.
Qed.

(** ** The decoder as a state machine *)

Lemma next_view_inv d s d' :
  decoder_wf d -> next_view d = Some (s, d') ->
  d' = d \/ d' = poison d \/
  exists total, 0 <= total <= zlen (pending d) /\
    d' = mkDecoder (limits_ d) (buffer_ d) (offset_ d) (Some (offset_ d + total)) (poisoned_ d).
Proof.
  intros (Hok & Hoff & _). unfold next_view, stream_invalid, invalid_step.
  destruct (poisoned_ d) eqn:Hp; [naive_solver |].
  destruct (validate_limits (limits_ d)); [| naive_solver]. fold (pending d).
  assert (Hpok : bytes_ok (pending d)) by by apply bytes_ok_drop.
  rewrite decode_length_varint_eq.
  destruct (vstatus (decode_varint (pending d) _)) eqn:Hd; [| naive_solver | naive_solver].
  destruct (decode_varint_parsed _ _ Hpok Hd) as (size & rest & -> & Hv & _ & _).
  cbn [varint_parsed value bytes]. destruct (size <? _); [naive_solver |].
  destruct (pending d !! _); [| done]. destruct (_ && _); [naive_solver |].
  destruct (Z.ltb_spec (zlen (pending d)) (zlen (varint size) + size)).
  { destruct (_ <? _); naive_solver. }
  assert (Hz := zlen_nonneg (varint size)).
  unfold next_view_body, stream_invalid, invalid_step. intros Hs. split_match_in Hs;
    injection Hs as <- <-; auto.
  right. right. exists (zlen (varint size) + size). rewrite Hp. split; [lia | done].
Qed.

Lemma next_view_wf d s d' : decoder_wf d -> next_view d = Some (s, d') -> decoder_wf d'.
Proof.
  intros Hwf H. destruct (next_view_inv _ _ _ Hwf H) as [-> | [-> | (total & Ht & ->)]]; [done | done |].
  destruct Hwf as (Hok & Hoff & _). split_and!; cbn; try done; [lia | lia |].
  unfold pending, subspan_from in Ht. rewrite zlen_drop in Ht. intros e [= <-]. lia.
Qed.

(** [append] drops what was consumed and extends the pending bytes. *)
Lemma append_eq d c :
  decoder_wf d -> poisoned_ d = false -> validate_limits (limits_ d) = success tt ->
  append d c = (success tt, mkDecoder (limits_ d) (pending d ++ c) 0 None false).
Proof.
  intros (_ & Hoff & _) Hp Hval. unfold append, pending, subspan_from. rewrite Hp, Hval.
  destruct (Z.ltb_spec 0 (offset_ d)); cbn [andb].
  - destruct (Z.eqb_spec (offset_ d) (zlen (buffer_ d))) as [-> |]; [| done].
    by rewrite drop_ge by zlia.
  - replace (offset_ d) with 0 by lia. by rewrite drop_0.
Qed.

Lemma append_wf d c : decoder_wf d -> bytes_ok c -> decoder_wf (snd (append d c)).
Proof.
  intros Hwf Hc. destruct (poisoned_ d) eqn:Hp; [unfold append; by rewrite Hp |].
  destruct (validate_limits (limits_ d)) as [[] |] eqn:Hval;
    [| unfold append; by rewrite Hp, Hval].
  rewrite append_eq by done. destruct Hwf as (Hok & _). split_and!; cbn; try done; [| zlia].
  apply bytes_ok_app. split; [by apply bytes_ok_drop | done].
Qed.

Lemma consume_view_wf d : decoder_wf d -> decoder_wf (snd (consume_view d)).
Proof.
  intros Hwf. unfold consume_view. destruct (last_view_end_ d) as [e |] eqn:He; [| done].
  destruct Hwf as (Hok & Hoff & Hend). specialize (Hend e He). case_match; split_and!; cbn; try done; try lia. apply bytes_ok_nil.
Qed.

Lemma take_frame_wf d r d' : decoder_wf d -> take_frame d = Some (r, d') -> decoder_wf d'.
Proof.
  intros Hwf. unfold take_frame. destruct (next_view d) as [[s d1] |] eqn:Hn; [| done].
  apply next_view_wf in Hn; [| done]. assert (Hc := consume_view_wf d1 Hn).
  intros H. split_match_in H; injection H as _ <-; by try (rewrite E3 in Hc).
Qed.

(** One call on a decoder: a chunk of bytes arrives, or the owner looks at,
    consumes or takes a frame, or resets. *)
Inductive decoder_call : FrameStreamDecoder -> FrameStreamDecoder -> Prop :=
  | call_append d chunk : bytes_ok chunk -> decoder_call d (snd (append d chunk))
  | call_next_view d s d' : next_view d = Some (s, d') -> decoder_call d d'
  | call_consume_view d : decoder_call d (snd (consume_view d))
  | call_take_frame d r d' : take_frame d = Some (r, d') -> decoder_call d d'
  | call_reset d : decoder_call d (reset d).

(** Class invariant: after any sequence of calls on a fresh decoder the read
    offset and the end of the last view lie inside the buffer, in that order, so
    [buffered_bytes] never wraps and [erase] and [subspan] stay in range. *)
Theorem decoder_reachable_wf limits d :
  rtc decoder_call (new_decoder limits) d ->
  decoder_wf d /\ buffered_bytes d = zlen (pending d).
Proof.
  intros H. assert (Hwf : decoder_wf d).
  { apply (rtc_ind_r (fun d => decoder_wf d) (new_decoder limits)) in H; [done | |].
    - split_and!; cbn; try done; [apply bytes_ok_nil].
    - intros d1 d2 _ Hc Hwf. destruct Hc;
        eauto using append_wf, next_view_wf, consume_view_wf, take_frame_wf.
      split_and!; cbn; try done. apply bytes_ok_nil. }
  split; [done |]. destruct Hwf as (_ & Hoff & _).
  unfold buffered_bytes, pending, subspan_from. rewrite zlen_drop. lia.
Qed.

(** ** Delivery of a byte stream in chunks *)

(** The reference: the frames [parse_frame] finds one after another at the front
    of [input], and the incomplete remainder. *)
Inductive frames_of (limits : Limits) : list Z -> list Frame -> list Z -> Prop :=
  | frames_end input :
      status (parse_frame input limits) = need_more -> frames_of limits input [] input
  | frames_next input f n fs rest :
      parse_frame input limits = mkFrameParseResult parsed n (Some f) None ->
      frames_of limits (subspan_from n input) fs rest ->
      frames_of limits input (f :: fs) rest.

(** The owner's loop: take frames until none is complete. *)
Fixpoint drain (fuel : nat) (d : FrameStreamDecoder) : option (list Frame * FrameStreamDecoder) :=
  match fuel with
  | O => None
  | S fuel =>
      match take_frame d with
      | Some (success (Some f), d) =>
          match drain fuel d with
          | Some (fs, d) => Some (f :: fs, d)
          | None => None
          end
      | Some (_, d) => Some ([], d)
      | None => None
      end
  end.

(** Every chunk is appended and the complete frames are taken at once. *)
Fixpoint deliver (d : FrameStreamDecoder) (chunks : list (list Z))
    : option (list Frame * FrameStreamDecoder) :=
  match chunks with
  | [] => Some ([], d)
  | c :: chunks =>
      match append d c with
      | (failure _, d) => Some ([], d)
      | (success _, d) =>
          match drain (S (length (buffer_ d))) d with
          | None => None
          | Some (fs, d) =>
              match deliver d chunks with
              | Some (gs, d) => Some (fs ++ gs, d)
              | None => None
              end
          end
      end
  end.

(** No chunk ends right after a length prefix. *)
Definition clean_cuts (limits : Limits) (chunks : list (list Z)) : Prop :=
  forall k fs rest, frames_of limits (concat (take k chunks)) fs rest -> ~ bare_length limits rest.

Section delivery.
Context (limits : Limits) (limits_valid : validate_limits limits = success tt).

(** A live decoder holding [p] unread. *)
Definition live (d : FrameStreamDecoder) (p : list Z) : Prop :=
  decoder_wf d /\ poisoned_ d = false /\ limits_ d = limits /\ pending d = p.

Lemma bare_length_need_more p :
  bare_length limits p -> status (parse_frame p limits) = need_more.
Proof.
  intros (v & -> & Hv). destruct (validate_limits_frame _ limits_valid) as [Hmf _].
  unfold mib, kib, minimum_frame_body_bytes, message_id_bytes in *.
  unfold parse_frame. rewrite limits_valid, u32_small, Z.min_l by (unfold u32_max; lia).
  rewrite <- (app_nil_r (varint v)), decode_varint_varint, app_nil_r
    by (try apply bytes_ok_nil; unfold u32_max; lia).
  cbn [varint_parsed vstatus value bytes]. rewrite (Z.ltb_irrefl (zlen _)). cbn [andb].
  rewrite (proj2 (Z.ltb_ge v _)) by (unfold minimum_body_size, message_id_bytes; lia).
  by rewrite (proj2 (Z.ltb_lt (zlen (varint v)) _)) by lia.
Qed.

Lemma take_frame_parsed d p f n :
  live d p -> parse_frame p limits = mkFrameParseResult parsed n (Some f) None ->
  0 < n <= zlen p /\
  exists d', take_frame d = Some (success (Some f), d') /\ live d' (subspan_from n p).
Proof.
  intros (Hwf & Hp & Hl & <-) Hparse.
  assert (Hpok : bytes_ok (pending d)) by apply bytes_ok_drop, Hwf.
  assert (Hn : 0 < n <= zlen (pending d)).
  { destruct (parse_frame_canonical _ _ _ _ _ Hpok Hparse) as (Hok & Hn & Henc).
    apply encode_frame_pos in Henc; [| done]. rewrite zlen_take in Henc. lia. }
  split; [done |]. assert (Hstep := next_view_step d Hwf Hp). rewrite Hl, Hparse in Hstep.
  unfold take_frame. rewrite Hstep; [| | by right].
  2: { intros [_ Hb%bare_length_need_more]. by rewrite Hparse in Hb. }
  cbn [step_of status step_status stream_status_of step_frame frame settle consumed error].
  unfold consume_view. cbn [last_view_end_ buffer_ limits_ poisoned_].
  destruct Hwf as (Hok & Hoff & _). unfold pending, subspan_from in *. rewrite zlen_drop in Hn.
  destruct (Z.eqb_spec (offset_ d + n) (zlen (buffer_ d))); (eexists; split; [reflexivity |]);
    unfold live, decoder_wf, pending, subspan_from; cbn; split_and!;
    auto with bytes; try zlia; try done.
  - by rewrite drop_drop, (drop_ge (buffer_ d)) by zlia.
  - rewrite drop_drop. f_equal. lia.
Qed.

Lemma take_frame_need_more d p :
  live d p -> status (parse_frame p limits) = need_more -> ~ bare_length limits p ->
  take_frame d = Some (success None, d).
Proof.
  intros (Hwf & Hp & Hl & <-) Hs Hb. assert (Hstep := next_view_step d Hwf Hp). rewrite Hl in Hstep.
  unfold take_frame. rewrite Hstep; [| tauto | by right; rewrite Hs].
  unfold settle, step_of. rewrite Hs. done.
Qed.

Lemma drain_frames_of fuel d p fs rest :
  live d p -> frames_of limits p fs rest -> ~ bare_length limits rest -> zlen p < Z.of_nat fuel ->
  exists d', drain fuel d = Some (fs, d') /\ live d' rest.
Proof.
  intros Hlive Hfs Hb. revert fuel d Hlive.
  induction Hfs as [input Hs | input f n fs rest Hparse Hfs IH]; intros [| fuel] d Hlive Hfuel;
    try (assert (Hz := zlen_nonneg input); lia); cbn [drain].
  - rewrite (take_frame_need_more d input) by done. by exists d.
  - destruct (take_frame_parsed d input f n Hlive Hparse) as (Hn & d1 & -> & Hlive1).
    destruct (IH Hb fuel d1 Hlive1) as (d2 & -> & Hlive2).
    + unfold subspan_from. rewrite zlen_drop. lia.
    + by exists d2.
Qed.

Lemma frames_of_rest p fs rest :
  frames_of limits p fs rest -> status (parse_frame rest limits) = need_more.
Proof. by induction 1. Qed.

Lemma frames_of_stuck p fs rest :
  status (parse_frame p limits) = need_more -> frames_of limits p fs rest -> fs = [] /\ rest = p.
Proof. intros Hs Hfs. destruct Hfs as [| ????? Hparse]; [done |]. by rewrite Hparse in Hs. Qed.

Lemma parse_frame_app_parsed p more f n :
  bytes_ok (p ++ more) -> parse_frame p limits = mkFrameParseResult parsed n (Some f) None ->
  parse_frame (p ++ more) limits = mkFrameParseResult parsed n (Some f) None /\
  0 < n <= zlen p /\ subspan_from n (p ++ more) = subspan_from n p ++ more.
Proof.
  intros Hok Hparse. rewrite parse_frame_stable by (try done; by rewrite Hparse).
  split; [done |]. assert (Hp : bytes_ok p) by (apply bytes_ok_app in Hok; tauto).
  destruct (parse_frame_canonical _ _ _ _ _ Hp Hparse) as (Hf & Hn & Henc).
  apply encode_frame_pos in Henc; [| done]. rewrite zlen_take in Henc.
  split; [lia |]. unfold subspan_from. rewrite drop_app_le by zlia. done.
Qed.

Lemma frames_of_app p more fs1 rest1 fs2 rest :
  bytes_ok (p ++ more) -> frames_of limits p fs1 rest1 ->
  frames_of limits (rest1 ++ more) fs2 rest -> frames_of limits (p ++ more) (fs1 ++ fs2) rest.
Proof.
  intros Hok H1 H2. induction H1 as [input Hs | input f n fs1 rest1 Hparse H1 IH]; [done |].
  destruct (parse_frame_app_parsed input more f n Hok Hparse) as (Hparse' & Hn & Hdrop).
  cbn [app]. apply (frames_next limits _ f n); [done |]. rewrite Hdrop. apply IH; [| done].
  rewrite <- Hdrop. by apply bytes_ok_drop.
Qed.

(** A legal stream can be cut anywhere. *)
Lemma frames_of_split p more fs rest :
  bytes_ok (p ++ more) -> frames_of limits (p ++ more) fs rest ->
  exists fs1 rest1 fs2, frames_of limits p fs1 rest1 /\
    frames_of limits (rest1 ++ more) fs2 rest /\ fs = fs1 ++ fs2.
Proof.
  intros Hok Hfs. remember (p ++ more) as input eqn:Heq. revert p Heq.
  induction Hfs as [input Hs | input f n fs rest Hparse Hfs IH]; intros p ->.
  - exists [], p, []. split_and!; [| by apply frames_end | done]. apply frames_end.
    destruct (status (parse_frame p limits)) eqn:Hsp; try done;
      rewrite parse_frame_stable in Hs by (try done; by rewrite Hsp); congruence.
  - destruct (status (parse_frame p limits)) eqn:Hsp.
    2: { exists [], p, (f :: fs). split_and!; [by apply frames_end | | done].
         by apply (frames_next limits _ f n). }
    all: rewrite parse_frame_stable in Hparse by (try done; by rewrite Hsp).
    2: by rewrite Hparse in Hsp.
    destruct (parse_frame_app_parsed p more f n Hok Hparse) as (_ & Hn & Hdrop).
    destruct (IH ltac:(by apply bytes_ok_drop) (subspan_from n p) Hdrop)
      as (fs1 & rest1 & fs2 & H1 & H2 & ->).
    exists (f :: fs1), rest1, fs2. split_and!; [by apply (frames_next limits _ f n) | done | done].
Qed.

Lemma deliver_frames_of chunks d p fs rest :
  live d p -> bytes_ok (p ++ concat chunks) -> status (parse_frame p limits) = need_more ->
  frames_of limits (p ++ concat chunks) fs rest ->
  (forall k gs q, frames_of limits (p ++ concat (take k chunks)) gs q -> ~ bare_length limits q) ->
  exists d', deliver d chunks = Some (fs, d') /\ live d' rest.
Proof.
  revert d p fs. induction chunks as [| c chunks IH]; intros d p fs Hlive Hok Hs Hfs Hcuts.
  { cbn in Hfs. rewrite app_nil_r in Hfs. destruct (frames_of_stuck _ _ _ Hs Hfs) as [-> ->].
    by exists d. }
  cbn [concat] in Hok, Hfs. rewrite app_assoc in Hok, Hfs.
  destruct (frames_of_split _ _ _ _ Hok Hfs) as (fs1 & rest1 & fs2 & H1 & H2 & ->).
  cbn [deliver]. destruct Hlive as (Hwf & Hp & Hl & <-). rewrite append_eq by congruence.
  apply bytes_ok_app in Hok as [Hokp Hokc].
  set (d1 := mkDecoder _ _ _ _ _).
  assert (Hlive1 : live d1 (pending d ++ c)).
  { unfold live, decoder_wf, d1, pending at 1, subspan_from. cbn. split_and!; try done; zlia. }
  destruct (drain_frames_of (S (length (buffer_ d1))) d1 _ _ _ Hlive1 H1) as (d2 & -> & Hlive2).
  { apply (Hcuts 1%nat fs1). cbn. by rewrite app_nil_r. }
  { cbn. zlia. }
  assert (Hok1 : bytes_ok (rest1 ++ concat chunks)).
  { clear -H1 Hokp Hokc. induction H1; [by apply bytes_ok_app | apply IHframes_of; by apply bytes_ok_drop]. }
  destruct (IH d2 rest1 fs2 Hlive2 Hok1) as (d3 & -> & Hlive3);
    [by eapply frames_of_rest | done | | by exists d3].
  intros k gs q Hk. apply (Hcuts (S k) (fs1 ++ gs)). cbn [take concat]. rewrite app_assoc.
  eapply frames_of_app; [| done | done]. apply bytes_ok_app. split; [done |].
  clear -Hokc. revert k. induction chunks as [| c0 chunks IHc]; intros [| k]; cbn; try done; [apply bytes_ok_nil |].
  apply bytes_ok_app in Hokc as []. apply bytes_ok_app. auto.
Qed.

Lemma frames_of_encoded fs bs :
  Forall2 (fun f b => frame_ok f /\ encode_frame f limits = success b) fs bs ->
  bytes_ok (concat bs) /\ frames_of limits (concat bs) fs [].
Proof.
  induction 1 as [| f b fs bs [Hf Henc] _ [IHok IH]].
  { split; [apply bytes_ok_nil |]. apply frames_end. unfold parse_frame. by rewrite limits_valid. }
  cbn [concat]. split.
  - apply bytes_ok_app. split; [| done]. apply encode_frame_layout in Henc as [(_ & _ & _ & _ & Hmax & _) ->]; [| done].
    destruct (validate_limits_frame _ limits_valid) as [Hmf _]. unfold mib, kib in Hmf.
    apply bytes_ok_app. split; [| by apply frame_body_bytes_ok].
    apply varint_bytes_ok. assert (Hz := zlen_nonneg (frame_body f)). lia.
  - apply (frames_next limits _ f (zlen b)); [by apply parse_encode_frame |].
    unfold subspan_from. by rewrite drop_zlen_app.
Qed.

End delivery.

(** C32. Framing is lossless under any delivery: however the transport cuts a
    sequence of encoded frames into chunks, as long as no chunk ends right
    after a length prefix, taking frames after each chunk returns exactly the
    frames that were encoded, in order, and leaves the decoder empty and
    usable. *)
Theorem deliver_encoded limits fs bs chunks :
  validate_limits limits = success tt ->
  Forall2 (fun f b => frame_ok f /\ encode_frame f limits = success b) fs bs ->
  concat chunks = concat bs -> clean_cuts limits chunks ->
  exists d, deliver (new_decoder limits) chunks = Some (fs, d) /\
            buffered_bytes d = 0 /\ poisoned_ d = false.
Proof.
  intros Hval Henc Hcat Hcuts. destruct (frames_of_encoded _ Hval _ _ Henc) as [Hok Hfs].
  destruct (deliver_frames_of limits Hval chunks (new_decoder limits) [] fs []) as (d & Hd & Hlive);
    [| by cbn; rewrite Hcat | | by cbn; rewrite Hcat | exact Hcuts |].
  - split_and!; try done. split_and!; cbn; auto with bytes; done.
  - unfold parse_frame. by rewrite Hval.
  - exists d. destruct Hlive as ((_ & Hoff & _) & Hp & _ & Hpend). split_and!; [done | | done].
    assert (Hz : zlen (pending d) = 0) by by rewrite Hpend.
    unfold pending, subspan_from in Hz. rewrite zlen_drop in Hz. unfold buffered_bytes. lia.
Qed.

(** ** The encoder *)

Lemma encode_header_layout limits output f off out :
  frame_ok f ->
  encode_header limits output (type f) (flags f) (channel_id f) (message_id f)
    (zlen (payload f)) = success (off, out) ->
  let size := zlen (frame_body f) in
  validate_limits limits = success tt /\ reserved_flags (flags f) = 0 /\
  all_zero (message_id f) = false /\ size <= max_frame_bytes limits /\
  (stream_requires_control (type f) = true -> channel_id f = 0) /\
  (requires_business_channel (type f) = true -> channel_id f <> 0) /\
  encoded_size limits (channel_id f) (zlen (payload f)) = success (zlen (varint size) + size) /\
  (is_control_type (type f) = true -> zlen (varint size) + size <= max_control_frame_bytes limits) /\
  off = zlen output + zlen (varint size) /\
  out ++ payload f = output ++ varint size ++ frame_body f.
Proof.
  intros Hok H size. unfold encode_header, encoded_size in H |- *. inv_result H.
  destruct r. inv_result E0. rename E into Hval.
  assert (Hwrap : u64 (fixed_body_size + varint_size (channel_id f) + zlen (payload f))
    = fixed_body_size + varint_size (channel_id f) + zlen (payload f)).
  { destruct (validate_limits_frame _ Hval) as [Hmf _]. unfold mib, kib in Hmf.
    destruct (zlen_frame_body f Hok) as [_ Hvs]. assert (Hn := zlen_nonneg (payload f)).
    apply u64_small. unfold fixed_body_size, message_id_bytes. lia. }
  rewrite Hwrap in *.
  destruct (frame_size_checks f limits Hok Hval) as (Hlen & _ & Hu32). fold size in Hlen.
  destruct (Hu32 ltac:(lia)) as [Hov Hu]. rewrite <- Hlen in *. rewrite Hu in *.
  destruct (validate_limits_frame _ Hval) as [Hmf _]. unfold mib, kib in Hmf.
  assert (Hz : 0 <= size) by apply zlen_nonneg. rewrite varint_size_spec in * by lia.
  unfold requires_business_channel, append_varint, frame_body.
  rewrite zlen_app, <- !app_assoc. split_and!; try done; lia.
Qed.

(** The incremental encoder writes the frozen layout: whenever [encode]
    succeeds on a frame within its payload limit and on its channel, it appends
    exactly the bytes [encode_frame] returns and [encoded_size] announced. *)
Theorem encoder_agrees limits output f n out :
  frame_ok f -> encode limits output f = success (n, out) ->
  (type f = frame_type_value pairing_approval_request -> channel_id f = 0) ->
  payload_limit_error (type f) (zlen (payload f)) limits = None ->
  exists b, encode_frame f limits = success b /\ out = output ++ b /\
    encoded_size limits (channel_id f) (zlen (payload f)) = success (zlen b).
Proof.
  intros Hok H Happ Hpl. unfold encode in H. apply result_bind_success in H as ([off hdr] & E & H).
  injection H as <- <-. destruct (encode_header_layout _ _ _ _ _ Hok E)
    as (Hval & Hres & Hzero & Hmax & Hc & Hb & Hsize & Hctl & _ & Hout).
  assert (Hv := zlen_nonneg (varint (zlen (frame_body f)))).
  eexists. split; [apply encode_frame_complete; [done |] |].
  - unfold encodable, channel_error. split_and!; try done; [| lia].
    unfold requires_control_channel, stream_requires_control in *.
    destruct (requires_business_channel (type f)); cbn [frame_type_value] in *;
      repeat case_match; try done; lia.
  - cbn [snd]. rewrite Hout. autorewrite with wire. done.
Qed.

(** Where the encoder departs from its header comment: the value
    [encode_header] returns is the offset of the frame body, which precedes the
    payload offset by the two type and flag bytes, the channel varint and the
    message id. *)
Theorem encode_header_offset limits output f off out :
  frame_ok f ->
  encode_header limits output (type f) (flags f) (channel_id f) (message_id f)
    (zlen (payload f)) = success (off, out) ->
  zlen out = off + 2 + zlen (varint (channel_id f)) + message_id_bytes.
Proof.
  intros Hok H. destruct (encode_header_layout _ _ _ _ _ Hok H)
    as (_ & _ & _ & _ & _ & _ & _ & _ & -> & Hout).
  apply (f_equal zlen) in Hout. rewrite !zlen_app in Hout.
  destruct Hok as (_ & _ & _ & _ & Hid & _).
  unfold frame_body in Hout at 2. autorewrite with wire in Hout. lia.
Qed.

(** The decoder and the encoder of the stream omit
    [pairing_approval_request] from the types bound to channel 0: an approval
    request on channel 7 is encoded and then decoded by the streaming pair,
    while [parse_frame] rejects the same bytes. *)
Theorem approval_channel_divergence :
  let f := mkFrame (frame_type_value pairing_approval_request) 0 7 (repeat 1 16) [5; 6] in
  let b := [21; 0x12; 0; 7] ++ repeat 1 16 ++ [5; 6] in
  let d := snd (append (new_decoder default_limits) b) in
  encode default_limits [] f = success (3, b) /\
  option_map fst (next_view d) = Some (mkStep FrameStreamStatus.parsed (Some f) None) /\
  parse_frame b default_limits = invalid_frame "control_channel_required" /\
  encode_frame f default_limits = failure (wire_error "control_channel_required").
Proof. intros f b d. split_and!; vm_compute; reflexivity. Qed.

(** ** Witnesses *)

Lemma frames_of_det limits p fs rest fs' rest' :
  frames_of limits p fs rest -> frames_of limits p fs' rest' -> fs = fs' /\ rest = rest'.
Proof.
  intros H. revert fs'. induction H as [input Hs | input f n fs rest Hparse H IH]; intros fs' H'.
  - by destruct (frames_of_stuck _ _ _ _ Hs H') as [-> ->].
  - destruct H' as [? Hs' | ? f' n' fs' rest' Hparse' H']; [by rewrite Hparse in Hs' |].
    rewrite Hparse in Hparse'. injection Hparse' as <- <-. by destruct (IH _ H') as [-> ->].
Qed.

Lemma bare_length_decode limits p :
  validate_limits limits = success tt -> bare_length limits p ->
  bytes (decode_varint p u32_max) = zlen p /\ vstatus (decode_varint p u32_max) = parsed.
Proof.
  intros Hval (v & -> & Hv). destruct (validate_limits_frame _ Hval) as [Hmf _].
  unfold mib, kib, minimum_frame_body_bytes, message_id_bytes in *.
  rewrite <- (app_nil_r (varint v)) at 1 3.
  rewrite decode_varint_varint by (try apply bytes_ok_nil; unfold u32_max; lia). done.
Qed.

Definition sample_decoder (b : list Z) : FrameStreamDecoder :=
  mkDecoder default_limits ([9; 9] ++ b) 2 None false.

Lemma next_view_agrees_witness :
  next_view (sample_decoder [19]) = None /\
  next_view (sample_decoder sample_bytes) =
  Some (step_of (parse_frame sample_bytes default_limits),
        settle (sample_decoder sample_bytes) (parse_frame sample_bytes default_limits)).
Proof.
  split.
  - apply next_view_agrees; [concrete | done |].
    split; [apply default_limits_valid |]. exists 19. split; [vm_compute; reflexivity | concrete].
  - assert (Hw : decoder_wf (sample_decoder sample_bytes)) by concrete.
    destruct (next_view_agrees (sample_decoder sample_bytes) Hw eq_refl) as [_ H].
    destruct (next_view (sample_decoder sample_bytes)) as [s |] eqn:E.
    + f_equal. apply H; [reflexivity |]. right. vm_compute. discriminate.
    + exfalso. vm_compute in E. discriminate E.
Defined.

Lemma decoder_reachable_wf_witness :
  decoder_wf (snd (append (new_decoder default_limits) sample_bytes)) /\
  buffered_bytes (snd (append (new_decoder default_limits) sample_bytes)) =
  zlen (pending (snd (append (new_decoder default_limits) sample_bytes))).
Proof.
  apply (decoder_reachable_wf default_limits). eapply rtc_l; [| apply rtc_refl].
  apply call_append. concrete.
Defined.

Lemma deliver_encoded_witness :
  exists d, deliver (new_decoder default_limits) [take 5 sample_bytes; drop 5 sample_bytes]
            = Some ([sample_frame], d) /\ buffered_bytes d = 0 /\ poisoned_ d = false.
Proof.
  apply (deliver_encoded default_limits [sample_frame] [sample_bytes]).
  - apply default_limits_valid.
  - constructor; [| constructor]. split; [concrete | vm_compute; reflexivity].
  - reflexivity.
  - intros k fs rest H Hb%bare_length_decode; [| apply default_limits_valid].
    assert (Hk : concat (take k [take 5 sample_bytes; drop 5 sample_bytes]) =
                 match k with O => [] | 1%nat => take 5 sample_bytes | _ => sample_bytes end)
      by (destruct k as [| [| [| k]]]; reflexivity).
    rewrite Hk in H. clear Hk.
    destruct k as [| [| k]].
    1,2: apply frames_of_stuck in H as [-> ->]; [| vm_compute; reflexivity];
      vm_compute in Hb; destruct Hb as [Hb1 Hb2]; discriminate.
    apply (frames_of_det _ _ [sample_frame] []) in H as [_ <-].
    + vm_compute in Hb. destruct Hb as [_ Hb]. discriminate Hb.
    + eapply frames_next; [vm_compute; reflexivity |]. apply frames_end. vm_compute. reflexivity.
Defined.

Lemma encoder_agrees_witness :
  exists b, encode_frame sample_frame default_limits = success b /\
    [1; 2] ++ sample_bytes = [1; 2] ++ b /\
    encoded_size default_limits 300 3 = success (zlen b).
Proof.
  apply (encoder_agrees default_limits [1; 2] sample_frame 6);
    [concrete | vm_compute; reflexivity | discriminate | vm_compute; reflexivity].
Defined.

Lemma encode_header_offset_witness :
  zlen ([1; 2] ++ take 21 sample_bytes) = 3 + 2 + zlen (varint 300) + message_id_bytes.
Proof.
  apply (encode_header_offset default_limits [1; 2] sample_frame);
    [concrete | vm_compute; reflexivity].
Defined.
