(* ===== verification/Identifiers.v ===== *)
(** * Identifiers and their text form

    [include/heyaki/ids.hpp] and [src/core/ids.cpp]: fixed-size byte
    identifiers, printed as a kind prefix followed by unpadded lower-case
    base32. The theorems say that printing and parsing are inverse on every
    kind and that the parser accepts one spelling only. *)

From Stdlib Require Import ZArith Lia ZifyBool String.
From stdpp Require Import base tactics option list numbers strings.
From S2P Require Import Prelude.
#[local] Open Scope Z_scope.

Module IdentifierKind.
Inductive IdentifierKind : Type :=
  device | endpoint | session | operation | message | request | transfer | grant | shell.
End IdentifierKind.
Abbreviation IdentifierKind := IdentifierKind.IdentifierKind.

#[export] Instance IdentifierKind_eq_dec : EqDecision IdentifierKind.
Proof. solve_decision. Defined.

Module IdentifierDecodeError.
Inductive IdentifierDecodeError : Type :=
  none | invalid_prefix | invalid_length | invalid_character | non_canonical.
End IdentifierDecodeError.
Abbreviation IdentifierDecodeError := IdentifierDecodeError.IdentifierDecodeError.

Module Identifiers.

(** [Identifier<Kind, Size>::size_bytes] of the nine aliases. *)
Definition size_bytes (kind : IdentifierKind) : Z :=
  match kind with IdentifierKind.device => 32 | _ => 16 end.

(** [DeviceEndpointKey], compared member by member. *)
Record DeviceEndpointKey : Type := mkDeviceEndpointKey {
  key_device_id : list Z;
  key_endpoint_id : list Z;
}.

Definition base32_alphabet : list Z := bytes_of_string "abcdefghijklmnopqrstuvwxyz234567".

(** The inner [while (bits >= 5)]: at most two digits leave the 12 bits the
    accumulator can hold. *)
Fixpoint emit_digits (fuel : nat) (accumulator bits : Z) (encoded : list Z) : Z * list Z :=
  match fuel with
  | O => (bits, encoded)
  | S fuel =>
      if 5 <=? bits then
        let bits := bits - 5 in
        emit_digits fuel accumulator bits
          (encoded ++ [byte_at base32_alphabet (Z.land (Z.shiftr accumulator bits) 0x1f)])
      else (bits, encoded)
  end.

Definition mask_low (accumulator bits : Z) : Z :=
  Z.land accumulator (if bits =? 0 then 0 else u32 (Z.shiftl 1 bits - 1)).

Fixpoint encode_loop (id : list Z) (accumulator bits : Z) (encoded : list Z) : Z * Z * list Z :=
  match id with
  | [] => (accumulator, bits, encoded)
  | byte :: id =>
      let accumulator := Z.lor (u32 (Z.shiftl accumulator 8)) byte in
      let '(bits, encoded) := emit_digits 3 accumulator (bits + 8) encoded in
      encode_loop id (mask_low accumulator bits) bits encoded
  end.

Definition encode_identifier (id prefix : list Z) : list Z :=
  let '(accumulator, bits, encoded) := encode_loop id 0 0 prefix in
  if negb (bits =? 0)
  then encoded ++ [byte_at base32_alphabet (Z.land (u32 (Z.shiftl accumulator (5 - bits))) 0x1f)]
  else encoded.

Definition decode_base32_character (character : Z) : Z :=
  if (97 <=? character) && (character <=? 122) then character - 97
  else if (50 <=? character) && (character <=? 55) then character - 50 + 26
  else -1.

Record IdentifierDecodeResult : Type := mkIdentifierDecodeResult {
  id_value : option (list Z);
  id_error : IdentifierDecodeError;
}.

Definition decode_error (e : IdentifierDecodeError) : IdentifierDecodeResult :=
  mkIdentifierDecodeResult None e.

(** The character loop of [decode_identifier] and the checks after it; the
    first [output_index] elements of the array are the list [bytes]. *)
Fixpoint decode_loop (size : Z) (text : list Z) (accumulator bits : Z) (bytes : list Z)
    : IdentifierDecodeResult :=
  match text with
  | [] =>
      if negb (zlen bytes =? size) then decode_error IdentifierDecodeError.invalid_length
      else if negb (bits =? 0) && negb (accumulator =? 0)
      then decode_error IdentifierDecodeError.non_canonical
      else mkIdentifierDecodeResult (Some bytes) IdentifierDecodeError.none
  | character :: text =>
      if (65 <=? character) && (character <=? 90)
      then decode_error IdentifierDecodeError.non_canonical else
      let value := decode_base32_character character in
      if value <? 0 then decode_error IdentifierDecodeError.invalid_character else
      let accumulator := Z.lor (u32 (Z.shiftl accumulator 5)) value in
      let bits := bits + 5 in
      if 8 <=? bits then
        let bits := bits - 8 in
        if size <=? zlen bytes then decode_error IdentifierDecodeError.invalid_length
        else decode_loop size text (mask_low accumulator bits) bits
               (bytes ++ [Z.land (Z.shiftr accumulator bits) 0xff])
      else decode_loop size text (mask_low accumulator bits) bits bytes
  end.

Definition encoded_chars (size : Z) : Z := (size * 8 + 4) / 5.

Definition decode_identifier (size : Z) (text prefix : list Z) : IdentifierDecodeResult :=
  if negb (bytes_eqb (take (length prefix) text) prefix)
  then decode_error IdentifierDecodeError.invalid_prefix else
  if negb (zlen text =? zlen prefix + encoded_chars size)
  then decode_error IdentifierDecodeError.invalid_length else
  decode_loop size (subspan_from (zlen prefix) text) 0 0 [].

(** The literals of the [to_string] overloads and the [parse_*_id] functions. *)
Definition id_prefix (kind : IdentifierKind) : list Z :=
  bytes_of_string match kind with
  | IdentifierKind.device => "hy1_" | IdentifierKind.endpoint => "hye1_"
  | IdentifierKind.session => "hys1_" | IdentifierKind.operation => "hyo1_"
  | IdentifierKind.message => "hym1_" | IdentifierKind.request => "hyr1_"
  | IdentifierKind.transfer => "hyt1_" | IdentifierKind.grant => "hyg1_"
  | IdentifierKind.shell => "hysh1_"
  end.

Definition to_string (kind : IdentifierKind) (id : list Z) : list Z :=
  encode_identifier id (id_prefix kind).

(** The source has a parser for every kind but [shell]. *)
Definition parse_id (kind : IdentifierKind) (text : list Z) : IdentifierDecodeResult :=
  decode_identifier (size_bytes kind) text (id_prefix kind).

Definition identifier_decode_error_name (error : IdentifierDecodeError) : string :=
  match error with
  | IdentifierDecodeError.none => "none"
  | IdentifierDecodeError.invalid_prefix => "invalid_prefix"
  | IdentifierDecodeError.invalid_length => "invalid_length"
  | IdentifierDecodeError.invalid_character => "invalid_character"
  | IdentifierDecodeError.non_canonical => "non_canonical"
  end.

(** An identifier of a kind: that many bytes. *)
Definition id_ok (kind : IdentifierKind) (id : list Z) : Prop :=
  bytes_ok id /\ zlen id = size_bytes kind.

End Identifiers.

Import Identifiers.

(** ** Base32 digits *)

Definition is_base32 (c : Z) : Prop := 0 <= decode_base32_character c.
Abbreviation digits_of := (map decode_base32_character).

Lemma base32_alphabet_digit v :
  0 <= v < 32 -> decode_base32_character (byte_at base32_alphabet v) = v.
Proof.
  intros Hv.
  assert (H := byte_forall (fun v => (32 <=? v)
    || (decode_base32_character (byte_at base32_alphabet v) =? v)) eq_refl v).
  zlia.
Qed.

Lemma is_base32_spec c :
  is_base32 c ->
  0 <= decode_base32_character c < 32 /\ byte_at base32_alphabet (decode_base32_character c) = c /\
  (65 <=? c) && (c <=? 90) = false.
Proof.
  intros Hc. assert (Hb : is_byte c).
  { unfold is_base32, decode_base32_character, is_byte in *. repeat case_match; lia. }
  assert (H := byte_forall (fun c => (decode_base32_character c <? 0)
    || ((decode_base32_character c <? 32)
        && (byte_at base32_alphabet (decode_base32_character c) =? c)
        && negb ((65 <=? c) && (c <=? 90)))) eq_refl c Hb).
  unfold is_base32 in Hc. cbv beta in H. lia.
Qed.

Lemma digits_of_range l : Forall is_base32 l -> Forall (fun d => 0 <= d < 32) (digits_of l).
Proof. intros H. apply Forall_map. eapply Forall_impl; [exact H |]. intros c Hc. by apply is_base32_spec. Qed.

Lemma digits_of_inj l k :
  Forall is_base32 l -> Forall is_base32 k -> digits_of l = digits_of k -> l = k.
Proof.
  intros Hl. revert k. induction Hl as [| c l Hc Hl IH]; intros k Hk; destruct Hk as [| c' k Hc' Hk]; try done.
  cbn. intros [= Hd Hds]. f_equal; [| by apply IH].
  destruct (is_base32_spec c Hc) as (_ & <- & _), (is_base32_spec c' Hc') as (_ & <- & _).
  by rewrite Hd.
Qed.

Lemma mask_low_mod a bits : 0 <= bits < 32 -> mask_low a bits = a mod 2 ^ bits.
Proof.
  intros Hb. unfold mask_low. destruct (Z.eqb_spec bits 0) as [-> |].
  { by rewrite Z.land_0_r, Z.mod_1_r. }
  rewrite Z.shiftl_1_l, u32_small.
  - replace (2 ^ bits - 1) with (Z.ones bits) by (rewrite Z.ones_equiv; lia).
    by rewrite Z.land_ones by lia.
  - assert (2 ^ bits <= 2 ^ 31) by (apply Z.pow_le_mono_r; lia).
    assert (0 < 2 ^ bits) by (apply Z.pow_pos_nonneg; lia). lia.
Qed.

(** ** The encoder *)

(** [cs] are the digits written and [accumulator] the [bits] held back after
    the bytes [P]. *)
Definition enc_inv (P : list Z) (accumulator bits : Z) (cs : list Z) : Prop :=
  0 <= bits < 5 /\ 0 <= accumulator < 2 ^ bits /\
  be 32 (digits_of cs) * 2 ^ bits + accumulator = be 256 P /\
  5 * zlen cs + bits = 8 * zlen P /\ Forall is_base32 cs.

Lemma alphabet_is_base32 v : 0 <= v < 32 -> is_base32 (byte_at base32_alphabet v).
Proof. intros Hv. unfold is_base32. rewrite base32_alphabet_digit; lia. Qed.

Lemma emit_digits_spec fuel accumulator bits prefix cs :
  0 <= accumulator -> 0 <= bits < 5 * Z.of_nat fuel -> Forall is_base32 cs ->
  exists bits' cs',
    emit_digits fuel accumulator bits (prefix ++ cs) = (bits', prefix ++ cs') /\
    0 <= bits' < 5 /\ 5 * zlen cs' + bits' = 5 * zlen cs + bits /\ Forall is_base32 cs' /\
    be 32 (digits_of cs') * 2 ^ bits' + accumulator mod 2 ^ bits' =
    be 32 (digits_of cs) * 2 ^ bits + accumulator mod 2 ^ bits.
Proof.
  intros Ha. revert bits cs. induction fuel as [| fuel IH]; intros bits cs Hb Hcs; [lia |].
  cbn [emit_digits]. destruct (Z.leb_spec 5 bits) as [H5 | H5].
  2: { exists bits, cs. split_and!; (done || lia). }
  set (v := Z.land _ _). assert (Hv : v = (accumulator / 2 ^ (bits - 5)) mod 2 ^ 5).
  { unfold v. rewrite Z.shiftr_div_pow2 by lia. by rewrite (Z.land_ones _ 5) by lia. }
  assert (Hvr : 0 <= v < 32) by (rewrite Hv; apply Z.mod_pos_bound; lia).
  rewrite <- app_assoc.
  destruct (IH (bits - 5) (cs ++ [byte_at base32_alphabet v])) as (b' & cs' & -> & Hb' & Hlen & Hok & Heq).
  - lia.
  - apply Forall_app. split; [done |]. constructor; [by apply alphabet_is_base32 | done].
  - exists b', cs'. autorewrite with wire in Hlen. split_and!; try done; try lia.
    rewrite Heq, map_app, (mod_split accumulator bits 5) by lia. cbn [map].
    rewrite be_snoc, base32_alphabet_digit, <- Hv by done.
    replace (2 ^ bits) with (2 ^ (bits - 5) * 32); [ring |].
    change 32 with (2 ^ 5). rewrite <- Z.pow_add_r by lia. f_equal. lia.
Qed.

Lemma encode_loop_spec id P accumulator bits prefix cs :
  bytes_ok id -> enc_inv P accumulator bits cs ->
  exists a' b' cs', encode_loop id accumulator bits (prefix ++ cs) = (a', b', prefix ++ cs') /\
    enc_inv (P ++ id) a' b' cs'.
Proof.
  revert P accumulator bits cs. induction id as [| b id IH]; intros P a bits cs Hok Hinv.
  { exists a, bits, cs. by rewrite app_nil_r. }
  apply bytes_ok_cons in Hok as [Hb Hok]. unfold is_byte in Hb.
  destruct Hinv as (Hbits & Ha & Heq & Hlen & Hcs). cbn [encode_loop].
  assert (Hp : 2 ^ bits <= 2 ^ 4) by (apply Z.pow_le_mono_r; lia). change (2 ^ 4) with 16 in Hp.
  assert (Hacc : Z.lor (u32 (Z.shiftl a 8)) b = a * 256 + b).
  { rewrite Z.shiftl_mul_pow2, u32_small by lia. rewrite Z.lor_comm.
    rewrite <- (Z.shiftl_mul_pow2 a 8), lor_shiftl_add by lia. lia. }
  rewrite Hacc.
  destruct (emit_digits_spec 3 (a * 256 + b) (bits + 8) prefix cs) as (b' & cs' & -> & Hb' & Hl' & Hc' & He');
    [lia | lia | done |].
  rewrite mask_low_mod by lia.
  destruct (IH (P ++ [b]) ((a * 256 + b) mod 2 ^ b') b' cs') as (a2 & b2 & cs2 & -> & Hinv2); [done | |].
  - split_and!; try done; try lia.
    + apply Z.mod_pos_bound. lia.
    + apply Z.mod_pos_bound. lia.
    + rewrite be_snoc, He', (Z.mod_small _ (2 ^ (bits + 8))), Z.pow_add_r by (rewrite ?Z.pow_add_r; lia).
      change (2 ^ 8) with 256. rewrite <- Heq. ring.
    + autorewrite with wire. lia.
  - exists a2, b2, cs2. by rewrite <- app_assoc in Hinv2.
Qed.

(** The digits of an identifier denote its value, shifted by the padding. *)
Definition base32_of (id cs : list Z) : Prop :=
  Forall is_base32 cs /\ exists p, 0 <= p < 5 /\ 5 * zlen cs = 8 * zlen id + p /\
    be 32 (digits_of cs) = be 256 id * 2 ^ p.

Lemma encode_identifier_spec id prefix :
  bytes_ok id -> exists cs, encode_identifier id prefix = prefix ++ cs /\ base32_of id cs.
Proof.
  intros Hok. unfold encode_identifier.
  destruct (encode_loop_spec id [] 0 0 prefix []) as (a & b & cs & E & Hinv); [done | |].
  { split_and!; try done. }
  rewrite app_nil_r in E. rewrite E. destruct Hinv as (Hb & Ha & Heq & Hlen & Hcs). cbn [app] in *.
  destruct (Z.eqb_spec b 0) as [-> | Hb0]; cbn [negb].
  - exists cs. split; [done |]. split; [done |]. exists 0. split_and!; (done || lia).
  - assert (Hp : 2 ^ b * 2 ^ (5 - b) = 32) by (rewrite <- Z.pow_add_r by lia; by replace (b + (5 - b)) with 5 by lia).
    assert (Hq : 0 < 2 ^ (5 - b)) by lia.
    set (v := Z.land _ _). assert (Hv : v = a * 2 ^ (5 - b)).
    { unfold v. rewrite Z.shiftl_mul_pow2 by lia. rewrite u32_small by nia.
      rewrite (Z.land_ones _ 5), Z.mod_small by (change (2 ^ 5) with 32; nia). done. }
    exists (cs ++ [byte_at base32_alphabet v]). split; [by rewrite app_assoc |]. split.
    + apply Forall_app. split; [done |]. constructor; [apply alphabet_is_base32; nia | done].
    + exists (5 - b). autorewrite with wire. split_and!; [lia | lia | lia |].
      rewrite map_app. cbn [map]. rewrite be_snoc, base32_alphabet_digit, Hv, <- Heq, <- Hp by nia. ring.
Qed.

Lemma base32_of_inj id cs cs' : base32_of id cs -> base32_of id cs' -> cs = cs'.
Proof.
  intros (Hcs & p & Hp & Hlen & Heq) (Hcs' & p' & Hp' & Hlen' & Heq').
  assert (p = p' /\ zlen cs = zlen cs') as [<- Hl] by lia.
  apply digits_of_inj; [done | done |].
  apply (be_inj 32); auto using digits_of_range; [lia | rewrite !length_map; zlia | congruence].
Qed.

(** ** The decoder *)

Definition dec_inv (S : list Z) (accumulator bits : Z) (out : list Z) : Prop :=
  0 <= bits < 8 /\ 0 <= accumulator < 2 ^ bits /\
  be 256 out * 2 ^ bits + accumulator = be 32 (digits_of S) /\
  8 * zlen out + bits = 5 * zlen S /\ bytes_ok out.

Lemma dec_inv_nil : dec_inv [] 0 0 [].
Proof. unfold dec_inv. split_and!; auto with bytes; done. Qed.

Lemma decode_loop_spec size text S accumulator bits out :
  dec_inv S accumulator bits out -> Forall is_base32 text ->
  5 * (zlen S + zlen text) < 8 * (size + 1) ->
  exists a' b' out', dec_inv (S ++ text) a' b' out' /\
    decode_loop size text accumulator bits out = decode_loop size [] a' b' out'.
Proof.
  intros Hinv Htext. revert S accumulator bits out Hinv.
  induction Htext as [| c text Hc Htext IH]; intros S a bits out Hinv Hsize.
  { exists a, bits, out. by rewrite app_nil_r. }
  destruct Hinv as (Hbits & Ha & Heq & Hlen & Hok). destruct (is_base32_spec c Hc) as (Hd & _ & Hup).
  cbn [decode_loop]. rewrite Hup, (proj2 (Z.ltb_ge _ _)) by lia.
  set (d := decode_base32_character c) in *.
  assert (Hp : 2 ^ bits <= 2 ^ 7) by (apply Z.pow_le_mono_r; lia). change (2 ^ 7) with 128 in Hp.
  assert (Hacc : Z.lor (u32 (Z.shiftl a 5)) d = a * 32 + d).
  { rewrite Z.shiftl_mul_pow2, u32_small by lia. rewrite Z.lor_comm.
    rewrite <- (Z.shiftl_mul_pow2 a 5), lor_shiftl_add by lia. lia. }
  rewrite Hacc. assert (Hpp : 2 ^ (bits + 5) = 2 ^ bits * 32) by (rewrite Z.pow_add_r by lia; done).
  assert (HS : be 32 (digits_of (S ++ [c])) = be 256 out * 2 ^ (bits + 5) + (a * 32 + d)).
  { rewrite map_app. cbn [map]. rewrite be_snoc. fold d. rewrite <- Heq, Hpp. ring. }
  autorewrite with wire in Hsize. assert (Ht := zlen_nonneg text).
  rewrite (cons_middle c S text), app_assoc.
  destruct (Z.leb_spec 8 (bits + 5)) as [H8 | H8].
  - rewrite (proj2 (Z.leb_gt _ _)) by lia. rewrite mask_low_mod by lia.
    set (v := Z.land _ _). assert (Hv : v = ((a * 32 + d) / 2 ^ (bits + 5 - 8)) mod 2 ^ 8).
    { unfold v. rewrite Z.shiftr_div_pow2 by lia. by rewrite (Z.land_ones _ 8) by lia. }
    apply IH; [| autorewrite with wire; lia].
    assert (Hs := mod_split (a * 32 + d) (bits + 5) 8 ltac:(lia)).
    rewrite Z.mod_small, <- Hv in Hs by lia.
    split_and!; try lia; try (apply Z.mod_pos_bound; lia).
    + set (m := _ mod _) in *. rewrite be_snoc, HS.
      replace (2 ^ (bits + 5)) with (2 ^ (bits + 5 - 8) * 256); [nia |].
      change 256 with (2 ^ 8). rewrite <- Z.pow_add_r by lia. f_equal. lia.
    + autorewrite with wire. lia.
    + apply bytes_ok_app. split; [done |]. apply bytes_ok_cons. split; [| apply bytes_ok_nil].
      rewrite Hv. apply Z.mod_pos_bound. lia.
  - rewrite mask_low_mod, Z.mod_small by lia.
    apply IH; [| autorewrite with wire; lia].
    split_and!; try lia; try done; autorewrite with wire; lia.
Qed.

Lemma decode_loop_chars size text accumulator bits out b :
  id_value (decode_loop size text accumulator bits out) = Some b -> Forall is_base32 text.
Proof.
  revert accumulator bits out. induction text as [| c text IH]; intros a bits out; [done |].
  cbn [decode_loop]. destruct (_ && _); [done |].
  destruct (Z.ltb_spec (decode_base32_character c) 0); [done |].
  intros H'. constructor; [done |]. repeat case_match; try done; by eapply IH.
Qed.

(** The parser inverts the printer exactly. *)
Lemma decode_identifier_exact size text prefix id :
  0 <= size ->
  id_value (decode_identifier size text prefix) = Some id <->
  bytes_ok id /\ zlen id = size /\ text = encode_identifier id prefix.
Proof.
  intros Hsize. assert (Hen := Z.div_mod (size * 8 + 4) 5 ltac:(lia)).
  assert (Hem := Z.mod_pos_bound (size * 8 + 4) 5 ltac:(lia)). unfold decode_identifier, encoded_chars.
  split.
  - destruct (bytes_eqb _ _) eqn:Hpre; [cbn [negb] | done]. apply bytes_eqb_eq in Hpre.
    destruct (Z.eqb_spec (zlen text) (zlen prefix + (size * 8 + 4) / 5)) as [Hlen |]; [cbn [negb] | done].
    rewrite <- (take_drop (length prefix) text), Hpre. unfold subspan_from. rewrite drop_zlen_app.
    rewrite <- (take_drop (length prefix) text), Hpre in Hlen. rewrite zlen_app in Hlen.
    set (cs := drop (length prefix) text) in *. clearbody cs. intros H.
    assert (Hcs := decode_loop_chars _ _ _ _ _ _ H).
    destruct (decode_loop_spec size cs [] 0 0 []) as (a & b & out & Hinv & E);
      [apply dec_inv_nil | done | autorewrite with wire; lia |].
    rewrite E in H. destruct Hinv as (Hb & Ha & Heq & Hl & Hok). cbn [decode_loop app] in *.
    destruct (Z.eqb_spec (zlen out) size) as [Hout |]; [cbn [negb] in H | done].
    destruct (negb (b =? 0) && negb (a =? 0)) eqn:Hz; [done |]. injection H as <-.
    assert (a = 0) by (destruct (Z.eqb_spec b 0) as [-> |]; cbn in *; lia).
    split_and!; [done | done |].
    destruct (encode_identifier_spec out prefix Hok) as (cs' & -> & Hcs'). f_equal.
    apply (base32_of_inj out); [| done]. split; [done |]. exists b. split_and!; lia.
  - intros (Hok & Hlen & ->). destruct (encode_identifier_spec id prefix Hok) as (cs & -> & Hcs & p & Hp & Hl & Heq).
    rewrite take_app_length, bytes_eqb_refl. cbn [negb]. autorewrite with wire.
    rewrite (proj2 (Z.eqb_eq _ _)) by lia. cbn [negb]. unfold subspan_from. rewrite drop_zlen_app.
    destruct (decode_loop_spec size cs [] 0 0 []) as (a & b & out & Hinv & ->);
      [apply dec_inv_nil | done | autorewrite with wire; lia |].
    destruct Hinv as (Hb & Ha & Heq' & Hl' & Hok'). cbn [decode_loop app] in *.
    assert (b = p /\ zlen out = size) as [-> Hout] by lia. rewrite Hout, Z.eqb_refl. cbn [negb].
    rewrite Heq in Heq'.
    assert (be 256 out = be 256 id /\ a = 0) as [Hbe ->]
      by (apply (Z.div_mod_unique (2 ^ p)); lia).
    rewrite andb_false_r. cbn. f_equal. apply (be_inj 256); try done. zlia.
Qed.

(** Identifier text round trip and canonicity: for every kind, parsing
    succeeds with [id] exactly when [id] is an identifier of that kind and the
    text is the one [to_string] prints for it. Upper-case letters, non-zero
    padding bits, foreign prefixes and wrong lengths are all rejected. *)
Theorem parse_id_exact kind text id :
  id_value (parse_id kind text) = Some id <-> id_ok kind id /\ text = to_string kind id.
Proof.
  unfold parse_id, to_string, id_ok. rewrite decode_identifier_exact by (by destruct kind). tauto.
Qed.

Lemma parse_to_string kind id :
  id_ok kind id -> id_value (parse_id kind (to_string kind id)) = Some id.
Proof.
  intros [Hok Hl]. unfold parse_id, to_string. by apply decode_identifier_exact; [destruct kind |].
Qed.

(** The text of an identifier determines its kind and its bytes: printed
    identifiers of different kinds never coincide. *)
Theorem to_string_injective kind1 kind2 id1 id2 :
  id_ok kind1 id1 -> id_ok kind2 id2 -> to_string kind1 id1 = to_string kind2 id2 ->
  kind1 = kind2 /\ id1 = id2.
Proof.
  intros H1 H2 Heq. assert (Hk : kind1 = kind2).
  { unfold to_string in Heq.
    destruct (encode_identifier_spec id1 (id_prefix kind1) (proj1 H1)) as (cs1 & E1 & _),
      (encode_identifier_spec id2 (id_prefix kind2) (proj1 H2)) as (cs2 & E2 & _).
    rewrite E1, E2 in Heq. destruct kind1, kind2; try done; cbn in Heq; discriminate Heq. }
  subst kind2. split; [done |].
  apply parse_to_string in H1, H2. rewrite Heq in H1. congruence.
Qed.

Lemma to_string_injective_witness :
  IdentifierKind.message = IdentifierKind.message /\ repeat 7 16 = repeat 7 16.
Proof. apply to_string_injective; [concrete | concrete | reflexivity]. Defined.
