(* ===== verification/ProtoCodec.v ===== *)
(** * The protobuf field codec

    [src/core/proto_codec.hpp]: the hand-written wire codec every signed object
    and control payload uses. [ProtoReader] walks a buffer field by field; the
    model keeps the unread part of the buffer ([input_] from [offset_] on).
    Every caller abandons the reader on the first failure, so a failing read
    carries no reader.

    The theorems: the bit-level varint reader is the reference decoder, [next]
    accepts exactly the encodings [append_uint] and [append_bytes] write, and a
    message read field by field is the list of fields that was written. *)

From Stdlib Require Import ZArith Lia ZifyBool String.
From stdpp Require Import base tactics option list numbers strings.
From S2P Require Import Prelude Errors Varint.
#[local] Open Scope Z_scope.

Module ProtoCodec.

Definition protocol_error (detail component : string) : Error :=
  make_error ErrorCode.protocol component detail.

Definition append_varint (output : list Z) (value : Z) : list Z := output ++ varint value.

Definition append_tag (output : list Z) (field wire_type : Z) : list Z :=
  append_varint output (Z.lor (u64 (Z.shiftl field 3)) wire_type).

Definition append_uint (output : list Z) (field value : Z) : list Z :=
  let output := append_tag output field 0 in
  append_varint output value.

Definition append_bytes (output : list Z) (field : Z) (value : list Z) : list Z :=
  let output := append_tag output field 2 in
  let output := append_varint output (zlen value) in
  output ++ value.

(** A [string_view] is its bytes. *)
Definition append_text (output : list Z) (field : Z) (value : list Z) : list Z :=
  append_bytes output field value.

Record ProtoField : Type := mkProtoField {
  number : Z;
  wire_type : Z;
  integer : Z;
  field_bytes : list Z;
}.

Record ProtoReader : Type := mkProtoReader {
  unread : list Z;
  component_ : string;
}.

Definition done (r : ProtoReader) : bool :=
  match unread r with [] => true | _ :: _ => false end.

Fixpoint read_varint_loop (fuel : nat) (index value : Z) (r : ProtoReader)
    : Result (Z * ProtoReader) :=
  match fuel with
  | O => failure (protocol_error "protobuf_varint_overflow" (component_ r))
  | S fuel =>
      match unread r with
      | [] => failure (protocol_error "protobuf_varint_truncated" (component_ r))
      | byte :: rest =>
          let r := mkProtoReader rest (component_ r) in
          fail_if (index =? 9) && negb (Z.land byte 0xfe =? 0)
            with protocol_error "protobuf_varint_overflow" (component_ r);
          let value := Z.lor value (u64 (Z.shiftl (Z.land byte 0x7f) (7 * index))) in
          if Z.land byte 0x80 =? 0 then
            fail_if (0 <? index) && (Z.land byte 0x7f =? 0)
              with protocol_error "protobuf_varint_noncanonical" (component_ r);
            success (value, r)
          else read_varint_loop fuel (index + 1) value r
      end
  end.

Definition read_varint (r : ProtoReader) : Result (Z * ProtoReader) :=
  read_varint_loop 10 0 0 r.

Definition next (r : ProtoReader) : Result (ProtoField * ProtoReader) :=
  let? tag, r := read_varint r in
  fail_if (tag =? 0) || (536870911 <? Z.shiftr tag 3)
    with protocol_error "protobuf_tag_invalid" (component_ r);
  let number := u32 (Z.shiftr tag 3) in
  let wire_type := u8 (Z.land tag 0x07) in
  if wire_type =? 0 then
    let? value, r := read_varint r in
    success (mkProtoField number wire_type value [], r)
  else if wire_type =? 2 then
    match read_varint r with
    | failure _ => failure (protocol_error "protobuf_length_invalid" (component_ r))
    | success (length, r) =>
        fail_if zlen (unread r) <? length
          with protocol_error "protobuf_length_invalid" (component_ r);
        success (mkProtoField number wire_type 0 (subspan 0 length (unread r)),
                 mkProtoReader (subspan_from length (unread r)) (component_ r))
    end
  else failure (protocol_error "protobuf_wire_type_unsupported" (component_ r)).

(** [copy_exact] into an array of [size] bytes. *)
Definition copy_exact (source : list Z) (size : Z) (detail component : string) : Result (list Z) :=
  if negb (zlen source =? size) then failure (protocol_error detail component)
  else success source.

(** The [while (!reader.done())] loop of the message parsers: [step] is the body
    of the loop after [reader.next()] has succeeded. *)
Fixpoint proto_fold {S} (step : S -> ProtoField -> Result S) (fuel : nat) (r : ProtoReader)
    (state : S) : Result S :=
  if done r then success state else
  match fuel with
  | O => failure (protocol_error "unreachable" (component_ r))
  | S fuel =>
      let? field, r := next r in
      let? state := step state field in
      proto_fold step fuel r state
  end.

(** Every field takes at least one byte, so the size of the input bounds the
    number of turns. *)
Definition parse_proto {S} (step : S -> ProtoField -> Result S) (input : list Z)
    (component : string) (state : S) : Result S :=
  proto_fold step (length input) (mkProtoReader input component) state.

(** What [append_uint] and [append_bytes] are given. *)
Definition encode_field (f : ProtoField) : list Z :=
  if wire_type f =? 0 then append_uint [] (number f) (integer f)
  else append_bytes [] (number f) (field_bytes f).

Definition field_ok (f : ProtoField) : Prop :=
  0 <= number f <= 536870911 /\
  ((wire_type f = 0 /\ is_u64 (integer f) /\ field_bytes f = [] /\ number f <> 0) \/
   (wire_type f = 2 /\ integer f = 0 /\ bytes_ok (field_bytes f) /\ zlen (field_bytes f) < 2 ^ 64)).

End ProtoCodec.

Import ProtoCodec.

#[global] Arguments protocol_error : simpl never.

(** ** Reading varints *)

Lemma u64_septet b index :
  is_byte b -> 0 <= index <= 9 -> (index = 9 -> b < 2) ->
  u64 (Z.shiftl (b mod 128) (7 * index)) = Z.shiftl (b mod 128) (7 * index).
Proof.
  intros Hb Hi H9. rewrite Z.shiftl_mul_pow2 by lia. apply u64_small.
  assert (Hm := Z.mod_pos_bound b 128 ltac:(lia)). unfold is_byte in Hb.
  assert (Hp : 0 < 2 ^ (7 * index)) by (apply Z.pow_pos_nonneg; lia). split; [nia |].
  destruct (Z.eq_dec index 9) as [-> |].
  - rewrite Z.mod_small by lia. lia.
  - assert (Hq : 2 ^ (7 * index) <= 2 ^ 56) by (apply Z.pow_le_mono_r; lia). nia.
Qed.

Definition read_verdict (component : string) (input : list Z) (o : varint_outcome)
    : Result (Z * ProtoReader) :=
  match o with
  | VParsed v n => success (v, mkProtoReader (subspan_from n input) component)
  | VTruncated => failure (protocol_error "protobuf_varint_truncated" component)
  | VOverflow => failure (protocol_error "protobuf_varint_overflow" component)
  | VNonCanonical => failure (protocol_error "protobuf_varint_noncanonical" component)
  end.

Lemma read_varint_loop_scan component whole (k : nat) index value rest :
  bytes_ok rest -> index = 10 - Z.of_nat k -> 0 <= index -> 0 <= value < 2 ^ (7 * index) ->
  subspan_from index whole = rest ->
  read_varint_loop k index value (mkProtoReader rest component) =
  read_verdict component whole (scan 2 k index (2 ^ (7 * index)) value rest).
Proof.
  revert index value rest. induction k as [| k IH]; intros index value rest Hok Hidx Hi Hv Hw; [done |].
  destruct rest as [| b rest]; [done |].
  apply bytes_ok_cons in Hok as [Hb Hok].
  rewrite scan_cons. cbn [read_varint_loop unread component_].
  rewrite (land_254_zero b Hb), (land_128_zero b Hb), land_127.
  replace (index =? 9) with (k =? 0)%nat by lia.
  replace (negb (b <? 2)) with (2 <=? b) by lia.
  destruct ((k =? 0)%nat && (2 <=? b)) eqn:E; [done |].
  rewrite u64_septet by (try done; lia).
  assert (Hm := Z.mod_pos_bound b 128 ltac:(lia)).
  assert (Hp : 2 ^ (7 * (index + 1)) = 128 * 2 ^ (7 * index)).
  { replace (7 * (index + 1)) with (7 + 7 * index) by lia. by rewrite Z.pow_add_r by lia. }
  rewrite lor_shiftl_add by lia.
  assert (Hnext : subspan_from (index + 1) whole = rest).
  { unfold subspan_from in *. rewrite Z2Nat.inj_add, <- drop_drop, Hw by lia. done. }
  destruct (Z.ltb_spec b 128).
  - rewrite (Z.mod_small b) by (unfold is_byte in Hb; lia).
    destruct ((0 <? index) && (b =? 0)); [done |]. cbn [read_verdict]. by rewrite Hnext.
  - rewrite IH; [by rewrite Hp | done | lia | lia | rewrite Hp; nia | done].
Qed.

Lemma read_varint_scan input component :
  bytes_ok input ->
  read_varint (mkProtoReader input component) = read_verdict component input (scan64 input).
Proof.
  intros Hok. unfold read_varint, scan64. change 1 with (2 ^ (7 * 0)).
  by apply read_varint_loop_scan.
Qed.

Lemma read_varint_varint v rest component :
  0 <= v < 2 ^ 64 -> bytes_ok rest ->
  read_varint (mkProtoReader (varint v ++ rest) component) = success (v, mkProtoReader rest component).
Proof.
  intros Hv Hr. assert (bytes_ok (varint v ++ rest)).
  { apply bytes_ok_app. split; [apply varint_bytes_ok; lia | done]. }
  rewrite read_varint_scan, scan64_varint by done. cbn [read_verdict].
  unfold subspan_from. by rewrite drop_zlen_app.
Qed.

Lemma read_varint_sound r v r' :
  bytes_ok (unread r) -> read_varint r = success (v, r') ->
  0 <= v < 2 ^ 64 /\ unread r = varint v ++ unread r' /\ component_ r' = component_ r.
Proof.
  destruct r as [input component]. cbn [unread component_]. intros Hok H.
  rewrite read_varint_scan in H by done. destruct (scan64 input) eqn:E; try done.
  injection H as -> <-. apply scan64_sound in E as (Hv & -> & rest & ->); [| done].
  split_and!; [lia | lia | | done]. cbn. unfold subspan_from. by rewrite drop_zlen_app.
Qed.

(** ** Reading fields *)

Lemma tag_value n w :
  0 <= n <= 536870911 -> 0 <= w < 8 -> Z.lor (u64 (Z.shiftl n 3)) w = 8 * n + w.
Proof.
  intros Hn Hw. rewrite Z.shiftl_mul_pow2, u64_small by lia.
  rewrite Z.lor_comm, <- Z.shiftl_mul_pow2, lor_shiftl_add by lia. lia.
Qed.

Lemma tag_split n w :
  0 <= w < 8 -> Z.shiftr (8 * n + w) 3 = n /\ Z.land (8 * n + w) 0x07 = w.
Proof.
  intros Hw. rewrite Z.shiftr_div_pow2, (Z.land_ones _ 3) by lia. change (2 ^ 3) with 8.
  rewrite Z.add_comm, Z.mul_comm, Z.div_add, Z_mod_plus_full, Z.div_small, Z.mod_small by lia. lia.
Qed.

Lemma encode_field_eq f :
  field_ok f ->
  encode_field f =
  varint (8 * number f + wire_type f) ++
  (if wire_type f =? 0 then varint (integer f)
   else varint (zlen (field_bytes f)) ++ field_bytes f).
Proof.
  intros [Hn Hk]. unfold encode_field, append_uint, append_bytes, append_tag, append_varint.
  destruct Hk as [(-> & _) | (-> & _)]; cbn [Z.eqb app]; rewrite tag_value by lia; [done |].
  by rewrite <- app_assoc.
Qed.

Lemma encode_field_bytes_ok f : field_ok f -> bytes_ok (encode_field f) /\ 0 < zlen (encode_field f).
Proof.
  intros Hf. rewrite encode_field_eq by done. destruct Hf as [Hn Hk]. autorewrite with wire.
  assert (Hz := zlen_nonneg (field_bytes f)).
  destruct Hk as [(-> & Hi & _) | (-> & _ & Hb & Hlen)]; cbn [Z.eqb]; unfold is_u64 in *.
  - assert (H1 := zlen_varint64 (8 * number f + 0) ltac:(lia)).
    assert (H2 := zlen_nonneg (varint (integer f))).
    split; [| lia]. apply bytes_ok_app. split; apply varint_bytes_ok; lia.
  - assert (H1 := zlen_varint64 (8 * number f + 2) ltac:(lia)).
    assert (H2 := zlen_nonneg (varint (zlen (field_bytes f)))). autorewrite with wire.
    split; [| lia]. repeat (apply bytes_ok_app; split); try done; apply varint_bytes_ok; lia.
Qed.

Lemma next_encode_field f rest component :
  field_ok f -> bytes_ok rest ->
  next (mkProtoReader (encode_field f ++ rest) component) = success (f, mkProtoReader rest component).
Proof.
  intros Hf Hr. rewrite encode_field_eq by done. rewrite <- app_assoc.
  destruct Hf as [Hn Hk]. destruct f as [n w i b]; cbn [number wire_type integer field_bytes] in *.
  assert (Hw : w = 0 \/ w = 2) by tauto.
  destruct (tag_split n w ltac:(lia)) as [Hnum Hwt].
  unfold next. rewrite read_varint_varint.
  2: lia.
  2: { apply bytes_ok_app. split; [| done]. unfold is_u64 in Hk.
       destruct Hk as [(-> & Hi & _) | (-> & _ & Hb & Hl)]; cbn [Z.eqb];
         [apply varint_bytes_ok; lia |].
       apply bytes_ok_app. split; [apply varint_bytes_ok; assert (Hz := zlen_nonneg b); lia | done]. }
  cbn [result_bind]. rewrite Hnum, Hwt. rewrite u32_small by lia. unfold u8.
  rewrite (Z.mod_small w) by lia.
  rewrite (proj2 (orb_false_iff _ _)) by (destruct Hk as [(_ & _ & _ & H0) |]; lia).
  destruct Hk as [(-> & Hi & -> & _) | (-> & -> & Hb & Hl)]; cbn [Z.eqb].
  - rewrite read_varint_varint by done. done.
  - rewrite <- app_assoc. assert (Hz := zlen_nonneg b).
    rewrite read_varint_varint by (try apply bytes_ok_app; (done || lia)).
    cbn [unread component_]. autorewrite with wire. assert (Hzr := zlen_nonneg rest).
    rewrite (proj2 (Z.ltb_ge _ _)) by lia. unfold subspan_from.
    rewrite subspan_app, drop_zlen_app. done.
Qed.

Lemma next_sound r f r' :
  bytes_ok (unread r) -> next r = success (f, r') ->
  field_ok f /\ unread r = encode_field f ++ unread r' /\ component_ r' = component_ r.
Proof.
  intros Hok H. unfold next in H. apply result_bind_success in H as ([tag r1] & E1 & H).
  apply read_varint_sound in E1 as (Ht & Hu1 & Hc1); [| done].
  rewrite Hu1 in Hok |- *. apply bytes_ok_app in Hok as [_ Hok1].
  destruct (_ || _) eqn:Htag in H; [done |].
  assert (Hdm := Z.div_mod tag 8 ltac:(lia)). assert (Hm := Z.mod_pos_bound tag 8 ltac:(lia)).
  rewrite Z.shiftr_div_pow2 in H, Htag by lia. rewrite (Z.land_ones _ 3) in H by lia.
  change (2 ^ 3) with 8 in *. set (n := tag / 8) in *. set (w := tag mod 8) in *.
  rewrite (u32_small n) in H by lia. unfold u8 in H. rewrite (Z.mod_small w) in H by lia.
  destruct (Z.eqb_spec w 0) as [Hw | Hw0].
  - apply result_bind_success in H as ([v r2] & E2 & H). injection H as <- <-.
    apply read_varint_sound in E2 as (Hv & Hu2 & Hc2); [| done].
    assert (Hf : field_ok (mkProtoField n w v [])).
    { split; cbn; [lia |]. left. split_and!; [done | done | done | lia]. }
    split_and!; [done | | congruence]. rewrite encode_field_eq by done. cbn [number wire_type integer].
    rewrite Hw at 2. cbn [Z.eqb]. rewrite <- app_assoc, <- Hu2. do 2 f_equal. lia.
  - destruct (Z.eqb_spec w 2) as [Hw |]; [| done].
    destruct (read_varint r1) as [[len r2] |] eqn:E2; [| done].
    apply read_varint_sound in E2 as (Hv & Hu2 & Hc2); [| done].
    destruct (Z.ltb_spec (zlen (unread r2)) len) as [| Hlen]; [done |]. injection H as <- <-.
    rewrite Hu2 in Hok1. apply bytes_ok_app in Hok1 as [_ Hok2].
    assert (Hl : zlen (subspan 0 len (unread r2)) = len) by (apply zlen_subspan; lia).
    assert (Hf : field_ok (mkProtoField n w 0 (subspan 0 len (unread r2)))).
    { split; cbn; [lia |]. right. split_and!; [done | done | by apply bytes_ok_subspan | lia]. }
    split_and!; [done | | cbn; congruence]. rewrite encode_field_eq by done.
    cbn [number wire_type field_bytes unread]. rewrite (proj2 (Z.eqb_neq w 0)), Hl by done.
    rewrite <- !app_assoc, Hu2. replace (8 * n + w) with tag by lia. do 2 f_equal.
    unfold subspan, subspan_from. by rewrite drop_0, take_drop.
Qed.

(** ** Messages *)

Definition encode_fields (fs : list ProtoField) : list Z := concat (map encode_field fs).

(** The loop body run over a list of fields. *)
Fixpoint fold_fields {S} (step : S -> ProtoField -> Result S) (fs : list ProtoField) (state : S)
    : Result S :=
  match fs with
  | [] => success state
  | f :: fs => let? state := step state f in fold_fields step fs state
  end.

Lemma fold_fields_app {S} (step : S -> ProtoField -> Result S) fs gs state :
  fold_fields step (fs ++ gs) state =
  result_bind (fold_fields step fs state) (fold_fields step gs).
Proof.
  revert state. induction fs as [| f fs IH]; intros state; cbn; [done |].
  destruct (step state f); cbn; [apply IH | done].
Qed.

Lemma fold_fields_cons {S} (step : S -> ProtoField -> Result S) f fs state state' :
  step state f = success state' ->
  fold_fields step (f :: fs) state = fold_fields step fs state'.
Proof. intros H. cbn. by rewrite H. Qed.

Lemma encode_fields_app fs gs : encode_fields (fs ++ gs) = encode_fields fs ++ encode_fields gs.
Proof. unfold encode_fields. by rewrite map_app, concat_app. Qed.

Lemma encode_fields_bytes_ok fs : Forall field_ok fs -> bytes_ok (encode_fields fs).
Proof.
  unfold encode_fields. induction 1 as [| f fs Hf _ IH]; cbn; [apply bytes_ok_nil |].
  apply bytes_ok_app. split; [by apply encode_field_bytes_ok | done].
Qed.

Lemma proto_fold_encode {S} (step : S -> ProtoField -> Result S) fs component fuel state :
  Forall field_ok fs -> (length (encode_fields fs) <= fuel)%nat ->
  proto_fold step fuel (mkProtoReader (encode_fields fs) component) state = fold_fields step fs state.
Proof.
  intros Hfs. revert fuel state.
  induction Hfs as [| f fs Hf Hfs IH]; intros fuel state Hfuel; [by destruct fuel |].
  unfold encode_fields in *. cbn [map concat] in *. rewrite length_app in Hfuel.
  destruct (encode_field_bytes_ok f Hf) as [_ Hpos]. unfold zlen in Hpos.
  destruct fuel as [| fuel]; [lia |]. cbn [proto_fold].
  replace (done _) with false by (destruct (encode_field f); [cbn in Hpos; lia | done]).
  rewrite next_encode_field by (try done; by apply encode_fields_bytes_ok).
  cbn [result_bind fold_fields]. destruct (step state f); cbn [result_bind]; [| done].
  apply IH. lia.
Qed.

(** Running the parser on encoded fields runs its body on the fields. *)
Lemma parse_proto_encode {S} (step : S -> ProtoField -> Result S) fs component state :
  Forall field_ok fs ->
  parse_proto step (encode_fields fs) component state = fold_fields step fs state.
Proof. intros Hfs. by apply proto_fold_encode. Qed.

Lemma proto_fold_sound {S} (step : S -> ProtoField -> Result S) fuel r state state' :
  bytes_ok (unread r) -> proto_fold step fuel r state = success state' ->
  exists fs, Forall field_ok fs /\ unread r = encode_fields fs /\
    fold_fields step fs state = success state'.
Proof.
  revert r state. induction fuel as [| fuel IH]; intros r state Hok; cbn [proto_fold];
    destruct (done r) eqn:Hd; try done.
  1,2: intros [= <-]; exists []; split_and!; [done | | done];
       unfold done in Hd; destruct (unread r); by try done.
  intros H. apply result_bind_success in H as ([f r1] & E1 & H).
  apply result_bind_success in H as (s1 & Hs1 & H).
  apply next_sound in E1 as (Hf & Hu & _); [| done]. rewrite Hu in Hok.
  apply bytes_ok_app in Hok as [_ Hok1].
  destruct (IH r1 s1 Hok1 H) as (fs & Hfs & Hu1 & Hfold).
  exists (f :: fs). split_and!; [by constructor | | cbn; by rewrite Hs1].
  rewrite Hu, Hu1. done.
Qed.

(** A successful parse is a run of the body over fields whose encoding is the
    input. *)
Lemma parse_proto_sound {S} (step : S -> ProtoField -> Result S) input component state state' :
  bytes_ok input -> parse_proto step input component state = success state' ->
  exists fs, Forall field_ok fs /\ input = encode_fields fs /\
    fold_fields step fs state = success state'.
Proof. intros Hok H. by apply proto_fold_sound in H. Qed.

(** The fuel of [parse_proto] is never exhausted: every turn consumes input. *)
Lemma read_varint_loop_shrinks fuel index value r v r' :
  read_varint_loop fuel index value r = success (v, r') -> (length (unread r') < length (unread r))%nat.
Proof.
  revert index value r. induction fuel as [| fuel IH]; intros index value r H; [done |]. cbn [read_varint_loop] in H.
  destruct (unread r) as [| byte rest] eqn:Hr; [done |]. inv_result H. destruct (Z.land byte 0x80 =? 0).
  - inv_result H. cbn. lia.
  - apply IH in H. cbn in *. lia.
Qed.

Lemma next_shrinks r f r' : next r = success (f, r') -> (length (unread r') < length (unread r))%nat.
Proof.
  unfold next. intros H. apply result_bind_success in H as ([tag r1] & H1 & H).
  apply read_varint_loop_shrinks in H1. destruct (_ || _); [done |]. cbv zeta in H. destruct (_ =? 0).
  - apply result_bind_success in H as ([v r2] & H2%read_varint_loop_shrinks & H). injection H as <- <-. lia.
  - destruct (_ =? 2); [| done]. destruct (read_varint r1) as [[n r2] |] eqn:H2; [| done].
    apply read_varint_loop_shrinks in H2. destruct (_ <? _); [done |]. injection H as <- <-. cbn.
    unfold subspan_from. rewrite length_drop. lia.
Qed.

Lemma proto_fold_fuel {S} (step : S -> ProtoField -> Result S) fuel r state :
  (length (unread r) <= fuel)%nat -> proto_fold step fuel r state = proto_fold step (length (unread r)) r state.
Proof.
  revert fuel state. induction r as [r IH] using (well_founded_induction (well_founded_ltof _ (fun r => length (unread r)))).
  intros fuel state Hf. destruct (unread r) as [| b rest] eqn:Hr.
  { destruct fuel; cbn; unfold done; rewrite Hr; done. }
  cbn [length] in *. destruct fuel as [| fuel]; [lia |]. cbn [proto_fold]. destruct (done r); [done |].
  destruct (next r) as [[f r'] | e] eqn:Hn; [| done]. cbn [result_bind].
  assert (Hlt := next_shrinks _ _ _ Hn). rewrite Hr in Hlt. cbn in Hlt.
  destruct (step state f) as [state' | e]; [| done]. cbn [result_bind].
  assert (Hr' : ltof _ (fun r => length (unread r)) r' r) by (unfold ltof; rewrite Hr; cbn; lia).
  rewrite (IH r' Hr' fuel) by lia. symmetry. by apply IH; [| lia].
Qed.

(** An invariant of the loop body holds of what a successful parse collected. *)
Lemma parse_proto_invariant {S} (P : S -> Prop) (step : S -> ProtoField -> Result S)
    input component state state' :
  (forall s f s', field_ok f -> P s -> step s f = success s' -> P s') ->
  bytes_ok input -> P state -> parse_proto step input component state = success state' -> P state'.
Proof.
  intros Hstep Hok HP H. apply parse_proto_sound in H as (fs & Hfs & _ & H); [| done].
  revert state HP H. induction Hfs as [| f fs Hf _ IH]; intros s HP H; [by injection H as <- |].
  cbn in H. apply result_bind_success in H as (s1 & H1 & H). eauto.
Qed.

Lemma fold_fields_collect fs acc :
  fold_fields (fun l f => success (l ++ [f])) fs acc = success (acc ++ fs).
Proof.
  revert acc. induction fs as [| f fs IH]; intros acc; cbn; [by rewrite app_nil_r |].
  by rewrite IH, <- app_assoc.
Qed.

(** The field reader accepts exactly what the field writers produce: a
    buffer is read to its end as the fields [fs] if and only if they are legal
    fields and the buffer is their concatenated encoding; every legal field
    list is read back unchanged and overlong varints, bad lengths and foreign
    wire types are rejected. *)
Theorem proto_fields_exact input component fs :
  bytes_ok input ->
  parse_proto (fun l f => success (l ++ [f])) input component [] = success fs <->
  Forall field_ok fs /\ input = encode_fields fs.
Proof.
  intros Hok. split.
  - intros H. apply parse_proto_sound in H as (gs & Hgs & -> & Hfold); [| done].
    rewrite fold_fields_collect in Hfold. injection Hfold as <-. done.
  - intros [Hfs ->]. by rewrite parse_proto_encode, fold_fields_collect.
Qed.

Definition sample_fields : list ProtoField :=
  [mkProtoField 1 2 0 [1; 2; 3]; mkProtoField 300 0 (2 ^ 64 - 1) []].

Lemma proto_fields_exact_witness :
  parse_proto (fun l f => success (l ++ [f])) (encode_fields sample_fields) "proto" []
  = success sample_fields.
Proof.
  apply proto_fields_exact; [concrete |]. split; [| reflexivity].
  constructor; [split; [concrete | right; concrete] |].
  constructor; [split; [concrete | left; concrete] | constructor].
Defined.

(** ** Fields as the writers take them *)

Definition bytes_field (n : Z) (v : list Z) : ProtoField := mkProtoField n 2 0 v.
Definition uint_field (n v : Z) : ProtoField := mkProtoField n 0 v [].

Lemma append_bytes_field output n v : append_bytes output n v = output ++ encode_field (bytes_field n v).
Proof. unfold append_bytes, encode_field, append_bytes, append_tag, append_varint. cbn. by rewrite <- !app_assoc. Qed.

Lemma append_uint_field output n v : append_uint output n v = output ++ encode_field (uint_field n v).
Proof. unfold append_uint, encode_field, append_uint, append_tag, append_varint. cbn. by rewrite <- !app_assoc. Qed.

Lemma bytes_field_ok n v :
  0 <= n <= 536870911 -> bytes_ok v -> zlen v < 2 ^ 64 -> field_ok (bytes_field n v).
Proof. intros. split; [done |]. right. done. Qed.

Lemma uint_field_ok n v : 1 <= n <= 536870911 -> is_u64 v -> field_ok (uint_field n v).
Proof. intros. split; cbn; [lia |]. left. split_and!; [done | done | done | lia]. Qed.

(** ** Codecs *)

(** What a signed object's wire codec offers its users, and the law it keeps. *)
Class Codec (A : Type) : Type := {
  codec_encode : A -> Result (list Z);
  codec_parse : list Z -> Result A;
  codec_ok : A -> Prop;
}.

Class LawfulCodec (A : Type) `{Codec A} : Prop := {
  codec_roundtrip (a : A) b :
    codec_ok a -> codec_encode a = success b -> codec_parse b = success a;
}.

Lemma codec_injective `{LawfulCodec A} (a1 a2 : A) b :
  codec_ok a1 -> codec_ok a2 -> codec_encode a1 = success b -> codec_encode a2 = success b -> a1 = a2.
Proof.
  intros H1 H2 E1 E2. apply codec_roundtrip in E1, E2; [| done | done]. congruence.
Qed.
