(* ===== verification/FieldCodec.v ===== *)
(** * Message codecs

    What the message codecs share: fields of fixed size, the sizes of encoded
    fields and of nested messages, and what a parser knows of the optionals it
    has collected so far. *)

From Stdlib Require Import ZArith Lia ZifyBool String.
From stdpp Require Import base tactics option list numbers strings.
From S2P Require Import Prelude Errors Varint Identifiers ProtoCodec.
#[local] Open Scope Z_scope.

Import Identifiers ProtoCodec.

Definition sized (n : Z) (v : list Z) : Prop := bytes_ok v /\ zlen v = n.

Definition key_typed (k : DeviceEndpointKey) : Prop :=
  sized 32 (key_device_id k) /\ sized 16 (key_endpoint_id k).

(** [operator==] of [DeviceEndpointKey]. *)
Definition key_eqb (a b : DeviceEndpointKey) : bool :=
  bytes_eqb (key_device_id a) (key_device_id b) && bytes_eqb (key_endpoint_id a) (key_endpoint_id b).

Lemma key_eqb_eq a b : key_eqb a b = true <-> a = b.
Proof.
  unfold key_eqb. rewrite andb_true_iff, !bytes_eqb_eq. destruct a, b; cbn. split; [intros [-> ->] | intros [= -> ->]]; done.
Qed.

(** An optional has a value. *)
Definition seen {A} (o : option A) : bool := match o with Some _ => true | None => false end.

Lemma sized_decide n v : forallb (fun b => (0 <=? b) && (b <? 256)) v && (zlen v =? n) = true -> sized n v.
Proof.
  intros [Hb Hl]%andb_true_iff. split; [| lia]. apply Forall_forall. intros b Hin%list_elem_of_In.
  rewrite forallb_forall in Hb. apply Hb in Hin. unfold is_byte. lia.
Qed.

Definition key_fields (k : DeviceEndpointKey) : list ProtoField :=
  [bytes_field 1 (key_device_id k); bytes_field 2 (key_endpoint_id k)].
Definition pair_fields (a b : Z) : list ProtoField := [uint_field 1 a; uint_field 2 b].

(** Turns a chain of writer calls into the encoding of a field list. *)
Ltac fold_writers :=
  rewrite ?append_bytes_field, ?append_uint_field; unfold encode_fields; cbn [map concat];
  by rewrite ?app_nil_r, <- ?app_assoc.

Lemma sized_field_ok n v size :
  1 <= n <= 536870911 -> sized size v -> size < 2 ^ 64 -> field_ok (bytes_field n v).
Proof. intros Hn [Hb <-] Hs. apply bytes_field_ok; [lia | done | done]. Qed.

(** Closes [Forall field_ok] over a literal field list. *)
Ltac fields_ok :=
  repeat apply List.Forall_cons; try apply List.Forall_nil;
  first [ eapply sized_field_ok; [lia | eassumption | lia]
        | apply uint_field_ok; [lia | assumption || (unfold is_u32, is_u64 in *; lia)] ].

Lemma key_fields_ok k : key_typed k -> Forall field_ok (key_fields k).
Proof. intros [Hd He]. unfold key_fields. fields_ok. Qed.

Lemma pair_fields_ok a b : is_u64 a -> is_u64 b -> Forall field_ok (pair_fields a b).
Proof. intros Ha Hb. unfold pair_fields. fields_ok. Qed.

Lemma zlen_uint_field n v :
  1 <= n <= 536870911 -> is_u64 v -> zlen (encode_field (uint_field n v)) <= 20.
Proof.
  intros Hn Hv. rewrite encode_field_eq by (by apply uint_field_ok). cbn [number wire_type integer uint_field Z.eqb].
  autorewrite with wire. unfold is_u64 in Hv.
  assert (H1 := zlen_varint64 (8 * n + 0) ltac:(lia)). assert (H2 := zlen_varint64 v ltac:(lia)). lia.
Qed.

Lemma zlen_bytes_field n v :
  1 <= n <= 536870911 -> bytes_ok v -> zlen v < 2 ^ 64 ->
  zlen (encode_field (bytes_field n v)) <= 20 + zlen v.
Proof.
  intros Hn Hb Hv. rewrite encode_field_eq by (apply bytes_field_ok; (done || lia)).
  cbn [number wire_type field_bytes bytes_field Z.eqb]. autorewrite with wire. assert (Hz := zlen_nonneg v).
  assert (H1 := zlen_varint64 (8 * n + 2) ltac:(lia)). assert (H2 := zlen_varint64 (zlen v) ltac:(lia)). lia.
Qed.

Lemma encode_fields_bound B fs :
  Forall (fun f => zlen (encode_field f) <= B) fs -> zlen (encode_fields fs) <= B * zlen fs.
Proof.
  intros Hz. unfold encode_fields. induction Hz as [| f fs Hf _ IH]; [unfold zlen; cbn; lia |].
  cbn [map concat]. autorewrite with wire. nia.
Qed.

Lemma zlen_encode_cons f fs : zlen (encode_fields (f :: fs)) = zlen (encode_field f) + zlen (encode_fields fs).
Proof. unfold encode_fields. cbn [map concat]. by autorewrite with wire. Qed.

(** A repeated field costs at most twenty bytes per item over the items. *)
Lemma zlen_repeated_fields n vs :
  1 <= n <= 536870911 -> Forall (fun v => bytes_ok v /\ zlen v < 2 ^ 64) vs ->
  zlen (encode_fields (map (bytes_field n) vs)) <= zlen (concat vs) + 20 * zlen vs.
Proof.
  intros Hn. induction 1 as [| v vs [Hb Hv] _ IH]; [done |]. cbn [map concat].
  rewrite zlen_encode_cons, zlen_app, zlen_cons. assert (Hf := zlen_bytes_field n v Hn Hb Hv). lia.
Qed.

(** A nested message is small. *)
Lemma nested_ok fs n :
  Forall field_ok fs -> Forall (fun f => zlen (encode_field f) <= 100) fs -> zlen fs <= 2 ->
  1 <= n <= 536870911 ->
  field_ok (bytes_field n (encode_fields fs)) /\
  zlen (encode_field (bytes_field n (encode_fields fs))) <= 300.
Proof.
  intros Hok Hz%encode_fields_bound Hl Hn. assert (Hb := encode_fields_bytes_ok fs Hok). split.
  - apply bytes_field_ok; [lia | done | lia].
  - etransitivity; [apply zlen_bytes_field; (done || lia) | lia].
Qed.

(** Legal, and of at most 300 encoded bytes. *)
Definition small (f : ProtoField) : Prop := field_ok f /\ zlen (encode_field f) <= 300.

Lemma small_sized n size v : 1 <= n <= 536870911 -> sized size v -> size <= 280 -> small (bytes_field n v).
Proof.
  intros Hn Hv Hs. split; [eapply sized_field_ok; [lia | done | lia] |]. destruct Hv as [Hb Hl].
  etransitivity; [apply zlen_bytes_field; (done || lia) | lia].
Qed.

Lemma small_uint n v : 1 <= n <= 536870911 -> is_u64 v -> small (uint_field n v).
Proof.
  intros Hn Hv. split; [apply uint_field_ok; [lia | done] |].
  etransitivity; [apply zlen_uint_field; (done || lia) | lia].
Qed.

(** A repeated field: the items arrive in order, up to the parser's limit. *)
Lemma fold_fields_repeated {S} (step : S -> ProtoField -> Result S) (n limit : Z)
    (state : option (list (list Z)) -> S) (ok : list Z -> Prop) items acc rest :
  (forall acc s, ok s -> zlen (default [] acc) < limit ->
     step (state acc) (bytes_field n s) = success (state (Some (default [] acc ++ [s])))) ->
  Forall ok items -> zlen (default [] acc) + zlen items <= limit ->
  fold_fields step (map (bytes_field n) items ++ rest) (state acc) =
  fold_fields step rest (state (match items with [] => acc | _ => Some (default [] acc ++ items) end)).
Proof.
  intros Hstep Hok. revert acc. induction Hok as [| s items Hs Hok IH]; intros acc Hl; [done |].
  rewrite zlen_cons in Hl. assert (Hz := zlen_nonneg items). cbn [map app].
  erewrite fold_fields_cons by (apply Hstep; [done | lia]). rewrite IH.
  - cbn [default from_option id]. destruct items; [done |]. by rewrite <- app_assoc.
  - cbn [default from_option id]. rewrite zlen_app. change (zlen [s]) with 1. lia.
Qed.

(** What the parsers have collected so far has the members' types. *)
Definition collected {A} (P : A -> Prop) (o : option A) : Prop := forall v, o = Some v -> P v.

Lemma collected_none {A} (P : A -> Prop) : collected P None.
Proof. by intros v. Qed.

Lemma collected_some {A} (P : A -> Prop) v : P v -> collected P (Some v).
Proof. by intros ? ? [= <-]. Qed.

#[export] Hint Resolve collected_none collected_some : core.

Lemma copy_exact_sized f size c d v :
  field_ok f -> wire_type f = 2 -> copy_exact (field_bytes f) size c d = success v -> sized size v.
Proof.
  unfold copy_exact. intros [_ Hf] Hw H. split_match_in H. injection H as <-.
  destruct Hf as [(Hw' & _) | (_ & _ & Hb & _)]; [lia |]. split; [done | lia].
Qed.

Lemma integer_u64 f : field_ok f -> wire_type f = 0 -> is_u64 (integer f).
Proof. intros [_ [(_ & Hi & _) | (Hw' & _)]] Hw; [done | lia]. Qed.

Lemma field_bytes_ok f : field_ok f -> wire_type f = 2 -> bytes_ok (field_bytes f).
Proof. intros [_ [(Hw' & _) | (_ & _ & Hb & _)]] Hw; [lia | done]. Qed.

Lemma u32_is z : is_u32 (u32 z).
Proof. by apply Z.mod_pos_bound. Qed.

Lemma field_bytes_short f : field_ok f -> wire_type f = 2 -> zlen (field_bytes f) < 2 ^ 64.
Proof. intros [_ [(Hw' & _) | (_ & _ & _ & Hl)]] Hw; [lia | done]. Qed.

(** Splits a run of a parser body into its guards and its last step. *)
Ltac inv_step H :=
  repeat (inv_result H;
    try match type of H with (if ?c then _ else _) = _ => let G := fresh "G" in destruct c eqn:G end).

