(* ===== verification/Protocol.v ===== *)
(** * Protocol versions, capabilities and the LAN datagram envelope

    [include/heyaki/protocol.hpp] and [src/core/protocol.cpp]: capability sets as
    64-bit masks, version negotiation, and the 8-byte envelope of discovery
    datagrams. The theorems: negotiation is symmetric, grants only what both
    sides support at the lower minor version and everything either side
    requires; the envelope parser accepts exactly what the encoder writes. *)

From Stdlib Require Import ZArith Lia ZifyBool String.
From stdpp Require Import base tactics option list numbers strings.
From S2P Require Import Prelude Errors.
#[local] Open Scope Z_scope.

Module Capability.
Inductive Capability : Type :=
  | enrollment | signaling | session | pairing | message | unary_rpc | event
  | byte_stream | file | shell | lan_discovery_v1 | lan_signaling_v1
  | session_restart_v1 | gateway_v1 | pairing_approval_v1
  | relay_enrollment_password_v1 | relay_ice_config_v1.
End Capability.
Abbreviation Capability := Capability.Capability.

Module LanDatagramParseStatus.
Inductive LanDatagramParseStatus : Type := parsed | incomplete | malformed | unsupported.
End LanDatagramParseStatus.
Abbreviation LanDatagramParseStatus := LanDatagramParseStatus.LanDatagramParseStatus.

Module Protocol.

Record ProtocolVersion : Type := mkProtocolVersion { major : Z; minor : Z }.

Definition capability_index (c : Capability) : Z :=
  match c with
  | Capability.enrollment => 0 | Capability.signaling => 1 | Capability.session => 2
  | Capability.pairing => 3 | Capability.message => 4 | Capability.unary_rpc => 5
  | Capability.event => 6 | Capability.byte_stream => 7 | Capability.file => 8
  | Capability.shell => 9 | Capability.lan_discovery_v1 => 10
  | Capability.lan_signaling_v1 => 11 | Capability.session_restart_v1 => 12
  | Capability.gateway_v1 => 13 | Capability.pairing_approval_v1 => 14
  | Capability.relay_enrollment_password_v1 => 15 | Capability.relay_ice_config_v1 => 16
  end.

(** The enumerator's value. *)
Definition capability_bit (c : Capability) : Z := Z.shiftl 1 (capability_index c).

Definition capability_mask (cs : list Capability) : Z :=
  foldr (fun c m => Z.lor (capability_bit c) m) 0 cs.

Definition protocol_1_0_capability_bits : Z :=
  capability_mask [Capability.enrollment; Capability.signaling; Capability.session;
    Capability.pairing; Capability.message; Capability.unary_rpc; Capability.event;
    Capability.byte_stream; Capability.file; Capability.shell].
Definition protocol_1_1_capability_bits : Z :=
  Z.lor protocol_1_0_capability_bits
    (capability_mask [Capability.lan_discovery_v1; Capability.lan_signaling_v1]).
Definition protocol_1_2_capability_bits : Z :=
  Z.lor protocol_1_1_capability_bits (capability_mask [Capability.session_restart_v1]).
Definition protocol_1_3_capability_bits : Z :=
  Z.lor protocol_1_2_capability_bits
    (capability_mask [Capability.gateway_v1; Capability.pairing_approval_v1;
       Capability.relay_enrollment_password_v1; Capability.relay_ice_config_v1]).
Definition known_capability_bits : Z := protocol_1_3_capability_bits.

Definition current_protocol_version : ProtocolVersion := mkProtocolVersion 1 3.

(** [CapabilitySet::has] and [CapabilitySet::contains]; the set is its mask. *)
Definition has (bits : Z) (c : Capability) : bool := negb (Z.land bits (capability_bit c) =? 0).
Definition contains (bits required : Z) : bool := Z.land bits required =? required.

Record ProtocolHello : Type := mkProtocolHello {
  version : ProtocolVersion;
  supported : Z;
  required : Z;
}.

Record NegotiatedProtocol : Type := mkNegotiatedProtocol {
  negotiated_version : ProtocolVersion;
  capabilities : Z;
}.

Definition negotiation_error {T} (detail : string) : Result T :=
  failure (make_error ErrorCode.protocol "negotiation" detail).

Definition capabilities_for_version (v : ProtocolVersion) : Z :=
  if negb (major v =? major current_protocol_version) then 0
  else if minor v =? 0 then protocol_1_0_capability_bits
  else if minor v =? 1 then protocol_1_1_capability_bits
  else if minor v =? 2 then protocol_1_2_capability_bits
  else protocol_1_3_capability_bits.

(** [~known_capability_bits] on 64 bits. *)
Definition unknown_capability_bits : Z := Z.lxor u64_max known_capability_bits.

Definition negotiate_protocol (local remote : ProtocolHello) : Result NegotiatedProtocol :=
  if negb (Z.land (Z.lor (required local) (required remote)) unknown_capability_bits =? 0)
  then negotiation_error "unknown_required_capability" else
  if negb (contains (supported local) (required local))
     || negb (contains (supported remote) (required remote))
  then negotiation_error "invalid_required_capabilities" else
  if negb (major (version local) =? major (version remote))
  then negotiation_error "incompatible_major_version" else
  let v := mkProtocolVersion (major (version local))
             (Z.min (minor (version local)) (minor (version remote))) in
  let caps := Z.land (Z.land (supported local) (supported remote)) (capabilities_for_version v) in
  if negb (contains caps (required local)) || negb (contains caps (required remote))
  then negotiation_error "required_capability_unavailable"
  else success (mkNegotiatedProtocol v caps).

(** ** LAN datagrams *)

Definition lan_datagram_magic : list Z := bytes_of_string "HYLD".
Definition lan_datagram_envelope_version : Z := 1.
Definition lan_datagram_header_bytes : Z := 8.
Definition max_lan_datagram_bytes : Z := 1200.
Definition max_lan_datagram_payload_bytes : Z := max_lan_datagram_bytes - lan_datagram_header_bytes.

(** [LanDatagramType::presence], the only enumerator. *)
Definition lan_datagram_presence : Z := 1.

Record LanDatagramView : Type := mkLanDatagramView { datagram_type : Z; datagram_payload : list Z }.

Definition LanDatagramParseResult : Type := LanDatagramParseStatus * option LanDatagramView.

Definition parse_lan_datagram (bytes : list Z) : LanDatagramParseResult :=
  if zlen bytes <? lan_datagram_header_bytes then (LanDatagramParseStatus.incomplete, None) else
  if (max_lan_datagram_bytes <? zlen bytes)
     || negb (bytes_eqb (subspan 0 4 bytes) lan_datagram_magic)
     || negb (byte_at bytes 4 =? lan_datagram_envelope_version)
  then (LanDatagramParseStatus.malformed, None) else
  let payload_size := Z.lor (Z.shiftl (byte_at bytes 6) 8) (byte_at bytes 7) in
  if negb (payload_size =? zlen bytes - lan_datagram_header_bytes)
  then (LanDatagramParseStatus.malformed, None) else
  if negb (byte_at bytes 5 =? lan_datagram_presence)
  then (LanDatagramParseStatus.unsupported, None) else
  (LanDatagramParseStatus.parsed,
   Some (mkLanDatagramView lan_datagram_presence (subspan_from lan_datagram_header_bytes bytes))).

Definition encode_lan_datagram (type : Z) (payload : list Z) : Result (list Z) :=
  fail_if negb (type =? lan_datagram_presence)
    with make_error ErrorCode.protocol "lan_discovery" "unsupported_datagram_type";
  fail_if (max_lan_datagram_payload_bytes <? zlen payload) || (65535 <? zlen payload)
    with make_error ErrorCode.resource_exhausted "lan_discovery" "datagram_too_large";
  let output := lan_datagram_magic in
  let output := output ++ [lan_datagram_envelope_version] in
  let output := output ++ [type] in
  let output := output ++ [Z.land (Z.shiftr (zlen payload) 8) 0xff] in
  let output := output ++ [Z.land (zlen payload) 0xff] in
  success (output ++ payload).

End Protocol.

Import Protocol.

(** ** Negotiation *)

Lemma contains_spec bits r :
  contains bits r = true <-> forall i, Z.testbit r i = true -> Z.testbit bits i = true.
Proof.
  unfold contains. rewrite Z.eqb_eq. split.
  - intros H i Hi. rewrite <- H, Z.land_spec in Hi. by apply andb_true_iff in Hi as [].
  - intros H. apply Z.bits_inj. intros i. rewrite Z.land_spec.
    destruct (Z.testbit r i) eqn:E; [by rewrite H | apply andb_false_r].
Qed.

(** Negotiation is symmetric: both ends of a session that exchange the same
    two hellos reach the same version and capability set, or fail with the same
    error. *)
Theorem negotiate_protocol_symmetric a b : negotiate_protocol a b = negotiate_protocol b a.
Proof.
  unfold negotiate_protocol.
  rewrite (Z.lor_comm (required b)), (orb_comm (negb (contains (supported b) _))),
    (Z.eqb_sym (major (version b))).
  destruct (negb (_ =? 0)); [done |]. destruct (negb (contains _ _) || _); [done |].
  destruct (Z.eqb_spec (major (version a)) (major (version b))) as [E |]; [| done]. cbn [negb].
  by rewrite <- E, (Z.min_comm (minor (version b))), (Z.land_comm (supported b)),
    (orb_comm (negb (contains _ (required b)))).
Qed.

(** What a successful negotiation grants: the common major and the lower
    minor version; a capability only if both sides support it and that version
    defines it; and every capability either side requires. *)
Theorem negotiate_protocol_sound a b n :
  negotiate_protocol a b = success n ->
  major (negotiated_version n) = major (version a) /\
  major (negotiated_version n) = major (version b) /\
  minor (negotiated_version n) = Z.min (minor (version a)) (minor (version b)) /\
  (forall i, Z.testbit (capabilities n) i =
     Z.testbit (supported a) i && Z.testbit (supported b) i &&
     Z.testbit (capabilities_for_version (negotiated_version n)) i) /\
  (forall i, Z.testbit (required a) i || Z.testbit (required b) i = true ->
     Z.testbit (capabilities n) i = true).
Proof.
  unfold negotiate_protocol, negotiation_error. intros H.
  destruct (negb (_ =? 0)); [done |]. destruct (negb (contains _ _) || _); [done |].
  destruct (Z.eqb_spec (major (version a)) (major (version b))) as [E |]; [cbn [negb] in H | done].
  destruct (negb (contains _ (required a)) || _) eqn:Hreq; [done |]. injection H as <-.
  cbn [negotiated_version capabilities major minor].
  apply orb_false_iff in Hreq as [Ha Hb]. apply negb_false_iff in Ha, Hb.
  rewrite contains_spec in Ha, Hb. split_and!; try done.
  - intros i. by rewrite !Z.land_spec.
  - intros i [Hi | Hi]%orb_true_iff; auto.
Qed.

Lemma negotiate_protocol_sound_witness :
  let a := mkProtocolHello (mkProtocolVersion 1 3) known_capability_bits 4 in
  let b := mkProtocolHello (mkProtocolVersion 1 1) protocol_1_1_capability_bits 8 in
  minor (negotiated_version (mkNegotiatedProtocol (mkProtocolVersion 1 1) protocol_1_1_capability_bits))
  = Z.min (minor (version a)) (minor (version b)).
Proof.
  intros a b. eapply (negotiate_protocol_sound a b). vm_compute. reflexivity.
Defined.

(** ** The LAN envelope *)

(** The LAN envelope: a datagram parses to a presence payload exactly when
    it is what [encode_lan_datagram] writes for that payload. *)
Theorem lan_datagram_exact bytes payload :
  bytes_ok bytes ->
  parse_lan_datagram bytes =
    (LanDatagramParseStatus.parsed, Some (mkLanDatagramView lan_datagram_presence payload)) <->
  encode_lan_datagram lan_datagram_presence payload = success bytes.
Proof.
  intros Hok. unfold parse_lan_datagram, encode_lan_datagram, lan_datagram_header_bytes,
    max_lan_datagram_payload_bytes, max_lan_datagram_bytes, lan_datagram_header_bytes.
  rewrite Z.eqb_refl. cbn [negb]. split; intros H.
  - destruct (Z.ltb_spec (zlen bytes) 8) as [| H8]; [done |].
    destruct bytes as [| m0 [| m1 [| m2 [| m3 [| v [| t [| hi [| lo rest]]]]]]]];
      try (unfold zlen in H8; cbn in H8; lia).
    destruct ((1200 <? _) || _ || _) eqn:Hh in H; [done |].
    apply orb_false_iff in Hh as [[Hmax Hmag]%orb_false_iff Hv].
    apply negb_false_iff, bytes_eqb_eq in Hmag. change (subspan 0 4 _) with [m0; m1; m2; m3] in Hmag.
    change (byte_at (_ :: _) 4) with v in Hv. change (byte_at (_ :: _) 5) with t in H.
    change (byte_at (_ :: _) 6) with hi in H. change (byte_at (_ :: _) 7) with lo in H.
    change (subspan_from 8 _) with rest in H.
    unfold bytes_ok in Hok. rewrite !Forall_cons in Hok.
    destruct Hok as (_ & _ & _ & _ & _ & _ & Hhi & Hlo & _). unfold is_byte in *.
    rewrite Z.lor_comm, lor_shiftl_add in H by lia. rewrite !zlen_cons in *.
    destruct (negb (lo + _ =? _)) eqn:Hsz in H; [done |]. destruct (Z.eqb_spec t lan_datagram_presence) as [-> |]; [| done].
    injection H as <-. assert (Hz := zlen_nonneg rest).
    rewrite (proj2 (orb_false_iff _ _)) by lia.
    assert (Hn : zlen rest = 256 * hi + lo) by lia.
    destruct (be16_split (zlen rest) ltac:(lia)) as (-> & -> & _).
    rewrite Hn, (Z.mul_comm 256), Z.add_comm, Z.div_add, Z_mod_plus_full, Z.div_small, Z.mod_small by lia.
    replace (0 + hi) with hi by lia. injection Hmag as -> -> -> ->.
    unfold lan_datagram_envelope_version in *. replace v with 1 by lia. done.
  - destruct (_ || _) eqn:Hs in H; [done |]. injection H as <-.
    assert (Hz := zlen_nonneg payload).
    destruct (be16_split (zlen payload) ltac:(lia)) as (E1 & E2 & E3). rewrite E1, E2.
    cbn [app lan_datagram_magic bytes_of_string]. rewrite !zlen_cons.
    rewrite (proj2 (Z.ltb_ge _ 8)) by lia.
    rewrite (proj2 (Z.ltb_ge 1200 _)) by lia.
    change (subspan 0 4 _) with lan_datagram_magic. rewrite bytes_eqb_refl.
    change (byte_at (_ :: _) 6) with (zlen payload / 256). change (byte_at (_ :: _) 7) with (zlen payload mod 256).
    rewrite E3, (proj2 (Z.eqb_eq (zlen payload) _)) by lia. done.
Qed.

Lemma lan_datagram_exact_witness :
  parse_lan_datagram ([72; 89; 76; 68; 1; 1; 0; 2] ++ [9; 9]) =
    (LanDatagramParseStatus.parsed, Some (mkLanDatagramView lan_datagram_presence [9; 9])).
Proof. apply lan_datagram_exact; [concrete | vm_compute; reflexivity]. Defined.
