(* ===== verification/Security.v ===== *)
(** * Security policy

    [include/heyaki/security.hpp] and [src/core/security.cpp]: log redaction, the
    replay-cache and password policies, and the validity window of signed
    objects. *)

From Stdlib Require Import ZArith Lia ZifyBool String.
From stdpp Require Import base tactics option list numbers strings.
From S2P Require Import Prelude Errors.
#[local] Open Scope Z_scope.

Module LogDataClass.
Inductive LogDataClass : Type :=
  | public_value | operational | identifier | secret_key | token | password
  | verifier | payload | terminal_content.
End LogDataClass.
Abbreviation LogDataClass := LogDataClass.LogDataClass.

Module Security.

Definition is_safe_log_class (data_class : LogDataClass) : bool :=
  match data_class with
  | LogDataClass.public_value | LogDataClass.operational | LogDataClass.identifier => true
  | _ => false
  end.

Definition value_for_log (data_class : LogDataClass) (value : string) : string :=
  if is_safe_log_class data_class then value else "[REDACTED]"%string.

Definition replay_cache_ttl_milliseconds : Z := 10 * 60 * 1000.
Definition maximum_signed_validity_milliseconds : Z := 5 * 60 * 1000.
Definition maximum_expiry_clock_skew_milliseconds : Z := 30 * 1000.

(** [ReplayCacheFullPolicy] has the single enumerator [reject]. *)
Record ReplayCachePolicy : Type := mkReplayCachePolicy {
  ttl_milliseconds : Z;
  capacity : Z;
  per_peer_capacity : Z;
}.

Definition default_replay_policy : ReplayCachePolicy :=
  mkReplayCachePolicy replay_cache_ttl_milliseconds 4096 256.

Record PasswordSecurityPolicy : Type := mkPasswordSecurityPolicy {
  verifier_format_version : Z;
  minimum_unicode_scalars : Z;
  maximum_utf8_bytes : Z;
  generated_entropy_bits : Z;
  argon2_target_milliseconds : Z;
  argon2_minimum_memory_kib : Z;
  argon2_maximum_memory_kib : Z;
  argon2_minimum_operations : Z;
  argon2_maximum_operations : Z;
}.

Definition default_password_policy : PasswordSecurityPolicy :=
  mkPasswordSecurityPolicy 1 8 256 128 500 (64 * 1024) (512 * 1024) 2 6.

Definition security_error (code : ErrorCode) (detail : string) : Error :=
  make_error code "security" detail.

Definition validate_security_policy (replay : ReplayCachePolicy)
    (password : PasswordSecurityPolicy) : Result unit :=
  fail_if negb (ttl_milliseconds replay =? replay_cache_ttl_milliseconds)
    with security_error ErrorCode.configuration "replay_ttl";
  fail_if (capacity replay <? 64) || (1024 * 1024 <? capacity replay)
    with security_error ErrorCode.configuration "replay_capacity";
  fail_if (per_peer_capacity replay <? 16) || (capacity replay <? per_peer_capacity replay)
    with security_error ErrorCode.configuration "replay_per_peer_capacity";
  fail_if negb (verifier_format_version password =? 1)
          || (minimum_unicode_scalars password <? 8)
          || (maximum_utf8_bytes password <? minimum_unicode_scalars password)
          || (256 <? maximum_utf8_bytes password)
          || (generated_entropy_bits password <? 128)
          || (argon2_target_milliseconds password <? 250)
          || (750 <? argon2_target_milliseconds password)
          || (argon2_minimum_memory_kib password <? 64 * 1024)
          || (argon2_maximum_memory_kib password <? argon2_minimum_memory_kib password)
          || (512 * 1024 <? argon2_maximum_memory_kib password)
          || (argon2_minimum_operations password <? 2)
          || (argon2_maximum_operations password <? argon2_minimum_operations password)
          || (6 <? argon2_maximum_operations password)
    with security_error ErrorCode.configuration "password_policy";
  success tt.

(** [std::uint64_t] arithmetic, written out; both branches of each conditional
    keep it in range. *)
Definition validate_signed_expiry (expires_unix_milliseconds now_unix_milliseconds : Z)
    : Result unit :=
  let earliest :=
    if maximum_expiry_clock_skew_milliseconds <? now_unix_milliseconds
    then u64 (now_unix_milliseconds - maximum_expiry_clock_skew_milliseconds) else 0 in
  let latest :=
    if u64_max - maximum_signed_validity_milliseconds <? now_unix_milliseconds
    then u64_max else u64 (now_unix_milliseconds + maximum_signed_validity_milliseconds) in
  fail_if expires_unix_milliseconds <? earliest
    with security_error ErrorCode.authentication "signed_object_expired";
  fail_if latest <? expires_unix_milliseconds
    with security_error ErrorCode.authentication "signed_expiry_too_far";
  success tt.

End Security.

Import Security.

(** Accepted exactly when the expiry is at most the clock skew in the past and
    at most the maximum validity ahead, with no wrap-around at either end of the
    64-bit range. *)
Lemma validate_signed_expiry_window expires now :
  is_u64 expires -> is_u64 now ->
  validate_signed_expiry expires now = success tt <->
  now - maximum_expiry_clock_skew_milliseconds <= expires
    <= now + maximum_signed_validity_milliseconds.
Proof.
  unfold is_u64. intros He Hn. unfold validate_signed_expiry.
  replace (if _ <? now then u64 (now - _) else 0)
    with (Z.max 0 (now - maximum_expiry_clock_skew_milliseconds)).
  2: { case_match eqn:E; unfold maximum_expiry_clock_skew_milliseconds in *; [rewrite u64_small |]; lia. }
  replace (if _ <? now then u64_max else u64 _)
    with (Z.min u64_max (now + maximum_signed_validity_milliseconds)).
  2: { case_match eqn:E; unfold maximum_signed_validity_milliseconds, u64_max in *; [| rewrite u64_small]; lia. }
  case_match eqn:E1; [split; [done | lia] |].
  case_match eqn:E2; (split; [done || lia |]); unfold u64_max in *; try lia; done.
Qed.
