(* ===== verification/Operation.v ===== *)
(** * Operations and connection attempts

    Two small state machines. [include/heyaki/operation.hpp] and
    [src/core/operation.cpp]: an operation leaves [pending] once and then never
    changes. [src/client/connection_attempt.cpp]: the timeline of a connection
    attempt, a bounded history of legal stage changes. *)

From Stdlib Require Import ZArith Lia ZifyBool String.
From stdpp Require Import base tactics option list numbers strings relations.
From S2P Require Import Prelude Errors.
#[local] Open Scope Z_scope.

Module OperationState.
Inductive OperationState : Type := pending | success | error | cancelled | outcome_unknown.
End OperationState.
Abbreviation OperationState := OperationState.OperationState.

#[export] Instance OperationState_eq_dec : EqDecision OperationState.
Proof. solve_decision. Defined.

Module ConnectionStage.
Inductive ConnectionStage : Type :=
  | idle | resolving_endpoint | signaling | gathering | checking | transport_connected
  | authenticating | authenticated | closed.
End ConnectionStage.
Abbreviation ConnectionStage := ConnectionStage.ConnectionStage.

#[export] Instance ConnectionStage_eq_dec : EqDecision ConnectionStage.
Proof. solve_decision. Defined.

Module Operation.

(** [SessionEpoch::next]. *)
Definition next_epoch (value : Z) : option Z :=
  if value =? u64_max then None else Some (u64 (value + 1)).

Record OperationStatus : Type := mkOperationStatus {
  op_id : list Z;
  epoch : Z;
  state : OperationState;
  op_error : option Error;
}.

Definition invalid_transition {T} (current : OperationStatus) (detail : string) : Result T :=
  failure (make_error_full ErrorCode.protocol "operation" detail None None (Some (op_id current))).

Definition is_state (a b : OperationState) : bool := bool_decide (a = b).

Definition transition_operation (current : OperationStatus) (next : OperationState)
    (error : option Error) : Result OperationStatus :=
  if epoch current =? 0 then invalid_transition current "zero_session_epoch" else
  if negb (is_state (state current) OperationState.pending) then
    if is_state (state current) next && negb (bool_decide (is_Some error))
    then success current
    else invalid_transition current "terminal_state_transition"
  else
  if is_state next OperationState.pending then invalid_transition current "pending_to_pending" else
  if is_state next OperationState.success && bool_decide (is_Some error)
  then invalid_transition current "success_with_error" else
  if is_state next OperationState.error && negb (bool_decide (is_Some error))
  then invalid_transition current "error_without_detail" else
  let error :=
    if is_state next OperationState.cancelled && negb (bool_decide (is_Some error))
    then Some (make_error_full ErrorCode.cancelled "operation" "cancelled" None None
                 (Some (op_id current)))
    else error in
  let error :=
    if is_state next OperationState.outcome_unknown && negb (bool_decide (is_Some error))
    then Some (make_error_full ErrorCode.outcome_unknown "operation" "connection_lost" None None
                 (Some (op_id current)))
    else error in
  success (mkOperationStatus (op_id current) (epoch current) next error).

Definition operation_state_name (s : OperationState) : string :=
  match s with
  | OperationState.pending => "pending" | OperationState.success => "success"
  | OperationState.error => "error" | OperationState.cancelled => "cancelled"
  | OperationState.outcome_unknown => "outcome_unknown"
  end.

(** ** ConnectionAttemptTimeline *)

Definition timeline_error (code : ErrorCode) (detail : string) : Error :=
  make_error code "connection_timeline" detail.

Definition is_stage (a b : ConnectionStage) : bool := bool_decide (a = b).

Definition legal_transition (from to : ConnectionStage) : bool :=
  if is_stage to ConnectionStage.closed && negb (is_stage from ConnectionStage.closed) then true
  else match from with
  | ConnectionStage.idle => is_stage to ConnectionStage.resolving_endpoint
  | ConnectionStage.resolving_endpoint => is_stage to ConnectionStage.signaling
  | ConnectionStage.signaling =>
      is_stage to ConnectionStage.gathering || is_stage to ConnectionStage.checking
      || is_stage to ConnectionStage.transport_connected
  | ConnectionStage.gathering =>
      is_stage to ConnectionStage.checking || is_stage to ConnectionStage.transport_connected
  | ConnectionStage.checking => is_stage to ConnectionStage.transport_connected
  | ConnectionStage.transport_connected => is_stage to ConnectionStage.authenticating
  | ConnectionStage.authenticating => is_stage to ConnectionStage.authenticated
  | ConnectionStage.authenticated | ConnectionStage.closed => false
  end.

Record ConnectionTransition : Type := mkConnectionTransition {
  from : ConnectionStage;
  to : ConnectionStage;
  timestamp : Z;
  source : list Z;
  reason : list Z;
}.

Record ConnectionAttemptTimeline : Type := mkTimeline {
  timeline_capacity_ : Z;
  stage_ : ConnectionStage;
  transitions_ : list ConnectionTransition;
}.

Definition new_timeline (capacity : Z) : ConnectionAttemptTimeline :=
  mkTimeline capacity ConnectionStage.idle [].

Definition transition (t : ConnectionAttemptTimeline) (next : ConnectionStage)
    (source reason : list Z) (timestamp : Z) : Result unit * ConnectionAttemptTimeline :=
  if (timeline_capacity_ t =? 0) || (zlen source =? 0) || (64 <? zlen source)
     || (zlen reason =? 0) || (128 <? zlen reason)
  then (failure (timeline_error ErrorCode.configuration "transition_metadata_invalid"), t) else
  if negb (legal_transition (stage_ t) next)
  then (failure (timeline_error ErrorCode.protocol "connection_transition_invalid"), t) else
  if timeline_capacity_ t <=? zlen (transitions_ t)
  then (failure (timeline_error ErrorCode.resource_exhausted "transition_history_full"), t) else
  (success tt,
   mkTimeline (timeline_capacity_ t) next
     (transitions_ t ++ [mkConnectionTransition (stage_ t) next timestamp source reason])).

Definition connection_stage_name (s : ConnectionStage) : string :=
  match s with
  | ConnectionStage.idle => "idle" | ConnectionStage.resolving_endpoint => "resolving_endpoint"
  | ConnectionStage.signaling => "signaling" | ConnectionStage.gathering => "gathering"
  | ConnectionStage.checking => "checking"
  | ConnectionStage.transport_connected => "transport_connected"
  | ConnectionStage.authenticating => "authenticating"
  | ConnectionStage.authenticated => "authenticated" | ConnectionStage.closed => "closed"
  end.

End Operation.

Import Operation.

(** ** Operations settle once *)

Definition op_step (s s' : OperationStatus) : Prop :=
  exists next error, transition_operation s next error = success s'.

(** Whether a status carries an error is determined by its state. *)
Definition status_ok (s : OperationStatus) : Prop :=
  match state s with
  | OperationState.pending | OperationState.success => op_error s = None
  | _ => is_Some (op_error s)
  end.

Lemma transition_terminal s s' :
  state s <> OperationState.pending -> op_step s s' -> s' = s.
Proof.
  intros Hs (next & error & H). unfold transition_operation, is_state, invalid_transition in H.
  destruct (epoch s =? 0); [done |]. rewrite bool_decide_false in H by done. cbn [negb] in H.
  destruct (_ && _); congruence.
Qed.

Lemma transition_pending s s' :
  state s = OperationState.pending -> status_ok s -> op_step s s' ->
  state s' <> OperationState.pending /\ status_ok s' /\ op_id s' = op_id s /\ epoch s' = epoch s.
Proof.
  intros Hs Hok (next & error & H). unfold transition_operation, is_state, invalid_transition in H.
  rewrite Hs in H. destruct (epoch s =? 0); [done |].
  destruct next, error; cbn in H; try discriminate H; injection H as <-; cbn;
    split_and!; try done; by eexists.
Qed.

(** An operation settles at most once: from a fresh status every reachable
    status keeps its id and epoch and carries an error exactly when its state
    calls for one, and a status that has left [pending] is never changed by any
    later transition. *)
Theorem operation_settles_once s0 s1 s2 :
  state s0 = OperationState.pending -> op_error s0 = None ->
  rtc op_step s0 s1 -> rtc op_step s1 s2 ->
  status_ok s1 /\ op_id s1 = op_id s0 /\ epoch s1 = epoch s0 /\
  (state s1 <> OperationState.pending -> s2 = s1).
Proof.
  intros Hs0 He0 H01 H12.
  assert (Hinv : status_ok s1 /\ op_id s1 = op_id s0 /\ epoch s1 = epoch s0).
  { apply (rtc_ind_r (fun s => status_ok s /\ op_id s = op_id s0 /\ epoch s = epoch s0) s0) in H01; [done | |].
    - unfold status_ok. by rewrite Hs0.
    - intros s s' _ Hstep (Hok & Hid & Hep).
      destruct (decide (state s = OperationState.pending)) as [Hp | Hp].
      + destruct (transition_pending s s' Hp Hok Hstep) as (_ & Hok' & Hid' & Hep').
        split_and!; congruence.
      + by rewrite (transition_terminal s s' Hp Hstep). }
  destruct Hinv as (Hok & Hid & Hep). split_and!; try done. intros Ht.
  induction H12 as [| s s' s'' Hstep _ IH]; [done |].
  apply transition_terminal in Hstep; [| done]. subst s'. by apply IH.
Qed.

Lemma operation_settles_once_witness :
  let s0 := mkOperationStatus (repeat 3 16) 1 OperationState.pending None in
  let s1 := mkOperationStatus (repeat 3 16) 1 OperationState.success None in
  status_ok s1 /\ op_id s1 = op_id s0 /\ epoch s1 = epoch s0 /\
  (state s1 <> OperationState.pending -> s1 = s1).
Proof.
  intros s0 s1. apply (operation_settles_once s0 s1 s1); [done | done | | apply rtc_refl].
  eapply rtc_l; [| apply rtc_refl]. exists OperationState.success, None. reflexivity.
Defined.

(** ** The connection timeline *)

(** Stages only move forward. *)
Definition stage_rank (s : ConnectionStage) : Z :=
  match s with
  | ConnectionStage.idle => 0 | ConnectionStage.resolving_endpoint => 1
  | ConnectionStage.signaling => 2 | ConnectionStage.gathering => 3
  | ConnectionStage.checking => 4 | ConnectionStage.transport_connected => 5
  | ConnectionStage.authenticating => 6 | ConnectionStage.authenticated => 7
  | ConnectionStage.closed => 8
  end.

Lemma legal_transition_rank a b : legal_transition a b = true -> stage_rank a < stage_rank b.
Proof. destruct a, b; vm_compute; intros; congruence. Qed.

(** The recorded transitions form a path. *)
Fixpoint linked (a : ConnectionStage) (ts : list ConnectionTransition) (b : ConnectionStage) : Prop :=
  match ts with
  | [] => a = b
  | t :: ts => from t = a /\ legal_transition a (to t) = true /\ linked (to t) ts b
  end.

Lemma linked_snoc a ts b t :
  linked a ts b -> from t = b -> legal_transition b (to t) = true -> linked a (ts ++ [t]) (to t).
Proof.
  revert a. induction ts as [| t0 ts IH]; intros a; cbn.
  - intros -> ? ?. done.
  - intros (Hf & Hl & Hk) ? ?. split_and!; auto.
Qed.

Lemma linked_rank a ts b : linked a ts b -> stage_rank a + zlen ts <= stage_rank b.
Proof.
  revert a. induction ts as [| t ts IH]; intros a; cbn; [intros ->; rewrite zlen_nil; lia |].
  intros (_ & Hl%legal_transition_rank & Hk%IH). autorewrite with wire. lia.
Qed.

Definition timeline_step (t t' : ConnectionAttemptTimeline) : Prop :=
  exists next source reason timestamp, t' = snd (transition t next source reason timestamp).

Lemma timeline_linked capacity t :
  rtc timeline_step (new_timeline capacity) t ->
  timeline_capacity_ t = capacity /\ linked ConnectionStage.idle (transitions_ t) (stage_ t).
Proof.
  intros H. apply (rtc_ind_r (fun t => timeline_capacity_ t = capacity /\
    linked ConnectionStage.idle (transitions_ t) (stage_ t)) (new_timeline capacity)) in H; [done | done |].
  intros t1 t2 _ (next & src & rsn & ts & ->) [Hc Hl]. unfold transition.
  repeat case_match; try done. cbn. split; [done |].
  apply (linked_snoc _ _ (stage_ t1) (mkConnectionTransition (stage_ t1) next ts src rsn)); [done | done |].
  cbn. by destruct (legal_transition _ _).
Qed.

(** The timeline of a connection attempt is a legal path from [idle] to the
    current stage with at most eight entries, so with room for eight a
    well-formed transition is accepted exactly when it is legal: closing an
    attempt is never refused for lack of history. *)
Theorem timeline_sound capacity t next source reason timestamp :
  8 <= capacity -> rtc timeline_step (new_timeline capacity) t ->
  1 <= zlen source <= 64 -> 1 <= zlen reason <= 128 ->
  linked ConnectionStage.idle (transitions_ t) (stage_ t) /\ zlen (transitions_ t) <= 8 /\
  has_value (fst (transition t next source reason timestamp)) = legal_transition (stage_ t) next.
Proof.
  intros Hcap Hr Hs Hn. destruct (timeline_linked capacity t Hr) as [Hc Hl].
  assert (Hrank := linked_rank _ _ _ Hl). cbn [stage_rank] in Hrank.
  assert (Hmax : stage_rank (stage_ t) <= 8) by (destruct (stage_ t); cbn; lia).
  split_and!; [done | lia |]. unfold transition. rewrite Hc.
  rewrite (proj2 (Z.eqb_neq capacity 0)), (proj2 (Z.eqb_neq (zlen source) 0)),
    (proj2 (Z.eqb_neq (zlen reason) 0)), (proj2 (Z.ltb_ge 64 _)), (proj2 (Z.ltb_ge 128 _)) by lia.
  cbn [orb]. destruct (legal_transition (stage_ t) next) eqn:E; cbn [negb]; [| done].
  apply legal_transition_rank in E. assert (Hmax' : stage_rank next <= 8) by (destruct next; cbn; lia).
  by rewrite (proj2 (Z.leb_gt _ _)) by lia.
Qed.

Lemma timeline_sound_witness :
  let t := snd (transition (new_timeline 32) ConnectionStage.resolving_endpoint [1] [2] 5) in
  linked ConnectionStage.idle (transitions_ t) (stage_ t) /\ zlen (transitions_ t) <= 8 /\
  has_value (fst (transition t ConnectionStage.closed [1] [2] 9))
  = legal_transition (stage_ t) ConnectionStage.closed.
Proof.
  intros t. apply (timeline_sound 32); [lia | | concrete | concrete].
  eapply rtc_l; [| apply rtc_refl]. by exists ConnectionStage.resolving_endpoint, [1], [2], 5.
Defined.
