(* ===== verification/Identity.v ===== *)
(** * Device identities

    [include/heyaki/identity.hpp] and [src/core/identity.cpp]: Ed25519 key pairs
    whose device id is the SHA-256 of the public key. libsodium is not part of
    the repository: its functions are the operations of the class [Sodium], and
    what the code relies on are the laws of [SodiumLaws]. The [sodium_memzero]
    calls and the move constructors that erase secret keys have no counterpart
    in a value model. *)

From Stdlib Require Import ZArith Lia ZifyBool String.
From stdpp Require Import base tactics option list numbers strings.
From S2P Require Import Prelude Errors.
#[local] Open Scope Z_scope.

(** libsodium; [None] or [false] is a non-zero return code. *)
Class Sodium : Type := {
  sodium_init : bool;
  crypto_hash_sha256 : list Z -> option (list Z);
  crypto_sign_seed_keypair : list Z -> option (list Z * list Z);
  crypto_sign_ed25519_sk_to_seed : list Z -> option (list Z);
  crypto_sign_detached : list Z -> list Z -> option (list Z);
  crypto_sign_verify_detached : list Z -> list Z -> list Z -> bool;
}.

Module Identity.

Definition ed25519_public_key_bytes : Z := 32.
Definition ed25519_secret_key_bytes : Z := 64.
Definition ed25519_signature_bytes : Z := 64.

Definition identity_error (code : ErrorCode) (detail : string) : Error :=
  make_error code "identity" detail.

Record IdentityKeyPair : Type := mkIdentityKeyPair {
  device_id_ : list Z;
  public_key_ : list Z;
  secret_key_ : list Z;
}.

Section identity.
Context `{Sodium}.

Definition derive_device_id (public_key : list Z) : Result (list Z) :=
  fail_if negb (zlen public_key =? ed25519_public_key_bytes)
    with identity_error ErrorCode.identity "invalid_public_key_length";
  match crypto_hash_sha256 public_key with
  | None => failure (identity_error ErrorCode.internal "sha256_failed")
  | Some digest => success digest
  end.

Definition initialize_crypto : Result unit :=
  if negb sodium_init then failure (make_error ErrorCode.internal "crypto" "sodium_init_failed")
  else success tt.

(** [seed] is the randomness [crypto_sign_keypair] draws. *)
Definition create_identity (seed : list Z) : Result IdentityKeyPair :=
  let? _ := initialize_crypto in
  match crypto_sign_seed_keypair seed with
  | None => failure (identity_error ErrorCode.internal "key_generation_failed")
  | Some (public_key, secret_key) =>
      let? device_id := derive_device_id public_key in
      success (mkIdentityKeyPair device_id public_key secret_key)
  end.

Definition import_identity (public_key secret_key : list Z) : Result IdentityKeyPair :=
  let? _ := initialize_crypto in
  fail_if negb (zlen public_key =? ed25519_public_key_bytes)
          || negb (zlen secret_key =? ed25519_secret_key_bytes)
    with identity_error ErrorCode.identity "invalid_key_length";
  let mismatch :=
    match crypto_sign_ed25519_sk_to_seed secret_key with
    | None => true
    | Some seed =>
        match crypto_sign_seed_keypair seed with
        | None => true
        | Some (derived_public_key, derived_secret_key) =>
            negb (bytes_eqb derived_public_key public_key)
            || negb (bytes_eqb derived_secret_key secret_key)
        end
    end in
  fail_if mismatch with identity_error ErrorCode.identity "public_private_key_mismatch";
  let? device_id := derive_device_id public_key in
  success (mkIdentityKeyPair device_id public_key secret_key).

Definition sign_identity_message (identity : IdentityKeyPair) (message : list Z)
    : Result (list Z) :=
  let? _ := initialize_crypto in
  match crypto_sign_detached message (secret_key_ identity) with
  | None => failure (identity_error ErrorCode.internal "signature_generation_failed")
  | Some signature =>
      fail_if negb (zlen signature =? ed25519_signature_bytes)
        with identity_error ErrorCode.internal "signature_generation_failed";
      success signature
  end.

Definition verify_identity_signature (public_key message signature : list Z) : Result unit :=
  let? _ := initialize_crypto in
  fail_if negb (zlen public_key =? ed25519_public_key_bytes)
          || negb (zlen signature =? ed25519_signature_bytes)
    with identity_error ErrorCode.authentication "invalid_signature_shape";
  fail_if negb (crypto_sign_verify_detached signature message public_key)
    with identity_error ErrorCode.authentication "signature_verification_failed";
  success tt.

End identity.

End Identity.

Import Identity.

Lemma verify_signature_inv `{Sodium} pk m s :
  verify_identity_signature pk m s = success tt ->
  zlen pk = ed25519_public_key_bytes /\ zlen s = ed25519_signature_bytes /\ crypto_sign_verify_detached s m pk = true.
Proof.
  unfold verify_identity_signature. intros E. apply result_bind_success in E as (? & _ & E).
  destruct (_ || _) eqn:Es in E; [done |]. destruct (crypto_sign_verify_detached s m pk); [| done].
  split_and!; [lia | lia | done].
Qed.

(** What the code relies on of libsodium: digests are 32 bytes, key pairs and
    signatures have their documented sizes, and a detached signature verifies
    under the public key of its pair. *)
Class SodiumLaws `{Sodium} : Prop := {
  sha256_size m d : crypto_hash_sha256 m = Some d -> bytes_ok d /\ zlen d = 32;
  keypair_size seed pk sk :
    crypto_sign_seed_keypair seed = Some (pk, sk) ->
    (bytes_ok pk /\ zlen pk = ed25519_public_key_bytes) /\
    (bytes_ok sk /\ zlen sk = ed25519_secret_key_bytes);
  signature_size m sk s :
    crypto_sign_detached m sk = Some s -> bytes_ok s /\ zlen s = ed25519_signature_bytes;
  verify_signed seed pk sk m s :
    crypto_sign_seed_keypair seed = Some (pk, sk) ->
    crypto_sign_detached m sk = Some s -> crypto_sign_verify_detached s m pk = true;
}.

Section identity_laws.
Context `{SodiumLaws}.

(** An identity either factory can produce: a key pair of one seed, under the id
    derived from its public key. *)
Definition identity_ok (i : IdentityKeyPair) : Prop :=
  exists seed, crypto_sign_seed_keypair seed = Some (public_key_ i, secret_key_ i) /\
    derive_device_id (public_key_ i) = success (device_id_ i).

Lemma create_identity_ok seed i : create_identity seed = success i -> identity_ok i.
Proof.
  unfold create_identity. intros E. inv_result E.
  destruct (crypto_sign_seed_keypair seed) as [[pk sk] |] eqn:Ek; [| done].
  inv_result E. by exists seed.
Qed.

Lemma import_identity_ok pk sk i :
  import_identity pk sk = success i -> identity_ok i /\ public_key_ i = pk /\ secret_key_ i = sk.
Proof.
  unfold import_identity. intros E. inv_result E. split; [| done].
  destruct (crypto_sign_ed25519_sk_to_seed sk) as [seed |]; [| done].
  destruct (crypto_sign_seed_keypair seed) as [[pk' sk'] |] eqn:Ek; [| done].
  apply orb_false_iff in G0 as [Hp Hs]. apply negb_false_iff, bytes_eqb_eq in Hp, Hs. subst.
  exists seed. done.
Qed.

Lemma identity_sign_verify i m s :
  identity_ok i -> sign_identity_message i m = success s ->
  verify_identity_signature (public_key_ i) m s = success tt /\
  bytes_ok s /\ zlen s = ed25519_signature_bytes.
Proof.
  intros (seed & Hk & Hid) E. unfold sign_identity_message in E. inv_result E.
  destruct (crypto_sign_detached m (secret_key_ i)) as [s' |] eqn:Es; [| done]. inv_result E.
  destruct (keypair_size _ _ _ Hk) as [[_ Hpk] _], (signature_size _ _ _ Es) as [Hb Hl].
  split; [| done]. unfold verify_identity_signature. rewrite E0. cbn [result_bind].
  by rewrite Hpk, Hl, !Z.eqb_refl, (verify_signed _ _ _ _ _ Hk Es).
Qed.

(** An identity that was created or imported signs what it can verify:
    whenever either factory returns a key pair and that pair signs a message,
    the signature verifies under its public key, and its device id is the one
    every peer derives from that key. *)
Theorem identity_roundtrip seed pk sk i m s :
  create_identity seed = success i \/ import_identity pk sk = success i ->
  sign_identity_message i m = success s ->
  verify_identity_signature (public_key_ i) m s = success tt /\
  derive_device_id (public_key_ i) = success (device_id_ i).
Proof.
  intros Hi Hs. assert (Hok : identity_ok i).
  { destruct Hi as [Hc | Hm]; [by eapply create_identity_ok | by eapply import_identity_ok]. }
  split; [by apply (identity_sign_verify i m s) |]. by destruct Hok as (? & _ & ?).
Qed.

End identity_laws.

(** ** An instance *)

(** A stand-in for libsodium with its input-output shape, used to show that the
    laws can hold together: the digest is the first 32 bytes, padded, and a
    signature is the digest of the public key and that of the message. *)
Definition toy_digest (m : list Z) : list Z :=
  map (fun b => b mod 256) (take 32 (m ++ repeat 0 32)).

#[local] Instance toy_sodium : Sodium := {|
  sodium_init := true;
  crypto_hash_sha256 m := Some (toy_digest m);
  crypto_sign_seed_keypair seed := Some (toy_digest seed, toy_digest seed ++ toy_digest seed);
  crypto_sign_ed25519_sk_to_seed sk := Some (take 32 sk);
  crypto_sign_detached m sk := Some (toy_digest (take 32 sk) ++ toy_digest m);
  crypto_sign_verify_detached s m pk := bytes_eqb s (toy_digest pk ++ toy_digest m);
|}.

Lemma toy_digest_ok m : bytes_ok (toy_digest m) /\ zlen (toy_digest m) = 32.
Proof.
  unfold toy_digest. split.
  - apply Forall_map, Forall_forall. intros b _. apply Z.mod_pos_bound. lia.
  - unfold zlen. rewrite length_map, length_take, length_app, repeat_length. lia.
Qed.

#[local] Instance toy_sodium_laws : SodiumLaws.
Proof.
  split; cbn.
  - intros m d [= <-]. apply toy_digest_ok.
  - intros seed pk sk [= <- <-]. destruct (toy_digest_ok seed) as [Hb Hl].
    split; [done |]. rewrite bytes_ok_app, zlen_app, Hl. done.
  - intros m sk s [= <-]. rewrite bytes_ok_app, zlen_app.
    destruct (toy_digest_ok (take 32 sk)) as [? ->], (toy_digest_ok m) as [? ->]. done.
  - intros seed pk sk m s [= <- <-] [= <-]. apply bytes_eqb_eq. do 2 f_equal.
    destruct (toy_digest_ok seed) as [_ Hl]. unfold zlen in Hl.
    rewrite take_app_le by lia. by rewrite take_ge by lia.
Qed.

Lemma identity_roundtrip_witness :
  let i := mkIdentityKeyPair (repeat 5 32) (repeat 5 32) (repeat 5 64) in
  verify_identity_signature (public_key_ i) [1; 2] (repeat 5 32 ++ [1; 2] ++ repeat 0 30) = success tt /\
  derive_device_id (public_key_ i) = success (device_id_ i).
Proof.
  intros i. apply (identity_roundtrip (repeat 5 32) [] []);
    [left; vm_compute; reflexivity | vm_compute; reflexivity].
Defined.
