(* ===== verification/Signing.v ===== *)
(** * Canonical signing bytes

    [include/heyaki/signing.hpp] and [src/core/signing.cpp]: every signed object
    is signed over a domain-separated byte string of numbered fields, whose
    shape is fixed per domain. The theorems: the byte string determines the
    domain and the fields (so a signature of one object is never one of
    another), the UTF-8 scanner accepts exactly the encodings of Unicode scalar
    values, and the scope-list scanner exactly the strictly sorted lists. *)

From Stdlib Require Import ZArith Lia ZifyBool String.
From stdpp Require Import base tactics option list numbers strings.
From S2P Require Import Prelude Errors Identity.
#[local] Open Scope Z_scope.

Module SigningDomain.
Inductive SigningDomain : Type :=
  | enrollment | enrollment_record | relay_login | endpoint_record | service_manifest
  | offer | answer | candidate | lan_presence | lan_hello | session_hello | trust_grant.
End SigningDomain.
Abbreviation SigningDomain := SigningDomain.SigningDomain.

Module Signing.

Record CanonicalField : Type := mkCanonicalField {
  field_number : Z;
  field_value : list Z;
}.

Definition max_canonical_signing_bytes : Z := 1024 * 1024.

Definition append_uint16 (output : list Z) (value : Z) : list Z :=
  output ++ [Z.land (Z.shiftr value 8) 0xff] ++ [Z.land value 0xff].

(** The [for (int shift = 24; shift >= 0; shift -= 8)] loops. *)
Definition append_uint32 (output : list Z) (value : Z) : list Z :=
  output ++ map (fun shift => Z.land (Z.shiftr value shift) 0xff) [24; 16; 8; 0].
Definition append_uint64 (output : list Z) (value : Z) : list Z :=
  output ++ map (fun shift => Z.land (Z.shiftr value shift) 0xff) [56; 48; 40; 32; 24; 16; 8; 0].

Definition canonical_uint16 (value : Z) : list Z := append_uint16 [] value.
Definition canonical_uint32 (value : Z) : list Z := append_uint32 [] value.
Definition canonical_uint64 (value : Z) : list Z := append_uint64 [] value.

(** The overloads of [canonical_bytes] copy the bytes of an identifier. *)
Definition canonical_bytes (id : list Z) : list Z := id.

Definition canonical_error {T} (detail : string) : Result T :=
  failure (make_error ErrorCode.protocol "signing" detail).

(** [FieldRule]: the exact size of a field, or [variable]. *)
Definition FieldRule : Type := option Z.
Definition variable : FieldRule := None.

Definition enrollment_rules : list FieldRule :=
  [Some 32; Some 16; Some 32; Some 32; Some 32; variable; Some 4; Some 4; Some 8; Some 8; Some 8].
Definition enrollment_record_rules : list FieldRule :=
  [Some 32; Some 16; Some 32; variable; Some 8; Some 8].
Definition relay_login_rules : list FieldRule :=
  [Some 32; Some 16; Some 32; Some 32; Some 32; variable; Some 4; Some 4; Some 8; Some 8; Some 8;
   Some 8].
Definition endpoint_record_rules : list FieldRule :=
  [Some 32; Some 16; variable; Some 8; Some 32; Some 8].
Definition service_manifest_rules : list FieldRule := [Some 32; Some 16; Some 8; Some 32; Some 8].
Definition offer_rules : list FieldRule :=
  [Some 32; Some 16; Some 32; Some 16; Some 16; Some 16; Some 32; Some 8; variable; Some 32].
Definition answer_rules : list FieldRule :=
  [Some 32; Some 16; Some 32; Some 16; Some 16; Some 16; Some 32; Some 32; Some 8; variable; Some 32].
Definition candidate_rules : list FieldRule :=
  [Some 32; Some 16; Some 32; Some 16; Some 16; Some 16; Some 32; Some 32; Some 8; Some 4;
   variable; Some 32; variable; Some 32].
Definition lan_presence_rules : list FieldRule :=
  [Some 4; Some 4; Some 8; Some 8; Some 32; Some 32; Some 16; Some 32; Some 8; Some 2; Some 4].
Definition lan_hello_rules : list FieldRule :=
  [Some 4; Some 32; Some 16; Some 32; Some 16; Some 32; Some 32; Some 32; Some 32; Some 32; Some 32;
   Some 4; Some 4; Some 8; Some 8; Some 4].
Definition session_hello_rules : list FieldRule :=
  [Some 32; Some 16; Some 32; Some 16; Some 16; Some 8; Some 32; Some 32; Some 32; Some 4; Some 4;
   Some 8; Some 8; Some 8].
Definition trust_grant_required_rules : list FieldRule :=
  [Some 16; Some 32; Some 32; variable; Some 8; Some 8].

Definition is_printable_ascii (value : list Z) (minimum maximum : Z) : bool :=
  if (zlen value <? minimum) || (maximum <? zlen value) then false
  else forallb (fun byte => (0x20 <=? byte) && (byte <=? 0x7e)) value.

(** One turn of the loop of [is_nonempty_utf8] that starts at [first]: the
    number of continuation bytes and the range of the second byte. *)
Definition utf8_lead (first : Z) : option (Z * Z * Z) :=
  if (0xc2 <=? first) && (first <=? 0xdf) then Some (1, 0x80, 0xbf)
  else if (0xe0 <=? first) && (first <=? 0xef) then
    Some (2, if first =? 0xe0 then 0xa0 else 0x80, if first =? 0xed then 0x9f else 0xbf)
  else if (0xf0 <=? first) && (first <=? 0xf4) then
    Some (3, if first =? 0xf0 then 0x90 else 0x80, if first =? 0xf4 then 0x8f else 0xbf)
  else None.

(** The [while (index < value.size())] loop, over the bytes from [index] on;
    every turn consumes at least one of them. *)
Fixpoint utf8_loop (fuel : nat) (value : list Z) : bool :=
  match fuel, value with
  | _, [] => true
  | O, _ :: _ => false
  | S fuel, first :: rest =>
      if first <=? 0x7f then utf8_loop fuel rest else
      match utf8_lead first with
      | None => false
      | Some (continuation_count, second_minimum, second_maximum) =>
          if zlen value <=? continuation_count then false else
          let second := byte_at value 1 in
          if (second <? second_minimum) || (second_maximum <? second) then false else
          if negb (forallb (fun continuation => (0x80 <=? continuation) && (continuation <=? 0xbf))
                     (subspan 2 (continuation_count - 1) value))
          then false
          else utf8_loop fuel (subspan_from (continuation_count + 1) value)
      end
  end.

Definition is_nonempty_utf8 (value : list Z) : bool :=
  match value with [] => false | _ :: _ => utf8_loop (length value) value end.

Definition has_canonical_domain (value expected_domain : list Z) : bool :=
  if (zlen value <? 6 + zlen expected_domain + 2)
     || negb (bytes_eqb (subspan 0 4 value) (bytes_of_string "HYSG"))
     || negb (byte_at value 4 =? 1)
     || negb (byte_at value 5 =? zlen expected_domain)
  then false
  else bytes_eqb (subspan 6 (zlen expected_domain) value) expected_domain.

Definition read_uint16 (value : list Z) (offset : Z) : Z :=
  u16 (Z.lor (Z.shiftl (byte_at value offset) 8) (byte_at value (offset + 1))).

(** The [for] loop of [is_canonical_scope_list]: [count - index] turns left. *)
Fixpoint scope_loop (turns : nat) (value : list Z) (offset : Z) (previous : list Z) : bool :=
  match turns with
  | O => offset =? zlen value
  | S turns =>
      if (zlen value <? offset) || (zlen value - offset <? 2) then false else
      let length := read_uint16 value offset in
      let offset := offset + 2 in
      if (length =? 0) || (256 <? length) || (zlen value <? offset)
         || (zlen value - offset <? length) then false else
      let scope := subspan offset length value in
      if negb (forallb (fun byte => (0x20 <=? byte) && (byte <=? 0x7e)) scope) then false else
      if negb (zlen previous =? 0) && negb (lex_lt previous scope) then false else
      scope_loop turns value (offset + length) scope
  end.

Definition is_canonical_scope_list (value : list Z) : bool :=
  if zlen value <? 2 then false else
  let count := read_uint16 value 0 in
  if 256 <? count then false else scope_loop (Z.to_nat count) value 2 [].

(** The [for] loop of [matches_rules], from [index] on. *)
Fixpoint rules_loop (index : Z) (fields : list CanonicalField) (rules : list FieldRule) : bool :=
  match fields, rules with
  | field :: fields, rule :: rules =>
      if negb (field_number field =? index + 1)
         || match rule with Some size => negb (zlen (field_value field) =? size) | None => false end
      then false else rules_loop (index + 1) fields rules
  | _, _ => true
  end.

Definition matches_rules (fields : list CanonicalField) (rules : list FieldRule) : bool :=
  if negb (zlen fields =? zlen rules) then false else rules_loop 0 fields rules.

(** [fields[index]], evaluated only after the size has been checked. *)
Definition field_at (fields : list CanonicalField) (index : Z) : CanonicalField :=
  nth (Z.to_nat index) fields (mkCanonicalField 0 []).
Definition value_at (fields : list CanonicalField) (index : Z) : list Z :=
  field_value (field_at fields index).

Definition matches_field_shape (domain : SigningDomain) (fields : list CanonicalField) : bool :=
  match domain with
  | SigningDomain.enrollment =>
      matches_rules fields enrollment_rules && is_nonempty_utf8 (value_at fields 5)
  | SigningDomain.enrollment_record =>
      matches_rules fields enrollment_record_rules && is_nonempty_utf8 (value_at fields 3)
  | SigningDomain.relay_login =>
      matches_rules fields relay_login_rules && is_nonempty_utf8 (value_at fields 5)
  | SigningDomain.endpoint_record =>
      matches_rules fields endpoint_record_rules && is_nonempty_utf8 (value_at fields 2)
  | SigningDomain.service_manifest => matches_rules fields service_manifest_rules
  | SigningDomain.offer => matches_rules fields offer_rules
  | SigningDomain.answer => matches_rules fields answer_rules
  | SigningDomain.candidate =>
      matches_rules fields candidate_rules && negb (zlen (value_at fields 10) =? 0)
      && is_printable_ascii (value_at fields 12) 4 256
  | SigningDomain.lan_presence => matches_rules fields lan_presence_rules
  | SigningDomain.lan_hello => matches_rules fields lan_hello_rules
  | SigningDomain.session_hello => matches_rules fields session_hello_rules
  | SigningDomain.trust_grant =>
      if negb (zlen fields =? 7) && negb (zlen fields =? 8) then false else
      if negb (rules_loop 0 fields trust_grant_required_rules) then false else
      if negb (is_canonical_scope_list (value_at fields 3)) then false else
      if (zlen fields =? 8)
         && (negb (field_number (field_at fields 6) =? 7) || negb (zlen (value_at fields 6) =? 8))
      then false else
      let nonce_index := if zlen fields =? 8 then 7 else 6 in
      (field_number (field_at fields nonce_index) =? 8) && (zlen (value_at fields nonce_index) =? 32)
  end.

Definition signing_domain_separator (domain : SigningDomain) : string :=
  match domain with
  | SigningDomain.enrollment => "heyaki.enrollment.v1"
  | SigningDomain.enrollment_record => "heyaki.enrollment-record.v1"
  | SigningDomain.relay_login => "heyaki.relay-login.v1"
  | SigningDomain.endpoint_record => "heyaki.endpoint-record.v1"
  | SigningDomain.service_manifest => "heyaki.service-manifest.v1"
  | SigningDomain.offer => "heyaki.offer.v1"
  | SigningDomain.answer => "heyaki.answer.v1"
  | SigningDomain.candidate => "heyaki.candidate.v1"
  | SigningDomain.lan_presence => "heyaki.lan-presence.v1"
  | SigningDomain.lan_hello => "heyaki.lan-hello.v1"
  | SigningDomain.session_hello => "heyaki.session-hello.v1"
  | SigningDomain.trust_grant => "heyaki.trust-grant.v1"
  end.

(** The checking loop of [canonicalize_for_signature]. *)
Fixpoint canonical_size_loop (fields : list CanonicalField) (total_size previous_number : Z)
    : Result Z :=
  match fields with
  | [] => success total_size
  | field :: fields =>
      if (field_number field =? 0) || (field_number field <=? previous_number)
      then canonical_error "fields_not_strictly_ordered" else
      let remaining := max_canonical_signing_bytes - Z.min total_size max_canonical_signing_bytes in
      if (u32_max <? zlen (field_value field)) || (remaining <? zlen (field_value field))
      then canonical_error "canonical_object_too_large" else
      let total_size := total_size + (2 + 4 + zlen (field_value field)) in
      if max_canonical_signing_bytes <? total_size
      then canonical_error "canonical_object_too_large"
      else canonical_size_loop fields total_size (field_number field)
  end.

(** The writing loop. *)
Fixpoint append_fields (output : list Z) (fields : list CanonicalField) : list Z :=
  match fields with
  | [] => output
  | field :: fields =>
      let output := append_uint16 output (field_number field) in
      let output := append_uint32 output (u32 (zlen (field_value field))) in
      append_fields (output ++ field_value field) fields
  end.

Definition canonicalize_for_signature (domain : SigningDomain) (fields : list CanonicalField)
    : Result (list Z) :=
  let separator := bytes_of_string (signing_domain_separator domain) in
  if bytes_eqb separator (bytes_of_string "heyaki.invalid.v1")
  then canonical_error "invalid_signing_domain" else
  if negb (matches_field_shape domain fields)
  then canonical_error "invalid_signed_field_shape" else
  if (255 <? zlen separator) || (65535 <? zlen fields)
  then canonical_error "canonical_header_too_large" else
  let? _ := canonical_size_loop fields (4 + 1 + 1 + zlen separator + 2) 0 in
  let output := bytes_of_string "HYSG" in
  let output := output ++ [1] in
  let output := output ++ [u8 (zlen separator)] in
  let output := output ++ separator in
  let output := append_uint16 output (u16 (zlen fields)) in
  success (append_fields output fields).

(** The six [crypto_hash_sha256_update] calls hash the concatenation. *)
Definition hash_signaling_transcript `{Sodium} (canonical_offer canonical_answer : list Z)
    : Result (list Z) :=
  if (zlen canonical_offer =? 0) || (zlen canonical_answer =? 0)
  then canonical_error "empty_signaling_transcript" else
  if (max_canonical_signing_bytes <? zlen canonical_offer)
     || (max_canonical_signing_bytes <? zlen canonical_answer)
  then canonical_error "signaling_transcript_too_large" else
  if negb (has_canonical_domain canonical_offer (bytes_of_string "heyaki.offer.v1"))
     || negb (has_canonical_domain canonical_answer (bytes_of_string "heyaki.answer.v1"))
  then canonical_error "invalid_signaling_transcript_domain" else
  match crypto_hash_sha256
          (bytes_of_string "heyaki.signaling-transcript.v1"
           ++ canonical_uint32 (u32 (zlen canonical_offer)) ++ canonical_offer
           ++ canonical_uint32 (u32 (zlen canonical_answer)) ++ canonical_answer) with
  | None => failure (make_error ErrorCode.internal "signing" "sha256_failed")
  | Some digest => success digest
  end.

End Signing.

Import Signing.

(** ** Fixed-width integers *)

Lemma canonical_uint16_value v : 0 <= v < 2 ^ 16 -> be 256 (canonical_uint16 v) = v.
Proof.
  intros Hv. destruct (be16_split v ltac:(lia)) as (E1 & E2 & _).
  unfold canonical_uint16, append_uint16. rewrite E1, E2. unfold be. cbn [app foldl].
  assert (H := Z.div_mod v 256 ltac:(lia)). lia.
Qed.

(** One byte off the top of a [bits]-bit number. *)
Ltac byte_split v bits :=
  let k := eval cbv in (bits - 8) in
  let H := fresh "S" in
  assert (H : v mod 2 ^ bits = (v / 2 ^ k) mod 256 * 2 ^ k + v mod 2 ^ k)
    by (apply (mod_split v bits 8); lia).

Lemma canonical_uint32_value v : 0 <= v < 2 ^ 32 -> be 256 (canonical_uint32 v) = v.
Proof.
  intros Hv. unfold canonical_uint32, append_uint32. cbn [map app].
  rewrite !land_255, !Z.shiftr_div_pow2 by lia. unfold be. cbn [foldl].
  byte_split v 32. byte_split v 24. byte_split v 16. byte_split v 8.
  rewrite Z.mod_small in S by lia. change (v mod 2 ^ 0) with (v mod 1) in *.
  rewrite Z.mod_1_r in *. lia.
Qed.

Lemma canonical_uint64_value v : 0 <= v < 2 ^ 64 -> be 256 (canonical_uint64 v) = v.
Proof.
  intros Hv. unfold canonical_uint64, append_uint64. cbn [map app].
  rewrite !land_255, !Z.shiftr_div_pow2 by lia. unfold be. cbn [foldl].
  byte_split v 64. byte_split v 56. byte_split v 48. byte_split v 40.
  byte_split v 32. byte_split v 24. byte_split v 16. byte_split v 8.
  rewrite Z.mod_small in S by lia. change (v mod 2 ^ 0) with (v mod 1) in *.
  rewrite Z.mod_1_r in *. lia.
Qed.

Lemma canonical_uint32_inj a b : is_u32 a -> is_u32 b -> canonical_uint32 a = canonical_uint32 b -> a = b.
Proof. intros Ha Hb E. apply (f_equal (be 256)) in E. by rewrite !canonical_uint32_value in E. Qed.

Lemma canonical_uint64_inj a b : is_u64 a -> is_u64 b -> canonical_uint64 a = canonical_uint64 b -> a = b.
Proof. intros Ha Hb E. apply (f_equal (be 256)) in E. by rewrite !canonical_uint64_value in E. Qed.

(** ** The byte string determines the object *)

(** The types of the C++ members. *)
Definition field_typed (f : CanonicalField) : Prop := is_u16 (field_number f).

Definition field_image (f : CanonicalField) : list Z :=
  canonical_uint16 (field_number f) ++ canonical_uint32 (u32 (zlen (field_value f))) ++ field_value f.

Lemma zlen_field_image f : zlen (field_image f) = 6 + zlen (field_value f).
Proof.
  unfold field_image. autorewrite with wire.
  change (zlen (canonical_uint16 _)) with 2. change (zlen (canonical_uint32 _)) with 4. lia.
Qed.

Lemma append_fields_image output fields :
  append_fields output fields = output ++ concat (map field_image fields).
Proof.
  revert output. induction fields as [| f fields IH]; intros output; cbn [append_fields map concat].
  { by rewrite app_nil_r. }
  rewrite IH. unfold field_image, canonical_uint16, canonical_uint32, append_uint16, append_uint32.
  by rewrite <- !app_assoc.
Qed.

Lemma field_image_inj f g r s :
  field_typed f -> field_typed g ->
  zlen (field_value f) < 2 ^ 32 -> zlen (field_value g) < 2 ^ 32 ->
  field_image f ++ r = field_image g ++ s -> f = g /\ r = s.
Proof.
  destruct f as [n v], g as [m w]. unfold field_typed, is_u16, field_image.
  cbn [field_number field_value]. intros Hn Hm Hv Hw Heq. rewrite <- !app_assoc in Heq.
  apply app_zlen_inj in Heq as [En Heq]; [| done].
  apply app_zlen_inj in Heq as [Ev Heq]; [| done].
  assert (Hv0 := zlen_nonneg v). assert (Hw0 := zlen_nonneg w).
  apply (f_equal (be 256)) in En, Ev. rewrite !canonical_uint16_value in En by lia.
  rewrite !u32_small, !canonical_uint32_value in Ev by lia.
  apply app_zlen_inj in Heq as [-> ->]; [| done]. by subst.
Qed.

Lemma fields_image_inj fs gs :
  Forall field_typed fs -> Forall field_typed gs ->
  Forall (fun f => zlen (field_value f) < 2 ^ 32) fs ->
  Forall (fun f => zlen (field_value f) < 2 ^ 32) gs ->
  concat (map field_image fs) = concat (map field_image gs) -> fs = gs.
Proof.
  intros Hf. revert gs. induction Hf as [| f fs Hf Hfs IH]; intros gs Hg Hls Hlg Heq.
  { by destruct gs. }
  destruct Hg as [| g gs Hg Hgs]; [done |].
  apply Forall_cons in Hls as [Hlf Hls], Hlg as [Hlg Hlgs]. cbn in Heq.
  apply field_image_inj in Heq as [-> Heq]; try done. f_equal. by apply IH.
Qed.

Lemma canonical_size_loop_bound fields total previous size :
  canonical_size_loop fields total previous = success size ->
  Forall (fun f => zlen (field_value f) < 2 ^ 32) fields /\
  (total <= max_canonical_signing_bytes -> size <= max_canonical_signing_bytes) /\
  size = total + zlen (concat (map field_image fields)).
Proof.
  revert total previous. induction fields as [| f fields IH]; intros total previous;
    cbn [canonical_size_loop map concat]; unfold canonical_error.
  { intros [= ->]. split_and!; [done | done |]. rewrite zlen_nil. lia. }
  intros H. split_match_in H. apply IH in H as (Hf & Hb & ->).
  unfold u32_max in *. split_and!; [constructor; [lia | done] | intros; apply Hb; lia |].
  rewrite zlen_app, zlen_field_image. lia.
Qed.

Lemma separator_inj d1 d2 :
  bytes_of_string (signing_domain_separator d1) = bytes_of_string (signing_domain_separator d2) ->
  d1 = d2.
Proof. destruct d1, d2; try done; intros H; vm_compute in H; discriminate H. Qed.

Lemma canonicalize_layout domain fields b :
  canonicalize_for_signature domain fields = success b ->
  matches_field_shape domain fields = true /\
  Forall (fun f => zlen (field_value f) < 2 ^ 32) fields /\
  zlen b <= max_canonical_signing_bytes /\
  exists separator, separator = bytes_of_string (signing_domain_separator domain) /\
    b = (bytes_of_string "HYSG" ++ [1]) ++ [zlen separator] ++ separator
        ++ canonical_uint16 (zlen fields) ++ concat (map field_image fields).
Proof.
  unfold canonicalize_for_signature, canonical_error. set (separator := bytes_of_string _).
  intros H. destruct (bytes_eqb separator _); [done |].
  destruct (matches_field_shape domain fields) eqn:Hm; [cbn [negb] in H | done].
  destruct (_ || _) eqn:Hh in H; [done |].
  apply result_bind_success in H as (size & Hsize & H). injection H as <-.
  apply canonical_size_loop_bound in Hsize as (Hf & Hb & Hsz).
  assert (Hs0 := zlen_nonneg separator). assert (Hn0 := zlen_nonneg fields).
  assert (Hu8 : u8 (zlen separator) = zlen separator) by (unfold u8; apply Z.mod_small; lia).
  assert (Hu16 : u16 (zlen fields) = zlen fields) by (unfold u16; apply Z.mod_small; lia).
  rewrite append_fields_image, Hu8, Hu16. unfold append_uint16. rewrite <- !app_assoc.
  split_and!; [done | done | | by exists separator].
  unfold max_canonical_signing_bytes in *. autorewrite with wire.
  change (zlen (bytes_of_string "HYSG")) with 4. lia.
Qed.

Lemma canonicalize_domain_inj d1 d2 fs1 fs2 b :
  canonicalize_for_signature d1 fs1 = success b ->
  canonicalize_for_signature d2 fs2 = success b -> d1 = d2.
Proof.
  intros H1 H2.
  destruct (canonicalize_layout _ _ _ H1) as (_ & _ & _ & s1 & Hs1 & ->).
  destruct (canonicalize_layout _ _ _ H2) as (_ & _ & _ & s2 & Hs2 & Heq).
  apply app_inv_head in Heq. injection Heq as Hlen Heq.
  apply app_zlen_inj in Heq as [Hsep _]; [| done]. apply separator_inj. congruence.
Qed.

Lemma canonicalize_fields_inj d fs1 fs2 b :
  Forall field_typed fs1 -> Forall field_typed fs2 ->
  canonicalize_for_signature d fs1 = success b ->
  canonicalize_for_signature d fs2 = success b -> fs1 = fs2.
Proof.
  intros Ht1 Ht2 H1 H2.
  destruct (canonicalize_layout _ _ _ H1) as (_ & Hl1 & _ & s1 & Hs1 & ->).
  destruct (canonicalize_layout _ _ _ H2) as (_ & Hl2 & _ & s2 & Hs2 & Heq).
  apply app_inv_head in Heq. injection Heq as Hlen Heq.
  apply app_zlen_inj in Heq as [_ Heq]; [| done]. injection Heq as _ _ Heq.
  by apply fields_image_inj.
Qed.

(** C2. Canonical signing bytes are injective across all domains: two objects,
    of whatever domains, canonicalize to the same bytes only if they have the
    same domain and the same fields. A signature over one object is therefore
    not a signature over any other. *)
Theorem canonicalize_injective d1 d2 fs1 fs2 b :
  Forall field_typed fs1 -> Forall field_typed fs2 ->
  canonicalize_for_signature d1 fs1 = success b ->
  canonicalize_for_signature d2 fs2 = success b -> d1 = d2 /\ fs1 = fs2.
Proof.
  intros Ht1 Ht2 H1 H2. assert (d1 = d2) as -> by (by eapply canonicalize_domain_inj).
  split; [done | by eapply canonicalize_fields_inj].
Qed.

Lemma canonicalize_injective_witness :
  let fs := [mkCanonicalField 1 (repeat 1 32); mkCanonicalField 2 (repeat 2 16);
             mkCanonicalField 3 (repeat 3 8); mkCanonicalField 4 (repeat 4 32);
             mkCanonicalField 5 (repeat 5 8)] in
  SigningDomain.service_manifest = SigningDomain.service_manifest /\ fs = fs.
Proof.
  intros fs.
  apply (canonicalize_injective _ _ fs fs
    match canonicalize_for_signature SigningDomain.service_manifest fs with
    | success b => b | failure _ => [] end);
    [concrete | concrete | vm_compute; reflexivity | vm_compute; reflexivity].
Defined.

(** ** The signaling transcript *)

Definition transcript_preimage (offer answer : list Z) : list Z :=
  bytes_of_string "heyaki.signaling-transcript.v1"
  ++ canonical_uint32 (u32 (zlen offer)) ++ offer
  ++ canonical_uint32 (u32 (zlen answer)) ++ answer.

Lemma transcript_preimage_inj o1 a1 o2 a2 :
  zlen o1 < 2 ^ 32 -> zlen o2 < 2 ^ 32 ->
  transcript_preimage o1 a1 = transcript_preimage o2 a2 -> o1 = o2 /\ a1 = a2.
Proof.
  unfold transcript_preimage. intros H1 H2 Heq. apply app_inv_head in Heq.
  assert (Hz1 := zlen_nonneg o1). assert (Hz2 := zlen_nonneg o2).
  apply app_zlen_inj in Heq as [El Heq]; [| done].
  apply (f_equal (be 256)) in El. rewrite !u32_small, !canonical_uint32_value in El by lia.
  apply app_zlen_inj in Heq as [-> Heq]; [| done].
  by apply app_zlen_inj in Heq as [_ ->].
Qed.

(** The transcript hash binds both signaling messages: two successful
    transcripts with the same digest hash the same offer and the same answer,
    or exhibit a SHA-256 collision. *)
Theorem transcript_binding `{Sodium} o1 a1 o2 a2 d :
  hash_signaling_transcript o1 a1 = success d -> hash_signaling_transcript o2 a2 = success d ->
  (o1 = o2 /\ a1 = a2) \/
  exists m1 m2, m1 <> m2 /\ crypto_hash_sha256 m1 = Some d /\ crypto_hash_sha256 m2 = Some d.
Proof.
  unfold hash_signaling_transcript, canonical_error. fold (transcript_preimage o1 a1).
  fold (transcript_preimage o2 a2). intros H1 H2. split_match_in H1. split_match_in H2.
  injection H1 as ->. injection H2 as ->. unfold max_canonical_signing_bytes in *.
  destruct (decide (transcript_preimage o1 a1 = transcript_preimage o2 a2)) as [E' | Hne].
  - left. apply transcript_preimage_inj in E'; [done | lia | lia].
  - right. by exists (transcript_preimage o1 a1), (transcript_preimage o2 a2).
Qed.

(** ** UTF-8 *)

(** The Unicode scalar values and their encoding form. *)
Definition is_scalar (c : Z) : Prop := 0 <= c < 0xd800 \/ 0xe000 <= c <= 0x10ffff.

Definition utf8_encode (c : Z) : list Z :=
  if c <? 0x80 then [c]
  else if c <? 0x800 then [0xc0 + c / 64; 0x80 + c mod 64]
  else if c <? 0x10000 then [0xe0 + c / 64 / 64; 0x80 + (c / 64) mod 64; 0x80 + c mod 64]
  else [0xf0 + c / 64 / 64 / 64; 0x80 + (c / 64 / 64) mod 64; 0x80 + (c / 64) mod 64;
        0x80 + c mod 64].

(** Splits off the low six bits of a term. *)
Ltac sextet c :=
  let H := fresh "D" in let B := fresh "B" in
  assert (H := Z.div_mod c 64 ltac:(lia)); assert (B := Z.mod_pos_bound c 64 ltac:(lia)).

(** The loop on each of the four lead-byte classes. *)
Definition is_continuation (b : Z) : bool := (0x80 <=? b) && (b <=? 0xbf).

Lemma utf8_loop_1 fuel a rest : a <= 0x7f -> utf8_loop (S fuel) (a :: rest) = utf8_loop fuel rest.
Proof. intros Ha. cbn. by rewrite (proj2 (Z.leb_le _ _) Ha). Qed.

Lemma utf8_loop_lead fuel a rest count lo hi :
  0x7f < a -> utf8_lead a = Some (count, lo, hi) ->
  utf8_loop (S fuel) (a :: rest) =
  negb (zlen (a :: rest) <=? count) && (lo <=? byte_at rest 0) && (byte_at rest 0 <=? hi)
  && forallb is_continuation (subspan 2 (count - 1) (a :: rest))
  && utf8_loop fuel (subspan_from (count + 1) (a :: rest)).
Proof.
  intros Ha Hl. cbn [utf8_loop]. rewrite (proj2 (Z.leb_gt _ _) Ha), Hl.
  change (byte_at (a :: rest) 1) with (byte_at rest 0).
  destruct (zlen (a :: rest) <=? count); [done |].
  replace (byte_at rest 0 <? lo) with (negb (lo <=? byte_at rest 0)) by lia.
  replace (hi <? byte_at rest 0) with (negb (byte_at rest 0 <=? hi)) by lia.
  destruct (lo <=? _), (_ <=? hi); try done. cbn [negb orb andb].
  by destruct (forallb _ _).
Qed.

Lemma utf8_loop_2 fuel a b rest :
  0xc2 <= a <= 0xdf ->
  utf8_loop (S fuel) (a :: b :: rest) = is_continuation b && utf8_loop fuel rest.
Proof.
  intros Ha. rewrite (utf8_loop_lead _ _ _ 1 0x80 0xbf); [| lia |].
  - rewrite !zlen_cons. assert (Hz := zlen_nonneg rest). rewrite (proj2 (Z.leb_gt _ 1)) by lia.
    change (byte_at (b :: rest) 0) with b. change (subspan 2 (1 - 1) _) with (@nil Z).
    change (subspan_from (1 + 1) _) with rest. cbn [negb andb forallb].
    by rewrite andb_true_r.
  - unfold utf8_lead. by rewrite (proj2 (andb_true_iff _ _)) by lia.
Qed.

Lemma utf8_loop_3 fuel a b c rest :
  0xe0 <= a <= 0xef ->
  utf8_loop (S fuel) (a :: b :: c :: rest) =
  ((if (a =? 0xe0) then 0xa0 else 0x80) <=? b) && (b <=? if (a =? 0xed) then 0x9f else 0xbf)
  && is_continuation c && utf8_loop fuel rest.
Proof.
  intros Ha. erewrite (utf8_loop_lead _ _ _ 2); [| lia |].
  - rewrite !zlen_cons. assert (Hz := zlen_nonneg rest). rewrite (proj2 (Z.leb_gt _ 2)) by lia.
    change (byte_at (b :: _) 0) with b. change (subspan 2 (2 - 1) _) with [c].
    change (subspan_from (2 + 1) _) with rest. cbn [negb andb forallb].
    by rewrite andb_true_r.
  - unfold utf8_lead. rewrite (proj2 (andb_false_iff (0xc2 <=? a) _)) by lia.
    by rewrite (proj2 (andb_true_iff (0xe0 <=? a) _)) by lia.
Qed.

Lemma utf8_loop_4 fuel a b c d rest :
  0xf0 <= a <= 0xf4 ->
  utf8_loop (S fuel) (a :: b :: c :: d :: rest) =
  ((if (a =? 0xf0) then 0x90 else 0x80) <=? b) && (b <=? if (a =? 0xf4) then 0x8f else 0xbf)
  && is_continuation c && is_continuation d && utf8_loop fuel rest.
Proof.
  intros Ha. erewrite (utf8_loop_lead _ _ _ 3); [| lia |].
  - rewrite !zlen_cons. assert (Hz := zlen_nonneg rest). rewrite (proj2 (Z.leb_gt _ 3)) by lia.
    change (byte_at (b :: _) 0) with b. change (subspan 2 (3 - 1) _) with [c; d].
    change (subspan_from (3 + 1) _) with rest. cbn [negb andb forallb].
    by rewrite andb_true_r, <- !andb_assoc.
  - unfold utf8_lead. rewrite (proj2 (andb_false_iff (0xc2 <=? a) _)) by lia.
    rewrite (proj2 (andb_false_iff (0xe0 <=? a) _)) by lia.
    by rewrite (proj2 (andb_true_iff (0xf0 <=? a) _)) by lia.
Qed.

Lemma utf8_loop_encode fuel c rest :
  is_scalar c -> utf8_loop (S fuel) (utf8_encode c ++ rest) = utf8_loop fuel rest.
Proof.
  intros Hc. unfold utf8_encode, is_scalar in *.
  sextet c. sextet (c / 64). sextet (c / 64 / 64).
  destruct (Z.ltb_spec c 0x80); [apply utf8_loop_1; lia |].
  destruct (Z.ltb_spec c 0x800).
  { cbn [app]. rewrite utf8_loop_2 by lia. unfold is_continuation.
    by rewrite (proj2 (andb_true_iff (0x80 <=? 0x80 + c mod 64) _)) by lia. }
  destruct (Z.ltb_spec c 0x10000); cbn [app].
  - rewrite utf8_loop_3 by lia. unfold is_continuation.
    replace (_ <=? 0x80 + (c / 64) mod 64) with true by (case_match; lia).
    replace (0x80 + (c / 64) mod 64 <=? _) with true by (case_match; lia).
    cbn [andb]. by rewrite (proj2 (andb_true_iff (0x80 <=? 0x80 + c mod 64) _)) by lia.
  - rewrite utf8_loop_4 by lia. unfold is_continuation.
    replace (_ <=? 0x80 + (c / 64 / 64) mod 64) with true by (case_match; lia).
    replace (0x80 + (c / 64 / 64) mod 64 <=? _) with true by (case_match; lia).
    cbn [andb]. rewrite (proj2 (andb_true_iff (0x80 <=? 0x80 + (c / 64) mod 64) _)) by lia.
    by rewrite (proj2 (andb_true_iff (0x80 <=? 0x80 + c mod 64) _)) by lia.
Qed.

Lemma utf8_short fuel a rest count lo hi :
  0x7f < a -> utf8_lead a = Some (count, lo, hi) -> zlen (a :: rest) <= count ->
  utf8_loop (S fuel) (a :: rest) = false.
Proof. intros Ha Hl Hz. erewrite utf8_loop_lead by done. by rewrite (proj2 (Z.leb_le _ _) Hz). Qed.

Lemma sextet_join q r : 0 <= r < 64 -> (q * 64 + r) / 64 = q /\ (q * 64 + r) mod 64 = r.
Proof.
  intros Hr. rewrite Z.add_comm, Z.div_add, Z_mod_plus_full, Z.div_small, Z.mod_small by lia. lia.
Qed.

Lemma utf8_loop_inv fuel a rest :
  bytes_ok (a :: rest) -> utf8_loop (S fuel) (a :: rest) = true ->
  exists c tail, is_scalar c /\ a :: rest = utf8_encode c ++ tail /\ utf8_loop fuel tail = true.
Proof.
  intros [Ha _]%bytes_ok_cons H. unfold is_byte in Ha. unfold is_scalar.
  destruct (Z.leb_spec a 0x7f) as [H7 | H7].
  { rewrite utf8_loop_1 in H by done. exists a, rest. split_and!; [lia | | done].
    unfold utf8_encode. by rewrite (proj2 (Z.ltb_lt _ _)) by lia. }
  destruct (utf8_lead a) as [[[count lo] hi] |] eqn:Hl.
  2: { cbn [utf8_loop] in H. rewrite (proj2 (Z.leb_gt _ _) H7), Hl in H. done. }
  destruct (Z.leb_spec (zlen (a :: rest)) count) as [Hs | Hs].
  { erewrite utf8_short in H by done. done. }
  assert (Hcase : (0xc2 <= a <= 0xdf /\ count = 1) \/ (0xe0 <= a <= 0xef /\ count = 2)
                  \/ (0xf0 <= a <= 0xf4 /\ count = 3)).
  { unfold utf8_lead in Hl. repeat case_match; simplify_eq; lia. }
  clear Hl. rewrite !zlen_cons in Hs. unfold is_continuation in *.
  destruct Hcase as [[Hr ->] | [[Hr ->] | [Hr ->]]].
  - destruct rest as [| b rest]; [rewrite zlen_nil in Hs; lia |].
    rewrite utf8_loop_2 in H by lia. unfold is_continuation in H.
    apply andb_true_iff in H as [Hb H]. exists ((a - 0xc0) * 64 + (b - 0x80)), rest.
    destruct (sextet_join (a - 0xc0) (b - 0x80) ltac:(lia)) as [E1 E2].
    split_and!; [lia | | done]. unfold utf8_encode. rewrite E1, E2.
    repeat case_match; try lia. cbn. repeat f_equal; lia.
  - destruct rest as [| b [| c rest]]; rewrite ?zlen_cons, ?zlen_nil in Hs; try lia.
    rewrite utf8_loop_3 in H by lia. unfold is_continuation in H.
    apply andb_true_iff in H as [[[Hlo Hhi]%andb_true_iff Hc]%andb_true_iff H].
    assert (Hb : 0x80 <= b <= 0xbf /\ (a = 0xe0 -> 0xa0 <= b) /\ (a = 0xed -> b <= 0x9f))
      by (repeat case_match; lia).
    destruct (sextet_join (a - 0xe0) (b - 0x80) ltac:(lia)) as [E1 E2].
    destruct (sextet_join ((a - 0xe0) * 64 + (b - 0x80)) (c - 0x80) ltac:(lia)) as [E3 E4].
    exists (((a - 0xe0) * 64 + (b - 0x80)) * 64 + (c - 0x80)), rest.
    clear Hlo Hhi. split_and!; [lia | | done]. unfold utf8_encode. rewrite E3, E4, E1, E2.
    repeat case_match; try lia. cbn. repeat f_equal; lia.
  - destruct rest as [| b [| c [| d rest]]]; rewrite ?zlen_cons, ?zlen_nil in Hs; try lia.
    rewrite utf8_loop_4 in H by lia. unfold is_continuation in H.
    apply andb_true_iff in H as [[[[Hlo Hhi]%andb_true_iff Hc]%andb_true_iff Hd]%andb_true_iff H].
    assert (Hb : 0x80 <= b <= 0xbf /\ (a = 0xf0 -> 0x90 <= b) /\ (a = 0xf4 -> b <= 0x8f))
      by (repeat case_match; lia).
    destruct (sextet_join (a - 0xf0) (b - 0x80) ltac:(lia)) as [E1 E2].
    destruct (sextet_join ((a - 0xf0) * 64 + (b - 0x80)) (c - 0x80) ltac:(lia)) as [E3 E4].
    destruct (sextet_join (((a - 0xf0) * 64 + (b - 0x80)) * 64 + (c - 0x80)) (d - 0x80) ltac:(lia))
      as [E5 E6].
    exists ((((a - 0xf0) * 64 + (b - 0x80)) * 64 + (c - 0x80)) * 64 + (d - 0x80)), rest.
    clear Hlo Hhi. split_and!; [lia | | done]. unfold utf8_encode.
    rewrite E5, E6, E3, E4, E1, E2.
    repeat case_match; try lia. cbn. repeat f_equal; lia.
Qed.

Lemma utf8_encode_pos c : (1 <= length (utf8_encode c))%nat.
Proof. unfold utf8_encode. repeat case_match; cbn; lia. Qed.

Lemma utf8_loop_exact fuel value :
  bytes_ok value -> (length value <= fuel)%nat ->
  utf8_loop fuel value = true <->
  exists cs, Forall is_scalar cs /\ value = concat (map utf8_encode cs).
Proof.
  revert value. induction fuel as [| fuel IH]; intros value Hok Hfuel.
  { destruct value; [| cbn in Hfuel; lia]. split; [intros _; by exists [] | done]. }
  split.
  - intros H. destruct value as [| a rest]; [by exists [] |].
    destruct (utf8_loop_inv _ _ _ Hok H) as (c & tail & Hc & Heq & Ht). rewrite Heq in Hok, Hfuel |- *.
    apply bytes_ok_app in Hok as [_ Hok]. rewrite length_app in Hfuel.
    assert (Hp := utf8_encode_pos c).
    apply IH in Ht as (cs & Hcs & ->); [| done | lia].
    exists (c :: cs). split; [by constructor | done].
  - intros (cs & Hcs & ->). destruct Hcs as [| c cs Hc Hcs]; [done |]. cbn [map concat] in *.
    rewrite utf8_loop_encode by done. apply bytes_ok_app in Hok as [_ Hok].
    rewrite length_app in Hfuel. assert (Hp := utf8_encode_pos c).
    apply IH; [done | lia | by exists cs].
Qed.

(** The UTF-8 check of signed text fields is exact: it accepts a byte string
    if and only if it is the UTF-8 encoding of a non-empty sequence of Unicode
    scalar values. Overlong forms, surrogates, values above U+10FFFF and
    truncated sequences are rejected. *)
Theorem is_nonempty_utf8_exact value :
  bytes_ok value ->
  is_nonempty_utf8 value = true <->
  exists cs, cs <> [] /\ Forall is_scalar cs /\ value = concat (map utf8_encode cs).
Proof.
  intros Hok. unfold is_nonempty_utf8. destruct value as [| a rest].
  - split; [done |]. intros ([| c cs] & Hne & _ & Heq); [done |]. cbn in Heq.
    assert (Hp := utf8_encode_pos c). destruct (utf8_encode c); [cbn in Hp; lia | done].
  - rewrite utf8_loop_exact by done. split.
    + intros (cs & Hcs & Heq). exists cs. split_and!; [by intros -> | done | done].
    + intros (cs & _ & Hcs & Heq). by exists cs.
Qed.

Lemma is_nonempty_utf8_exact_witness :
  is_nonempty_utf8 [0xe2; 0x82; 0xac; 0x41; 0xf0; 0x9f; 0x98; 0x80] = true.
Proof.
  apply is_nonempty_utf8_exact; [concrete |]. exists [0x20ac; 0x41; 0x1f600].
  split_and!; [discriminate | | vm_compute; reflexivity].
  repeat (constructor; [unfold is_scalar; lia |]). constructor.
Defined.

(** ** Scope lists *)

Definition printable (b : Z) : bool := (0x20 <=? b) && (b <=? 0x7e).

Definition scope_ok (s : list Z) : Prop := 1 <= zlen s <= 256 /\ forallb printable s = true.

(** Strictly increasing, after [previous] unless that is empty. *)
Fixpoint sorted_from (previous : list Z) (scopes : list (list Z)) : Prop :=
  match scopes with
  | [] => True
  | s :: scopes => (previous = [] \/ lex_lt previous s = true) /\ sorted_from s scopes
  end.

Definition scope_image (s : list Z) : list Z := canonical_uint16 (zlen s) ++ s.
Definition scope_list_image (scopes : list (list Z)) : list Z :=
  canonical_uint16 (zlen scopes) ++ concat (map scope_image scopes).

Lemma read_uint16_at pre hi lo rest :
  is_byte hi -> is_byte lo ->
  read_uint16 (pre ++ hi :: lo :: rest) (zlen pre) = hi * 256 + lo.
Proof.
  unfold is_byte. intros Hh Hl. unfold read_uint16. rewrite byte_at_app_zlen.
  rewrite byte_at_app by lia. change (byte_at (hi :: _) 0) with hi. change (byte_at (hi :: _) 1) with lo.
  rewrite Z.lor_comm, lor_shiftl_add by lia. unfold u16. rewrite Z.mod_small; lia.
Qed.

Lemma read_uint16_0 hi lo rest :
  is_byte hi -> is_byte lo -> read_uint16 (hi :: lo :: rest) 0 = hi * 256 + lo.
Proof. apply (read_uint16_at []). Qed.

Lemma canonical_uint16_join hi lo :
  is_byte hi -> is_byte lo -> canonical_uint16 (hi * 256 + lo) = [hi; lo].
Proof.
  unfold is_byte. intros Hh Hl. unfold canonical_uint16, append_uint16.
  destruct (be16_split (hi * 256 + lo) ltac:(lia)) as (-> & -> & _). cbn [app].
  rewrite Z.add_comm, Z.div_add, Z_mod_plus_full, Z.div_small, Z.mod_small by lia. done.
Qed.

Lemma canonical_uint16_split n :
  0 <= n < 65536 -> exists hi lo, is_byte hi /\ is_byte lo /\ n = hi * 256 + lo /\ canonical_uint16 n = [hi; lo].
Proof.
  intros Hn. exists (n / 256), (n mod 256).
  assert (Hd := Z.div_mod n 256 ltac:(lia)). assert (Hm := Z.mod_pos_bound n 256 ltac:(lia)).
  assert (Hb1 : is_byte (n / 256)) by (unfold is_byte; split; [apply Z.div_pos | apply Z.div_lt_upper_bound]; lia).
  split_and!; try done; [lia |].
  rewrite <- (canonical_uint16_join (n / 256) (n mod 256)) by done. f_equal. lia.
Qed.

Lemma scope_loop_image turns pre previous scopes :
  length scopes = turns -> Forall scope_ok scopes -> sorted_from previous scopes ->
  scope_loop turns (pre ++ concat (map scope_image scopes)) (zlen pre) previous = true.
Proof.
  revert pre previous turns. induction scopes as [| s scopes IH]; intros pre previous turns <- Hok Hsort.
  { cbn. rewrite app_nil_r. lia. }
  apply Forall_cons in Hok as [[Hl Hp] Hok]. destruct Hsort as [Hlt Hsort].
  cbn [length scope_loop map concat].
  destruct (canonical_uint16_split (zlen s) ltac:(lia)) as (hi & lo & Hhi & Hlo & Hn & E).
  change (scope_image s) with (canonical_uint16 (zlen s) ++ s). rewrite E. cbn [app].
  rewrite read_uint16_at, <- Hn by done. autorewrite with wire.
  set (tail := concat (map scope_image scopes)) in *. assert (Hz := zlen_nonneg tail).
  assert (Hz0 := zlen_nonneg pre).
  rewrite (proj2 (orb_false_iff _ _)) by lia. rewrite (proj2 (orb_false_iff _ _)) by lia.
  assert (Hsub : subspan (zlen pre + 2) (zlen s) (pre ++ hi :: lo :: s ++ tail) = s).
  { rewrite (cons_middle hi pre), (app_assoc pre), (cons_middle lo), app_assoc.
    apply subspan_skip; [autorewrite with wire; lia | done]. }
  rewrite Hsub. fold printable. rewrite Hp. cbn [negb].
  rewrite (proj2 (andb_false_iff _ _)).
  2: { destruct Hlt as [-> | ->]; [by left | by right]. }
  replace (pre ++ hi :: lo :: s ++ tail) with ((pre ++ [hi; lo] ++ s) ++ tail) by (by rewrite <- !app_assoc).
  replace (zlen pre + 2 + zlen s) with (zlen (pre ++ [hi; lo] ++ s)) by (autorewrite with wire; lia).
  by apply IH.
Qed.

Lemma scope_loop_sound turns pre rest previous :
  bytes_ok rest -> scope_loop turns (pre ++ rest) (zlen pre) previous = true ->
  exists scopes, length scopes = turns /\ Forall scope_ok scopes /\ sorted_from previous scopes /\
    rest = concat (map scope_image scopes).
Proof.
  revert pre rest previous. induction turns as [| turns IH]; intros pre rest previous Hok H.
  { cbn in H. rewrite zlen_app in H. exists []. split_and!; try done.
    destruct rest; [done |]. rewrite zlen_cons in H. assert (Hz := zlen_nonneg rest). lia. }
  cbn [scope_loop] in H. autorewrite with wire in H.
  destruct (_ || _) eqn:H2 in H; [done |].
  destruct rest as [| hi [| lo t]]; rewrite ?zlen_cons, ?zlen_nil in H2; try lia.
  apply bytes_ok_cons in Hok as [Hhi Hok]. apply bytes_ok_cons in Hok as [Hlo Hok].
  rewrite read_uint16_at in H by done. set (n := hi * 256 + lo) in *. rewrite !zlen_cons in H.
  destruct (_ || _ || _ || _) eqn:Hn in H; [done |].
  assert (Hnr : 1 <= n <= 256 /\ n <= zlen t) by (unfold n, is_byte in *; lia). clear Hn.
  rewrite (cons_middle hi pre), (app_assoc pre), (cons_middle lo), app_assoc in H.
  rewrite <- (take_drop (Z.to_nat n) t) in H.
  assert (Hlen : zlen (take (Z.to_nat n) t) = n) by (rewrite zlen_take; lia).
  set (s := take (Z.to_nat n) t) in *.
  rewrite (subspan_skip _ s) in H by (autorewrite with wire; lia).
  destruct (forallb _ s) eqn:Hp in H; [cbn [negb] in H | done].
  destruct (negb _ && negb _) eqn:Hlt in H; [done |].
  rewrite app_assoc in H. replace (zlen pre + 2 + n) with (zlen (((pre ++ [hi]) ++ [lo]) ++ s)) in H
    by (autorewrite with wire; lia).
  apply IH in H as (scopes & Hlens & Hoks & Hsort & Hrest); [| by apply bytes_ok_drop].
  exists (s :: scopes). split_and!; [cbn; lia | constructor; [by split; [lia |] | done] | |].
  - split; [| done]. apply andb_false_iff in Hlt as [Hlt | Hlt]; apply negb_false_iff in Hlt; [left | by right].
    destruct previous; [done |]. rewrite zlen_cons in Hlt. assert (Hz := zlen_nonneg previous). lia.
  - cbn [map concat]. unfold scope_image at 1. rewrite Hlen. unfold n.
    rewrite canonical_uint16_join by done. cbn [app]. rewrite <- Hrest. unfold s. by rewrite take_drop.
Qed.

(** The scope-list check of trust grants is exact: it accepts a byte string
    if and only if it is the counted, length-prefixed list of at most 256
    non-empty printable scopes of at most 256 bytes, in strictly increasing
    byte order; so each set of scopes has one signed representation. *)
Theorem is_canonical_scope_list_exact value :
  bytes_ok value ->
  is_canonical_scope_list value = true <->
  exists scopes, zlen scopes <= 256 /\ Forall scope_ok scopes /\ sorted_from [] scopes /\
    value = scope_list_image scopes.
Proof.
  intros Hok. unfold is_canonical_scope_list, scope_list_image. split.
  - destruct (Z.ltb_spec (zlen value) 2) as [| H2]; [done |].
    destruct value as [| hi [| lo rest]]; rewrite ?zlen_cons, ?zlen_nil in H2; try lia.
    apply bytes_ok_cons in Hok as [Hhi Hok]. apply bytes_ok_cons in Hok as [Hlo Hok].
    rewrite (read_uint16_0 hi lo rest) by done.
    destruct (Z.ltb_spec 256 (hi * 256 + lo)) as [| Hc]; [done |].
    intros (scopes & Hlen & Hoks & Hsort & Hrest)%(scope_loop_sound _ [hi; lo]); [| done].
    exists scopes. unfold is_byte in *.
    assert (Hz : zlen scopes = hi * 256 + lo) by (unfold zlen; rewrite Hlen; lia).
    split_and!; [lia | done | done |].
    rewrite Hz, canonical_uint16_join by done. cbn [app]. by rewrite <- Hrest.
  - intros (scopes & Hlen & Hoks & Hsort & ->). assert (Hz := zlen_nonneg scopes).
    destruct (canonical_uint16_split (zlen scopes) ltac:(lia)) as (hi & lo & Hhi & Hlo & Hn & E).
    rewrite E. cbn [app]. rewrite !zlen_cons.
    assert (Hz' := zlen_nonneg (concat (map scope_image scopes))).
    rewrite (proj2 (Z.ltb_ge _ 2)) by lia.  rewrite read_uint16_0 by done.
    rewrite (proj2 (Z.ltb_ge 256 _)), <- Hn by lia.
    apply (scope_loop_image _ [hi; lo]); [zlia | done | done].
Qed.

Lemma is_canonical_scope_list_exact_witness :
  is_canonical_scope_list [0; 2; 0; 1; 97; 0; 2; 97; 98] = true.
Proof.
  apply is_canonical_scope_list_exact; [concrete |]. exists [[97]; [97; 98]].
  split_and!; [concrete | concrete | | vm_compute; reflexivity].
  split; [by left |]. split; [by right | done].
Defined.

Lemma transcript_binding_witness :
  let o := bytes_of_string "HYSG" ++ [1; 15] ++ bytes_of_string "heyaki.offer.v1" ++ [0; 0] in
  let a := bytes_of_string "HYSG" ++ [1; 16] ++ bytes_of_string "heyaki.answer.v1" ++ [0; 0] in
  (o = o /\ a = a) \/
  exists m1 m2, m1 <> m2 /\ @crypto_hash_sha256 toy_sodium m1 = Some (toy_digest (transcript_preimage o a))
    /\ @crypto_hash_sha256 toy_sodium m2 = Some (toy_digest (transcript_preimage o a)).
Proof.
  intros o a. apply (@transcript_binding toy_sodium o a o a); vm_compute; reflexivity.
Defined.
