(* ===== verification/TrustGrant.v ===== *)
(** * Trust grants

    [include/heyaki/trust_grant.hpp] and [src/core/trust_grant.cpp]: the signed,
    directional credential a device issues to a peer it has paired with, its
    scope language, its wire codec and the adjudication of requested scopes.
    Strings are lists of unsigned bytes; [std::string] compares them with
    [memcmp], which is [lex_lt]. *)

From Stdlib Require Import ZArith Lia ZifyBool String.
From stdpp Require Import base tactics option list numbers strings sorting.
From S2P Require Import Prelude Errors Varint ProtoCodec FieldCodec Identity Signing Security.
#[local] Open Scope Z_scope.

Module TrustGrant.
Import Identity Signing Security ProtoCodec.

Definition max_trust_scopes : Z := 256.
Definition max_trust_scope_bytes : Z := 256.
Definition max_trust_grant_wire_bytes : Z := 8 * 1024.
Definition max_pairing_nonce_bytes : Z := 32.

Definition trust_grant_error (code : ErrorCode) (detail : string) : Error :=
  make_error code "trust_grant" detail.

Record SignedTrustGrant : Type := mkGrant {
  grant_id : list Z;
  issuer : list Z;
  subject : list Z;
  granted_scopes : list (list Z);
  password_generation : Z;
  issued_unix_milliseconds : Z;
  expires_unix_milliseconds : option Z;
  nonce : list Z;
  signature : list Z;
}.

Definition is_printable_ascii_scope_byte (value : Z) : bool := (0x21 <=? value) && (value <=? 0x7e).

(** [(size >> 8) & 0xFF] and [size & 0xFF]. *)
Definition push_size16 (output : list Z) (size : Z) : list Z :=
  output ++ [Z.land (Z.shiftr size 8) 0xff] ++ [Z.land size 0xff].

Definition canonical_scope_list (scopes : list (list Z)) : list Z :=
  foldl (fun output scope => push_size16 output (zlen scope) ++ scope)
    (push_size16 [] (zlen scopes)) scopes.

Definition trust_grant_fields (grant : SignedTrustGrant) : list CanonicalField :=
  [mkCanonicalField 1 (canonical_bytes (grant_id grant));
   mkCanonicalField 2 (canonical_bytes (issuer grant));
   mkCanonicalField 3 (canonical_bytes (subject grant));
   mkCanonicalField 4 (canonical_scope_list (granted_scopes grant));
   mkCanonicalField 5 (canonical_uint64 (password_generation grant));
   mkCanonicalField 6 (canonical_uint64 (issued_unix_milliseconds grant))]
  ++ match expires_unix_milliseconds grant with
     | Some expires => [mkCanonicalField 7 (canonical_uint64 expires)]
     | None => []
     end
  ++ [mkCanonicalField 8 (nonce grant)].

Definition is_valid_trust_scope (scope : list Z) : bool :=
  if (zlen scope =? 0) || (max_trust_scope_bytes <? zlen scope) then false
  else forallb is_printable_ascii_scope_byte scope.

(** [a <= b] for [std::string]; [std::sort] orders by it. *)
Definition scope_le (a b : list Z) : Prop := lex_lt b a = false.

#[export] Instance scope_le_dec : RelDecision scope_le.
Proof. intros a b. unfold scope_le. apply _. Defined.

(** [scopes.erase(std::unique(begin, end), end)]. *)
Fixpoint unique_adjacent (l : list (list Z)) : list (list Z) :=
  match l with
  | a :: l' =>
      match l' with
      | b :: _ => if bytes_eqb a b then unique_adjacent l' else a :: unique_adjacent l'
      | [] => [a]
      end
  | [] => []
  end.

Definition normalize_trust_scopes (scopes : list (list Z)) : Result (list (list Z)) :=
  fail_if max_trust_scopes <? zlen scopes
    with trust_grant_error ErrorCode.protocol "scope_count_limit";
  fail_if negb (forallb is_valid_trust_scope scopes)
    with trust_grant_error ErrorCode.protocol "scope_syntax_invalid";
  success (unique_adjacent (merge_sort scope_le scopes)).

(** The literal [":*"]. *)
Definition wildcard : list Z := bytes_of_string ":*".

Definition trust_scope_covers (granted requested : list Z) : bool :=
  if bytes_eqb granted requested then true else
  if (zlen wildcard <? zlen granted)
     && bytes_eqb (subspan_from (zlen granted - zlen wildcard) granted) wildcard
  then
    let prefix := subspan 0 (zlen granted - zlen wildcard) granted in
    (zlen prefix + 1 <? zlen requested)
    && bytes_eqb (subspan 0 (zlen prefix) requested) prefix
    && (byte_at requested (zlen prefix) =? 58)
  else false.

Definition intersect_trust_scopes (requested granted : list (list Z)) : list (list Z) :=
  filter (fun scope => existsb (fun grant_scope => trust_scope_covers grant_scope scope) granted = true)
    requested.

(** [std::is_sorted] and [std::adjacent_find]. *)
Fixpoint is_sorted (l : list (list Z)) : bool :=
  match l with
  | a :: l' => match l' with b :: _ => negb (lex_lt b a) && is_sorted l' | [] => true end
  | [] => true
  end.

Fixpoint has_adjacent_equal (l : list (list Z)) : bool :=
  match l with
  | a :: l' => match l' with b :: _ => bytes_eqb a b || has_adjacent_equal l' | [] => false end
  | [] => false
  end.

Definition validate_signed_trust_grant (grant : SignedTrustGrant) : Result unit :=
  fail_if all_zero (grant_id grant) || all_zero (issuer grant) || all_zero (subject grant)
          || bytes_eqb (issuer grant) (subject grant)
    with trust_grant_error ErrorCode.protocol "grant_binding_invalid";
  fail_if (password_generation grant =? 0) || (issued_unix_milliseconds grant =? 0)
    with trust_grant_error ErrorCode.protocol "grant_generation_invalid";
  fail_if all_zero (nonce grant)
    with trust_grant_error ErrorCode.protocol "grant_nonce_invalid";
  fail_if (zlen (granted_scopes grant) =? 0) || (max_trust_scopes <? zlen (granted_scopes grant))
    with trust_grant_error ErrorCode.protocol "grant_scope_count_invalid";
  fail_if negb (forallb is_valid_trust_scope (granted_scopes grant))
    with trust_grant_error ErrorCode.protocol "scope_syntax_invalid";
  fail_if negb (is_sorted (granted_scopes grant)) || has_adjacent_equal (granted_scopes grant)
    with trust_grant_error ErrorCode.protocol "scope_list_not_canonical";
  fail_if match expires_unix_milliseconds grant with
          | Some expires => expires <=? issued_unix_milliseconds grant
          | None => false
          end
    with trust_grant_error ErrorCode.protocol "grant_expiry_invalid";
  success tt.

Definition canonical_signed_trust_grant (grant : SignedTrustGrant) : Result (list Z) :=
  let? _ := validate_signed_trust_grant grant in
  canonicalize_for_signature SigningDomain.trust_grant (trust_grant_fields grant).

Definition with_signature (grant : SignedTrustGrant) (s : list Z) : SignedTrustGrant :=
  mkGrant (grant_id grant) (issuer grant) (subject grant) (granted_scopes grant)
    (password_generation grant) (issued_unix_milliseconds grant)
    (expires_unix_milliseconds grant) (nonce grant) s.

Section crypto.
Context `{Sodium}.

Definition sign_signed_trust_grant (grant : SignedTrustGrant) (issuer_identity : IdentityKeyPair)
    : Result SignedTrustGrant :=
  fail_if negb (bytes_eqb (device_id_ issuer_identity) (issuer grant))
    with trust_grant_error ErrorCode.identity "signer_identity_mismatch";
  let? canonical := canonical_signed_trust_grant grant in
  let? s := sign_identity_message issuer_identity canonical in
  success (with_signature grant s).

Definition verify_signed_trust_grant (grant : SignedTrustGrant) (issuer_public_key : list Z)
    (now_unix_milliseconds : Z) : Result unit :=
  let? _ := validate_signed_trust_grant grant in
  let? _ := match expires_unix_milliseconds grant with
            | Some expires => validate_signed_expiry expires now_unix_milliseconds
            | None => success tt
            end in
  let? canonical := canonical_signed_trust_grant grant in
  match verify_identity_signature issuer_public_key canonical (signature grant) with
  | failure _ => failure (trust_grant_error ErrorCode.authentication "signature_invalid")
  | success _ =>
      match derive_device_id issuer_public_key with
      | success derived =>
          if negb (bytes_eqb derived (issuer grant))
          then failure (trust_grant_error ErrorCode.authentication "issuer_identity_mismatch")
          else success tt
      | failure _ => failure (trust_grant_error ErrorCode.authentication "issuer_identity_mismatch")
      end
  end.

End crypto.

Definition encode_signed_trust_grant (grant : SignedTrustGrant) : Result (list Z) :=
  let? _ := validate_signed_trust_grant grant in
  let output := append_bytes [] 1 (grant_id grant) in
  let output := append_bytes output 2 (issuer grant) in
  let output := append_bytes output 3 (subject grant) in
  let output := foldl (fun output scope => append_text output 4 scope) output (granted_scopes grant) in
  let output := append_uint output 5 (password_generation grant) in
  let output := append_uint output 6 (issued_unix_milliseconds grant) in
  let output := match expires_unix_milliseconds grant with
                | Some expires => append_uint output 7 expires
                | None => output
                end in
  let output := append_bytes output 8 (nonce grant) in
  let output := append_bytes output 9 (signature grant) in
  fail_if max_trust_grant_wire_bytes <? zlen output
    with trust_grant_error ErrorCode.resource_exhausted "object_too_large";
  success output.

(** The optionals the parser collects. *)
Record GrantFields : Type := mkGrantFields {
  p_grant_id : option (list Z);
  p_issuer : option (list Z);
  p_subject : option (list Z);
  p_scopes : option (list (list Z));
  p_generation : option Z;
  p_issued : option Z;
  p_expires : option Z;
  p_nonce : option (list Z);
  p_signature : option (list Z);
}.

Definition no_grant_fields : GrantFields := mkGrantFields None None None None None None None None None.

Definition seen {A} (o : option A) : bool := match o with Some _ => true | None => false end.

(** A field that must be bytes of an exact size and appear once. *)
Definition once_bytes (old : option (list Z)) (field : ProtoField) (size : Z)
    (conflict invalid : string) : Result (list Z) :=
  fail_if negb (wire_type field =? 2) || seen old
    with trust_grant_error ErrorCode.protocol conflict;
  copy_exact (field_bytes field) size invalid "proto".

(** A field that must be an integer and appear once. *)
Definition once_uint (old : option Z) (field : ProtoField) (conflict : string) : Result Z :=
  fail_if negb (wire_type field =? 0) || seen old
    with trust_grant_error ErrorCode.protocol conflict;
  success (integer field).

(** The [switch] of [parse_signed_trust_grant]. *)
Definition grant_step (p : GrantFields) (field : ProtoField) : Result GrantFields :=
  let '(mkGrantFields i1 i2 i3 i4 i5 i6 i7 i8 i9) := p in
  let n := number field in
  if n =? 1 then
    let? v := once_bytes i1 field 16 "grant_id_field_conflict" "grant_id_field_invalid" in
    success (mkGrantFields (Some v) i2 i3 i4 i5 i6 i7 i8 i9)
  else if n =? 2 then
    let? v := once_bytes i2 field 32 "issuer_field_conflict" "issuer_field_invalid" in
    success (mkGrantFields i1 (Some v) i3 i4 i5 i6 i7 i8 i9)
  else if n =? 3 then
    let? v := once_bytes i3 field 32 "subject_field_conflict" "subject_field_invalid" in
    success (mkGrantFields i1 i2 (Some v) i4 i5 i6 i7 i8 i9)
  else if n =? 4 then
    fail_if negb (wire_type field =? 2)
      with trust_grant_error ErrorCode.protocol "scope_field_invalid";
    fail_if negb (is_valid_trust_scope (field_bytes field))
      with trust_grant_error ErrorCode.protocol "scope_syntax_invalid";
    let scopes := match i4 with Some scopes => scopes | None => [] end in
    fail_if max_trust_scopes <=? zlen scopes
      with trust_grant_error ErrorCode.protocol "scope_count_limit";
    success (mkGrantFields i1 i2 i3 (Some (scopes ++ [field_bytes field])) i5 i6 i7 i8 i9)
  else if n =? 5 then
    let? v := once_uint i5 field "generation_field_conflict" in
    success (mkGrantFields i1 i2 i3 i4 (Some v) i6 i7 i8 i9)
  else if n =? 6 then
    let? v := once_uint i6 field "issued_field_conflict" in
    success (mkGrantFields i1 i2 i3 i4 i5 (Some v) i7 i8 i9)
  else if n =? 7 then
    let? v := once_uint i7 field "expiry_field_conflict" in
    success (mkGrantFields i1 i2 i3 i4 i5 i6 (Some v) i8 i9)
  else if n =? 8 then
    let? v := once_bytes i8 field 32 "nonce_field_conflict" "nonce_field_invalid" in
    success (mkGrantFields i1 i2 i3 i4 i5 i6 i7 (Some v) i9)
  else if n =? 9 then
    let? v := once_bytes i9 field 64 "signature_field_conflict" "signature_field_invalid" in
    success (mkGrantFields i1 i2 i3 i4 i5 i6 i7 i8 (Some v))
  else failure (trust_grant_error ErrorCode.protocol "field_unknown").

Definition parse_signed_trust_grant (payload : list Z) : Result SignedTrustGrant :=
  fail_if max_trust_grant_wire_bytes <? zlen payload
    with trust_grant_error ErrorCode.resource_exhausted "object_too_large";
  let? p := parse_proto grant_step payload "proto" no_grant_fields in
  match p with
  | mkGrantFields (Some grant_id) (Some issuer) (Some subject) (Some (scope :: scopes))
      (Some generation) (Some issued) expires (Some nonce) (Some signature) =>
      let grant := mkGrant grant_id issuer subject (scope :: scopes) generation issued expires
                     nonce signature in
      let? _ := validate_signed_trust_grant grant in
      success grant
  | _ => failure (trust_grant_error ErrorCode.protocol "field_missing")
  end.

Record TrustAdjudication : Type := mkTrustAdjudication {
  authorized : bool;
  allowed_scopes : list (list Z);
}.

Definition adjudicate_trust_scopes (requested_scopes grant_scopes : list (list Z))
    (local_policy_scopes : option (list (list Z))) : TrustAdjudication :=
  let allowed := intersect_trust_scopes requested_scopes grant_scopes in
  let allowed := match local_policy_scopes with
                 | Some policy => intersect_trust_scopes allowed policy
                 | None => allowed
                 end in
  mkTrustAdjudication (negb (zlen allowed =? 0)) allowed.

End TrustGrant.

Import Identity Signing Security ProtoCodec TrustGrant.

(** ** The scope language *)

(** [granted] is [requested] itself, or ends in [":*"] and [requested] continues
    its non-empty prefix with [":"] and something. *)
Definition scope_covered (granted requested : list Z) : Prop :=
  requested = granted \/
  exists prefix rest, prefix <> [] /\ rest <> [] /\
    granted = prefix ++ [58; 42] /\ requested = prefix ++ [58] ++ rest.

Lemma trust_scope_covers_exact granted requested :
  trust_scope_covers granted requested = true <-> scope_covered granted requested.
Proof.
  unfold trust_scope_covers, scope_covered. change wildcard with [58; 42]. change (zlen [58; 42]) with 2.
  destruct (bytes_eqb granted requested) eqn:Heq.
  { apply bytes_eqb_eq in Heq as ->. tauto. }
  assert (Hne : requested <> granted) by (intros ->; by rewrite bytes_eqb_refl in Heq).
  split.
  - destruct (_ && _) eqn:Hw; [| done]. apply andb_true_iff in Hw as [Hl Hw].
    apply bytes_eqb_eq in Hw. intros [[Hz Hp]%andb_true_iff Hc]%andb_true_iff.
    apply bytes_eqb_eq in Hp. right. set (p := subspan 0 (zlen granted - 2) granted) in *.
    assert (Hg : granted = p ++ [58; 42]).
    { rewrite <- Hw. unfold p, subspan, subspan_from. by rewrite drop_0, take_drop. }
    assert (Hpl : zlen p = zlen granted - 2) by (apply zlen_subspan; lia).
    assert (Hr : requested = p ++ drop (length p) requested).
    { rewrite <- Hp at 1. unfold subspan. rewrite drop_0. unfold zlen. by rewrite Nat2Z.id, take_drop. }
    set (q := drop (length p) requested) in *. rewrite Hr in Hz, Hc. rewrite zlen_app in Hz.
    rewrite byte_at_app_zlen in Hc. destruct q as [| c rest]; [rewrite zlen_nil in Hz; lia |].
    change (byte_at (c :: rest) 0) with c in Hc. exists p, rest. rewrite zlen_cons in Hz.
    split_and!; [| | done | cbn; rewrite Hr; repeat f_equal; lia].
    + intros E. rewrite E, zlen_nil in Hpl. lia.
    + intros E. rewrite E, zlen_nil in Hz. lia.
  - intros [? | (p & t & Hp & Ht & -> & ->)]; [done |].
    assert (Hpl : 0 < zlen p) by (destruct p; [done | rewrite zlen_cons; assert (H := zlen_nonneg p); lia]).
    assert (Htl : 0 < zlen t) by (destruct t; [done | rewrite zlen_cons; assert (H := zlen_nonneg t); lia]).
    rewrite zlen_app. change (zlen [58; 42]) with 2. replace (zlen p + 2 - 2) with (zlen p) by lia.
    rewrite (proj2 (Z.ltb_lt 2 _)) by lia. unfold subspan_from. rewrite drop_zlen_app, bytes_eqb_refl.
    cbn [andb]. rewrite !subspan_app, bytes_eqb_refl, byte_at_app_zlen. autorewrite with wire.
    rewrite (proj2 (Z.ltb_lt _ _)) by lia. done.
Qed.

Lemma elem_of_intersect s requested granted :
  s ∈ intersect_trust_scopes requested granted <->
  s ∈ requested /\ exists g, g ∈ granted /\ scope_covered g s.
Proof.
  unfold intersect_trust_scopes. rewrite list_elem_of_filter, existsb_exists.
  setoid_rewrite trust_scope_covers_exact. setoid_rewrite <- list_elem_of_In. tauto.
Qed.

Lemma elem_of_adjudicated requested grants policy s :
  s ∈ allowed_scopes (adjudicate_trust_scopes requested grants policy) <->
  s ∈ requested /\ (exists g, g ∈ grants /\ scope_covered g s) /\
  (forall p, policy = Some p -> exists g, g ∈ p /\ scope_covered g s).
Proof.
  unfold adjudicate_trust_scopes. cbn [allowed_scopes].
  destruct policy as [p |]; rewrite ?elem_of_intersect; naive_solver.
Qed.

Lemma adjudicated_sublist requested grants policy :
  sublist (allowed_scopes (adjudicate_trust_scopes requested grants policy)) requested.
Proof.
  unfold adjudicate_trust_scopes. cbn [allowed_scopes].
  destruct policy as [p |]; unfold intersect_trust_scopes; [etrans |]; apply sublist_filter.
Qed.

Lemma adjudicated_authorized requested grants policy :
  let a := adjudicate_trust_scopes requested grants policy in
  authorized a = true <-> exists s, s ∈ allowed_scopes a.
Proof.
  unfold adjudicate_trust_scopes. cbn [allowed_scopes authorized].
  set (l := match policy with Some _ => _ | None => _ end). clearbody l. destruct l as [| s l].
  - split; [done | by intros (s & ?%not_elem_of_nil)].
  - rewrite zlen_cons. assert (Hz := zlen_nonneg l). split; [| intros _; lia]. intros _. exists s. by left.
Qed.

(** Adjudication grants exactly the requested scopes that some granted scope
    covers and, when there is a local policy, some policy scope covers too; it
    keeps their order, never invents a scope, and authorizes only when one is
    left. *)
Theorem adjudicate_trust_scopes_exact requested grants policy :
  let a := adjudicate_trust_scopes requested grants policy in
  (forall s, s ∈ allowed_scopes a <->
     s ∈ requested /\ (exists g, g ∈ grants /\ scope_covered g s) /\
     (forall p, policy = Some p -> exists g, g ∈ p /\ scope_covered g s)) /\
  sublist (allowed_scopes a) requested /\
  (authorized a = true <-> exists s, s ∈ allowed_scopes a).
Proof.
  split_and!; [intros s; apply elem_of_adjudicated | apply adjudicated_sublist | apply adjudicated_authorized].
Qed.

(** ** Normalization *)

#[export] Instance scope_le_total : Total scope_le.
Proof.
  intros a b. unfold scope_le. destruct (lex_lt b a) eqn:E; [right | by left]. by apply lex_lt_asym.
Qed.

#[export] Instance scope_le_trans : Transitive scope_le.
Proof.
  intros a b c. unfold scope_le. intros H1 H2. destruct (lex_lt c a) eqn:E; [| done].
  destruct (lex_lt b c) eqn:E2.
  - by rewrite (lex_lt_trans b c a) in H1.
  - by rewrite (lex_lt_total b c E2 H2), E in H1.
Qed.

Lemma unique_adjacent_elem s l : s ∈ unique_adjacent l <-> s ∈ l.
Proof.
  induction l as [| a l IH]; [done |]. cbn [unique_adjacent]. destruct l as [| b l']; [done |].
  destruct (bytes_eqb a b) eqn:E; [apply bytes_eqb_eq in E; subst b |].
  - rewrite IH, !elem_of_cons. tauto.
  - rewrite !elem_of_cons, IH, !elem_of_cons. tauto.
Qed.

Lemma unique_adjacent_head a l : exists l', unique_adjacent (a :: l) = a :: l'.
Proof.
  revert a. induction l as [| b l IH]; intros a; cbn [unique_adjacent]; [by exists [] |].
  destruct (bytes_eqb a b) eqn:E; [| by eexists]. apply bytes_eqb_eq in E as ->. apply IH.
Qed.

Lemma unique_adjacent_sorted l :
  Sorted scope_le l -> sorted_from [] (unique_adjacent l).
Proof.
  induction l as [| a l IH]; intros Hs; [done |]. inversion Hs as [| ? ? Hs' Hhd]; subst.
  cbn [unique_adjacent]. destruct l as [| b l']; [by split; [left |] |].
  inversion Hhd as [| ? ? Hab]; subst. specialize (IH Hs').
  destruct (bytes_eqb a b) eqn:E; [done |].
  destruct (unique_adjacent_head b l') as [l'' Hl]. rewrite Hl in IH |- *.
  destruct IH as [_ IH]. split; [by left |]. split; [| done]. right.
  destruct (lex_lt a b) eqn:Elt; [done |]. unfold scope_le in Hab.
  rewrite (lex_lt_total a b Elt Hab), bytes_eqb_refl in E. done.
Qed.

Lemma unique_adjacent_length l : zlen (unique_adjacent l) <= zlen l.
Proof.
  induction l as [| a l IH]; [done |]. cbn [unique_adjacent]. destruct l as [| b l']; [done |].
  rewrite (zlen_cons a). case_match; rewrite ?zlen_cons in *; lia.
Qed.

(** Normalization: the scopes come back strictly sorted, valid, at most 256
    of them, and as the same set; it fails only on an invalid scope or on more
    than 256. *)
Lemma normalize_trust_scopes_spec scopes :
  match normalize_trust_scopes scopes with
  | success out =>
      sorted_from [] out /\ zlen out <= max_trust_scopes /\
      forallb is_valid_trust_scope out = true /\ forall s, s ∈ out <-> s ∈ scopes
  | failure _ =>
      max_trust_scopes < zlen scopes \/ exists s, s ∈ scopes /\ is_valid_trust_scope s = false
  end.
Proof.
  unfold normalize_trust_scopes. destruct (Z.ltb_spec max_trust_scopes (zlen scopes)); [by left |].
  destruct (forallb is_valid_trust_scope scopes) eqn:Hv; cbn [negb].
  - assert (Hel : forall s, s ∈ unique_adjacent (merge_sort scope_le scopes) <-> s ∈ scopes).
    { intros s. rewrite unique_adjacent_elem. by rewrite (merge_sort_Permutation scope_le scopes). }
    split_and!; [apply unique_adjacent_sorted, (Sorted_merge_sort _) | | | done].
    + assert (Hl := unique_adjacent_length (merge_sort scope_le scopes)).
      assert (Hp := Permutation_length (merge_sort_Permutation scope_le scopes)). zlia.
    + apply forallb_forall. intros s Hs%list_elem_of_In. rewrite Hel in Hs.
      rewrite forallb_forall in Hv. apply Hv. by apply list_elem_of_In.
  - right. by apply forallb_false.
Qed.

(** ** The wire codec *)

(** The types of the C++ members. *)
Definition grant_typed (g : SignedTrustGrant) : Prop :=
  (bytes_ok (grant_id g) /\ zlen (grant_id g) = 16) /\
  (bytes_ok (issuer g) /\ zlen (issuer g) = 32) /\
  (bytes_ok (subject g) /\ zlen (subject g) = 32) /\
  is_u64 (password_generation g) /\ is_u64 (issued_unix_milliseconds g) /\
  (forall e, expires_unix_milliseconds g = Some e -> is_u64 e) /\
  (bytes_ok (nonce g) /\ zlen (nonce g) = 32) /\
  (bytes_ok (signature g) /\ zlen (signature g) = 64).

Definition grant_proto_fields (g : SignedTrustGrant) : list ProtoField :=
  [bytes_field 1 (grant_id g); bytes_field 2 (issuer g); bytes_field 3 (subject g)]
  ++ map (bytes_field 4) (granted_scopes g)
  ++ [uint_field 5 (password_generation g); uint_field 6 (issued_unix_milliseconds g)]
  ++ match expires_unix_milliseconds g with Some e => [uint_field 7 e] | None => [] end
  ++ [bytes_field 8 (nonce g); bytes_field 9 (signature g)].

Lemma append_scopes output scopes :
  foldl (fun output scope => append_text output 4 scope) output scopes =
  output ++ encode_fields (map (bytes_field 4) scopes).
Proof.
  revert output. induction scopes as [| s scopes IH]; intros output; cbn [foldl map].
  { by rewrite app_nil_r. }
  rewrite IH. unfold append_text. rewrite append_bytes_field, <- app_assoc. done.
Qed.

(** The writes of the encoder, in order. *)
Lemma grant_writers g :
  let output := append_bytes (append_bytes (append_bytes [] 1 (grant_id g)) 2 (issuer g)) 3 (subject g) in
  let output := foldl (fun output scope => append_text output 4 scope) output (granted_scopes g) in
  let output := append_uint (append_uint output 5 (password_generation g)) 6 (issued_unix_milliseconds g) in
  let output := match expires_unix_milliseconds g with
                | Some expires => append_uint output 7 expires
                | None => output
                end in
  append_bytes (append_bytes output 8 (nonce g)) 9 (signature g) = encode_fields (grant_proto_fields g).
Proof.
  cbn zeta. rewrite append_scopes. unfold grant_proto_fields. rewrite !encode_fields_app.
  destruct (expires_unix_milliseconds g); rewrite ?append_bytes_field, ?append_uint_field;
    unfold encode_fields; cbn [map concat]; by rewrite ?app_nil_r, <- ?app_assoc.
Qed.

Lemma encode_grant_layout g b :
  encode_signed_trust_grant g = success b ->
  validate_signed_trust_grant g = success tt /\ b = encode_fields (grant_proto_fields g) /\
  zlen b <= max_trust_grant_wire_bytes.
Proof.
  unfold encode_signed_trust_grant. intros H. apply result_bind_success in H as ([] & Hv & H).
  rewrite grant_writers in H. destruct (max_trust_grant_wire_bytes <? _) eqn:Hz; [done |]. injection H as <-.
  split_and!; [done | done | lia].
Qed.

Lemma is_valid_trust_scope_spec s :
  is_valid_trust_scope s = true ->
  bytes_ok s /\ 1 <= zlen s <= 256 /\ forallb is_printable_ascii_scope_byte s = true.
Proof.
  unfold is_valid_trust_scope, max_trust_scope_bytes. destruct (_ || _) eqn:E; [done |]. intros Hp.
  assert (Hz := zlen_nonneg s). split_and!; [| lia | lia | done].
  apply Forall_forall. intros b Hb%list_elem_of_In. rewrite forallb_forall in Hp.
  apply Hp in Hb. unfold is_printable_ascii_scope_byte, is_byte in *. lia.
Qed.

Lemma validate_grant_scopes g :
  validate_signed_trust_grant g = success tt ->
  1 <= zlen (granted_scopes g) <= 256 /\ forallb is_valid_trust_scope (granted_scopes g) = true.
Proof.
  unfold validate_signed_trust_grant, max_trust_scopes. intros H. split_match_in H.
  assert (Hz := zlen_nonneg (granted_scopes g)). split; [lia |].
  by destruct (forallb _ (granted_scopes g)).
Qed.

Lemma grant_proto_fields_ok g :
  grant_typed g -> validate_signed_trust_grant g = success tt -> Forall field_ok (grant_proto_fields g).
Proof.
  intros (H1 & H2 & H3 & H5 & H6 & H7 & H8 & H9) [_ Hs]%validate_grant_scopes.
  unfold grant_proto_fields. rewrite !Forall_app. split_and!.
  - repeat apply List.Forall_cons; try apply List.Forall_nil; apply bytes_field_ok; naive_solver lia.
  - apply Forall_map, Forall_forall. intros s Hin%list_elem_of_In. rewrite forallb_forall in Hs.
    apply Hs, is_valid_trust_scope_spec in Hin as (? & ? & _). apply bytes_field_ok; [lia | done | lia].
  - repeat apply List.Forall_cons; try apply List.Forall_nil; apply uint_field_ok; (done || lia).
  - destruct (expires_unix_milliseconds g) as [e |]; [| done].
    constructor; [apply uint_field_ok; [lia | by apply H7] | done].
  - repeat apply List.Forall_cons; try apply List.Forall_nil; apply bytes_field_ok; naive_solver lia.
Qed.

(** A valid grant whose scopes leave a kilobyte for the other fields is encoded. *)
Lemma encode_grant_total g :
  grant_typed g -> validate_signed_trust_grant g = success tt ->
  zlen (concat (granted_scopes g)) + 20 * zlen (granted_scopes g) <= 7000 ->
  exists b, encode_signed_trust_grant g = success b /\ zlen b <= 7400.
Proof.
  intros Ht Hv Hroom.
  assert (Hb : zlen (encode_fields (grant_proto_fields g)) <= 7400).
  { destruct Ht as ([B1 L1] & [B2 L2] & [B3 L3] & H5 & H6 & H7 & [B8 L8] & [B9 L9]).
    destruct (validate_grant_scopes g Hv) as [_ Hs]. unfold grant_proto_fields. rewrite !encode_fields_app, !zlen_app.
    opose proof (zlen_repeated_fields 4 (granted_scopes g) ltac:(lia) _) as Hsc.
    { apply Forall_forall. intros s Hin%list_elem_of_In. rewrite forallb_forall in Hs.
      apply Hs, is_valid_trust_scope_spec in Hin as (? & ? & _). split; [done | lia]. }
    assert (He : zlen (encode_fields match expires_unix_milliseconds g with Some e => [uint_field 7 e] | None => [] end) <= 20).
    { destruct (expires_unix_milliseconds g) as [e |]; [| done].
      rewrite zlen_encode_cons. change (zlen (encode_fields [])) with 0.
      assert (Hu := zlen_uint_field 7 e ltac:(lia) (H7 e eq_refl)). lia. }
    rewrite !zlen_encode_cons. change (zlen (encode_fields [])) with 0.
    assert (F1 := zlen_bytes_field 1 (grant_id g) ltac:(lia) B1 ltac:(lia)).
    assert (F2 := zlen_bytes_field 2 (issuer g) ltac:(lia) B2 ltac:(lia)).
    assert (F3 := zlen_bytes_field 3 (subject g) ltac:(lia) B3 ltac:(lia)).
    assert (F5 := zlen_uint_field 5 (password_generation g) ltac:(lia) H5).
    assert (F6 := zlen_uint_field 6 (issued_unix_milliseconds g) ltac:(lia) H6).
    assert (F8 := zlen_bytes_field 8 (nonce g) ltac:(lia) B8 ltac:(lia)).
    assert (F9 := zlen_bytes_field 9 (signature g) ltac:(lia) B9 ltac:(lia)). lia. }
  unfold encode_signed_trust_grant. rewrite Hv. cbn [result_bind].
  rewrite grant_writers, (proj2 (Z.ltb_ge _ _)) by (unfold max_trust_grant_wire_bytes; lia). by eexists.
Qed.

Lemma fold_scopes rest scopes i1 i2 i3 i5 i6 i7 i8 i9 acc :
  forallb is_valid_trust_scope scopes = true -> zlen (default [] acc) + zlen scopes <= 256 ->
  fold_fields grant_step (map (bytes_field 4) scopes ++ rest)
    (mkGrantFields i1 i2 i3 acc i5 i6 i7 i8 i9) =
  fold_fields grant_step rest
    (mkGrantFields i1 i2 i3 (match scopes with [] => acc | _ => Some (default [] acc ++ scopes) end)
       i5 i6 i7 i8 i9).
Proof.
  intros Hv Hl.
  apply (fold_fields_repeated grant_step 4 256 (fun acc => mkGrantFields i1 i2 i3 acc i5 i6 i7 i8 i9)
    (fun s => is_valid_trust_scope s = true)); [| | done].
  - intros old s Hs Hlt. cbn [grant_step number bytes_field wire_type field_bytes Z.eqb Pos.eqb negb].
    rewrite Hs. cbn [negb]. replace (match old with Some l => l | None => [] end) with (default [] old) by by destruct old.
    by rewrite (proj2 (Z.leb_gt _ _)) by (unfold max_trust_scopes; lia).
  - apply Forall_forall. intros s Hs%list_elem_of_In. rewrite forallb_forall in Hv. by apply Hv.
Qed.

Lemma fold_grant g :
  grant_typed g -> validate_signed_trust_grant g = success tt ->
  fold_fields grant_step (grant_proto_fields g) no_grant_fields =
  success (mkGrantFields (Some (grant_id g)) (Some (issuer g)) (Some (subject g))
    (Some (granted_scopes g)) (Some (password_generation g)) (Some (issued_unix_milliseconds g))
    (expires_unix_milliseconds g) (Some (nonce g)) (Some (signature g))).
Proof.
  intros ((_ & L1) & (_ & L2) & (_ & L3) & _ & _ & _ & (_ & L8) & (_ & L9)) [Hn Hs]%validate_grant_scopes.
  unfold grant_proto_fields, no_grant_fields. cbn [app].
  do 3 (erewrite fold_fields_cons by (cbn; unfold once_bytes, copy_exact; cbn; rewrite ?L1, ?L2, ?L3; reflexivity)).
  rewrite fold_scopes by (try done; cbn; rewrite zlen_nil; lia). cbn [from_option app].
  replace (match granted_scopes g with [] => None | _ => Some (granted_scopes g) end)
    with (Some (granted_scopes g)) by (destruct (granted_scopes g); [rewrite zlen_nil in Hn; lia | done]).
  cbn [app]. do 2 (erewrite fold_fields_cons by (cbn; reflexivity)).
  destruct (expires_unix_milliseconds g); cbn [app];
    try (erewrite fold_fields_cons by (cbn; reflexivity));
    do 2 (erewrite fold_fields_cons by (cbn; unfold once_bytes, copy_exact; cbn; rewrite ?L8, ?L9; reflexivity));
    done.
Qed.

Lemma parse_encode_grant g b :
  grant_typed g -> encode_signed_trust_grant g = success b -> parse_signed_trust_grant b = success g.
Proof.
  intros Ht (Hv & -> & Hz)%encode_grant_layout. unfold parse_signed_trust_grant.
  rewrite (proj2 (Z.ltb_ge _ _)) by lia.
  rewrite parse_proto_encode by (by apply grant_proto_fields_ok). rewrite fold_grant by done.
  cbn [result_bind]. destruct (validate_grant_scopes g Hv) as [Hn _].
  destruct g as [g1 g2 g3 [| s ss] g5 g6 g7 g8 g9]; cbn [granted_scopes] in *;
    [rewrite zlen_nil in Hn; lia |]. cbn [grant_id issuer subject password_generation
    issued_unix_milliseconds expires_unix_milliseconds nonce signature]. by rewrite Hv.
Qed.

#[export] Instance grant_codec : Codec SignedTrustGrant := {|
  codec_encode := encode_signed_trust_grant;
  codec_parse := parse_signed_trust_grant;
  codec_ok := grant_typed;
|}.

#[export] Instance grant_codec_lawful : LawfulCodec SignedTrustGrant.
Proof. split. exact parse_encode_grant. Qed.

(** Whatever the parser has collected has the size the code copied it with. *)
Definition fields_typed (p : GrantFields) : Prop :=
  let sized n o := forall v, o = Some v -> bytes_ok v /\ zlen v = n in
  let u64s o := forall v, o = Some v -> is_u64 v in
  sized 16 (p_grant_id p) /\ sized 32 (p_issuer p) /\ sized 32 (p_subject p) /\
  u64s (p_generation p) /\ u64s (p_issued p) /\ u64s (p_expires p) /\
  sized 32 (p_nonce p) /\ sized 64 (p_signature p).

Lemma once_bytes_ok old f size c i v :
  field_ok f -> once_bytes old f size c i = success v -> bytes_ok v /\ zlen v = size.
Proof.
  unfold once_bytes, copy_exact. intros [_ Hf] H. split_match_in H. injection H as <-.
  destruct Hf as [(Hw & _) | (_ & _ & Hb & _)]; [lia |]. split; [done | lia].
Qed.

Lemma once_uint_ok old f c v : field_ok f -> once_uint old f c = success v -> is_u64 v.
Proof.
  unfold once_uint. intros [_ Hf] H. split_match_in H. injection H as <-.
  destruct Hf as [(_ & Hi & _) | (Hw & _)]; [done | lia].
Qed.

Lemma grant_step_typed p f p' :
  field_ok f -> fields_typed p -> grant_step p f = success p' -> fields_typed p'.
Proof.
  intros Hf (H1 & H2 & H3 & H5 & H6 & H7 & H8 & H9) H. destruct p as [i1 i2 i3 i4 i5 i6 i7 i8 i9].
  unfold grant_step in H. cbn in *.
  repeat match type of H with (if ?c then _ else _) = _ => destruct c; try discriminate H end;
    try (apply result_bind_success in H as (v & Hv & H));
    injection H as <-; unfold fields_typed; cbn; split_and!; try done;
    intros ? [= <-]; by (eapply once_bytes_ok || eapply once_uint_ok).
Qed.

Lemma parse_grant_sound payload g :
  bytes_ok payload -> parse_signed_trust_grant payload = success g ->
  grant_typed g /\ validate_signed_trust_grant g = success tt.
Proof.
  intros Hok H. unfold parse_signed_trust_grant in H.
  destruct (_ <? _); [done |]. apply result_bind_success in H as (p & Hp & H).
  assert (Hfold : fields_typed p).
  { eapply (parse_proto_invariant fields_typed); [| exact Hok | | exact Hp]; [eauto using grant_step_typed |].
    unfold fields_typed; cbn; split_and!; by intros ? ?. }
  destruct Hfold as (H1 & H2 & H3 & H5 & H6 & H7 & H8 & H9).
  destruct p as [[] [] [] [[] |] [] [] ? [] []]; try discriminate H. cbn in *.
  apply result_bind_success in H as ([] & Hv & H). injection H as <-. split; [| done].
  exact (conj (H1 _ eq_refl) (conj (H2 _ eq_refl) (conj (H3 _ eq_refl) (conj (H5 _ eq_refl)
    (conj (H6 _ eq_refl) (conj H7 (conj (H8 _ eq_refl) (H9 _ eq_refl)))))))).
Qed.

(** The trust-grant codec: a grant that encodes is parsed back unchanged,
    and every grant the parser returns, from any bytes, has identifiers, nonce
    and signature of their exact sizes and passes validation. *)
Theorem trust_grant_codec :
  (forall g b, grant_typed g -> encode_signed_trust_grant g = success b ->
     parse_signed_trust_grant b = success g) /\
  (forall payload g, bytes_ok payload -> parse_signed_trust_grant payload = success g ->
     grant_typed g /\ validate_signed_trust_grant g = success tt).
Proof.
  split; [apply parse_encode_grant | apply parse_grant_sound].
Qed.

(** ** Signatures *)

Lemma canonical_scope_list_image scopes : canonical_scope_list scopes = scope_list_image scopes.
Proof.
  unfold canonical_scope_list, scope_list_image. change (push_size16 [] (zlen scopes)) with (canonical_uint16 (zlen scopes)).
  generalize (canonical_uint16 (zlen scopes)). induction scopes as [| s scopes IH]; intros output; cbn [foldl map concat].
  { by rewrite app_nil_r. }
  rewrite IH. unfold scope_image at 2, push_size16. rewrite <- !app_assoc. done.
Qed.

Lemma scope_image_inj s t r q :
  zlen s < 65536 -> zlen t < 65536 -> scope_image s ++ r = scope_image t ++ q -> s = t /\ r = q.
Proof.
  unfold scope_image. intros Hs Ht Heq. rewrite <- !app_assoc in Heq.
  apply app_zlen_inj in Heq as [En Heq]; [| done]. apply (f_equal (be 256)) in En.
  assert (Hs0 := zlen_nonneg s). assert (Ht0 := zlen_nonneg t).
  rewrite !canonical_uint16_value in En by lia. by apply app_zlen_inj in Heq.
Qed.

Lemma scope_list_image_inj ss ts :
  Forall (fun s => zlen s < 65536) ss -> Forall (fun s => zlen s < 65536) ts ->
  scope_list_image ss = scope_list_image ts -> ss = ts.
Proof.
  unfold scope_list_image. intros Hs Ht Heq. apply app_zlen_inj in Heq as [_ Heq]; [| done].
  revert ts Ht Heq. induction Hs as [| s ss Hs _ IH]; intros ts Ht Heq; destruct Ht as [| t ts Ht Hts]; try done.
  cbn in Heq. apply scope_image_inj in Heq as [-> Heq]; [| done | done]. f_equal. by apply IH.
Qed.

Lemma trust_grant_fields_typed g : Forall field_typed (trust_grant_fields g).
Proof.
  unfold trust_grant_fields. rewrite !Forall_app. split_and!; [| case_match |];
    repeat apply List.Forall_cons; try apply List.Forall_nil; unfold field_typed, is_u16; cbn; lia.
Qed.

Lemma valid_scopes_short g :
  validate_signed_trust_grant g = success tt -> Forall (fun s => zlen s < 65536) (granted_scopes g).
Proof.
  intros [_ Hs]%validate_grant_scopes. apply Forall_forall. intros s Hin%list_elem_of_In.
  rewrite forallb_forall in Hs. apply Hs, is_valid_trust_scope_spec in Hin as (_ & ? & _). lia.
Qed.

(** The canonical bytes of a grant determine everything but its signature. *)
Lemma canonical_grant_inj g1 g2 b :
  grant_typed g1 -> grant_typed g2 ->
  canonical_signed_trust_grant g1 = success b -> canonical_signed_trust_grant g2 = success b ->
  with_signature g1 [] = with_signature g2 [].
Proof.
  intros T1 T2 H1 H2. unfold canonical_signed_trust_grant in *.
  apply result_bind_success in H1 as ([] & V1 & H1). apply result_bind_success in H2 as ([] & V2 & H2).
  assert (Hf := canonicalize_fields_inj _ _ _ _ (trust_grant_fields_typed g1) (trust_grant_fields_typed g2) H1 H2).
  destruct T1 as (_ & _ & _ & A5 & A6 & A7 & _), T2 as (_ & _ & _ & B5 & B6 & B7 & _).
  apply valid_scopes_short in V1, V2.
  assert (E1 := f_equal (fun fs => value_at fs 0) Hf). assert (E2 := f_equal (fun fs => value_at fs 1) Hf).
  assert (E3 := f_equal (fun fs => value_at fs 2) Hf). assert (E4 := f_equal (fun fs => value_at fs 3) Hf).
  assert (E5 := f_equal (fun fs => value_at fs 4) Hf). assert (E6 := f_equal (fun fs => value_at fs 5) Hf).
  assert (E7 := f_equal (drop 6) Hf). clear Hf H1 H2.
  change (grant_id g1 = grant_id g2) in E1. change (issuer g1 = issuer g2) in E2.
  change (subject g1 = subject g2) in E3.
  change (canonical_scope_list (granted_scopes g1) = canonical_scope_list (granted_scopes g2)) in E4.
  change (canonical_uint64 (password_generation g1) = canonical_uint64 (password_generation g2)) in E5.
  change (canonical_uint64 (issued_unix_milliseconds g1) = canonical_uint64 (issued_unix_milliseconds g2)) in E6.
  rewrite !canonical_scope_list_image in E4. apply scope_list_image_inj in E4; [| done | done].
  apply canonical_uint64_inj in E5, E6; try done.
  assert (Htail : expires_unix_milliseconds g1 = expires_unix_milliseconds g2 /\ nonce g1 = nonce g2).
  { unfold trust_grant_fields in E7. cbn [drop app] in E7.
    destruct (expires_unix_milliseconds g1) as [e1 |], (expires_unix_milliseconds g2) as [e2 |]; cbn [app] in E7.
    - assert (Ee := f_equal (fun fs => value_at fs 0) E7). assert (En := f_equal (fun fs => value_at fs 1) E7).
      change (canonical_uint64 e1 = canonical_uint64 e2) in Ee. change (nonce g1 = nonce g2) in En.
      apply canonical_uint64_inj in Ee; [by subst | by apply A7 | by apply B7].
    - apply (f_equal length) in E7. done.
    - apply (f_equal length) in E7. done.
    - split; [done |]. exact (f_equal (fun fs => value_at fs 0) E7). }
  destruct Htail as [E8 E9]. unfold with_signature. congruence.
Qed.

Lemma canonical_with_signature g s :
  canonical_signed_trust_grant (with_signature g s) = canonical_signed_trust_grant g.
Proof. done. Qed.

Section grant_signatures.
Context `{SodiumLaws}.

Definition expiry_in_window (g : SignedTrustGrant) (now : Z) : Prop :=
  forall e, expires_unix_milliseconds g = Some e ->
  now - maximum_expiry_clock_skew_milliseconds <= e <= now + maximum_signed_validity_milliseconds.

Lemma sign_grant_verifies g i g' now :
  grant_typed g -> identity_ok i -> is_u64 now -> expiry_in_window g now ->
  sign_signed_trust_grant g i = success g' ->
  verify_signed_trust_grant g' (public_key_ i) now = success tt /\
  g' = with_signature g (signature g').
Proof.
  intros Ht Hi Hnow Hwin Hs. unfold sign_signed_trust_grant in Hs. inv_result Hs.
  apply negb_false_iff, bytes_eqb_eq in G. split; [| done].
  destruct (identity_sign_verify _ _ _ Hi E0) as (Hv & _). destruct Hi as (_ & _ & Hd).
  assert (Hval : validate_signed_trust_grant g = success tt).
  { unfold canonical_signed_trust_grant in E. by apply result_bind_success in E as ([] & ? & _). }
  unfold verify_signed_trust_grant. change (validate_signed_trust_grant (with_signature g r0)) with (validate_signed_trust_grant g).
  rewrite Hval, canonical_with_signature, E. cbn [result_bind with_signature expires_unix_milliseconds signature issuer].
  assert (Hexp : match expires_unix_milliseconds g with
    | Some expires => validate_signed_expiry expires now | None => success tt end = success tt).
  { destruct (expires_unix_milliseconds g) as [e |] eqn:He; [| done].
    apply validate_signed_expiry_window; [by apply Ht | done | by apply Hwin]. }
  rewrite Hexp. cbn [result_bind]. by rewrite Hv, Hd, G, bytes_eqb_refl.
Qed.

(** A signed grant verifies: whenever an identity signs a grant it issued,
    the result verifies under the identity's public key at every time within
    the grant's validity window. *)
Theorem grant_sign_verify g i g' now :
  grant_typed g -> identity_ok i -> is_u64 now -> expiry_in_window g now ->
  sign_signed_trust_grant g i = success g' ->
  verify_signed_trust_grant g' (public_key_ i) now = success tt /\
  g' = with_signature g (signature g').
Proof. apply sign_grant_verifies. Qed.

Lemma verify_grant_inv g pk now :
  verify_signed_trust_grant g pk now = success tt ->
  exists b, validate_signed_trust_grant g = success tt /\
    canonical_signed_trust_grant g = success b /\
    crypto_sign_verify_detached (signature g) b pk = true /\
    derive_device_id pk = success (issuer g) /\
    (forall e, expires_unix_milliseconds g = Some e -> validate_signed_expiry e now = success tt).
Proof.
  unfold verify_signed_trust_grant. intros E.
  apply result_bind_success in E as ([] & Hval & E). apply result_bind_success in E as ([] & Hexp & E).
  apply result_bind_success in E as (b & Hb & E).
  destruct (verify_identity_signature _ _ _) as [[] |] eqn:Hv; [| done].
  destruct (derive_device_id pk) as [d |] eqn:Hd; [| done].
  destruct (bytes_eqb d (issuer g)) eqn:Hi; [| done]. apply bytes_eqb_eq in Hi as ->.
  exists b. split_and!; try done.
  - unfold verify_identity_signature in Hv. apply result_bind_success in Hv as (? & _ & Hv).
    split_match_in Hv. by apply negb_false_iff.
  - intros e He. by rewrite He in Hexp.
Qed.

(** What a verified grant proves: the issuer's key, whose hash is the
    issuer's device id, signed bytes that determine every field of the grant;
    a verified grant with the same signed bytes differs at most in its
    signature. *)
Theorem grant_verify_binds g pk now :
  verify_signed_trust_grant g pk now = success tt ->
  derive_device_id pk = success (issuer g) /\
  exists b, canonical_signed_trust_grant g = success b /\
    crypto_sign_verify_detached (signature g) b pk = true /\
    forall g', grant_typed g -> grant_typed g' -> canonical_signed_trust_grant g' = success b ->
      g' = with_signature g (signature g').
Proof.
  intros (b & _ & Hb & Hv & Hd & _)%verify_grant_inv. split; [done |]. exists b. split_and!; try done.
  intros g' Ht Ht' Hb'. assert (Heq := canonical_grant_inj _ _ _ Ht' Ht Hb' Hb).
  destruct g, g'. unfold with_signature in *. cbn in *. congruence.
Qed.

(** A grant with a lifetime of more than five minutes is rejected when it is
    received: verification applies the window of short-lived signed objects, so
    the pairing response that carries such a grant fails although the issuer's
    configuration allows lifetimes of up to a year. *)
Theorem long_grant_rejected g pk now ttl :
  is_u64 now -> is_u64 (now + ttl) -> maximum_signed_validity_milliseconds < ttl ->
  expires_unix_milliseconds g = Some (now + ttl) ->
  has_value (verify_signed_trust_grant g pk now) = false.
Proof.
  intros Hn He Ht Hg. destruct (verify_signed_trust_grant g pk now) as [[] |] eqn:E; [| done].
  apply verify_grant_inv in E as (_ & _ & _ & _ & _ & Hexp). specialize (Hexp _ Hg).
  apply validate_signed_expiry_window in Hexp; [lia | done | done].
Qed.

End grant_signatures.

(** ** Witnesses *)

Definition sample_grant : SignedTrustGrant :=
  mkGrant (repeat 7 16) (repeat 5 32) (repeat 6 32) [bytes_of_string "file.push"; bytes_of_string "rpc:*"]
    1 1000 (Some 100000) (repeat 9 32) (repeat 0 64).

Definition sample_identity : IdentityKeyPair :=
  mkIdentityKeyPair (repeat 5 32) (repeat 5 32) (repeat 5 64).

Lemma sample_identity_ok : @identity_ok toy_sodium sample_identity.
Proof. exists (repeat 5 32). split; vm_compute; reflexivity. Qed.

Lemma sample_grant_typed : grant_typed sample_grant.
Proof.
  unfold grant_typed. cbn [sample_grant grant_id issuer subject password_generation
    issued_unix_milliseconds expires_unix_milliseconds nonce signature].
  do 3 (split; [concrete |]). do 2 (split; [concrete |]). split; [intros e [= <-]; concrete |].
  split; concrete.
Qed.

(** The signature of the sample grant under the stand-in for libsodium. *)
Definition sample_signature : list Z :=
  match @sign_signed_trust_grant toy_sodium sample_grant sample_identity with
  | success g => signature g
  | failure _ => []
  end.

Lemma grant_sign_verify_witness :
  @verify_signed_trust_grant toy_sodium (with_signature sample_grant sample_signature)
    (public_key_ sample_identity) 90000 = success tt /\
  with_signature sample_grant sample_signature =
  with_signature sample_grant (signature (with_signature sample_grant sample_signature)).
Proof.
  apply (@grant_sign_verify toy_sodium toy_sodium_laws sample_grant sample_identity).
  - apply sample_grant_typed.
  - apply sample_identity_ok.
  - concrete.
  - intros e [= <-]. concrete.
  - vm_compute. reflexivity.
Defined.

Lemma grant_verify_binds_witness :
  @derive_device_id toy_sodium (repeat 5 32) = success (repeat 5 32).
Proof.
  eapply (@grant_verify_binds toy_sodium (with_signature sample_grant sample_signature) (repeat 5 32) 90000).
  vm_compute. reflexivity.
Defined.

Lemma long_grant_rejected_witness :
  let g := mkGrant (repeat 7 16) (repeat 5 32) (repeat 6 32) [bytes_of_string "rpc:*"]
             1 1000 (Some 86401000) (repeat 9 32) (repeat 0 64) in
  has_value (@verify_signed_trust_grant toy_sodium g (repeat 5 32) 1000) = false.
Proof.
  intros g. apply (@long_grant_rejected toy_sodium g (repeat 5 32) 1000 86400000); concrete.
Defined.
