(* ===== verification/SessionHello.v ===== *)
(** * The session hello

    [include/heyaki/session_protocol.hpp] and [src/core/session_protocol.cpp]: the
    signed first message on a new transport, its codec, and
    [SessionHelloAdmission], which decides once per transport whether the peer
    is who signaling said it would be. *)

From Stdlib Require Import ZArith Lia ZifyBool String.
From stdpp Require Import base tactics option list numbers strings relations.
From S2P Require Import Prelude Errors Varint Identifiers ProtoCodec FieldCodec Protocol Security Identity Signing.
#[local] Open Scope Z_scope.

Module SessionHelloAdmissionAction.
Inductive SessionHelloAdmissionAction : Type := accepted | duplicate | late_epoch.
End SessionHelloAdmissionAction.
Abbreviation SessionHelloAdmissionAction := SessionHelloAdmissionAction.SessionHelloAdmissionAction.

Module SessionHello.
Import Identifiers ProtoCodec Protocol Security Identity Signing.

Definition max_session_hello_bytes : Z := 64 * 1024.
Definition kProtoComponent : string := "session_hello".

Definition session_error (code : ErrorCode) (detail : string) : Error :=
  make_error code "session_hello" detail.

Record SignedSessionHello : Type := mkHello {
  sender : DeviceEndpointKey;
  peer : DeviceEndpointKey;
  session_id : list Z;
  session_epoch : Z;
  initiator_nonce : list Z;
  responder_nonce : list Z;
  signaling_transcript_sha256 : list Z;
  protocol_version : ProtocolVersion;
  hello_supported : Z;
  hello_required : Z;
  hello_expires : Z;
  hello_signature : list Z;
}.

Definition session_hello_fields (hello : SignedSessionHello) : list CanonicalField :=
  [mkCanonicalField 1 (canonical_bytes (key_device_id (sender hello)));
   mkCanonicalField 2 (canonical_bytes (key_endpoint_id (sender hello)));
   mkCanonicalField 3 (canonical_bytes (key_device_id (peer hello)));
   mkCanonicalField 4 (canonical_bytes (key_endpoint_id (peer hello)));
   mkCanonicalField 5 (canonical_bytes (session_id hello));
   mkCanonicalField 6 (canonical_uint64 (session_epoch hello));
   mkCanonicalField 7 (initiator_nonce hello);
   mkCanonicalField 8 (responder_nonce hello);
   mkCanonicalField 9 (signaling_transcript_sha256 hello);
   mkCanonicalField 10 (canonical_uint32 (major (protocol_version hello)));
   mkCanonicalField 11 (canonical_uint32 (minor (protocol_version hello)));
   mkCanonicalField 12 (canonical_uint64 (hello_supported hello));
   mkCanonicalField 13 (canonical_uint64 (hello_required hello));
   mkCanonicalField 14 (canonical_uint64 (hello_expires hello))].

Definition encode_device_endpoint (endpoint : DeviceEndpointKey) : list Z :=
  let output := append_bytes [] 1 (key_device_id endpoint) in
  append_bytes output 2 (key_endpoint_id endpoint).

Definition encode_protocol_version (version : ProtocolVersion) : list Z :=
  let output := append_uint [] 1 (major version) in
  append_uint output 2 (minor version).

Definition encode_capabilities (supported required : Z) : list Z :=
  let output := append_uint [] 1 supported in
  append_uint output 2 required.

Definition encode_signature (signature : list Z) : list Z := append_bytes [] 1 signature.

(** The four nested parsers: the loop body, then the check after the loop. The
    last two arguments of [copy_exact] are in the order of the source. *)
Definition device_endpoint_step (p : option (list Z) * option (list Z)) (field : ProtoField)
    : Result (option (list Z) * option (list Z)) :=
  let '(device_id, endpoint_id) := p in
  fail_if negb (wire_type field =? 2)
    with session_error ErrorCode.protocol "endpoint_field_invalid";
  if (number field =? 1) && negb (seen device_id) then
    let? v := copy_exact (field_bytes field) 32 kProtoComponent "endpoint_device_id_invalid" in
    success (Some v, endpoint_id)
  else if (number field =? 2) && negb (seen endpoint_id) then
    let? v := copy_exact (field_bytes field) 16 kProtoComponent "endpoint_id_invalid" in
    success (device_id, Some v)
  else failure (session_error ErrorCode.protocol "endpoint_field_conflict").

Definition parse_device_endpoint (payload : list Z) : Result DeviceEndpointKey :=
  let? p := parse_proto device_endpoint_step payload kProtoComponent (None, None) in
  match p with
  | (Some device_id, Some endpoint_id) => success (mkDeviceEndpointKey device_id endpoint_id)
  | _ => failure (session_error ErrorCode.protocol "endpoint_field_missing")
  end.

Definition protocol_version_step (p : option Z * option Z) (field : ProtoField)
    : Result (option Z * option Z) :=
  let '(major, minor) := p in
  fail_if negb (wire_type field =? 0) || (u32_max <? integer field)
    with session_error ErrorCode.protocol "version_field_invalid";
  if (number field =? 1) && negb (seen major) then success (Some (u32 (integer field)), minor)
  else if (number field =? 2) && negb (seen minor) then success (major, Some (u32 (integer field)))
  else failure (session_error ErrorCode.protocol "version_field_conflict").

Definition parse_protocol_version (payload : list Z) : Result ProtocolVersion :=
  let? p := parse_proto protocol_version_step payload kProtoComponent (None, None) in
  match p with
  | (Some major, Some minor) => success (mkProtocolVersion major minor)
  | _ => failure (session_error ErrorCode.protocol "version_field_missing")
  end.

Definition capabilities_step (p : option Z * option Z) (field : ProtoField)
    : Result (option Z * option Z) :=
  let '(supported, required) := p in
  fail_if negb (wire_type field =? 0)
    with session_error ErrorCode.protocol "capabilities_field_invalid";
  if (number field =? 1) && negb (seen supported) then success (Some (integer field), required)
  else if (number field =? 2) && negb (seen required) then success (supported, Some (integer field))
  else failure (session_error ErrorCode.protocol "capabilities_field_conflict").

Definition parse_capabilities (payload : list Z) : Result (Z * Z) :=
  let? p := parse_proto capabilities_step payload kProtoComponent (None, None) in
  match p with
  | (Some supported, Some required) => success (supported, required)
  | _ => failure (session_error ErrorCode.protocol "capabilities_field_missing")
  end.

Definition signature_step (p : option (list Z)) (field : ProtoField) : Result (option (list Z)) :=
  fail_if negb (number field =? 1) || negb (wire_type field =? 2) || seen p
    with session_error ErrorCode.protocol "signature_field_conflict";
  let? v := copy_exact (field_bytes field) 64 kProtoComponent "signature_field_invalid" in
  success (Some v).

Definition parse_signature (payload : list Z) : Result (list Z) :=
  let? p := parse_proto signature_step payload kProtoComponent None in
  match p with
  | Some signature => success signature
  | None => failure (session_error ErrorCode.protocol "signature_field_missing")
  end.

Definition validate_signed_session_hello (hello : SignedSessionHello) : Result unit :=
  fail_if all_zero (key_device_id (sender hello)) || all_zero (key_endpoint_id (sender hello))
          || all_zero (key_device_id (peer hello)) || all_zero (key_endpoint_id (peer hello))
          || key_eqb (sender hello) (peer hello)
    with session_error ErrorCode.protocol "endpoint_binding_invalid";
  fail_if all_zero (session_id hello) || (session_epoch hello =? 0)
    with session_error ErrorCode.protocol "session_binding_invalid";
  fail_if all_zero (initiator_nonce hello) || all_zero (responder_nonce hello)
          || all_zero (signaling_transcript_sha256 hello)
    with session_error ErrorCode.protocol "signaling_binding_invalid";
  let session_bit := capability_bit Capability.session in
  fail_if (major (protocol_version hello) =? 0)
          || negb (contains (hello_supported hello) (hello_required hello))
          || (Z.land (hello_supported hello) session_bit =? 0)
          || (Z.land (hello_required hello) session_bit =? 0)
    with session_error ErrorCode.protocol "protocol_advertisement_invalid";
  fail_if hello_expires hello =? 0 with session_error ErrorCode.protocol "expiry_invalid";
  success tt.

Definition canonical_signed_session_hello (hello : SignedSessionHello) : Result (list Z) :=
  let? _ := validate_signed_session_hello hello in
  canonicalize_for_signature SigningDomain.session_hello (session_hello_fields hello).

Definition with_hello_signature (h : SignedSessionHello) (s : list Z) : SignedSessionHello :=
  mkHello (sender h) (peer h) (session_id h) (session_epoch h) (initiator_nonce h)
    (responder_nonce h) (signaling_transcript_sha256 h) (protocol_version h) (hello_supported h)
    (hello_required h) (hello_expires h) s.

Definition encode_signed_session_hello (hello : SignedSessionHello) : Result (list Z) :=
  let? _ := validate_signed_session_hello hello in
  let output := append_bytes [] 1 (encode_device_endpoint (sender hello)) in
  let output := append_bytes output 2 (encode_device_endpoint (peer hello)) in
  let output := append_bytes output 3 (session_id hello) in
  let output := append_uint output 4 (session_epoch hello) in
  let output := append_bytes output 5 (initiator_nonce hello) in
  let output := append_bytes output 6 (responder_nonce hello) in
  let output := append_bytes output 7 (signaling_transcript_sha256 hello) in
  let output := append_bytes output 8 (encode_protocol_version (protocol_version hello)) in
  let output := append_bytes output 9
                  (encode_capabilities (hello_supported hello) (hello_required hello)) in
  let output := append_uint output 10 (hello_expires hello) in
  let output := append_bytes output 11 (encode_signature (hello_signature hello)) in
  fail_if max_session_hello_bytes <? zlen output
    with session_error ErrorCode.resource_exhausted "object_too_large";
  success output.

(** The optionals [parse_signed_session_hello] collects. *)
Record HelloFields : Type := mkHelloFields {
  p_sender : option DeviceEndpointKey;
  p_peer : option DeviceEndpointKey;
  p_session_id : option (list Z);
  p_epoch : option Z;
  p_initiator_nonce : option (list Z);
  p_responder_nonce : option (list Z);
  p_transcript : option (list Z);
  p_version : option ProtocolVersion;
  p_capabilities : option (Z * Z);
  p_expiry : option Z;
  p_signature : option (list Z);
}.

Definition no_hello_fields : HelloFields :=
  mkHelloFields None None None None None None None None None None None.

(** A field that is a nested message, or exact bytes, and appears once. *)
Definition once {A} (old : option A) (field : ProtoField) (wire : Z) (conflict : string)
    (parse : ProtoField -> Result A) : Result A :=
  fail_if negb (wire_type field =? wire) || seen old
    with session_error ErrorCode.protocol conflict;
  parse field.

Definition exact (size : Z) (invalid : string) (field : ProtoField) : Result (list Z) :=
  copy_exact (field_bytes field) size kProtoComponent invalid.

Definition hello_step (p : HelloFields) (field : ProtoField) : Result HelloFields :=
  let '(mkHelloFields i1 i2 i3 i4 i5 i6 i7 i8 i9 i10 i11) := p in
  let n := number field in
  if n =? 1 then
    let? v := once i1 field 2 "endpoint_field_conflict" (fun f => parse_device_endpoint (field_bytes f)) in
    success (mkHelloFields (Some v) i2 i3 i4 i5 i6 i7 i8 i9 i10 i11)
  else if n =? 2 then
    let? v := once i2 field 2 "endpoint_field_conflict" (fun f => parse_device_endpoint (field_bytes f)) in
    success (mkHelloFields i1 (Some v) i3 i4 i5 i6 i7 i8 i9 i10 i11)
  else if n =? 3 then
    let? v := once i3 field 2 "session_id_field_conflict" (exact 16 "session_id_field_invalid") in
    success (mkHelloFields i1 i2 (Some v) i4 i5 i6 i7 i8 i9 i10 i11)
  else if n =? 4 then
    let? v := once i4 field 0 "epoch_field_conflict" (fun f => success (integer f)) in
    success (mkHelloFields i1 i2 i3 (Some v) i5 i6 i7 i8 i9 i10 i11)
  else if n =? 5 then
    let? v := once i5 field 2 "nonce_field_conflict" (exact 32 "nonce_field_invalid") in
    success (mkHelloFields i1 i2 i3 i4 (Some v) i6 i7 i8 i9 i10 i11)
  else if n =? 6 then
    let? v := once i6 field 2 "nonce_field_conflict" (exact 32 "nonce_field_invalid") in
    success (mkHelloFields i1 i2 i3 i4 i5 (Some v) i7 i8 i9 i10 i11)
  else if n =? 7 then
    let? v := once i7 field 2 "transcript_field_conflict" (exact 32 "transcript_field_invalid") in
    success (mkHelloFields i1 i2 i3 i4 i5 i6 (Some v) i8 i9 i10 i11)
  else if n =? 8 then
    let? v := once i8 field 2 "version_field_conflict" (fun f => parse_protocol_version (field_bytes f)) in
    success (mkHelloFields i1 i2 i3 i4 i5 i6 i7 (Some v) i9 i10 i11)
  else if n =? 9 then
    let? v := once i9 field 2 "capabilities_field_conflict" (fun f => parse_capabilities (field_bytes f)) in
    success (mkHelloFields i1 i2 i3 i4 i5 i6 i7 i8 (Some v) i10 i11)
  else if n =? 10 then
    let? v := once i10 field 0 "expiry_field_conflict" (fun f => success (integer f)) in
    success (mkHelloFields i1 i2 i3 i4 i5 i6 i7 i8 i9 (Some v) i11)
  else if n =? 11 then
    let? v := once i11 field 2 "signature_field_conflict" (fun f => parse_signature (field_bytes f)) in
    success (mkHelloFields i1 i2 i3 i4 i5 i6 i7 i8 i9 i10 (Some v))
  else failure (session_error ErrorCode.protocol "field_unknown").

Definition parse_signed_session_hello (payload : list Z) : Result SignedSessionHello :=
  fail_if max_session_hello_bytes <? zlen payload
    with session_error ErrorCode.resource_exhausted "object_too_large";
  let? p := parse_proto hello_step payload kProtoComponent no_hello_fields in
  match p with
  | mkHelloFields (Some sender) (Some peer) (Some session_id) (Some epoch) (Some initiator_nonce)
      (Some responder_nonce) (Some transcript) (Some version) (Some capabilities) (Some expiry)
      (Some signature) =>
      let hello := mkHello sender peer session_id epoch initiator_nonce responder_nonce transcript
                     version (fst capabilities) (snd capabilities) expiry signature in
      let? _ := validate_signed_session_hello hello in
      success hello
  | _ => failure (session_error ErrorCode.protocol "field_missing")
  end.

Record SessionHelloExpectation : Type := mkExpectation {
  expected_sender : DeviceEndpointKey;
  expected_peer : DeviceEndpointKey;
  expected_session_id : list Z;
  expected_epoch : Z;
  expected_initiator_nonce : list Z;
  expected_responder_nonce : list Z;
  expected_transcript : list Z;
}.

Definition matches_expectation_except_epoch (hello : SignedSessionHello)
    (expected : SessionHelloExpectation) : bool :=
  key_eqb (sender hello) (expected_sender expected)
  && key_eqb (peer hello) (expected_peer expected)
  && bytes_eqb (session_id hello) (expected_session_id expected)
  && bytes_eqb (initiator_nonce hello) (expected_initiator_nonce expected)
  && bytes_eqb (responder_nonce hello) (expected_responder_nonce expected)
  && bytes_eqb (signaling_transcript_sha256 hello) (expected_transcript expected).

Record SessionHelloAdmissionOutcome : Type := mkOutcome {
  action : SessionHelloAdmissionAction;
  outcome_protocol : option NegotiatedProtocol;
}.

Record SessionHelloAdmission : Type := mkAdmission {
  expectation_ : SessionHelloExpectation;
  sender_public_key_ : list Z;
  local_protocol_ : ProtocolHello;
  accepted_payload_ : option (list Z);
  negotiated_protocol_ : option NegotiatedProtocol;
}.

Definition new_admission (expectation : SessionHelloExpectation) (sender_public_key : list Z)
    (local_protocol : ProtocolHello) : SessionHelloAdmission :=
  mkAdmission expectation sender_public_key local_protocol None None.

Definition authenticated (a : SessionHelloAdmission) : bool := seen (accepted_payload_ a).

Section crypto.
Context `{Sodium}.

Definition verify_signature_and_identity (hello : SignedSessionHello) (public_key : list Z)
    : Result unit :=
  let? canonical := canonicalize_for_signature SigningDomain.session_hello
                      (session_hello_fields hello) in
  match verify_identity_signature public_key canonical (hello_signature hello) with
  | failure _ => failure (session_error ErrorCode.authentication "signature_invalid")
  | success _ =>
      match derive_device_id public_key with
      | success derived =>
          if negb (bytes_eqb derived (key_device_id (sender hello)))
          then failure (session_error ErrorCode.authentication "sender_identity_mismatch")
          else success tt
      | failure _ => failure (session_error ErrorCode.authentication "sender_identity_mismatch")
      end
  end.

Definition sign_signed_session_hello (hello : SignedSessionHello) (identity : IdentityKeyPair)
    : Result SignedSessionHello :=
  let? canonical := canonical_signed_session_hello hello in
  fail_if negb (bytes_eqb (device_id_ identity) (key_device_id (sender hello)))
    with session_error ErrorCode.identity "signer_identity_mismatch";
  let? s := sign_identity_message identity canonical in
  success (with_hello_signature hello s).

Definition verify_signed_session_hello (hello : SignedSessionHello) (sender_public_key : list Z)
    (now_unix_milliseconds : Z) : Result unit :=
  let? _ := validate_signed_session_hello hello in
  let? _ := validate_signed_expiry (hello_expires hello) now_unix_milliseconds in
  verify_signature_and_identity hello sender_public_key.

Definition admit_hello (a : SessionHelloAdmission) (payload : list Z) (now_unix_milliseconds : Z)
    : Result SessionHelloAdmissionOutcome * SessionHelloAdmission :=
  match parse_signed_session_hello payload with
  | failure e => (failure e, a)
  | success hello =>
  match verify_signature_and_identity hello (sender_public_key_ a) with
  | failure e => (failure e, a)
  | success _ =>
  if negb (matches_expectation_except_epoch hello (expectation_ a))
  then (failure (session_error ErrorCode.authentication "binding_mismatch"), a) else
  if session_epoch hello <? expected_epoch (expectation_ a)
  then (success (mkOutcome SessionHelloAdmissionAction.late_epoch None), a) else
  if expected_epoch (expectation_ a) <? session_epoch hello
  then (failure (session_error ErrorCode.authentication "higher_epoch_requires_new_transport"), a)
  else
  match accepted_payload_ a with
  | Some accepted =>
      if bytes_eqb payload accepted
      then (success (mkOutcome SessionHelloAdmissionAction.duplicate (negotiated_protocol_ a)), a)
      else (failure (session_error ErrorCode.authentication "conflicting_duplicate"), a)
  | None =>
  match validate_signed_expiry (hello_expires hello) now_unix_milliseconds with
  | failure e => (failure e, a)
  | success _ =>
  match negotiate_protocol (local_protocol_ a)
          (mkProtocolHello (protocol_version hello) (hello_supported hello) (hello_required hello)) with
  | failure e => (failure e, a)
  | success negotiated =>
      (success (mkOutcome SessionHelloAdmissionAction.accepted (Some negotiated)),
       mkAdmission (expectation_ a) (sender_public_key_ a) (local_protocol_ a)
         (Some payload) (Some negotiated))
  end end end end end.

End crypto.

End SessionHello.

Import Identifiers ProtoCodec Protocol Security Identity Signing SessionHello.

(** ** The codec *)

Definition version_typed (v : ProtocolVersion) : Prop := is_u32 (major v) /\ is_u32 (minor v).

(** The types of the C++ members. *)
Definition hello_typed (h : SignedSessionHello) : Prop :=
  key_typed (sender h) /\ key_typed (peer h) /\ sized 16 (session_id h) /\
  is_u64 (session_epoch h) /\ sized 32 (initiator_nonce h) /\ sized 32 (responder_nonce h) /\
  sized 32 (signaling_transcript_sha256 h) /\ version_typed (protocol_version h) /\
  (is_u64 (hello_supported h) /\ is_u64 (hello_required h)) /\
  is_u64 (hello_expires h) /\ sized 64 (hello_signature h).

Lemma encode_device_endpoint_fields k : encode_device_endpoint k = encode_fields (key_fields k).
Proof. unfold encode_device_endpoint, key_fields. fold_writers. Qed.

Lemma encode_protocol_version_fields v :
  encode_protocol_version v = encode_fields (pair_fields (major v) (minor v)).
Proof. unfold encode_protocol_version, pair_fields. fold_writers. Qed.

Lemma encode_capabilities_fields s r : encode_capabilities s r = encode_fields (pair_fields s r).
Proof. unfold encode_capabilities, pair_fields. fold_writers. Qed.

Lemma encode_signature_fields s : encode_signature s = encode_fields [bytes_field 1 s].
Proof. unfold encode_signature. fold_writers. Qed.

Lemma parse_encode_device_endpoint k :
  key_typed k -> parse_device_endpoint (encode_device_endpoint k) = success k.
Proof.
  intros Hk. unfold parse_device_endpoint. rewrite encode_device_endpoint_fields, parse_proto_encode
    by (by apply key_fields_ok).
  destruct k as [d e], Hk as [[_ Hd] [_ He]]. cbn in Hd, He.
  unfold key_fields. cbn [key_device_id key_endpoint_id].
  do 2 (erewrite fold_fields_cons by (cbn; unfold copy_exact; cbn; rewrite ?Hd, ?He; reflexivity)).
  done.
Qed.

Lemma parse_encode_protocol_version v :
  version_typed v -> parse_protocol_version (encode_protocol_version v) = success v.
Proof.
  intros [Hma Hmi]. unfold parse_protocol_version. rewrite encode_protocol_version_fields.
  rewrite parse_proto_encode by (apply pair_fields_ok; unfold is_u32, is_u64 in *; lia).
  destruct v as [a b]. unfold is_u32 in *. cbn [major minor] in *.
  assert (Ea : (u32_max <? a) = false) by (unfold u32_max; lia).
  assert (Eb : (u32_max <? b) = false) by (unfold u32_max; lia). unfold pair_fields.
  do 2 (erewrite fold_fields_cons by (cbn; rewrite ?Ea, ?Eb; reflexivity)).
  cbn. by rewrite !u32_small.
Qed.

Lemma parse_encode_capabilities s r :
  is_u64 s -> is_u64 r -> parse_capabilities (encode_capabilities s r) = success (s, r).
Proof.
  intros Hs Hr. unfold parse_capabilities. rewrite encode_capabilities_fields.
  by rewrite parse_proto_encode by (by apply pair_fields_ok).
Qed.

Lemma parse_encode_signature s : sized 64 s -> parse_signature (encode_signature s) = success s.
Proof.
  intros Hs. unfold parse_signature. rewrite encode_signature_fields, parse_proto_encode by fields_ok.
  destruct Hs as [_ Hl]. cbn. unfold copy_exact. by rewrite Hl.
Qed.

Definition hello_proto_fields (h : SignedSessionHello) : list ProtoField :=
  [bytes_field 1 (encode_device_endpoint (sender h));
   bytes_field 2 (encode_device_endpoint (peer h));
   bytes_field 3 (session_id h);
   uint_field 4 (session_epoch h);
   bytes_field 5 (initiator_nonce h);
   bytes_field 6 (responder_nonce h);
   bytes_field 7 (signaling_transcript_sha256 h);
   bytes_field 8 (encode_protocol_version (protocol_version h));
   bytes_field 9 (encode_capabilities (hello_supported h) (hello_required h));
   uint_field 10 (hello_expires h);
   bytes_field 11 (encode_signature (hello_signature h))].

Lemma encode_hello_eq h :
  encode_signed_session_hello h =
  (let? _ := validate_signed_session_hello h in
   fail_if max_session_hello_bytes <? zlen (encode_fields (hello_proto_fields h))
     with session_error ErrorCode.resource_exhausted "object_too_large";
   success (encode_fields (hello_proto_fields h))).
Proof.
  unfold encode_signed_session_hello.
  match goal with |- context [zlen ?o] =>
    assert (E : o = encode_fields (hello_proto_fields h)) by (unfold hello_proto_fields; fold_writers)
  end.
  by rewrite E.
Qed.

Lemma encode_hello_layout h b :
  encode_signed_session_hello h = success b ->
  validate_signed_session_hello h = success tt /\ b = encode_fields (hello_proto_fields h) /\
  zlen b <= max_session_hello_bytes.
Proof.
  rewrite encode_hello_eq. intros H. apply result_bind_success in H as ([] & Hv & H).
  destruct (max_session_hello_bytes <? _) eqn:Hz; [done |].
  injection H as <-. split_and!; [done | done | lia].
Qed.

Lemma small_key n k : 1 <= n <= 536870911 -> key_typed k -> small (bytes_field n (encode_device_endpoint k)).
Proof.
  intros Hn Hk. rewrite encode_device_endpoint_fields. apply nested_ok; [by apply key_fields_ok | | done | done].
  destruct Hk as [[Hb1 Hl1] [Hb2 Hl2]]. unfold key_fields.
  repeat apply List.Forall_cons; try apply List.Forall_nil;
    (etransitivity; [apply zlen_bytes_field; (done || lia) |]; lia).
Qed.

Lemma small_pair n a b :
  1 <= n <= 536870911 -> is_u64 a -> is_u64 b -> small (bytes_field n (encode_fields (pair_fields a b))).
Proof.
  intros Hn Ha Hb. apply nested_ok; [by apply pair_fields_ok | | done | done]. unfold pair_fields.
  repeat apply List.Forall_cons; try apply List.Forall_nil;
    (etransitivity; [apply zlen_uint_field; (done || lia) |]; lia).
Qed.

Lemma small_signature n s : 1 <= n <= 536870911 -> sized 64 s -> small (bytes_field n (encode_signature s)).
Proof.
  intros Hn [Hb Hl]. rewrite encode_signature_fields.
  apply nested_ok; [| | done | done]; apply List.Forall_cons; try apply List.Forall_nil.
  - apply bytes_field_ok; (done || lia).
  - etransitivity; [apply zlen_bytes_field; (done || lia) |]. lia.
Qed.

Lemma hello_proto_fields_small h : hello_typed h -> Forall small (hello_proto_fields h).
Proof.
  intros (Hs & Hp & H3 & H4 & H5 & H6 & H7 & [Hma Hmi] & [Hsu Hre] & H10 & H11).
  unfold hello_proto_fields. rewrite encode_protocol_version_fields, encode_capabilities_fields.
  apply List.Forall_cons; [by apply small_key |].
  apply List.Forall_cons; [by apply small_key |].
  apply List.Forall_cons; [by eapply small_sized |].
  apply List.Forall_cons; [by apply small_uint |].
  apply List.Forall_cons; [by eapply small_sized |].
  apply List.Forall_cons; [by eapply small_sized |].
  apply List.Forall_cons; [by eapply small_sized |].
  apply List.Forall_cons; [apply small_pair; unfold is_u32, is_u64 in *; lia |].
  apply List.Forall_cons; [by apply small_pair |].
  apply List.Forall_cons; [by apply small_uint |].
  apply List.Forall_cons; [by apply small_signature | apply List.Forall_nil].
Qed.

Lemma hello_proto_fields_ok h : hello_typed h -> Forall field_ok (hello_proto_fields h).
Proof. intros H%hello_proto_fields_small. eapply Forall_impl; [exact H |]. by intros f [? _]. Qed.

(** One turn of the parser on a field it has not seen. *)
Lemma hello_once {A} (field : ProtoField) wire conflict (parse : ProtoField -> Result A) v :
  wire_type field = wire -> parse field = success v -> once None field wire conflict parse = success v.
Proof. intros <- Hp. unfold once. by rewrite Z.eqb_refl. Qed.

Lemma exact_ok n size invalid v :
  sized size v -> exact size invalid (bytes_field n v) = success v.
Proof. intros [_ Hl]. unfold exact, copy_exact. cbn. by rewrite Hl, Z.eqb_refl. Qed.

(** Evaluates one turn of the parser, [t] parsing the field's content. *)
Ltac hello_turn t :=
  unfold hello_step; cbn [number bytes_field uint_field Z.eqb Pos.eqb];
  erewrite hello_once; [cbn [result_bind]; reflexivity | reflexivity | cbn [field_bytes bytes_field integer uint_field]; t].

Lemma fold_hello h :
  hello_typed h ->
  fold_fields hello_step (hello_proto_fields h) no_hello_fields =
  success (mkHelloFields (Some (sender h)) (Some (peer h)) (Some (session_id h))
    (Some (session_epoch h)) (Some (initiator_nonce h)) (Some (responder_nonce h))
    (Some (signaling_transcript_sha256 h)) (Some (protocol_version h))
    (Some (hello_supported h, hello_required h)) (Some (hello_expires h))
    (Some (hello_signature h))).
Proof.
  intros (Hs & Hp & H3 & H4 & H5 & H6 & H7 & H8 & [Hsu Hre] & H10 & H11).
  unfold hello_proto_fields, no_hello_fields.
  do 2 (erewrite fold_fields_cons; [| hello_turn ltac:(apply parse_encode_device_endpoint; done)]).
  erewrite fold_fields_cons; [| hello_turn ltac:(apply exact_ok; done)].
  erewrite fold_fields_cons; [| hello_turn ltac:(reflexivity)].
  do 3 (erewrite fold_fields_cons; [| hello_turn ltac:(apply exact_ok; done)]).
  erewrite fold_fields_cons; [| hello_turn ltac:(apply parse_encode_protocol_version; done)].
  erewrite fold_fields_cons; [| hello_turn ltac:(apply parse_encode_capabilities; done)].
  erewrite fold_fields_cons; [| hello_turn ltac:(reflexivity)].
  erewrite fold_fields_cons; [| hello_turn ltac:(apply parse_encode_signature; done)].
  done.
Qed.

Lemma parse_encode_hello h b :
  hello_typed h -> encode_signed_session_hello h = success b -> parse_signed_session_hello b = success h.
Proof.
  intros Ht (Hv & -> & Hz)%encode_hello_layout. unfold parse_signed_session_hello.
  rewrite (proj2 (Z.ltb_ge max_session_hello_bytes _)) by lia.
  rewrite parse_proto_encode by (by apply hello_proto_fields_ok). rewrite fold_hello by done.
  cbn [result_bind fst snd]. replace (mkHello _ _ _ _ _ _ _ _ _ _ _ _) with h by (by destruct h). by rewrite Hv.
Qed.

#[export] Instance hello_codec : Codec SignedSessionHello := {|
  codec_encode := encode_signed_session_hello;
  codec_parse := parse_signed_session_hello;
  codec_ok := hello_typed;
|}.

#[export] Instance hello_codec_lawful : LawfulCodec SignedSessionHello.
Proof. split. exact parse_encode_hello. Qed.

Lemma parse_device_endpoint_typed payload k :
  bytes_ok payload -> parse_device_endpoint payload = success k -> key_typed k.
Proof.
  unfold parse_device_endpoint. intros Hok H. apply result_bind_success in H as (p & Hp & H).
  apply (parse_proto_invariant (fun p => collected (sized 32) (fst p) /\ collected (sized 16) (snd p)))
    in Hp; [| | done | done].
  { destruct Hp as [H1 H2], p as [[] []]; try done. injection H as <-. split; [by apply H1 | by apply H2]. }
  intros [s1 s2] f s' Hf [H1 H2] Hs. cbn in H1, H2. unfold device_endpoint_step in Hs. inv_step Hs; cbn;
    apply negb_false_iff, Z.eqb_eq in G; eauto using copy_exact_sized.
Qed.

Lemma parse_protocol_version_typed payload v :
  bytes_ok payload -> parse_protocol_version payload = success v -> version_typed v.
Proof.
  unfold parse_protocol_version. intros Hok H. apply result_bind_success in H as (p & Hp & H).
  apply (parse_proto_invariant (fun p => collected is_u32 (fst p) /\ collected is_u32 (snd p)))
    in Hp; [| | done | done].
  { destruct Hp as [H1 H2], p as [[] []]; try done. injection H as <-. split; [by apply H1 | by apply H2]. }
  intros [s1 s2] f s' Hf [H1 H2] Hs. cbn in H1, H2. unfold protocol_version_step in Hs. inv_step Hs; cbn;
    split; eauto; apply collected_some, Z.mod_pos_bound; lia.
Qed.

Lemma parse_capabilities_typed payload c :
  bytes_ok payload -> parse_capabilities payload = success c -> is_u64 (fst c) /\ is_u64 (snd c).
Proof.
  unfold parse_capabilities. intros Hok H. apply result_bind_success in H as (p & Hp & H).
  apply (parse_proto_invariant (fun p => collected is_u64 (fst p) /\ collected is_u64 (snd p)))
    in Hp; [| | done | done].
  { destruct Hp as [H1 H2], p as [[] []]; try done. injection H as <-. split; [by apply H1 | by apply H2]. }
  intros [s1 s2] f s' Hf [H1 H2] Hs. cbn in H1, H2. unfold capabilities_step in Hs. inv_step Hs; cbn;
    apply negb_false_iff, Z.eqb_eq in G; eauto using integer_u64.
Qed.

Lemma parse_signature_typed payload s :
  bytes_ok payload -> parse_signature payload = success s -> sized 64 s.
Proof.
  unfold parse_signature. intros Hok H. apply result_bind_success in H as (p & Hp & H).
  apply (parse_proto_invariant (collected (sized 64))) in Hp; [| | done | done].
  { destruct p; [| done]. injection H as <-. by apply Hp. }
  intros s0 f s' Hf H1 Hs. unfold signature_step in Hs. inv_step Hs.
  apply collected_some. eapply copy_exact_sized; [done | lia | done].
Qed.

(** The types of everything [parse_signed_session_hello] has collected. *)
Definition hello_fields_typed (p : HelloFields) : Prop :=
  collected key_typed (p_sender p) /\ collected key_typed (p_peer p) /\
  collected (sized 16) (p_session_id p) /\ collected is_u64 (p_epoch p) /\
  collected (sized 32) (p_initiator_nonce p) /\ collected (sized 32) (p_responder_nonce p) /\
  collected (sized 32) (p_transcript p) /\ collected version_typed (p_version p) /\
  collected (fun c => is_u64 (fst c) /\ is_u64 (snd c)) (p_capabilities p) /\
  collected is_u64 (p_expiry p) /\ collected (sized 64) (p_signature p).

Lemma once_parsed {A} old f w c (parse : ProtoField -> Result A) v :
  once old f w c parse = success v -> wire_type f = w /\ parse f = success v.
Proof. unfold once. intros H. inv_result H. split; [lia | done]. Qed.

Lemma hello_step_typed p f p' :
  field_ok f -> hello_fields_typed p -> hello_step p f = success p' -> hello_fields_typed p'.
Proof.
  intros Hf (H1 & H2 & H3 & H4 & H5 & H6 & H7 & H8 & H9 & H10 & H11) H.
  destruct p as [i1 i2 i3 i4 i5 i6 i7 i8 i9 i10 i11]. unfold hello_step in H. cbn in *.
  repeat match type of H with (if ?c then _ else _) = _ => destruct c; try discriminate H end;
    apply result_bind_success in H as (v & [Hw Hv]%once_parsed & H); injection H as <-;
    unfold hello_fields_typed; cbn; split_and!; try done; apply collected_some.
  - eauto using parse_device_endpoint_typed, field_bytes_ok.
  - eauto using parse_device_endpoint_typed, field_bytes_ok.
  - eauto using copy_exact_sized.
  - injection Hv as <-. by apply integer_u64.
  - eauto using copy_exact_sized.
  - eauto using copy_exact_sized.
  - eauto using copy_exact_sized.
  - eauto using parse_protocol_version_typed, field_bytes_ok.
  - eauto using parse_capabilities_typed, field_bytes_ok.
  - injection Hv as <-. by apply integer_u64.
  - eauto using parse_signature_typed, field_bytes_ok.
Qed.

Lemma parse_hello_sound payload h :
  bytes_ok payload -> parse_signed_session_hello payload = success h ->
  hello_typed h /\ validate_signed_session_hello h = success tt.
Proof.
  intros Hok H. unfold parse_signed_session_hello in H. destruct (_ <? _); [done |].
  apply result_bind_success in H as (p & Hp & H).
  apply (parse_proto_invariant hello_fields_typed _ _ _ _ _ hello_step_typed Hok) in Hp;
    [| unfold hello_fields_typed; cbn; split_and!; apply collected_none].
  destruct Hp as (H1 & H2 & H3 & H4 & H5 & H6 & H7 & H8 & H9 & H10 & H11).
  destruct p as [[] [] [] [] [] [] [] [] [] [] []]; try discriminate H. cbn in *.
  apply result_bind_success in H as ([] & Hv & H). injection H as <-. split; [| done].
  unfold hello_typed. cbn. split_and!;
    match goal with H : collected ?P (Some ?v) |- context [?v] => apply (H v eq_refl) end.
Qed.

(** The session-hello codec: every well-formed hello has an encoding, which
    is parsed back unchanged; and a hello the parser returns, from any bytes,
    has members of their exact sizes and passes validation. *)
Theorem session_hello_codec :
  (forall h, hello_typed h -> validate_signed_session_hello h = success tt ->
     exists b, encode_signed_session_hello h = success b /\ parse_signed_session_hello b = success h) /\
  (forall payload h, bytes_ok payload -> parse_signed_session_hello payload = success h ->
     hello_typed h /\ validate_signed_session_hello h = success tt).
Proof.
  split; [| apply parse_hello_sound]. intros h Ht Hv.
  assert (He : encode_signed_session_hello h = success (encode_fields (hello_proto_fields h))).
  { rewrite encode_hello_eq, Hv. cbn [result_bind].
    assert (Hz : zlen (encode_fields (hello_proto_fields h)) <= 300 * 11).
    { apply (encode_fields_bound 300 (hello_proto_fields h)).
      eapply Forall_impl; [by apply hello_proto_fields_small |]. by intros f [_ ?]. }
    rewrite (proj2 (Z.ltb_ge max_session_hello_bytes _)); [done |]. unfold max_session_hello_bytes. lia. }
  eexists. split; [exact He |]. by apply parse_encode_hello.
Qed.

(** A sender id of the wrong length is reported with the two tokens exchanged:
    the call passes the component where the detail belongs. *)
Definition short_device_endpoint : list Z := append_bytes [] 1 (repeat 7 31).

(** The length errors of the hello parsers name the wrong component: a
    device id of 31 bytes is rejected with the component
    endpoint_device_id_invalid and the detail session_hello, where every other
    error of the module carries the component session_hello. *)
Theorem endpoint_error_tokens_swapped :
  parse_device_endpoint short_device_endpoint =
    failure (make_error ErrorCode.protocol "endpoint_device_id_invalid" "session_hello") /\
  parse_device_endpoint [] =
    failure (make_error ErrorCode.protocol "session_hello" "endpoint_field_missing").
Proof. split; vm_compute; reflexivity. Qed.

(** ** Admission *)

(** The fields of [hello] signaling already agreed on. *)
Definition bound_to (hello : SignedSessionHello) (e : SessionHelloExpectation) : Prop :=
  sender hello = expected_sender e /\ peer hello = expected_peer e /\
  session_id hello = expected_session_id e /\ initiator_nonce hello = expected_initiator_nonce e /\
  responder_nonce hello = expected_responder_nonce e /\
  signaling_transcript_sha256 hello = expected_transcript e.

Lemma matches_expectation_bound hello e : matches_expectation_except_epoch hello e = true <-> bound_to hello e.
Proof.
  unfold matches_expectation_except_epoch, bound_to. rewrite !andb_true_iff, !key_eqb_eq, !bytes_eqb_eq. tauto.
Qed.

Definition hello_protocol (hello : SignedSessionHello) : ProtocolHello :=
  mkProtocolHello (protocol_version hello) (hello_supported hello) (hello_required hello).

Section admission.
Context `{Sodium}.

(** Signed by the expected sender for this session. *)
Definition genuine (a : SessionHelloAdmission) (payload : list Z) (hello : SignedSessionHello) : Prop :=
  parse_signed_session_hello payload = success hello /\
  verify_signature_and_identity hello (sender_public_key_ a) = success tt /\
  bound_to hello (expectation_ a).

(** What [admit] promises: a genuine hello of an earlier epoch is late; the
    first genuine hello of the expected epoch, in its validity window and with
    a protocol in common, is accepted and recorded; the same bytes again are a
    duplicate; everything else is an error, and nothing but acceptance changes
    the state. *)
Inductive admission_spec (a : SessionHelloAdmission) (payload : list Z) (now : Z)
    : Result SessionHelloAdmissionOutcome * SessionHelloAdmission -> Prop :=
  | spec_late hello :
      genuine a payload hello -> session_epoch hello < expected_epoch (expectation_ a) ->
      admission_spec a payload now (success (mkOutcome SessionHelloAdmissionAction.late_epoch None), a)
  | spec_duplicate hello :
      genuine a payload hello -> session_epoch hello = expected_epoch (expectation_ a) ->
      accepted_payload_ a = Some payload ->
      admission_spec a payload now
        (success (mkOutcome SessionHelloAdmissionAction.duplicate (negotiated_protocol_ a)), a)
  | spec_accepted hello n :
      genuine a payload hello -> session_epoch hello = expected_epoch (expectation_ a) ->
      accepted_payload_ a = None ->
      validate_signed_expiry (hello_expires hello) now = success tt ->
      negotiate_protocol (local_protocol_ a) (hello_protocol hello) = success n ->
      admission_spec a payload now
        (success (mkOutcome SessionHelloAdmissionAction.accepted (Some n)),
         mkAdmission (expectation_ a) (sender_public_key_ a) (local_protocol_ a) (Some payload) (Some n))
  | spec_rejected e :
      (forall hello, genuine a payload hello ->
         expected_epoch (expectation_ a) <= session_epoch hello /\
         (session_epoch hello = expected_epoch (expectation_ a) ->
          accepted_payload_ a <> Some payload /\
          (accepted_payload_ a = None ->
           validate_signed_expiry (hello_expires hello) now = success tt ->
           has_value (negotiate_protocol (local_protocol_ a) (hello_protocol hello)) = false))) ->
      admission_spec a payload now (failure e, a).

Lemma admit_refines a payload now : admission_spec a payload now (admit_hello a payload now).
Proof.
  unfold admit_hello.
  destruct (parse_signed_session_hello payload) as [hello |] eqn:Hp;
    [| apply spec_rejected; intros h (? & _); congruence].
  destruct (verify_signature_and_identity hello (sender_public_key_ a)) as [[] |] eqn:Hv;
    [| apply spec_rejected; intros h (? & ? & _); congruence].
  destruct (matches_expectation_except_epoch hello (expectation_ a)) eqn:Hm; cbn [negb];
    [| apply spec_rejected; intros h (? & ? & Hb%matches_expectation_bound); congruence].
  apply matches_expectation_bound in Hm.
  assert (Hg : genuine a payload hello) by done.
  assert (Hu : forall h, genuine a payload h -> h = hello) by (intros h (? & _); congruence).
  destruct (Z.ltb_spec (session_epoch hello) (expected_epoch (expectation_ a))); [by eapply spec_late |].
  destruct (Z.ltb_spec (expected_epoch (expectation_ a)) (session_epoch hello));
    [apply spec_rejected; intros h ->%Hu; lia |].
  assert (He : session_epoch hello = expected_epoch (expectation_ a)) by lia.
  destruct (accepted_payload_ a) as [acc |] eqn:Ha.
  { destruct (bytes_eqb payload acc) eqn:Hb.
    - apply bytes_eqb_eq in Hb as ->. by eapply spec_duplicate.
    - apply spec_rejected. intros h ->%Hu. split; [lia |]. intros _. rewrite Ha. split; [| done].
      intros [= ->]. by rewrite bytes_eqb_refl in Hb. }
  destruct (validate_signed_expiry (hello_expires hello) now) as [[] |] eqn:Hx;
    [| apply spec_rejected; intros h ->%Hu; split; [lia |]; intros _; rewrite Ha, Hx; done].
  destruct (negotiate_protocol _ _) as [n |] eqn:Hn; [by eapply spec_accepted |].
  apply spec_rejected. intros h ->%Hu. split; [lia |]. intros _. rewrite Ha. split; [done |]. intros _ _.
  unfold hello_protocol. by rewrite Hn.
Qed.

(** C33. [SessionHelloAdmission::admit] refines its contract: on every payload,
    at every time and in every state, its outcome and its next state are the
    ones the specification allows. *)
Theorem admission_refines_spec a payload now : admission_spec a payload now (admit_hello a payload now).
Proof. apply admit_refines. Qed.

(** A history of hellos on one transport. *)
Fixpoint admit_all (a : SessionHelloAdmission) (inputs : list (list Z * Z))
    : list (Result SessionHelloAdmissionOutcome) * SessionHelloAdmission :=
  match inputs with
  | [] => ([], a)
  | (payload, now) :: rest =>
      let '(r, a1) := admit_hello a payload now in
      let '(rs, a2) := admit_all a1 rest in (r :: rs, a2)
  end.

Definition is_accepted (r : Result SessionHelloAdmissionOutcome) : bool :=
  match r with
  | success (mkOutcome SessionHelloAdmissionAction.accepted _) => true
  | _ => false
  end.

Definition accepted_count (rs : list (Result SessionHelloAdmissionOutcome)) : nat :=
  length (List.filter is_accepted rs).

(** Every outcome that grants a session grants protocol [n]. *)
Definition grants_only (n : NegotiatedProtocol) (rs : list (Result SessionHelloAdmissionOutcome)) : Prop :=
  Forall (fun r => forall o, r = success o -> action o <> SessionHelloAdmissionAction.late_epoch ->
    outcome_protocol o = Some n) rs.

Lemma admit_authenticated a payload now p n :
  accepted_payload_ a = Some p -> negotiated_protocol_ a = Some n ->
  exists r, admit_hello a payload now = (r, a) /\ is_accepted r = false /\ grants_only n [r].
Proof.
  intros Ha Hn. destruct (admit_refines a payload now); [.. | congruence | ];
    eexists; (split; [done |]); (split; [done |]); apply List.Forall_cons; try apply List.Forall_nil.
  - by intros o [= <-].
  - by intros o [= <-].
  - by intros o.
Qed.

Lemma admit_all_authenticated a inputs p n :
  accepted_payload_ a = Some p -> negotiated_protocol_ a = Some n ->
  exists rs, admit_all a inputs = (rs, a) /\ accepted_count rs = 0%nat /\ grants_only n rs.
Proof.
  intros Ha Hn. induction inputs as [| [payload now] rest (rs & E & Hc & Hg)]; cbn [admit_all].
  { exists []. split; [done |]. split; [done |]. apply List.Forall_nil. }
  destruct (admit_authenticated a payload now p n Ha Hn) as (r & -> & Hr & Hr2). rewrite E.
  exists (r :: rs). split; [done |]. unfold accepted_count. cbn. rewrite Hr. split; [done |].
  by apply (Forall_app_2 _ [r] rs).
Qed.

(** What an accepted hello has proved, relative to the fresh state [a0]. *)
Definition admitted_by (a0 : SessionHelloAdmission) (inputs : list (list Z * Z))
    (rs : list (Result SessionHelloAdmissionOutcome)) (a : SessionHelloAdmission) : Prop :=
  exists payload now hello n,
    In (payload, now) inputs /\ genuine a0 payload hello /\
    session_epoch hello = expected_epoch (expectation_ a0) /\
    validate_signed_expiry (hello_expires hello) now = success tt /\
    negotiate_protocol (local_protocol_ a0) (hello_protocol hello) = success n /\
    a = mkAdmission (expectation_ a0) (sender_public_key_ a0) (local_protocol_ a0) (Some payload) (Some n) /\
    accepted_count rs = 1%nat /\ grants_only n rs.

Lemma admit_all_fresh a inputs :
  accepted_payload_ a = None -> negotiated_protocol_ a = None ->
  let '(rs, a') := admit_all a inputs in
  (a' = a /\ accepted_count rs = 0%nat) \/ admitted_by a inputs rs a'.
Proof.
  intros Ha Hn.
  enough (Hgen : let '(rs, a') := admit_all a inputs in
    (a' = a /\ accepted_count rs = 0%nat /\ forall n, grants_only n rs) \/ admitted_by a inputs rs a').
  { destruct (admit_all a inputs). intuition. }
  induction inputs as [| [payload now] rest IH]; cbn [admit_all].
  { left. split; [done |]. split; [done |]. intros n. apply List.Forall_nil. }
  assert (Hskip : forall r, is_accepted r = false -> (forall n, grants_only n [r]) ->
    let '(rs, a') := (let '(rs, a2) := admit_all a rest in (r :: rs, a2)) in
    (a' = a /\ accepted_count rs = 0%nat /\ forall n, grants_only n rs) \/ admitted_by a ((payload, now) :: rest) rs a').
  { intros r Hr Hg. destruct (admit_all a rest) as [rs a2].
    destruct IH as [(-> & Hc & Hgs) | (p & t & h & n & Hin & Hge & He & Hx & Hng & -> & Hc & Hgs)].
    - left. split; [done |]. unfold accepted_count. cbn. rewrite Hr. split; [done |].
      intros n. apply (Forall_app_2 _ [r] rs); [apply Hg | apply Hgs].
    - right. exists p, t, h, n. split; [by right |]. do 5 (split; [done |]).
      unfold accepted_count. cbn. rewrite Hr. split; [done |].
      apply (Forall_app_2 _ [r] rs); [apply Hg | apply Hgs]. }
  assert (Hlift : forall r, (forall o, r = success o -> action o = SessionHelloAdmissionAction.late_epoch) ->
    forall n, grants_only n [r]).
  { intros r Hr n. apply List.Forall_cons; [| apply List.Forall_nil]. intros o E%Hr. by rewrite E. }
  destruct (admit_refines a payload now) as [hello Hg He | hello Hg He Hp | hello n Hg He _ Hx Hng | e _].
  - apply Hskip; [done |]. apply Hlift. by intros o [= <-].
  - congruence.
  - match goal with |- context [admit_all ?s rest] =>
      destruct (admit_all_authenticated s rest payload n eq_refl eq_refl) as (rs & -> & Hc & Hgs) end.
    right. exists payload, now, hello, n. split; [by left |]. do 5 (split; [done |]).
    unfold accepted_count in *. cbn. split; [by rewrite Hc |].
    apply List.Forall_cons; [| done]. by intros o [= <-].
  - apply Hskip; [done |]. apply Hlift. by intros o.
Qed.

(** C3. A transport authenticates at most once, and only its expected peer:
    over any history of received hellos, in any order and at any times, either
    none is accepted and the state is the initial one, or exactly one is. That
    one parses, carries a signature of the expected sender's key whose hash is
    its device id, matches session, epoch, nonces and transcript, was within
    its validity window on arrival and has a protocol in common; and every
    later duplicate is granted that same protocol. *)
Theorem admission_history expectation key local inputs :
  let a0 := new_admission expectation key local in
  let '(rs, a) := admit_all a0 inputs in
  (authenticated a = false /\ a = a0 /\ accepted_count rs = 0%nat) \/
  (authenticated a = true /\ admitted_by a0 inputs rs a).
Proof.
  intros a0. assert (Hf := admit_all_fresh a0 inputs eq_refl eq_refl).
  destruct (admit_all a0 inputs) as [rs a]. destruct Hf as [[-> Hc] | Hadm]; [left | right].
  - done.
  - split; [| done]. destruct Hadm as (? & ? & ? & ? & _ & _ & _ & _ & _ & -> & _). done.
Qed.

End admission.

Section admission_complete.
Context `{SodiumLaws}.

(** What a hello signed by its sender gets, at any time. *)
Lemma honest_hello_admitted a i h h' b now later n :
  hello_typed h -> identity_ok i -> sign_signed_session_hello h i = success h' ->
  encode_signed_session_hello h' = success b ->
  accepted_payload_ a = None -> sender_public_key_ a = public_key_ i -> bound_to h (expectation_ a) ->
  session_epoch h = expected_epoch (expectation_ a) ->
  validate_signed_expiry (hello_expires h) now = success tt ->
  negotiate_protocol (local_protocol_ a) (hello_protocol h) = success n ->
  let '(r, a') := admit_hello a b now in
  r = success (mkOutcome SessionHelloAdmissionAction.accepted (Some n)) /\
  admit_hello a' b later = (success (mkOutcome SessionHelloAdmissionAction.duplicate (Some n)), a').
Proof.
  intros Ht Hi Hs He Hacc Hkey Hbound Hep Hexp Hneg.
  unfold sign_signed_session_hello in Hs. inv_result Hs.
  apply negb_false_iff, bytes_eqb_eq in G. unfold canonical_signed_session_hello in E.
  apply result_bind_success in E as ([] & Hval & E).
  destruct (identity_sign_verify _ _ _ Hi E0) as (Hv & Hsz). destruct Hi as (_ & _ & Hd).
  assert (Hparse : parse_signed_session_hello b = success (with_hello_signature h r0)).
  { apply parse_encode_hello; [| done]. destruct Ht as (? & ? & ? & ? & ? & ? & ? & ? & ? & ? & _).
    unfold hello_typed. cbn. done. }
  assert (Hver : verify_signature_and_identity (with_hello_signature h r0) (public_key_ i) = success tt).
  { unfold verify_signature_and_identity.
    change (session_hello_fields (with_hello_signature h r0)) with (session_hello_fields h).
    rewrite E. cbn [result_bind hello_signature with_hello_signature sender].
    by rewrite Hv, Hd, G, bytes_eqb_refl. }
  assert (Hm := proj2 (matches_expectation_bound (with_hello_signature h r0) (expectation_ a)) Hbound).
  assert (Hadm : forall s t, expectation_ s = expectation_ a -> sender_public_key_ s = public_key_ i ->
    admit_hello s b t = match accepted_payload_ s with
      | Some accepted => if bytes_eqb b accepted
          then (success (mkOutcome SessionHelloAdmissionAction.duplicate (negotiated_protocol_ s)), s)
          else (failure (session_error ErrorCode.authentication "conflicting_duplicate"), s)
      | None => match validate_signed_expiry (hello_expires h) t with
          | failure e => (failure e, s)
          | success _ => match negotiate_protocol (local_protocol_ s) (hello_protocol h) with
              | failure e => (failure e, s)
              | success negotiated => (success (mkOutcome SessionHelloAdmissionAction.accepted (Some negotiated)),
                  mkAdmission (expectation_ s) (sender_public_key_ s) (local_protocol_ s) (Some b) (Some negotiated))
              end
          end
      end).
  { intros s t Es Ek. unfold admit_hello. rewrite Hparse, Ek, Hver, Es, Hm. cbn [negb session_epoch with_hello_signature].
    by rewrite Hep, Z.ltb_irrefl. }
  rewrite (Hadm a now eq_refl Hkey), Hacc, Hexp, Hneg. split; [done |].
  rewrite Hadm by done. cbn. by rewrite bytes_eqb_refl.
Qed.

(** An honest peer is admitted: a hello that its sender signed for the
    expected session, encoded and delivered within its validity window to a
    transport with a protocol in common, is accepted with that protocol; the
    same bytes again, at any later time, are a duplicate. *)
Theorem honest_hello_accepted a i h h' b now later n :
  hello_typed h -> identity_ok i -> sign_signed_session_hello h i = success h' ->
  encode_signed_session_hello h' = success b ->
  accepted_payload_ a = None -> sender_public_key_ a = public_key_ i -> bound_to h (expectation_ a) ->
  session_epoch h = expected_epoch (expectation_ a) ->
  validate_signed_expiry (hello_expires h) now = success tt ->
  negotiate_protocol (local_protocol_ a) (hello_protocol h) = success n ->
  let '(r, a') := admit_hello a b now in
  r = success (mkOutcome SessionHelloAdmissionAction.accepted (Some n)) /\
  admit_hello a' b later = (success (mkOutcome SessionHelloAdmissionAction.duplicate (Some n)), a').
Proof. apply honest_hello_admitted. Qed.

End admission_complete.

(** ** Witnesses *)

Definition sample_hello : SignedSessionHello :=
  mkHello (mkDeviceEndpointKey (repeat 5 32) (repeat 2 16)) (mkDeviceEndpointKey (repeat 6 32) (repeat 3 16))
    (repeat 7 16) 2 (repeat 8 32) (repeat 9 32) (repeat 10 32) (mkProtocolVersion 1 1)
    protocol_1_1_capability_bits (capability_bit Capability.session) 100000 (repeat 0 64).

Definition sample_signer : IdentityKeyPair :=
  mkIdentityKeyPair (repeat 5 32) (repeat 5 32) (repeat 5 64).

Definition sample_expectation : SessionHelloExpectation :=
  mkExpectation (sender sample_hello) (peer sample_hello) (session_id sample_hello) 2
    (initiator_nonce sample_hello) (responder_nonce sample_hello) (signaling_transcript_sha256 sample_hello).

Definition sample_local : ProtocolHello :=
  mkProtocolHello (mkProtocolVersion 1 3) known_capability_bits (capability_bit Capability.session).

Definition signed_hello : SignedSessionHello :=
  match @sign_signed_session_hello toy_sodium sample_hello sample_signer with
  | success h => h
  | failure _ => sample_hello
  end.

Definition signed_bytes : list Z :=
  match encode_signed_session_hello signed_hello with success b => b | failure _ => [] end.

Lemma sample_hello_typed : hello_typed sample_hello.
Proof.
  unfold hello_typed, key_typed, version_typed, is_u32, is_u64.
  split_and!; try (apply sized_decide; vm_compute; reflexivity); vm_compute; (reflexivity || discriminate).
Qed.

Lemma honest_hello_accepted_witness :
  let a := new_admission sample_expectation (public_key_ sample_signer) sample_local in
  let n := mkNegotiatedProtocol (mkProtocolVersion 1 1) protocol_1_1_capability_bits in
  let '(r, a') := @admit_hello toy_sodium a signed_bytes 90000 in
  r = success (mkOutcome SessionHelloAdmissionAction.accepted (Some n)) /\
  @admit_hello toy_sodium a' signed_bytes 900000 =
    (success (mkOutcome SessionHelloAdmissionAction.duplicate (Some n)), a').
Proof.
  intros a n.
  apply (@honest_hello_accepted toy_sodium toy_sodium_laws a sample_signer sample_hello signed_hello
           signed_bytes 90000 900000 n).
  - apply sample_hello_typed.
  - exists (repeat 5 32). split; vm_compute; reflexivity.
  - vm_compute. reflexivity.
  - vm_compute. reflexivity.
  - reflexivity.
  - reflexivity.
  - repeat split; reflexivity.
  - reflexivity.
  - vm_compute. reflexivity.
  - vm_compute. reflexivity.
Defined.
