(* ===== verification/SignalingProtocol.v ===== *)
(** * The signaling objects

    [include/heyaki/signaling_protocol.hpp] and [src/core/signaling_protocol.cpp]:
    the signed offer, answer and candidate two endpoints exchange to set up a
    transport, with their validation, signatures and codecs.

    The theorems: the codecs are round trips and total on what validates; what an
    endpoint signs verifies throughout its window; and a verified object was signed
    by the device its binding names, over bytes that determine every member. *)

From Stdlib Require Import ZArith Lia ZifyBool String.
From stdpp Require Import base tactics option list numbers strings.
From S2P Require Import Prelude Errors Varint Identifiers ProtoCodec FieldCodec Security Identity Signing.
#[local] Open Scope Z_scope.

(** [enum class SignalingCandidateOwner]. *)
Module SignalingCandidateOwner.
Inductive SignalingCandidateOwner : Type := initiator | responder.
End SignalingCandidateOwner.
Abbreviation SignalingCandidateOwner := SignalingCandidateOwner.SignalingCandidateOwner.

Module SignalingProtocol.
Import Identifiers ProtoCodec Security Identity Signing.

Definition min_signaling_ice_ufrag_bytes : Z := 4.
Definition max_signaling_ice_ufrag_bytes : Z := 256.
Definition max_signaling_sdp_bytes : Z := 16 * 1024.
Definition max_signaling_candidate_bytes : Z := 1024.
(** [max_lan_signaling_payload_bytes]. *)
Definition max_signaling_object_bytes : Z := 64 * 1024.
Definition kProtoComponent : string := "signaling".

Definition signaling_error (code : ErrorCode) (detail : string) : Error :=
  make_error code "signaling" detail.

Record SignalBinding : Type := mkBinding {
  initiator : DeviceEndpointKey;
  responder : DeviceEndpointKey;
  request_id : list Z;
  session_id : list Z;
  initiator_nonce : list Z;
  binding_expires : Z;
  responder_nonce : option (list Z);
}.

(** [SignedOffer] and [SignedAnswer] have the same members. *)
Record SignedDescription : Type := mkDescription {
  binding : SignalBinding;
  sdp : list Z;
  dtls_fingerprint : list Z;
  description_signature : list Z;
}.
Abbreviation SignedOffer := SignedDescription.
Abbreviation SignedAnswer := SignedDescription.

Record SignedCandidate : Type := mkCandidate {
  candidate_binding : SignalBinding;
  sequence : Z;
  candidate : list Z;
  candidate_transcript : list Z;
  owner_ice_ufrag : list Z;
  owner_dtls_fingerprint : list Z;
  candidate_signature : list Z;
}.

Definition printable_ascii (value : list Z) : bool := forallb (fun b => (0x20 <=? b) && (b <=? 0x7e)) value.

Definition validate_binding_common (b : SignalBinding) : Result unit :=
  fail_if all_zero (key_device_id (initiator b)) || all_zero (key_endpoint_id (initiator b))
          || all_zero (key_device_id (responder b)) || all_zero (key_endpoint_id (responder b))
    with signaling_error ErrorCode.protocol "signaling_binding_identity_zero";
  fail_if key_eqb (initiator b) (responder b)
    with signaling_error ErrorCode.protocol "signaling_binding_self_referential";
  fail_if all_zero (request_id b) || all_zero (session_id b)
    with signaling_error ErrorCode.protocol "signaling_binding_ids_zero";
  fail_if all_zero (initiator_nonce b)
    with signaling_error ErrorCode.protocol "signaling_initiator_nonce_zero";
  fail_if binding_expires b =? 0
    with signaling_error ErrorCode.protocol "signaling_expiry_zero";
  success tt.

Definition ufrag_ok (ufrag : list Z) : bool :=
  negb ((zlen ufrag <? min_signaling_ice_ufrag_bytes) || (max_signaling_ice_ufrag_bytes <? zlen ufrag)
        || negb (printable_ascii ufrag)).

Definition validate_ufrag (ufrag : list Z) : Result unit :=
  fail_if negb (ufrag_ok ufrag) with signaling_error ErrorCode.protocol "signaling_ufrag_invalid";
  success tt.

Definition binding_fields (b : SignalBinding) (require_responder_nonce : bool) : list CanonicalField :=
  [mkCanonicalField 1 (canonical_bytes (key_device_id (initiator b)));
   mkCanonicalField 2 (canonical_bytes (key_endpoint_id (initiator b)));
   mkCanonicalField 3 (canonical_bytes (key_device_id (responder b)));
   mkCanonicalField 4 (canonical_bytes (key_endpoint_id (responder b)));
   mkCanonicalField 5 (canonical_bytes (request_id b));
   mkCanonicalField 6 (canonical_bytes (session_id b));
   mkCanonicalField 7 (initiator_nonce b)]
  ++ match responder_nonce b with
     | Some nonce => if require_responder_nonce then [mkCanonicalField 8 nonce] else []
     | None => []
     end.

Definition offer_fields (offer : SignedOffer) : list CanonicalField :=
  binding_fields (binding offer) false
  ++ [mkCanonicalField 8 (canonical_uint64 (binding_expires (binding offer)));
      mkCanonicalField 9 (sdp offer);
      mkCanonicalField 10 (dtls_fingerprint offer)].

Definition answer_fields (answer : SignedAnswer) : list CanonicalField :=
  binding_fields (binding answer) true
  ++ [mkCanonicalField 9 (canonical_uint64 (binding_expires (binding answer)));
      mkCanonicalField 10 (sdp answer);
      mkCanonicalField 11 (dtls_fingerprint answer)].

Definition candidate_fields (c : SignedCandidate) : list CanonicalField :=
  binding_fields (candidate_binding c) true
  ++ [mkCanonicalField 9 (canonical_uint64 (binding_expires (candidate_binding c)));
      mkCanonicalField 10 (canonical_uint32 (sequence c));
      mkCanonicalField 11 (candidate c);
      mkCanonicalField 12 (candidate_transcript c);
      mkCanonicalField 13 (owner_ice_ufrag c);
      mkCanonicalField 14 (owner_dtls_fingerprint c)].

Definition encode_device_endpoint (endpoint : DeviceEndpointKey) : list Z :=
  let output := append_bytes [] 1 (key_device_id endpoint) in
  append_bytes output 2 (key_endpoint_id endpoint).

Definition encode_signature (signature : list Z) : list Z := append_bytes [] 1 signature.

(** The nested parsers. The last two arguments of [copy_exact] are in the order
    of the source. *)
Definition device_endpoint_step (p : option (list Z) * option (list Z)) (field : ProtoField)
    : Result (option (list Z) * option (list Z)) :=
  let '(device_id, endpoint_id) := p in
  fail_if negb (wire_type field =? 2)
    with signaling_error ErrorCode.protocol "endpoint_field_invalid";
  if (number field =? 1) && negb (seen device_id) then
    let? v := copy_exact (field_bytes field) 32 kProtoComponent "endpoint_device_id_invalid" in
    success (Some v, endpoint_id)
  else if (number field =? 2) && negb (seen endpoint_id) then
    let? v := copy_exact (field_bytes field) 16 kProtoComponent "endpoint_endpoint_id_invalid" in
    success (device_id, Some v)
  else failure (signaling_error ErrorCode.protocol "endpoint_field_conflict").

Definition parse_device_endpoint (payload : list Z) : Result DeviceEndpointKey :=
  let? p := parse_proto device_endpoint_step payload kProtoComponent (None, None) in
  match p with
  | (Some device_id, Some endpoint_id) => success (mkDeviceEndpointKey device_id endpoint_id)
  | _ => failure (signaling_error ErrorCode.protocol "endpoint_field_missing")
  end.

Definition signature_step (p : option (list Z)) (field : ProtoField) : Result (option (list Z)) :=
  fail_if negb (number field =? 1) || negb (wire_type field =? 2) || seen p
          || negb (zlen (field_bytes field) =? ed25519_signature_bytes)
    with signaling_error ErrorCode.protocol "signature_field_invalid";
  success (Some (field_bytes field)).

Definition parse_signature_message (payload : list Z) : Result (list Z) :=
  let? p := parse_proto signature_step payload kProtoComponent None in
  match p with
  | Some signature => success signature
  | None => failure (signaling_error ErrorCode.protocol "signature_field_missing")
  end.

(** The optionals [parse_binding] collects. *)
Record BindingFields : Type := mkBindingFields {
  b_initiator : option DeviceEndpointKey;
  b_responder : option DeviceEndpointKey;
  b_request_id : option (list Z);
  b_session_id : option (list Z);
  b_initiator_nonce : option (list Z);
  b_expires : option Z;
  b_responder_nonce : option (list Z);
}.

Definition no_binding_fields : BindingFields := mkBindingFields None None None None None None None.

(** A field that appears once: its wire type, the conflict token, its content. *)
Definition signal_once {A} (old : option A) (field : ProtoField) (wire : Z) (conflict : string)
    (parse : ProtoField -> Result A) : Result A :=
  fail_if negb (wire_type field =? wire) || seen old
    with signaling_error ErrorCode.protocol conflict;
  parse field.

(** The cases 3, 4, 5 and 7 of [parse_binding], which replace the error of
    [copy_exact] by their own. *)
Definition binding_exact {A} (old : option A) (field : ProtoField) (size : Z) (invalid : string)
    : Result (list Z) :=
  if negb (wire_type field =? 2) || seen old || negb (zlen (field_bytes field) =? size)
  then failure (signaling_error ErrorCode.protocol invalid)
  else success (field_bytes field).

Definition binding_step (p : BindingFields) (field : ProtoField) : Result BindingFields :=
  let '(mkBindingFields i1 i2 i3 i4 i5 i6 i7) := p in
  let n := number field in
  if n =? 1 then
    let? v := signal_once i1 field 2 "binding_endpoint_field_conflict"
                (fun f => parse_device_endpoint (field_bytes f)) in
    success (mkBindingFields (Some v) i2 i3 i4 i5 i6 i7)
  else if n =? 2 then
    let? v := signal_once i2 field 2 "binding_endpoint_field_conflict"
                (fun f => parse_device_endpoint (field_bytes f)) in
    success (mkBindingFields i1 (Some v) i3 i4 i5 i6 i7)
  else if n =? 3 then
    let? v := binding_exact i3 field 16 "binding_request_id_invalid" in
    success (mkBindingFields i1 i2 (Some v) i4 i5 i6 i7)
  else if n =? 4 then
    let? v := binding_exact i4 field 16 "binding_session_id_invalid" in
    success (mkBindingFields i1 i2 i3 (Some v) i5 i6 i7)
  else if n =? 5 then
    let? v := binding_exact i5 field 32 "binding_initiator_nonce_invalid" in
    success (mkBindingFields i1 i2 i3 i4 (Some v) i6 i7)
  else if n =? 6 then
    let? v := signal_once i6 field 0 "binding_expiry_field_conflict" (fun f => success (integer f)) in
    success (mkBindingFields i1 i2 i3 i4 i5 (Some v) i7)
  else if n =? 7 then
    let? v := binding_exact i7 field 32 "binding_responder_nonce_invalid" in
    success (mkBindingFields i1 i2 i3 i4 i5 i6 (Some v))
  else failure (signaling_error ErrorCode.protocol "binding_field_unknown").

Definition parse_binding (payload : list Z) (allow_responder require_responder : bool)
    : Result SignalBinding :=
  let? p := parse_proto binding_step payload kProtoComponent no_binding_fields in
  match p with
  | mkBindingFields (Some initiator) (Some responder) (Some request_id) (Some session_id)
      (Some initiator_nonce) (Some expires) responder_nonce =>
      fail_if seen responder_nonce && negb allow_responder
        with signaling_error ErrorCode.protocol "binding_responder_nonce_unexpected";
      fail_if require_responder && negb (seen responder_nonce)
        with signaling_error ErrorCode.protocol "binding_responder_nonce_missing";
      success (mkBinding initiator responder request_id session_id initiator_nonce expires
                 responder_nonce)
  | _ => failure (signaling_error ErrorCode.protocol "binding_field_missing")
  end.

Definition parse_fingerprint (payload : list Z) (detail : string) : Result (list Z) :=
  copy_exact payload 32 kProtoComponent detail.

(** The checks of the members both descriptions share. *)
Definition validate_description (d : SignedDescription) : Result unit :=
  fail_if (zlen (sdp d) =? 0) || (max_signaling_sdp_bytes <? zlen (sdp d))
    with signaling_error ErrorCode.protocol "signaling_sdp_invalid";
  fail_if all_zero (dtls_fingerprint d)
    with signaling_error ErrorCode.protocol "signaling_fingerprint_zero";
  success tt.

Definition validate_signed_offer (offer : SignedOffer) : Result unit :=
  let? _ := validate_binding_common (binding offer) in
  fail_if seen (responder_nonce (binding offer))
    with signaling_error ErrorCode.protocol "signaling_offer_responder_nonce_present";
  validate_description offer.

(** [!nonce.has_value() || all_zero( *nonce)] *)
Definition nonce_missing (nonce : option (list Z)) : bool :=
  match nonce with None => true | Some nonce => all_zero nonce end.

Definition validate_signed_answer (answer : SignedAnswer) : Result unit :=
  let? _ := validate_binding_common (binding answer) in
  fail_if nonce_missing (responder_nonce (binding answer))
    with signaling_error ErrorCode.protocol "signaling_responder_nonce_missing";
  validate_description answer.

Definition validate_signed_candidate (c : SignedCandidate) : Result unit :=
  let? _ := validate_binding_common (candidate_binding c) in
  fail_if nonce_missing (responder_nonce (candidate_binding c))
    with signaling_error ErrorCode.protocol "signaling_responder_nonce_missing";
  fail_if sequence c =? 0
    with signaling_error ErrorCode.protocol "signaling_candidate_sequence_zero";
  fail_if (zlen (candidate c) =? 0) || (max_signaling_candidate_bytes <? zlen (candidate c))
    with signaling_error ErrorCode.protocol "signaling_candidate_bytes_invalid";
  fail_if all_zero (candidate_transcript c)
    with signaling_error ErrorCode.protocol "signaling_transcript_zero";
  let? _ := validate_ufrag (owner_ice_ufrag c) in
  fail_if all_zero (owner_dtls_fingerprint c)
    with signaling_error ErrorCode.protocol "signaling_fingerprint_zero";
  success tt.

Definition canonical_signed_offer (offer : SignedOffer) : Result (list Z) :=
  let? _ := validate_signed_offer offer in
  canonicalize_for_signature SigningDomain.offer (offer_fields offer).

Definition canonical_signed_answer (answer : SignedAnswer) : Result (list Z) :=
  let? _ := validate_signed_answer answer in
  canonicalize_for_signature SigningDomain.answer (answer_fields answer).

Definition canonical_signed_candidate (c : SignedCandidate) : Result (list Z) :=
  let? _ := validate_signed_candidate c in
  canonicalize_for_signature SigningDomain.candidate (candidate_fields c).

Definition with_description_signature (d : SignedDescription) (s : list Z) : SignedDescription :=
  mkDescription (binding d) (sdp d) (dtls_fingerprint d) s.

Definition with_candidate_signature (c : SignedCandidate) (s : list Z) : SignedCandidate :=
  mkCandidate (candidate_binding c) (sequence c) (candidate c) (candidate_transcript c)
    (owner_ice_ufrag c) (owner_dtls_fingerprint c) s.

(** The three [encode] functions write the binding the same way. *)
Definition encode_binding (b : SignalBinding) : list Z :=
  let output := append_bytes [] 1 (encode_device_endpoint (initiator b)) in
  let output := append_bytes output 2 (encode_device_endpoint (responder b)) in
  let output := append_bytes output 3 (request_id b) in
  let output := append_bytes output 4 (session_id b) in
  let output := append_bytes output 5 (initiator_nonce b) in
  let output := append_uint output 6 (binding_expires b) in
  match responder_nonce b with
  | Some nonce => append_bytes output 7 nonce
  | None => output
  end.

Definition encode_description (d : SignedDescription) : Result (list Z) :=
  let output := append_bytes [] 1 (encode_binding (binding d)) in
  let output := append_bytes output 2 (sdp d) in
  let output := append_bytes output 3 (dtls_fingerprint d) in
  let output := append_bytes output 4 (encode_signature (description_signature d)) in
  fail_if max_signaling_object_bytes <? zlen output
    with signaling_error ErrorCode.protocol "signaling_object_too_large";
  success output.

Definition encode_signed_offer (offer : SignedOffer) : Result (list Z) :=
  let? _ := validate_signed_offer offer in encode_description offer.

Definition encode_signed_answer (answer : SignedAnswer) : Result (list Z) :=
  let? _ := validate_signed_answer answer in encode_description answer.

Definition encode_signed_candidate (c : SignedCandidate) : Result (list Z) :=
  let? _ := validate_signed_candidate c in
  let output := append_bytes [] 1 (encode_binding (candidate_binding c)) in
  let output := append_uint output 2 (sequence c) in
  let output := append_bytes output 3 (candidate c) in
  let output := append_bytes output 4 (candidate_transcript c) in
  let output := append_bytes output 5 (owner_ice_ufrag c) in
  let output := append_bytes output 6 (owner_dtls_fingerprint c) in
  let output := append_bytes output 7 (encode_signature (candidate_signature c)) in
  fail_if max_signaling_object_bytes <? zlen output
    with signaling_error ErrorCode.protocol "signaling_object_too_large";
  success output.

(** The tokens that distinguish the parsers of offers and answers, and their
    arguments of [parse_binding]. *)
Record DescriptionRules : Type := mkDescriptionRules {
  allow_responder : bool;
  require_responder : bool;
  binding_conflict : string;
  sdp_conflict : string;
  fingerprint_conflict : string;
  fingerprint_invalid : string;
  signature_conflict : string;
  unknown_field : string;
  missing_field : string;
}.

Definition offer_parser : DescriptionRules :=
  mkDescriptionRules false false "offer_binding_field_conflict" "offer_sdp_field_conflict"
    "offer_fingerprint_field_conflict" "offer_fingerprint_field_invalid"
    "offer_signature_field_conflict" "offer_field_unknown" "offer_field_missing".

Definition answer_parser : DescriptionRules :=
  mkDescriptionRules true true "answer_binding_field_conflict" "answer_sdp_field_conflict"
    "answer_fingerprint_field_conflict" "answer_fingerprint_field_invalid"
    "answer_signature_field_conflict" "answer_field_unknown" "answer_field_missing".

Record DescriptionFields : Type := mkDescriptionFields {
  d_binding : option SignalBinding;
  d_sdp : option (list Z);
  d_fingerprint : option (list Z);
  d_signature : option (list Z);
}.

Definition description_step (r : DescriptionRules) (p : DescriptionFields) (field : ProtoField)
    : Result DescriptionFields :=
  let '(mkDescriptionFields i1 i2 i3 i4) := p in
  let n := number field in
  if n =? 1 then
    let? v := signal_once i1 field 2 (binding_conflict r)
                (fun f => parse_binding (field_bytes f) (allow_responder r) (require_responder r)) in
    success (mkDescriptionFields (Some v) i2 i3 i4)
  else if n =? 2 then
    let? v := signal_once i2 field 2 (sdp_conflict r) (fun f => success (field_bytes f)) in
    success (mkDescriptionFields i1 (Some v) i3 i4)
  else if n =? 3 then
    let? v := signal_once i3 field 2 (fingerprint_conflict r)
                (fun f => parse_fingerprint (field_bytes f) (fingerprint_invalid r)) in
    success (mkDescriptionFields i1 i2 (Some v) i4)
  else if n =? 4 then
    let? v := signal_once i4 field 2 (signature_conflict r)
                (fun f => parse_signature_message (field_bytes f)) in
    success (mkDescriptionFields i1 i2 i3 (Some v))
  else failure (signaling_error ErrorCode.protocol (unknown_field r)).

Definition parse_description (r : DescriptionRules) (payload : list Z) : Result SignedDescription :=
  fail_if max_signaling_object_bytes <? zlen payload
    with signaling_error ErrorCode.protocol "signaling_object_too_large";
  let? p := parse_proto (description_step r) payload kProtoComponent
              (mkDescriptionFields None None None None) in
  match p with
  | mkDescriptionFields (Some binding) (Some sdp) (Some fingerprint) (Some signature) =>
      success (mkDescription binding sdp fingerprint signature)
  | _ => failure (signaling_error ErrorCode.protocol (missing_field r))
  end.

Definition parse_signed_offer (payload : list Z) : Result SignedOffer :=
  let? offer := parse_description offer_parser payload in
  let? _ := validate_signed_offer offer in
  success offer.

Definition parse_signed_answer (payload : list Z) : Result SignedAnswer :=
  let? answer := parse_description answer_parser payload in
  let? _ := validate_signed_answer answer in
  success answer.

(** The optionals [parse_signed_candidate] collects. *)
Record CandidateFields : Type := mkCandidateFields {
  c_binding : option SignalBinding;
  c_sequence : option Z;
  c_candidate : option (list Z);
  c_transcript : option (list Z);
  c_ufrag : option (list Z);
  c_fingerprint : option (list Z);
  c_signature : option (list Z);
}.

Definition no_candidate_fields : CandidateFields := mkCandidateFields None None None None None None None.

Definition candidate_step (p : CandidateFields) (field : ProtoField) : Result CandidateFields :=
  let '(mkCandidateFields i1 i2 i3 i4 i5 i6 i7) := p in
  let n := number field in
  if n =? 1 then
    let? v := signal_once i1 field 2 "candidate_binding_field_conflict"
                (fun f => parse_binding (field_bytes f) true true) in
    success (mkCandidateFields (Some v) i2 i3 i4 i5 i6 i7)
  else if n =? 2 then
    fail_if negb (wire_type field =? 0) || seen i2 || (u32_max <? integer field)
      with signaling_error ErrorCode.protocol "candidate_sequence_field_invalid";
    success (mkCandidateFields i1 (Some (u32 (integer field))) i3 i4 i5 i6 i7)
  else if n =? 3 then
    let? v := signal_once i3 field 2 "candidate_bytes_field_conflict" (fun f => success (field_bytes f)) in
    success (mkCandidateFields i1 i2 (Some v) i4 i5 i6 i7)
  else if n =? 4 then
    let? v := signal_once i4 field 2 "candidate_transcript_field_conflict"
                (fun f => copy_exact (field_bytes f) 32 kProtoComponent "candidate_transcript_field_invalid") in
    success (mkCandidateFields i1 i2 i3 (Some v) i5 i6 i7)
  else if n =? 5 then
    let? v := signal_once i5 field 2 "candidate_ufrag_field_conflict" (fun f => success (field_bytes f)) in
    success (mkCandidateFields i1 i2 i3 i4 (Some v) i6 i7)
  else if n =? 6 then
    let? v := signal_once i6 field 2 "candidate_fingerprint_field_conflict"
                (fun f => parse_fingerprint (field_bytes f) "candidate_fingerprint_field_invalid") in
    success (mkCandidateFields i1 i2 i3 i4 i5 (Some v) i7)
  else if n =? 7 then
    let? v := signal_once i7 field 2 "candidate_signature_field_conflict"
                (fun f => parse_signature_message (field_bytes f)) in
    success (mkCandidateFields i1 i2 i3 i4 i5 i6 (Some v))
  else failure (signaling_error ErrorCode.protocol "candidate_field_unknown").

Definition parse_signed_candidate (payload : list Z) : Result SignedCandidate :=
  fail_if max_signaling_object_bytes <? zlen payload
    with signaling_error ErrorCode.protocol "signaling_object_too_large";
  let? p := parse_proto candidate_step payload kProtoComponent no_candidate_fields in
  match p with
  | mkCandidateFields (Some binding) (Some sequence) (Some candidate) (Some transcript) (Some ufrag)
      (Some fingerprint) (Some signature) =>
      let parsed := mkCandidate binding sequence candidate transcript ufrag fingerprint signature in
      let? _ := validate_signed_candidate parsed in
      success parsed
  | _ => failure (signaling_error ErrorCode.protocol "candidate_field_missing")
  end.

(** The [while] loop of [parse_sdp_ice_ufrag], one turn per line; every line
    takes at least its terminator, so the length of the text is enough fuel. *)
Definition ufrag_marker : list Z := bytes_of_string "a=ice-ufrag:".

Definition starts_with (prefix text : list Z) : bool :=
  bytes_eqb (take (length prefix) text) prefix.

Definition strip_return (line : list Z) : list Z :=
  if negb (zlen line =? 0) && (List.last line 0 =? 13) then take (length line - 1) line else line.

Fixpoint ufrag_loop (fuel : nat) (rest : list Z) : Result (list Z) :=
  match fuel, rest with
  | S fuel, _ :: _ =>
      let '(line, after) := cut 10 rest in
      let line := strip_return line in
      if starts_with ufrag_marker line then
        let value := drop (length ufrag_marker) line in
        if negb (ufrag_ok value)
        then failure (signaling_error ErrorCode.protocol "sdp_ice_ufrag_invalid")
        else success value
      else match after with
           | None => failure (signaling_error ErrorCode.protocol "sdp_ice_ufrag_missing")
           | Some rest => ufrag_loop fuel rest
           end
  | _, _ => failure (signaling_error ErrorCode.protocol "sdp_ice_ufrag_missing")
  end.

Definition parse_sdp_ice_ufrag (text : list Z) : Result (list Z) := ufrag_loop (length text) text.

Definition signaling_candidate_owner_name (owner : SignalingCandidateOwner) : string :=
  match owner with
  | SignalingCandidateOwner.initiator => "initiator"
  | SignalingCandidateOwner.responder => "responder"
  end.

Section crypto.
Context `{Sodium}.

(** The [sign] functions fill in the signature of their argument. *)
Definition sign_signed_offer (offer : SignedOffer) (identity : IdentityKeyPair) : Result SignedOffer :=
  let? _ := validate_signed_offer offer in
  let? canonical := canonicalize_for_signature SigningDomain.offer (offer_fields offer) in
  let? signature := sign_identity_message identity canonical in
  success (with_description_signature offer signature).

Definition sign_signed_answer (answer : SignedAnswer) (identity : IdentityKeyPair) : Result SignedAnswer :=
  let? _ := validate_signed_answer answer in
  let? canonical := canonicalize_for_signature SigningDomain.answer (answer_fields answer) in
  let? signature := sign_identity_message identity canonical in
  success (with_description_signature answer signature).

Definition sign_signed_candidate (c : SignedCandidate) (identity : IdentityKeyPair)
    : Result SignedCandidate :=
  let? _ := validate_signed_candidate c in
  let? canonical := canonicalize_for_signature SigningDomain.candidate (candidate_fields c) in
  let? signature := sign_identity_message identity canonical in
  success (with_candidate_signature c signature).

Definition verify_signed_object (domain : SigningDomain) (fields : list CanonicalField)
    (signature signer_public_key expected_signer_device : list Z) (expires now : Z) : Result unit :=
  let? canonical := canonicalize_for_signature domain fields in
  let? _ := validate_signed_expiry expires now in
  match verify_identity_signature signer_public_key canonical signature with
  | failure _ => failure (signaling_error ErrorCode.authentication "signaling_signature_invalid")
  | success _ =>
      match derive_device_id signer_public_key with
      | success derived =>
          if bytes_eqb derived expected_signer_device then success tt
          else failure (signaling_error ErrorCode.authentication "signaling_signer_identity_mismatch")
      | failure _ => failure (signaling_error ErrorCode.authentication "signaling_signer_identity_mismatch")
      end
  end.

Definition verify_signed_offer (offer : SignedOffer) (initiator_public_key : list Z) (now : Z) : Result unit :=
  let? _ := validate_signed_offer offer in
  verify_signed_object SigningDomain.offer (offer_fields offer) (description_signature offer)
    initiator_public_key (key_device_id (initiator (binding offer))) (binding_expires (binding offer)) now.

Definition verify_signed_answer (answer : SignedAnswer) (responder_public_key : list Z) (now : Z)
    : Result unit :=
  let? _ := validate_signed_answer answer in
  verify_signed_object SigningDomain.answer (answer_fields answer) (description_signature answer)
    responder_public_key (key_device_id (responder (binding answer))) (binding_expires (binding answer)) now.

Definition verify_signed_candidate (c : SignedCandidate) (owner_public_key : list Z) (now : Z)
    : Result SignalingCandidateOwner :=
  let? _ := validate_signed_candidate c in
  let? canonical := canonicalize_for_signature SigningDomain.candidate (candidate_fields c) in
  let? _ := validate_signed_expiry (binding_expires (candidate_binding c)) now in
  match verify_identity_signature owner_public_key canonical (candidate_signature c) with
  | failure _ => failure (signaling_error ErrorCode.authentication "signaling_signature_invalid")
  | success _ =>
      let? derived := derive_device_id owner_public_key in
      if bytes_eqb derived (key_device_id (initiator (candidate_binding c)))
      then success SignalingCandidateOwner.initiator
      else if bytes_eqb derived (key_device_id (responder (candidate_binding c)))
      then success SignalingCandidateOwner.responder
      else failure (signaling_error ErrorCode.authentication "signaling_signer_identity_mismatch")
  end.

End crypto.

End SignalingProtocol.

Import Identifiers ProtoCodec Security Identity Signing SignalingProtocol.

(** ** The codecs *)

(** The types of the C++ members. *)
Definition binding_typed (b : SignalBinding) : Prop :=
  key_typed (initiator b) /\ key_typed (responder b) /\ sized 16 (request_id b) /\ sized 16 (session_id b) /\
  sized 32 (initiator_nonce b) /\ is_u64 (binding_expires b) /\ collected (sized 32) (responder_nonce b).

Definition description_typed (d : SignedDescription) : Prop :=
  binding_typed (binding d) /\ bytes_ok (sdp d) /\ sized 32 (dtls_fingerprint d) /\
  sized 64 (description_signature d).

Definition candidate_typed (c : SignedCandidate) : Prop :=
  binding_typed (candidate_binding c) /\ is_u32 (sequence c) /\ bytes_ok (candidate c) /\
  sized 32 (candidate_transcript c) /\ bytes_ok (owner_ice_ufrag c) /\ sized 32 (owner_dtls_fingerprint c) /\
  sized 64 (candidate_signature c).

Lemma endpoint_fields k : encode_device_endpoint k = encode_fields (key_fields k).
Proof. unfold encode_device_endpoint, key_fields. fold_writers. Qed.

Lemma signature_fields s : encode_signature s = encode_fields [bytes_field 1 s].
Proof. unfold encode_signature. fold_writers. Qed.

Lemma parse_endpoint_image k :
  key_typed k -> parse_device_endpoint (encode_device_endpoint k) = success k.
Proof.
  intros Hk. unfold parse_device_endpoint. rewrite endpoint_fields, parse_proto_encode by (by apply key_fields_ok).
  destruct k as [d e], Hk as [[_ Hd] [_ He]]. cbn in Hd, He. unfold key_fields. cbn [key_device_id key_endpoint_id].
  do 2 (erewrite fold_fields_cons by (cbn; unfold copy_exact; cbn; rewrite ?Hd, ?He; reflexivity)).
  done.
Qed.

Lemma parse_signature_image s : sized 64 s -> parse_signature_message (encode_signature s) = success s.
Proof.
  intros Hs. unfold parse_signature_message. rewrite signature_fields, parse_proto_encode by fields_ok.
  destruct Hs as [_ Hl]. rewrite (fold_fields_cons _ _ _ _ (Some s)); [reflexivity |].
  unfold signature_step. cbn [number wire_type field_bytes bytes_field seen]. by rewrite Hl.
Qed.

Definition binding_proto_fields (b : SignalBinding) : list ProtoField :=
  [bytes_field 1 (encode_device_endpoint (initiator b));
   bytes_field 2 (encode_device_endpoint (responder b));
   bytes_field 3 (request_id b);
   bytes_field 4 (session_id b);
   bytes_field 5 (initiator_nonce b);
   uint_field 6 (binding_expires b)]
  ++ match responder_nonce b with Some nonce => [bytes_field 7 nonce] | None => [] end.

Lemma encode_binding_fields b : encode_binding b = encode_fields (binding_proto_fields b).
Proof. unfold encode_binding, binding_proto_fields. destruct (responder_nonce b); cbn [app]; fold_writers. Qed.

Lemma small_endpoint n k : 1 <= n <= 536870911 -> key_typed k -> small (bytes_field n (encode_device_endpoint k)).
Proof.
  intros Hn Hk. rewrite endpoint_fields. apply nested_ok; [by apply key_fields_ok | | done | done].
  destruct Hk as [[Hb1 Hl1] [Hb2 Hl2]]. unfold key_fields.
  repeat apply List.Forall_cons; try apply List.Forall_nil;
    (etransitivity; [apply zlen_bytes_field; (done || lia) |]; lia).
Qed.

Lemma small_signature_message n s : 1 <= n <= 536870911 -> sized 64 s -> small (bytes_field n (encode_signature s)).
Proof.
  intros Hn [Hb Hl]. rewrite signature_fields.
  apply nested_ok; [| | done | done]; apply List.Forall_cons; try apply List.Forall_nil.
  - apply bytes_field_ok; (done || lia).
  - etransitivity; [apply zlen_bytes_field; (done || lia) |]. lia.
Qed.

Lemma binding_proto_fields_small b : binding_typed b -> Forall small (binding_proto_fields b).
Proof.
  intros (H1 & H2 & H3 & H4 & H5 & H6 & H7). unfold binding_proto_fields. apply Forall_app. split.
  - apply List.Forall_cons; [by apply small_endpoint |].
    apply List.Forall_cons; [by apply small_endpoint |].
    apply List.Forall_cons; [by eapply small_sized |].
    apply List.Forall_cons; [by eapply small_sized |].
    apply List.Forall_cons; [by eapply small_sized |].
    apply List.Forall_cons; [by apply small_uint | apply List.Forall_nil].
  - destruct (responder_nonce b) as [nonce |]; [| apply List.Forall_nil].
    apply List.Forall_cons; [| apply List.Forall_nil]. eapply small_sized; [lia | by apply H7 | lia].
Qed.

Lemma small_fields fs : Forall small fs -> Forall field_ok fs /\ zlen (encode_fields fs) <= 300 * zlen fs.
Proof.
  intros H. split; [eapply Forall_impl; [exact H |]; by intros f [? _] |].
  apply encode_fields_bound. eapply Forall_impl; [exact H |]. by intros f [_ ?].
Qed.

(** The encoded binding is bytes, and at most 2100 of them. *)
Lemma encode_binding_small b :
  binding_typed b -> bytes_ok (encode_binding b) /\ zlen (encode_binding b) <= 2100.
Proof.
  intros Hb. rewrite encode_binding_fields.
  destruct (small_fields _ (binding_proto_fields_small b Hb)) as [Hok Hz].
  split; [by apply encode_fields_bytes_ok |]. unfold binding_proto_fields in *.
  destruct (responder_nonce b); unfold zlen in *; cbn [length app] in *; lia.
Qed.

Lemma signal_once_new {A} (field : ProtoField) wire conflict (parse : ProtoField -> Result A) v :
  wire_type field = wire -> parse field = success v -> signal_once None field wire conflict parse = success v.
Proof. intros <- Hp. unfold signal_once. by rewrite Z.eqb_refl. Qed.

Lemma signal_once_inv {A} old f w c (parse : ProtoField -> Result A) v :
  signal_once old f w c parse = success v -> wire_type f = w /\ parse f = success v.
Proof. unfold signal_once. intros H. inv_result H. split; [lia | done]. Qed.

Lemma binding_exact_new n size invalid v :
  sized size v -> @binding_exact (list Z) None (bytes_field n v) size invalid = success v.
Proof. intros [_ Hl]. unfold binding_exact. cbn [wire_type field_bytes bytes_field seen]. by rewrite Hl, !Z.eqb_refl. Qed.

Lemma binding_exact_inv {A} (old : option A) f size invalid v :
  field_ok f -> binding_exact old f size invalid = success v -> sized size v.
Proof.
  intros Hf H. unfold binding_exact in H. destruct (_ || _) eqn:E in H; [done |]. injection H as <-.
  split; [| lia]. apply field_bytes_ok; [done | lia].
Qed.

(** One turn of a parser on a field it has not seen, [t] parsing its content. *)
Ltac signal_turn step t :=
  unfold step; cbn [number bytes_field uint_field Z.eqb Pos.eqb];
  first [ erewrite signal_once_new; [cbn [result_bind]; reflexivity | reflexivity |
            cbn [field_bytes bytes_field integer uint_field]; t]
        | rewrite binding_exact_new by t; reflexivity ].

Lemma fold_binding b :
  binding_typed b ->
  fold_fields binding_step (binding_proto_fields b) no_binding_fields =
  success (mkBindingFields (Some (initiator b)) (Some (responder b)) (Some (request_id b))
    (Some (session_id b)) (Some (initiator_nonce b)) (Some (binding_expires b)) (responder_nonce b)).
Proof.
  intros (H1 & H2 & H3 & H4 & H5 & H6 & H7). unfold binding_proto_fields, no_binding_fields. cbn [app].
  do 2 (erewrite fold_fields_cons; [| signal_turn binding_step ltac:(by apply parse_endpoint_image)]).
  do 3 (erewrite fold_fields_cons; [| signal_turn binding_step ltac:(done)]).
  erewrite fold_fields_cons; [| signal_turn binding_step ltac:(reflexivity)].
  destruct (responder_nonce b) as [nonce |]; [| done].
  erewrite fold_fields_cons; [| signal_turn binding_step ltac:(by apply H7)]. done.
Qed.

Lemma parse_binding_image b allow require :
  binding_typed b -> (seen (responder_nonce b) = true -> allow = true) ->
  (require = true -> seen (responder_nonce b) = true) ->
  parse_binding (encode_binding b) allow require = success b.
Proof.
  intros Hb Ha Hr. unfold parse_binding. rewrite encode_binding_fields, parse_proto_encode
    by (by apply small_fields, binding_proto_fields_small).
  rewrite fold_binding by done. cbn [result_bind]. destruct b as [i r req ses n e [rn |]]; cbn in *.
  - rewrite Ha by done. by rewrite andb_false_r.
  - destruct require; [by specialize (Hr eq_refl) | done].
Qed.

Definition description_proto_fields (d : SignedDescription) : list ProtoField :=
  [bytes_field 1 (encode_binding (binding d)); bytes_field 2 (sdp d);
   bytes_field 3 (dtls_fingerprint d); bytes_field 4 (encode_signature (description_signature d))].

(** A description the parser of [r] admits, with an SDP of legal size. *)
Definition description_fits (r : DescriptionRules) (d : SignedDescription) : Prop :=
  description_typed d /\ zlen (sdp d) <= max_signaling_sdp_bytes /\
  (seen (responder_nonce (binding d)) = true -> allow_responder r = true) /\
  (require_responder r = true -> seen (responder_nonce (binding d)) = true).

Lemma encode_description_image d :
  description_typed d -> zlen (sdp d) <= max_signaling_sdp_bytes ->
  encode_description d = success (encode_fields (description_proto_fields d)) /\
  Forall field_ok (description_proto_fields d) /\
  zlen (encode_fields (description_proto_fields d)) <= max_signaling_object_bytes.
Proof.
  intros (Hb & Hs & [Bf Lf] & Hg) Hz. destruct (encode_binding_small _ Hb) as [Bb Lb].
  destruct (small_signature_message 4 _ ltac:(lia) Hg) as [Og Lg].
  unfold max_signaling_sdp_bytes in Hz.
  assert (Hsize : zlen (encode_fields (description_proto_fields d)) <= max_signaling_object_bytes).
  { unfold description_proto_fields, encode_fields. cbn [map concat]. rewrite !zlen_app, zlen_nil.
    assert (L1 := zlen_bytes_field 1 _ ltac:(lia) Bb ltac:(lia)).
    assert (L2 := zlen_bytes_field 2 _ ltac:(lia) Hs ltac:(lia)).
    assert (L3 := zlen_bytes_field 3 _ ltac:(lia) Bf ltac:(lia)). unfold max_signaling_object_bytes. lia. }
  split_and!; [| | done].
  - unfold encode_description.
    match goal with |- context [zlen ?o] =>
      assert (E : o = encode_fields (description_proto_fields d)) by (unfold description_proto_fields; fold_writers)
    end.
    rewrite E. by rewrite (proj2 (Z.ltb_ge max_signaling_object_bytes _)) by lia.
  - unfold description_proto_fields.
    repeat apply List.Forall_cons; try apply List.Forall_nil; try (apply bytes_field_ok; (done || lia)). done.
Qed.

Lemma parse_description_image r d :
  description_fits r d -> parse_description r (encode_fields (description_proto_fields d)) = success d.
Proof.
  intros (Ht & Hz & Ha & Hr). destruct (encode_description_image d Ht Hz) as (_ & Hok & Hsize).
  destruct Ht as (Hb & Hs & Hf & Hg). unfold parse_description.
  rewrite (proj2 (Z.ltb_ge max_signaling_object_bytes _)) by lia. rewrite parse_proto_encode by done.
  unfold description_proto_fields.
  erewrite fold_fields_cons; [| signal_turn description_step ltac:(by apply parse_binding_image)].
  erewrite fold_fields_cons; [| signal_turn description_step ltac:(reflexivity)].
  erewrite fold_fields_cons; [| signal_turn description_step
    ltac:(unfold parse_fingerprint, copy_exact; rewrite (proj2 Hf); reflexivity)].
  erewrite fold_fields_cons; [| signal_turn description_step ltac:(by apply parse_signature_image)].
  by destruct d.
Qed.

Lemma parse_endpoint_typed payload k :
  bytes_ok payload -> parse_device_endpoint payload = success k -> key_typed k.
Proof.
  unfold parse_device_endpoint. intros Hok H. apply result_bind_success in H as (p & Hp & H).
  apply (parse_proto_invariant (fun p => collected (sized 32) (fst p) /\ collected (sized 16) (snd p)))
    in Hp; [| | done | done].
  { destruct Hp as [H1 H2], p as [[] []]; try done. injection H as <-. split; [by apply H1 | by apply H2]. }
  intros [s1 s2] f s' Hf [H1 H2] Hs. cbn in H1, H2. unfold device_endpoint_step in Hs. inv_step Hs; cbn;
    apply negb_false_iff, Z.eqb_eq in G; eauto using copy_exact_sized.
Qed.

Lemma parse_signature_message_typed payload s :
  bytes_ok payload -> parse_signature_message payload = success s -> sized 64 s.
Proof.
  unfold parse_signature_message. intros Hok H. apply result_bind_success in H as (p & Hp & H).
  apply (parse_proto_invariant (collected (sized 64))) in Hp; [| | done | done].
  { destruct p; [| done]. injection H as <-. by apply Hp. }
  intros s0 f s' Hf H1 Hs. unfold signature_step in Hs. inv_step Hs.
  apply collected_some. unfold ed25519_signature_bytes in *. split; [apply field_bytes_ok; [done | lia] | lia].
Qed.

Definition binding_fields_typed (p : BindingFields) : Prop :=
  collected key_typed (b_initiator p) /\ collected key_typed (b_responder p) /\
  collected (sized 16) (b_request_id p) /\ collected (sized 16) (b_session_id p) /\
  collected (sized 32) (b_initiator_nonce p) /\ collected is_u64 (b_expires p) /\
  collected (sized 32) (b_responder_nonce p).

Lemma binding_step_typed p f p' :
  field_ok f -> binding_fields_typed p -> binding_step p f = success p' -> binding_fields_typed p'.
Proof.
  intros Hf (H1 & H2 & H3 & H4 & H5 & H6 & H7) H.
  destruct p as [i1 i2 i3 i4 i5 i6 i7]. unfold binding_step in H. cbn in *.
  repeat match type of H with (if ?c then _ else _) = _ => destruct c; try discriminate H end;
    apply result_bind_success in H as (v & Hv & H); injection H as <-;
    unfold binding_fields_typed; cbn; split_and!; try done; apply collected_some;
    try (by eapply binding_exact_inv); apply signal_once_inv in Hv as [Hw Hv].
  - eauto using parse_endpoint_typed, field_bytes_ok.
  - eauto using parse_endpoint_typed, field_bytes_ok.
  - injection Hv as <-. by apply integer_u64.
Qed.

Lemma parse_binding_sound payload allow require b :
  bytes_ok payload -> parse_binding payload allow require = success b ->
  binding_typed b /\ (seen (responder_nonce b) = true -> allow = true) /\
  (require = true -> seen (responder_nonce b) = true).
Proof.
  intros Hok H. unfold parse_binding in H. apply result_bind_success in H as (p & Hp & H).
  apply (parse_proto_invariant binding_fields_typed _ _ _ _ _ binding_step_typed Hok) in Hp;
    [| unfold binding_fields_typed; cbn; split_and!; apply collected_none].
  destruct Hp as (H1 & H2 & H3 & H4 & H5 & H6 & H7).
  destruct p as [[] [] [] [] [] [] rn]; try discriminate H. cbn in *.
  destruct (seen rn && negb allow) eqn:Ea in H; [done |]. destruct (require && negb (seen rn)) eqn:Er in H; [done |].
  injection H as <-. cbn. split_and!.
  - unfold binding_typed. cbn. split_and!;
      first [ match goal with H : collected ?P (Some ?v) |- context [?v] => apply (H v eq_refl) end | done ].
  - intros E. rewrite E in Ea. by destruct allow.
  - intros ->. by destruct (seen rn).
Qed.

Definition description_fields_typed (r : DescriptionRules) (p : DescriptionFields) : Prop :=
  collected (fun b => binding_typed b /\ (seen (responder_nonce b) = true -> allow_responder r = true) /\
    (require_responder r = true -> seen (responder_nonce b) = true)) (d_binding p) /\
  collected bytes_ok (d_sdp p) /\ collected (sized 32) (d_fingerprint p) /\ collected (sized 64) (d_signature p).

Lemma description_step_typed r p f p' :
  field_ok f -> description_fields_typed r p -> description_step r p f = success p' -> description_fields_typed r p'.
Proof.
  intros Hf (H1 & H2 & H3 & H4) H. destruct p as [i1 i2 i3 i4]. unfold description_step in H. cbn in *.
  repeat match type of H with (if ?c then _ else _) = _ => destruct c; try discriminate H end;
    apply result_bind_success in H as (v & [Hw Hv]%signal_once_inv & H); injection H as <-;
    unfold description_fields_typed; cbn; split_and!; try done; apply collected_some.
  - eauto using parse_binding_sound, field_bytes_ok.
  - injection Hv as <-. by apply field_bytes_ok.
  - unfold parse_fingerprint in Hv. eauto using copy_exact_sized.
  - eauto using parse_signature_message_typed, field_bytes_ok.
Qed.

Lemma parse_description_sound r payload d :
  bytes_ok payload -> parse_description r payload = success d ->
  description_typed d /\ (seen (responder_nonce (binding d)) = true -> allow_responder r = true) /\
  (require_responder r = true -> seen (responder_nonce (binding d)) = true).
Proof.
  intros Hok H. unfold parse_description in H. destruct (_ <? _); [done |].
  apply result_bind_success in H as (p & Hp & H).
  apply (parse_proto_invariant (description_fields_typed r) _ _ _ _ _ (description_step_typed r) Hok) in Hp;
    [| unfold description_fields_typed; cbn; split_and!; apply collected_none].
  destruct Hp as (H1 & H2 & H3 & H4). destruct p as [[b |] [] [] []]; try discriminate H. cbn in *.
  injection H as <-. destruct (H1 b eq_refl) as (Hb & Ha & Hr). cbn. split_and!; [| done | done].
  unfold description_typed. cbn. split_and!; [done | by apply H2 | by apply H3 | by apply H4].
Qed.

Definition candidate_proto_fields (c : SignedCandidate) : list ProtoField :=
  [bytes_field 1 (encode_binding (candidate_binding c)); uint_field 2 (sequence c);
   bytes_field 3 (candidate c); bytes_field 4 (candidate_transcript c);
   bytes_field 5 (owner_ice_ufrag c); bytes_field 6 (owner_dtls_fingerprint c);
   bytes_field 7 (encode_signature (candidate_signature c))].

(** What validation says of the members with bounds of their own. *)
Lemma validate_candidate_bounds c :
  validate_signed_candidate c = success tt ->
  zlen (candidate c) <= 1024 /\ zlen (owner_ice_ufrag c) <= 256 /\
  seen (responder_nonce (candidate_binding c)) = true.
Proof.
  unfold validate_signed_candidate, validate_ufrag, ufrag_ok, max_signaling_candidate_bytes,
    min_signaling_ice_ufrag_bytes, max_signaling_ice_ufrag_bytes.
  intros H. inv_result H. inv_result E0. unfold nonce_missing in *.
  destruct (responder_nonce (candidate_binding c)); [| done]. split_and!; [lia | lia | done].
Qed.

Lemma encode_candidate_image c :
  candidate_typed c -> validate_signed_candidate c = success tt ->
  encode_signed_candidate c = success (encode_fields (candidate_proto_fields c)) /\
  Forall field_ok (candidate_proto_fields c) /\
  zlen (encode_fields (candidate_proto_fields c)) <= max_signaling_object_bytes.
Proof.
  intros (Hb & Hs & Bc & [Bt Lt] & Bu & [Bf Lf] & Hg) Hv.
  destruct (validate_candidate_bounds c Hv) as (Hcz & Huz & _).
  destruct (encode_binding_small _ Hb) as [Bb Lb].
  destruct (small_signature_message 7 _ ltac:(lia) Hg) as [Og Lg].
  assert (Hu : is_u64 (sequence c)) by (unfold is_u32, is_u64 in *; lia).
  assert (Hsize : zlen (encode_fields (candidate_proto_fields c)) <= max_signaling_object_bytes).
  { unfold candidate_proto_fields, encode_fields. cbn [map concat]. rewrite !zlen_app, zlen_nil.
    assert (L1 := zlen_bytes_field 1 _ ltac:(lia) Bb ltac:(lia)). assert (L2 := zlen_uint_field 2 _ ltac:(lia) Hu).
    assert (L3 := zlen_bytes_field 3 _ ltac:(lia) Bc ltac:(lia)).
    assert (L4 := zlen_bytes_field 4 _ ltac:(lia) Bt ltac:(lia)).
    assert (L5 := zlen_bytes_field 5 _ ltac:(lia) Bu ltac:(lia)).
    assert (L6 := zlen_bytes_field 6 _ ltac:(lia) Bf ltac:(lia)). unfold max_signaling_object_bytes. lia. }
  split_and!; [| | done].
  - unfold encode_signed_candidate. rewrite Hv. cbn [result_bind].
    match goal with |- context [zlen ?o] =>
      assert (E : o = encode_fields (candidate_proto_fields c)) by (unfold candidate_proto_fields; fold_writers)
    end.
    rewrite E. by rewrite (proj2 (Z.ltb_ge max_signaling_object_bytes _)) by lia.
  - unfold candidate_proto_fields.
    repeat apply List.Forall_cons; try apply List.Forall_nil;
      first [done | apply uint_field_ok; (done || lia) | apply bytes_field_ok; (done || lia)].
Qed.

Lemma parse_encode_candidate c b :
  candidate_typed c -> encode_signed_candidate c = success b -> parse_signed_candidate b = success c.
Proof.
  intros Ht He. assert (Hv : validate_signed_candidate c = success tt).
  { unfold encode_signed_candidate in He. by apply result_bind_success in He as ([] & Hv & _). }
  destruct (encode_candidate_image c Ht Hv) as (E & Hok & Hsize). rewrite E in He. injection He as <-.
  destruct (validate_candidate_bounds c Hv) as (_ & _ & Hseen).
  destruct Ht as (Hb & Hs & Bc & Htr & Bu & Hf & Hg). unfold parse_signed_candidate.
  rewrite (proj2 (Z.ltb_ge max_signaling_object_bytes _)) by lia. rewrite parse_proto_encode by done.
  assert (Eu : (u32_max <? sequence c) = false) by (unfold is_u32, u32_max in *; lia).
  assert (Es : u32 (sequence c) = sequence c) by (unfold is_u32 in Hs; by apply u32_small).
  unfold candidate_proto_fields, no_candidate_fields.
  erewrite fold_fields_cons; [| signal_turn candidate_step ltac:(by apply parse_binding_image)].
  erewrite fold_fields_cons; [| unfold candidate_step; cbn [number wire_type integer uint_field Z.eqb Pos.eqb seen];
    rewrite Eu, Es; reflexivity].
  erewrite fold_fields_cons; [| signal_turn candidate_step ltac:(reflexivity)].
  erewrite fold_fields_cons; [| signal_turn candidate_step ltac:(unfold copy_exact; rewrite (proj2 Htr); reflexivity)].
  erewrite fold_fields_cons; [| signal_turn candidate_step ltac:(reflexivity)].
  erewrite fold_fields_cons; [| signal_turn candidate_step
    ltac:(unfold parse_fingerprint, copy_exact; rewrite (proj2 Hf); reflexivity)].
  erewrite fold_fields_cons; [| signal_turn candidate_step ltac:(by apply parse_signature_image)].
  cbn [fold_fields result_bind]. destruct c; cbn in Hv |- *. by rewrite Hv.
Qed.

Definition candidate_fields_typed (p : CandidateFields) : Prop :=
  collected binding_typed (c_binding p) /\ collected is_u32 (c_sequence p) /\
  collected bytes_ok (c_candidate p) /\ collected (sized 32) (c_transcript p) /\
  collected bytes_ok (c_ufrag p) /\ collected (sized 32) (c_fingerprint p) /\ collected (sized 64) (c_signature p).

Lemma candidate_step_typed p f p' :
  field_ok f -> candidate_fields_typed p -> candidate_step p f = success p' -> candidate_fields_typed p'.
Proof.
  intros Hf (H1 & H2 & H3 & H4 & H5 & H6 & H7) H.
  destruct p as [i1 i2 i3 i4 i5 i6 i7]. unfold candidate_step in H. cbn in *.
  repeat match type of H with (if ?c then _ else _) = _ => destruct c; try discriminate H end;
    try (apply result_bind_success in H as (v & [Hw Hv]%signal_once_inv & H)); injection H as <-;
    unfold candidate_fields_typed; cbn; split_and!; try done; apply collected_some.
  - apply parse_binding_sound in Hv as [? _]; [done | by apply field_bytes_ok].
  - apply Z.mod_pos_bound. lia.
  - injection Hv as <-. by apply field_bytes_ok.
  - eauto using copy_exact_sized.
  - injection Hv as <-. by apply field_bytes_ok.
  - unfold parse_fingerprint in Hv. eauto using copy_exact_sized.
  - eauto using parse_signature_message_typed, field_bytes_ok.
Qed.

Lemma parse_candidate_sound payload c :
  bytes_ok payload -> parse_signed_candidate payload = success c ->
  candidate_typed c /\ validate_signed_candidate c = success tt.
Proof.
  intros Hok H. unfold parse_signed_candidate in H. destruct (_ <? _); [done |].
  apply result_bind_success in H as (p & Hp & H).
  apply (parse_proto_invariant candidate_fields_typed _ _ _ _ _ candidate_step_typed Hok) in Hp;
    [| unfold candidate_fields_typed; cbn; split_and!; apply collected_none].
  destruct Hp as (H1 & H2 & H3 & H4 & H5 & H6 & H7).
  destruct p as [[] [] [] [] [] [] []]; try discriminate H. cbn in *.
  apply result_bind_success in H as ([] & Hv & H). injection H as <-. split; [| done].
  unfold candidate_typed. cbn. split_and!;
    match goal with H : collected ?P (Some ?v) |- context [?v] => apply (H v eq_refl) end.
Qed.

Lemma validate_offer_shape d :
  validate_signed_offer d = success tt ->
  zlen (sdp d) <= max_signaling_sdp_bytes /\ responder_nonce (binding d) = None.
Proof.
  unfold validate_signed_offer, validate_description. intros H. inv_result H.
  destruct (responder_nonce (binding d)); [done |]. split; [lia | done].
Qed.

Lemma validate_answer_shape d :
  validate_signed_answer d = success tt ->
  zlen (sdp d) <= max_signaling_sdp_bytes /\ seen (responder_nonce (binding d)) = true.
Proof.
  unfold validate_signed_answer, validate_description. intros H. inv_result H. unfold nonce_missing in *.
  destruct (responder_nonce (binding d)); [| done]. split; [lia | done].
Qed.

Lemma encode_parse_offer d :
  description_typed d -> validate_signed_offer d = success tt ->
  exists b, encode_signed_offer d = success b /\ bytes_ok b /\ parse_signed_offer b = success d.
Proof.
  intros Ht Hv. destruct (validate_offer_shape d Hv) as [Hz Hn].
  destruct (encode_description_image d Ht Hz) as (E & Hok & _).
  eexists. unfold encode_signed_offer, parse_signed_offer. rewrite Hv. cbn [result_bind].
  split; [exact E |]. split; [by apply encode_fields_bytes_ok |].
  rewrite parse_description_image; [cbn [result_bind]; by rewrite Hv |].
  unfold description_fits. rewrite Hn. done.
Qed.

Lemma encode_parse_answer d :
  description_typed d -> validate_signed_answer d = success tt ->
  exists b, encode_signed_answer d = success b /\ bytes_ok b /\ parse_signed_answer b = success d.
Proof.
  intros Ht Hv. destruct (validate_answer_shape d Hv) as [Hz Hn].
  destruct (encode_description_image d Ht Hz) as (E & Hok & _).
  eexists. unfold encode_signed_answer, parse_signed_answer. rewrite Hv. cbn [result_bind].
  split; [exact E |]. split; [by apply encode_fields_bytes_ok |].
  rewrite parse_description_image; [cbn [result_bind]; by rewrite Hv |]. done.
Qed.

Lemma parse_offer_sound payload d :
  bytes_ok payload -> parse_signed_offer payload = success d ->
  description_typed d /\ validate_signed_offer d = success tt.
Proof.
  intros Hok H. unfold parse_signed_offer in H. apply result_bind_success in H as (d' & Hd & H).
  apply result_bind_success in H as ([] & Hv & H). injection H as <-.
  apply parse_description_sound in Hd as [? _]; done.
Qed.

Lemma parse_answer_sound payload d :
  bytes_ok payload -> parse_signed_answer payload = success d ->
  description_typed d /\ validate_signed_answer d = success tt.
Proof.
  intros Hok H. unfold parse_signed_answer in H. apply result_bind_success in H as (d' & Hd & H).
  apply result_bind_success in H as ([] & Hv & H). injection H as <-.
  apply parse_description_sound in Hd as [? _]; done.
Qed.

(** The signaling codecs: every offer, answer or candidate that validates has
    an encoding, which is parsed back unchanged; and what the parsers return, from
    any bytes, has members of their exact sizes and validates. *)
Theorem signaling_codecs :
  (forall d, description_typed d -> validate_signed_offer d = success tt ->
     exists b, encode_signed_offer d = success b /\ bytes_ok b /\ parse_signed_offer b = success d) /\
  (forall d, description_typed d -> validate_signed_answer d = success tt ->
     exists b, encode_signed_answer d = success b /\ bytes_ok b /\ parse_signed_answer b = success d) /\
  (forall c, candidate_typed c -> validate_signed_candidate c = success tt ->
     exists b, encode_signed_candidate c = success b /\ bytes_ok b /\ parse_signed_candidate b = success c) /\
  (forall payload, bytes_ok payload ->
     (forall d, parse_signed_offer payload = success d ->
        description_typed d /\ validate_signed_offer d = success tt) /\
     (forall d, parse_signed_answer payload = success d ->
        description_typed d /\ validate_signed_answer d = success tt) /\
     (forall c, parse_signed_candidate payload = success c ->
        candidate_typed c /\ validate_signed_candidate c = success tt)).
Proof.
  split; [exact encode_parse_offer |]. split; [exact encode_parse_answer |]. split.
  - intros c Ht Hv. destruct (encode_candidate_image c Ht Hv) as (E & Hok & _).
    eexists. split; [exact E |]. split; [by apply encode_fields_bytes_ok |]. by apply parse_encode_candidate.
  - intros payload Hok. split_and!; intros; [by eapply parse_offer_sound | by eapply parse_answer_sound |].
    by eapply parse_candidate_sound.
Qed.

(** ** Signatures *)

(** What a signed object says, without its signature. *)
Definition offer_content (d : SignedOffer) : SignalBinding * list Z * list Z :=
  (binding d, sdp d, dtls_fingerprint d).
Definition candidate_content (c : SignedCandidate) : SignedCandidate := with_candidate_signature c [].

Lemma field_cons_inj n v l n' v' l' :
  mkCanonicalField n v :: l = mkCanonicalField n' v' :: l' -> v = v' /\ l = l'.
Proof. by intros [= -> -> ->]. Qed.

(** The fields of a binding are typed, and determine it up to its expiry. *)
Lemma binding_fields_inj a b require rest rest' :
  (require = true -> seen (responder_nonce a) = true /\ seen (responder_nonce b) = true) ->
  (require = false -> responder_nonce a = None /\ responder_nonce b = None) ->
  binding_fields a require ++ rest = binding_fields b require ++ rest' ->
  (binding_expires a = binding_expires b -> a = b) /\ rest = rest'.
Proof.
  intros Hs Hn E. destruct a as [[d1 e1] [d2 e2] q s n x r], b as [[d1' e1'] [d2' e2'] q' s' n' x' r'].
  unfold binding_fields in E. cbn in *. destruct require.
  - destruct (Hs eq_refl). destruct r as [r |], r' as [r' |]; try done. cbn in E.
    injection E as -> -> -> -> -> -> -> -> ->. split; [by intros -> | done].
  - destruct (Hn eq_refl) as [-> ->]. cbn in E. injection E as -> -> -> -> -> -> -> ->. split; [by intros -> | done].
Qed.

Lemma binding_fields_typed_numbers b require : Forall field_typed (binding_fields b require).
Proof.
  unfold binding_fields, field_typed, is_u16. destruct (responder_nonce b) as [nonce |], require;
    repeat apply List.Forall_cons; try apply List.Forall_nil; cbn; lia.
Qed.

Ltac typed_numbers :=
  apply Forall_app; split; [apply binding_fields_typed_numbers |];
  repeat apply List.Forall_cons; try apply List.Forall_nil; unfold field_typed, is_u16; cbn; lia.

Lemma offer_fields_typed d : Forall field_typed (offer_fields d).
Proof. unfold offer_fields. typed_numbers. Qed.
Lemma answer_fields_typed d : Forall field_typed (answer_fields d).
Proof. unfold answer_fields. typed_numbers. Qed.
Lemma candidate_numbers_typed c : Forall field_typed (candidate_fields c).
Proof. unfold candidate_fields. typed_numbers. Qed.

Lemma canonical_offer_inj d d' b :
  description_typed d -> description_typed d' ->
  canonical_signed_offer d = success b -> canonical_signed_offer d' = success b ->
  offer_content d = offer_content d'.
Proof.
  intros ((_ & _ & _ & _ & _ & Hx & _) & _) ((_ & _ & _ & _ & _ & Hx' & _) & _) H H'. unfold canonical_signed_offer in *.
  apply result_bind_success in H as ([] & Hv & H), H' as ([] & Hv' & H').
  assert (E := canonicalize_fields_inj _ _ _ _ (offer_fields_typed d) (offer_fields_typed d') H H').
  apply validate_offer_shape in Hv as [_ Hn], Hv' as [_ Hn'].
  apply binding_fields_inj in E as [Eb E]; [| done | done].
  apply field_cons_inj in E as [Ex%canonical_uint64_inj E]; [| done..]. injection E as Es Ef.
  unfold offer_content. by rewrite (Eb Ex), Es, Ef.
Qed.

Lemma canonical_answer_inj d d' b :
  description_typed d -> description_typed d' ->
  canonical_signed_answer d = success b -> canonical_signed_answer d' = success b ->
  offer_content d = offer_content d'.
Proof.
  intros ((_ & _ & _ & _ & _ & Hx & _) & _) ((_ & _ & _ & _ & _ & Hx' & _) & _) H H'. unfold canonical_signed_answer in *.
  apply result_bind_success in H as ([] & Hv & H), H' as ([] & Hv' & H').
  assert (E := canonicalize_fields_inj _ _ _ _ (answer_fields_typed d) (answer_fields_typed d') H H').
  apply validate_answer_shape in Hv as [_ Hn], Hv' as [_ Hn'].
  apply binding_fields_inj in E as [Eb E]; [| done | done].
  apply field_cons_inj in E as [Ex%canonical_uint64_inj E]; [| done..]. injection E as Es Ef.
  unfold offer_content. by rewrite (Eb Ex), Es, Ef.
Qed.

Lemma canonical_candidate_inj c c' b :
  candidate_typed c -> candidate_typed c' ->
  canonical_signed_candidate c = success b -> canonical_signed_candidate c' = success b ->
  candidate_content c = candidate_content c'.
Proof.
  intros ((_ & _ & _ & _ & _ & Hx & _) & Hq & _) ((_ & _ & _ & _ & _ & Hx' & _) & Hq' & _) H H'.
  unfold canonical_signed_candidate in *.
  apply result_bind_success in H as ([] & Hv & H), H' as ([] & Hv' & H').
  assert (E := canonicalize_fields_inj _ _ _ _ (candidate_numbers_typed c) (candidate_numbers_typed c') H H').
  apply validate_candidate_bounds in Hv as (_ & _ & Hn), Hv' as (_ & _ & Hn').
  apply binding_fields_inj in E as [Eb E]; [| done | done].
  apply field_cons_inj in E as [Ex%canonical_uint64_inj E]; [| done..].
  apply field_cons_inj in E as [Eq%canonical_uint32_inj E]; [| done..]. injection E as Ec Et Eu Ef.
  unfold candidate_content, with_candidate_signature. by rewrite (Eb Ex), Eq, Ec, Et, Eu, Ef.
Qed.

Section signatures.
Context `{Sodium}.

Lemma verify_object_inv domain fields s pk device expires now :
  verify_signed_object domain fields s pk device expires now = success tt ->
  exists b, canonicalize_for_signature domain fields = success b /\
    verify_identity_signature pk b s = success tt /\ derive_device_id pk = success device /\
    validate_signed_expiry expires now = success tt.
Proof.
  unfold verify_signed_object. intros E. apply result_bind_success in E as (b & Hb & E).
  apply result_bind_success in E as ([] & Hx & E). exists b.
  destruct (verify_identity_signature pk b s) as [[] |]; [| done].
  destruct (derive_device_id pk) as [d |]; [| done]. destruct (bytes_eqb d device) eqn:Ed; [| done].
  apply bytes_eqb_eq in Ed as ->. done.
Qed.

(** Signed by [pk], the key of [device], over [b]. *)
Definition signed_by (pk device b s : list Z) : Prop :=
  derive_device_id pk = success device /\ zlen s = ed25519_signature_bytes /\
  crypto_sign_verify_detached s b pk = true.

Lemma verify_offer_inv d pk now :
  verify_signed_offer d pk now = success tt ->
  exists b, canonical_signed_offer d = success b /\
    signed_by pk (key_device_id (initiator (binding d))) b (description_signature d) /\
    validate_signed_expiry (binding_expires (binding d)) now = success tt.
Proof.
  unfold verify_signed_offer. intros E. apply result_bind_success in E as ([] & Hv & E).
  apply verify_object_inv in E as (b & Hb & Hs%verify_signature_inv & Hd & Hx). exists b.
  unfold canonical_signed_offer. rewrite Hv. unfold signed_by. naive_solver.
Qed.

Lemma verify_answer_inv d pk now :
  verify_signed_answer d pk now = success tt ->
  exists b, canonical_signed_answer d = success b /\
    signed_by pk (key_device_id (responder (binding d))) b (description_signature d) /\
    validate_signed_expiry (binding_expires (binding d)) now = success tt.
Proof.
  unfold verify_signed_answer. intros E. apply result_bind_success in E as ([] & Hv & E).
  apply verify_object_inv in E as (b & Hb & Hs%verify_signature_inv & Hd & Hx). exists b.
  unfold canonical_signed_answer. rewrite Hv. unfold signed_by. naive_solver.
Qed.

(** The device a candidate's owner is. *)
Definition owner_device (owner : SignalingCandidateOwner) (c : SignedCandidate) : list Z :=
  key_device_id match owner with
                | SignalingCandidateOwner.initiator => initiator (candidate_binding c)
                | SignalingCandidateOwner.responder => responder (candidate_binding c)
                end.

Lemma verify_candidate_inv c pk now owner :
  verify_signed_candidate c pk now = success owner ->
  exists b, canonical_signed_candidate c = success b /\
    signed_by pk (owner_device owner c) b (candidate_signature c) /\
    validate_signed_expiry (binding_expires (candidate_binding c)) now = success tt.
Proof.
  unfold verify_signed_candidate. intros E. apply result_bind_success in E as ([] & Hv & E).
  apply result_bind_success in E as (b & Hb & E). apply result_bind_success in E as ([] & Hx & E).
  exists b. unfold canonical_signed_candidate, signed_by. rewrite Hv.
  destruct (verify_identity_signature pk b (candidate_signature c)) as [[] |] eqn:Hs; [| done].
  apply verify_signature_inv in Hs as (_ & Hl & Hs). apply result_bind_success in E as (d & Hd & E). rewrite Hd.
  destruct (bytes_eqb d _) eqn:Ei in E; [apply bytes_eqb_eq in Ei; injection E as <-; subst; done |].
  destruct (bytes_eqb d _) eqn:Er in E; [apply bytes_eqb_eq in Er; injection E as <-; subst; done | done].
Qed.

(** C27. What a verified signaling object proves: the key of the device its binding
    names (the initiator for an offer, the responder for an answer, the reported
    owner for a candidate) signed the canonical bytes of this object, which no
    object of its kind with any other content has, and the object is inside its
    validity window. *)
Theorem signaling_verify_binds pk now :
  (forall d, description_typed d -> verify_signed_offer d pk now = success tt ->
     validate_signed_expiry (binding_expires (binding d)) now = success tt /\
     exists b, canonical_signed_offer d = success b /\
       signed_by pk (key_device_id (initiator (binding d))) b (description_signature d) /\
       forall d', description_typed d' -> canonical_signed_offer d' = success b ->
         offer_content d' = offer_content d) /\
  (forall d, description_typed d -> verify_signed_answer d pk now = success tt ->
     validate_signed_expiry (binding_expires (binding d)) now = success tt /\
     exists b, canonical_signed_answer d = success b /\
       signed_by pk (key_device_id (responder (binding d))) b (description_signature d) /\
       forall d', description_typed d' -> canonical_signed_answer d' = success b ->
         offer_content d' = offer_content d) /\
  (forall c owner, candidate_typed c -> verify_signed_candidate c pk now = success owner ->
     validate_signed_expiry (binding_expires (candidate_binding c)) now = success tt /\
     exists b, canonical_signed_candidate c = success b /\
       signed_by pk (owner_device owner c) b (candidate_signature c) /\
       forall c', candidate_typed c' -> canonical_signed_candidate c' = success b ->
         candidate_content c' = candidate_content c).
Proof.
  split_and!.
  - intros d Ht (b & Hb & Hs & Hx)%verify_offer_inv. split; [done |]. exists b. do 2 (split; [done |]).
    intros d' Ht' Hb'. by eapply canonical_offer_inj.
  - intros d Ht (b & Hb & Hs & Hx)%verify_answer_inv. split; [done |]. exists b. do 2 (split; [done |]).
    intros d' Ht' Hb'. by eapply canonical_answer_inj.
  - intros c owner Ht (b & Hb & Hs & Hx)%verify_candidate_inv. split; [done |]. exists b. do 2 (split; [done |]).
    intros c' Ht' Hb'. by eapply canonical_candidate_inj.
Qed.

End signatures.

Section honest.
Context `{SodiumLaws}.

Lemma verify_own_object i domain fields b s expires now :
  identity_ok i -> canonicalize_for_signature domain fields = success b ->
  sign_identity_message i b = success s -> validate_signed_expiry expires now = success tt ->
  verify_signed_object domain fields s (public_key_ i) (device_id_ i) expires now = success tt.
Proof.
  intros Hi Hb Hs Hx. destruct (identity_sign_verify _ _ _ Hi Hs) as (Hv & _). destruct Hi as (_ & _ & Hd).
  unfold verify_signed_object. rewrite Hb, Hx. cbn [result_bind]. by rewrite Hv, Hd, bytes_eqb_refl.
Qed.

Lemma sign_message_sized i b s : identity_ok i -> sign_identity_message i b = success s -> sized 64 s.
Proof. intros Hi Hs. by destruct (identity_sign_verify _ _ _ Hi Hs) as (_ & Hb & Hl). Qed.

(** A signed object validates, has the canonical bytes of the unsigned one, and
    verifies in its window under the key of its signer. *)
Lemma sign_offer_ok d i d' :
  identity_ok i -> description_typed d -> sign_signed_offer d i = success d' ->
  description_typed d' /\ offer_content d' = offer_content d /\ validate_signed_offer d' = success tt /\
  canonical_signed_offer d' = canonical_signed_offer d /\ has_value (canonical_signed_offer d') = true /\
  forall now, key_device_id (initiator (binding d)) = device_id_ i ->
    validate_signed_expiry (binding_expires (binding d)) now = success tt ->
    verify_signed_offer d' (public_key_ i) now = success tt.
Proof.
  intros Hi (Hb & Hs & Hf & _) E. unfold sign_signed_offer in E. inv_result E.
  assert (Hv : validate_signed_offer (with_description_signature d r1) = success tt) by (destruct r; exact E0).
  split_and!; [| done | done | done | |].
  - unfold description_typed. cbn. split_and!; try done. by eapply sign_message_sized.
  - unfold canonical_signed_offer. rewrite Hv. cbn [result_bind].
    change (offer_fields (with_description_signature d r1)) with (offer_fields d). by rewrite E1.
  - intros now Hd Hx. unfold verify_signed_offer. rewrite Hv. cbn [result_bind binding with_description_signature].
    rewrite Hd. by eapply verify_own_object.
Qed.

Lemma sign_answer_ok d i d' :
  identity_ok i -> description_typed d -> sign_signed_answer d i = success d' ->
  description_typed d' /\ offer_content d' = offer_content d /\ validate_signed_answer d' = success tt /\
  canonical_signed_answer d' = canonical_signed_answer d /\ has_value (canonical_signed_answer d') = true /\
  forall now, key_device_id (responder (binding d)) = device_id_ i ->
    validate_signed_expiry (binding_expires (binding d)) now = success tt ->
    verify_signed_answer d' (public_key_ i) now = success tt.
Proof.
  intros Hi (Hb & Hs & Hf & _) E. unfold sign_signed_answer in E. inv_result E.
  assert (Hv : validate_signed_answer (with_description_signature d r1) = success tt) by (destruct r; exact E0).
  split_and!; [| done | done | done | |].
  - unfold description_typed. cbn. split_and!; try done. by eapply sign_message_sized.
  - unfold canonical_signed_answer. rewrite Hv. cbn [result_bind].
    change (answer_fields (with_description_signature d r1)) with (answer_fields d). by rewrite E1.
  - intros now Hd Hx. unfold verify_signed_answer. rewrite Hv. cbn [result_bind binding with_description_signature].
    rewrite Hd. by eapply verify_own_object.
Qed.

Lemma sign_candidate_ok c i c' :
  identity_ok i -> candidate_typed c -> sign_signed_candidate c i = success c' ->
  candidate_typed c' /\ candidate_content c' = candidate_content c /\ validate_signed_candidate c' = success tt /\
  forall now,
    (device_id_ i = key_device_id (initiator (candidate_binding c)) \/
     device_id_ i = key_device_id (responder (candidate_binding c))) ->
    validate_signed_expiry (binding_expires (candidate_binding c)) now = success tt ->
    has_value (verify_signed_candidate c' (public_key_ i) now) = true.
Proof.
  intros Hi (Hb & Hs & Bc & Ht & Bu & Hf & _) E. unfold sign_signed_candidate in E. inv_result E.
  assert (Hv : validate_signed_candidate (with_candidate_signature c r1) = success tt) by (destruct r; exact E0).
  split_and!; [| done | done |].
  - unfold candidate_typed. cbn. split_and!; try done. by eapply sign_message_sized.
  - intros now Hd Hx. unfold verify_signed_candidate. rewrite Hv. cbn [result_bind].
    change (candidate_fields (with_candidate_signature c r1)) with (candidate_fields c).
    destruct (identity_sign_verify _ _ _ Hi E2) as (Hver & _). destruct Hi as (_ & _ & Hder).
    rewrite E1. cbn [result_bind candidate_binding with_candidate_signature candidate_signature].
    rewrite Hx. cbn [result_bind]. rewrite Hver, Hder. cbn [result_bind].
    destruct Hd as [-> | ->]; rewrite bytes_eqb_refl; [done |]. by destruct (bytes_eqb _ _).
Qed.

End honest.
