(* ===== verification/Clock.v ===== *)
(** * Clocks and ordered maps

    What the tables of the relay and of the replay cache use of the standard
    library: [std::chrono::steady_clock] time points, as integers of
    nanoseconds, and [std::map], as a finite map whose iteration is in key
    order. *)

From Stdlib Require Import ZArith Lia ZifyBool String.
From stdpp Require Import base tactics option list gmap sorting numbers.
From S2P Require Import Prelude.
#[local] Open Scope Z_scope.

(** ** [std::chrono] *)

(** A [time_point] or [duration] counted in nanoseconds. *)
Definition milliseconds (n : Z) : Z := n * 1000000.
Definition seconds (n : Z) : Z := n * 1000000000.

(** [duration_cast] truncates toward zero. *)
Definition to_milliseconds (d : Z) : Z := Z.quot d 1000000.

Lemma milliseconds_pos n : 0 < n -> 0 < milliseconds n.
Proof. unfold milliseconds. lia. Qed.

Lemma to_milliseconds_le n d : 0 <= d -> to_milliseconds d <= n <-> d < milliseconds (n + 1).
Proof.
  unfold to_milliseconds, milliseconds. intros Hd. rewrite Z.quot_div_nonneg by lia.
  assert (H := Z.div_mod d 1000000 ltac:(lia)). assert (Hm := Z.mod_pos_bound d 1000000 ltac:(lia)). nia.
Qed.

(** ** [std::map] *)

(** [m.size()]. *)
Definition msize `{Countable K} {V} (m : gmap K V) : Z := Z.of_nat (size m).

Section maps.
Context `{Countable K} {V : Type}.
Implicit Types m : gmap K V.

Lemma msize_nonneg m : 0 <= msize m.
Proof. unfold msize. lia. Qed.

Lemma msize_empty : msize (empty : gmap K V) = 0.
Proof. done. Qed.

Lemma msize_insert_new m k v : m !! k = None -> msize (<[k:=v]> m) = msize m + 1.
Proof. intros Hk. unfold msize. rewrite map_size_insert_None by done. lia. Qed.

Lemma msize_insert_old m k v w : m !! k = Some w -> msize (<[k:=v]> m) = msize m.
Proof. intros Hk. unfold msize. by rewrite map_size_insert_Some. Qed.

Lemma msize_delete_old m k w : m !! k = Some w -> msize (delete k m) = msize m - 1.
Proof.
  intros Hk. unfold msize. rewrite map_size_delete_Some by eauto.
  assert (size m <> 0%nat); [| lia]. intros E%map_size_empty_inv. by rewrite E, lookup_empty in Hk.
Qed.

Lemma msize_delete_le m k : msize (delete k m) <= msize m.
Proof.
  destruct (m !! k) eqn:E; [rewrite (msize_delete_old _ _ _ E); lia |]. by rewrite delete_id.
Qed.

Lemma msize_subseteq (m1 m2 : gmap K V) : m1 ⊆ m2 -> msize m1 <= msize m2.
Proof. intros Hs. unfold msize. apply inj_le. by apply map_subseteq_size. Qed.

End maps.

#[export] Hint Resolve msize_nonneg : core.

(** The key order of a [std::map]. *)
Class KeyOrder (K : Type) : Type := key_le : K -> K -> Prop.

#[export] Instance bytes_order : KeyOrder (list Z) := fun a b => lex_lt b a = false.
#[export] Instance bytes_order_dec (a b : list Z) : Decision (key_le a b).
Proof. unfold key_le, bytes_order. apply _. Defined.

Section iteration.
Context `{Countable K} `{KeyOrder K} `{forall a b : K, Decision (key_le a b)} {V : Type}.
Implicit Types m : gmap K V.

Definition pair_le (a b : K * V) : Prop := key_le (fst a) (fst b).

(** [for (const auto& [key, value] : m)]. *)
Definition iterate m : list (K * V) := merge_sort pair_le (map_to_list m).

Lemma iterate_perm m : iterate m ≡ₚ map_to_list m.
Proof. apply merge_sort_Permutation. Qed.

Lemma elem_of_iterate m k v : (k, v) ∈ iterate m <-> m !! k = Some v.
Proof. rewrite iterate_perm. apply elem_of_map_to_list. Qed.

Lemma iterate_nodup m : NoDup (fst <$> iterate m).
Proof. rewrite iterate_perm. apply NoDup_fst_map_to_list. Qed.

Lemma length_iterate m : zlen (iterate m) = msize m.
Proof. unfold zlen, msize. rewrite iterate_perm. by rewrite length_map_to_list. Qed.

End iteration.

Section erase.
Context `{Countable K} `{KeyOrder K} `{forall a b : K, Decision (key_le a b)} {V : Type}.
Implicit Types m : gmap K V.

(** [for (auto it = m.begin(); it != m.end();)] with [it = m.erase(it)] on the
    entries that are [dead] and [++it] on the others; the second component
    counts the erasures. *)
Definition erase_step (dead : V -> bool) (acc : gmap K V * Z) (kv : K * V) : gmap K V * Z :=
  if dead (snd kv) then (delete (fst kv) (fst acc), snd acc + 1) else acc.

Definition erase_loop (dead : V -> bool) m : gmap K V * Z :=
  foldl (erase_step dead) (m, 0) (iterate m).

Lemma erase_fold_lookup dead l m n k v :
  fst (foldl (erase_step dead) (m, n) l) !! k = Some v <->
  m !! k = Some v /\ forall w, (k, w) ∈ l -> dead w = false.
Proof.
  revert m n. induction l as [| [k' w'] l IH]; intros m n; cbn [foldl].
  { split; [intros Hk; split; [done |]; intros w Hw; by apply elem_of_nil in Hw | by intros [? _]]. }
  unfold erase_step at 2. cbn [fst snd]. destruct (dead w') eqn:Hd; rewrite IH; clear IH.
  - rewrite lookup_delete_Some. split.
    + intros [[Hne Hk] Hall]. split; [done |]. intros w [[= <- _] | Hw]%elem_of_cons; [done | by apply Hall].
    + intros [Hk Hall]. split; [split; [| done] |].
      * intros ->. specialize (Hall w' ltac:(by left)). congruence.
      * intros w Hw. apply Hall. by right.
  - split; intros [Hk Hall]; (split; [done |]); intros w Hw.
    + apply elem_of_cons in Hw as [[= -> ->] | Hw]; [done | by apply Hall].
    + apply Hall. by right.
Qed.

Lemma erase_loop_entries dead m :
  fst (erase_loop dead m) = filter (fun kv : K * V => dead (snd kv) = false) m.
Proof.
  apply map_eq. intros k. apply option_eq. intros v. unfold erase_loop.
  rewrite erase_fold_lookup, map_lookup_filter_Some. cbn. split; intros [Hk Hd]; (split; [done |]).
  - apply Hd. by apply elem_of_iterate.
  - intros w Hw%elem_of_iterate. congruence.
Qed.

Lemma erase_fold_count dead l m n :
  NoDup (fst <$> l) -> (forall k v, (k, v) ∈ l -> m !! k = Some v) ->
  let '(m', n') := foldl (erase_step dead) (m, n) l in msize m' + n' = msize m + n.
Proof.
  revert m n. induction l as [| [k v] l IH]; intros m n Hnd Hin; cbn [foldl]; [done |].
  cbn [fmap list_fmap fst] in Hnd. inversion Hnd as [| ? ? Hk Hnd']; subst; clear Hnd; rename Hnd' into Hnd. unfold erase_step at 2. cbn [fst snd].
  destruct (dead v).
  - specialize (IH (delete k m) (n + 1) Hnd). destruct (foldl _ _ _) as [m' n'].
    rewrite (msize_delete_old _ k v) in IH by (apply Hin; by left). rewrite IH; [lia |].
    intros k' v' Hl. rewrite lookup_delete_ne; [apply Hin; by right |].
    intros ->. apply Hk, list_elem_of_fmap. by exists (k', v').
  - apply IH; [done |]. intros k' v' Hl. apply Hin. by right.
Qed.

Lemma erase_loop_count dead m : snd (erase_loop dead m) = msize m - msize (fst (erase_loop dead m)).
Proof.
  assert (Hc := erase_fold_count dead (iterate m) m 0 (iterate_nodup m)
    (fun k v => proj1 (elem_of_iterate m k v))).
  unfold erase_loop. destruct (foldl _ _ _) as [m' n']. cbn. lia.
Qed.

End erase.

Lemma to_milliseconds_nonneg d : 0 <= d -> 0 <= to_milliseconds d.
Proof. intros Hd. unfold to_milliseconds. apply Z.quot_pos; lia. Qed.

Lemma to_milliseconds_mono a b : 0 <= a <= b -> to_milliseconds a <= to_milliseconds b.
Proof. intros H. unfold to_milliseconds. apply Z.quot_le_mono; lia. Qed.

(** Truncation never adds up to more than the whole. *)
Lemma to_milliseconds_add a b :
  0 <= a -> 0 <= b -> to_milliseconds a + to_milliseconds b <= to_milliseconds (a + b).
Proof.
  intros Ha Hb. unfold to_milliseconds. rewrite !Z.quot_div_nonneg by lia.
  assert (H := Z.div_mod a 1000000 ltac:(lia)). assert (Hm := Z.mod_pos_bound a 1000000 ltac:(lia)).
  assert (H' := Z.div_mod b 1000000 ltac:(lia)). assert (Hm' := Z.mod_pos_bound b 1000000 ltac:(lia)).
  apply Z.div_le_lower_bound; lia.
Qed.

(** [for (const auto& x : s)] over a [std::set]. *)
Section set_iteration.
Context `{Countable K} `{KeyOrder K} `{forall a b : K, Decision (key_le a b)}.

Definition iterate_set (s : gset K) : list K := merge_sort key_le (elements s).

Lemma elem_of_iterate_set s x : x ∈ iterate_set s <-> x ∈ s.
Proof. unfold iterate_set. rewrite merge_sort_Permutation. apply elem_of_elements. Qed.

Lemma iterate_set_nodup s : NoDup (iterate_set s).
Proof. unfold iterate_set. rewrite merge_sort_Permutation. apply NoDup_elements. Qed.

End set_iteration.
