(* ===== verification/ReplayCache.v ===== *)
(** * The signaling replay cache

    [include/heyaki/signaling_replay_cache.hpp] and
    [src/core/signaling_replay_cache.cpp]: the bounded table of signed signaling
    objects a node has already acted on, with its throttled sweep and its
    per-signer quota. *)

From Stdlib Require Import ZArith Lia ZifyBool String.
From stdpp Require Import base tactics option list gmap sorting numbers strings.
From S2P Require Import Prelude Errors Clock Security Signing.
#[local] Open Scope Z_scope.

Module SignalingReplayDecision.
Inductive SignalingReplayDecision : Type := admitted | duplicate | capacity_rejected.
End SignalingReplayDecision.
Abbreviation SignalingReplayDecision := SignalingReplayDecision.SignalingReplayDecision.

Module ReplayCache.
Import Security Signing.

Definition connect_request_replay_domain : Z := 0xff.

Definition replay_error (detail : string) : Error :=
  make_error ErrorCode.resource_exhausted "signaling_replay" detail.

Record SignalingReplayDiagnostics : Type := mkReplayDiagnostics {
  admitted : Z;
  duplicates_rejected : Z;
  capacity_rejected : Z;
  per_peer_rejected : Z;
  expired_evicted : Z;
  current_entries : Z;
  peak_entries : Z;
  peak_per_peer_entries : Z;
}.

Record ReplayKey : Type := mkReplayKey {
  domain : Z;
  signer : list Z;
  request_id : list Z;
  session_id : list Z;
  initiator_nonce : list Z;
  has_responder_nonce : bool;
  responder_nonce : list Z;
  has_sequence : bool;
  sequence : Z;
}.

(** [false < true]. *)
Definition bool_lt (a b : bool) : bool := negb a && b.

(** [operator<] of the map's key. *)
Definition key_lt (lhs rhs : ReplayKey) : bool :=
  if negb (domain lhs =? domain rhs) then domain lhs <? domain rhs
  else if negb (bytes_eqb (signer lhs) (signer rhs)) then lex_lt (signer lhs) (signer rhs)
  else if negb (bytes_eqb (request_id lhs) (request_id rhs)) then lex_lt (request_id lhs) (request_id rhs)
  else if negb (bytes_eqb (session_id lhs) (session_id rhs)) then lex_lt (session_id lhs) (session_id rhs)
  else if negb (bytes_eqb (initiator_nonce lhs) (initiator_nonce rhs))
  then lex_lt (initiator_nonce lhs) (initiator_nonce rhs)
  else if negb (Bool.eqb (has_responder_nonce lhs) (has_responder_nonce rhs))
  then bool_lt (has_responder_nonce lhs) (has_responder_nonce rhs)
  else if has_responder_nonce lhs && has_responder_nonce rhs
          && negb (bytes_eqb (responder_nonce lhs) (responder_nonce rhs))
  then lex_lt (responder_nonce lhs) (responder_nonce rhs)
  else if negb (Bool.eqb (has_sequence lhs) (has_sequence rhs))
  then bool_lt (has_sequence lhs) (has_sequence rhs)
  else if has_sequence lhs && has_sequence rhs then sequence lhs <? sequence rhs
  else false.

#[export] Instance ReplayKey_eq_dec : EqDecision ReplayKey.
Proof. solve_decision. Defined.

#[export] Instance ReplayKey_countable : Countable ReplayKey.
Proof.
  refine (inj_countable
    (fun k => [[domain k; Z.b2z (has_responder_nonce k); Z.b2z (has_sequence k); sequence k];
               signer k; request_id k; session_id k; initiator_nonce k; responder_nonce k])
    (fun l => match l with
              | [[a; b; c; d]; e; f; g; h; i] => Some (mkReplayKey a e f g h (b =? 1) i (c =? 1) d)
              | _ => None
              end) _).
  by intros [? ? ? ? ? [] ? [] ?].
Defined.

#[export] Instance ReplayKey_order : KeyOrder ReplayKey := fun a b => key_lt b a = false.
#[export] Instance ReplayKey_order_dec (a b : ReplayKey) : Decision (key_le a b).
Proof. unfold key_le, ReplayKey_order. apply _. Defined.

Record Impl : Type := mkImpl {
  policy_ : ReplayCachePolicy;
  entries_ : gmap ReplayKey Z;
  per_peer_ : gmap (list Z) Z;
  next_sweep_ : Z;
  diagnostics_ : SignalingReplayDiagnostics;
}.

Definition new_impl (policy : ReplayCachePolicy) : Impl :=
  mkImpl policy ∅ ∅ 0 (mkReplayDiagnostics 0 0 0 0 0 0 0 0).

(** The members an operation writes, one setter each. *)
Definition set_diagnostics (s : Impl) (d : SignalingReplayDiagnostics) : Impl :=
  mkImpl (policy_ s) (entries_ s) (per_peer_ s) (next_sweep_ s) d.
Definition set_next_sweep (s : Impl) (t : Z) : Impl :=
  mkImpl (policy_ s) (entries_ s) (per_peer_ s) t (diagnostics_ s).
Definition set_per_peer (s : Impl) (m : gmap (list Z) Z) : Impl :=
  mkImpl (policy_ s) (entries_ s) m (next_sweep_ s) (diagnostics_ s).

Definition count_expired (d : SignalingReplayDiagnostics) : SignalingReplayDiagnostics :=
  mkReplayDiagnostics (admitted d) (duplicates_rejected d) (capacity_rejected d) (per_peer_rejected d)
    (u64 (expired_evicted d + 1)) (current_entries d) (peak_entries d) (peak_per_peer_entries d).
Definition count_duplicate (d : SignalingReplayDiagnostics) : SignalingReplayDiagnostics :=
  mkReplayDiagnostics (admitted d) (u64 (duplicates_rejected d + 1)) (capacity_rejected d)
    (per_peer_rejected d) (expired_evicted d) (current_entries d) (peak_entries d)
    (peak_per_peer_entries d).
Definition count_capacity (d : SignalingReplayDiagnostics) (per_peer : Z) : SignalingReplayDiagnostics :=
  mkReplayDiagnostics (admitted d) (duplicates_rejected d) (u64 (capacity_rejected d + 1))
    (u64 (per_peer_rejected d + per_peer)) (expired_evicted d) (current_entries d) (peak_entries d)
    (peak_per_peer_entries d).
Definition set_current (d : SignalingReplayDiagnostics) (n : Z) : SignalingReplayDiagnostics :=
  mkReplayDiagnostics (admitted d) (duplicates_rejected d) (capacity_rejected d) (per_peer_rejected d)
    (expired_evicted d) n (peak_entries d) (peak_per_peer_entries d).

(** The per-signer count after one of the signer's entries is erased. *)
Definition release_peer (m : gmap (list Z) Z) (signer : list Z) : gmap (list Z) Z :=
  match m !! signer with
  | Some n => if 0 <? n then if n - 1 =? 0 then delete signer m else <[signer := n - 1]> m else m
  | None => m
  end.

Definition evict_entry (s : Impl) (key : ReplayKey) : Impl :=
  mkImpl (policy_ s) (delete key (entries_ s)) (release_peer (per_peer_ s) (signer key))
    (next_sweep_ s) (count_expired (diagnostics_ s)).

(** The loop erases while it iterates: each entry of the table as it was at the
    start is visited once. *)
Definition expire_loop (s : Impl) (now : Z) (l : list (ReplayKey * Z)) : Impl :=
  foldl (fun s '(key, expires) => if expires <=? now then evict_entry s key else s) s l.

Definition expire (s : Impl) (now : Z) : Impl :=
  let s := expire_loop s now (iterate (entries_ s)) in
  set_diagnostics s (set_current (diagnostics_ s) (msize (entries_ s))).

(** The first statement of [Impl::admit]. *)
Definition sweep (s : Impl) (now : Z) : Impl :=
  if next_sweep_ s <=? now then set_next_sweep (expire s now) (now + seconds 1) else s.

(** The second half of [Impl::admit]: the entry, if any, is gone. *)
Definition admit_new (s : Impl) (key : ReplayKey) (now : Z) : SignalingReplayDecision * Impl :=
  let ttl := milliseconds (ttl_milliseconds (policy_ s)) in
  let peer_count := default 0 (per_peer_ s !! signer key) in
  let s := set_per_peer s (<[signer key := peer_count]> (per_peer_ s)) in
  if per_peer_capacity (policy_ s) <=? peer_count then
    (SignalingReplayDecision.capacity_rejected, set_diagnostics s (count_capacity (diagnostics_ s) 1))
  else if capacity (policy_ s) <=? msize (entries_ s) then
    (SignalingReplayDecision.capacity_rejected, set_diagnostics s (count_capacity (diagnostics_ s) 0))
  else
    let entries := <[key := now + ttl]> (entries_ s) in
    let d := diagnostics_ s in
    (SignalingReplayDecision.admitted,
     mkImpl (policy_ s) entries (<[signer key := peer_count + 1]> (per_peer_ s)) (next_sweep_ s)
       (mkReplayDiagnostics (u64 (admitted d + 1)) (duplicates_rejected d) (capacity_rejected d)
          (per_peer_rejected d) (expired_evicted d) (msize entries)
          (Z.max (peak_entries d) (msize entries))
          (Z.max (peak_per_peer_entries d) (peer_count + 1)))).

Definition admit_key (s : Impl) (key : ReplayKey) (now : Z) : SignalingReplayDecision * Impl :=
  let s := sweep s now in
  match entries_ s !! key with
  | Some expires =>
      if now <? expires
      then (SignalingReplayDecision.duplicate, set_diagnostics s (count_duplicate (diagnostics_ s)))
      else admit_new (evict_entry s key) key now
  | None => admit_new s key now
  end.

Definition create (policy : ReplayCachePolicy) : Result Impl :=
  let? _ := validate_security_policy policy default_password_policy in
  fail_if capacity policy <? per_peer_capacity policy
    with replay_error "replay_capacity_below_per_peer";
  success (new_impl policy).

(** [static_cast<std::uint8_t>(domain)]. *)
Definition domain_code (d : SigningDomain) : Z :=
  match d with
  | SigningDomain.enrollment => 0 | SigningDomain.enrollment_record => 1
  | SigningDomain.relay_login => 2 | SigningDomain.endpoint_record => 3
  | SigningDomain.service_manifest => 4 | SigningDomain.offer => 5
  | SigningDomain.answer => 6 | SigningDomain.candidate => 7
  | SigningDomain.lan_presence => 8 | SigningDomain.lan_hello => 9
  | SigningDomain.session_hello => 10 | SigningDomain.trust_grant => 11
  end.

Definition zero_id (n : nat) : list Z := repeat 0 n.

Definition signed_key (domain : SigningDomain) (signer request_id session_id initiator_nonce : list Z)
    (responder_nonce : option (list Z)) (sequence : option Z) : ReplayKey :=
  mkReplayKey (domain_code domain) signer request_id session_id initiator_nonce
    (match responder_nonce with Some _ => true | None => false end) (default (zero_id 32) responder_nonce)
    (match sequence with Some _ => true | None => false end) (default 0 sequence).

Definition admit_signed (s : Impl) (domain : SigningDomain)
    (signer request_id session_id initiator_nonce : list Z)
    (responder_nonce : option (list Z)) (sequence : option Z) (now : Z)
    : Result SignalingReplayDecision * Impl :=
  if all_zero signer then (failure (replay_error "replay_signer_zero"), s)
  else
    let '(d, s) := admit_key s (signed_key domain signer request_id session_id initiator_nonce
                                  responder_nonce sequence) now in
    (success d, s).

Definition connect_key (sender request_id : list Z) : ReplayKey :=
  mkReplayKey connect_request_replay_domain sender request_id (zero_id 16) (zero_id 32)
    false (zero_id 32) false 0.

Definition admit_connect_request (s : Impl) (sender request_id : list Z) (now : Z)
    : Result SignalingReplayDecision * Impl :=
  if all_zero sender || all_zero request_id
  then (failure (replay_error "connect_request_replay_key_zero"), s)
  else let '(d, s) := admit_key s (connect_key sender request_id) now in (success d, s).

Definition diagnostics (s : Impl) : SignalingReplayDiagnostics := diagnostics_ s.

End ReplayCache.

Import Security Signing ReplayCache.

(** ** Calls *)

(** What the cache is asked to remember: the arguments of the two entry points. *)
Inductive request : Type :=
  | Signed (domain : SigningDomain) (signer request_id session_id initiator_nonce : list Z)
      (responder_nonce : option (list Z)) (sequence : option Z)
  | Connect (sender request_id : list Z).

Definition request_key (r : request) : ReplayKey :=
  match r with
  | Signed d signer req sess nonce resp seq => signed_key d signer req sess nonce resp seq
  | Connect sender req => connect_key sender req
  end.

Definition admit_request (s : Impl) (r : request) (now : Z) : Result SignalingReplayDecision * Impl :=
  match r with
  | Signed d signer req sess nonce resp seq => admit_signed s d signer req sess nonce resp seq now
  | Connect sender req => admit_connect_request s sender req now
  end.

Inductive call : Type := Admit (r : request) (now : Z) | Expire (now : Z).

Definition call_time (c : call) : Z := match c with Admit _ now => now | Expire now => now end.

Definition perform (s : Impl) (c : call) : Impl :=
  match c with Admit r now => snd (admit_request s r now) | Expire now => expire s now end.

Definition run (s : Impl) (calls : list call) : Impl := foldl perform s calls.

Lemma admit_request_cases s r now :
  (exists e, admit_request s r now = (failure e, s)) \/
  admit_request s r now =
    (success (fst (admit_key s (request_key r) now)), snd (admit_key s (request_key r) now)).
Proof.
  destruct r; cbn; unfold admit_signed, admit_connect_request; case_match; eauto; right; by destruct (admit_key _ _ _).
Qed.

(** ** The key order *)

Lemma lex_lt_app x y r q :
  zlen x = zlen y -> lex_lt (x ++ r) (y ++ q) = if bytes_eqb x y then lex_lt r q else lex_lt x y.
Proof.
  revert y. induction x as [| a x IH]; intros [| b y] Hl; autorewrite with wire in Hl; rewrite ?zlen_nil in Hl.
  - done.
  - assert (H := zlen_nonneg y). lia.
  - assert (H := zlen_nonneg x). lia.
  - cbn [app lex_lt]. rewrite IH by lia.
    destruct (Z.ltb_spec a b), (Z.ltb_spec b a), (bytes_eqb (a :: x) (b :: y)) eqn:E;
      try (apply bytes_eqb_eq in E as [= ? ?]; lia); try done.
    + apply bytes_eqb_eq in E as [= -> ->]. by rewrite bytes_eqb_refl.
    + destruct (bytes_eqb x y) eqn:E2; [| done]. apply bytes_eqb_eq in E2 as ->.
      assert (a = b) as -> by lia. by rewrite bytes_eqb_refl in E.
Qed.

Definition flag (b : bool) : Z := if b then 1 else 0.

(** The key as one byte-wise compared string. *)
Definition key_image (k : ReplayKey) : list Z :=
  [domain k] ++ signer k ++ request_id k ++ session_id k ++ initiator_nonce k ++
  [flag (has_responder_nonce k)] ++ (if has_responder_nonce k then responder_nonce k else []) ++
  [flag (has_sequence k)] ++ (if has_sequence k then [sequence k] else []).

Definition key_sized (k : ReplayKey) : Prop :=
  zlen (signer k) = 32 /\ zlen (request_id k) = 16 /\ zlen (session_id k) = 16 /\
  zlen (initiator_nonce k) = 32 /\ zlen (responder_nonce k) = 32.

Lemma lex_lt_single a b r q : lex_lt (a :: r) (b :: q) = if a =? b then lex_lt r q else a <? b.
Proof. cbn. destruct (Z.eqb_spec a b), (Z.ltb_spec a b), (Z.ltb_spec b a); (lia || done). Qed.

Lemma key_lt_image a b : key_sized a -> key_sized b -> key_lt a b = lex_lt (key_image a) (key_image b).
Proof.
  intros (A1 & A2 & A3 & A4 & A5) (B1 & B2 & B3 & B4 & B5). unfold key_lt, key_image.
  cbn [app]. rewrite lex_lt_single. destruct (domain a =? domain b); cbn [negb]; [| done].
  rewrite lex_lt_app by congruence. destruct (bytes_eqb (signer a) _); cbn [negb]; [| done].
  rewrite lex_lt_app by congruence. destruct (bytes_eqb (request_id a) _); cbn [negb]; [| done].
  rewrite lex_lt_app by congruence. destruct (bytes_eqb (session_id a) _); cbn [negb]; [| done].
  rewrite lex_lt_app by congruence. destruct (bytes_eqb (initiator_nonce a) _); cbn [negb]; [| done].
  rewrite lex_lt_single.
  destruct (has_responder_nonce a), (has_responder_nonce b); cbn -[lex_lt bytes_eqb]; try done.
  - rewrite lex_lt_app by congruence. destruct (bytes_eqb (responder_nonce a) _); cbn [negb]; [| done].
    rewrite lex_lt_single. destruct (has_sequence a), (has_sequence b); cbn -[lex_lt]; try done.
    rewrite lex_lt_single. destruct (Z.eqb_spec (sequence a) (sequence b)); [cbn; lia | done].
  - rewrite lex_lt_single. destruct (has_sequence a), (has_sequence b); cbn -[lex_lt]; try done.
    rewrite lex_lt_single. destruct (Z.eqb_spec (sequence a) (sequence b)); [cbn; lia | done].
Qed.

Definition request_typed (r : request) : Prop :=
  match r with
  | Signed _ signer req sess nonce resp _ =>
      zlen signer = 32 /\ zlen req = 16 /\ zlen sess = 16 /\ zlen nonce = 32 /\
      zlen (default (zero_id 32) resp) = 32
  | Connect sender req => zlen sender = 32 /\ zlen req = 16
  end.

Lemma request_key_sized r : request_typed r -> key_sized (request_key r).
Proof. destruct r; cbn; unfold key_sized; cbn; intuition. Qed.

Lemma domain_code_inj d1 d2 : domain_code d1 = domain_code d2 -> d1 = d2.
Proof. by destruct d1, d2. Qed.

Lemma request_key_inj r1 r2 : request_key r1 = request_key r2 -> r1 = r2.
Proof.
  destruct r1 as [d1 ? ? ? ? o1 q1 |], r2 as [d2 ? ? ? ? o2 q2 |]; cbn; intros E.
  - injection E as Hd -> -> -> -> Ho Hov Hq Hqv. apply domain_code_inj in Hd as ->.
    destruct o1, o2, q1, q2; cbn in *; congruence.
  - injection E as Hd _. by destruct d1.
  - injection E as Hd _. by destruct d2.
  - by injection E as -> ->.
Qed.

Lemma key_image_inj r1 r2 :
  request_typed r1 -> request_typed r2 -> key_lt (request_key r1) (request_key r2) = false ->
  key_lt (request_key r2) (request_key r1) = false -> key_image (request_key r1) = key_image (request_key r2).
Proof.
  intros T1 T2. apply request_key_sized in T1, T2. rewrite !key_lt_image by done. apply lex_lt_total.
Qed.

Lemma image_request_inj r1 r2 :
  request_typed r1 -> request_typed r2 -> key_image (request_key r1) = key_image (request_key r2) ->
  r1 = r2.
Proof.
  intros T1 T2 E. apply request_key_inj.
  destruct (request_key_sized _ T1) as (A1 & A2 & A3 & A4 & A5).
  destruct (request_key_sized _ T2) as (B1 & B2 & B3 & B4 & B5).
  assert (Hr : forall r, has_responder_nonce (request_key r) = false -> responder_nonce (request_key r) = zero_id 32)
    by (intros [? ? ? ? ? [] ? |]; done).
  assert (Hs : forall r, has_sequence (request_key r) = false -> sequence (request_key r) = 0)
    by (intros [? ? ? ? ? ? [] |]; done).
  specialize (Hr r1) as R1. specialize (Hr r2) as R2. specialize (Hs r1) as S1. specialize (Hs r2) as S2. clear Hr Hs.
  unfold key_image in E.
  destruct (request_key r1) as [d1 g1 q1 s1 n1 h1 p1 k1 c1], (request_key r2) as [d2 g2 q2 s2 n2 h2 p2 k2 c2].
  cbn -[app] in *.
  apply app_zlen_inj in E as [[= ->] E]; [| done]. apply app_zlen_inj in E as [-> E]; [| lia].
  apply app_zlen_inj in E as [-> E]; [| lia]. apply app_zlen_inj in E as [-> E]; [| lia].
  apply app_zlen_inj in E as [-> E]; [| lia]. apply app_zlen_inj in E as [Eh E]; [| done].
  assert (h1 = h2) as -> by (destruct h1, h2; done).
  apply app_zlen_inj in E as [Ep E]; [| destruct h2; (done || lia)].
  apply app_zlen_inj in E as [Ek E]; [| done]. assert (k1 = k2) as -> by (destruct k1, k2; done).
  assert (p1 = p2) as -> by (destruct h2; [done | rewrite R1, R2; done]).
  f_equal. destruct k2; [by injection E | rewrite S1, S2; done].
Qed.

(** The replay table's key order is a strict total order on what the node
    sends it: irreflexive, transitive, and two keys are equivalent for the map,
    neither below the other, exactly when they come from the same request;
    in particular a connect request never shadows a signed object. *)
Theorem replay_key_order r1 r2 r3 :
  request_typed r1 -> request_typed r2 -> request_typed r3 ->
  key_lt (request_key r1) (request_key r1) = false /\
  (key_lt (request_key r1) (request_key r2) = true -> key_lt (request_key r2) (request_key r3) = true ->
   key_lt (request_key r1) (request_key r3) = true) /\
  (key_lt (request_key r1) (request_key r2) = false /\ key_lt (request_key r2) (request_key r1) = false
   <-> r1 = r2).
Proof.
  intros T1 T2 T3. assert (K1 := request_key_sized _ T1). assert (K2 := request_key_sized _ T2).
  assert (K3 := request_key_sized _ T3). split; [by rewrite key_lt_image, lex_lt_irrefl |]. split.
  - rewrite !key_lt_image by done. apply lex_lt_trans.
  - split; [intros [H1 H2]; by apply image_request_inj, key_image_inj |].
    intros <-. by rewrite key_lt_image, lex_lt_irrefl.
Qed.

(** ** Bookkeeping *)

Definition signer_count (e : gmap ReplayKey Z) (p : list Z) : Z :=
  msize (filter (fun kv : ReplayKey * Z => signer (fst kv) = p) e).

Lemma signer_count_insert e k v p :
  e !! k = None -> signer_count (<[k := v]> e) p = signer_count e p + (if decide (signer k = p) then 1 else 0).
Proof.
  intros Hk. unfold signer_count. case_decide as Hp.
  - rewrite map_filter_insert_True by done. apply msize_insert_new. by apply map_lookup_filter_None_2; left.
  - rewrite map_filter_insert_False by done. rewrite delete_id by done. lia.
Qed.

Lemma signer_count_delete e k v p :
  e !! k = Some v -> signer_count (delete k e) p = signer_count e p - (if decide (signer k = p) then 1 else 0).
Proof.
  intros Hk. rewrite <- (insert_delete_id e k v Hk) at 2.
  rewrite (signer_count_insert _ _ _ p) by apply lookup_delete_eq. lia.
Qed.

Lemma signer_count_nonneg e p : 0 <= signer_count e p.
Proof. apply msize_nonneg. Qed.

#[local] Hint Resolve signer_count_nonneg : core.

Definition peer_count (s : Impl) (p : list Z) : Z := default 0 (per_peer_ s !! p).

(** Sizes within the policy, counters in step with the table. *)
Record replay_wf (s : Impl) : Prop := {
  wf_size : msize (entries_ s) <= capacity (policy_ s);
  wf_count p : peer_count s p = signer_count (entries_ s) p;
  wf_peer p : signer_count (entries_ s) p <= per_peer_capacity (policy_ s);
  wf_peak : msize (entries_ s) <= peak_entries (diagnostics_ s) <= capacity (policy_ s);
  wf_conserved :
    u64 (msize (entries_ s) + expired_evicted (diagnostics_ s)) = admitted (diagnostics_ s);
}.

Lemma u64_add_l a b : u64 (u64 a + b) = u64 (a + b).
Proof. unfold u64. by rewrite Zplus_mod_idemp_l. Qed.

Lemma u64_add_r a b : u64 (a + u64 b) = u64 (a + b).
Proof. unfold u64. by rewrite Zplus_mod_idemp_r. Qed.

Lemma release_peer_count m g p :
  (forall q, 0 <= default 0 (m !! q)) -> 0 < default 0 (m !! g) ->
  default 0 (release_peer m g !! p) = default 0 (m !! p) - (if decide (g = p) then 1 else 0).
Proof.
  intros Hnn Hg. unfold release_peer. destruct (m !! g) as [n |] eqn:E; cbn in Hg; [| lia].
  rewrite (proj2 (Z.ltb_lt 0 n)) by lia. case_decide as Hp; subst.
  - rewrite E. cbn. destruct (Z.eqb_spec (n - 1) 0).
    + rewrite lookup_delete_eq. cbn. lia.
    + by rewrite lookup_insert_eq.
  - destruct (n - 1 =? 0); [rewrite lookup_delete_ne by done | rewrite lookup_insert_ne by done]; lia.
Qed.

Lemma evict_entry_wf s k v : replay_wf s -> entries_ s !! k = Some v -> replay_wf (evict_entry s k).
Proof.
  intros [Hsz Hc Hp Hpk Hcons] Hk. assert (Hm := msize_delete_old _ _ _ Hk).
  assert (Hg : 0 < peer_count s (signer k)).
  { rewrite Hc. assert (H := signer_count_delete _ _ _ (signer k) Hk). rewrite decide_True in H by done.
    assert (H0 := signer_count_nonneg (delete k (entries_ s)) (signer k)). lia. }
  split; cbn.
  - lia.
  - intros p. unfold peer_count. cbn. rewrite release_peer_count; [| | done].
    + rewrite (signer_count_delete _ _ _ _ Hk), <- Hc. done.
    + intros q. fold (peer_count s q). by rewrite Hc.
  - intros p. rewrite (signer_count_delete _ _ _ _ Hk). specialize (Hp p). case_decide; lia.
  - lia.
  - rewrite u64_add_r. rewrite <- Hcons. f_equal. lia.
Qed.

(** Induction over the eviction loop: it only ever evicts entries that are in
    the table and have expired. *)
Lemma expire_loop_ind (P : Impl -> Prop) s now :
  P s ->
  (forall s k v, P s -> entries_ s !! k = Some v -> v <= now -> P (evict_entry s k)) ->
  P (expire_loop s now (iterate (entries_ s))).
Proof.
  intros HP Hstep.
  assert (Hin : forall k v, (k, v) ∈ iterate (entries_ s) -> entries_ s !! k = Some v)
    by (intros k v; apply elem_of_iterate).
  assert (Hnd := iterate_nodup (entries_ s)). revert Hin Hnd HP. generalize (iterate (entries_ s)) as l.
  intros l. revert s. induction l as [| [k v] l IH]; intros s Hin Hnd HP; [done |].
  cbn [fmap list_fmap fst] in Hnd. apply NoDup_cons in Hnd as [Hk Hnd]. cbn [expire_loop foldl].
  destruct (Z.leb_spec v now) as [Hv | Hv].
  - apply IH; [| done | eapply Hstep; [done | apply Hin; left | done]].
    intros k' v' Hl. cbn. rewrite lookup_delete_ne; [apply Hin; by right |].
    intros ->. apply Hk. apply list_elem_of_fmap. by exists (k', v').
  - apply IH; [| done | done]. intros k' v' Hl. apply Hin. by right.
Qed.

Lemma expire_wf s now : replay_wf s -> replay_wf (expire s now).
Proof.
  intros Hwf. unfold expire.
  assert (H : replay_wf (expire_loop s now (iterate (entries_ s)))).
  { apply expire_loop_ind; [done |]. intros s' k v Hs Hk _. by eapply evict_entry_wf. }
  by destruct H as [? ? ? ? ?].
Qed.

Lemma sweep_wf s now : replay_wf s -> replay_wf (sweep s now).
Proof. intros Hwf. unfold sweep. case_match; [| done]. by destruct (expire_wf s now Hwf). Qed.

Lemma admit_new_wf s k now :
  replay_wf s -> entries_ s !! k = None -> replay_wf (snd (admit_new s k now)).
Proof.
  intros [Hsz Hc Hp Hpk Hcons] Hk. unfold admit_new. cbn -[msize].
  assert (Hpc : forall p v, default 0 (<[signer k := v]> (per_peer_ s) !! p) =
    if decide (signer k = p) then v else peer_count s p).
  { intros p v. case_decide; subst; [by rewrite lookup_insert_eq | by rewrite lookup_insert_ne]. }
  fold (peer_count s (signer k)). assert (Hm := msize_insert_new (entries_ s) k (now + milliseconds (ttl_milliseconds (policy_ s))) Hk).
  destruct (Z.leb_spec (per_peer_capacity (policy_ s)) (peer_count s (signer k))) as [H1 | H1];
    [| destruct (Z.leb_spec (capacity (policy_ s)) (msize (entries_ s))) as [H2 | H2]]; split; cbn -[msize];
    rewrite ?Hm; try done; try lia.
  - intros p. unfold peer_count at 1. cbn. rewrite Hpc. case_decide; subst; apply Hc.
  - intros p. unfold peer_count at 1. cbn. rewrite Hpc. case_decide; subst; apply Hc.
  - intros p. rewrite signer_count_insert by done. unfold peer_count at 1. cbn. rewrite insert_insert_eq, Hpc.
    case_decide; subst; rewrite Hc; lia.
  - intros p. rewrite signer_count_insert by done. specialize (Hp p). case_decide; subst; [| lia].
    rewrite <- Hc. lia.
  - rewrite <- Hcons, u64_add_l. f_equal. lia.
Qed.

Lemma admit_key_wf s k now : replay_wf s -> replay_wf (snd (admit_key s k now)).
Proof.
  intros Hwf%(sweep_wf _ now). unfold admit_key. destruct (entries_ (sweep s now) !! k) as [e |] eqn:E.
  - destruct (now <? e); [by destruct Hwf |].
    apply admit_new_wf; [by eapply evict_entry_wf | apply lookup_delete_eq].
  - by apply admit_new_wf.
Qed.

Lemma replay_perform_wf s c : replay_wf s -> replay_wf (perform s c).
Proof.
  intros Hwf. destruct c as [r now | now]; [| by apply expire_wf]. cbn.
  destruct (admit_request_cases s r now) as [[e ->] | ->]; [done | by apply admit_key_wf].
Qed.

Lemma replay_create_wf policy s : create policy = success s -> replay_wf s /\ s = new_impl policy /\
  ttl_milliseconds policy = replay_cache_ttl_milliseconds.
Proof.
  unfold create, validate_security_policy. intros H. inv_result H. inv_result E. split; [| split; [done | lia]].
  split; cbn; rewrite ?msize_empty; try done; try lia.
  intros p. change (signer_count ∅ p) with 0. lia.
Qed.

(** The replay cache stays within its policy: after any sequence of
    admissions and sweeps at any times, the table has at most [capacity]
    entries, every signer at most [per_peer_capacity], the per-signer counters
    are exact, the peak is a true peak, and admitted keys are conserved: as many
    are in the table as were admitted and not yet evicted. *)
Theorem replay_cache_bounded policy s calls : create policy = success s -> replay_wf (run s calls).
Proof.
  intros (Hwf & _)%replay_create_wf. clear policy. revert s Hwf.
  induction calls as [| c calls IH]; intros s Hwf; [done |]. by apply IH, replay_perform_wf.
Qed.

(** ** The replay window *)

(** [k] is remembered until [e]. *)
Definition remembers (k : ReplayKey) (e : Z) (s : Impl) : Prop := entries_ s !! k = Some e.

Lemma evict_remembers k e s k' : k' <> k -> remembers k e s -> remembers k e (evict_entry s k').
Proof. intros Hne Hk. unfold remembers. cbn. by rewrite lookup_delete_ne. Qed.

Lemma expire_remembers k e s now : now < e -> remembers k e s -> remembers k e (expire s now).
Proof.
  intros Hlt Hk. unfold expire. enough (H : remembers k e (expire_loop s now (iterate (entries_ s)))) by done.
  apply expire_loop_ind; [done |]. intros s' k' v Hs Hk' Hv. apply evict_remembers; [| done].
  intros ->. unfold remembers in Hs. rewrite Hs in Hk'. injection Hk' as ->. lia.
Qed.

Lemma sweep_remembers k e s now : now < e -> remembers k e s -> remembers k e (sweep s now).
Proof. intros Hlt Hk. unfold sweep. case_match; [| done]. by apply expire_remembers. Qed.

Lemma admit_new_remembers k e s k' now : k' <> k -> remembers k e s -> remembers k e (snd (admit_new s k' now)).
Proof.
  intros Hne Hk. unfold admit_new, remembers in *. repeat case_match; cbn; try done. by rewrite lookup_insert_ne.
Qed.

Lemma admit_key_remembered k e s now :
  now < e -> remembers k e s -> fst (admit_key s k now) = SignalingReplayDecision.duplicate /\
  remembers k e (snd (admit_key s k now)).
Proof.
  intros Hlt Hk%(sweep_remembers _ _ _ now Hlt). unfold admit_key. unfold remembers in Hk. rewrite Hk.
  by rewrite (proj2 (Z.ltb_lt now e)).
Qed.

Lemma admit_key_remembers k e s k' now :
  now < e -> remembers k e s -> remembers k e (snd (admit_key s k' now)).
Proof.
  intros Hlt Hk. destruct (decide (k' = k)) as [-> | Hne]; [by apply admit_key_remembered |].
  apply (sweep_remembers _ _ _ now Hlt) in Hk. unfold admit_key.
  destruct (entries_ (sweep s now) !! k') as [e' |]; [| by apply admit_new_remembers].
  destruct (now <? e'); [done |]. by apply admit_new_remembers, evict_remembers.
Qed.

Lemma run_remembers k e s calls :
  Forall (fun c => call_time c < e) calls -> remembers k e s -> remembers k e (run s calls).
Proof.
  intros Hc. revert s. induction Hc as [| c calls Hc _ IH]; intros s Hk; [done |]. apply IH.
  destruct c as [r now | now]; cbn in *; [| by apply expire_remembers].
  destruct (admit_request_cases s r now) as [[? ->] | ->]; [done | by apply admit_key_remembers].
Qed.

Definition window (s : Impl) : Z := milliseconds (ttl_milliseconds (policy_ s)).

Lemma expire_policy s now : policy_ (expire s now) = policy_ s.
Proof.
  unfold expire. cbn. apply (expire_loop_ind (fun s' => policy_ s' = policy_ s)); [done |]. by intros s' k v Hs _ _.
Qed.

Lemma admit_key_admitted s k now s' :
  admit_key s k now = (SignalingReplayDecision.admitted, s') -> remembers k (now + window s) s'.
Proof.
  unfold admit_key. intros H.
  assert (Hp : policy_ (sweep s now) = policy_ s)
    by (unfold sweep; destruct (next_sweep_ s <=? now); [apply expire_policy | done]).
  unfold window. rewrite <- Hp. clear Hp. revert H. generalize (sweep s now) as s0. clear s. intros s H.
  assert (Hnew : forall s0, policy_ s0 = policy_ s -> admit_new s0 k now = (SignalingReplayDecision.admitted, s') ->
    remembers k (now + milliseconds (ttl_milliseconds (policy_ s))) s').
  { clear H. intros s0 <-. unfold admit_new. intros E. repeat case_match; try discriminate E. injection E as <-.
    unfold remembers. cbn. apply lookup_insert_eq. }
  repeat case_match; try discriminate H; (eapply Hnew; [| exact H]; done).
Qed.

Lemma replay_rejected s r t s1 calls t' :
  admit_request s r t = (success SignalingReplayDecision.admitted, s1) ->
  Forall (fun c => call_time c < t + window s) calls -> t' < t + window s ->
  fst (admit_request (run s1 calls) r t') = success SignalingReplayDecision.duplicate.
Proof.
  intros Ha Hc Ht.
  assert (Hk : remembers (request_key r) (t + window s) s1).
  { destruct (admit_request_cases s r t) as [[e E] | E]; rewrite E in Ha; [done |].
    apply admit_key_admitted. destruct (admit_key s (request_key r) t). cbn in Ha. congruence. }
  apply (run_remembers _ _ _ _ Hc) in Hk. apply (admit_key_remembered _ _ _ t' Ht) in Hk as [Hd _].
  destruct (admit_request_cases (run s1 calls) r t') as [[e E] | ->]; [| cbn; by rewrite Hd].
  exfalso. destruct r; cbn in *; unfold admit_signed, admit_connect_request in *; case_match;
    try discriminate Ha; by destruct (admit_key (run _ _) _ _).
Qed.

Lemma admit_new_policy s k now : policy_ (snd (admit_new s k now)) = policy_ s.
Proof. unfold admit_new. by repeat case_match. Qed.

Lemma perform_policy s c : policy_ (perform s c) = policy_ s.
Proof.
  assert (Hsw : forall now, policy_ (sweep s now) = policy_ s)
    by (intros now; unfold sweep; destruct (_ <=? _); [apply expire_policy | done]).
  destruct c as [r now | now]; cbn; [| apply expire_policy].
  destruct (admit_request_cases s r now) as [[? ->] | ->]; [done |]. cbn. unfold admit_key.
  destruct (entries_ (sweep s now) !! request_key r) as [e |]; [destruct (now <? e) |]; cbn;
    rewrite ?admit_new_policy; apply Hsw.
Qed.

Lemma run_policy s calls : policy_ (run s calls) = policy_ s.
Proof.
  revert s. induction calls as [| c calls IH]; intros s; [done |].
  change (run s (c :: calls)) with (run (perform s c) calls). by rewrite IH, perform_policy.
Qed.

(** ** Room in the replay cache *)

(** Every key the cache holds is one of [keys]. *)
Definition holds_only (keys : list ReplayKey) (r : Impl) : Prop :=
  forall k, is_Some (entries_ r !! k) -> k ∈ keys.

Lemma holds_only_size keys r : holds_only keys r -> msize (entries_ r) <= zlen keys.
Proof.
  intros H. unfold msize. rewrite <- size_dom. unfold size, set_size.
  assert (Hs : elements (dom (entries_ r)) ⊆+ keys).
  { apply NoDup_submseteq; [apply NoDup_elements |]. intros k Hk%elem_of_elements%elem_of_dom. by apply H. }
  apply submseteq_length in Hs. unfold zlen. cbn. lia.
Qed.

Lemma signer_count_le_size e p : signer_count e p <= msize e.
Proof.
  unfold signer_count, msize. assert (H := subseteq_size _ _ (subseteq_dom _ _ (map_filter_subseteq
    (fun kv : ReplayKey * Z => signer (fst kv) = p) e))). rewrite !size_dom in H. lia.
Qed.

Lemma sweep_subseteq r now : entries_ (sweep r now) ⊆ entries_ r.
Proof.
  unfold sweep. case_match; [| done]. cbn. unfold expire. cbn.
  apply (expire_loop_ind (fun r' => entries_ r' ⊆ entries_ r)); [done |].
  intros r' k v Hr _ _. cbn. etransitivity; [apply delete_subseteq | done].
Qed.

Lemma sweep_policy r now : policy_ (sweep r now) = policy_ r.
Proof. unfold sweep. case_match; [apply expire_policy | done]. Qed.

(** A new key is admitted while the keys seen so far leave room. *)
Lemma admit_fresh_key keys r k now :
  replay_wf r -> holds_only keys r -> k ∉ keys ->
  zlen keys < per_peer_capacity (policy_ r) -> zlen keys < capacity (policy_ r) ->
  exists r', admit_key r k now = (SignalingReplayDecision.admitted, r') /\
    replay_wf r' /\ holds_only (k :: keys) r' /\ policy_ r' = policy_ r.
Proof.
  intros Hwf Hk Hn Hp Hc.
  assert (Hwf' := admit_key_wf r k now Hwf). apply (sweep_wf _ now) in Hwf.
  assert (Hsub := sweep_subseteq r now). assert (Hpol := sweep_policy r now).
  unfold admit_key in *. revert Hwf Hwf' Hsub Hpol. generalize (sweep r now) as w.
  intros w Hwf Hwf' Hsub Hpol.
  assert (Hw : holds_only keys w) by (intros q [v Hq]; apply Hk; exists v; by eapply lookup_weaken).
  assert (Hnone : entries_ w !! k = None).
  { destruct (entries_ w !! k) as [v |] eqn:E; [| done]. exfalso. apply Hn, Hw. by exists v. }
  rewrite Hnone in *. assert (Hsz := holds_only_size _ _ Hw).
  assert (Hcnt := wf_count _ Hwf (signer k)). unfold peer_count in Hcnt.
  assert (Hle := signer_count_le_size (entries_ w) (signer k)).
  unfold admit_new in *. cbn in Hwf' |- *. rewrite Hpol in *.
  rewrite (proj2 (Z.leb_gt (per_peer_capacity _) _)) in Hwf' |- * by lia.
  rewrite (proj2 (Z.leb_gt (capacity _) _)) in Hwf' |- * by lia.
  eexists. split; [reflexivity |]. split; [done |]. split; [| done].
  intros q. cbn. destruct (decide (q = k)) as [-> | Hq]; [intros; set_solver |].
  rewrite lookup_insert_ne by done. intros Hs%Hw. set_solver.
Qed.

Lemma admit_fresh_signed keys r domain signer req sess nonce resp seq now :
  replay_wf r -> holds_only keys r -> signed_key domain signer req sess nonce resp seq ∉ keys ->
  zlen keys < per_peer_capacity (policy_ r) -> zlen keys < capacity (policy_ r) ->
  all_zero signer = false ->
  exists r', admit_signed r domain signer req sess nonce resp seq now =
      (success SignalingReplayDecision.admitted, r') /\
    replay_wf r' /\ holds_only (signed_key domain signer req sess nonce resp seq :: keys) r' /\
    policy_ r' = policy_ r.
Proof.
  intros Hwf Hk Hn Hp Hc Hz. destruct (admit_fresh_key keys r _ now Hwf Hk Hn Hp Hc) as (r' & E & H).
  exists r'. unfold admit_signed. by rewrite Hz, E.
Qed.

(** How far wall clock and steady clock may drift apart between two sightings
    of one object. *)
Definition clock_slack_milliseconds : Z := 269999.

(** C28. A signed object is acted on at most once: an object that passed the
    expiry check and was admitted by a node's replay cache is a duplicate
    whenever it passes the expiry check again, whatever the cache did in
    between, as long as the node's two clocks drift apart by less than four and
    a half minutes. The cache's ten minutes outlast the five minutes a
    signature may be valid and the thirty seconds of tolerated skew. *)
Theorem signed_object_not_replayed policy s0 before r expires w1 t1 s1 between w2 t2 :
  create policy = success s0 ->
  is_u64 expires -> is_u64 w1 -> is_u64 w2 ->
  validate_signed_expiry expires w1 = success tt ->
  admit_request (run s0 before) r t1 = (success SignalingReplayDecision.admitted, s1) ->
  Forall (fun c => call_time c <= t2) between ->
  t2 - t1 <= milliseconds (w2 - w1 + clock_slack_milliseconds) ->
  validate_signed_expiry expires w2 = success tt ->
  fst (admit_request (run s1 between) r t2) = success SignalingReplayDecision.duplicate.
Proof.
  intros (_ & -> & Httl)%replay_create_wf He Hw1 Hw2 Hv1 Ha Hb Ht Hv2.
  apply validate_signed_expiry_window in Hv1, Hv2; [| done..].
  assert (Hlt : t2 < t1 + window (run (new_impl policy) before)).
  { unfold window. rewrite run_policy. cbn. rewrite Httl.
    unfold milliseconds, clock_slack_milliseconds, maximum_expiry_clock_skew_milliseconds,
      maximum_signed_validity_milliseconds, replay_cache_ttl_milliseconds in *. lia. }
  eapply replay_rejected; [exact Ha | | exact Hlt].
  eapply Forall_impl; [exact Hb |]. intros c Hc. cbn in Hc. lia.
Qed.

(** ** The per-signer table *)

Definition request_signer (r : request) : list Z := signer (request_key r).

(** Requests the entry points do not turn away at once. *)
Definition request_nonzero (r : request) : Prop :=
  match r with
  | Signed _ signer _ _ _ _ _ => all_zero signer = false
  | Connect sender req => all_zero sender = false /\ all_zero req = false
  end.

Lemma admit_full s r now :
  request_nonzero r -> now < next_sweep_ s -> capacity (policy_ s) <= msize (entries_ s) ->
  0 < per_peer_capacity (policy_ s) -> entries_ s !! request_key r = None ->
  per_peer_ s !! request_signer r = None ->
  fst (admit_request s r now) = success SignalingReplayDecision.capacity_rejected /\
  exists d, snd (admit_request s r now) =
    mkImpl (policy_ s) (entries_ s) (<[request_signer r := 0]> (per_peer_ s)) (next_sweep_ s) d.
Proof.
  intros Hr Hsw Hcap Hpc Hk Hs.
  assert (E : exists d, admit_key s (request_key r) now = (SignalingReplayDecision.capacity_rejected,
    mkImpl (policy_ s) (entries_ s) (<[request_signer r := 0]> (per_peer_ s)) (next_sweep_ s) d)).
  { unfold admit_key, sweep. rewrite (proj2 (Z.leb_gt (next_sweep_ s) now)) by lia. rewrite Hk.
    unfold admit_new. fold (request_signer r). rewrite Hs. cbn [default].
    rewrite (proj2 (Z.leb_gt _ _)) by (cbn; lia). cbn -[msize].
    rewrite (proj2 (Z.leb_le _ _)) by lia. eexists. done. }
  destruct E as [d E].
  destruct r; cbn in *; unfold admit_signed, admit_connect_request;
    [rewrite Hr | destruct Hr as [-> ->]; cbn [orb]]; rewrite E; eauto.
Qed.

Lemma release_peer_zero m g p : m !! p = Some 0 -> release_peer m g !! p = Some 0.
Proof.
  intros Hp. unfold release_peer. destruct (m !! g) as [n |] eqn:E; [| done].
  destruct (Z.ltb_spec 0 n); [| done]. assert (g <> p) by (intros ->; rewrite E in Hp; injection Hp as ->; lia).
  destruct (n - 1 =? 0); [by rewrite lookup_delete_ne | by rewrite lookup_insert_ne].
Qed.

Lemma expire_zero s now p : per_peer_ s !! p = Some 0 -> per_peer_ (expire s now) !! p = Some 0.
Proof.
  intros Hp. unfold expire. cbn. apply (expire_loop_ind (fun s' => per_peer_ s' !! p = Some 0)); [done |].
  intros s' k v Hs _ _. by apply release_peer_zero.
Qed.

(** Rejections leak: while the cache is full, each rejected request of a
    signer without entries adds that signer to the per-signer table with the
    count zero, and no sweep, however late, removes it. Neither the table's
    capacity nor the expiry bounds how many such records accumulate. *)
Theorem rejected_signers_accumulate s rs now :
  now < next_sweep_ s -> capacity (policy_ s) <= msize (entries_ s) -> 0 < per_peer_capacity (policy_ s) ->
  NoDup (request_signer <$> rs) ->
  Forall (fun r => request_nonzero r /\ entries_ s !! request_key r = None /\
                   per_peer_ s !! request_signer r = None) rs ->
  let s' := run s (map (fun r => Admit r now) rs) in
  msize (entries_ s') = msize (entries_ s) /\
  msize (per_peer_ s') = msize (per_peer_ s) + zlen rs /\
  forall later, Forall (fun r => per_peer_ (expire s' later) !! request_signer r = Some 0) rs.
Proof.
  intros Hsw Hcap Hpc Hnd Hrs s'.
  enough (Hgen : msize (entries_ s') = msize (entries_ s) /\ msize (per_peer_ s') = msize (per_peer_ s) + zlen rs /\
    Forall (fun r => per_peer_ s' !! request_signer r = Some 0) rs /\
    forall p, per_peer_ s !! p = Some 0 -> per_peer_ s' !! p = Some 0).
  { destruct Hgen as (H1 & H2 & H3 & _). do 2 (split; [done |]). intros later.
    eapply Forall_impl; [exact H3 |]. intros r. apply expire_zero. }
  subst s'. revert s Hsw Hcap Hpc Hrs. induction rs as [| r rs IH]; intros s Hsw Hcap Hpc Hrs; cbn [map].
  { cbn. rewrite zlen_nil. split_and!; [done | lia | apply List.Forall_nil | done]. }
  cbn [fmap list_fmap] in Hnd. apply NoDup_cons in Hnd as [Hn Hnd]. inversion Hrs as [| ? ? (R1 & R2 & R3) Hrs']; subst.
  destruct (admit_full s r now R1 Hsw Hcap Hpc R2 R3) as (_ & d & E).
  change (run s (Admit r now :: ?l)) with (run (snd (admit_request s r now)) l). rewrite E.
  destruct (IH Hnd (mkImpl (policy_ s) (entries_ s) (<[request_signer r := 0]> (per_peer_ s)) (next_sweep_ s) d))
    as (H1 & H2 & H3 & H4); [done.. | |].
  { apply Forall_forall. intros q Hq. rewrite Forall_forall in Hrs'. destruct (Hrs' q Hq) as (Q1 & Q2 & Q3).
    split_and!; [done | done |]. cbn. rewrite lookup_insert_ne; [done |]. intros Heq. apply Hn. rewrite Heq.
    apply list_elem_of_fmap. eauto. }
  cbn -[msize] in *. rewrite H1, H2, msize_insert_new by done. autorewrite with wire.
  split_and!; [done | lia | apply List.Forall_cons; [apply H4, lookup_insert_eq | done] |].
  intros p Hp. apply H4. rewrite lookup_insert_ne; [done |]. intros Heq. by rewrite Heq, Hp in R3.
Qed.

(** ** Witnesses *)

Definition sample_policy : ReplayCachePolicy := mkReplayCachePolicy replay_cache_ttl_milliseconds 64 64.

Definition sample_request (peer id : Z) : request :=
  Signed SigningDomain.offer (repeat peer 32) (repeat id 16) (repeat 7 16) (repeat 8 32) None None.

Lemma replay_key_order_witness :
  key_lt (request_key (sample_request 1 1)) (request_key (sample_request 1 1)) = false /\
  (key_lt (request_key (sample_request 1 1)) (request_key (sample_request 2 1)) = true ->
   key_lt (request_key (sample_request 2 1)) (request_key (Connect (repeat 1 32) (repeat 1 16))) = true ->
   key_lt (request_key (sample_request 1 1)) (request_key (Connect (repeat 1 32) (repeat 1 16))) = true) /\
  (key_lt (request_key (sample_request 1 1)) (request_key (sample_request 2 1)) = false /\
   key_lt (request_key (sample_request 2 1)) (request_key (sample_request 1 1)) = false
   <-> sample_request 1 1 = sample_request 2 1).
Proof. apply replay_key_order; vm_compute; repeat split; reflexivity. Defined.

Lemma replay_cache_bounded_witness :
  replay_wf (run (new_impl sample_policy) [Admit (sample_request 1 1) 5; Expire 7; Admit (sample_request 1 1) 9]).
Proof. apply (replay_cache_bounded sample_policy). vm_compute. reflexivity. Defined.

Lemma signed_object_not_replayed_witness :
  fst (admit_request (run (snd (admit_request (new_impl sample_policy) (sample_request 1 1) 1000))
                       [Admit (sample_request 2 2) 2000; Expire (milliseconds 300000)])
         (sample_request 1 1) (milliseconds 329000)) =
  success SignalingReplayDecision.duplicate.
Proof.
  apply (signed_object_not_replayed sample_policy (new_impl sample_policy) [] (sample_request 1 1)
    1300000 1000000 1000 _ _ 1329000 (milliseconds 329000)).
  - vm_compute. reflexivity.
  - concrete.
  - concrete.
  - concrete.
  - vm_compute. reflexivity.
  - vm_compute. reflexivity.
  - repeat apply List.Forall_cons; try apply List.Forall_nil; vm_compute; discriminate.
  - vm_compute. discriminate.
  - vm_compute. reflexivity.
Defined.

(** Without the bound on the drift the object is acted on twice: its wall clock stands
    still, so it stays valid, and ten minutes later the cache has forgotten it. *)
Lemma clock_drift_readmits :
  validate_signed_expiry 1300000 1000000 = success tt /\
  fst (admit_request (snd (admit_request (new_impl sample_policy) (sample_request 1 1) 1000))
         (sample_request 1 1) (1000 + milliseconds 600000)) = success SignalingReplayDecision.admitted.
Proof. vm_compute. split; reflexivity. Qed.

(** A full cache: one signer, sixty-four requests. *)
Definition full_cache : Impl :=
  run (new_impl sample_policy) (map (fun i => Admit (sample_request 1 (Z.of_nat i)) 5) (seq 0 64)).

Lemma rejected_signers_accumulate_witness :
  msize (per_peer_ (run full_cache (map (fun r => Admit r 6) [sample_request 2 1; sample_request 3 1]))) = 3.
Proof.
  assert (H := rejected_signers_accumulate full_cache [sample_request 2 1; sample_request 3 1] 6).
  destruct H as (_ & H & _).
  - vm_compute. reflexivity.
  - vm_compute. discriminate.
  - vm_compute. reflexivity.
  - apply (bool_decide_unpack _). vm_compute. exact I.
  - repeat apply List.Forall_cons; try apply List.Forall_nil; (split; [| split]); vm_compute; reflexivity.
  - rewrite H. vm_compute. reflexivity.
Defined.
