(* ===== verification/SessionRestart.v ===== *)
(** * Session restart

    [include/heyaki/session_restart.hpp] and [src/core/session_restart.cpp]: an
    authenticated session negotiates a replacement transport by exchanging fresh
    signed offers, answers and candidates over its own control channel. The four
    places where [src/client/node.cpp] drives an admission (registering its own
    offer, answering, preparing a candidate) are modelled beside it, since they
    decide what is signed and in which order.

    The theorems: an honest exchange is admitted at both ends, which then agree on
    the nonces, the transcript and each other's fingerprint and ufrag, and the
    candidates that follow are all admitted; of two simultaneous offers exactly one
    survives, at both ends the same; and whatever arrives, what is admitted was
    signed by the peer for this session, at most one answer and 128 candidates with
    increasing sequence numbers. *)

From Stdlib Require Import ZArith Lia ZifyBool String.
From stdpp Require Import base tactics option list gmap sorting numbers strings.
From S2P Require Import Prelude Errors Varint Identifiers ProtoCodec FieldCodec Security Identity Signing.
From S2P Require Import Clock ReplayCache SignalingProtocol.
#[local] Open Scope Z_scope.

Module SessionRestart.
Import Identifiers Security Identity Signing SignalingProtocol.

Definition max_session_restart_candidates : Z := 128.
Definition session_restart_validity_milliseconds : Z := 30000.

Definition restart_error (code : ErrorCode) (detail : string) : Error :=
  make_error code "session_restart" detail.

Record SessionRestartDiagnostics : Type := mkRestartDiagnostics {
  offers_admitted : Z;
  answers_admitted : Z;
  candidates_admitted : Z;
  duplicates_ignored : Z;
  replay_rejected : Z;
  glare_suppressed : Z;
  rejected : Z;
}.

Record SessionRestartContext : Type := mkRestartContext {
  local : DeviceEndpointKey;
  peer : DeviceEndpointKey;
  restart_session : list Z;
  current_epoch : Z;
  peer_public_key : list Z;
  replay_policy : ReplayCachePolicy;
}.

(** [operator>] of the byte arrays. *)
Definition session_restart_offer_wins (candidate other : list Z) : bool := lex_lt other candidate.

Definition same_binding_endpoints (b : SignalBinding) (i r : DeviceEndpointKey) : bool :=
  key_eqb (initiator b) i && key_eqb (responder b) r.

(** [now_unix_milliseconds + session_restart_validity_milliseconds]. *)
Definition restart_expiry (now : Z) : Z := u64 (now + session_restart_validity_milliseconds).

Section signing.
Context `{Sodium}.

Definition build_session_restart_offer (context : SessionRestartContext) (identity : IdentityKeyPair)
    (request initiator_nonce text fingerprint : list Z) (now : Z) : Result (list Z) :=
  let offer := mkDescription
    (mkBinding (local context) (peer context) request (restart_session context) initiator_nonce
       (restart_expiry now) None) text fingerprint (repeat 0 64) in
  let? offer := sign_signed_offer offer identity in
  encode_signed_offer offer.

Definition build_session_restart_answer (context : SessionRestartContext) (identity : IdentityKeyPair)
    (request initiator_nonce responder_nonce text fingerprint : list Z) (now : Z) : Result (list Z) :=
  let answer := mkDescription
    (mkBinding (peer context) (local context) request (restart_session context) initiator_nonce
       (restart_expiry now) (Some responder_nonce)) text fingerprint (repeat 0 64) in
  let? answer := sign_signed_answer answer identity in
  encode_signed_answer answer.

Definition with_expiry (b : SignalBinding) (expires : Z) : SignalBinding :=
  mkBinding (initiator b) (responder b) (request_id b) (session_id b) (initiator_nonce b) expires
    (responder_nonce b).

Definition build_session_restart_candidate (identity : IdentityKeyPair) (b : SignalBinding)
    (sequence : Z) (candidate transcript owner_ufrag owner_fingerprint : list Z) (now : Z)
    : Result (list Z) :=
  let object := mkCandidate (with_expiry b (restart_expiry now)) sequence candidate transcript
    owner_ufrag owner_fingerprint (repeat 0 64) in
  let? object := sign_signed_candidate object identity in
  encode_signed_candidate object.

End signing.

Record AdmittedSessionRestartOffer : Type := mkAdmittedOffer {
  offer : SignedOffer;
  canonical_offer : list Z;
  next_epoch : Z;
  supersedes_local_restart : bool;
}.

Record AdmittedSessionRestartAnswer : Type := mkAdmittedAnswer {
  answer : SignedAnswer;
  canonical_answer : list Z;
  answer_transcript : list Z;
}.

(** [class SessionRestartAdmission]. *)
Record SessionRestartAdmission : Type := mkRestartAdmission {
  context_ : SessionRestartContext;
  replay_ : option ReplayCache.Impl;
  diagnostics_ : SessionRestartDiagnostics;
  accepted_request_ : option (list Z);
  canonical_offer_ : option (list Z);
  initiator_nonce_ : option (list Z);
  responder_nonce_ : option (list Z);
  transcript_ : option (list Z);
  peer_fingerprint_ : option (list Z);
  peer_ufrag_ : option (list Z);
  local_restart_ : option (list Z);
  accepted_candidates_ : gmap Z (list Z);
  peer_candidate_sequence_ : Z;
  admitted_candidates_ : Z;
}.

Definition no_diagnostics : SessionRestartDiagnostics := mkRestartDiagnostics 0 0 0 0 0 0 0.

(** The constructor; a refused policy leaves [replay_] empty. *)
Definition new_restart_admission (context : SessionRestartContext) : SessionRestartAdmission :=
  mkRestartAdmission context
    (match ReplayCache.create (replay_policy context) with success r => Some r | failure _ => None end)
    no_diagnostics None None None None None None None None ∅ 0 0.

(** The increments of [diagnostics_]. *)
Inductive RestartCounter : Type :=
  | OffersAdmitted | AnswersAdmitted | CandidatesAdmitted | DuplicatesIgnored | ReplayRejected
  | GlareSuppressed | Rejected.

Definition bump (c : RestartCounter) (d : SessionRestartDiagnostics) : SessionRestartDiagnostics :=
  let '(mkRestartDiagnostics a b e f g h i) := d in
  match c with
  | OffersAdmitted => mkRestartDiagnostics (u64 (a + 1)) b e f g h i
  | AnswersAdmitted => mkRestartDiagnostics a (u64 (b + 1)) e f g h i
  | CandidatesAdmitted => mkRestartDiagnostics a b (u64 (e + 1)) f g h i
  | DuplicatesIgnored => mkRestartDiagnostics a b e (u64 (f + 1)) g h i
  | ReplayRejected => mkRestartDiagnostics a b e f (u64 (g + 1)) h i
  | GlareSuppressed => mkRestartDiagnostics a b e f g (u64 (h + 1)) i
  | Rejected => mkRestartDiagnostics a b e f g h (u64 (i + 1))
  end.

Definition count (c : RestartCounter) (s : SessionRestartAdmission) : SessionRestartAdmission :=
  mkRestartAdmission (context_ s) (replay_ s) (bump c (diagnostics_ s)) (accepted_request_ s)
    (canonical_offer_ s) (initiator_nonce_ s) (responder_nonce_ s) (transcript_ s)
    (peer_fingerprint_ s) (peer_ufrag_ s) (local_restart_ s) (accepted_candidates_ s)
    (peer_candidate_sequence_ s) (admitted_candidates_ s).

Definition with_replay (s : SessionRestartAdmission) (r : ReplayCache.Impl) : SessionRestartAdmission :=
  mkRestartAdmission (context_ s) (Some r) (diagnostics_ s) (accepted_request_ s)
    (canonical_offer_ s) (initiator_nonce_ s) (responder_nonce_ s) (transcript_ s)
    (peer_fingerprint_ s) (peer_ufrag_ s) (local_restart_ s) (accepted_candidates_ s)
    (peer_candidate_sequence_ s) (admitted_candidates_ s).

Definition set_local_restart (s : SessionRestartAdmission) (request restart_initiator_nonce canonical : list Z)
    : SessionRestartAdmission :=
  mkRestartAdmission (context_ s) (replay_ s) (diagnostics_ s) (Some request) (Some canonical)
    (Some restart_initiator_nonce) (responder_nonce_ s) (transcript_ s) (peer_fingerprint_ s)
    (peer_ufrag_ s) (Some request) (accepted_candidates_ s) (peer_candidate_sequence_ s)
    (admitted_candidates_ s).

(** [!= *optional], where the optional is known to hold a value or compares
    unequal when it does not. *)
Definition holds (o : option (list Z)) (v : list Z) : bool :=
  match o with Some w => bytes_eqb w v | None => false end.

(** The exit of every failed check: [++diagnostics_.rejected] and the error. *)
Definition reject {A} (s : SessionRestartAdmission) (e : Error)
    : Result (option A) * SessionRestartAdmission := (failure e, count Rejected s).

Section admission.
Context `{Sodium}.

Definition set_local_restart_answer (s : SessionRestartAdmission) (nonce canonical : list Z)
    : Result unit * SessionRestartAdmission :=
  match canonical_offer_ s with
  | None => (failure (restart_error ErrorCode.internal "restart_answer_without_offer"), s)
  | Some offer =>
      match hash_signaling_transcript offer canonical with
      | failure e => (failure e, s)
      | success transcript =>
          (success tt,
           mkRestartAdmission (context_ s) (replay_ s) (diagnostics_ s) (accepted_request_ s)
             (canonical_offer_ s) (initiator_nonce_ s) (Some nonce) (Some transcript)
             (peer_fingerprint_ s) (peer_ufrag_ s) (local_restart_ s) (accepted_candidates_ s)
             (peer_candidate_sequence_ s) (admitted_candidates_ s))
      end
  end.

(** The state an admitted offer leaves. *)
Definition take_offer (s : SessionRestartAdmission) (o : SignedOffer) (canonical ufrag : list Z)
    : SessionRestartAdmission :=
  count OffersAdmitted
    (mkRestartAdmission (context_ s) (replay_ s) (diagnostics_ s) (Some (request_id (binding o)))
       (Some canonical) (Some (initiator_nonce (binding o))) (responder_nonce_ s) (transcript_ s)
       (Some (dtls_fingerprint o)) (Some ufrag) (local_restart_ s) (accepted_candidates_ s)
       (peer_candidate_sequence_ s) (admitted_candidates_ s)).

(** The part of [admit_offer] after the glare and conflict checks. *)
Definition replay_offer (s : SessionRestartAdmission) (replay : ReplayCache.Impl) (o : SignedOffer)
    (canonical ufrag : list Z) (glare_candidate : bool) (clock : Z)
    : Result (option AdmittedSessionRestartOffer) * SessionRestartAdmission :=
  let b := binding o in
  let '(decision, replay) := ReplayCache.admit_signed replay SigningDomain.offer
    (key_device_id (peer (context_ s))) (request_id b) (session_id b) (initiator_nonce b) None None clock in
  let s := with_replay s replay in
  match decision with
  | failure e => (failure e, count ReplayRejected s)
  | success SignalingReplayDecision.duplicate =>
      (failure (restart_error ErrorCode.protocol "restart_offer_replayed"), count ReplayRejected s)
  | success SignalingReplayDecision.capacity_rejected =>
      (failure (restart_error ErrorCode.resource_exhausted "replay_cache_saturated"), count ReplayRejected s)
  | success SignalingReplayDecision.admitted =>
      (success (Some (mkAdmittedOffer o canonical (u64 (current_epoch (context_ s) + 1)) glare_candidate)),
       take_offer s o canonical ufrag)
  end.

(** The part of [admit_offer] after the checks of the offer itself: the glare and
    conflict rules. *)
Definition decide_offer (s : SessionRestartAdmission) (replay : ReplayCache.Impl) (o : SignedOffer)
    (canonical ufrag : list Z) (clock : Z)
    : Result (option AdmittedSessionRestartOffer) * SessionRestartAdmission :=
  let request := request_id (binding o) in
  let glare_candidate :=
    match local_restart_ s with Some r => negb (bytes_eqb request r) | None => false end in
  if glare_candidate && negb (session_restart_offer_wins request (default [] (local_restart_ s)))
  then (success None, count GlareSuppressed s) else
  match accepted_request_ s with
  | None => replay_offer s replay o canonical ufrag glare_candidate clock
  | Some accepted =>
      if bytes_eqb accepted request then (success None, count DuplicatesIgnored s)
      else if negb glare_candidate
      then reject s (restart_error ErrorCode.protocol "restart_offer_conflict")
      else replay_offer s replay o canonical ufrag glare_candidate clock
  end.

(** Wall clock [now], steady clock [clock]. *)
Definition admit_offer (s : SessionRestartAdmission) (payload : list Z) (now clock : Z)
    : Result (option AdmittedSessionRestartOffer) * SessionRestartAdmission :=
  match replay_ s with
  | None => (failure (restart_error ErrorCode.internal "restart_replay_cache_unavailable"), s)
  | Some replay =>
  match parse_signed_offer payload with
  | failure e => reject s e
  | success o =>
  let b := binding o in
  if negb (same_binding_endpoints b (peer (context_ s)) (local (context_ s)))
     || negb (bytes_eqb (session_id b) (restart_session (context_ s))) || seen (responder_nonce b)
  then reject s (restart_error ErrorCode.protocol "restart_offer_binding_mismatch") else
  match verify_signed_offer o (peer_public_key (context_ s)) now with
  | failure e => reject s e
  | success _ =>
  match parse_sdp_ice_ufrag (sdp o) with
  | failure e => reject s e
  | success ufrag =>
  match canonical_signed_offer o with
  | failure e => reject s e
  | success canonical =>
  decide_offer s replay o canonical ufrag clock
  end end end end end.

(** The part of [admit_answer] after the duplicate check. *)
Definition replay_answer (s : SessionRestartAdmission) (replay : ReplayCache.Impl) (a : SignedAnswer)
    (canonical ufrag transcript : list Z) (clock : Z)
    : Result (option AdmittedSessionRestartAnswer) * SessionRestartAdmission :=
  let b := binding a in
  let '(decision, replay) := ReplayCache.admit_signed replay SigningDomain.answer
    (key_device_id (peer (context_ s))) (request_id b) (session_id b) (initiator_nonce b)
    (responder_nonce b) None clock in
  let s := with_replay s replay in
  match decision with
  | failure e => (failure e, count ReplayRejected s)
  | success SignalingReplayDecision.duplicate =>
      (failure (restart_error ErrorCode.protocol "restart_answer_replayed"), count ReplayRejected s)
  | success SignalingReplayDecision.capacity_rejected =>
      (failure (restart_error ErrorCode.resource_exhausted "replay_cache_saturated"), count ReplayRejected s)
  | success SignalingReplayDecision.admitted =>
      (success (Some (mkAdmittedAnswer a canonical transcript)),
       count AnswersAdmitted
         (mkRestartAdmission (context_ s) (replay_ s) (diagnostics_ s) (accepted_request_ s)
            (canonical_offer_ s) (initiator_nonce_ s) (responder_nonce b) (Some transcript)
            (Some (dtls_fingerprint a)) (Some ufrag) (local_restart_ s) (accepted_candidates_ s)
            (peer_candidate_sequence_ s) (admitted_candidates_ s)))
  end.

Definition admit_answer (s : SessionRestartAdmission) (payload : list Z) (now clock : Z)
    : Result (option AdmittedSessionRestartAnswer) * SessionRestartAdmission :=
  match replay_ s with
  | None => (failure (restart_error ErrorCode.internal "restart_replay_cache_unavailable"), s)
  | Some replay =>
  match parse_signed_answer payload with
  | failure e => reject s e
  | success a =>
  let b := binding a in
  match accepted_request_ s, initiator_nonce_ s, canonical_offer_ s, local_restart_ s with
  | Some accepted, Some nonce, Some canonical_offer, Some _ =>
  if negb (same_binding_endpoints b (local (context_ s)) (peer (context_ s)))
     || negb (bytes_eqb (request_id b) accepted)
     || negb (bytes_eqb (session_id b) (restart_session (context_ s)))
     || negb (bytes_eqb (initiator_nonce b) nonce) || negb (seen (responder_nonce b))
  then reject s (restart_error ErrorCode.protocol "restart_answer_binding_mismatch") else
  match verify_signed_answer a (peer_public_key (context_ s)) now with
  | failure e => reject s e
  | success _ =>
  match parse_sdp_ice_ufrag (sdp a) with
  | failure e => reject s e
  | success ufrag =>
  match canonical_signed_answer a with
  | failure e => reject s e
  | success canonical =>
  match responder_nonce_ s with
  | Some known =>
      if holds (responder_nonce b) known then (success None, count DuplicatesIgnored s)
      else reject s (restart_error ErrorCode.protocol "restart_answer_conflict")
  | None =>
  match hash_signaling_transcript canonical_offer canonical with
  | failure e => reject s e
  | success transcript => replay_answer s replay a canonical ufrag transcript clock
  end
  end
  end end end
  | _, _, _, _ => reject s (restart_error ErrorCode.protocol "restart_answer_without_local_restart")
  end
  end end.

(** [std::map::emplace] keeps an element that is already there. *)
Definition emplace (m : gmap Z (list Z)) (k : Z) (v : list Z) : gmap Z (list Z) :=
  match m !! k with Some _ => m | None => <[k := v]> m end.

(** The part of [admit_candidate] after the budget check. *)
Definition replay_candidate (s : SessionRestartAdmission) (replay : ReplayCache.Impl) (c : SignedCandidate)
    (payload : list Z) (clock : Z) : Result (option SignedCandidate) * SessionRestartAdmission :=
  let b := candidate_binding c in
  let '(decision, replay) := ReplayCache.admit_signed replay SigningDomain.candidate
    (key_device_id (peer (context_ s))) (request_id b) (session_id b) (initiator_nonce b)
    (responder_nonce b) (Some (sequence c)) clock in
  let s := with_replay s replay in
  match decision with
  | failure e => (failure e, count ReplayRejected s)
  | success SignalingReplayDecision.duplicate =>
      if holds (accepted_candidates_ s !! sequence c) payload
      then (success None, count DuplicatesIgnored s)
      else reject s (restart_error ErrorCode.protocol "restart_candidate_duplicate_bytes_differ")
  | success SignalingReplayDecision.capacity_rejected =>
      (failure (restart_error ErrorCode.resource_exhausted "replay_cache_saturated"), count ReplayRejected s)
  | success SignalingReplayDecision.admitted =>
      if sequence c <=? peer_candidate_sequence_ s
      then reject s (restart_error ErrorCode.protocol "restart_candidate_sequence_not_increasing")
      else
        (success (Some c),
         count CandidatesAdmitted
           (mkRestartAdmission (context_ s) (replay_ s) (diagnostics_ s) (accepted_request_ s)
              (canonical_offer_ s) (initiator_nonce_ s) (responder_nonce_ s) (transcript_ s)
              (peer_fingerprint_ s) (peer_ufrag_ s) (local_restart_ s)
              (emplace (accepted_candidates_ s) (sequence c) payload) (sequence c)
              (u32 (admitted_candidates_ s + 1))))
  end.

Definition admit_candidate (s : SessionRestartAdmission) (payload : list Z) (now clock : Z)
    : Result (option SignedCandidate) * SessionRestartAdmission :=
  match replay_ s with
  | None => (failure (restart_error ErrorCode.internal "restart_replay_cache_unavailable"), s)
  | Some replay =>
  match parse_signed_candidate payload with
  | failure e => reject s e
  | success c =>
  let b := candidate_binding c in
  match accepted_request_ s, initiator_nonce_ s, responder_nonce_ s, transcript_ s with
  | Some accepted, Some i_nonce, Some r_nonce, Some transcript =>
  let local_is_initiator := seen (local_restart_ s) in
  let expected_initiator := if local_is_initiator then local (context_ s) else peer (context_ s) in
  let expected_responder := if local_is_initiator then peer (context_ s) else local (context_ s) in
  if negb (key_eqb (initiator b) expected_initiator) || negb (key_eqb (responder b) expected_responder)
     || negb (bytes_eqb (request_id b) accepted)
     || negb (bytes_eqb (session_id b) (restart_session (context_ s)))
     || negb (bytes_eqb (initiator_nonce b) i_nonce) || negb (holds (responder_nonce b) r_nonce)
  then reject s (restart_error ErrorCode.protocol "restart_candidate_binding_mismatch") else
  match verify_signed_candidate c (peer_public_key (context_ s)) now with
  | failure e => reject s e
  | success _ =>
  if negb (bytes_eqb (candidate_transcript c) transcript)
     || negb (holds (peer_fingerprint_ s) (owner_dtls_fingerprint c))
     || negb (holds (peer_ufrag_ s) (owner_ice_ufrag c))
  then reject s (restart_error ErrorCode.protocol "restart_candidate_transcript_mismatch") else
  if max_session_restart_candidates <=? admitted_candidates_ s
  then reject s (restart_error ErrorCode.resource_exhausted "restart_candidate_budget_exhausted") else
  replay_candidate s replay c payload clock
  end
  | _, _, _, _ => reject s (restart_error ErrorCode.protocol "restart_candidate_before_answer")
  end
  end end.

(** The accessors. *)
Definition answer_admitted (s : SessionRestartAdmission) : bool := seen (responder_nonce_ s).

(** ** What the node does with an admission *)

(** [Node::handle_restart_local_description] for an offer: the bytes to send, and
    the admission with the offer registered. *)
Definition register_offer (s : SessionRestartAdmission) (identity : IdentityKeyPair)
    (request local_nonce text fingerprint : list Z) (now : Z) : Result (list Z * SessionRestartAdmission) :=
  let? payload := build_session_restart_offer (context_ s) identity request local_nonce text fingerprint now in
  let? parsed := parse_signed_offer payload in
  let? canonical := canonical_signed_offer parsed in
  success (payload, set_local_restart s request local_nonce canonical).

(** The same for an answer; [request] is the record's request id. *)
Definition register_answer (s : SessionRestartAdmission) (identity : IdentityKeyPair)
    (request local_nonce text fingerprint : list Z) (now : Z) : Result (list Z * SessionRestartAdmission) :=
  let? payload := build_session_restart_answer (context_ s) identity request
    (default local_nonce (initiator_nonce_ s)) local_nonce text fingerprint now in
  let? parsed := parse_signed_answer payload in
  let? canonical := canonical_signed_answer parsed in
  let '(registered, s) := set_local_restart_answer s local_nonce canonical in
  let? _ := registered in
  success (payload, s).

(** [Node::send_restart_candidate]: the bytes sent for the candidate that follows
    [local_candidate_sequence] others. *)
Definition prepare_candidate (s : SessionRestartAdmission) (identity : IdentityKeyPair) (is_initiator : bool)
    (request local_nonce local_ufrag local_fingerprint : list Z) (local_candidate_sequence : Z)
    (candidate : list Z) (now : Z) : Result (list Z) :=
  fail_if local_candidate_sequence =? u32_max
    with make_error ErrorCode.resource_exhausted "node" "restart_candidate_sequence_exhausted";
  let c := context_ s in
  let b := mkBinding (if is_initiator then local c else peer c) (if is_initiator then peer c else local c)
    request (restart_session c) (default local_nonce (initiator_nonce_ s)) 0
    (Some (default local_nonce (responder_nonce_ s))) in
  build_session_restart_candidate identity b (u32 (local_candidate_sequence + 1)) candidate
    (default (repeat 0 32) (transcript_ s)) local_ufrag local_fingerprint now.

(** [Node::flush_restart_local_candidates]: the queue of pending candidates, each
    with the time it is signed at, becomes one payload each, in order. *)
Fixpoint flush_candidates (s : SessionRestartAdmission) (identity : IdentityKeyPair) (is_initiator : bool)
    (request local_nonce local_ufrag local_fingerprint : list Z) (local_candidate_sequence : Z)
    (pending : list (list Z * Z)) : Result (list (list Z)) :=
  match pending with
  | [] => success []
  | (candidate, now) :: pending =>
      let? payload := prepare_candidate s identity is_initiator request local_nonce local_ufrag
        local_fingerprint local_candidate_sequence candidate now in
      let? payloads := flush_candidates s identity is_initiator request local_nonce local_ufrag
        local_fingerprint (u32 (local_candidate_sequence + 1)) pending in
      success (payload :: payloads)
  end.

(** The payloads that arrive at [Node::handle_restart_candidate], with the times
    they are handled at; a failure fails the session. *)
Fixpoint admit_candidates (s : SessionRestartAdmission) (arrivals : list (list Z * Z * Z))
    : Result (list (option SignedCandidate)) * SessionRestartAdmission :=
  match arrivals with
  | [] => (success [], s)
  | (payload, now, clock) :: arrivals =>
      match admit_candidate s payload now clock with
      | (failure e, s) => (failure e, s)
      | (success c, s) =>
          let '(rest, s) := admit_candidates s arrivals in
          (let? cs := rest in success (c :: cs), s)
      end
  end.

End admission.

End SessionRestart.

Import Identifiers ProtoCodec Security Identity Signing SignalingProtocol SessionRestart.

(** ** Honest objects *)

(** Two contexts of the same session, one at each end: each names the other's
    endpoint and holds the public key of the other's identity. *)
Record paired `{Sodium} (c c' : SessionRestartContext) (i i' : IdentityKeyPair) : Prop := {
  paired_local : local c' = peer c;
  paired_peer : peer c' = local c;
  paired_session : restart_session c' = restart_session c;
  paired_epoch : current_epoch c' = current_epoch c;
  paired_typed : key_typed (local c) /\ key_typed (peer c) /\ sized 16 (restart_session c);
  paired_identity : identity_ok i /\ identity_ok i';
  paired_device : device_id_ i = key_device_id (local c) /\ device_id_ i' = key_device_id (peer c);
  paired_key : peer_public_key c' = public_key_ i /\ peer_public_key c = public_key_ i';
}.

Lemma paired_sym `{Sodium} c c' i i' : paired c c' i i' -> paired c' c i' i.
Proof.
  intros [H1 H2 H3 H4 (T1 & T2 & T3) [I1 I2] [D1 D2] [K1 K2]].
  split; rewrite ?H1, ?H2, ?H3; try done; congruence.
Qed.

(** The local data that goes into an object. *)
Definition restart_data (request nonce text fingerprint : list Z) : Prop :=
  sized 16 request /\ sized 32 nonce /\ bytes_ok text /\ sized 32 fingerprint.

(** Signed at [t0], still acceptable at [t]. *)
Definition restart_fresh (t0 t : Z) : Prop := validate_signed_expiry (restart_expiry t0) t = success tt.

Lemma restart_expiry_u64 t : is_u64 (restart_expiry t).
Proof. unfold restart_expiry, is_u64, u64. apply Z.mod_pos_bound. lia. Qed.

(** An object is acceptable from four and a half minutes before it is signed (by a
    clock that far behind) to one minute after. *)
Lemma restart_fresh_window t0 t :
  0 <= t0 -> t0 + session_restart_validity_milliseconds < 2 ^ 64 -> is_u64 t ->
  restart_fresh t0 t <-> t0 - 270000 <= t <= t0 + 60000.
Proof.
  unfold session_restart_validity_milliseconds. intros H0 H1 Ht. unfold restart_fresh.
  rewrite validate_signed_expiry_window by (done || apply restart_expiry_u64).
  unfold restart_expiry, session_restart_validity_milliseconds, maximum_signed_validity_milliseconds,
    maximum_expiry_clock_skew_milliseconds. rewrite u64_small by lia. lia.
Qed.

Lemma zero_signature_sized : sized 64 (repeat 0 64).
Proof. apply sized_decide. vm_compute. reflexivity. Qed.

Lemma key_eqb_refl k : key_eqb k k = true.
Proof. by apply key_eqb_eq. Qed.

Section honest.
Context `{SodiumLaws}.

Lemma offer_built c c' i i' req n text fp t0 payload :
  paired c c' i i' -> restart_data req n text fp ->
  build_session_restart_offer c i req n text fp t0 = success payload ->
  exists d canonical, parse_signed_offer payload = success d /\ description_typed d /\
    offer_content d = (mkBinding (local c) (peer c) req (restart_session c) n (restart_expiry t0) None, text, fp) /\
    canonical_signed_offer d = success canonical /\
    forall t, restart_fresh t0 t -> verify_signed_offer d (public_key_ i) t = success tt.
Proof.
  intros [_ _ _ _ (T1 & T2 & T3) [I1 _] [D1 _] _] (R1 & R2 & R3 & R4) E. unfold build_session_restart_offer in E.
  apply result_bind_success in E as (d & Hs & E).
  apply sign_offer_ok in Hs as (Ht & Hc & Hv & _ & Hcan & Hver); [| done |].
  2: { unfold description_typed, binding_typed. cbn.
       split_and!; first [done | exact (restart_expiry_u64 _) | exact zero_signature_sized | exact (collected_none _)]. }
  destruct (encode_parse_offer d Ht Hv) as (b & Eb & _ & Hp). rewrite Eb in E. injection E as <-.
  destruct (canonical_signed_offer d) as [canonical |] eqn:Ec; [| done]. exists d, canonical.
  split_and!; try done. intros t Hf. apply Hver; [done | exact Hf].
Qed.

Lemma answer_built c c' i i' req n m text fp t0 payload :
  paired c c' i i' -> restart_data req n text fp -> sized 32 m ->
  build_session_restart_answer c i req n m text fp t0 = success payload ->
  exists d canonical, parse_signed_answer payload = success d /\ description_typed d /\
    offer_content d = (mkBinding (peer c) (local c) req (restart_session c) n (restart_expiry t0) (Some m), text, fp) /\
    canonical_signed_answer d = success canonical /\
    forall t, restart_fresh t0 t -> verify_signed_answer d (public_key_ i) t = success tt.
Proof.
  intros [_ _ _ _ (T1 & T2 & T3) [I1 _] [D1 _] _] (R1 & R2 & R3 & R4) Hm E. unfold build_session_restart_answer in E.
  apply result_bind_success in E as (d & Hs & E).
  apply sign_answer_ok in Hs as (Ht & Hc & Hv & _ & Hcan & Hver); [| done |].
  2: { unfold description_typed, binding_typed. cbn.
       split_and!; first [done | exact (restart_expiry_u64 _) | exact zero_signature_sized | by apply collected_some]. }
  destruct (encode_parse_answer d Ht Hv) as (b & Eb & _ & Hp). rewrite Eb in E. injection E as <-.
  destruct (canonical_signed_answer d) as [canonical |] eqn:Ec; [| done]. exists d, canonical.
  split_and!; try done. intros t Hf. apply Hver; [done | exact Hf].
Qed.

(** Only the glare, conflict and replay rules are left for an honest offer. *)
Lemma admit_honest_offer c c' i i' req n text fp ufrag t0 payload s r now clock :
  paired c c' i i' -> restart_data req n text fp -> parse_sdp_ice_ufrag text = success ufrag ->
  build_session_restart_offer c i req n text fp t0 = success payload -> restart_fresh t0 now ->
  context_ s = c' -> replay_ s = Some r ->
  exists d canonical, parse_signed_offer payload = success d /\ description_typed d /\
    offer_content d = (mkBinding (local c) (peer c) req (restart_session c) n (restart_expiry t0) None, text, fp) /\
    canonical_signed_offer d = success canonical /\
    admit_offer s payload now clock = decide_offer s r d canonical ufrag clock.
Proof.
  intros Hp Hd Hu Hb Hf Hc Hr. destruct (offer_built _ _ _ _ _ _ _ _ _ _ Hp Hd Hb) as (d & can & Ep & Ht & Eo & Ec & Hv).
  exists d, can. split_and!; try done. destruct Hp as [P1 P2 P3 _ _ _ _ [K1 _]].
  unfold admit_offer. rewrite Hr, Ep, Hc. cbv zeta. unfold offer_content in Eo. injection Eo as Eb Es Ef.
  unfold same_binding_endpoints. rewrite Eb, Es. cbn [initiator responder session_id responder_nonce seen].
  rewrite P1, P2, P3, !key_eqb_refl, bytes_eqb_refl. cbn [negb andb orb]. by rewrite K1, (Hv _ Hf), Hu, Ec.
Qed.

(** For an honest answer to the offer the initiator registered, only the hash and
    the replay rule are left. *)
Lemma admit_honest_answer c c' i i' req n m text fp ufrag t0 payload s r now clock canonical_offer :
  paired c c' i i' -> restart_data req n text fp -> sized 32 m -> parse_sdp_ice_ufrag text = success ufrag ->
  build_session_restart_answer c i req n m text fp t0 = success payload -> restart_fresh t0 now ->
  context_ s = c' -> replay_ s = Some r -> accepted_request_ s = Some req -> initiator_nonce_ s = Some n ->
  canonical_offer_ s = Some canonical_offer -> local_restart_ s = Some req -> responder_nonce_ s = None ->
  exists d canonical, parse_signed_answer payload = success d /\
    offer_content d = (mkBinding (peer c) (local c) req (restart_session c) n (restart_expiry t0) (Some m), text, fp) /\
    canonical_signed_answer d = success canonical /\
    admit_answer s payload now clock =
      match hash_signaling_transcript canonical_offer canonical with
      | failure e => reject s e
      | success transcript => replay_answer s r d canonical ufrag transcript clock
      end.
Proof.
  intros Hp Hd Hm Hu Hb Hf Hc Hr Ha Hi Ho Hl Hn.
  destruct (answer_built _ _ _ _ _ _ _ _ _ _ _ Hp Hd Hm Hb) as (d & can & Ep & Ht & Eo & Ec & Hv).
  exists d, can. split_and!; try done. destruct Hp as [P1 P2 P3 _ _ _ _ [K1 _]].
  unfold admit_answer. rewrite Hr, Ep, Ha, Hi, Ho, Hl, Hc, Hn. cbv zeta. unfold offer_content in Eo. injection Eo as Eb Es Ef.
  unfold same_binding_endpoints. rewrite Eb, Es. cbn [initiator responder session_id request_id initiator_nonce responder_nonce seen].
  rewrite P1, P2, P3, !key_eqb_refl, !bytes_eqb_refl. cbn [negb andb orb]. by rewrite K1, (Hv _ Hf), Hu, Ec.
Qed.

(** The replay cache of an admission: nothing but [keys], under its policy. *)
Definition cache_holds (keys : list ReplayCache.ReplayKey) (s : SessionRestartAdmission) : Prop :=
  exists r, replay_ s = Some r /\ replay_wf r /\ holds_only keys r /\
    ReplayCache.policy_ r = replay_policy (context_ s).

Lemma new_cache c : has_value (ReplayCache.create (replay_policy c)) = true -> cache_holds [] (new_restart_admission c).
Proof.
  unfold cache_holds, new_restart_admission. cbn. destruct (ReplayCache.create (replay_policy c)) as [r |] eqn:E; [| done].
  intros _. exists r. apply replay_create_wf in E as (Hw & -> & _). split_and!; try done.
  intros k [v Hk]. cbn in Hk. by rewrite lookup_empty in Hk.
Qed.

Lemma new_cache_capacity c :
  has_value (ReplayCache.create (replay_policy c)) = true ->
  16 <= per_peer_capacity (replay_policy c) <= capacity (replay_policy c).
Proof.
  destruct (ReplayCache.create (replay_policy c)) as [r |] eqn:E; [| done]. intros _.
  unfold ReplayCache.create, validate_security_policy in E. inv_result E. inv_result E0. lia.
Qed.

(** What both ends hold when the exchange is complete: the request, both nonces,
    the transcript, and the fingerprint and ufrag of the other side. *)
Record linked (s : SessionRestartAdmission) (c : SessionRestartContext) (is_initiator : bool)
    (request n m transcript fingerprint ufrag : list Z) : Prop := {
  linked_context : context_ s = c;
  linked_request : accepted_request_ s = Some request;
  linked_initiator_nonce : initiator_nonce_ s = Some n;
  linked_responder_nonce : responder_nonce_ s = Some m;
  linked_transcript : transcript_ s = Some transcript;
  linked_fingerprint : peer_fingerprint_ s = Some fingerprint;
  linked_ufrag : peer_ufrag_ s = Some ufrag;
  linked_role : seen (local_restart_ s) = is_initiator;
}.

(** The cache has room for one key more. *)
Definition cache_room (keys : list ReplayCache.ReplayKey) (c : SessionRestartContext) : Prop :=
  zlen keys < per_peer_capacity (replay_policy c) /\ zlen keys < capacity (replay_policy c).

(** One call of the cache, for any of the three objects. *)
Lemma cache_admits keys s domain req sess n resp seq clock :
  cache_holds keys s -> cache_room keys (context_ s) ->
  ReplayCache.signed_key domain (key_device_id (peer (context_ s))) req sess n resp seq ∉ keys ->
  all_zero (key_device_id (peer (context_ s))) = false ->
  exists r r', replay_ s = Some r /\
    ReplayCache.admit_signed r domain (key_device_id (peer (context_ s))) req sess n resp seq clock =
      (success SignalingReplayDecision.admitted, r') /\
    replay_wf r' /\ ReplayCache.policy_ r' = replay_policy (context_ s) /\
    holds_only (ReplayCache.signed_key domain (key_device_id (peer (context_ s))) req sess n resp seq :: keys) r'.
Proof.
  intros (r & Hr & Hw & Hk & Hp) [R1 R2] Hn Hz. rewrite <- Hp in R1, R2.
  destruct (admit_fresh_signed keys r domain _ req sess n resp seq clock Hw Hk Hn R1 R2 Hz) as (r' & E & Hw' & Hk' & Hp').
  exists r, r'. split_and!; try done. by rewrite Hp'.
Qed.

Lemma offer_signer_nonzero d : validate_signed_offer d = success tt -> all_zero (key_device_id (initiator (binding d))) = false.
Proof. unfold validate_signed_offer, validate_binding_common. intros E. inv_result E. inv_result E0. by destruct (all_zero _). Qed.

Lemma answer_signer_nonzero d : validate_signed_answer d = success tt -> all_zero (key_device_id (responder (binding d))) = false.
Proof.
  unfold validate_signed_answer, validate_binding_common. intros E. inv_result E. inv_result E0.
  destruct (all_zero (key_device_id (responder (binding d)))); [| done]. by rewrite !orb_true_r in *.
Qed.

Lemma parsed_offer_valid payload d : parse_signed_offer payload = success d -> validate_signed_offer d = success tt.
Proof.
  unfold parse_signed_offer. intros E. apply result_bind_success in E as (d' & _ & E).
  apply result_bind_success in E as ([] & Hv & E). by injection E as <-.
Qed.

Lemma parsed_answer_valid payload d : parse_signed_answer payload = success d -> validate_signed_answer d = success tt.
Proof.
  unfold parse_signed_answer. intros E. apply result_bind_success in E as (d' & _ & E).
  apply result_bind_success in E as ([] & Hv & E). by injection E as <-.
Qed.

(** A fresh responder admits an honest offer. *)
Lemma responder_admits_offer c c' i i' req n text fp ufrag t0 payload now clock :
  paired c c' i i' -> restart_data req n text fp -> parse_sdp_ice_ufrag text = success ufrag ->
  build_session_restart_offer c i req n text fp t0 = success payload -> restart_fresh t0 now ->
  has_value (ReplayCache.create (replay_policy c')) = true ->
  exists d canonical s, parse_signed_offer payload = success d /\ canonical_signed_offer d = success canonical /\
    offer_content d = (mkBinding (local c) (peer c) req (restart_session c) n (restart_expiry t0) None, text, fp) /\
    admit_offer (new_restart_admission c') payload now clock =
      (success (Some (mkAdmittedOffer d canonical (u64 (current_epoch c + 1)) false)), s) /\
    context_ s = c' /\ accepted_request_ s = Some req /\ canonical_offer_ s = Some canonical /\
    initiator_nonce_ s = Some n /\ responder_nonce_ s = None /\ peer_fingerprint_ s = Some fp /\
    peer_ufrag_ s = Some ufrag /\ local_restart_ s = None /\ peer_candidate_sequence_ s = 0 /\
    admitted_candidates_ s = 0 /\
    cache_holds [ReplayCache.signed_key SigningDomain.offer (key_device_id (peer c')) req (restart_session c) n None None] s.
Proof.
  intros Hp Hd Hu Hb Hf Hcap. assert (Hc := new_cache c' Hcap).
  destruct Hc as (r & Hr & Hc). destruct (admit_honest_offer c c' i i' req n text fp ufrag t0 payload
    (new_restart_admission c') r now clock Hp Hd Hu Hb Hf eq_refl Hr) as (d & can & Ep & Ht & Eo & Ec & E).
  assert (Eb : binding d = mkBinding (local c) (peer c) req (restart_session c) n (restart_expiry t0) None) by (by injection Eo).
  assert (Ef : dtls_fingerprint d = fp) by (by injection Eo).
  assert (Hz := offer_signer_nonzero _ (parsed_offer_valid _ _ Ep)). rewrite Eb in Hz. cbn [initiator] in Hz.
  destruct (new_cache_capacity c' Hcap) as [C1 C2].
  destruct (cache_admits [] (new_restart_admission c') SigningDomain.offer req (restart_session c) n None None clock)
    as (r0 & r' & Hr0 & Ea & Hw & Hpol & Hk).
  { by apply new_cache. }
  { unfold cache_room. rewrite zlen_nil. cbn. lia. }
  { set_solver. }
  { cbn. by rewrite (paired_peer _ _ _ _ Hp). }
  rewrite Hr in Hr0. injection Hr0 as <-.
  eexists d, can, _. split; [done |]. split; [done |]. split; [done |]. rewrite E. unfold decide_offer. cbn [local_restart_ accepted_request_ new_restart_admission andb].
  unfold replay_offer. rewrite Eb. cbn [request_id session_id initiator_nonce]. rewrite Ea.
  split; [cbn; by rewrite (paired_epoch _ _ _ _ Hp) |]. cbn. rewrite Eb, Ef. cbn. split_and!; try done.
  exists r'. cbn. done.
Qed.

Lemma restart_transcript_sized o a tr : hash_signaling_transcript o a = success tr -> sized 32 tr.
Proof.
  unfold hash_signaling_transcript, canonical_error. intros E. split_match_in E. injection E as <-.
  by eapply sha256_size.
Qed.

(** A ufrag found in an SDP is printable text. *)
Lemma parse_ufrag_ok text u : parse_sdp_ice_ufrag text = success u -> ufrag_ok u = true.
Proof.
  unfold parse_sdp_ice_ufrag. generalize (length text) as fuel. intros fuel. revert text.
  induction fuel as [| fuel IH]; intros [| b text] E; try done. cbn [ufrag_loop] in E.
  destruct (cut 10 (b :: text)) as [line after]. destruct (starts_with _ _).
  - destruct (ufrag_ok (drop _ _)) eqn:Eu; [| done]. by injection E as <-.
  - destruct after as [rest |]; [by apply (IH rest) | done].
Qed.

Lemma parse_ufrag_bytes text u : parse_sdp_ice_ufrag text = success u -> bytes_ok u.
Proof.
  intros E%parse_ufrag_ok. unfold ufrag_ok, printable_ascii in E. rewrite negb_true_iff, !orb_false_iff in E.
  destruct E as [_ E%negb_false_iff]. rewrite forallb_forall in E. apply List.Forall_forall. intros b Hb%E. unfold is_byte. lia.
Qed.

(** The initiator, its offer registered, admits the honest answer, and the two
    ends are linked. *)
Lemma initiator_admits_answer c c' i i' req n m text fp ufrag t0 payload sA sB sB' canonical_offer fpA ufragA now clock :
  paired c c' i i' -> restart_data req m text fp -> sized 32 n -> parse_sdp_ice_ufrag text = success ufrag ->
  has_value (ReplayCache.create (replay_policy c)) = true ->
  sA = set_local_restart (new_restart_admission c) req n canonical_offer ->
  context_ sB = c' -> accepted_request_ sB = Some req -> canonical_offer_ sB = Some canonical_offer ->
  initiator_nonce_ sB = Some n -> local_restart_ sB = None ->
  peer_fingerprint_ sB = Some fpA -> peer_ufrag_ sB = Some ufragA ->
  register_answer sB i' req m text fp t0 = success (payload, sB') -> restart_fresh t0 now ->
  exists a transcript sA', admit_answer sA payload now clock = (success (Some a), sA') /\
    sdp (answer a) = text /\ sized 32 transcript /\
    linked sA' c true req n m transcript fp ufrag /\ linked sB' c' false req n m transcript fpA ufragA /\
    cache_holds [ReplayCache.signed_key SigningDomain.answer (key_device_id (peer c)) req (restart_session c) n (Some m) None] sA' /\
    peer_candidate_sequence_ sA' = 0 /\ admitted_candidates_ sA' = 0 /\
    replay_ sB' = replay_ sB /\ peer_candidate_sequence_ sB' = peer_candidate_sequence_ sB /\
    admitted_candidates_ sB' = admitted_candidates_ sB.
Proof.
  intros Hp Hd Hn Hu Hcap -> B1 B2 B3 B4 B5 B6 B7 Hreg Hf. assert (Hp' := paired_sym _ _ _ _ Hp).
  unfold register_answer in Hreg. rewrite B1, B4 in Hreg. cbn [default] in Hreg.
  apply result_bind_success in Hreg as (payload' & Hb & Hreg). apply result_bind_success in Hreg as (d' & Hpd & Hreg).
  apply result_bind_success in Hreg as (can' & Hcan & Hreg).
  destruct Hd as (D1 & D2 & D3 & D4).
  unfold set_local_restart_answer in Hreg. rewrite B3 in Hreg.
  destruct (hash_signaling_transcript canonical_offer can') as [tr |] eqn:Eh; [| done].
  cbn [result_bind] in Hreg. injection Hreg as -> <-.
  assert (Hc := new_cache c Hcap). destruct Hc as (r & Hr & _).
  destruct (admit_honest_answer c' c i' i req n m text fp ufrag t0 payload
    (set_local_restart (new_restart_admission c) req n canonical_offer) r now clock canonical_offer)
    as (d & can & Ep & Eo & Ec & E); try done.
  rewrite Hpd in Ep. injection Ep as ->. rewrite Hcan in Ec. injection Ec as ->. rewrite Eh in E.
  assert (Eb : binding d = mkBinding (peer c') (local c') req (restart_session c') n (restart_expiry t0) (Some m)) by (by injection Eo).
  assert (Es : sdp d = text) by (by injection Eo). assert (Ef : dtls_fingerprint d = fp) by (by injection Eo).
  assert (Hz := answer_signer_nonzero _ (parsed_answer_valid _ _ Hpd)). rewrite Eb in Hz. cbn [responder] in Hz.
  destruct (new_cache_capacity c Hcap) as [C1 C2].
  destruct (cache_admits [] (new_restart_admission c) SigningDomain.answer req (restart_session c) n (Some m) None clock)
    as (r0 & r' & Hr0 & Ea & Hw & Hpol & Hk).
  { by apply new_cache. }
  { unfold cache_room. rewrite zlen_nil. cbn. lia. }
  { set_solver. }
  { cbn. by rewrite (paired_local _ _ _ _ Hp) in Hz. }
  rewrite Hr in Hr0. injection Hr0 as <-. rewrite E. unfold replay_answer. cbn [context_ set_local_restart].
  rewrite Eb. cbn [request_id session_id initiator_nonce responder_nonce]. rewrite (paired_session _ _ _ _ Hp).
  cbn [context_ new_restart_admission] in Ea. cbn [context_ new_restart_admission]. rewrite Ea.
  eexists _, tr, _. split; [reflexivity |]. cbn. rewrite Es, Ef. split_and!; try done.
  - apply (restart_transcript_sized _ _ _ Eh).
  - split; cbn; by rewrite ?B5.
  - exists r'. cbn. done.
Qed.

Lemma candidate_signed_valid c : validate_signed_candidate c = success tt ->
  all_zero (key_device_id (initiator (candidate_binding c))) = false /\
  all_zero (key_device_id (responder (candidate_binding c))) = false.
Proof.
  unfold validate_signed_candidate, validate_binding_common. intros E. inv_result E. inv_result E0.
  destruct (all_zero (key_device_id (initiator _))), (all_zero (key_device_id (responder _))); try done;
    by rewrite ?orb_true_r in *.
Qed.

(** The binding of every candidate of a completed exchange that [c], in role
    [is_initiator], signs. *)
Definition candidate_link (c : SessionRestartContext) (is_initiator : bool) (req n m : list Z) (t : Z) : SignalBinding :=
  mkBinding (if is_initiator then local c else peer c) (if is_initiator then peer c else local c)
    req (restart_session c) n (restart_expiry t) (Some m).

Lemma candidate_built c c' i i' s is_initiator req n m transcript fp0 ufrag0 nonce ufrag fp k cand t payload :
  paired c c' i i' -> linked s c is_initiator req n m transcript fp0 ufrag0 ->
  sized 16 req -> sized 32 n -> sized 32 m -> sized 32 transcript -> sized 32 fp -> bytes_ok ufrag -> bytes_ok cand ->
  0 <= k < u32_max ->
  prepare_candidate s i is_initiator req nonce ufrag fp k cand t = success payload ->
  exists o, parse_signed_candidate payload = success o /\
    all_zero (key_device_id (local c)) = false /\
    candidate_content o = mkCandidate (candidate_link c is_initiator req n m t) (k + 1) cand transcript ufrag fp [] /\
    forall now, restart_fresh t now -> has_value (verify_signed_candidate o (public_key_ i) now) = true.
Proof.
  intros [_ _ _ _ (T1 & T2 & T3) [I1 _] [D1 _] _] [L1 _ L3 L4 L5 _ _ _] R1 R2 R3 R4 R5 R6 R7 Hk E.
  unfold prepare_candidate in E. inv_result E. rewrite L1, L3, L4, L5 in E. cbn [default] in E.
  rewrite u32_small in E by (unfold u32_max in *; lia).
  unfold build_session_restart_candidate, with_expiry in E. cbn [initiator responder request_id session_id initiator_nonce responder_nonce] in E.
  fold (candidate_link c is_initiator req n m t) in E.
  apply result_bind_success in E as (o & Hs & E).
  apply sign_candidate_ok in Hs as (Ht & Hc & Hv & Hver); [| done |].
  2: { unfold candidate_typed, binding_typed, candidate_link. cbn [candidate_binding initiator responder request_id
         session_id initiator_nonce binding_expires responder_nonce sequence candidate candidate_transcript
         owner_ice_ufrag owner_dtls_fingerprint candidate_signature].
       split_and!; first [done | by destruct is_initiator | exact (restart_expiry_u64 _) | exact zero_signature_sized
         | by apply collected_some | unfold is_u32, u32_max in *; lia]. }
  destruct (encode_candidate_image o Ht Hv) as (E' & _). rewrite E' in E. injection E as <-.
  exists o. split; [by apply parse_encode_candidate |].
  assert (Eb : candidate_binding o = candidate_link c is_initiator req n m t).
  { unfold candidate_content, with_candidate_signature in Hc. by injection Hc. }
  split; [| split; [done |]].
  - destruct (candidate_signed_valid o Hv) as [Z1 Z2]. rewrite Eb in Z1, Z2. by destruct is_initiator.
  - intros now Hf. apply Hver; [| exact Hf]. cbn [candidate_binding candidate_link initiator responder]. rewrite D1.
    destruct is_initiator; auto.
Qed.

(** A key that is not of a candidate numbered above [k]. *)
Definition old_key (k : Z) (q : ReplayCache.ReplayKey) : Prop :=
  ReplayCache.domain q <> ReplayCache.domain_code SigningDomain.candidate \/ ReplayCache.sequence q <= k.

(** The receiver has admitted the first [k] candidates of the sender. *)
Record receiving (s : SessionRestartAdmission) (k : Z) : Prop := {
  receiving_sequence : peer_candidate_sequence_ s = k;
  receiving_count : admitted_candidates_ s = k;
  receiving_keys : exists keys, cache_holds keys s /\ Forall (old_key k) keys /\ zlen keys <= k + 1;
}.

Lemma candidate_accepted c c' i i' s s' init req n m tr fp0 ufrag0 nonce ufrag fp k cand t payload now clock :
  paired c c' i i' -> linked s c init req n m tr fp0 ufrag0 -> linked s' c' (negb init) req n m tr fp ufrag ->
  sized 16 req -> sized 32 n -> sized 32 m -> sized 32 tr -> sized 32 fp -> bytes_ok ufrag -> bytes_ok cand ->
  prepare_candidate s i init req nonce ufrag fp k cand t = success payload -> restart_fresh t now ->
  0 <= k < max_session_restart_candidates -> k + 1 < per_peer_capacity (replay_policy c') ->
  k + 1 < capacity (replay_policy c') -> receiving s' k ->
  exists o s1, admit_candidate s' payload now clock = (success (Some o), s1) /\ candidate o = cand /\
    sequence o = k + 1 /\ linked s1 c' (negb init) req n m tr fp ufrag /\ receiving s1 (k + 1).
Proof.
  intros Hp Hs Hs' R1 R2 R3 R4 R5 R6 R7 E Hf Hk Hc1 Hc2 [S1 S2 (keys & Hcache & Hold & Hz)].
  unfold max_session_restart_candidates in Hk. assert (Hk' : 0 <= k < u32_max) by (unfold u32_max; lia).
  destruct (candidate_built _ _ _ _ _ _ _ _ _ _ _ _ _ _ _ _ _ _ _ Hp Hs R1 R2 R3 R4 R5 R6 R7 Hk' E)
    as (o & Ep & Hnz & Ec & Hver).
  destruct Hs' as [L1 L2 L3 L4 L5 L6 L7 L8]. destruct Hp as [P1 P2 P3 _ _ _ _ [K1 _]].
  unfold candidate_content, with_candidate_signature in Ec. injection Ec as Eb Eq Ec Et Eu Ef.
  destruct (cache_admits keys s' SigningDomain.candidate req (restart_session c) n (Some m) (Some (k + 1)) clock)
    as (r & r' & Hr & Ea & Hw & Hpol & Hkeys).
  { done. }
  { unfold cache_room. rewrite L1. lia. }
  { intros Hin. rewrite Forall_forall in Hold. destruct (Hold _ Hin) as [Hd | Hq]; cbn in *; [done | lia]. }
  { by rewrite L1, P2. }
  unfold admit_candidate. rewrite Hr, Ep, L2, L3, L4, L5, L1, L8. cbv zeta. rewrite Eb.
  unfold candidate_link. cbn [initiator responder request_id session_id initiator_nonce responder_nonce holds].
  assert (Hi : (if negb init then local c' else peer c') = if init then local c else peer c) by (destruct init; done).
  assert (Hj : (if negb init then peer c' else local c') = if init then peer c else local c) by (destruct init; done).
  rewrite Hi, Hj, P3, !key_eqb_refl, !bytes_eqb_refl. cbn [negb orb].
  rewrite K1. specialize (Hver now Hf). destruct (verify_signed_candidate o (public_key_ i) now) as [ow |]; [| done].
  rewrite Et, Eu, Ef, L6, L7. cbn [holds]. rewrite !bytes_eqb_refl. cbn [negb orb].
  unfold max_session_restart_candidates. rewrite S2, (proj2 (Z.leb_gt 128 k)) by lia.
  unfold replay_candidate. rewrite Eb, Eq. cbn [request_id session_id initiator_nonce responder_nonce candidate_link].
  rewrite Ea. cbn [peer_candidate_sequence_ with_replay]. rewrite S1, (proj2 (Z.leb_gt (k + 1) k)) by lia.
  eexists o, _. split; [reflexivity |]. split; [done |]. split; [done |]. split.
  - by split.
  - split; cbn; [done | rewrite S2, u32_small by lia; done |].
    eexists (_ :: keys). split; [exists r'; cbn; split_and!; try done |]. split; [| rewrite zlen_cons; lia].
    apply List.Forall_cons; [right; cbn; lia |]. eapply Forall_impl; [exact Hold |].
    intros q [Hq | Hq]; [by left | right; lia].
Qed.

(** Payloads with the times they are handled at. *)
Definition arrivals (payloads : list (list Z)) (whens : list (Z * Z)) : list (list Z * Z * Z) :=
  zip_with (fun p w => (p, fst w, snd w)) payloads whens.

(** A queue of at most 128 candidates the sender flushes is admitted in order. *)
Lemma candidates_flow c c' i i' s init req n m tr fp0 ufrag0 nonce ufrag fp pending : forall s' k payloads whens,
  paired c c' i i' -> linked s c init req n m tr fp0 ufrag0 -> linked s' c' (negb init) req n m tr fp ufrag ->
  sized 16 req -> sized 32 n -> sized 32 m -> sized 32 tr -> sized 32 fp -> bytes_ok ufrag ->
  Forall (fun p => bytes_ok (fst p)) pending ->
  flush_candidates s i init req nonce ufrag fp k pending = success payloads ->
  Forall2 (fun p w => restart_fresh (snd p) (fst w)) pending whens ->
  0 <= k -> k + zlen pending <= max_session_restart_candidates ->
  max_session_restart_candidates < per_peer_capacity (replay_policy c') ->
  max_session_restart_candidates < capacity (replay_policy c') -> receiving s' k ->
  exists os s1, admit_candidates s' (arrivals payloads whens) = (success (map Some os), s1) /\
    map candidate os = map fst pending /\ receiving s1 (k + zlen pending).
Proof.
  induction pending as [| [cand t] pending IH]; intros s' k payloads whens Hp Hs Hs' R1 R2 R3 R4 R5 R6 HF E Hw Hk Hz Hc1 Hc2 Hrec.
  - cbn in E. injection E as <-. apply Forall2_nil_inv_l in Hw as ->. exists [], s'. rewrite zlen_nil, Z.add_0_r. done.
  - cbn [flush_candidates] in E. apply result_bind_success in E as (payload & E1 & E).
    apply result_bind_success in E as (rest & E2 & E). injection E as <-.
    apply Forall2_cons_inv_l in Hw as ([now clock] & whens' & Hf & Hw & ->). rewrite zlen_cons in Hz |- *.
    assert (Hnn := zlen_nonneg pending). apply Forall_cons in HF as [R7 HF]. cbn [fst snd] in *.
    unfold max_session_restart_candidates in *.
    destruct (candidate_accepted c c' i i' s s' init req n m tr fp0 ufrag0 nonce ufrag fp k cand t payload now clock)
      as (o & s1 & Ea & Hcand & _ & Hl & Hr1); try done; try (unfold max_session_restart_candidates; lia).
    rewrite u32_small in E2 by lia.
    destruct (IH s1 (k + 1) rest whens') as (os & s2 & Eb & Hos & Hr2); try done; try lia.
    exists (o :: os), s2. cbn [arrivals zip_with fst snd admit_candidates]. rewrite Ea.
    change (zip_with _ rest whens') with (arrivals rest whens'). rewrite Eb. cbn. rewrite Hcand, Hos.
    split_and!; try done. by replace (k + (1 + zlen pending)) with (k + 1 + zlen pending) by lia.
Qed.

(** C12. An honest session restart, end to end. The initiator registers and sends its
    offer; a fresh responder admits it, at the next epoch; the responder answers,
    and the initiator admits the answer. Both ends then hold the same request,
    nonces and transcript, and the fingerprint and ufrag the other put in its
    description; and whatever candidates either end has pending, up to 128, are
    admitted at the other in order and unchanged. *)
Theorem restart_end_to_end c c' i i' req n m textA textB fpA fpB uA uB tA tB payloadA payloadB sA sB sA' sB' rA rB nowA nowB clkA clkB :
  paired c c' i i' -> restart_data req n textA fpA -> restart_data req m textB fpB ->
  parse_sdp_ice_ufrag textA = success uA -> parse_sdp_ice_ufrag textB = success uB ->
  has_value (ReplayCache.create (replay_policy c)) = true -> has_value (ReplayCache.create (replay_policy c')) = true ->
  register_offer (new_restart_admission c) i req n textA fpA tA = success (payloadA, sA) ->
  restart_fresh tA nowB -> admit_offer (new_restart_admission c') payloadA nowB clkB = (rB, sB) ->
  register_answer sB i' req m textB fpB tB = success (payloadB, sB') ->
  restart_fresh tB nowA -> admit_answer sA payloadB nowA clkA = (rA, sA') ->
  (exists o, rB = success (Some o) /\ next_epoch o = u64 (current_epoch c + 1) /\
     supersedes_local_restart o = false /\ sdp (offer o) = textA) /\
  (exists a, rA = success (Some a) /\ sdp (answer a) = textB) /\
  (exists tr, linked sA' c true req n m tr fpB uB /\ linked sB' c' false req n m tr fpA uA) /\
  forall pending payloads whens,
    Forall (fun p => bytes_ok (fst p)) pending -> zlen pending <= max_session_restart_candidates ->
    Forall2 (fun p w => restart_fresh (snd p) (fst w)) pending whens ->
    (flush_candidates sA' i true req n uA fpA 0 pending = success payloads ->
     max_session_restart_candidates < per_peer_capacity (replay_policy c') ->
     exists os, fst (admit_candidates sB' (arrivals payloads whens)) = success (map Some os) /\
       map candidate os = map fst pending) /\
    (flush_candidates sB' i' false req m uB fpB 0 pending = success payloads ->
     max_session_restart_candidates < per_peer_capacity (replay_policy c) ->
     exists os, fst (admit_candidates sA' (arrivals payloads whens)) = success (map Some os) /\
       map candidate os = map fst pending).
Proof.
  intros Hp DA DB UA UB CA CB Hreg Hf EB Hans Hf2 EA. unfold register_offer in Hreg. cbn [context_ new_restart_admission] in Hreg.
  apply result_bind_success in Hreg as (pa & Hb & Hreg). apply result_bind_success in Hreg as (d & Hpd & Hreg).
  apply result_bind_success in Hreg as (can & Hcan & Hreg). injection Hreg as -> <-.
  destruct (responder_admits_offer _ _ _ _ _ _ _ _ _ _ _ _ clkB Hp DA UA Hb Hf CB)
    as (d0 & can0 & sB0 & Ep & Ec & Eo & EB' & B1 & B2 & B3 & B4 & B5 & B6 & B7 & B8 & B9 & B10 & B11).
  rewrite EB in EB'. injection EB' as -> <-.
  rewrite Ep in Hpd. injection Hpd as <-. rewrite Ec in Hcan. injection Hcan as <-.
  destruct DA as (DA1 & DA2 & DA3 & DA4). assert (DB' := DB). destruct DB' as (_ & DB2 & DB3 & DB4).
  destruct (initiator_admits_answer c c' i i' req n m textB fpB uB tB payloadB _ sB sB' can0 fpA uA nowA clkA Hp DB DA2 UB CA
    eq_refl B1 B2 B3 B4 B8 B6 B7 Hans Hf2)
    as (a & tr & sA0 & EA' & Ea & Htr & LA & LB & HcA & A1 & A2 & HrB & HsB & HaB).
  rewrite EA in EA'. injection EA' as -> <-. destruct (new_cache_capacity c CA), (new_cache_capacity c' CB).
  assert (RA : receiving sA' 0).
  { split; [done | done |]. eexists. split; [exact HcA |]. split; [| done].
    apply List.Forall_cons; [by left | apply List.Forall_nil]. }
  assert (RB : receiving sB' 0).
  { split; [congruence | congruence |]. exists [ReplayCache.signed_key SigningDomain.offer (key_device_id (peer c'))
      req (restart_session c) n None None]. split; [| split].
    - destruct B11 as (r & E1 & E2). rewrite B1 in E2. exists r. by rewrite HrB, (linked_context _ _ _ _ _ _ _ _ _ LB).
    - apply List.Forall_cons; [by left | apply List.Forall_nil].
    - done. }
  split_and!.
  - eexists. split; [reflexivity |]. split; [done |]. split; [done |]. cbn. by injection Eo.
  - by exists a.
  - by exists tr.
  - intros pending payloads whens HF Hz Hw. assert (Uok := parse_ufrag_bytes _ _ UA). assert (Uok' := parse_ufrag_bytes _ _ UB). split; intros Hfl Hcap.
    + destruct (candidates_flow c c' i i' sA' true req n m tr fpB uB n uA fpA pending sB' 0 payloads whens)
        as (os & s1 & E & Hos & _); try done; try lia. exists os. by rewrite E.
    + destruct (candidates_flow c' c i' i sB' false req n m tr fpA uA m uB fpB pending sA' 0 payloads whens)
        as (os & s1 & E & Hos & _); try done; try lia; [by apply paired_sym |]. exists os. by rewrite E.
Qed.

(** An honest offer meets a restart of the other side that is already registered. *)
Lemma registered_meets_offer c c' i i' req n text fp ufrag t0 payload mine n' can' s now clock :
  paired c c' i i' -> restart_data req n text fp -> parse_sdp_ice_ufrag text = success ufrag ->
  build_session_restart_offer c i req n text fp t0 = success payload -> restart_fresh t0 now ->
  has_value (ReplayCache.create (replay_policy c')) = true -> mine <> req ->
  s = set_local_restart (new_restart_admission c') mine n' can' ->
  if session_restart_offer_wins req mine
  then exists o s1, admit_offer s payload now clock = (success (Some o), s1) /\
    supersedes_local_restart o = true /\ request_id (binding (offer o)) = req /\
    next_epoch o = u64 (current_epoch c + 1) /\ accepted_request_ s1 = Some req /\ initiator_nonce_ s1 = Some n
  else admit_offer s payload now clock = (success None, count GlareSuppressed s).
Proof.
  intros Hp Hd Hu Hb Hf Hcap Hne ->. assert (Hc := new_cache c' Hcap). destruct Hc as (r & Hr & Hc).
  destruct (admit_honest_offer c c' i i' req n text fp ufrag t0 payload
    (set_local_restart (new_restart_admission c') mine n' can') r now clock Hp Hd Hu Hb Hf eq_refl Hr)
    as (d & can & Ep & Ht & Eo & Ec & E).
  assert (Eb : binding d = mkBinding (local c) (peer c) req (restart_session c) n (restart_expiry t0) None) by (by injection Eo).
  assert (Hz := offer_signer_nonzero _ (parsed_offer_valid _ _ Ep)). rewrite Eb in Hz. cbn [initiator] in Hz.
  destruct (new_cache_capacity c' Hcap) as [C1 C2].
  destruct (cache_admits [] (new_restart_admission c') SigningDomain.offer req (restart_session c) n None None clock)
    as (r0 & r' & Hr0 & Ea & _).
  { by apply new_cache. }
  { unfold cache_room. rewrite zlen_nil. cbn. lia. }
  { set_solver. }
  { cbn. by rewrite (paired_peer _ _ _ _ Hp). }
  rewrite Hr in Hr0. injection Hr0 as <-.
  assert (H1 : bytes_eqb req mine = false) by (apply not_true_iff_false; rewrite bytes_eqb_eq; congruence).
  assert (H2 : bytes_eqb mine req = false) by (apply not_true_iff_false; rewrite bytes_eqb_eq; congruence).
  rewrite E. unfold decide_offer. rewrite Eb. cbn [request_id local_restart_ accepted_request_ set_local_restart default].
  rewrite H1, H2. unfold id. destruct (session_restart_offer_wins req mine); cbn [negb andb]; [| done].
  unfold replay_offer. rewrite Eb. cbn [request_id session_id initiator_nonce context_ set_local_restart].
  cbn [context_ new_restart_admission] in Ea |- *. rewrite Ea. eexists _, _. split; [reflexivity |]. cbn. rewrite Eb.
  cbn. by rewrite (paired_epoch _ _ _ _ Hp).
Qed.

(** Glare: when both ends have registered a restart of their own and their
    offers cross, both reach the same verdict. The offer with the greater request
    id is admitted, as one that supersedes the local attempt, by the end that sent
    the other; the end that sent it drops the other offer and stays as it was but
    for the counter. *)
Theorem restart_glare c c' i i' reqA reqB nA nB textA textB fpA fpB uA uB tA tB pA pB sA sB rA rB sA' sB' nowA nowB clkA clkB :
  paired c c' i i' -> restart_data reqA nA textA fpA -> restart_data reqB nB textB fpB ->
  parse_sdp_ice_ufrag textA = success uA -> parse_sdp_ice_ufrag textB = success uB ->
  has_value (ReplayCache.create (replay_policy c)) = true -> has_value (ReplayCache.create (replay_policy c')) = true ->
  register_offer (new_restart_admission c) i reqA nA textA fpA tA = success (pA, sA) ->
  register_offer (new_restart_admission c') i' reqB nB textB fpB tB = success (pB, sB) ->
  reqA <> reqB -> restart_fresh tA nowB -> restart_fresh tB nowA ->
  admit_offer sA pB nowA clkA = (rA, sA') -> admit_offer sB pA nowB clkB = (rB, sB') ->
  let superseded (req : list Z) (r : Result (option AdmittedSessionRestartOffer)) (s : SessionRestartAdmission) :=
    exists o, r = success (Some o) /\ supersedes_local_restart o = true /\ request_id (binding (offer o)) = req /\
      accepted_request_ s = Some req in
  if session_restart_offer_wins reqA reqB
  then rA = success None /\ sA' = count GlareSuppressed sA /\ superseded reqA rB sB'
  else rB = success None /\ sB' = count GlareSuppressed sB /\ superseded reqB rA sA'.
Proof.
  intros Hp DA DB UA UB CA CB HA HB Hne FA FB XA XB. unfold register_offer in HA, HB. cbn [context_ new_restart_admission] in HA, HB.
  apply result_bind_success in HA as (pa & BA & HA), HB as (pb & BB & HB).
  apply result_bind_success in HA as (da & _ & HA), HB as (db & _ & HB).
  apply result_bind_success in HA as (cana & _ & HA), HB as (canb & _ & HB). injection HA as -> <-. injection HB as -> <-.
  assert (GB := registered_meets_offer c c' i i' reqA nA textA fpA uA tA pA reqB nB canb _ nowB clkB Hp DA UA BA FA CB
    ltac:(congruence) eq_refl).
  assert (GA := registered_meets_offer c' c i' i reqB nB textB fpB uB tB pB reqA nA cana _ nowA clkA
    (paired_sym _ _ _ _ Hp) DB UB BB FB CA Hne eq_refl).
  unfold session_restart_offer_wins in *. cbv zeta. destruct (lex_lt reqB reqA) eqn:EA.
  - rewrite (lex_lt_asym _ _ EA) in GA. rewrite GA in XA. injection XA as <- <-. destruct GB as (o & s1 & E & ? & ? & _ & ? & _).
    rewrite E in XB. injection XB as <- <-. split_and!; try done. by exists o.
  - destruct (lex_lt reqA reqB) eqn:EB; [| by destruct Hne; apply lex_lt_total].
    rewrite GB in XB. injection XB as <- <-. destruct GA as (o & s1 & E & ? & ? & _ & ? & _).
    rewrite E in XA. injection XA as <- <-. split_and!; try done. by exists o.
Qed.

End honest.

(** ** What the code does not do *)

Section observations.
Context `{Sodium}.

(** [admit_offer] that supersedes a local restart leaves that restart registered. *)
Lemma superseded_keeps_role s payload now clk o s1 :
  admit_offer s payload now clk = (success (Some o), s1) -> local_restart_ s1 = local_restart_ s.
Proof.
  unfold admit_offer, reject. intros E. repeat case_match; try done.
  unfold decide_offer, replay_offer, reject in E. repeat case_match; try done; by injection E as _ <-.
Qed.

(** So the loser of a glare, whose admission still holds its own restart, refuses
    every candidate of the winner, who is the initiator of the accepted offer. The
    node avoids this by admitting inbound offers on a new record. *)
Theorem glare_loser_rejects_candidates s payload d now clk :
  replay_ s <> None -> parse_signed_candidate payload = success d ->
  accepted_request_ s <> None -> initiator_nonce_ s <> None -> responder_nonce_ s <> None -> transcript_ s <> None ->
  local_restart_ s <> None -> local (context_ s) <> peer (context_ s) ->
  initiator (candidate_binding d) = peer (context_ s) ->
  fst (admit_candidate s payload now clk) =
    failure (restart_error ErrorCode.protocol "restart_candidate_binding_mismatch").
Proof.
  intros H1 H2 H3 H4 H5 H6 H7 Hne Hi. unfold admit_candidate.
  destruct (replay_ s); [| done]. rewrite H2. destruct (accepted_request_ s); [| done].
  destruct (initiator_nonce_ s); [| done]. destruct (responder_nonce_ s); [| done].
  destruct (transcript_ s); [| done]. destruct (local_restart_ s); [| done]. cbn [seen]. rewrite Hi.
  destruct (key_eqb (peer (context_ s)) (local (context_ s))) eqn:E; [| done].
  apply key_eqb_eq in E. congruence.
Qed.

(** Once 128 candidates are admitted, nothing is ignored any more: the byte-identical
    retransmission of an admitted candidate is an error too. *)
Theorem full_budget_fails s payload now clk :
  max_session_restart_candidates <= admitted_candidates_ s ->
  exists e, fst (admit_candidate s payload now clk) = failure e.
Proof.
  intros Hm. unfold admit_candidate, reject. repeat (case_match; cbn [fst]; eauto); lia.
Qed.

(** An offer with the accepted request id is ignored whatever else it says. *)
Theorem same_request_ignored s r o canonical ufrag clk :
  accepted_request_ s = Some (request_id (binding o)) ->
  (local_restart_ s = None \/ local_restart_ s = accepted_request_ s) ->
  decide_offer s r o canonical ufrag clk = (success None, count DuplicatesIgnored s).
Proof.
  intros Ha Hl. unfold decide_offer. rewrite Ha in *.
  destruct Hl as [-> | ->]; rewrite ?bytes_eqb_refl; cbn [negb andb]; by rewrite ?bytes_eqb_refl.
Qed.

End observations.

(** ** Histories *)

Section histories.
Context `{Sodium}.

(** The calls of an admission; [now] is the wall clock, [clock] the steady one. *)
Inductive restart_call : Type :=
  | LocalRestart (request nonce canonical : list Z)
  | LocalAnswer (nonce canonical : list Z)
  | PeerOffer (payload : list Z) (now clock : Z)
  | PeerAnswer (payload : list Z) (now clock : Z)
  | PeerCandidate (payload : list Z) (now clock : Z).

(** What is admitted, and when. *)
Inductive restart_event : Type :=
  | OfferAdmitted (o : SignedOffer) (now : Z)
  | AnswerAdmitted (a : SignedAnswer) (now : Z)
  | CandidateAdmitted (c : SignedCandidate) (now : Z).

Definition restart_step (s : SessionRestartAdmission) (call : restart_call)
    : list restart_event * SessionRestartAdmission :=
  match call with
  | LocalRestart request nonce canonical => ([], set_local_restart s request nonce canonical)
  | LocalAnswer nonce canonical => ([], snd (set_local_restart_answer s nonce canonical))
  | PeerOffer payload now clock =>
      match admit_offer s payload now clock with
      | (success (Some o), s) => ([OfferAdmitted (offer o) now], s)
      | (_, s) => ([], s)
      end
  | PeerAnswer payload now clock =>
      match admit_answer s payload now clock with
      | (success (Some a), s) => ([AnswerAdmitted (answer a) now], s)
      | (_, s) => ([], s)
      end
  | PeerCandidate payload now clock =>
      match admit_candidate s payload now clock with
      | (success (Some c), s) => ([CandidateAdmitted c now], s)
      | (_, s) => ([], s)
      end
  end.

(** The events of a history, each with the state it was admitted in. *)
Definition restart_run (s : SessionRestartAdmission) (calls : list restart_call)
    : list (SessionRestartAdmission * restart_event) * SessionRestartAdmission :=
  foldl (fun '(evs, s) call => let '(new, s') := restart_step s call in (evs ++ map (pair s) new, s')) ([], s) calls.

(** The two endpoints of a session, in the order of the roles. *)
Definition bound_to (c : SessionRestartContext) (b : SignalBinding) (local_is_initiator : bool) : Prop :=
  initiator b = (if local_is_initiator then local c else peer c) /\
  responder b = (if local_is_initiator then peer c else local c) /\ session_id b = restart_session c.

(** Why an event was admitted in a state. *)
Definition event_sound (c : SessionRestartContext) (p : SessionRestartAdmission * restart_event) : Prop :=
  let '(s, ev) := p in
  match ev with
  | OfferAdmitted o now =>
      bound_to c (binding o) false /\ responder_nonce (binding o) = None /\
      validate_signed_expiry (binding_expires (binding o)) now = success tt /\
      exists b, canonical_signed_offer o = success b /\
        signed_by (peer_public_key c) (key_device_id (peer c)) b (description_signature o)
  | AnswerAdmitted a now =>
      bound_to c (binding a) true /\ responder_nonce_ s = None /\ is_Some (local_restart_ s) /\
      accepted_request_ s = Some (request_id (binding a)) /\
      initiator_nonce_ s = Some (initiator_nonce (binding a)) /\
      validate_signed_expiry (binding_expires (binding a)) now = success tt /\
      exists b, canonical_signed_answer a = success b /\
        signed_by (peer_public_key c) (key_device_id (peer c)) b (description_signature a)
  | CandidateAdmitted d now =>
      bound_to c (candidate_binding d) (seen (local_restart_ s)) /\
      accepted_request_ s = Some (request_id (candidate_binding d)) /\
      initiator_nonce_ s = Some (initiator_nonce (candidate_binding d)) /\
      responder_nonce_ s = responder_nonce (candidate_binding d) /\
      transcript_ s = Some (candidate_transcript d) /\
      peer_fingerprint_ s = Some (owner_dtls_fingerprint d) /\ peer_ufrag_ s = Some (owner_ice_ufrag d) /\
      validate_signed_expiry (binding_expires (candidate_binding d)) now = success tt /\
      exists b owner, canonical_signed_candidate d = success b /\
        signed_by (peer_public_key c) (owner_device owner d) b (candidate_signature d)
  end.

Definition answers (evs : list (SessionRestartAdmission * restart_event)) : list SignedAnswer :=
  omap (fun p => match snd p with AnswerAdmitted a _ => Some a | _ => None end) evs.
Definition candidates (evs : list (SessionRestartAdmission * restart_event)) : list SignedCandidate :=
  omap (fun p => match snd p with CandidateAdmitted d _ => Some d | _ => None end) evs.

Lemma holds_eq o v : holds o v = true <-> o = Some v.
Proof. unfold holds. destruct o as [w |]; [| done]. rewrite bytes_eqb_eq. split; congruence. Qed.

(** The members no admission touches, and those only some do. *)
Record unmoved (s s' : SessionRestartAdmission) : Prop := {
  unmoved_context : context_ s' = context_ s;
  unmoved_responder : responder_nonce_ s' = responder_nonce_ s;
  unmoved_sequence : peer_candidate_sequence_ s' = peer_candidate_sequence_ s;
  unmoved_admitted : admitted_candidates_ s' = admitted_candidates_ s;
}.

Lemma count_unmoved k s : unmoved s (count k s).
Proof. by split. Qed.
Lemma with_replay_unmoved k s r : unmoved s (count k (with_replay s r)).
Proof. by split. Qed.

(** Leaves the branches in which the state is only counted. *)
Ltac counted E := injection E as <- <-; split; [by split | by intros ? [=]].

Lemma replay_offer_inv s r d can u g clk res s1 :
  replay_offer s r d can u g clk = (res, s1) ->
  unmoved s s1 /\ forall o, res = success (Some o) -> offer o = d.
Proof.
  unfold replay_offer. destruct (ReplayCache.admit_signed _ _ _ _ _ _ _ _ _) as [[[] | e] r'];
    intros E; try (counted E). injection E as <- <-. split; [by split |]. by intros o [= <-].
Qed.

Lemma decide_offer_inv s r d can u clk res s1 :
  decide_offer s r d can u clk = (res, s1) ->
  unmoved s s1 /\ forall o, res = success (Some o) -> offer o = d.
Proof.
  unfold decide_offer, reject. intros E. destruct (_ && _) in E; [counted E |].
  destruct (accepted_request_ s); [| by eapply replay_offer_inv].
  destruct (bytes_eqb _ _) in E; [counted E |]. destruct (negb _) in E; [counted E | by eapply replay_offer_inv].
Qed.

Lemma admit_offer_sound s payload now clk res s1 :
  admit_offer s payload now clk = (res, s1) ->
  unmoved s s1 /\ forall o, res = success (Some o) -> event_sound (context_ s) (s, OfferAdmitted (offer o) now).
Proof.
  unfold admit_offer, reject. intros E. destruct (replay_ s) as [r |]; [| counted E].
  destruct (parse_signed_offer payload) as [d |]; [| counted E]. destruct (_ || _) eqn:G in E; [counted E |].
  destruct (verify_signed_offer _ _ _) as [[] |] eqn:V in E; [| counted E].
  destruct (parse_sdp_ice_ufrag _) as [u |] in E; [| counted E].
  destruct (canonical_signed_offer d) as [can |] eqn:C in E; [| counted E].
  apply decide_offer_inv in E as [Hu Ho]. split; [done |]. intros o Hr. rewrite (Ho o Hr). cbn.
  apply orb_false_iff in G as [[G1 G2]%orb_false_iff G3]. apply negb_false_iff in G1, G2.
  unfold same_binding_endpoints in G1. apply andb_true_iff in G1 as [K1%key_eqb_eq K2%key_eqb_eq].
  apply bytes_eqb_eq in G2. apply verify_offer_inv in V as (b & Hb & Hs & Hx). rewrite K1 in Hs.
  split_and!; try done; [| by exists b]. by destruct (responder_nonce (binding d)).
Qed.

Lemma replay_answer_inv s r d can u tr clk res s1 :
  replay_answer s r d can u tr clk = (res, s1) ->
  context_ s1 = context_ s /\ peer_candidate_sequence_ s1 = peer_candidate_sequence_ s /\
  admitted_candidates_ s1 = admitted_candidates_ s /\
  (forall a, res = success (Some a) -> answer a = d /\ responder_nonce_ s1 = responder_nonce (binding d)) /\
  ((forall a, res <> success (Some a)) -> responder_nonce_ s1 = responder_nonce_ s).
Proof.
  unfold replay_answer. destruct (ReplayCache.admit_signed _ _ _ _ _ _ _ _ _) as [[[] | e] r'];
    intros E; injection E as <- <-; cbn; split_and!; try done.
  - by intros a [= <-].
  - intros Hn. by destruct (Hn _ eq_refl).
Qed.

Lemma admit_answer_sound s payload now clk res s1 :
  admit_answer s payload now clk = (res, s1) ->
  (context_ s1 = context_ s /\ peer_candidate_sequence_ s1 = peer_candidate_sequence_ s /\
   admitted_candidates_ s1 = admitted_candidates_ s /\
   (is_Some (responder_nonce_ s) -> is_Some (responder_nonce_ s1))) /\
  forall a, res = success (Some a) ->
    event_sound (context_ s) (s, AnswerAdmitted (answer a) now) /\ is_Some (responder_nonce_ s1).
Proof.
  unfold admit_answer, reject. intros E. destruct (replay_ s) as [r |]; [| counted E].
  destruct (parse_signed_answer payload) as [d |]; [| counted E].
  destruct (accepted_request_ s) as [acc |] eqn:A1; [| counted E]. destruct (initiator_nonce_ s) as [n |] eqn:A2; [| counted E].
  destruct (canonical_offer_ s) as [off |]; [| counted E]. destruct (local_restart_ s) as [lr |] eqn:A3; [| counted E].
  destruct (_ || _) eqn:G in E; [counted E |].
  destruct (verify_signed_answer _ _ _) as [[] |] eqn:V in E; [| counted E].
  destruct (parse_sdp_ice_ufrag _) as [u |] in E; [| counted E].
  destruct (canonical_signed_answer d) as [can |] eqn:C in E; [| counted E].
  destruct (responder_nonce_ s) as [m |] eqn:A4; [destruct (holds _ _) in E; counted E |].
  destruct (hash_signaling_transcript _ _) as [tr |] in E; [| counted E].
  apply replay_answer_inv in E as (H1 & H2 & H3 & H4 & _). split; [split_and!; try done; by intros [? ?] |].
  intros a Ha. destruct (H4 a Ha) as [-> ->]. rewrite !orb_false_iff in G. destruct G as [[[[G1 G2] G3] G4] G5].
  apply negb_false_iff in G1, G2, G3, G4, G5. unfold same_binding_endpoints in G1.
  apply andb_true_iff in G1 as [K1%key_eqb_eq K2%key_eqb_eq]. apply bytes_eqb_eq in G2, G3, G4.
  apply verify_answer_inv in V as (b & Hb & Hs & Hx). rewrite K2 in Hs. cbn. rewrite A1, A2, A3, A4.
  split; [| destruct (responder_nonce (binding d)); done].
  split_and!; try done; try congruence; by exists b.
Qed.

Lemma replay_candidate_inv s r d payload clk res s1 :
  replay_candidate s r d payload clk = (res, s1) ->
  context_ s1 = context_ s /\ responder_nonce_ s1 = responder_nonce_ s /\
  match res with
  | success (Some d') => d' = d /\ peer_candidate_sequence_ s < sequence d /\
      peer_candidate_sequence_ s1 = sequence d /\ admitted_candidates_ s1 = u32 (admitted_candidates_ s + 1)
  | _ => unmoved s s1
  end.
Proof.
  unfold replay_candidate, reject. destruct (ReplayCache.admit_signed _ _ _ _ _ _ _ _ _) as [[[] | e] r']; intros E.
  2: destruct (holds _ _) in E.
  1: destruct (_ <=? _) eqn:L in E.
  all: injection E as <- <-; cbn; split_and!; try done. cbn in L. lia.
Qed.

Lemma admit_candidate_sound s payload now clk res s1 :
  admit_candidate s payload now clk = (res, s1) ->
  context_ s1 = context_ s /\ responder_nonce_ s1 = responder_nonce_ s /\
  match res with
  | success (Some d) => event_sound (context_ s) (s, CandidateAdmitted d now) /\
      peer_candidate_sequence_ s < sequence d /\ peer_candidate_sequence_ s1 = sequence d /\
      admitted_candidates_ s < max_session_restart_candidates /\
      admitted_candidates_ s1 = u32 (admitted_candidates_ s + 1)
  | _ => unmoved s s1
  end.
Proof.
  unfold admit_candidate, reject. intros E.
  destruct (replay_ s) as [r |]; [| by injection E as <- <-].
  destruct (parse_signed_candidate payload) as [d |]; [| by injection E as <- <-].
  destruct (accepted_request_ s) as [acc |] eqn:A1; [| by injection E as <- <-].
  destruct (initiator_nonce_ s) as [n |] eqn:A2; [| by injection E as <- <-].
  destruct (responder_nonce_ s) as [m |] eqn:A3; [| by injection E as <- <-].
  destruct (transcript_ s) as [tr |] eqn:A4; [| by injection E as <- <-].
  destruct (_ || _) eqn:G in E; [by injection E as <- <- |].
  destruct (verify_signed_candidate _ _ _) as [ow |] eqn:V in E; [| by injection E as <- <-].
  destruct (_ || _) eqn:G' in E; [by injection E as <- <- |].
  destruct (_ <=? _) eqn:L in E; [by injection E as <- <- |].
  apply replay_candidate_inv in E as (H1 & H2 & H3). rewrite A3 in H2. split; [done |]. split; [done |].
  destruct res as [[d' |] |]; [| done | done]. destruct H3 as (-> & H3 & H4 & H5). split_and!; try done; [| lia].
  rewrite !orb_false_iff in G. rewrite !orb_false_iff in G'. destruct G as [[[[[G1 G2] G3] G4] G5] G6], G' as [[G7 G8] G9].
  apply negb_false_iff in G1, G2, G3, G4, G5, G6, G7, G8, G9. apply key_eqb_eq in G1, G2.
  apply bytes_eqb_eq in G3, G4, G5, G7. apply holds_eq in G6, G8, G9.
  apply verify_candidate_inv in V as (b & Hb & Hs & Hx). cbn. rewrite A1, A2, A3, A4.
  split_and!; try done; try congruence. by exists b, ow.
Qed.

(** What holds of a history so far. *)
Record history_ok (c : SessionRestartContext) (evs : list (SessionRestartAdmission * restart_event))
    (s : SessionRestartAdmission) : Prop := {
  history_context : context_ s = c;
  history_sound : Forall (event_sound c) evs;
  history_answers : zlen (answers evs) <= 1;
  history_answered : 0 < zlen (answers evs) -> is_Some (responder_nonce_ s);
  history_sorted : StronglySorted Z.lt (map sequence (candidates evs));
  history_last : Forall (fun d => sequence d <= peer_candidate_sequence_ s) (candidates evs);
  history_count : admitted_candidates_ s = zlen (candidates evs);
  history_bound : zlen (candidates evs) <= max_session_restart_candidates;
}.

Lemma strongly_sorted_snoc l x : StronglySorted Z.lt l -> Forall (fun y => y < x) l -> StronglySorted Z.lt (l ++ [x]).
Proof.
  induction l as [| y l IH]; intros Hs Hf; cbn; [repeat constructor |].
  apply StronglySorted_inv in Hs as [Hs Hy]. apply Forall_cons in Hf as [Hy' Hf]. constructor; [by apply IH |].
  apply Forall_app. split; [done |]. by apply Forall_singleton.
Qed.

(** A step that admits nothing keeps the history. *)
Lemma history_quiet c evs s s' :
  history_ok c evs s -> context_ s' = context_ s -> peer_candidate_sequence_ s' = peer_candidate_sequence_ s ->
  admitted_candidates_ s' = admitted_candidates_ s -> (is_Some (responder_nonce_ s) -> is_Some (responder_nonce_ s')) ->
  history_ok c (evs ++ []) s'.
Proof.
  intros [] E1 E2 E3 E4. cbn. rewrite app_nil_r. split; rewrite ?E1, ?E2, ?E3; try done. auto.
Qed.

Lemma answers_app a b : answers (a ++ b) = answers a ++ answers b.
Proof. apply omap_app. Qed.
Lemma candidates_app a b : candidates (a ++ b) = candidates a ++ candidates b.
Proof. apply omap_app. Qed.

Lemma history_offer c evs s o now s' :
  history_ok c evs s -> event_sound c (s, OfferAdmitted o now) -> unmoved s s' ->
  history_ok c (evs ++ [(s, OfferAdmitted o now)]) s'.
Proof.
  intros [] Hs [E1 E2 E3 E4]. split; rewrite ?answers_app, ?candidates_app, ?app_nil_r, ?E1, ?E2, ?E3, ?E4; try done.
  apply Forall_app. split; [done |]. by apply Forall_singleton.
Qed.

Lemma history_answer c evs s a now s' :
  history_ok c evs s -> event_sound c (s, AnswerAdmitted a now) -> is_Some (responder_nonce_ s') ->
  context_ s' = context_ s -> peer_candidate_sequence_ s' = peer_candidate_sequence_ s ->
  admitted_candidates_ s' = admitted_candidates_ s ->
  history_ok c (evs ++ [(s, AnswerAdmitted a now)]) s'.
Proof.
  intros [H1 H2 H3 H4 H5 H6 H7 H8] Hs Hm E1 E2 E3.
  assert (Hn : zlen (answers evs) = 0).
  { assert (Hz := zlen_nonneg (answers evs)). destruct (decide (0 < zlen (answers evs))) as [Hp |]; [| lia].
    destruct (H4 Hp) as [m Em]. cbn in Hs. destruct Hs as (_ & Hr & _). congruence. }
  split; rewrite ?answers_app, ?candidates_app, ?app_nil_r, ?E1, ?E2, ?E3; try done.
  - apply Forall_app. split; [done |]. by apply Forall_singleton.
  - rewrite zlen_app. cbn. rewrite zlen_cons, zlen_nil. lia.
Qed.

Lemma history_candidate c evs s d now s' :
  history_ok c evs s -> event_sound c (s, CandidateAdmitted d now) ->
  context_ s' = context_ s -> responder_nonce_ s' = responder_nonce_ s ->
  peer_candidate_sequence_ s < sequence d -> peer_candidate_sequence_ s' = sequence d ->
  admitted_candidates_ s < max_session_restart_candidates ->
  admitted_candidates_ s' = u32 (admitted_candidates_ s + 1) ->
  history_ok c (evs ++ [(s, CandidateAdmitted d now)]) s'.
Proof.
  intros [H1 H2 H3 H4 H5 H6 H7 H8] Hs E1 E2 E3 E4 E5 E6. unfold max_session_restart_candidates in *.
  assert (Hz := zlen_nonneg (candidates evs)). rewrite u32_small in E6 by lia.
  split; rewrite ?answers_app, ?candidates_app, ?app_nil_r, ?E1, ?E2, ?E4, ?E6; try done.
  - apply Forall_app. split; [done |]. by apply Forall_singleton.
  - rewrite map_app. apply strongly_sorted_snoc; [done |]. apply Forall_map. eapply Forall_impl; [exact H6 |]. cbn. lia.
  - apply Forall_app. split; [| by apply Forall_singleton]. eapply Forall_impl; [exact H6 |]. cbn. lia.
  - rewrite zlen_app; cbn; rewrite zlen_cons, zlen_nil; unfold max_session_restart_candidates; lia.
  - rewrite zlen_app; cbn; rewrite zlen_cons, zlen_nil; unfold max_session_restart_candidates; lia.
Qed.

Lemma history_step c evs s call :
  history_ok c evs s ->
  history_ok c (evs ++ map (pair s) (fst (restart_step s call))) (snd (restart_step s call)).
Proof.
  intros Hh. destruct call as [q n can | n can | payload now clk | payload now clk | payload now clk]; cbn [restart_step fst snd].
  - by apply (history_quiet _ _ s).
  - apply (history_quiet _ _ s); try done; unfold set_local_restart_answer;
      destruct (canonical_offer_ s); try done; destruct (hash_signaling_transcript _ _); done.
  - destruct (admit_offer s payload now clk) as [r s1] eqn:E. apply admit_offer_sound in E as [Hu Ho].
    rewrite (history_context _ _ _ Hh) in Ho. destruct r as [[o |] |]; cbn [fst snd map].
    + apply history_offer; [done | by apply Ho | done].
    + destruct Hu as [? Er ? ?]. by apply (history_quiet _ _ s); rewrite ?Er.
    + destruct Hu as [? Er ? ?]. by apply (history_quiet _ _ s); rewrite ?Er.
  - destruct (admit_answer s payload now clk) as [r s1] eqn:E. apply admit_answer_sound in E as [(? & ? & ? & ?) Ho].
    rewrite (history_context _ _ _ Hh) in Ho. destruct r as [[a |] |]; cbn [fst snd map]; [| by apply (history_quiet _ _ s)..].
    destruct (Ho a eq_refl). by apply history_answer.
  - destruct (admit_candidate s payload now clk) as [r s1] eqn:E. apply admit_candidate_sound in E as (E1 & E2 & Ho).
    rewrite (history_context _ _ _ Hh) in Ho. destruct r as [[d |] |]; cbn [fst snd map].
    + destruct Ho as (? & ? & ? & ? & ?). by apply history_candidate.
    + destruct Ho as [? Er ? ?]. by apply (history_quiet _ _ s); rewrite ?Er.
    + destruct Ho as [? Er ? ?]. by apply (history_quiet _ _ s); rewrite ?Er.
Qed.

(** C13. Whatever calls an admission receives, in any order and with any payloads:
    every admitted object names this session and its two endpoints, was signed by
    the peer's key and is inside its validity window; an answer answers the offer
    this end registered, and is the only one ever admitted; a candidate carries the
    nonces, transcript, fingerprint and ufrag agreed on; and at most 128 candidates
    are admitted, with strictly increasing sequence numbers. *)
Theorem restart_history c calls :
  let '(evs, s) := restart_run (new_restart_admission c) calls in
  Forall (event_sound c) evs /\ zlen (answers evs) <= 1 /\
  StronglySorted Z.lt (map sequence (candidates evs)) /\
  zlen (candidates evs) <= max_session_restart_candidates /\ admitted_candidates_ s = zlen (candidates evs).
Proof.
  assert (Hrun : forall evs s, history_ok c evs s ->
    let '(evs', s') := foldl (fun '(evs, s) call => let '(new, s') := restart_step s call in (evs ++ map (pair s) new, s'))
      (evs, s) calls in history_ok c evs' s').
  { induction calls as [| call calls IH]; intros evs s Hh; cbn [foldl]; [done |].
    assert (Hs := history_step c evs s call Hh). destruct (restart_step s call) as [new s1]. by apply IH. }
  specialize (Hrun [] (new_restart_admission c)). unfold restart_run.
  destruct (foldl _ _ calls) as [evs s]. destruct Hrun as []; [| done].
  split; cbn; try done. constructor.
Qed.

End histories.

(** ** Witnesses *)

Definition restart_identity (b : Z) : IdentityKeyPair :=
  mkIdentityKeyPair (repeat b 32) (repeat b 32) (repeat b 64).

Definition restart_endpoint (b : Z) : DeviceEndpointKey := mkDeviceEndpointKey (repeat b 32) (repeat b 16).

(** The context of the end [a] of a session with [b]. *)
Definition restart_context (a b : Z) : SessionRestartContext :=
  mkRestartContext (restart_endpoint a) (restart_endpoint b) (repeat 7 16) 1 (repeat b 32) default_replay_policy.

Definition restart_text : list Z := bytes_of_string "v=0" ++ [10] ++ bytes_of_string "a=ice-ufrag:abcd" ++ [13; 10].

Definition offer_from (a b req : Z) : list Z * SessionRestartAdmission :=
  match @register_offer toy_sodium (new_restart_admission (restart_context a b)) (restart_identity a)
          (repeat req 16) (repeat 20 32) restart_text (repeat 21 32) 1000000 with
  | success r => r
  | failure _ => ([], new_restart_admission (restart_context a b))
  end.

Definition responder_state : SessionRestartAdmission :=
  snd (@admit_offer toy_sodium (new_restart_admission (restart_context 6 5)) (fst (offer_from 5 6 8)) 1000010 5).

Definition answer_from : list Z * SessionRestartAdmission :=
  match @register_answer toy_sodium responder_state (restart_identity 6) (repeat 8 16) (repeat 30 32) restart_text
          (repeat 31 32) 1000020 with
  | success r => r
  | failure _ => ([], responder_state)
  end.

Lemma restart_paired a b : (a = 5 /\ b = 6) \/ (a = 6 /\ b = 5) ->
  @paired toy_sodium (restart_context a b) (restart_context b a) (restart_identity a) (restart_identity b).
Proof.
  intros H. split; try done.
  - unfold key_typed. destruct H as [[-> ->] | [-> ->]]; split_and!; apply sized_decide; vm_compute; reflexivity.
  - split; [exists (repeat a 32) | exists (repeat b 32)]; destruct H as [[-> ->] | [-> ->]]; split; vm_compute; reflexivity.
Qed.

Lemma restart_data_sample req n fp : is_byte req -> is_byte n -> is_byte fp ->
  restart_data (repeat req 16) (repeat n 32) restart_text (repeat fp 32).
Proof.
  intros H1 H2 H3.
  assert (Hr : forall b k, is_byte b -> sized (Z.of_nat k) (repeat b k)).
  { intros b k Hb. split; [apply List.Forall_forall; by intros x ->%repeat_spec |]. unfold zlen. by rewrite repeat_length. }
  split; [exact (Hr req 16%nat H1) |]. split; [exact (Hr n 32%nat H2) |]. split; [| exact (Hr fp 32%nat H3)].
  apply (bool_decide_unpack _). vm_compute. exact I.
Qed.

Lemma restart_end_to_end_witness :
  let sA' := snd (@admit_answer toy_sodium (snd (offer_from 5 6 8)) (fst answer_from) 1000030 6) in
  exists tr, linked sA' (restart_context 5 6) true (repeat 8 16) (repeat 20 32) (repeat 30 32) tr (repeat 31 32) (bytes_of_string "abcd") /\
    linked (snd answer_from) (restart_context 6 5) false (repeat 8 16) (repeat 20 32) (repeat 30 32) tr (repeat 21 32) (bytes_of_string "abcd").
Proof.
  intros sA'.
  destruct (@restart_end_to_end toy_sodium toy_sodium_laws (restart_context 5 6) (restart_context 6 5) (restart_identity 5)
    (restart_identity 6) (repeat 8 16) (repeat 20 32) (repeat 30 32) restart_text restart_text (repeat 21 32) (repeat 31 32)
    (bytes_of_string "abcd") (bytes_of_string "abcd") 1000000 1000020 (fst (offer_from 5 6 8)) (fst answer_from)
    (snd (offer_from 5 6 8)) responder_state sA' (snd answer_from)
    (fst (@admit_answer toy_sodium (snd (offer_from 5 6 8)) (fst answer_from) 1000030 6))
    (fst (@admit_offer toy_sodium (new_restart_admission (restart_context 6 5)) (fst (offer_from 5 6 8)) 1000010 5))
    1000030 1000010 6 5) as (_ & _ & H & _); try exact H.
  - by apply restart_paired; left.
  - by apply restart_data_sample.
  - by apply restart_data_sample.
  - vm_compute. reflexivity.
  - vm_compute. reflexivity.
  - vm_compute. reflexivity.
  - vm_compute. reflexivity.
  - vm_compute. reflexivity.
  - vm_compute. reflexivity.
  - apply surjective_pairing.
  - vm_compute. reflexivity.
  - vm_compute. reflexivity.
  - apply surjective_pairing.
Defined.

Lemma restart_glare_witness :
  fst (@admit_offer toy_sodium (snd (offer_from 5 6 9)) (fst (offer_from 6 5 8)) 1000010 5) = success None.
Proof.
  assert (H := @restart_glare toy_sodium toy_sodium_laws (restart_context 5 6) (restart_context 6 5) (restart_identity 5)
    (restart_identity 6) (repeat 9 16) (repeat 8 16) (repeat 20 32) (repeat 20 32) restart_text restart_text
    (repeat 21 32) (repeat 21 32) (bytes_of_string "abcd") (bytes_of_string "abcd") 1000000 1000000
    (fst (offer_from 5 6 9)) (fst (offer_from 6 5 8)) (snd (offer_from 5 6 9)) (snd (offer_from 6 5 8))
    (fst (@admit_offer toy_sodium (snd (offer_from 5 6 9)) (fst (offer_from 6 5 8)) 1000010 5))
    (fst (@admit_offer toy_sodium (snd (offer_from 6 5 8)) (fst (offer_from 5 6 9)) 1000010 5))
    (snd (@admit_offer toy_sodium (snd (offer_from 5 6 9)) (fst (offer_from 6 5 8)) 1000010 5))
    (snd (@admit_offer toy_sodium (snd (offer_from 6 5 8)) (fst (offer_from 5 6 9)) 1000010 5))
    1000010 1000010 5 5).
  destruct H as (H & _); try exact H.
  - by apply restart_paired; left.
  - by apply restart_data_sample.
  - by apply restart_data_sample.
  - vm_compute. reflexivity.
  - vm_compute. reflexivity.
  - vm_compute. reflexivity.
  - vm_compute. reflexivity.
  - vm_compute. reflexivity.
  - vm_compute. reflexivity.
  - vm_compute. discriminate.
  - vm_compute. reflexivity.
  - vm_compute. reflexivity.
  - apply surjective_pairing.
  - apply surjective_pairing.
Defined.
