(* ===== verification/RelayTtlTable.v ===== *)
(** * The relay's expiring table

    [src/relay/relay_ttl_table.hpp]: the bounded table of entries with a
    lifetime that holds the relay's pending challenges and routes. *)

From Stdlib Require Import ZArith Lia ZifyBool String.
From stdpp Require Import base tactics option list gmap sorting numbers strings.
From S2P Require Import Prelude Errors Clock.
#[local] Open Scope Z_scope.

Module RelayTtlUpsertOutcome.
Inductive RelayTtlUpsertOutcome : Type := inserted | updated.
End RelayTtlUpsertOutcome.
Abbreviation RelayTtlUpsertOutcome := RelayTtlUpsertOutcome.RelayTtlUpsertOutcome.

Module RelayTtlTable.

Record RelayTtlEntry (Key Value : Type) : Type := mkTtlEntry {
  key : Key;
  value : Value;
  expires_at : Z;
}.
#[global] Arguments mkTtlEntry {Key Value}.
#[global] Arguments key {Key Value}.
#[global] Arguments value {Key Value}.
#[global] Arguments expires_at {Key Value}.

Record RelayTtlDiagnostics : Type := mkTtlDiagnostics {
  accepted : Z;
  updated : Z;
  capacity_rejected : Z;
  expired : Z;
  current_entries : Z;
  peak_entries : Z;
}.

Definition no_diagnostics : RelayTtlDiagnostics := mkTtlDiagnostics 0 0 0 0 0 0.

Definition count_updated (d : RelayTtlDiagnostics) : RelayTtlDiagnostics :=
  mkTtlDiagnostics (accepted d) (u64 (updated d + 1)) (capacity_rejected d) (expired d)
    (current_entries d) (peak_entries d).
Definition count_rejected (d : RelayTtlDiagnostics) : RelayTtlDiagnostics :=
  mkTtlDiagnostics (accepted d) (updated d) (u64 (capacity_rejected d + 1)) (expired d)
    (current_entries d) (peak_entries d).
Definition count_expired (d : RelayTtlDiagnostics) (n : Z) (current : Z) : RelayTtlDiagnostics :=
  mkTtlDiagnostics (accepted d) (updated d) (capacity_rejected d) (u64 (expired d + n))
    current (peak_entries d).
Definition count_accepted (d : RelayTtlDiagnostics) (current : Z) : RelayTtlDiagnostics :=
  mkTtlDiagnostics (u64 (accepted d + 1)) (updated d) (capacity_rejected d) (expired d)
    current (Z.max (peak_entries d) current).
Definition set_current (d : RelayTtlDiagnostics) (current : Z) : RelayTtlDiagnostics :=
  mkTtlDiagnostics (accepted d) (updated d) (capacity_rejected d) (expired d) current (peak_entries d).

Definition ttl_error (code : ErrorCode) (detail : string) : Error := make_error code "relay_ttl" detail.

Section table.
Context `{Countable Key} `{KeyOrder Key} `{forall a b : Key, Decision (key_le a b)} {Value : Type}.

Record Impl : Type := mkImpl {
  capacity : Z;
  entries : gmap Key (RelayTtlEntry Key Value);
  stats : RelayTtlDiagnostics;
}.

(** [std::unique_ptr<Impl>]: empty once the table has been moved from. *)
Definition Table : Type := option Impl.

Definition create (capacity : Z) : Result Table :=
  fail_if capacity =? 0 with ttl_error ErrorCode.configuration "relay_ttl_capacity_invalid";
  success (Some (mkImpl capacity ∅ no_diagnostics)).

Definition is_expired (now : Z) (e : RelayTtlEntry Key Value) : bool := expires_at e <=? now.

Definition expire_impl (t : Impl) (now : Z) : Impl :=
  let '(m, n) := erase_loop (is_expired now) (entries t) in
  mkImpl (capacity t) m (count_expired (stats t) n (msize m)).

Definition expire (t : Table) (now : Z) : Table := (fun t => expire_impl t now) <$> t.

(** The rest of [upsert], once the key has no entry. *)
Definition insert_new (t : Impl) (k : Key) (v : Value) (ttl now : Z)
    : Result RelayTtlUpsertOutcome * Impl :=
  let t := if capacity t <=? msize (entries t) then expire_impl t now else t in
  if capacity t <=? msize (entries t) then
    (failure (ttl_error ErrorCode.resource_exhausted "relay_ttl_capacity_exhausted"),
     mkImpl (capacity t) (entries t) (count_rejected (stats t)))
  else
    let m := <[k := mkTtlEntry k v (now + milliseconds ttl)]> (entries t) in
    (success RelayTtlUpsertOutcome.inserted, mkImpl (capacity t) m (count_accepted (stats t) (msize m))).

Definition upsert_impl (t : Impl) (k : Key) (v : Value) (ttl now : Z)
    : Result RelayTtlUpsertOutcome * Impl :=
  if ttl <=? 0 then (failure (ttl_error ErrorCode.configuration "relay_ttl_ttl_invalid"), t)
  else match entries t !! k with
  | Some e =>
      if now <? expires_at e then
        (success RelayTtlUpsertOutcome.updated,
         mkImpl (capacity t) (<[k := mkTtlEntry (key e) v (now + milliseconds ttl)]> (entries t))
           (count_updated (stats t)))
      else
        let m := delete k (entries t) in
        insert_new (mkImpl (capacity t) m (count_expired (stats t) 1 (msize m))) k v ttl now
  | None => insert_new t k v ttl now
  end.

Definition not_initialized : Error := ttl_error ErrorCode.cancelled "relay_ttl_not_initialized".

Definition upsert (t : Table) (k : Key) (v : Value) (ttl now : Z)
    : Result RelayTtlUpsertOutcome * Table :=
  match t with
  | None => (failure not_initialized, None)
  | Some t => let '(r, t) := upsert_impl t k v ttl now in (r, Some t)
  end.

Definition get (t : Table) (k : Key) (now : Z) : option Value :=
  match t with
  | None => None
  | Some t =>
      match entries t !! k with
      | Some e => if expires_at e <=? now then None else Some (value e)
      | None => None
      end
  end.

Definition contains (t : Table) (k : Key) (now : Z) : bool :=
  match get t k now with Some _ => true | None => false end.

Definition erase (t : Table) (k : Key) : Result unit * Table :=
  match t with
  | None => (failure not_initialized, None)
  | Some t =>
      let m := delete k (entries t) in
      (success tt,
       Some (mkImpl (capacity t) m
         (match entries t !! k with Some _ => set_current (stats t) (msize m) | None => stats t end)))
  end.

Definition take (t : Table) (k : Key) (now : Z) : option Value * Table :=
  match t with
  | None => (None, None)
  | Some t =>
      match entries t !! k with
      | None => (None, Some t)
      | Some e =>
          let m := delete k (entries t) in
          if expires_at e <=? now
          then (None, Some (mkImpl (capacity t) m (count_expired (stats t) 1 (msize m))))
          else (Some (value e), Some (mkImpl (capacity t) m (set_current (stats t) (msize m))))
      end
  end.

Definition snapshot (t : Table) (now : Z) : list (RelayTtlEntry Key Value) :=
  match t with
  | None => []
  | Some t => List.filter (fun e => now <? expires_at e) (map snd (iterate (entries t)))
  end.

Definition diagnostics (t : Table) : RelayTtlDiagnostics :=
  match t with Some t => stats t | None => no_diagnostics end.

End table.
#[global] Arguments Impl Key {_ _} Value.
#[global] Arguments Table Key {_ _} Value.

End RelayTtlTable.

Import RelayTtlTable.

Section refinement.
Context `{Countable Key} `{KeyOrder Key} `{forall a b : Key, Decision (key_le a b)} {Value : Type}.
Implicit Types t : Impl Key Value.

Abbreviation Entry := (RelayTtlEntry Key Value).

(** ** The contract: a bounded map whose entries vanish when they expire *)

Inductive operation : Type :=
  | Upsert (k : Key) (v : Value) (ttl : Z) | Get (k : Key) | Erase (k : Key) | Take (k : Key) | Expire.

Inductive response : Type :=
  | upserted (r : Result RelayTtlUpsertOutcome) | found (v : option Value) | erased (r : Result unit) | swept.

Definition alive (now : Z) (m : gmap Key Entry) : gmap Key Entry :=
  filter (fun kv : Key * Entry => is_expired now (snd kv) = false) m.

Definition spec_step (cap now : Z) (m : gmap Key Entry) (op : operation) : response * gmap Key Entry :=
  match op with
  | Upsert k v ttl =>
      if ttl <=? 0 then (upserted (failure (ttl_error ErrorCode.configuration "relay_ttl_ttl_invalid")), m)
      else match m !! k with
      | Some _ => (upserted (success RelayTtlUpsertOutcome.updated), <[k := mkTtlEntry k v (now + milliseconds ttl)]> m)
      | None =>
          if cap <=? msize m
          then (upserted (failure (ttl_error ErrorCode.resource_exhausted "relay_ttl_capacity_exhausted")), m)
          else (upserted (success RelayTtlUpsertOutcome.inserted),
                <[k := mkTtlEntry k v (now + milliseconds ttl)]> m)
      end
  | Get k => (found (value <$> m !! k), m)
  | Erase k => (erased (success tt), delete k m)
  | Take k => (found (value <$> m !! k), delete k m)
  | Expire => (swept, m)
  end.

(** Time passes, then the operation happens. *)
Fixpoint spec_run (cap : Z) (m : gmap Key Entry) (ops : list (Z * operation)) : list response :=
  match ops with
  | [] => []
  | (now, op) :: ops =>
      let '(r, m') := spec_step cap now (alive now m) op in r :: spec_run cap m' ops
  end.

Definition step (t : Table Key Value) (now : Z) (op : operation) : response * Table Key Value :=
  match op with
  | Upsert k v ttl => let '(r, t) := upsert t k v ttl now in (upserted r, t)
  | Get k => (found (get t k now), t)
  | Erase k => let '(r, t) := erase t k in (erased r, t)
  | Take k => let '(r, t) := take t k now in (found r, t)
  | Expire => (swept, expire t now)
  end.

Fixpoint run (t : Table Key Value) (ops : list (Z * operation)) : list response * Table Key Value :=
  match ops with
  | [] => ([], t)
  | (now, op) :: ops => let '(r, t1) := step t now op in let '(rs, t2) := run t1 ops in (r :: rs, t2)
  end.

(** ** Invariant *)

Record ttl_wf (t : Impl Key Value) : Prop := {
  wf_capacity : msize (entries t) <= capacity t;
  wf_keys k e : entries t !! k = Some e -> key e = k;
  wf_current : current_entries (stats t) = msize (entries t);
  wf_peak : msize (entries t) <= peak_entries (stats t) <= capacity t;
}.

Lemma alive_lookup now m k e : alive now m !! k = Some e <-> m !! k = Some e /\ now < expires_at e.
Proof. unfold alive. rewrite map_lookup_filter_Some. unfold is_expired. cbn. intuition lia. Qed.

Lemma alive_lookup_eq now m k :
  alive now m !! k = match m !! k with Some e => if expires_at e <=? now then None else Some e | None => None end.
Proof.
  apply option_eq. intros e. rewrite alive_lookup. destruct (m !! k) as [e' |]; [| intuition congruence].
  destruct (Z.leb_spec (expires_at e') now); split; try intros [[= <-] ?]; try intros [= <-]; try done; lia.
Qed.

Lemma alive_insert now m k e : now < expires_at e -> alive now (<[k := e]> m) = <[k := e]> (alive now m).
Proof. intros He. unfold alive. rewrite map_filter_insert_True; [done |]. unfold is_expired. cbn. lia. Qed.

Lemma alive_delete now m k : alive now (delete k m) = delete k (alive now m).
Proof. unfold alive. by rewrite map_filter_delete. Qed.

Lemma alive_later now u m : now <= u -> alive u (alive now m) = alive u m.
Proof.
  intros Hu. apply map_eq. intros k. apply option_eq. intros e. rewrite !alive_lookup. intuition lia.
Qed.

Lemma alive_le now m : msize (alive now m) <= msize m.
Proof. apply msize_subseteq, map_filter_subseteq. Qed.

Lemma expire_impl_eq t now :
  expire_impl t now = mkImpl (capacity t) (alive now (entries t))
    (count_expired (stats t) (msize (entries t) - msize (alive now (entries t))) (msize (alive now (entries t)))).
Proof.
  unfold expire_impl. assert (E := erase_loop_entries (is_expired now) (entries t)).
  assert (Hn := erase_loop_count (is_expired now) (entries t)).
  destruct (erase_loop (is_expired now) (entries t)) as [m n]. cbn -[msize] in *. by subst m n.
Qed.

Lemma ttl_expire_wf t now : ttl_wf t -> ttl_wf (expire_impl t now).
Proof.
  intros [Hc Hk Hcur Hp]. rewrite expire_impl_eq. assert (Hle := alive_le now (entries t)).
  split; cbn -[msize]; try lia; try done. intros k e [He _]%alive_lookup. eauto.
Qed.

Lemma insert_new_refines t k v ttl now :
  ttl_wf t -> 0 < ttl -> entries t !! k = None -> 0 < capacity t ->
  let '(r, t') := insert_new t k v ttl now in
  ttl_wf t' /\ capacity t' = capacity t /\
  (if capacity t <=? msize (alive now (entries t))
   then r = failure (ttl_error ErrorCode.resource_exhausted "relay_ttl_capacity_exhausted") /\
        alive now (entries t') = alive now (entries t)
   else r = success RelayTtlUpsertOutcome.inserted /\
        alive now (entries t') = <[k := mkTtlEntry k v (now + milliseconds ttl)]> (alive now (entries t))).
Proof.
  intros Hwf Httl Hnone Hcap. unfold insert_new. assert (Hms := milliseconds_pos _ Httl).
  (* the state after the optional sweep *)
  set (t1 := if capacity t <=? msize (entries t) then expire_impl t now else t).
  assert (Hsw : ttl_wf t1 /\ capacity t1 = capacity t /\ entries t1 !! k = None /\
    alive now (entries t1) = alive now (entries t) /\
    (capacity t <=? msize (entries t1)) = (capacity t <=? msize (alive now (entries t)))).
  { assert (Hle := alive_le now (entries t)). subst t1.
    destruct (Z.leb_spec (capacity t) (msize (entries t))) as [Hfull | Hfree].
    - split; [by apply ttl_expire_wf |]. rewrite expire_impl_eq. cbn -[msize]. split_and!; [done | | | done].
      + apply eq_None_not_Some. intros [e [He _]%alive_lookup]. congruence.
      + by apply alive_later.
    - split_and!; try done. destruct (Z.leb_spec (capacity t) (msize (entries t))),
        (Z.leb_spec (capacity t) (msize (alive now (entries t)))); (done || lia). }
  destruct Hsw as (Hwf1 & Hc1 & Hn1 & Ha1 & Hb1). clearbody t1. rewrite Hc1, Hb1.
  destruct Hwf1 as [Hc Hk Hcur Hp]. destruct (capacity t <=? msize (alive now (entries t))) eqn:Hfull.
  - split; [split; cbn -[msize]; (done || lia) | split; [done |]]. by split.
  - assert (Hins := msize_insert_new _ k (mkTtlEntry k v (now + milliseconds ttl)) Hn1).
    split; [| split; [done |]].
    + split; cbn -[msize]; rewrite ?Hins; try lia.
      intros k' e [[<- <-] | [_ He]]%lookup_insert_Some; [done | eauto].
    + split; [done |]. cbn [entries]. rewrite alive_insert by (cbn; lia). by rewrite Ha1.
Qed.

Lemma upsert_refines t k v ttl now :
  ttl_wf t -> 0 < capacity t ->
  let '(r, t') := upsert_impl t k v ttl now in
  ttl_wf t' /\ capacity t' = capacity t /\
  (upserted r, alive now (entries t')) = spec_step (capacity t) now (alive now (entries t)) (Upsert k v ttl).
Proof.
  intros Hwf Hcap. unfold upsert_impl. cbn [spec_step]. destruct (Z.leb_spec ttl 0) as [Ht | Ht]; [done |].
  assert (Hms := milliseconds_pos _ Ht). rewrite alive_lookup_eq. destruct (entries t !! k) as [e |] eqn:Hk.
  - destruct (Z.ltb_spec now (expires_at e)), (Z.leb_spec (expires_at e) now); try lia.
    + destruct Hwf as [Hc Hkeys Hcur Hp]. assert (Hins := msize_insert_old _ k (mkTtlEntry (key e) v (now + milliseconds ttl)) _ Hk).
      split; [split; cbn -[msize]; rewrite ?Hins; try done |].
      * intros k' e' [[<- <-] | [_ He]]%lookup_insert_Some; cbn; eauto.
      * split; [done |]. cbn [entries]. rewrite (Hkeys _ _ Hk). by rewrite alive_insert by (cbn; lia).
    + assert (Hd : alive now (delete k (entries t)) = alive now (entries t)).
      { rewrite alive_delete. apply delete_id. rewrite alive_lookup_eq, Hk.
        by rewrite (proj2 (Z.leb_le (expires_at e) now)). }
      set (t1 := mkImpl (capacity t) (delete k (entries t)) _).
      assert (Hwf1 : ttl_wf t1).
      { destruct Hwf as [Hc Hkeys Hcur Hp]. assert (Hm := msize_delete_old _ _ _ Hk).
        split; cbn -[msize]; try lia. intros k' e' [_ He]%lookup_delete_Some. eauto. }
      assert (Hr := insert_new_refines t1 k v ttl now Hwf1 Ht (lookup_delete_eq _ _) Hcap).
      destruct (insert_new t1 k v ttl now) as [r t']. cbn [t1 capacity entries] in Hr. rewrite Hd in Hr.
      destruct Hr as (Hw & Hc & Hr). split; [done |]. split; [done |]. case_match; destruct Hr as [-> ->]; done.
  - assert (Hr := insert_new_refines t k v ttl now Hwf Ht Hk Hcap).
    destruct (insert_new t k v ttl now) as [r t']. destruct Hr as (Hw & Hc & Hr).
    split; [done |]. split; [done |]. case_match; destruct Hr as [-> ->]; done.
Qed.

Lemma delete_wf t k d :
  ttl_wf t -> current_entries d = msize (delete k (entries t)) -> peak_entries d = peak_entries (stats t) ->
  ttl_wf (mkImpl (capacity t) (delete k (entries t)) d).
Proof.
  intros [Hc Hk Hcur Hp] Hd Hpk. assert (Hle := msize_delete_le (entries t) k).
  split; cbn -[msize]; rewrite ?Hpk; try lia. intros k' e [_ He]%lookup_delete_Some. eauto.
Qed.

Lemma get_refines t k now : get (Some t) k now = value <$> alive now (entries t) !! k.
Proof. cbn. rewrite alive_lookup_eq. destruct (entries t !! k) as [e |]; [| done]. by case_match. Qed.

Lemma erase_refines t k now :
  ttl_wf t -> exists t', erase (Some t) k = (success tt, Some t') /\ ttl_wf t' /\ capacity t' = capacity t /\
  alive now (entries t') = delete k (alive now (entries t)).
Proof.
  intros Hwf. unfold erase. eexists. split; [done |]. cbn [capacity entries]. split; [| split; [done | apply alive_delete]].
  destruct (entries t !! k) eqn:Hk; apply delete_wf; try done. destruct Hwf as [_ _ -> _]. by rewrite delete_id.
Qed.

Lemma take_refines t k now :
  ttl_wf t -> exists t', take (Some t) k now = (value <$> alive now (entries t) !! k, Some t') /\ ttl_wf t' /\
  capacity t' = capacity t /\ alive now (entries t') = delete k (alive now (entries t)).
Proof.
  intros Hwf. unfold take. rewrite alive_lookup_eq. destruct (entries t !! k) as [e |] eqn:Hk.
  - destruct (expires_at e <=? now); (eexists; split; [done |]); cbn [capacity entries];
      (split; [by apply delete_wf | split; [done | apply alive_delete]]).
  - exists t. split_and!; try done. rewrite delete_id; [done |]. by rewrite alive_lookup_eq, Hk.
Qed.

Lemma step_refines t now op :
  ttl_wf t -> 0 < capacity t ->
  exists r t', step (Some t) now op = (r, Some t') /\ ttl_wf t' /\ capacity t' = capacity t /\
  (r, alive now (entries t')) = spec_step (capacity t) now (alive now (entries t)) op.
Proof.
  intros Hwf Hcap. destruct op as [k v ttl | k | k | k |]; cbn [step].
  - assert (Hu := upsert_refines t k v ttl now Hwf Hcap). unfold upsert.
    destruct (upsert_impl t k v ttl now) as [r t']. eauto.
  - exists (found (get (Some t) k now)), t. by rewrite get_refines.
  - destruct (erase_refines t k now Hwf) as (t' & -> & Hw & Hc & Ha). exists (erased (success tt)), t'. by rewrite Ha.
  - destruct (take_refines t k now Hwf) as (t' & -> & Hw & Hc & Ha). do 2 eexists. split; [done |]. by rewrite Ha.
  - exists swept, (expire_impl t now). split; [done |]. split; [by apply ttl_expire_wf |]. rewrite expire_impl_eq.
    cbn -[msize]. split; [done |]. by rewrite alive_later.
Qed.

(** The operations happen at times that never go back. *)
Fixpoint monotone (from : Z) (ops : list (Z * operation)) : Prop :=
  match ops with [] => True | (now, _) :: ops => from <= now /\ monotone now ops end.

Lemma run_refines t m from ops :
  ttl_wf t -> 0 < capacity t -> monotone from ops -> m = alive from (entries t) ->
  fst (run (Some t) ops) = spec_run (capacity t) m ops /\
  exists t', snd (run (Some t) ops) = Some t' /\ ttl_wf t' /\ capacity t' = capacity t.
Proof.
  revert t m from. induction ops as [| [now op] ops IH]; intros t m from Hwf Hcap Hm ->; [cbn; eauto |].
  destruct Hm as [Hnow Hm]. destruct (step_refines t now op Hwf Hcap) as (r & t' & Es & Hw & Hc & Hsp).
  cbn [run spec_run]. rewrite Es, alive_later, <- Hsp by done.
  destruct (IH t' (alive now (entries t')) now Hw ltac:(lia) Hm eq_refl) as (H4 & t2 & H5 & H6 & H7).
  destruct (run (Some t') ops) as [rs t3]. cbn [fst snd] in *. rewrite H4, Hc. split; [done |]. exists t2.
  split_and!; [done | done | congruence].
Qed.

(** C36. The expiring table refines its contract: over any history of upserts,
    lookups, erasures, takes and sweeps at non-decreasing times, every answer,
    errors included, is the one a bounded map with exact expiry gives. Lazy
    eviction is invisible: an expired entry is never returned and never counts
    against the capacity; and the table never holds more than [capacity]
    entries. *)
Theorem ttl_table_refines cap (tab : Table Key Value) ops :
  0 <= cap -> create cap = success tab -> monotone 0 ops ->
  fst (run tab ops) = spec_run cap ∅ ops /\
  exists t', snd (run tab ops) = Some t' /\ ttl_wf t' /\ capacity t' = cap.
Proof.
  unfold create. intros Hcap Hc Hm. inv_result Hc. apply (run_refines (mkImpl cap ∅ no_diagnostics) ∅ 0 ops); [| cbn; lia | done | done].
  split; cbn; rewrite ?msize_empty; (done || lia).
Qed.

Lemma snapshot_elem t now e :
  ttl_wf t -> In e (snapshot (Some t) now) <-> alive now (entries t) !! key e = Some e.
Proof.
  intros Hwf. cbn. rewrite filter_In, in_map_iff, alive_lookup. rewrite Z.ltb_lt. split.
  - intros [([k e'] & E & Hin) He]. cbn in E. subst e'. apply list_elem_of_In, elem_of_iterate in Hin.
    by rewrite (wf_keys _ Hwf _ _ Hin).
  - intros [Hk He]. split; [| done]. exists (key e, e). split; [done |].
    by apply list_elem_of_In, elem_of_iterate.
Qed.

End refinement.

(** ** Witness *)

Definition sample_ops : list (Z * operation (Key := list Z) (Value := Z)) :=
  [(0, Upsert [1] 10 5); (1, Upsert [2] 20 1000); (2, Upsert [3] 30 7);
   (milliseconds 6, Get [1]); (milliseconds 6, Upsert [3] 30 7); (milliseconds 7, Take [3])].

Lemma ttl_table_refines_witness :
  fst (run (Some (mkImpl 2 ∅ no_diagnostics)) sample_ops) = spec_run 2 ∅ sample_ops.
Proof.
  destruct (ttl_table_refines 2 (Some (mkImpl 2 ∅ no_diagnostics)) sample_ops) as [E _]; [lia | done | | exact E].
  vm_compute. repeat split; discriminate.
Defined.
