(* ===== verification/RelayRateLimiter.v ===== *)
(** * The relay's rate limiter

    [src/relay/relay_rate_limiter.hpp] and [.cpp]: token buckets per connection,
    tenant and address, and one for all requests, with bounded key tables. *)

From Stdlib Require Import ZArith Lia ZifyBool String.
From stdpp Require Import base tactics option list gmap sorting numbers strings.
From S2P Require Import Prelude Errors Clock.
#[local] Open Scope Z_scope.

Module RelayRateLimitScope.
Inductive RelayRateLimitScope : Type := connection | request | tenant | ip.
End RelayRateLimitScope.
Abbreviation RelayRateLimitScope := RelayRateLimitScope.RelayRateLimitScope.

#[export] Instance RelayRateLimitScope_eq_dec : EqDecision RelayRateLimitScope.
Proof. solve_decision. Defined.

Module RelayRateLimiter.

Definition micro_units_per_token : Z := 1000000.

Definition limiter_error (code : ErrorCode) (detail : string) : Error :=
  make_error code "relay_rate_limit" detail.

Definition valid_key (value : list Z) (maximum : Z) : bool :=
  if (zlen value =? 0) || (maximum <? zlen value) then false
  else forallb (fun character => negb ((character <? 0x21) || (0x7e <? character))) value.

Record RelayRateLimitRule : Type := mkRule { capacity : Z; window : Z; max_keys : Z }.

Record RelayRateLimitPolicy : Type := mkPolicy {
  connection_rule : RelayRateLimitRule;
  request_rule : RelayRateLimitRule;
  tenant_rule : RelayRateLimitRule;
  ip_rule : RelayRateLimitRule;
  entry_ttl : Z;
}.

Definition default_policy : RelayRateLimitPolicy :=
  mkPolicy (mkRule 16 1000 4096) (mkRule 256 1000 1) (mkRule 64 1000 1024) (mkRule 32 1000 4096) 60000.

Record RelayRateLimitCounters : Type := mkCounters {
  allowed : Z;
  rejected : Z;
  capacity_rejected : Z;
  current_keys : Z;
  peak_keys : Z;
}.

Definition valid_rule (rule : RelayRateLimitRule) : bool :=
  (0 <? capacity rule) && (capacity rule <=? 1000000) && (0 <? window rule)
  && (window rule <=? 3600000) && (0 <? max_keys rule) && (max_keys rule <=? 1000000).

Definition elapsed_milliseconds (from to : Z) : Z := Z.max 0 (to_milliseconds (to - from)).

Record Bucket : Type := mkBucket { available_micro_tokens : Z; last_refill : Z }.

Record ScopeState : Type := mkScope { rule : RelayRateLimitRule; buckets : gmap (list Z) Bucket }.

(** [std::uint64_t] throughout. *)
Definition full_micro (r : RelayRateLimitRule) : Z := u64 (capacity r * micro_units_per_token).

Definition refill (r : RelayRateLimitRule) (bucket : Bucket) (now : Z) : Bucket :=
  let elapsed := Z.min (elapsed_milliseconds (last_refill bucket) now) (window r) in
  if elapsed <=? 0 then bucket
  else
    let refill_per_millisecond := full_micro r / window r in
    let credit := u64 (refill_per_millisecond * elapsed) in
    mkBucket (Z.min (full_micro r) (u64 (available_micro_tokens bucket + credit))) now.

Definition prune_scope (s : ScopeState) (now ttl : Z) : ScopeState :=
  mkScope (rule s) (fst (erase_loop (fun b => ttl <=? elapsed_milliseconds (last_refill b) now) (buckets s))).

Record Impl : Type := mkImpl {
  policy : RelayRateLimitPolicy;
  states : RelayRateLimitScope -> ScopeState;
  counters : RelayRateLimitScope -> RelayRateLimitCounters;
}.

Definition rule_of (p : RelayRateLimitPolicy) (scope : RelayRateLimitScope) : RelayRateLimitRule :=
  match scope with
  | RelayRateLimitScope.connection => connection_rule p
  | RelayRateLimitScope.request => request_rule p
  | RelayRateLimitScope.tenant => tenant_rule p
  | RelayRateLimitScope.ip => ip_rule p
  end.

Definition new_impl (p : RelayRateLimitPolicy) : Impl :=
  mkImpl p (fun scope => mkScope (rule_of p scope) ∅) (fun _ => mkCounters 0 0 0 0 0).

(** Writes through the pointers [state] and [counters]. *)
Definition write {A} (f : RelayRateLimitScope -> A) (scope : RelayRateLimitScope) (v : A)
    : RelayRateLimitScope -> A := fun scope' => if decide (scope' = scope) then v else f scope'.

Definition count_allowed (c : RelayRateLimitCounters) : RelayRateLimitCounters :=
  mkCounters (u64 (allowed c + 1)) (rejected c) (capacity_rejected c) (current_keys c) (peak_keys c).
Definition count_rejected (c : RelayRateLimitCounters) : RelayRateLimitCounters :=
  mkCounters (allowed c) (u64 (rejected c + 1)) (capacity_rejected c) (current_keys c) (peak_keys c).
Definition count_capacity (c : RelayRateLimitCounters) : RelayRateLimitCounters :=
  mkCounters (allowed c) (rejected c) (u64 (capacity_rejected c + 1)) (current_keys c) (peak_keys c).
Definition set_current (c : RelayRateLimitCounters) (n : Z) : RelayRateLimitCounters :=
  mkCounters (allowed c) (rejected c) (capacity_rejected c) n (peak_keys c).
Definition raise_peak (c : RelayRateLimitCounters) : RelayRateLimitCounters :=
  mkCounters (allowed c) (rejected c) (capacity_rejected c) (current_keys c)
    (Z.max (peak_keys c) (current_keys c)).

(** The end of [admit], on the bucket that was found or made. *)
Definition spend (state : ScopeState) (c : RelayRateLimitCounters) (lookup_key : list Z)
    (bucket : Bucket) (now : Z) : Result unit * ScopeState * RelayRateLimitCounters :=
  let bucket := refill (rule state) bucket now in
  if available_micro_tokens bucket <? micro_units_per_token then
    (failure (limiter_error ErrorCode.resource_exhausted "rate_limit_exceeded"),
     mkScope (rule state) (<[lookup_key := bucket]> (buckets state)), count_rejected c)
  else
    (success tt,
     mkScope (rule state)
       (<[lookup_key := mkBucket (available_micro_tokens bucket - micro_units_per_token) (last_refill bucket)]>
          (buckets state)),
     count_allowed c).

(** [admit] from the lookup on. *)
Definition admit_scope (ttl : Z) (state : ScopeState) (c : RelayRateLimitCounters)
    (lookup_key : list Z) (now : Z) : Result unit * ScopeState * RelayRateLimitCounters :=
  match buckets state !! lookup_key with
  | Some bucket => spend state c lookup_key bucket now
  | None =>
      let '(state, c) :=
        if max_keys (rule state) <=? msize (buckets state)
        then let state := prune_scope state now ttl in (state, set_current c (msize (buckets state)))
        else (state, c) in
      if max_keys (rule state) <=? msize (buckets state) then
        (failure (limiter_error ErrorCode.resource_exhausted "rate_limit_key_capacity_exhausted"),
         state, count_capacity c)
      else
        let bucket := mkBucket (full_micro (rule state)) now in
        let state := mkScope (rule state) (<[lookup_key := bucket]> (buckets state)) in
        spend state (raise_peak (set_current c (msize (buckets state)))) lookup_key bucket now
  end.

Definition is_request (scope : RelayRateLimitScope) : bool :=
  match scope with RelayRateLimitScope.request => true | _ => false end.

Definition lookup_key (scope : RelayRateLimitScope) (key : list Z) : list Z :=
  if is_request scope then [] else key.

Definition admit_call (impl : Impl) (scope : RelayRateLimitScope) (key : list Z) (now : Z)
    : Result unit * Impl :=
  if negb (is_request scope) && negb (valid_key key 128)
  then (failure (limiter_error ErrorCode.configuration "rate_limit_key_invalid"), impl)
  else
    let '(r, state, c) := admit_scope (entry_ttl (policy impl)) (states impl scope) (counters impl scope)
                            (lookup_key scope key) now in
    (r, mkImpl (policy impl) (write (states impl) scope state) (write (counters impl) scope c)).

Definition validate_policy (p : RelayRateLimitPolicy) : Result unit :=
  fail_if negb (valid_rule (connection_rule p)) || negb (valid_rule (request_rule p))
          || negb (valid_rule (tenant_rule p)) || negb (valid_rule (ip_rule p))
          || (entry_ttl p <=? 0) || (3600000 <? entry_ttl p)
    with limiter_error ErrorCode.configuration "rate_limit_policy_invalid";
  success tt.

(** [std::unique_ptr<Impl>]. *)
Definition Limiter : Type := option Impl.

Definition create (p : RelayRateLimitPolicy) : Result Limiter :=
  let? _ := validate_policy p in success (Some (new_impl p)).

Definition check (l : Limiter) (scope : RelayRateLimitScope) (key : list Z) (now : Z)
    : Result unit * Limiter :=
  match l with
  | Some impl => let '(r, impl) := admit_call impl scope key now in (r, Some impl)
  | None => (failure (limiter_error ErrorCode.cancelled "rate_limiter_not_initialized"), None)
  end.

Definition check_connection (l : Limiter) (connection_id : list Z) (now : Z) :=
  check l RelayRateLimitScope.connection connection_id now.
Definition check_request (l : Limiter) (now : Z) := check l RelayRateLimitScope.request [] now.
Definition check_tenant (l : Limiter) (tenant : list Z) (now : Z) :=
  check l RelayRateLimitScope.tenant tenant now.
Definition check_ip (l : Limiter) (ip : list Z) (now : Z) := check l RelayRateLimitScope.ip ip now.

Definition prune_impl (impl : Impl) (now : Z) : Impl :=
  let states' := fun scope => prune_scope (states impl scope) now (entry_ttl (policy impl)) in
  mkImpl (policy impl) states'
    (fun scope => set_current (counters impl scope) (msize (buckets (states' scope)))).

Definition prune (l : Limiter) (now : Z) : Limiter := (fun impl => prune_impl impl now) <$> l.

Definition diagnostics (l : Limiter) : RelayRateLimitScope -> RelayRateLimitCounters :=
  match l with Some impl => counters impl | None => fun _ => mkCounters 0 0 0 0 0 end.

Definition relay_rate_limit_scope_name (scope : RelayRateLimitScope) : string :=
  match scope with
  | RelayRateLimitScope.connection => "connection"
  | RelayRateLimitScope.request => "request"
  | RelayRateLimitScope.tenant => "tenant"
  | RelayRateLimitScope.ip => "ip"
  end.

End RelayRateLimiter.

Import RelayRateLimiter.

(** ** One bucket *)

(** The rule in exact arithmetic: nothing wraps in a valid rule. *)
Definition rate (r : RelayRateLimitRule) : Z := full_micro r / window r.

Lemma full_micro_eq r : valid_rule r = true -> full_micro r = capacity r * 1000000.
Proof. unfold valid_rule, full_micro, micro_units_per_token. intros Hr. apply u64_small. lia. Qed.

Lemma rate_bounds r : valid_rule r = true -> 0 <= rate r /\ rate r * window r <= full_micro r <= 10 ^ 12.
Proof.
  intros Hr. unfold rate. rewrite full_micro_eq by done. unfold valid_rule in Hr.
  assert (Hd := Z.mul_div_le (capacity r * 1000000) (window r) ltac:(lia)).
  assert (Hp := Z.div_pos (capacity r * 1000000) (window r) ltac:(lia) ltac:(lia)). lia.
Qed.

Lemma refill_spec r b now :
  valid_rule r = true -> last_refill b <= now -> 0 <= available_micro_tokens b <= full_micro r ->
  let b' := refill r b now in
  last_refill b <= last_refill b' <= now /\
  available_micro_tokens b <= available_micro_tokens b' <= full_micro r /\
  available_micro_tokens b' <=
    available_micro_tokens b + rate r * to_milliseconds (last_refill b' - last_refill b).
Proof.
  intros Hr Hnow Ha. unfold refill. destruct (rate_bounds r Hr) as (Hrate & Hfull & Hmax).
  assert (Hw : 0 < window r) by (unfold valid_rule in Hr; lia).
  assert (Hms := to_milliseconds_nonneg (now - last_refill b) ltac:(lia)).
  unfold elapsed_milliseconds. rewrite Z.max_r by lia.
  set (e := Z.min _ (window r)). assert (He : 0 <= e /\ e <= window r /\ e <= to_milliseconds (now - last_refill b)) by lia.
  clearbody e. destruct (Z.leb_spec e 0) as [H0 | H0].
  { rewrite Z.sub_diag. change (to_milliseconds 0) with 0. lia. }
  fold (rate r). assert (Hc : 0 <= rate r * e <= rate r * window r) by nia.
  cbn [available_micro_tokens last_refill]. rewrite (u64_small (rate r * e)) by lia. rewrite u64_small by lia.
  split; [lia |]. split; [lia |]. etransitivity; [apply Z.le_min_r |]. nia.
Qed.

(** ** Histories *)

Inductive event : Type :=
  | Check (scope : RelayRateLimitScope) (key : list Z) (now : Z)
  | Prune (now : Z).

Definition event_time (e : event) : Z := match e with Check _ _ now => now | Prune now => now end.

Fixpoint monotone (from : Z) (es : list event) : Prop :=
  match es with [] => True | e :: es => from <= event_time e /\ monotone (event_time e) es end.

Fixpoint end_time (from : Z) (es : list event) : Z :=
  match es with [] => from | e :: es => end_time (event_time e) es end.

(** Is this a permission for bucket [k] of [scope]? *)
Definition grants (scope : RelayRateLimitScope) (k : list Z) (e : event) (r : Result unit) : bool :=
  match e with
  | Check scope' key _ =>
      bool_decide (scope' = scope) && bytes_eqb (lookup_key scope' key) k && has_value r
  | Prune _ => false
  end.

Definition react (impl : Impl) (e : event) : Result unit * Impl :=
  match e with
  | Check scope key now => admit_call impl scope key now
  | Prune now => (success tt, prune_impl impl now)
  end.

(** How many calls of the history were permitted for bucket [k] of [scope]. *)
Fixpoint granted (scope : RelayRateLimitScope) (k : list Z) (impl : Impl) (es : list event) : Z :=
  match es with
  | [] => 0
  | e :: es =>
      let '(r, impl') := react impl e in
      (if grants scope k e r then 1 else 0) + granted scope k impl' es
  end.

Definition bucket_of (impl : Impl) (scope : RelayRateLimitScope) (k : list Z) : option Bucket :=
  buckets (states impl scope) !! k.

(** Every scope keeps its rule. *)
Definition rules_ok (impl : Impl) : Prop := forall scope, rule (states impl scope) = rule_of (policy impl) scope.

Lemma write_eq {A} (f : RelayRateLimitScope -> A) s v : write f s v s = v.
Proof. unfold write. by rewrite decide_True. Qed.

Lemma write_ne {A} (f : RelayRateLimitScope -> A) s s' v : s' <> s -> write f s v s' = f s'.
Proof. intros Hne. unfold write. by rewrite decide_False. Qed.

Lemma prune_scope_lookup s now ttl k :
  buckets (prune_scope s now ttl) !! k = buckets s !! k \/
  (buckets (prune_scope s now ttl) !! k = None /\
   exists b, buckets s !! k = Some b /\ ttl <= elapsed_milliseconds (last_refill b) now).
Proof.
  unfold prune_scope. cbn [buckets]. rewrite erase_loop_entries. rewrite map_lookup_filter.
  destruct (buckets s !! k) as [b |]; cbn; [| by left].
  destruct (Z.leb_spec ttl (elapsed_milliseconds (last_refill b) now)).
  - right. split; [| eauto]. done.
  - left. done.
Qed.

(** What one call does to the bucket it addresses, and to any other. *)
Inductive bucket_step (r : RelayRateLimitRule) (ttl now : Z) : option Bucket -> bool -> option Bucket -> Prop :=
  | step_keep o : bucket_step r ttl now o false o
  | step_drop b : ttl <= elapsed_milliseconds (last_refill b) now -> bucket_step r ttl now (Some b) false None
  | step_reject b : bucket_step r ttl now (Some b) false (Some (refill r b now))
  | step_grant b :
      micro_units_per_token <= available_micro_tokens (refill r b now) ->
      bucket_step r ttl now (Some b) true
        (Some (mkBucket (available_micro_tokens (refill r b now) - micro_units_per_token)
                 (last_refill (refill r b now))))
  | step_new g o :
      bucket_step r ttl now (Some (mkBucket (full_micro r) now)) g o ->
      bucket_step r ttl now None g o.

Lemma spend_step ttl state c k b now :
  let '(res, state', _) := spend state c k b now in
  rule state' = rule state /\
  bucket_step (rule state) ttl now (Some b) (has_value res) (buckets state' !! k) /\
  forall k', k' <> k -> buckets state' !! k' = buckets state !! k'.
Proof.
  unfold spend. destruct (Z.ltb_spec (available_micro_tokens (refill (rule state) b now)) micro_units_per_token);
    cbn [rule buckets has_value]; (split; [done |]); rewrite lookup_insert_eq;
    (split; [| intros k' Hne; by rewrite lookup_insert_ne]); [apply step_reject | by apply step_grant].
Qed.

(** The sweep before a key is added. *)
Lemma make_room ttl state c now (p : ScopeState * RelayRateLimitCounters) :
  (if max_keys (rule state) <=? msize (buckets state)
   then (prune_scope state now ttl, set_current c (msize (buckets (prune_scope state now ttl))))
   else (state, c)) = p ->
  rule (fst p) = rule state /\
  forall k, bucket_step (rule state) ttl now (buckets state !! k) false (buckets (fst p) !! k) /\
            (buckets state !! k = None -> buckets (fst p) !! k = None).
Proof.
  intros <-. destruct (_ <=? _); cbn [fst]; (split; [done |]); intros k; [| split; [apply step_keep | done]].
  destruct (prune_scope_lookup state now ttl k) as [-> | [-> (b & -> & Hb)]];
    [split; [apply step_keep | done] | split; [by apply step_drop | done]].
Qed.

Lemma admit_scope_step ttl state c k now k' :
  let '(res, state', _) := admit_scope ttl state c k now in
  rule state' = rule state /\
  bucket_step (rule state) ttl now (buckets state !! k') (bytes_eqb k k' && has_value res) (buckets state' !! k').
Proof.
  assert (Hne : bytes_eqb k k' = false -> k' <> k) by (intros E ->; by rewrite bytes_eqb_refl in E).
  unfold admit_scope. destruct (buckets state !! k) as [b |] eqn:Hk.
  { assert (Hs := spend_step ttl state c k b now). destruct (spend state c k b now) as [[res state'] c'].
    destruct Hs as (Hr & Hs & Ho). split; [done |]. destruct (bytes_eqb k k') eqn:E; cbn [andb].
    - apply bytes_eqb_eq in E as <-. by rewrite Hk.
    - rewrite Ho by auto. apply step_keep. }
  cbv zeta. destruct (if max_keys (rule state) <=? _ then _ else _) as [state1 c1] eqn:E1.
  apply (make_room ttl) in E1 as [Hr1 Hst]. cbn [fst] in *.
  destruct (max_keys (rule state1) <=? msize (buckets state1)).
  { cbn [has_value]. rewrite andb_false_r. split; [done | apply Hst]. }
  match goal with |- context [spend ?s2 ?c2 k ?b2 now] => assert (Hs := spend_step ttl s2 c2 k b2 now);
    destruct (spend s2 c2 k b2 now) as [[res state'] c'] end.
  cbn [rule buckets] in Hs. rewrite Hr1 in Hs. destruct Hs as (Hr & Hs & Ho). split; [done |].
  destruct (bytes_eqb k k') eqn:E; cbn [andb].
  - apply bytes_eqb_eq in E as <-. rewrite Hk. by apply step_new.
  - rewrite Ho, lookup_insert_ne by (auto || (symmetry; auto)). apply Hst.
Qed.

Lemma react_step impl e scope k :
  rules_ok impl ->
  let '(res, impl') := react impl e in
  rules_ok impl' /\ policy impl' = policy impl /\
  bucket_step (rule_of (policy impl) scope) (entry_ttl (policy impl)) (event_time e)
    (bucket_of impl scope k) (grants scope k e res) (bucket_of impl' scope k).
Proof.
  intros Hok. destruct e as [scope' key now | now]; cbn [react event_time grants].
  - unfold admit_call. destruct (negb (is_request scope') && negb (valid_key key 128)).
    { cbn [has_value]. rewrite andb_false_r. split_and!; [done | done | apply step_keep]. }
    assert (Hs := admit_scope_step (entry_ttl (policy impl)) (states impl scope') (counters impl scope')
      (lookup_key scope' key) now k).
    destruct (admit_scope _ _ _ _ now) as [[res state'] c']. destruct Hs as [Hr Hs]. split.
    { intros s. cbn. destruct (decide (s = scope')) as [-> | Hne]; [rewrite write_eq, Hr | rewrite write_ne by done]; apply Hok. }
    split; [done |]. unfold bucket_of. cbn [states]. case_bool_decide as E; cbn [andb].
    + subst. rewrite write_eq. by rewrite <- Hok.
    + rewrite write_ne by congruence. apply step_keep.
  - split; [intros s; apply Hok |]. split; [done |]. unfold bucket_of. cbn [prune_impl states].
    destruct (prune_scope_lookup (states impl scope) now (entry_ttl (policy impl)) k) as [-> | [-> (b & -> & Hb)]];
      [apply step_keep | by apply step_drop].
Qed.

(** ** The bound *)

(** [n] permissions until [now] are paid for by the initial allowance and by
    the refill since [start]; an absent bucket that was used has been idle for
    the lifetime of entries. *)
Definition paid (r : RelayRateLimitRule) (ttl start now n : Z) (o : option Bucket) : Prop :=
  let budget t := full_micro r + rate r * to_milliseconds (t - start) in
  match o with
  | Some b =>
      start <= last_refill b <= now /\ 0 <= available_micro_tokens b <= full_micro r /\
      n * micro_units_per_token + available_micro_tokens b <= budget (last_refill b)
  | None =>
      n = 0 \/ exists t, start <= t /\ t <= now /\ ttl <= to_milliseconds (now - t) /\
        n * micro_units_per_token <= budget t
  end.

Lemma paid_later r ttl start now now' n o :
  start <= now -> now <= now' -> paid r ttl start now n o -> paid r ttl start now' n o.
Proof.
  intros Hs Hn. destruct o as [b |]; cbn; [intuition lia |].
  intros [Hz | (t & H1 & H2 & H3 & H4)]; [by left | right]. exists t. split_and!; [done | lia | | done].
  etransitivity; [exact H3 | apply to_milliseconds_mono; lia].
Qed.

Lemma paid_step r ttl start now n o g o' :
  valid_rule r = true -> window r <= ttl -> rate r * window r = full_micro r -> start <= now ->
  paid r ttl start now n o -> bucket_step r ttl now o g o' ->
  paid r ttl start now (n + (if g then 1 else 0)) o'.
Proof.
  intros Hr Httl Hdiv Hs Hp Hstep. destruct (rate_bounds r Hr) as (Hrate & Hf & Hmax).
  assert (Hw : 0 < window r) by (unfold valid_rule in Hr; lia).
  (* the refilled bucket is still paid for *)
  assert (Hrefill : forall b, paid r ttl start now n (Some b) -> paid r ttl start now n (Some (refill r b now))).
  { intros b (H1 & H2 & H3). assert (Hre := refill_spec r b now Hr ltac:(lia) H2). cbn in Hre.
    destruct Hre as (R1 & R2 & R3). cbn. split; [lia |]. split; [lia |].
    assert (Hadd := to_milliseconds_add (last_refill b - start) (last_refill (refill r b now) - last_refill b) ltac:(lia) ltac:(lia)).
    replace (last_refill b - start + (last_refill (refill r b now) - last_refill b))
      with (last_refill (refill r b now) - start) in Hadd by lia. nia. }
  induction Hstep as [o | b Hidle | b | b Hge | g o Hstep IH].
  - by rewrite Z.add_0_r.
  - rewrite Z.add_0_r. destruct Hp as (H1 & H2 & H3). right. exists (last_refill b).
    unfold elapsed_milliseconds in Hidle. split_and!; [lia | lia | lia |]. cbv beta in *. lia.
  - rewrite Z.add_0_r. by apply Hrefill.
  - apply Hrefill in Hp as (H1 & H2 & H3). unfold paid. cbv beta zeta in *.
    cbn [last_refill available_micro_tokens]. unfold micro_units_per_token in *. split_and!; lia.
  - apply IH. cbn. split; [lia |]. split; [lia |].
    destruct Hp as [-> | (t & H1 & H2 & H3 & H4)].
    { assert (H := to_milliseconds_nonneg (now - start) ltac:(lia)). nia. }
    assert (Hadd := to_milliseconds_add (t - start) (now - t) ltac:(lia) ltac:(lia)).
    replace (t - start + (now - t)) with (now - start) in Hadd by lia. nia.
Qed.

Lemma paid_end r ttl start now n o :
  valid_rule r = true -> start <= now -> paid r ttl start now n o ->
  n * micro_units_per_token <= full_micro r + rate r * to_milliseconds (now - start).
Proof.
  intros Hr Hs Hp. destruct (rate_bounds r Hr) as (Hrate & Hf & Hmax).
  assert (Hnn := to_milliseconds_nonneg (now - start) ltac:(lia)).
  assert (Hfull : 0 <= full_micro r) by (rewrite full_micro_eq by done; unfold valid_rule in Hr; lia).
  destruct o as [b |]; cbn in Hp.
  - destruct Hp as (H1 & H2 & H3). assert (H := to_milliseconds_mono (last_refill b - start) (now - start) ltac:(lia)). nia.
  - destruct Hp as [-> | (t & H1 & H2 & _ & H4)]; [nia |].
    assert (H := to_milliseconds_mono (t - start) (now - start) ltac:(lia)). nia.
Qed.

Lemma granted_bound scope k impl es start now n :
  let r := rule_of (policy impl) scope in
  rules_ok impl -> valid_rule r = true -> window r <= entry_ttl (policy impl) ->
  rate r * window r = full_micro r -> start <= now -> monotone now es ->
  paid r (entry_ttl (policy impl)) start now n (bucket_of impl scope k) ->
  (n + granted scope k impl es) * micro_units_per_token <=
    full_micro r + rate r * to_milliseconds (end_time now es - start).
Proof.
  intros r Hok Hr Hw Hdiv. subst r. revert impl now n Hok Hr Hw Hdiv.
  induction es as [| e es IH]; intros impl now n Hok Hr Hw Hdiv Hs Hm Hp; cbn [granted end_time].
  { rewrite Z.add_0_r. by eapply paid_end. }
  destruct Hm as [Hnow Hm]. assert (Hre := react_step impl e scope k Hok).
  destruct (react impl e) as [res impl']. destruct Hre as (Hok' & Hpol & Hstep).
  rewrite Z.add_assoc. rewrite <- Hpol in *. apply IH; try done; [lia |].
  eapply paid_step; [done.. | lia | | exact Hstep]. eapply paid_later; [| | exact Hp]; lia.
Qed.

Lemma create_ok p impl :
  create p = success (Some impl) ->
  impl = new_impl p /\ rules_ok impl /\ forall scope, valid_rule (rule_of p scope) = true.
Proof.
  unfold create, validate_policy. intros E. inv_result E. inv_result E0.
  split; [done |]. split; [by intros scope |]. intros []; cbn; lia.
Qed.

(** C37. The rate limit holds for a rule whose window divides the capacity in
    micro-tokens and is no longer than the lifetime of the entries, as in the default
    policy: over any history of checks of all scopes and keys and of sweeps, at
    non-decreasing times, one key is granted at most [capacity] calls plus what
    [capacity] per [window] accrues while the history lasts; evicting and recreating
    its bucket does not help it. The validation asks for neither condition. *)
Theorem rate_limit_bound p impl scope k es start :
  create p = success (Some impl) ->
  (capacity (rule_of p scope) * micro_units_per_token) mod window (rule_of p scope) = 0 ->
  window (rule_of p scope) <= entry_ttl p -> monotone start es ->
  granted scope k impl es * window (rule_of p scope) <=
  capacity (rule_of p scope) * (window (rule_of p scope) + to_milliseconds (end_time start es - start)).
Proof.
  intros (-> & Hok & Hval)%create_ok Hmod Httl Hm. specialize (Hval scope).
  set (r := rule_of p scope) in *. assert (Hf := full_micro_eq r Hval). unfold micro_units_per_token in *.
  assert (Hw : 0 < window r) by (unfold valid_rule in Hval; lia).
  assert (Hdiv : rate r * window r = full_micro r).
  { unfold rate. rewrite Hf. assert (H := Z.div_mod (capacity r * 1000000) (window r) ltac:(lia)). lia. }
  assert (Hb := granted_bound scope k (new_impl p) es start start 0 Hok Hval Httl Hdiv ltac:(lia) Hm
    (or_introl eq_refl)). fold r in Hb. change (rule_of (policy (new_impl p)) scope) with r in Hb.
  unfold micro_units_per_token in Hb. rewrite Z.add_0_l in Hb.
  generalize dependent (granted scope k (new_impl p) es). intros g Hb.
  generalize dependent (to_milliseconds (end_time start es - start)). intros ms Hb. nia.
Qed.

(** ** Rules that never refill *)

Lemma slow_refill r b now :
  valid_rule r = true -> rate r = 0 -> 0 <= available_micro_tokens b <= full_micro r ->
  available_micro_tokens (refill r b now) = available_micro_tokens b.
Proof.
  intros Hr H0 Ha. destruct (rate_bounds r Hr) as (_ & _ & Hmax). unfold refill. case_match; [done |].
  fold (rate r). rewrite H0. cbn [available_micro_tokens]. change (u64 (0 * _)) with 0.
  rewrite Z.add_0_r, u64_small by lia. lia.
Qed.

Definition request_checks (times : list Z) : list event := map (Check RelayRateLimitScope.request []) times.

Lemma slow_bucket impl times a :
  let r := rule_of (policy impl) RelayRateLimitScope.request in
  rules_ok impl -> valid_rule r = true -> rate r = 0 ->
  (forall b, bucket_of impl RelayRateLimitScope.request [] = Some b -> available_micro_tokens b = a) ->
  (exists b, bucket_of impl RelayRateLimitScope.request [] = Some b) -> 0 <= a <= full_micro r ->
  granted RelayRateLimitScope.request [] impl (request_checks times) * micro_units_per_token <= a.
Proof.
  intros r. subst r. revert impl a. induction times as [| now times IH]; intros impl a Hok Hr H0 Hb [b Eb] Ha.
  { cbn. lia. }
  specialize (Hb b Eb) as Hab. cbn [request_checks map granted react]. unfold admit_call. cbn [is_request negb andb].
  unfold admit_scope. change (lookup_key RelayRateLimitScope.request []) with (@nil Z).
  unfold bucket_of in Eb. rewrite Eb. unfold spend. rewrite Hok.
  assert (Hsame := slow_refill _ b now Hr H0 ltac:(lia)).
  assert (Hnext : forall b' c', 0 <= available_micro_tokens b' <= full_micro (rule_of (policy impl) RelayRateLimitScope.request) ->
    granted RelayRateLimitScope.request []
      (mkImpl (policy impl) (write (states impl) RelayRateLimitScope.request
         (mkScope (rule_of (policy impl) RelayRateLimitScope.request)
            (<[[] := b']> (buckets (states impl RelayRateLimitScope.request))))) c')
      (request_checks times) * micro_units_per_token <= available_micro_tokens b').
  { intros b' c' Hb'. apply IH; try done.
    - intros s. cbn. destruct (decide (s = RelayRateLimitScope.request)) as [-> | Hne]; [by rewrite write_eq |].
      rewrite write_ne by done. apply Hok.
    - intros b2. unfold bucket_of. cbn. rewrite write_eq. cbn. rewrite lookup_insert_eq. by intros [= <-].
    - exists b'. unfold bucket_of. cbn. rewrite write_eq. cbn. by rewrite lookup_insert_eq. }
  destruct (Z.ltb_spec (available_micro_tokens (refill (rule_of (policy impl) RelayRateLimitScope.request) b now))
    micro_units_per_token) as [Hlt | Hge]; cbn [grants has_value]; rewrite ?andb_false_r.
  - etransitivity; [apply Hnext; lia | lia].
  - rewrite bool_decide_true by done. change (bytes_eqb (lookup_key RelayRateLimitScope.request []) []) with true.
    cbn [andb]. rewrite Z.mul_add_distr_r.
    match goal with |- context [mkBucket (available_micro_tokens ?x - _) ?l] =>
      specialize (Hnext (mkBucket (available_micro_tokens x - micro_units_per_token) l)) end.
    cbn [available_micro_tokens] in Hnext. unfold micro_units_per_token in *.
    etransitivity; [apply Z.add_le_mono_l, Hnext; lia | lia].
Qed.

(** A valid rule can lock everyone out for good: when the window in
    milliseconds exceeds the capacity in micro-tokens (one request per hour,
    say), the refill per millisecond is the integer quotient zero, so that no
    matter how many requests arrive and how much time passes, no more than
    [capacity] of them are ever allowed. *)
Theorem slow_rule_never_refills p impl times :
  create p = success (Some impl) ->
  capacity (request_rule p) * micro_units_per_token < window (request_rule p) ->
  granted RelayRateLimitScope.request [] impl (request_checks times) <= capacity (request_rule p).
Proof.
  intros (-> & Hok & Hval)%create_ok Hslow. specialize (Hval RelayRateLimitScope.request).
  change (rule_of p RelayRateLimitScope.request) with (request_rule p) in Hval.
  assert (Hf := full_micro_eq _ Hval). assert (Hc : 0 < capacity (request_rule p)) by (unfold valid_rule in Hval; lia).
  assert (H0 : rate (request_rule p) = 0).
  { unfold rate. rewrite Hf. unfold micro_units_per_token in Hslow. apply Z.div_small. lia. }
  destruct times as [| now times]; [cbn; lia |].
  assert (Hmk : (max_keys (request_rule p) <=? 0) = false) by (unfold valid_rule in Hval; lia).
  assert (Hmu : (full_micro (request_rule p) <? micro_units_per_token) = false)
    by (unfold micro_units_per_token; lia).
  assert (Hr : refill (request_rule p) (mkBucket (full_micro (request_rule p)) now) now =
    mkBucket (full_micro (request_rule p)) now).
  { unfold refill, elapsed_milliseconds. cbn [last_refill]. rewrite Z.sub_diag. change (to_milliseconds 0) with 0.
    rewrite (proj2 (Z.leb_le (Z.min (Z.max 0 0) (window (request_rule p))) 0)) by lia. done. }
  cbn [request_checks map granted react]. unfold admit_call. cbn [is_request negb andb]. unfold admit_scope.
  cbn [new_impl states buckets policy rule rule_of]. rewrite lookup_empty, msize_empty, Hmk.
  cbn [buckets rule]. rewrite msize_empty, Hmk. unfold spend. cbn [rule buckets]. rewrite Hr.
  cbn [available_micro_tokens]. rewrite Hmu.
  cbn [grants has_value]. rewrite bool_decide_true by done.
  change (bytes_eqb (lookup_key RelayRateLimitScope.request []) []) with true. cbn [andb].
  match goal with |- 1 + granted _ _ ?i (map _ times) <= _ =>
    assert (Hb := slow_bucket i times (full_micro (request_rule p) - micro_units_per_token)) end.
  unfold request_checks in Hb. cbn [policy rule_of] in Hb.
  match goal with |- 1 + ?g <= _ =>
    enough (Hle : g * micro_units_per_token <= full_micro (request_rule p) - micro_units_per_token)
      by (revert Hle; generalize g; intros g0 Hle; rewrite Hf in Hle; unfold micro_units_per_token in Hle; lia) end.
  apply Hb; try done.
  - intros s. cbn. unfold write. by case_decide; subst.
  - intros b. unfold bucket_of. cbn. rewrite write_eq. cbn. rewrite lookup_insert_eq. by intros [= <-].
  - unfold bucket_of. cbn. rewrite write_eq. cbn. rewrite lookup_insert_eq. eauto.
  - unfold micro_units_per_token. lia.
Qed.

(** ** Witnesses *)

Definition slow_policy : RelayRateLimitPolicy :=
  mkPolicy (mkRule 16 1000 4096) (mkRule 1 3600000 1) (mkRule 64 1000 1024) (mkRule 32 1000 4096) 60000.

(** A policy the validation accepts, in which entries live a second and the window of
    the addresses is a minute. *)
Definition short_lived_policy : RelayRateLimitPolicy :=
  mkPolicy (mkRule 16 1000 4096) (mkRule 512 1000 1) (mkRule 64 1000 1024) (mkRule 1 60000 4096) 1000.

(** With entries that live shorter than the window, the sweep forgets a bucket before
    it is full again, and the key starts with a full one: one call a minute becomes
    one call a second. *)
Lemma short_entry_refills :
  (exists impl, create short_lived_policy = success (Some impl)) /\
  granted RelayRateLimitScope.ip [49] (new_impl short_lived_policy)
    (concat (map (fun t => [Prune (milliseconds (1000 * t)); Check RelayRateLimitScope.ip [49] (milliseconds (1000 * t))])
      [0; 1; 2; 3; 4; 5; 6; 7; 8; 9])) = 10.
Proof. split; [by eexists | vm_compute; reflexivity]. Qed.

Lemma rate_limit_bound_witness :
  granted RelayRateLimitScope.ip [49] (new_impl default_policy)
    [Check RelayRateLimitScope.ip [49] 5; Prune 6; Check RelayRateLimitScope.request [] 7] * 1000 <= 32 * (1000 + 0).
Proof.
  apply (rate_limit_bound default_policy (new_impl default_policy) RelayRateLimitScope.ip [49]
    [Check RelayRateLimitScope.ip [49] 5; Prune 6; Check RelayRateLimitScope.request [] 7] 5).
  - reflexivity.
  - vm_compute. reflexivity.
  - vm_compute. discriminate.
  - vm_compute. repeat split; discriminate.
Defined.

Lemma slow_rule_never_refills_witness :
  granted RelayRateLimitScope.request [] (new_impl slow_policy)
    (request_checks [0; milliseconds 3600000; milliseconds 86400000]) <= 1.
Proof.
  apply (slow_rule_never_refills slow_policy); vm_compute; reflexivity.
Defined.
