(* ===== verification/RelayLeaseTable.v ===== *)
(** * The relay's lease table

    [src/relay/relay_lease_table.hpp] and [.cpp]: which endpoints are online,
    for how long, and the two secondary indexes, by device and by tenant, that
    enforce the quotas. *)

From Stdlib Require Import ZArith Lia ZifyBool String.
From stdpp Require Import base tactics option list gmap sorting numbers strings.
From S2P Require Import Prelude Errors Clock.
#[local] Open Scope Z_scope.

Module RelayLeaseHeartbeatOutcome.
Inductive RelayLeaseHeartbeatOutcome : Type := inserted | refreshed.
End RelayLeaseHeartbeatOutcome.
Abbreviation RelayLeaseHeartbeatOutcome := RelayLeaseHeartbeatOutcome.RelayLeaseHeartbeatOutcome.

Module RelayLeaseTable.

Record RelayLeaseKey : Type := mkLeaseKey { device_id : list Z; endpoint_id : list Z }.

#[export] Instance RelayLeaseKey_eq_dec : EqDecision RelayLeaseKey.
Proof. solve_decision. Defined.

#[export] Instance RelayLeaseKey_countable : Countable RelayLeaseKey.
Proof.
  refine (inj_countable (fun k => [device_id k; endpoint_id k])
    (fun l => match l with [d; e] => Some (mkLeaseKey d e) | _ => None end) _).
  by intros [].
Defined.

(** The defaulted [operator<=>]: members in order. *)
#[export] Instance RelayLeaseKey_order : KeyOrder RelayLeaseKey := fun a b =>
  (if bytes_eqb (device_id a) (device_id b) then lex_lt (endpoint_id b) (endpoint_id a)
   else lex_lt (device_id b) (device_id a)) = false.
#[export] Instance RelayLeaseKey_order_dec (a b : RelayLeaseKey) : Decision (key_le a b).
Proof. unfold key_le, RelayLeaseKey_order. apply _. Defined.

Record RelayLeaseRecord : Type := mkLeaseRecord {
  key : RelayLeaseKey;
  tenant : list Z;
  lease_generation : Z;
  expires_at : Z;
}.

Record RelayLeaseConfig : Type := mkLeaseConfig {
  capacity : Z;
  per_device_endpoint_capacity : Z;
  per_tenant_device_capacity : Z;
  default_lease : Z;
  maximum_lease : Z;
}.

Definition default_config : RelayLeaseConfig := mkLeaseConfig 4096 64 4096 45000 120000.

Record RelayLeaseHeartbeatResult : Type := mkHeartbeatResult {
  outcome : RelayLeaseHeartbeatOutcome;
  result_generation : Z;
  result_expires_at : Z;
}.

Record RelayLeaseDiagnostics : Type := mkLeaseDiagnostics {
  accepted : Z;
  refreshed : Z;
  expired : Z;
  removed : Z;
  capacity_rejected : Z;
  per_device_rejected : Z;
  per_tenant_rejected : Z;
  tenant_conflict_rejected : Z;
  current_entries : Z;
  peak_entries : Z;
}.

Definition no_diagnostics : RelayLeaseDiagnostics := mkLeaseDiagnostics 0 0 0 0 0 0 0 0 0 0.

Definition lease_error (code : ErrorCode) (detail : string) : Error := make_error code "relay_lease" detail.

Definition valid_tenant (value : list Z) : bool :=
  if (zlen value =? 0) || (128 <? zlen value) then false
  else forallb (fun raw => negb (raw <? 0x20)) value.

Definition effective_lease (requested : Z) (config : RelayLeaseConfig) : Z :=
  if requested <=? 0 then default_lease config else requested.

Record Impl : Type := mkImpl {
  next_generation : Z;
  config : RelayLeaseConfig;
  entries : gmap RelayLeaseKey RelayLeaseRecord;
  endpoints_by_device : gmap (list Z) (gset (list Z));
  devices_by_tenant : gmap (list Z) (gset (list Z));
  stats : RelayLeaseDiagnostics;
}.

(** Erases [x] from the set stored under [k], and the set once it is empty. *)
Definition drop_member (m : gmap (list Z) (gset (list Z))) (k x : list Z) : gmap (list Z) (gset (list Z)) :=
  match m !! k with
  | None => m
  | Some s => let s := s ∖ {[x]} in if decide (s = ∅) then delete k m else <[k := s]> m
  end.

Definition unlink (t : Impl) (k : RelayLeaseKey) : Impl :=
  match entries t !! k with
  | None => t
  | Some entry =>
      let device := device_id (key entry) in
      let endpoint := endpoint_id (key entry) in
      mkImpl (next_generation t) (config t) (delete k (entries t))
        (drop_member (endpoints_by_device t) device endpoint)
        (drop_member (devices_by_tenant t) (tenant entry) device) (stats t)
  end.

Definition set_stats (t : Impl) (d : RelayLeaseDiagnostics) : Impl :=
  mkImpl (next_generation t) (config t) (entries t) (endpoints_by_device t) (devices_by_tenant t) d.

(** The counters an operation bumps, in the order of the members. *)
Definition bump (d : RelayLeaseDiagnostics) (acc refr exp rem cap dev ten conf : Z) : RelayLeaseDiagnostics :=
  mkLeaseDiagnostics (u64 (accepted d + acc)) (u64 (refreshed d + refr)) (u64 (expired d + exp))
    (u64 (removed d + rem)) (u64 (capacity_rejected d + cap)) (u64 (per_device_rejected d + dev))
    (u64 (per_tenant_rejected d + ten)) (u64 (tenant_conflict_rejected d + conf))
    (current_entries d) (peak_entries d).
Definition set_current (d : RelayLeaseDiagnostics) (n : Z) : RelayLeaseDiagnostics :=
  mkLeaseDiagnostics (accepted d) (refreshed d) (expired d) (removed d) (capacity_rejected d)
    (per_device_rejected d) (per_tenant_rejected d) (tenant_conflict_rejected d) n (peak_entries d).
Definition raise_peak (d : RelayLeaseDiagnostics) (n : Z) : RelayLeaseDiagnostics :=
  mkLeaseDiagnostics (accepted d) (refreshed d) (expired d) (removed d) (capacity_rejected d)
    (per_device_rejected d) (per_tenant_rejected d) (tenant_conflict_rejected d) (current_entries d)
    (Z.max (peak_entries d) n).

(** [std::unique_ptr<Impl>]. *)
Definition Table : Type := option Impl.

Definition create (c : RelayLeaseConfig) : Result Table :=
  fail_if (capacity c =? 0) || (per_device_endpoint_capacity c =? 0)
          || (per_tenant_device_capacity c =? 0) || (default_lease c <=? 0)
          || (maximum_lease c <? default_lease c)
    with lease_error ErrorCode.configuration "lease_config_invalid";
  success (Some (mkImpl 1 c ∅ ∅ ∅ no_diagnostics)).

(** The keys whose lease is over, collected before any is unlinked. *)
Definition expired_keys (t : Impl) (now : Z) : list RelayLeaseKey :=
  map fst (List.filter (fun kv : RelayLeaseKey * RelayLeaseRecord => expires_at (snd kv) <=? now)
             (iterate (entries t))).

Definition expire_impl (t : Impl) (now : Z) : Impl :=
  let t := foldl (fun t k => let t := unlink t k in set_stats t (bump (stats t) 0 0 1 0 0 0 0 0))
             t (expired_keys t now) in
  set_stats t (set_current (stats t) (msize (entries t))).

Definition expire (t : Table) (now : Z) : Table := (fun t => expire_impl t now) <$> t.

(** [it != end() && it->second.size() >= limit]. *)
Definition full_set (o : option (gset (list Z))) (limit : Z) : bool :=
  match o with Some s => limit <=? Z.of_nat (size s) | None => false end.

(** [... && !it->second.contains(x)]. *)
Definition absent (o : option (gset (list Z))) (x : list Z) : bool :=
  match o with Some s => bool_decide (x ∉ s) | None => false end.

(** [heartbeat] from the capacity check on: the key has no entry. *)
Definition insert_new (t : Impl) (k : RelayLeaseKey) (ten : list Z) (duration now : Z)
    : Result RelayLeaseHeartbeatResult * Impl :=
  let t := if capacity (config t) <=? msize (entries t) then expire_impl t now else t in
  if capacity (config t) <=? msize (entries t) then
    (failure (lease_error ErrorCode.resource_exhausted "lease_capacity_exhausted"),
     set_stats t (bump (stats t) 0 0 0 0 1 0 0 0))
  else if full_set (endpoints_by_device t !! device_id k) (per_device_endpoint_capacity (config t)) then
    (failure (lease_error ErrorCode.resource_exhausted "lease_per_device_capacity_exhausted"),
     set_stats t (bump (stats t) 0 0 0 0 0 1 0 0))
  else if absent (devices_by_tenant t !! ten) (device_id k)
          && full_set (devices_by_tenant t !! ten) (per_tenant_device_capacity (config t)) then
    (failure (lease_error ErrorCode.resource_exhausted "lease_per_tenant_capacity_exhausted"),
     set_stats t (bump (stats t) 0 0 0 0 0 0 1 0))
  else
    let record := mkLeaseRecord k ten (next_generation t) (now + milliseconds duration) in
    let m := <[k := record]> (entries t) in
    (success (mkHeartbeatResult RelayLeaseHeartbeatOutcome.inserted (lease_generation record) (expires_at record)),
     mkImpl (u64 (next_generation t + 1)) (config t) m
       (<[device_id k := default ∅ (endpoints_by_device t !! device_id k) ∪ {[endpoint_id k]}]>
          (endpoints_by_device t))
       (<[ten := default ∅ (devices_by_tenant t !! ten) ∪ {[device_id k]}]> (devices_by_tenant t))
       (raise_peak (set_current (bump (stats t) 1 0 0 0 0 0 0 0) (msize m)) (msize m))).

Definition heartbeat_impl (t : Impl) (k : RelayLeaseKey) (ten : list Z) (lease now : Z)
    : Result RelayLeaseHeartbeatResult * Impl :=
  if all_zero (device_id k) || all_zero (endpoint_id k) || negb (valid_tenant ten)
     || (maximum_lease (config t) <? lease)
  then (failure (lease_error ErrorCode.configuration "lease_heartbeat_invalid"), t)
  else
    let duration := effective_lease lease (config t) in
    match entries t !! k with
    | Some existing =>
        if now <? expires_at existing then
          if negb (bytes_eqb (tenant existing) ten) then
            (failure (lease_error ErrorCode.permission "lease_tenant_conflict"),
             set_stats t (bump (stats t) 0 0 0 0 0 0 0 1))
          else
            let record := mkLeaseRecord (key existing) (tenant existing) (next_generation t)
                            (now + milliseconds duration) in
            (success (mkHeartbeatResult RelayLeaseHeartbeatOutcome.refreshed (lease_generation record)
                        (expires_at record)),
             mkImpl (u64 (next_generation t + 1)) (config t) (<[k := record]> (entries t))
               (endpoints_by_device t) (devices_by_tenant t) (bump (stats t) 0 1 0 0 0 0 0 0))
        else
          let t := unlink t k in
          insert_new (set_stats t (bump (stats t) 0 0 1 0 0 0 0 0)) k ten duration now
    | None => insert_new t k ten duration now
    end.

Definition not_initialized : Error := lease_error ErrorCode.cancelled "lease_table_not_initialized".

Definition heartbeat (t : Table) (k : RelayLeaseKey) (ten : list Z) (lease now : Z)
    : Result RelayLeaseHeartbeatResult * Table :=
  match t with
  | None => (failure not_initialized, None)
  | Some t => let '(r, t) := heartbeat_impl t k ten lease now in (r, Some t)
  end.

Definition remove_impl (t : Impl) (k : RelayLeaseKey) : Impl :=
  match entries t !! k with
  | None => t
  | Some _ =>
      let t := unlink t k in
      set_stats t (set_current (bump (stats t) 0 0 0 1 0 0 0 0) (msize (entries t)))
  end.

Definition remove (t : Table) (k : RelayLeaseKey) : Result unit * Table :=
  match t with
  | None => (failure not_initialized, None)
  | Some t => (success tt, Some (remove_impl t k))
  end.

Definition device_keys (t : Impl) (device : list Z) : list RelayLeaseKey :=
  match endpoints_by_device t !! device with
  | None => []
  | Some s => map (mkLeaseKey device) (iterate_set s)
  end.

Definition remove_device (t : Table) (device : list Z) : Z * Table :=
  match t with
  | None => (0, None)
  | Some t => let keys := device_keys t device in (zlen keys, Some (foldl remove_impl t keys))
  end.

Definition get_impl (t : Impl) (k : RelayLeaseKey) (now : Z) : option RelayLeaseRecord :=
  match entries t !! k with
  | Some record => if expires_at record <=? now then None else Some record
  | None => None
  end.

Definition get (t : Table) (k : RelayLeaseKey) (now : Z) : option RelayLeaseRecord :=
  match t with None => None | Some t => get_impl t k now end.

Definition online (t : Table) (now : Z) : list RelayLeaseRecord :=
  match t with
  | None => []
  | Some t => List.filter (fun record => now <? expires_at record) (map snd (iterate (entries t)))
  end.

Definition online_device_impl (t : Impl) (device : list Z) (now : Z) : list RelayLeaseRecord :=
  omap (fun k => get_impl t k now) (device_keys t device).

Definition online_device (t : Table) (device : list Z) (now : Z) : list RelayLeaseRecord :=
  match t with None => [] | Some t => online_device_impl t device now end.

Definition online_tenant (t : Table) (ten : list Z) (now : Z) : list RelayLeaseRecord :=
  match t with
  | None => []
  | Some t =>
      match devices_by_tenant t !! ten with
      | None => []
      | Some devices => concat (map (fun d => online_device_impl t d now) (iterate_set devices))
      end
  end.

Definition diagnostics (t : Table) : RelayLeaseDiagnostics :=
  match t with Some t => stats t | None => no_diagnostics end.

End RelayLeaseTable.

Import RelayLeaseTable.

(** ** Operations *)

Inductive operation : Type :=
  | Heartbeat (k : RelayLeaseKey) (ten : list Z) (lease now : Z)
  | Remove (k : RelayLeaseKey)
  | RemoveDevice (device : list Z)
  | Expire (now : Z).

Definition perform (t : Table) (op : operation) : Table :=
  match op with
  | Heartbeat k ten lease now => snd (heartbeat t k ten lease now)
  | Remove k => snd (remove t k)
  | RemoveDevice device => snd (remove_device t device)
  | Expire now => expire t now
  end.

Definition run (t : Table) (ops : list operation) : Table := foldl perform t ops.

(** ** Invariant *)

Definition members (m : gmap (list Z) (gset (list Z))) (k : list Z) : gset (list Z) := default ∅ (m !! k).

(** Sets in an index are non-empty and within their quota. *)
Definition quota (m : gmap (list Z) (gset (list Z))) (limit : Z) : Prop :=
  forall k s, m !! k = Some s -> s <> ∅ /\ Z.of_nat (size s) <= limit.

Record lease_wf (t : Impl) : Prop := {
  wf_size : msize (entries t) <= capacity (config t);
  wf_key k r : entries t !! k = Some r -> key r = k;
  wf_device d e : e ∈ members (endpoints_by_device t) d <-> is_Some (entries t !! mkLeaseKey d e);
  wf_device_quota : quota (endpoints_by_device t) (per_device_endpoint_capacity (config t));
  wf_tenant ten d : d ∈ members (devices_by_tenant t) ten ->
    exists e r, entries t !! mkLeaseKey d e = Some r /\ tenant r = ten;
  wf_tenant_quota : quota (devices_by_tenant t) (per_tenant_device_capacity (config t));
}.

Lemma drop_member_members m k x k' :
  members (drop_member m k x) k' = if decide (k' = k) then members m k ∖ {[x]} else members m k'.
Proof.
  unfold drop_member, members. destruct (m !! k) as [s |] eqn:Hk.
  - destruct (decide (s ∖ {[x]} = ∅)) as [He |], (decide (k' = k)) as [-> |]; cbn.
    + by rewrite lookup_delete_eq, He.
    + by rewrite lookup_delete_ne.
    + by rewrite lookup_insert_eq.
    + by rewrite lookup_insert_ne.
  - case_decide; subst; [rewrite Hk; cbn; set_solver | done].
Qed.

Lemma drop_member_quota m k x limit : quota m limit -> quota (drop_member m k x) limit.
Proof.
  intros Hq. unfold drop_member. destruct (m !! k) as [s |] eqn:Hk; [| done]. case_decide as He.
  - intros k' s' [_ Hs]%lookup_delete_Some. by apply (Hq k').
  - intros k' s' [[<- <-] | [_ Hs]]%lookup_insert_Some; [| by apply (Hq k')]. split; [done |].
    destruct (Hq _ _ Hk) as [_ Hsz]. etransitivity; [| exact Hsz]. apply inj_le, subseteq_size. set_solver.
Qed.

Lemma add_member_members m k x k' :
  members (<[k := members m k ∪ {[x]}]> m) k' = if decide (k' = k) then members m k ∪ {[x]} else members m k'.
Proof.
  unfold members at 1. case_decide; subst; [by rewrite lookup_insert_eq | by rewrite lookup_insert_ne].
Qed.

Lemma add_member_quota m k x limit :
  quota m limit -> 0 < limit -> x ∈ members m k \/ full_set (m !! k) limit = false ->
  quota (<[k := members m k ∪ {[x]}]> m) limit.
Proof.
  intros Hq Hlim Hfree k' s [[<- <-] | [_ Hs]]%lookup_insert_Some; [| by apply (Hq k')].
  split; [set_solver |]. unfold members in *. destruct (m !! k) as [s |] eqn:Hk; cbn in *.
  - destruct (Hq _ _ Hk) as [_ Hsz]. destruct Hfree as [Hin | Hfree].
    + replace (s ∪ {[x]}) with s by set_solver. done.
    + assert (Hle := size_union_alt s ({[x]} : gset (list Z))).
      assert (Hsub : (size (({[x]} : gset (list Z)) ∖ s) <= size ({[x]} : gset (list Z)))%nat) by (apply subseteq_size; set_solver).
      rewrite size_singleton in Hsub. lia.
  - rewrite union_empty_l_L, size_singleton. lia.
Qed.

Lemma key_eta k : mkLeaseKey (device_id k) (endpoint_id k) = k.
Proof. by destruct k. Qed.

Lemma unlink_wf t k : lease_wf t -> lease_wf (unlink t k).
Proof.
  intros Hwf. unfold unlink. destruct (entries t !! k) as [r |] eqn:Hk; [| done].
  destruct Hwf as [Hsz Hkey Hdev Hdq Hten Htq]. assert (Hrk := Hkey _ _ Hk). rewrite Hrk.
  assert (Hm := msize_delete_old _ _ _ Hk). split; cbn [entries config endpoints_by_device devices_by_tenant].
  - lia.
  - intros k' r' [_ Hr]%lookup_delete_Some. eauto.
  - intros d e. rewrite drop_member_members. case_decide as Hd.
    + subst d. rewrite elem_of_difference, Hdev, elem_of_singleton.
      destruct (decide (e = endpoint_id k)) as [-> | Hne].
      * rewrite key_eta, lookup_delete_eq. split; [intros [_ []]; done | by intros [? ?]].
      * rewrite lookup_delete_ne by (intros Heq; apply Hne; by rewrite Heq). intuition.
    + rewrite Hdev. rewrite lookup_delete_ne; [done |]. intros ->. by apply Hd.
  - by apply drop_member_quota.
  - intros ten d. rewrite drop_member_members. intros Hin.
    assert (Hlive : exists e r', entries t !! mkLeaseKey d e = Some r' /\ tenant r' = ten /\ mkLeaseKey d e <> k).
    { case_decide as Ht.
      - subst ten. apply elem_of_difference in Hin as [Hin Hd]. apply Hten in Hin as (e & r' & Hr & Htr).
        exists e, r'. split_and!; [done | done |]. intros <-. by apply Hd, elem_of_singleton.
      - apply Hten in Hin as (e & r' & Hr & Htr). exists e, r'. split_and!; [done | done |].
        intros Heq. rewrite Heq, Hk in Hr. congruence. }
    destruct Hlive as (e & r' & Hr & Htr & Hne). exists e, r'. by rewrite lookup_delete_ne.
  - by apply drop_member_quota.
Qed.

Lemma set_stats_wf t d : lease_wf t -> lease_wf (set_stats t d).
Proof. by intros [? ? ? ? ? ?]. Qed.

#[local] Hint Resolve unlink_wf set_stats_wf : core.

Lemma unlink_config t k : config (unlink t k) = config t.
Proof. unfold unlink. by case_match. Qed.

(** Any sequence of unlinks. *)
Lemma fold_wf {A} (f : Impl -> A -> Impl) l t :
  (forall t x, lease_wf t -> lease_wf (f t x) /\ config (f t x) = config t) ->
  lease_wf t -> lease_wf (foldl f t l) /\ config (foldl f t l) = config t.
Proof.
  intros Hf. revert t. induction l as [| x l IH]; intros t Hwf; [done |]. cbn.
  destruct (Hf t x Hwf) as [H1 H2]. destruct (IH _ H1) as [H3 H4]. split; [done | congruence].
Qed.

Lemma lease_expire_impl_wf t now : lease_wf t -> lease_wf (expire_impl t now) /\ config (expire_impl t now) = config t.
Proof.
  intros Hwf. unfold expire_impl. cbn [set_stats config].
  match goal with |- context [foldl ?f t ?l] => destruct (fold_wf f l t) as [H1 H2]; [| done |] end.
  - intros t' k Hwf'. split; [auto | apply unlink_config].
  - split; [by apply set_stats_wf | done].
Qed.

Lemma remove_impl_wf t k : lease_wf t -> lease_wf (remove_impl t k) /\ config (remove_impl t k) = config t.
Proof.
  intros Hwf. unfold remove_impl. destruct (entries t !! k); [| done]. split; [auto | apply unlink_config].
Qed.

(** Expiry only unlinks. *)
Lemma expire_impl_lookup t now k : entries t !! k = None -> entries (expire_impl t now) !! k = None.
Proof.
  intros Hk. unfold expire_impl. cbn [set_stats entries]. generalize (expired_keys t now) as l. intros l.
  revert t Hk. induction l as [| x l IH]; intros t Hk; [done |]. cbn. apply IH. unfold unlink.
  destruct (entries t !! x); [| done]. cbn. destruct (decide (x = k)) as [-> | Hne];
    [apply lookup_delete_eq | by rewrite lookup_delete_ne].
Qed.

Definition config_ok (c : RelayLeaseConfig) : Prop :=
  0 < capacity c /\ 0 < per_device_endpoint_capacity c /\ 0 < per_tenant_device_capacity c.

Lemma add_entry_wf t k ten g x n d :
  lease_wf t -> config_ok (config t) -> entries t !! k = None -> msize (entries t) < capacity (config t) ->
  full_set (endpoints_by_device t !! device_id k) (per_device_endpoint_capacity (config t)) = false ->
  absent (devices_by_tenant t !! ten) (device_id k)
    && full_set (devices_by_tenant t !! ten) (per_tenant_device_capacity (config t)) = false ->
  lease_wf (mkImpl n (config t) (<[k := mkLeaseRecord k ten g x]> (entries t))
    (<[device_id k := members (endpoints_by_device t) (device_id k) ∪ {[endpoint_id k]}]> (endpoints_by_device t))
    (<[ten := members (devices_by_tenant t) ten ∪ {[device_id k]}]> (devices_by_tenant t)) d).
Proof.
  intros [Hsz Hkey Hdev Hdq Hten Htq] (Hc1 & Hc2 & Hc3) Hk Hroom Hfd Hft.
  assert (Hm := msize_insert_new _ k (mkLeaseRecord k ten g x) Hk).
  split; cbn [entries config endpoints_by_device devices_by_tenant].
  - lia.
  - intros k' r [[<- <-] | [_ Hr]]%lookup_insert_Some; [done | eauto].
  - intros d' e. rewrite add_member_members. case_decide as Hd.
    + subst d'. rewrite elem_of_union, Hdev, elem_of_singleton.
      destruct (decide (e = endpoint_id k)) as [-> | Hne].
      * rewrite key_eta, lookup_insert_eq. split; [eauto | by right].
      * rewrite lookup_insert_ne by (intros Heq; apply Hne; by rewrite Heq). intuition.
    + rewrite Hdev, lookup_insert_ne; [done |]. intros ->. by apply Hd.
  - apply add_member_quota; auto.
  - intros ten' d'. rewrite add_member_members. intros Hin.
    assert (Hcase : d' = device_id k /\ ten' = ten \/ d' ∈ members (devices_by_tenant t) ten').
    { case_decide; subst; [| by right]. apply elem_of_union in Hin as [Hin | ->%elem_of_singleton]; auto. }
    destruct Hcase as [[-> ->] | Hin'].
    + exists (endpoint_id k). eexists. rewrite key_eta, lookup_insert_eq. done.
    + apply Hten in Hin' as (e & r & Hr & Htr). exists e, r. rewrite lookup_insert_ne; [done |].
      intros ->. congruence.
  - apply add_member_quota; [done | done |]. unfold absent, members in *.
    destruct (devices_by_tenant t !! ten) as [s |] eqn:Hs; cbn in *; [| by right].
    apply andb_false_iff in Hft as [Ha%bool_decide_eq_false | Hf]; [left | by right]. by apply dec_stable.
Qed.

Lemma insert_new_wf t k ten duration now :
  lease_wf t -> config_ok (config t) -> entries t !! k = None ->
  let '(_, t') := insert_new t k ten duration now in lease_wf t' /\ config t' = config t.
Proof.
  intros Hwf Hok Hk. unfold insert_new.
  set (t1 := if capacity (config t) <=? msize (entries t) then expire_impl t now else t).
  assert (H1 : lease_wf t1 /\ config t1 = config t /\ entries t1 !! k = None).
  { subst t1. destruct (_ <=? _); [| done]. destruct (lease_expire_impl_wf t now Hwf). split_and!; [done | done |].
    by apply expire_impl_lookup. }
  destruct H1 as (Hwf1 & Hc1 & Hk1). clearbody t1.
  destruct (Z.leb_spec (capacity (config t1)) (msize (entries t1))); [auto |].
  destruct (full_set (endpoints_by_device t1 !! device_id k) _) eqn:Hfd; [auto |].
  destruct (absent _ _ && _) eqn:Hft; [auto |].
  split; [| done]. apply add_entry_wf; try done. by rewrite Hc1.
Qed.

Lemma heartbeat_impl_wf t k ten lease now :
  lease_wf t -> config_ok (config t) ->
  let '(_, t') := heartbeat_impl t k ten lease now in lease_wf t' /\ config t' = config t.
Proof.
  intros Hwf Hok. unfold heartbeat_impl. destruct (_ || _); [done |].
  destruct (entries t !! k) as [r |] eqn:Hk; [| by apply insert_new_wf].
  destruct (now <? expires_at r).
  - destruct (bytes_eqb (tenant r) ten); cbn [negb]; [| auto]. split; [| done].
    destruct Hwf as [Hsz Hkey Hdev Hdq Hten Htq].
    match goal with |- context [<[k := ?v]> _] => set (r' := v) end.
    assert (Hm := msize_insert_old _ k r' _ Hk).
    split; cbn [entries config endpoints_by_device devices_by_tenant]; try done.
    + lia.
    + intros k' r2 [[<- <-] | [_ Hr]]%lookup_insert_Some; cbn; eauto.
    + intros d e. rewrite Hdev. destruct (decide (k = mkLeaseKey d e)) as [<- | Hne].
      * rewrite lookup_insert_eq, Hk. split; eauto.
      * by rewrite lookup_insert_ne.
    + intros ten' d Hin. apply Hten in Hin as (e & r2 & Hr & Htr).
      destruct (decide (k = mkLeaseKey d e)) as [-> | Hne].
      * exists e, r'. rewrite lookup_insert_eq. split; [done |]. rewrite Hk in Hr. injection Hr as <-. done.
      * exists e, r2. by rewrite lookup_insert_ne.
  - match goal with |- context [insert_new ?s k ten _ now] =>
      assert (Hi := insert_new_wf s k ten (effective_lease lease (config t)) now) end.
    cbn [set_stats config] in Hi. rewrite unlink_config in Hi.
    apply Hi; [auto | done |]. cbn. unfold unlink. rewrite Hk. apply lookup_delete_eq.
Qed.

Lemma lease_perform_wf t op :
  lease_wf t -> config_ok (config t) ->
  exists t', perform (Some t) op = Some t' /\ lease_wf t' /\ config t' = config t.
Proof.
  intros Hwf Hok. destruct op as [k ten lease now | k | device | now]; cbn.
  - assert (H := heartbeat_impl_wf t k ten lease now Hwf Hok).
    destruct (heartbeat_impl t k ten lease now) as [r t']. cbn. eauto.
  - exists (remove_impl t k). split; [done | by apply remove_impl_wf].
  - eexists. split; [done |]. apply fold_wf; [intros; by apply remove_impl_wf | done].
  - exists (expire_impl t now). split; [done | by apply lease_expire_impl_wf].
Qed.

Lemma run_wf t ops :
  lease_wf t -> config_ok (config t) -> exists t', run (Some t) ops = Some t' /\ lease_wf t' /\ config t' = config t.
Proof.
  revert t. induction ops as [| op ops IH]; intros t Hwf Hok; [eauto |].
  destruct (lease_perform_wf t op Hwf Hok) as (t1 & E & Hwf1 & Hc1). unfold run in *. cbn [foldl]. rewrite E.
  destruct (IH t1 Hwf1) as (t2 & E2 & Hwf2 & Hc2); [by rewrite Hc1 |]. exists t2. split_and!; [done | done | congruence].
Qed.

Lemma lease_create_wf c t :
  0 <= capacity c -> 0 <= per_device_endpoint_capacity c -> 0 <= per_tenant_device_capacity c ->
  create c = success t -> exists t0, t = Some t0 /\ lease_wf t0 /\ config_ok (config t0) /\ config t0 = c.
Proof.
  unfold create. intros H1 H2 H3 E. inv_result E. eexists. split; [done |]. split.
  - split; cbn; rewrite ?msize_empty; try lia; try done.
    intros d e. unfold members. rewrite !lookup_empty. cbn. split; [by intros ?%elem_of_empty | by intros [? ?]].
  - unfold config_ok. cbn. split; [lia | done].
Qed.

Lemma get_impl_key t k r now : lease_wf t -> get_impl t k now = Some r -> key r = k.
Proof.
  intros Hwf. unfold get_impl. destruct (entries t !! k) as [r' |] eqn:Hk; [| done]. case_match; [done |].
  intros [= <-]. by eapply wf_key.
Qed.

Lemma online_device_elem t d now r :
  lease_wf t -> In r (online_device_impl t d now) <-> get_impl t (key r) now = Some r /\ device_id (key r) = d.
Proof.
  intros Hwf. unfold online_device_impl. rewrite <- list_elem_of_In, list_elem_of_omap. split.
  - intros (k & Hin & Hg). assert (Hk := get_impl_key _ _ _ _ Hwf Hg). rewrite Hk. split; [done |].
    unfold device_keys in Hin. case_match; [| by apply elem_of_nil in Hin].
    apply list_elem_of_In, in_map_iff in Hin as (e & <- & _). done.
  - intros [Hg <-]. exists (key r). split; [| done].
    assert (Hs : is_Some (entries t !! key r)) by (unfold get_impl in Hg; destruct (entries t !! key r); eauto; done).
    rewrite <- (key_eta (key r)) in Hs. apply (wf_device _ Hwf) in Hs. unfold device_keys, members in *.
    destruct (endpoints_by_device t !! device_id (key r)) as [s |]; [| by apply elem_of_empty in Hs].
    apply list_elem_of_In, in_map_iff. exists (endpoint_id (key r)). split; [apply key_eta |].
    apply list_elem_of_In. by apply elem_of_iterate_set.
Qed.

Lemma online_elem t now r : lease_wf t -> In r (online (Some t) now) <-> get_impl t (key r) now = Some r.
Proof.
  intros Hwf. cbn. rewrite filter_In, in_map_iff. unfold get_impl. split.
  - intros [([k r'] & E & Hin) Hlt]. cbn in E. subst r'. apply list_elem_of_In, elem_of_iterate in Hin.
    rewrite (wf_key _ Hwf _ _ Hin), Hin. by rewrite (proj2 (Z.leb_gt (expires_at r) now)) by lia.
  - intros Hg. destruct (entries t !! key r) as [r' |] eqn:Hk; [| done].
    destruct (Z.leb_spec (expires_at r') now); [done |]. injection Hg as ->. split; [| lia].
    exists (key r, r). split; [done |]. by apply list_elem_of_In, elem_of_iterate.
Qed.

(** The lease table keeps its books: after any sequence of heartbeats,
    removals and sweeps, at any times, the table and both of its indexes respect
    their quotas, the index by device is exact, every device listed for a
    tenant has a lease of that tenant, and [online] and [online_device] list
    exactly the leases that [get] returns. *)
Theorem lease_table_wf c t ops :
  0 <= capacity c -> 0 <= per_device_endpoint_capacity c -> 0 <= per_tenant_device_capacity c ->
  create c = success t ->
  exists t', run t ops = Some t' /\ lease_wf t' /\ config t' = c /\
    forall now r,
      (In r (online (Some t') now) <-> get (Some t') (key r) now = Some r) /\
      forall d, In r (online_device (Some t') d now) <->
                get (Some t') (key r) now = Some r /\ device_id (key r) = d.
Proof.
  intros H1 H2 H3 E. apply lease_create_wf in E as (t0 & -> & Hwf & Hok & Hc); [| done..].
  destruct (run_wf t0 ops Hwf Hok) as (t' & E & Hwf' & Hc'). exists t'. split_and!; [done | done | congruence |].
  intros now r. split; [by apply online_elem |]. intros d. by apply online_device_elem.
Qed.

(** ** The index by tenant is not complete *)

Definition sample_key (d e : Z) : RelayLeaseKey := mkLeaseKey (repeat d 32) (repeat e 16).

Definition two_leases : list operation :=
  [Heartbeat (sample_key 1 1) [97] 0 0; Heartbeat (sample_key 1 2) [97] 0 0; Remove (sample_key 1 1)].

(** Removing one endpoint hides the others of its device: a device with two
    leases of one tenant, one of which is removed, still has a live lease, which
    [get] and [online_device] return, but [online_tenant] lists nothing for the
    tenant, and the tenant's device quota no longer counts the device. *)
Theorem tenant_index_incomplete :
  let t := run (Some (mkImpl 1 default_config ∅ ∅ ∅ no_diagnostics)) two_leases in
  (exists r, get t (sample_key 1 2) 1 = Some r /\ tenant r = [97]) /\
  zlen (online_device t (repeat 1 32) 1) = 1 /\
  online_tenant t [97] 1 = [] /\
  match t with Some t => devices_by_tenant t !! [97] = None | None => False end.
Proof. cbv zeta. split; [eexists; split |]; vm_compute; repeat split; reflexivity. Qed.

(** ** Witness *)

Lemma lease_table_wf_witness :
  exists t', run (Some (mkImpl 1 default_config ∅ ∅ ∅ no_diagnostics)) two_leases = Some t' /\ lease_wf t' /\
    config t' = default_config /\
    forall now r,
      (In r (online (Some t') now) <-> get (Some t') (key r) now = Some r) /\
      forall d, In r (online_device (Some t') d now) <->
                get (Some t') (key r) now = Some r /\ device_id (key r) = d.
Proof. apply lease_table_wf; vm_compute; (reflexivity || discriminate). Defined.
