(* ===== verification/RelayEnrollmentThrottle.v ===== *)
(** * The relay's enrollment throttle

    [src/relay/relay_enrollment_throttle.hpp] and [.cpp]: exponential backoff per
    address against guessing enrollment tokens. *)

From Stdlib Require Import ZArith Lia ZifyBool String.
From stdpp Require Import base tactics option list gmap sorting numbers strings.
From S2P Require Import Prelude Errors Clock.
#[local] Open Scope Z_scope.

Module RelayEnrollmentThrottle.

Definition throttle_error (code : ErrorCode) (detail : string) : Error :=
  make_error code "relay_enrollment_throttle" detail.

Definition max_ip_key_bytes : Z := 64.

Record Entry : Type := mkEntry { failure_streak : Z; backoff_until : Z; last_seen : Z }.

(** Durations in milliseconds. *)
Record RelayEnrollmentThrottleConfig : Type := mkThrottleConfig {
  max_tracked_ips : Z;
  failure_backoff_base : Z;
  failure_backoff_maximum : Z;
  maximum_backoff_shift : Z;
  entry_ttl : Z;
}.

Definition default_throttle_config : RelayEnrollmentThrottleConfig :=
  mkThrottleConfig 4096 500 60000 7 (10 * 60 * 1000).

Record RelayEnrollmentThrottleDiagnostics : Type := mkThrottleDiagnostics {
  admitted : Z;
  throttled : Z;
  capacity_rejected : Z;
  failures_recorded : Z;
  successes_recorded : Z;
  tracked_ips : Z;
  peak_tracked_ips : Z;
}.

Definition no_diagnostics : RelayEnrollmentThrottleDiagnostics := mkThrottleDiagnostics 0 0 0 0 0 0 0.

(** The counters an operation bumps, and the gauge it sets. *)
Definition bump (d : RelayEnrollmentThrottleDiagnostics) (adm thr cap fail succ : Z)
    : RelayEnrollmentThrottleDiagnostics :=
  mkThrottleDiagnostics (u64 (admitted d + adm)) (u64 (throttled d + thr)) (u64 (capacity_rejected d + cap))
    (u64 (failures_recorded d + fail)) (u64 (successes_recorded d + succ)) (tracked_ips d) (peak_tracked_ips d).
Definition set_tracked (d : RelayEnrollmentThrottleDiagnostics) (n : Z) : RelayEnrollmentThrottleDiagnostics :=
  mkThrottleDiagnostics (admitted d) (throttled d) (capacity_rejected d) (failures_recorded d)
    (successes_recorded d) n (peak_tracked_ips d).
Definition raise_peak (d : RelayEnrollmentThrottleDiagnostics) (n : Z) : RelayEnrollmentThrottleDiagnostics :=
  mkThrottleDiagnostics (admitted d) (throttled d) (capacity_rejected d) (failures_recorded d)
    (successes_recorded d) (tracked_ips d) (Z.max (peak_tracked_ips d) n).

Record Impl : Type := mkImpl {
  config : RelayEnrollmentThrottleConfig;
  entries : gmap (list Z) Entry;
  stats : RelayEnrollmentThrottleDiagnostics;
}.

(** [std::unique_ptr<Impl>]. *)
Definition Throttle : Type := option Impl.

Definition validate_config (c : RelayEnrollmentThrottleConfig) : Result unit :=
  fail_if (max_tracked_ips c =? 0) || (65536 <? max_tracked_ips c) || (failure_backoff_base c <=? 0)
          || (failure_backoff_maximum c <? failure_backoff_base c) || (maximum_backoff_shift c =? 0)
          || (16 <? maximum_backoff_shift c) || (entry_ttl c <=? 0)
    with throttle_error ErrorCode.configuration "enrollment_throttle_config_invalid";
  success tt.

Definition create (c : RelayEnrollmentThrottleConfig) : Result Throttle :=
  let? _ := validate_config c in success (Some (mkImpl c ∅ no_diagnostics)).

Definition stale (c : RelayEnrollmentThrottleConfig) (now : Z) (e : Entry) : bool :=
  last_seen e + milliseconds (entry_ttl c) <=? now.

Definition prune_impl (t : Impl) (now : Z) : Impl :=
  let m := fst (erase_loop (fun e => stale (config t) now e && (backoff_until e <=? now)) (entries t)) in
  mkImpl (config t) m (set_tracked (stats t) (msize m)).

Definition prune (t : Throttle) (now : Z) : Throttle := (fun t => prune_impl t now) <$> t.

Definition valid_ip (ip : list Z) : bool := negb ((zlen ip =? 0) || (max_ip_key_bytes <? zlen ip)).

(** The end of [admit]: [missing] is [existing == entries.end()]. *)
Definition admit_tail (t : Impl) (missing : bool) (now : Z) : Result unit * Impl :=
  let t' := if missing && (max_tracked_ips (config t) <=? msize (entries t)) then prune_impl t now else t in
  if missing && (max_tracked_ips (config t) <=? msize (entries t))
     && (max_tracked_ips (config t') <=? msize (entries t')) then
    (failure (throttle_error ErrorCode.resource_exhausted "enrollment_throttle_capacity_exhausted"),
     mkImpl (config t') (entries t') (bump (stats t') 0 0 1 0 0))
  else (success tt, mkImpl (config t') (entries t') (bump (stats t') 1 0 0 0 0)).

Definition admit_impl (t : Impl) (ip : list Z) (now : Z) : Result unit * Impl :=
  if negb (valid_ip ip)
  then (failure (throttle_error ErrorCode.configuration "enrollment_throttle_ip_invalid"), t)
  else match entries t !! ip with
  | None => admit_tail t true now
  | Some e =>
      if stale (config t) now e then
        let m := delete ip (entries t) in
        admit_tail (mkImpl (config t) m (set_tracked (stats t) (msize m))) true now
      else if now <? backoff_until e then
        (failure (throttle_error ErrorCode.resource_exhausted "enrollment_throttled"),
         mkImpl (config t) (entries t) (bump (stats t) 0 1 0 0 0))
      else admit_tail t false now
  end.

Definition admit_attempt (t : Throttle) (ip : list Z) (now : Z) : Result unit * Throttle :=
  match t with
  | None => (failure (throttle_error ErrorCode.cancelled "enrollment_throttle_not_initialized"), None)
  | Some t => let '(r, t) := admit_impl t ip now in (r, Some t)
  end.

(** [duration_cast] of the product with a [std::uint64_t]: 64-bit unsigned, then
    signed. *)
Definition signed64 (z : Z) : Z := if z <? 2 ^ 63 then z else z - 2 ^ 64.

Definition backoff (c : RelayEnrollmentThrottleConfig) (streak : Z) : Z :=
  let shift := Z.min (u32 (streak - 1)) (maximum_backoff_shift c) in
  Z.min (signed64 (u64 (failure_backoff_base c * Z.shiftl 1 shift))) (failure_backoff_maximum c).

Definition record_failure_impl (t : Impl) (ip : list Z) (now : Z) : Impl :=
  let streak0 := match entries t !! ip with Some e => failure_streak e | None => 0 end in
  let streak := if 32 <=? streak0 then 32 else streak0 + 1 in
  let m := <[ip := mkEntry streak (now + milliseconds (backoff (config t) streak)) now]> (entries t) in
  mkImpl (config t) m (raise_peak (set_tracked (bump (stats t) 0 0 0 1 0) (msize m)) (msize m)).

Definition record_failure (t : Throttle) (ip : list Z) (now : Z) : Throttle :=
  match t with
  | Some i => if negb (valid_ip ip) then t else Some (record_failure_impl i ip now)
  | None => t
  end.

Definition record_success_impl (t : Impl) (ip : list Z) : Impl :=
  let m := delete ip (entries t) in
  mkImpl (config t) m (set_tracked (bump (stats t) 0 0 0 0 1) (msize m)).

Definition record_success (t : Throttle) (ip : list Z) (now : Z) : Throttle :=
  match t with
  | Some i => if negb (valid_ip ip) then t else Some (record_success_impl i ip)
  | None => t
  end.

Definition diagnostics (t : Throttle) : RelayEnrollmentThrottleDiagnostics :=
  match t with Some t => stats t | None => no_diagnostics end.

End RelayEnrollmentThrottle.

Import RelayEnrollmentThrottle.

(** ** Histories *)

Inductive operation : Type :=
  | Admit (ip : list Z) (now : Z)
  | Failure (ip : list Z) (now : Z)
  | Success (ip : list Z) (now : Z)
  | Prune (now : Z).

Definition perform (t : Impl) (op : operation) : Impl :=
  match op with
  | Admit ip now => snd (admit_impl t ip now)
  | Failure ip now => if valid_ip ip then record_failure_impl t ip now else t
  | Success ip now => if valid_ip ip then record_success_impl t ip else t
  | Prune now => prune_impl t now
  end.

Definition run (t : Impl) (ops : list operation) : Impl := foldl perform t ops.

(** Neither a failure nor a success of [ip], and before [until]. *)
Definition quiet (ip : list Z) (until : Z) (op : operation) : Prop :=
  match op with
  | Admit _ now => now < until
  | Failure ip' _ => ip' <> ip
  | Success ip' _ => ip' <> ip
  | Prune now => now < until
  end.

(** [ip] is refused until [until]. *)
Definition blocked (ip : list Z) (until : Z) (t : Impl) : Prop :=
  exists e, entries t !! ip = Some e /\ backoff_until e = until /\
    until <= last_seen e + milliseconds (entry_ttl (config t)).

Lemma prune_blocked ip until t now : now < until -> blocked ip until t -> blocked ip until (prune_impl t now).
Proof.
  intros Hn (e & He & Hb & Hl). exists e. split_and!; [| done | done]. unfold prune_impl. cbn [entries].
  rewrite erase_loop_entries. apply map_lookup_filter_Some. split; [done |]. cbn.
  apply andb_false_iff. right. lia.
Qed.

Lemma admit_tail_blocked ip until t missing now :
  now < until -> blocked ip until t -> blocked ip until (snd (admit_tail t missing now)).
Proof.
  intros Hn Hb. unfold admit_tail. destruct (missing && _).
  - apply (prune_blocked _ _ _ now Hn) in Hb. cbn [andb]. by destruct (_ <=? _).
  - cbn [andb]. done.
Qed.

Lemma admit_blocked ip until t now :
  valid_ip ip = true -> now < until -> blocked ip until t ->
  fst (admit_impl t ip now) = failure (throttle_error ErrorCode.resource_exhausted "enrollment_throttled").
Proof.
  intros Hv Hn (e & He & Hb & Hl). unfold admit_impl. rewrite Hv. cbn [negb]. rewrite He. unfold stale.
  rewrite (proj2 (Z.leb_gt _ _)) by lia. by rewrite (proj2 (Z.ltb_lt now (backoff_until e))) by lia.
Qed.

Lemma admit_keeps_blocked ip until t ip' now :
  now < until -> blocked ip until t -> blocked ip until (snd (admit_impl t ip' now)).
Proof.
  intros Hn Hb. unfold admit_impl. destruct (negb (valid_ip ip')); [done |].
  destruct (entries t !! ip') as [e |] eqn:He; [| by apply admit_tail_blocked].
  destruct (stale (config t) now e) eqn:Hs; [| destruct (now <? backoff_until e); [done | by apply admit_tail_blocked]].
  apply admit_tail_blocked; [done |]. destruct Hb as (e' & He' & Hb & Hl). exists e'. cbn [entries config].
  split_and!; [| done | done]. rewrite lookup_delete_ne; [done |]. intros ->.
  rewrite He' in He. injection He as ->. unfold stale in Hs. lia.
Qed.

Lemma perform_blocked ip until t op : quiet ip until op -> blocked ip until t -> blocked ip until (perform t op).
Proof.
  intros Hq Hb. destruct op as [ip' now | ip' now | ip' now | now]; cbn in *.
  - by apply admit_keeps_blocked.
  - destruct (valid_ip ip'); [| done]. destruct Hb as (e & He & Hb & Hl). exists e. cbn. by rewrite lookup_insert_ne.
  - destruct (valid_ip ip'); [| done]. destruct Hb as (e & He & Hb & Hl). exists e. cbn. by rewrite lookup_delete_ne.
  - by apply prune_blocked.
Qed.

Lemma run_blocked ip until t ops : Forall (quiet ip until) ops -> blocked ip until t -> blocked ip until (run t ops).
Proof.
  intros Hq. revert t. induction Hq as [| op ops Hq _ IH]; intros t Hb; [done |]. by apply IH, perform_blocked.
Qed.

Definition streak_of (t : Impl) (ip : list Z) : Z :=
  match entries t !! ip with Some e => failure_streak e | None => 0 end.

(** The delay after the [n]-th failure in a row, without the machine's widths. *)
Definition delay (c : RelayEnrollmentThrottleConfig) (n : Z) : Z :=
  Z.min (failure_backoff_base c * 2 ^ Z.min (n - 1) (maximum_backoff_shift c)) (failure_backoff_maximum c).

Lemma backoff_delay c n :
  validate_config c = success tt -> failure_backoff_base c * 2 ^ maximum_backoff_shift c < 2 ^ 63 ->
  0 <= maximum_backoff_shift c -> 1 <= n <= 32 -> backoff c n = delay c n.
Proof.
  unfold validate_config. intros Hv Hov Hs Hn. inv_result Hv. unfold backoff, delay.
  rewrite u32_small by lia. rewrite Z.shiftl_mul_pow2, Z.mul_1_l by lia.
  assert (Hp := Z.pow_le_mono_r 2 (Z.min (n - 1) (maximum_backoff_shift c)) (maximum_backoff_shift c) ltac:(lia) ltac:(lia)).
  assert (H0 := Z.pow_pos_nonneg 2 (Z.min (n - 1) (maximum_backoff_shift c)) ltac:(lia) ltac:(lia)).
  rewrite u64_small by nia. unfold signed64. rewrite (proj2 (Z.ltb_lt _ _)) by nia. done.
Qed.

(** Failures are punished with the documented backoff: after the [n]-th
    failure in a row of an address (the streak stops counting at 32), every
    attempt of it is refused until [base * 2^min(n-1, shift)], at most
    [maximum], has passed, whatever other addresses and sweeps do in between.
    This needs entries that outlive the longest backoff, as in the default
    configuration. *)
Theorem throttle_backoff c t ip now ops later :
  validate_config c = success tt -> 0 <= maximum_backoff_shift c ->
  failure_backoff_base c * 2 ^ maximum_backoff_shift c < 2 ^ 63 -> failure_backoff_maximum c <= entry_ttl c ->
  config t = c -> valid_ip ip = true -> 0 <= streak_of t ip <= 32 ->
  let n := Z.min 32 (streak_of t ip + 1) in
  let until := now + milliseconds (delay c n) in
  Forall (quiet ip until) ops -> later < until ->
  let t' := run (perform t (Failure ip now)) ops in
  fst (admit_impl t' ip later) = failure (throttle_error ErrorCode.resource_exhausted "enrollment_throttled") /\
  streak_of (perform t (Failure ip now)) ip = n.
Proof.
  intros Hc Hsh Hov Httl <- Hv Hst n until Hq Hl t'.
  assert (Hn : (if 32 <=? streak_of t ip then 32 else streak_of t ip + 1) = n) by (subst n; destruct (Z.leb_spec 32 (streak_of t ip)); lia).
  assert (Hb : blocked ip until (perform t (Failure ip now)) /\ streak_of (perform t (Failure ip now)) ip = n).
  { cbn [perform]. rewrite Hv. unfold record_failure_impl. fold (streak_of t ip). rewrite Hn.
    rewrite backoff_delay by (done || lia). split.
    - eexists. cbn [entries config]. rewrite lookup_insert_eq. split_and!; [done | done |]. cbn [last_seen].
      assert (delay (config t) n <= entry_ttl (config t)) by (unfold delay; lia).
      subst until. unfold milliseconds. lia.
    - unfold streak_of at 1. cbn [entries]. by rewrite lookup_insert_eq. }
  destruct Hb as [Hb Hs]. split; [| done]. eapply admit_blocked; [done | exact Hl |]. by apply run_blocked.
Qed.

(** ** A backoff longer than the entry's lifetime is forgotten *)

Definition short_lived : RelayEnrollmentThrottleConfig := mkThrottleConfig 4096 500 60000 7 100.

(** A valid configuration whose entries live for 100 ms: the 500 ms backoff after
    a failure is over when the entry is, after 100 ms. *)
Lemma short_entry_ends_backoff :
  validate_config short_lived = success tt /\
  let t := record_failure_impl (mkImpl short_lived ∅ no_diagnostics) [49] 0 in
  (backoff_until <$> entries t !! [49]) = Some (milliseconds 500) /\
  fst (admit_impl t [49] (milliseconds 100)) = success tt.
Proof. vm_compute. repeat split; reflexivity. Qed.

(** ** Witness *)

Lemma throttle_backoff_witness :
  fst (admit_impl (run (perform (mkImpl default_throttle_config ∅ no_diagnostics) (Failure [49] 0))
         [Failure [50] 5; Prune 7; Admit [49] 8]) [49] (milliseconds 499)) =
    failure (throttle_error ErrorCode.resource_exhausted "enrollment_throttled") /\
  streak_of (perform (mkImpl default_throttle_config ∅ no_diagnostics) (Failure [49] 0)) [49] = 1.
Proof.
  apply (throttle_backoff default_throttle_config).
  - reflexivity.
  - vm_compute. discriminate.
  - vm_compute. reflexivity.
  - vm_compute. discriminate.
  - reflexivity.
  - reflexivity.
  - vm_compute. split; discriminate.
  - repeat apply List.Forall_cons; try apply List.Forall_nil; vm_compute; (reflexivity || discriminate).
  - vm_compute. reflexivity.
Defined.
