(* ===== verification/SessionChannels.v ===== *)
(** * Session channels and send scheduling

    [src/client/session_channels.hpp] and [src/client/session_channels.cpp]: the
    logical channels of one peer session, their bounded queues, the budget of
    the peer, the reserved control budget, and the weighted choice of the next
    frame to send.

    The heap blocks behind the capacity tickets are part of the model: a ticket
    is the address of its [Control] block, and the calls of completion callbacks
    are recorded in order. A callback that calls back into the manager is not
    modelled. [frame_wire_size] dereferences the result of [encoded_size]
    unchecked, so the operations that use it are partial. *)

From Stdlib Require Import ZArith Lia ZifyBool String.
From stdpp Require Import base tactics option list gmap sorting numbers strings.
From S2P Require Import Prelude Errors Limits Varint Wire FrameStream Clock.
#[local] Open Scope Z_scope.

Module ChannelDomain.
Inductive ChannelDomain : Type := control | message | rpc | event | file | shell | stream.
End ChannelDomain.
Abbreviation ChannelDomain := ChannelDomain.ChannelDomain.

#[export] Instance ChannelDomain_eq_dec : EqDecision ChannelDomain.
Proof. solve_decision. Defined.

(** Scheduling classes, in the order of their numeric values. *)
Module FrameClass.
Inductive FrameClass : Type := control | interactive | standard | bulk.
End FrameClass.
Abbreviation FrameClass := FrameClass.FrameClass.

#[export] Instance FrameClass_eq_dec : EqDecision FrameClass.
Proof. solve_decision. Defined.

Module QueueFullPolicy.
Inductive QueueFullPolicy : Type := reject | drop_oldest | keep_latest.
End QueueFullPolicy.
Abbreviation QueueFullPolicy := QueueFullPolicy.QueueFullPolicy.

#[export] Instance QueueFullPolicy_eq_dec : EqDecision QueueFullPolicy.
Proof. solve_decision. Defined.

(** Integer keys of a [std::map]. *)
#[export] Instance Z_order : KeyOrder Z := Z.le.
#[export] Instance Z_order_dec (a b : Z) : Decision (key_le a b).
Proof. unfold key_le, Z_order. apply _. Defined.

Module SessionChannels.
Import Wire FrameStream.

Definition session_channel_error (code : ErrorCode) (detail : string) : Error :=
  make_error code "session_channels" detail.

Definition frame_class_weight (klass : FrameClass) : Z :=
  match klass with
  | FrameClass.control => 8
  | FrameClass.interactive => 8
  | FrameClass.standard => 4
  | FrameClass.bulk => 1
  end.

(** [*size.value_if()] of a failed result is a null dereference. *)
Definition frame_wire_size (f : Frame) (limits : Limits) : option Z :=
  match encoded_size limits (channel_id f) (zlen (payload f)) with
  | success size => Some size
  | failure _ => None
  end.

Definition channel_domain_name (d : ChannelDomain) : string :=
  match d with
  | ChannelDomain.control => "control"
  | ChannelDomain.message => "message"
  | ChannelDomain.rpc => "rpc"
  | ChannelDomain.event => "event"
  | ChannelDomain.file => "file"
  | ChannelDomain.shell => "shell"
  | ChannelDomain.stream => "stream"
  end.

Definition is_control_domain_frame_type (frame_type : Z) : bool :=
  frame_type <? frame_type_value message.

(** The enumerator a byte casts to, when it is one. *)
Definition frame_type_of (frame_type : Z) : option FrameType :=
  find (fun t => frame_type_value t =? frame_type) known_frame_types.

Definition frame_type_domain (frame_type : Z) : option ChannelDomain :=
  match frame_type_of frame_type with
  | Some (message | message_ack) => Some ChannelDomain.message
  | Some (rpc_request | rpc_response | rpc_cancel) => Some ChannelDomain.rpc
  | Some (event_subscribe | event_item | event_unsubscribe) => Some ChannelDomain.event
  | Some (file_manifest | file_accept | file_chunk | file_complete | file_reject) =>
      Some ChannelDomain.file
  | Some (shell_open | shell_input | shell_output | shell_resize | shell_signal
          | shell_exit | shell_eof | shell_error | shell_close) => Some ChannelDomain.shell
  | Some (stream_open | stream_data | stream_window_update | stream_fin | stream_reset) =>
      Some ChannelDomain.stream
  | _ => None
  end.

Definition default_frame_class (frame_type : Z) : FrameClass :=
  match frame_type_of frame_type with
  | Some (session_hello | protocol_close | ping | pong | cancel | session_restart_offer
          | session_restart_answer | session_restart_candidate | pairing_request
          | pairing_result) => FrameClass.control
  | Some (stream_window_update | stream_reset | stream_fin | message_ack) => FrameClass.control
  | Some (shell_input | shell_output | shell_resize | shell_signal) => FrameClass.interactive
  | Some (file_chunk | event_item) => FrameClass.bulk
  | _ => FrameClass.standard
  end.

Definition queue_full_policy_name (p : QueueFullPolicy) : string :=
  match p with
  | QueueFullPolicy.reject => "reject"
  | QueueFullPolicy.drop_oldest => "drop_oldest"
  | QueueFullPolicy.keep_latest => "keep_latest"
  end.

(** [struct ChannelBudgetConfig]. *)
Record ChannelBudgetConfig : Type := mkBudget {
  max_open_channels : Z;
  per_peer_queued_frames : Z;
  per_peer_queued_bytes : Z;
  control_reserved_frames : Z;
  control_reserved_bytes : Z;
  max_channel_queued_frames : Z;
  max_channel_queued_bytes : Z;
}.

Definition default_budget : ChannelBudgetConfig :=
  {| max_open_channels := 16;
     per_peer_queued_frames := 1024;
     per_peer_queued_bytes := 8 * 1024 * 1024;
     control_reserved_frames := 64;
     control_reserved_bytes := 64 * 1024;
     max_channel_queued_frames := 1024;
     max_channel_queued_bytes := 8 * 1024 * 1024 |}.

Definition validate_channel_budget_config (c : ChannelBudgetConfig) : Result unit :=
  let max_queued_frames := 65536 in
  let max_queued_bytes := 256 * 1024 * 1024 in
  fail_if (max_open_channels c =? 0) || (1024 <? max_open_channels c)
    with session_channel_error ErrorCode.configuration "max_open_channels_invalid";
  fail_if (per_peer_queued_frames c =? 0) || (max_queued_frames <? per_peer_queued_frames c)
          || (per_peer_queued_bytes c =? 0) || (max_queued_bytes <? per_peer_queued_bytes c)
    with session_channel_error ErrorCode.configuration "per_peer_budget_invalid";
  fail_if (control_reserved_frames c =? 0) || (control_reserved_bytes c =? 0)
    with session_channel_error ErrorCode.configuration "control_reservation_invalid";
  fail_if (max_channel_queued_frames c =? 0) || (max_queued_frames <? max_channel_queued_frames c)
          || (max_channel_queued_bytes c =? 0) || (max_queued_bytes <? max_channel_queued_bytes c)
    with session_channel_error ErrorCode.configuration "channel_queue_bounds_invalid";
  fail_if (per_peer_queued_frames c <? control_reserved_frames c)
          || (per_peer_queued_bytes c <? control_reserved_bytes c)
    with session_channel_error ErrorCode.configuration "control_reservation_exceeds_budget";
  success tt.

Record ChannelQueueStats : Type := mkStats {
  stat_queued_frames : Z;
  stat_queued_bytes : Z;
  stat_sent_frames : Z;
  stat_sent_bytes : Z;
  stat_dropped_frames : Z;
  stat_dropped_bytes : Z;
  stat_rejected_frames : Z;
  stat_capacity_waits_completed : Z;
}.

Definition zero_stats : ChannelQueueStats := mkStats 0 0 0 0 0 0 0 0.

Record QueuedSendFrame : Type := mkQueued {
  queued_channel_id : Z;
  frame_class : FrameClass;
  queued_frame : Frame;
}.

Record EnqueueReceipt : Type := mkReceipt {
  admitted : bool;
  dropped_previous : bool;
  dropped_frames : Z;
}.

(** [CapacityWaitTicket::Control]; [manager] says whether the back pointer is
    set, the completion callback is the address of the block itself. *)
Record Control : Type := mkControl {
  control_channel_id : Z;
  waiter_id : Z;
  completed : bool;
  manager : bool;
}.

(** [SessionChannelManager::ChannelState]. *)
Record ChannelState : Type := mkChannel {
  domain : ChannelDomain;
  policy : QueueFullPolicy;
  queued_frame_capacity : Z;
  queued_byte_capacity : Z;
  queued_frames : Z;
  queued_bytes : Z;
  stats : ChannelQueueStats;
  waiters : list Z;
  open : bool;
}.

(** One value per scheduling class: the two maps of the manager whose keys are
    the four classes. *)
Record ByClass (A : Type) : Type := mkByClass {
  of_control : A;
  of_interactive : A;
  of_standard : A;
  of_bulk : A;
}.
Arguments mkByClass {A}.
Arguments of_control {A}.
Arguments of_interactive {A}.
Arguments of_standard {A}.
Arguments of_bulk {A}.

Definition class_get {A} (k : FrameClass) (b : ByClass A) : A :=
  match k with
  | FrameClass.control => of_control b
  | FrameClass.interactive => of_interactive b
  | FrameClass.standard => of_standard b
  | FrameClass.bulk => of_bulk b
  end.

Definition class_set {A} (k : FrameClass) (a : A) (b : ByClass A) : ByClass A :=
  match k with
  | FrameClass.control => mkByClass a (of_interactive b) (of_standard b) (of_bulk b)
  | FrameClass.interactive => mkByClass (of_control b) a (of_standard b) (of_bulk b)
  | FrameClass.standard => mkByClass (of_control b) (of_interactive b) a (of_bulk b)
  | FrameClass.bulk => mkByClass (of_control b) (of_interactive b) (of_standard b) a
  end.

Definition class_map {A B} (f : A -> B) (b : ByClass A) : ByClass B :=
  mkByClass (f (of_control b)) (f (of_interactive b)) (f (of_standard b)) (f (of_bulk b)).

(** The classes in the order of their keys. *)
Definition classes : list FrameClass :=
  [FrameClass.control; FrameClass.interactive; FrameClass.standard; FrameClass.bulk].

(** [class SessionChannelManager], with the ticket blocks [controls], the next
    free address and the completions called so far. *)
Record Manager : Type := mkManager {
  config_ : ChannelBudgetConfig;
  limits_ : Limits;
  channels_ : gmap Z ChannelState;
  class_queues_ : ByClass (list QueuedSendFrame);
  class_state_ : ByClass Z;
  business_queued_frames_ : Z;
  business_queued_bytes_ : Z;
  control_queued_frames_ : Z;
  control_queued_bytes_ : Z;
  waiters_ : gmap Z Z;
  next_waiter_id_ : Z;
  waiter_capacity_ : Z;
  controls : gmap Z Control;
  next_control : Z;
  completions : list (Z * Result unit);
}.

(** Assignments to groups of members. *)
Definition set_channels (m : Manager) (c : gmap Z ChannelState) : Manager :=
  mkManager (config_ m) (limits_ m) c (class_queues_ m) (class_state_ m)
    (business_queued_frames_ m) (business_queued_bytes_ m)
    (control_queued_frames_ m) (control_queued_bytes_ m)
    (waiters_ m) (next_waiter_id_ m) (waiter_capacity_ m)
    (controls m) (next_control m) (completions m).

Definition set_queues (m : Manager) (q : ByClass (list QueuedSendFrame)) : Manager :=
  mkManager (config_ m) (limits_ m) (channels_ m) q (class_state_ m)
    (business_queued_frames_ m) (business_queued_bytes_ m)
    (control_queued_frames_ m) (control_queued_bytes_ m)
    (waiters_ m) (next_waiter_id_ m) (waiter_capacity_ m)
    (controls m) (next_control m) (completions m).

Definition set_tokens (m : Manager) (t : ByClass Z) : Manager :=
  mkManager (config_ m) (limits_ m) (channels_ m) (class_queues_ m) t
    (business_queued_frames_ m) (business_queued_bytes_ m)
    (control_queued_frames_ m) (control_queued_bytes_ m)
    (waiters_ m) (next_waiter_id_ m) (waiter_capacity_ m)
    (controls m) (next_control m) (completions m).

Definition set_business (m : Manager) (frames bytes : Z) : Manager :=
  mkManager (config_ m) (limits_ m) (channels_ m) (class_queues_ m) (class_state_ m)
    frames bytes
    (control_queued_frames_ m) (control_queued_bytes_ m)
    (waiters_ m) (next_waiter_id_ m) (waiter_capacity_ m)
    (controls m) (next_control m) (completions m).

Definition set_control (m : Manager) (frames bytes : Z) : Manager :=
  mkManager (config_ m) (limits_ m) (channels_ m) (class_queues_ m) (class_state_ m)
    (business_queued_frames_ m) (business_queued_bytes_ m)
    frames bytes
    (waiters_ m) (next_waiter_id_ m) (waiter_capacity_ m)
    (controls m) (next_control m) (completions m).

Definition set_waits (m : Manager) (w : gmap Z Z) (next : Z) (cs : gmap Z Control)
    (address : Z) (log : list (Z * Result unit)) : Manager :=
  mkManager (config_ m) (limits_ m) (channels_ m) (class_queues_ m) (class_state_ m)
    (business_queued_frames_ m) (business_queued_bytes_ m)
    (control_queued_frames_ m) (control_queued_bytes_ m)
    w next (waiter_capacity_ m) cs address log.

Definition set_channel_queue (c : ChannelState) (frames bytes : Z) : ChannelState :=
  mkChannel (domain c) (policy c) (queued_frame_capacity c) (queued_byte_capacity c)
    frames bytes (stats c) (waiters c) (open c).

Definition set_stats (c : ChannelState) (s : ChannelQueueStats) : ChannelState :=
  mkChannel (domain c) (policy c) (queued_frame_capacity c) (queued_byte_capacity c)
    (queued_frames c) (queued_bytes c) s (waiters c) (open c).

Definition set_channel_waiters (c : ChannelState) (w : list Z) : ChannelState :=
  mkChannel (domain c) (policy c) (queued_frame_capacity c) (queued_byte_capacity c)
    (queued_frames c) (queued_bytes c) (stats c) w (open c).

Definition count_queued (s : ChannelQueueStats) (bytes : Z) : ChannelQueueStats :=
  mkStats (u64 (stat_queued_frames s + 1)) (u64 (stat_queued_bytes s + bytes))
    (stat_sent_frames s) (stat_sent_bytes s) (stat_dropped_frames s) (stat_dropped_bytes s)
    (stat_rejected_frames s) (stat_capacity_waits_completed s).

Definition count_sent (s : ChannelQueueStats) (bytes : Z) : ChannelQueueStats :=
  mkStats (stat_queued_frames s) (stat_queued_bytes s)
    (u64 (stat_sent_frames s + 1)) (u64 (stat_sent_bytes s + bytes))
    (stat_dropped_frames s) (stat_dropped_bytes s)
    (stat_rejected_frames s) (stat_capacity_waits_completed s).

Definition count_dropped (s : ChannelQueueStats) (frames bytes : Z) : ChannelQueueStats :=
  mkStats (stat_queued_frames s) (stat_queued_bytes s) (stat_sent_frames s) (stat_sent_bytes s)
    (u64 (stat_dropped_frames s + frames)) (u64 (stat_dropped_bytes s + bytes))
    (stat_rejected_frames s) (stat_capacity_waits_completed s).

Definition count_rejected (s : ChannelQueueStats) : ChannelQueueStats :=
  mkStats (stat_queued_frames s) (stat_queued_bytes s) (stat_sent_frames s) (stat_sent_bytes s)
    (stat_dropped_frames s) (stat_dropped_bytes s)
    (u64 (stat_rejected_frames s + 1)) (stat_capacity_waits_completed s).

Definition count_wait (s : ChannelQueueStats) : ChannelQueueStats :=
  mkStats (stat_queued_frames s) (stat_queued_bytes s) (stat_sent_frames s) (stat_sent_bytes s)
    (stat_dropped_frames s) (stat_dropped_bytes s)
    (stat_rejected_frames s) (u64 (stat_capacity_waits_completed s + 1)).

(** The constructor. *)
Definition full_tokens : ByClass Z :=
  mkByClass (frame_class_weight FrameClass.control) (frame_class_weight FrameClass.interactive)
    (frame_class_weight FrameClass.standard) (frame_class_weight FrameClass.bulk).

Definition new_manager (config : ChannelBudgetConfig) (limits : Limits) : Manager :=
  mkManager config limits empty (mkByClass [] [] [] []) full_tokens 0 0 0 0
    empty 1 64 empty 1 [].

(** ** Capacity waits *)

Definition complete_waiter (m : Manager) (id : Z) (result : Result unit) : Manager :=
  match waiters_ m !! id with
  | None => m
  | Some address =>
      let waiters := delete id (waiters_ m) in
      match controls m !! address with
      | None => set_waits m waiters (next_waiter_id_ m) (controls m) (next_control m) (completions m)
      | Some c =>
          set_waits m waiters (next_waiter_id_ m)
            (<[address := mkControl (control_channel_id c) (waiter_id c) true false]> (controls m))
            (next_control m) (completions m ++ [(address, result)])
      end
  end.

Definition detach_waiter (m : Manager) (id : Z) : Manager :=
  let m := set_waits m (delete id (waiters_ m)) (next_waiter_id_ m) (controls m)
             (next_control m) (completions m) in
  set_channels m
    ((fun c => set_channel_waiters c (filter (fun w => w <> id) (waiters c))) <$> channels_ m).

(** [CapacityWaitTicket::detach], which [cancel] and the destructor call: the
    ticket at [address] is gone afterwards. *)
Definition detach (m : Manager) (address : Z) : Manager :=
  match controls m !! address with
  | None => m
  | Some c =>
      let log := if completed c then completions m
                 else completions m ++
                   [(address, failure (session_channel_error ErrorCode.cancelled
                                         "capacity_wait_cancelled"))] in
      let m := set_waits m (waiters_ m) (next_waiter_id_ m)
                 (<[address := mkControl (control_channel_id c) (waiter_id c) true (manager c)]>
                    (controls m)) (next_control m) log in
      let m := if manager c then detach_waiter m (waiter_id c) else m in
      set_waits m (waiters_ m) (next_waiter_id_ m) (delete address (controls m))
        (next_control m) (completions m)
  end.

(** Complete waiters while capacity for at least one more frame remains: the
    loop over the front of [channel.waiters]. *)
Fixpoint notify_loop (id : Z) (ws : list Z) (m : Manager) : Manager :=
  match channels_ m !! id with
  | None => m
  | Some c =>
      match ws with
      | [] => m
      | w :: ws =>
          if (queued_frames c <? queued_frame_capacity c)
             && (queued_bytes c <? queued_byte_capacity c) then
            let m := set_channels m (<[id := set_channel_waiters c ws]> (channels_ m)) in
            let m := complete_waiter m w (success tt) in
            let m := set_channels m
                       (<[id := set_stats (set_channel_waiters c ws) (count_wait (stats c))]>
                          (channels_ m)) in
            notify_loop id ws m
          else m
      end
  end.

Definition notify_capacity (m : Manager) (id : Z) : Manager :=
  match channels_ m !! id with
  | None => m
  | Some c => notify_loop id (waiters c) m
  end.

Definition wait_for_capacity (m : Manager) (id : Z) : Result Z * Manager :=
  match channels_ m !! id with
  | None => (failure (session_channel_error ErrorCode.protocol "channel_not_open"), m)
  | Some c =>
  if negb (open c)
  then (failure (session_channel_error ErrorCode.protocol "channel_not_open"), m) else
  let address := next_control m in
  if (queued_frames c <? queued_frame_capacity c) && (queued_bytes c <? queued_byte_capacity c)
     && (business_queued_frames_ m <? per_peer_queued_frames (config_ m)) then
    (success address,
     set_waits m (waiters_ m) (next_waiter_id_ m)
       (<[address := mkControl id 0 true false]> (controls m)) (address + 1)
       (completions m ++ [(address, success tt)]))
  else if waiter_capacity_ m <=? msize (waiters_ m) then
    (failure (session_channel_error ErrorCode.resource_exhausted "capacity_waiter_limit"), m)
  else
    let w := next_waiter_id_ m in
    let m := set_waits m (<[w := address]> (waiters_ m)) (u64 (w + 1))
               (<[address := mkControl id w false true]> (controls m)) (address + 1)
               (completions m) in
    (success address,
     set_channels m (<[id := set_channel_waiters c (waiters c ++ [w])]> (channels_ m)))
  end.

(** The destructor. *)
Definition destroy_manager (m : Manager) : Manager :=
  foldl (fun m w =>
           complete_waiter m (fst w)
             (failure (session_channel_error ErrorCode.cancelled "session_channels_closed")))
    m (iterate (waiters_ m)).

(** ** Opening and closing *)

Definition open_channel (m : Manager) (id : Z) (d : ChannelDomain) (p : QueueFullPolicy)
    (frame_capacity byte_capacity : Z) : Result unit * Manager :=
  if (id =? 0) || bool_decide (d = ChannelDomain.control)
  then (failure (session_channel_error ErrorCode.configuration "business_channel_id_invalid"), m)
  else if (max_open_channels (config_ m) <=? msize (channels_ m))
          && negb (bool_decide (is_Some (channels_ m !! id)))
  then (failure (session_channel_error ErrorCode.resource_exhausted "open_channel_limit"), m)
  else if (frame_capacity =? 0) || (max_channel_queued_frames (config_ m) <? frame_capacity)
  then (failure (session_channel_error ErrorCode.configuration "channel_frame_capacity_invalid"), m)
  else if (byte_capacity =? 0) || (max_channel_queued_bytes (config_ m) <? byte_capacity)
  then (failure (session_channel_error ErrorCode.configuration "channel_byte_capacity_invalid"), m)
  else if bool_decide (is_Some (channels_ m !! id))
  then (failure (session_channel_error ErrorCode.configuration "channel_id_in_use"), m)
  else
    let state := mkChannel d p frame_capacity byte_capacity 0 0 zero_stats [] true in
    (success tt, set_channels m (<[id := state]> (channels_ m))).

(** The search of [allocate_channel]: every second id below
    [2 * max_open_channels + 2]. *)
Fixpoint allocate_loop (fuel : nat) (candidate : Z) (m : Manager) (d : ChannelDomain)
    (p : QueueFullPolicy) (frame_capacity byte_capacity : Z) : Result Z * Manager :=
  let exhausted :=
    (failure (session_channel_error ErrorCode.resource_exhausted "channel_id_space_exhausted"), m) in
  match fuel with
  | O => exhausted
  | S fuel =>
      if negb (candidate <? u64 (2 * max_open_channels (config_ m) + 2)) then exhausted
      else if bool_decide (is_Some (channels_ m !! candidate)) then
        allocate_loop fuel (u32 (candidate + 2)) m d p frame_capacity byte_capacity
      else
        match open_channel m candidate d p frame_capacity byte_capacity with
        | (failure e, m) => (failure e, m)
        | (success _, m) => (success candidate, m)
        end
  end.

Definition allocate_channel (m : Manager) (initiator_role : bool) (d : ChannelDomain)
    (p : QueueFullPolicy) (frame_capacity byte_capacity : Z) : Result Z * Manager :=
  allocate_loop (Z.to_nat (max_open_channels (config_ m) + 2)) (if initiator_role then 1 else 2)
    m d p frame_capacity byte_capacity.

Definition drop_channel_frames (id : Z) (q : list QueuedSendFrame) : list QueuedSendFrame :=
  filter (fun e => queued_channel_id e <> id) q.

Definition close_channel (m : Manager) (id : Z) : Manager :=
  match channels_ m !! id with
  | None => m
  | Some c =>
      let m := foldl (fun m w =>
                 complete_waiter m w
                   (failure (session_channel_error ErrorCode.cancelled "channel_closed")))
                 m (waiters c) in
      let m := set_queues m (class_map (drop_channel_frames id) (class_queues_ m)) in
      let m := set_business m
                 (business_queued_frames_ m - Z.min (business_queued_frames_ m) (queued_frames c))
                 (business_queued_bytes_ m - Z.min (business_queued_bytes_ m) (queued_bytes c)) in
      set_channels m (delete id (channels_ m))
  end.

Definition close_all (m : Manager) : Manager :=
  foldl close_channel m
    (fst <$> filter (fun kv : Z * ChannelState => open (snd kv) = true) (iterate (channels_ m))).

Definition has_channel (m : Manager) (id : Z) : bool := bool_decide (is_Some (channels_ m !! id)).

Definition channel_domain (m : Manager) (id : Z) : option ChannelDomain :=
  domain <$> channels_ m !! id.

Definition open_channel_count (m : Manager) : Z := msize (channels_ m).

(** ** Queueing *)

Definition charge_drop (m : Manager) (id : Z) (c : ChannelState) (frames bytes : Z) : Manager :=
  let c := set_channel_queue c (queued_frames c - Z.min (queued_frames c) frames)
             (queued_bytes c - Z.min (queued_bytes c) bytes) in
  let c := set_stats c (count_dropped (stats c) frames bytes) in
  let m := set_business m
             (business_queued_frames_ m - Z.min (business_queued_frames_ m) frames)
             (business_queued_bytes_ m - Z.min (business_queued_bytes_ m) bytes) in
  set_channels m (<[id := c]> (channels_ m)).

Definition enqueue_control (m : Manager) (id : Z) (klass : FrameClass) (f : Frame)
    : option (Result EnqueueReceipt * Manager) :=
  let full := failure (session_channel_error ErrorCode.would_block "control_reservation_full") in
  if control_reserved_frames (config_ m) <? u64 (control_queued_frames_ m + 1)
  then Some (full, m) else
  match frame_wire_size f (limits_ m) with
  | None => None
  | Some size =>
  if control_reserved_bytes (config_ m) <? u64 (control_queued_bytes_ m + size)
  then Some (full, m) else
  let m := set_control m (u64 (control_queued_frames_ m + 1)) (u64 (control_queued_bytes_ m + size)) in
  let m := set_queues m (class_set klass (class_get klass (class_queues_ m) ++ [mkQueued id klass f])
                           (class_queues_ m)) in
  Some (success (mkReceipt true false 0), m)
  end.

(** The first entry of the channel, and the queue without it. *)
Fixpoint take_first (id : Z) (q : list QueuedSendFrame)
    : option (QueuedSendFrame * list QueuedSendFrame) :=
  match q with
  | [] => None
  | e :: q =>
      if queued_channel_id e =? id then Some (e, q)
      else match take_first id q with
           | None => None
           | Some (e', q') => Some (e', e :: q')
           end
  end.

(** The search of [drop_oldest] over the class queues. *)
Fixpoint drop_first (id : Z) (ks : list FrameClass) (b : ByClass (list QueuedSendFrame))
    : option (QueuedSendFrame * ByClass (list QueuedSendFrame)) :=
  match ks with
  | [] => None
  | k :: ks =>
      match take_first id (class_get k b) with
      | Some (e, q) => Some (e, class_set k q b)
      | None => drop_first id ks b
      end
  end.

(** The bytes of a list of queue entries, when every one has a size. *)
Fixpoint queue_bytes (limits : Limits) (q : list QueuedSendFrame) : option Z :=
  match q with
  | [] => Some 0
  | e :: q =>
      match frame_wire_size (queued_frame e) limits, queue_bytes limits q with
      | Some n, Some total => Some (n + total)
      | _, _ => None
      end
  end.

Definition all_entries (b : ByClass (list QueuedSendFrame)) : list QueuedSendFrame :=
  of_control b ++ of_interactive b ++ of_standard b ++ of_bulk b.

(** The [switch] on the policy: what was evicted, and the manager after it;
    [failure] is the rejecting case. *)
Definition evict (m : Manager) (id : Z) (c : ChannelState)
    : option (Result EnqueueReceipt * Manager) :=
  match policy c with
  | QueueFullPolicy.reject =>
      Some (failure (session_channel_error ErrorCode.would_block "channel_queue_full"),
            set_channels m (<[id := set_stats c (count_rejected (stats c))]> (channels_ m)))
  | QueueFullPolicy.drop_oldest =>
      if queued_frames c =? 0 then Some (success (mkReceipt false false 0), m) else
      match drop_first id classes (class_queues_ m) with
      | None => Some (success (mkReceipt false false 0), m)
      | Some (e, queues) =>
          match frame_wire_size (queued_frame e) (limits_ m) with
          | None => None
          | Some bytes =>
              Some (success (mkReceipt false true 1), charge_drop (set_queues m queues) id c 1 bytes)
          end
      end
  | QueueFullPolicy.keep_latest =>
      let gone := filter (fun e => queued_channel_id e = id) (all_entries (class_queues_ m)) in
      match queue_bytes (limits_ m) gone with
      | None => None
      | Some bytes =>
          let m := set_queues m (class_map (drop_channel_frames id) (class_queues_ m)) in
          if 0 <? zlen gone then
            Some (success (mkReceipt false true (zlen gone)),
                  charge_drop m id c (zlen gone) (u64 bytes))
          else Some (success (mkReceipt false false 0), m)
      end
  end.

(** The tail of [enqueue_business], from the second capacity check on. *)
Definition push_business (m : Manager) (id : Z) (klass : FrameClass) (f : Frame) (size : Z)
    (receipt : EnqueueReceipt) : Result EnqueueReceipt * Manager :=
  match channels_ m !! id with
  | None => (failure default_error, m)
  | Some c =>
  if (queued_frame_capacity c <? u64 (queued_frames c + 1))
     || (queued_byte_capacity c <? u64 (queued_bytes c + size)) then
    (failure (session_channel_error ErrorCode.would_block "channel_queue_full"),
     set_channels m (<[id := set_stats c (count_rejected (stats c))]> (channels_ m)))
  else
    let c := set_channel_queue c (u64 (queued_frames c + 1)) (u64 (queued_bytes c + size)) in
    let c := set_stats c (count_queued (stats c) size) in
    let m := set_channels m (<[id := c]> (channels_ m)) in
    let m := set_business m (u64 (business_queued_frames_ m + 1))
               (u64 (business_queued_bytes_ m + size)) in
    let m := set_queues m (class_set klass (class_get klass (class_queues_ m) ++ [mkQueued id klass f])
                             (class_queues_ m)) in
    (success (mkReceipt true (dropped_previous receipt) (dropped_frames receipt)), m)
  end.

Definition enqueue_business (m : Manager) (c : ChannelState) (id : Z) (klass : FrameClass)
    (f : Frame) : option (Result EnqueueReceipt * Manager) :=
  match frame_wire_size f (limits_ m) with
  | None => None
  | Some size =>
  let per_channel_full := (queued_frame_capacity c <? u64 (queued_frames c + 1))
                          || (queued_byte_capacity c <? u64 (queued_bytes c + size)) in
  let per_peer_full :=
    (per_peer_queued_frames (config_ m) <? u64 (business_queued_frames_ m + 1))
    || (per_peer_queued_bytes (config_ m) <? u64 (business_queued_bytes_ m + size)) in
  if per_peer_full then
    Some (failure (session_channel_error ErrorCode.would_block "per_peer_budget_full"),
          set_channels m (<[id := set_stats c (count_rejected (stats c))]> (channels_ m)))
  else if per_channel_full || bool_decide (policy c = QueueFullPolicy.keep_latest) then
    match evict m id c with
    | None => None
    | Some (failure e, m) => Some (failure e, m)
    | Some (success receipt, m) => Some (push_business m id klass f size receipt)
    end
  else Some (push_business m id klass f size (mkReceipt false false 0))
  end.

Definition enqueue (m : Manager) (id : Z) (klass : FrameClass) (f : Frame)
    : option (Result EnqueueReceipt * Manager) :=
  if bool_decide (klass = FrameClass.control) then enqueue_control m id klass f else
  match channels_ m !! id with
  | None => Some (failure (session_channel_error ErrorCode.protocol "channel_not_open"), m)
  | Some c =>
      if negb (open c)
      then Some (failure (session_channel_error ErrorCode.protocol "channel_not_open"), m)
      else enqueue_business m c id klass f
  end.

(** ** Sending *)

Definition refill_tokens (m : Manager) : Manager := set_tokens m full_tokens.

Definition has_sendable_frames (m : Manager) : bool :=
  existsb (fun k => match class_get k (class_queues_ m) with [] => false | _ :: _ => true end) classes.

(** The counters of a frame that leaves its queue. *)
Definition uncharge (m : Manager) (e : QueuedSendFrame) (size : Z) : Manager :=
  if bool_decide (frame_class e = FrameClass.control) then
    set_control m (u64 (control_queued_frames_ m - 1))
      (control_queued_bytes_ m - Z.min (control_queued_bytes_ m) size)
  else
    let m :=
      match channels_ m !! queued_channel_id e with
      | None => m
      | Some c =>
          let c := set_channel_queue c (u64 (queued_frames c - 1))
                     (queued_bytes c - Z.min (queued_bytes c) size) in
          let c := set_stats c (count_sent (stats c) size) in
          let m := set_channels m (<[queued_channel_id e := c]> (channels_ m)) in
          match waiters c with
          | [] => m
          | _ :: _ => notify_capacity m (queued_channel_id e)
          end
      end in
    set_business m (u64 (business_queued_frames_ m - 1))
      (business_queued_bytes_ m - Z.min (business_queued_bytes_ m) size).

(** The [for] loop of [next_to_send]: the frame it returns, if it does. *)
Fixpoint pick (m : Manager) (ks : list FrameClass)
    : option (option QueuedSendFrame * Manager) :=
  match ks with
  | [] => Some (None, m)
  | k :: ks =>
      match class_get k (class_queues_ m) with
      | [] => pick m ks
      | e :: q =>
          if class_get k (class_state_ m) =? 0 then pick m ks else
          let m := set_queues m (class_set k q (class_queues_ m)) in
          let m := set_tokens m (class_set k (class_get k (class_state_ m) - 1) (class_state_ m)) in
          match frame_wire_size (queued_frame e) (limits_ m) with
          | None => None
          | Some size => Some (Some e, uncharge m e size)
          end
      end
  end.

(** [fuel] bounds the depth of the recursion; two calls are enough. *)
Fixpoint next_to_send_fuel (fuel : nat) (m : Manager)
    : option (option QueuedSendFrame * Manager) :=
  match fuel with
  | O => Some (None, m)
  | S fuel =>
      match pick m classes with
      | None => None
      | Some (Some e, m) => Some (Some e, m)
      | Some (None, m) =>
          if negb (has_sendable_frames m) then Some (None, m)
          else next_to_send_fuel fuel (refill_tokens m)
      end
  end.

Definition next_to_send (m : Manager) : option (option QueuedSendFrame * Manager) :=
  next_to_send_fuel 2 m.

Definition return_to_send (m : Manager) (e : QueuedSendFrame) : option Manager :=
  match frame_wire_size (queued_frame e) (limits_ m) with
  | None => None
  | Some size =>
  let m :=
    if bool_decide (frame_class e = FrameClass.control) then
      set_control m (u64 (control_queued_frames_ m + 1)) (u64 (control_queued_bytes_ m + size))
    else
      let m :=
        match channels_ m !! queued_channel_id e with
        | None => m
        | Some c =>
            set_channels m
              (<[queued_channel_id e :=
                   set_channel_queue c (u64 (queued_frames c + 1)) (u64 (queued_bytes c + size))]>
                 (channels_ m))
        end in
      set_business m (u64 (business_queued_frames_ m + 1)) (u64 (business_queued_bytes_ m + size)) in
  Some (set_queues m (class_set (frame_class e) (e :: class_get (frame_class e) (class_queues_ m))
                        (class_queues_ m)))
  end.

Definition total_queued_frames (m : Manager) : Z :=
  u64 (business_queued_frames_ m + control_queued_frames_ m).
Definition total_queued_bytes (m : Manager) : Z :=
  u64 (business_queued_bytes_ m + control_queued_bytes_ m).

End SessionChannels.

Import Wire FrameStream SessionChannels.

Create HintDb channels.

(** ** Weighing queues *)

(** The sum of a weight over queue entries. *)
Definition weigh (w : QueuedSendFrame -> Z) (q : list QueuedSendFrame) : Z :=
  foldr (fun e n => w e + n) 0 q.

Lemma weigh_app w q q' : weigh w (q ++ q') = weigh w q + weigh w q'.
Proof. induction q as [| e q IH]; cbn; [done |]. unfold weigh in *. lia. Qed.

Lemma weigh_cons w e q : weigh w (e :: q) = w e + weigh w q.
Proof. done. Qed.

Lemma weigh_nil w : weigh w [] = 0.
Proof. done. Qed.

Lemma weigh_nonneg w q : (forall e, 0 <= w e) -> 0 <= weigh w q.
Proof. intros Hw. induction q as [| e q IH]; cbn; [done |]. specialize (Hw e). unfold weigh in IH. lia. Qed.

Lemma weigh_ext w w' q : Forall (fun e => w e = w' e) q -> weigh w q = weigh w' q.
Proof. induction 1 as [| e q He _ IH]; cbn; [done |]. unfold weigh in IH. lia. Qed.

Lemma weigh_zero w q : Forall (fun e => w e = 0) q -> weigh w q = 0.
Proof. induction 1 as [| e q He _ IH]; cbn; [done |]. unfold weigh in IH. lia. Qed.

#[export] Hint Rewrite weigh_app weigh_cons weigh_nil : wire.
#[global] Arguments weigh : simpl never.

Lemma weigh_drop w id q :
  weigh w (drop_channel_frames id q) =
  weigh (fun e => if queued_channel_id e =? id then 0 else w e) q.
Proof.
  unfold drop_channel_frames. induction q as [| e q IH]; [done |].
  rewrite weigh_cons, filter_cons. destruct (Z.eqb_spec (queued_channel_id e) id) as [He | He].
  - rewrite decide_False by (by intros ?). lia.
  - rewrite decide_True by done. rewrite weigh_cons. lia.
Qed.

Lemma weigh_entries_set w k q b :
  weigh w (all_entries (class_set k q b)) =
  weigh w (all_entries b) - weigh w (class_get k b) + weigh w q.
Proof. unfold all_entries. destruct k; cbn; autorewrite with wire; lia. Qed.

Lemma weigh_entries_drop w id b :
  weigh w (all_entries (class_map (drop_channel_frames id) b)) =
  weigh (fun e => if queued_channel_id e =? id then 0 else w e) (all_entries b).
Proof. unfold all_entries. cbn. autorewrite with wire. by rewrite !weigh_drop. Qed.

Lemma Forall_entries (P : QueuedSendFrame -> Prop) b :
  Forall P (all_entries b) <-> forall k, Forall P (class_get k b).
Proof.
  unfold all_entries. rewrite !Forall_app. split.
  - intros (? & ? & ? & ?) []; done.
  - intros H. split_and!; [apply (H FrameClass.control) | apply (H FrameClass.interactive)
                          | apply (H FrameClass.standard) | apply (H FrameClass.bulk)].
Qed.

Lemma class_get_set {A} k k' (a : A) b :
  class_get k' (class_set k a b) = if decide (k' = k) then a else class_get k' b.
Proof. by destruct k, k'. Qed.

Lemma class_get_map {A B} (f : A -> B) k b : class_get k (class_map f b) = f (class_get k b).
Proof. by destruct k. Qed.

(** ** The size of a frame *)

Lemma varint_size_range v : 1 <= varint_size v <= 11.
Proof.
  unfold varint_size. enough (forall fuel v s, s <= varint_size_loop fuel v s <= s + Z.of_nat fuel)
    as H by (specialize (H 10%nat v 1); lia).
  induction fuel as [| fuel IH]; intros v' s; cbn [varint_size_loop]; [lia |].
  destruct (128 <=? v'); [specialize (IH (Z.shiftr v' 7) (s + 1)) |]; lia.
Qed.

Lemma frame_wire_size_some f limits n : frame_wire_size f limits = Some n -> 0 < n < 2 ^ 33.
Proof.
  unfold frame_wire_size, encoded_size. intros H.
  assert (Hz := zlen_nonneg (payload f)). assert (Hc := varint_size_range (channel_id f)).
  set (body := u64 (fixed_body_size + varint_size (channel_id f) + zlen (payload f))) in *.
  assert (Hu := u64_range (fixed_body_size + varint_size (channel_id f) + zlen (payload f))). fold body in Hu.
  assert (Hb := varint_size_range (u32 body)).
  destruct (_ || _) eqn:E in H; cbn in H; [done |]. injection H as <-.
  unfold fixed_body_size, message_id_bytes, u32_max in *. lia.
Qed.

(** A frame whose body fits the limit has a size. *)
Lemma frame_wire_size_defined f limits :
  fixed_body_size + varint_size (channel_id f) + zlen (payload f) <= Z.min (max_frame_bytes limits) u32_max ->
  is_Some (frame_wire_size f limits).
Proof.
  intros Hle. unfold frame_wire_size, encoded_size. assert (Hz := zlen_nonneg (payload f)).
  assert (Hc := varint_size_range (channel_id f)). unfold fixed_body_size, message_id_bytes, u32_max in *.
  rewrite u64_small by lia. destruct (_ || _) eqn:E; [exfalso; lia |]. by eexists.
Qed.

(** ** The accounting invariant *)

Definition size_of (limits : Limits) (e : QueuedSendFrame) : Z :=
  default 0 (frame_wire_size (queued_frame e) limits).

Definition is_control (e : QueuedSendFrame) : bool :=
  bool_decide (frame_class e = FrameClass.control).

(** What an entry weighs in frames and bytes for those who count it. *)
Definition one (e : QueuedSendFrame) : Z := 1.
Definition only (p : QueuedSendFrame -> bool) (w : QueuedSendFrame -> Z) (e : QueuedSendFrame) : Z :=
  if p e then w e else 0.
Definition business (e : QueuedSendFrame) : bool := negb (is_control e).
Definition business_of (id : Z) (e : QueuedSendFrame) : bool :=
  business e && (queued_channel_id e =? id).

Abbreviation entries m := (all_entries (class_queues_ m)).

(** The size of an entry is defined. *)
Definition sized_entry (limits : Limits) (e : QueuedSendFrame) : Prop :=
  is_Some (frame_wire_size (queued_frame e) limits).

Definition channel_wf (m : Manager) (id : Z) (c : ChannelState) : Prop :=
  id <> 0 /\ domain c <> ChannelDomain.control /\ open c = true /\
  queued_frames c = weigh (only (business_of id) one) (entries m) /\
  queued_bytes c = weigh (only (business_of id) (size_of (limits_ m))) (entries m) /\
  queued_frames c <= queued_frame_capacity c <= max_channel_queued_frames (config_ m) /\
  queued_bytes c <= queued_byte_capacity c <= max_channel_queued_bytes (config_ m).

Record manager_wf (m : Manager) : Prop := {
  wf_config : validate_channel_budget_config (config_ m) = success tt;
  wf_sized : Forall (sized_entry (limits_ m)) (entries m);
  wf_classed : forall k, Forall (fun e => frame_class e = k) (class_get k (class_queues_ m));
  wf_tokens : forall k, 0 <= class_get k (class_state_ m) <= frame_class_weight k;
  wf_frames : business_queued_frames_ m = weigh (only business one) (entries m);
  wf_bytes : business_queued_bytes_ m = weigh (only business (size_of (limits_ m))) (entries m);
  wf_peer_frames : business_queued_frames_ m <= per_peer_queued_frames (config_ m);
  wf_peer_bytes : business_queued_bytes_ m <= per_peer_queued_bytes (config_ m);
  wf_control_frames : weigh (only is_control one) (entries m) <= control_queued_frames_ m
                      <= control_reserved_frames (config_ m);
  wf_control_bytes : weigh (only is_control (size_of (limits_ m))) (entries m)
                     <= control_queued_bytes_ m <= control_reserved_bytes (config_ m);
  wf_channels : map_Forall (channel_wf m) (channels_ m);
  wf_homes : Forall (fun e => is_control e = false -> is_Some (channels_ m !! queued_channel_id e))
               (entries m);
  wf_count : msize (channels_ m) <= max_open_channels (config_ m);
}.

(** ** What the accounting does not see *)

(** Channels that differ in statistics and waiters only. *)
Definition same_queue (c c' : ChannelState) : Prop :=
  domain c = domain c' /\ policy c = policy c' /\ open c = open c' /\
  queued_frame_capacity c = queued_frame_capacity c' /\
  queued_byte_capacity c = queued_byte_capacity c' /\
  queued_frames c = queued_frames c' /\ queued_bytes c = queued_bytes c'.

#[export] Instance same_queue_equiv : Equivalence same_queue.
Proof.
  unfold same_queue. split; [intros c | intros c c' | intros c c' c'']; naive_solver congruence.
Qed.

(** Managers that differ in tickets, statistics and waiters only. *)
Record same_accounts (m m' : Manager) : Prop := {
  same_config : config_ m = config_ m';
  same_limits : limits_ m = limits_ m';
  same_queues : class_queues_ m = class_queues_ m';
  same_tokens : class_state_ m = class_state_ m';
  same_business : business_queued_frames_ m = business_queued_frames_ m' /\
                  business_queued_bytes_ m = business_queued_bytes_ m';
  same_control : control_queued_frames_ m = control_queued_frames_ m' /\
                 control_queued_bytes_ m = control_queued_bytes_ m';
  same_channels : forall id, option_Forall2 same_queue (channels_ m !! id) (channels_ m' !! id);
}.

#[export] Instance same_accounts_equiv : Equivalence same_accounts.
Proof.
  split.
  - intros m. by constructor.
  - intros m m' []. constructor; first [done | naive_solver | intros id; by symmetry].
  - intros m m' m'' [] []. constructor;
      first [congruence | naive_solver congruence
            | intros id; etransitivity; [apply same_channels0 | apply same_channels1]].
Qed.

Lemma same_accounts_size m m' : same_accounts m m' -> msize (channels_ m) = msize (channels_ m').
Proof.
  intros H. unfold msize. rewrite <- !size_dom. do 2 f_equal. apply set_eq. intros id.
  rewrite !elem_of_dom. destruct (same_channels _ _ H id); split; intros [? ?]; eauto; done.
Qed.

Lemma same_accounts_wf m m' : same_accounts m m' -> manager_wf m -> manager_wf m'.
Proof.
  intros H Hwf. assert (Hs := same_accounts_size _ _ H). destruct H as [Hcfg Hl Hq Ht [Hbf Hbb] [Hcf Hcb] Hch].
  destruct Hwf. constructor; rewrite <- ?Hcfg, <- ?Hl, <- ?Hq, <- ?Ht, <- ?Hbf, <- ?Hbb, <- ?Hcf, <- ?Hcb;
    try done; [| | by rewrite <- Hs].
  - intros id c' Hc'. specialize (Hch id). rewrite Hc' in Hch. inversion Hch as [c ? Hsame Hc |]; subst.
    symmetry in Hc. specialize (wf_channels0 id c Hc). unfold channel_wf, same_queue in *.
    rewrite <- Hcfg, <- Hl, <- Hq. destruct Hsame as (<- & _ & <- & <- & <- & <- & <-). done.
  - eapply Forall_impl; [exact wf_homes0 |]. cbn. intros e He Hb.
    destruct (He Hb) as [c Hc]. specialize (Hch (queued_channel_id e)). rewrite Hc in Hch.
    inversion Hch. eauto.
Qed.

#[export] Instance manager_wf_proper : Proper (same_accounts ==> iff) manager_wf.
Proof. intros m m' H. split; apply same_accounts_wf; done || by symmetry. Qed.

Lemma set_waits_same m w n cs a log : same_accounts m (set_waits m w n cs a log).
Proof. by constructor. Qed.

Lemma set_channel_same m id c c' :
  channels_ m !! id = Some c -> same_queue c c' ->
  same_accounts m (set_channels m (<[id := c']> (channels_ m))).
Proof.
  intros Hc Hs. constructor; try done. intros id'. cbn.
  destruct (decide (id' = id)) as [-> |].
  - rewrite Hc, lookup_insert_eq. by constructor.
  - rewrite lookup_insert_ne by done. by destruct (channels_ m !! id'); constructor.
Qed.

Lemma set_channels_map_same m (f : ChannelState -> ChannelState) :
  (forall c, same_queue c (f c)) -> same_accounts m (set_channels m (f <$> channels_ m)).
Proof.
  intros Hf. constructor; try done. intros id. cbn. rewrite lookup_fmap.
  destruct (channels_ m !! id); constructor. apply Hf.
Qed.

Lemma complete_waiter_same m w r : same_accounts m (complete_waiter m w r).
Proof. unfold complete_waiter. repeat case_match; (done || apply set_waits_same). Qed.

Lemma complete_waiters_same m ws r : same_accounts m (foldl (fun m w => complete_waiter m w r) m ws).
Proof.
  revert m. induction ws as [| w ws IH]; intros m; cbn [foldl]; [done |].
  etransitivity; [| apply IH]. apply complete_waiter_same.
Qed.

Lemma complete_waiter_channels m w r : channels_ (complete_waiter m w r) = channels_ m.
Proof. unfold complete_waiter. by repeat case_match. Qed.

Lemma notify_loop_same id ws m : same_accounts m (notify_loop id ws m).
Proof.
  revert m. induction ws as [| w ws IH]; intros m; cbn [notify_loop];
    destruct (channels_ m !! id) as [c |] eqn:Hc; try done.
  destruct (_ && _); [| done]. cbv zeta. etransitivity; [| apply IH].
  etransitivity; [apply (set_channel_same m id c (set_channel_waiters c ws)); done |].
  etransitivity; [apply (complete_waiter_same _ w (success tt)) |].
  apply (set_channel_same (complete_waiter
    (set_channels m (<[id := set_channel_waiters c ws]> (channels_ m))) w (success tt)) id
    (set_channel_waiters c ws)); [| done].
  rewrite complete_waiter_channels. apply lookup_insert_eq.
Qed.

Lemma notify_capacity_same m id : same_accounts m (notify_capacity m id).
Proof. unfold notify_capacity. case_match; [apply notify_loop_same | done]. Qed.

Lemma detach_same m a : same_accounts m (detach m a).
Proof.
  unfold detach. destruct (controls m !! a) as [c |]; [| done]. cbv zeta.
  etransitivity; [| apply set_waits_same]. destruct (manager c).
  - unfold detach_waiter. etransitivity; [apply set_waits_same |].
    etransitivity; [apply set_waits_same |]. by apply set_channels_map_same.
  - apply set_waits_same.
Qed.

Lemma wait_for_capacity_same m id : same_accounts m (snd (wait_for_capacity m id)).
Proof.
  unfold wait_for_capacity. destruct (channels_ m !! id) as [c |] eqn:Hc; [| done].
  repeat case_match; cbn [snd]; try done; try apply set_waits_same.
  etransitivity; [apply set_waits_same |]. by eapply set_channel_same.
Qed.

(** ** Entering and leaving a queue *)

Lemma weigh_perm w q q' : q ≡ₚ q' -> weigh w q = weigh w q'.
Proof. induction 1; rewrite ?weigh_cons in *; lia. Qed.

Lemma entries_push k e b :
  all_entries (class_set k (class_get k b ++ [e]) b) ≡ₚ e :: all_entries b.
Proof. unfold all_entries. destruct k; cbn; solve_Permutation. Qed.

Lemma entries_push_front k e b :
  all_entries (class_set k (e :: class_get k b) b) ≡ₚ e :: all_entries b.
Proof. unfold all_entries. destruct k; cbn; solve_Permutation. Qed.

Lemma entries_pop k e q b :
  class_get k b = e :: q -> all_entries b ≡ₚ e :: all_entries (class_set k q b).
Proof. unfold all_entries. destruct k; cbn; intros ->; solve_Permutation. Qed.

Lemma budget_bounds c :
  validate_channel_budget_config c = success tt ->
  max_open_channels c <= 1024 /\
  control_reserved_frames c <= per_peer_queued_frames c <= 65536 /\
  control_reserved_bytes c <= per_peer_queued_bytes c <= 2 ^ 28 /\
  max_channel_queued_frames c <= 65536 /\ max_channel_queued_bytes c <= 2 ^ 28.
Proof. unfold validate_channel_budget_config. intros H. inv_result H. lia. Qed.

(** The members of a manager that the accounting of a queued frame moves. *)
Definition moved_only (m m' : Manager) : Prop :=
  config_ m' = config_ m /\ limits_ m' = limits_ m /\
  (forall k, 0 <= class_get k (class_state_ m') <= frame_class_weight k) /\
  (forall k, Forall (fun e => frame_class e = k) (class_get k (class_queues_ m'))).

Lemma size_of_sized limits e : sized_entry limits e -> 0 < size_of limits e < 2 ^ 33.
Proof. unfold size_of. intros [n Hn]. rewrite Hn. by apply frame_wire_size_some in Hn. Qed.

Lemma only_true p w e : p e = true -> only p w e = w e.
Proof. unfold only. by intros ->. Qed.

Lemma only_false p w e : p e = false -> only p w e = 0.
Proof. unfold only. by intros ->. Qed.

Lemma business_of_control id e : is_control e = true -> business_of id e = false.
Proof. unfold business_of, business. by intros ->. Qed.

Lemma business_of_home e : is_control e = false -> business_of (queued_channel_id e) e = true.
Proof. unfold business_of, business. intros ->. cbn. apply Z.eqb_refl. Qed.

Lemma business_of_other id e : id <> queued_channel_id e -> business_of id e = false.
Proof. unfold business_of. intros H. apply andb_false_intro2. lia. Qed.

Lemma channel_wf_transport m m' id c :
  config_ m' = config_ m -> limits_ m' = limits_ m ->
  weigh (only (business_of id) one) (entries m') = weigh (only (business_of id) one) (entries m) ->
  weigh (only (business_of id) (size_of (limits_ m))) (entries m') =
  weigh (only (business_of id) (size_of (limits_ m))) (entries m) ->
  channel_wf m id c -> channel_wf m' id c.
Proof. unfold channel_wf. intros -> -> -> ->. done. Qed.

(** A control frame enters. *)
Lemma wf_add_control m m' e :
  manager_wf m -> moved_only m m' -> is_control e = true -> sized_entry (limits_ m) e ->
  entries m' ≡ₚ e :: entries m -> channels_ m' = channels_ m ->
  business_queued_frames_ m' = business_queued_frames_ m ->
  business_queued_bytes_ m' = business_queued_bytes_ m ->
  control_queued_frames_ m' = control_queued_frames_ m + 1 ->
  control_queued_bytes_ m' = control_queued_bytes_ m + size_of (limits_ m) e ->
  control_queued_frames_ m' <= control_reserved_frames (config_ m) ->
  control_queued_bytes_ m' <= control_reserved_bytes (config_ m) ->
  manager_wf m'.
Proof.
  intros [] (Hcfg & Hl & Ht & Hk) He Hsz Hp Hch Hbf Hbb Hcf Hcb Hb1 Hb2.
  assert (Hbus : business e = false) by (unfold business; by rewrite He).
  constructor; rewrite ?Hcfg, ?Hl, ?Hch; try done.
  - rewrite Hp. by constructor.
  - rewrite (weigh_perm _ _ _ Hp), weigh_cons, only_false by done. lia.
  - rewrite (weigh_perm _ _ _ Hp), weigh_cons, only_false by done. lia.
  - lia.
  - lia.
  - rewrite (weigh_perm _ _ _ Hp), weigh_cons, only_true by done. unfold one at 1. lia.
  - rewrite (weigh_perm _ _ _ Hp), weigh_cons, only_true by done. lia.
  - intros id c Hc. eapply channel_wf_transport; [done | done | | | by apply wf_channels0];
      rewrite (weigh_perm _ _ _ Hp), weigh_cons, only_false by (by apply business_of_control); lia.
  - rewrite Hp. constructor; [by rewrite He | done].
Qed.

(** A business frame enters the queue of its channel. *)
Lemma wf_add_business m m' e c c' :
  manager_wf m -> moved_only m m' -> is_control e = false -> sized_entry (limits_ m) e ->
  entries m' ≡ₚ e :: entries m ->
  channels_ m !! queued_channel_id e = Some c ->
  channels_ m' = <[queued_channel_id e := c']> (channels_ m) ->
  same_queue (set_channel_queue c (queued_frames c + 1) (queued_bytes c + size_of (limits_ m) e)) c' ->
  business_queued_frames_ m' = business_queued_frames_ m + 1 ->
  business_queued_bytes_ m' = business_queued_bytes_ m + size_of (limits_ m) e ->
  control_queued_frames_ m' = control_queued_frames_ m ->
  control_queued_bytes_ m' = control_queued_bytes_ m ->
  business_queued_frames_ m' <= per_peer_queued_frames (config_ m) ->
  business_queued_bytes_ m' <= per_peer_queued_bytes (config_ m) ->
  queued_frames c' <= queued_frame_capacity c' -> queued_bytes c' <= queued_byte_capacity c' ->
  manager_wf m'.
Proof.
  intros [] (Hcfg & Hl & Ht & Hk) He Hsz Hp Hc Hch Hsame Hbf Hbb Hcf Hcb Hb1 Hb2 Hq1 Hq2.
  assert (Hbus : business e = true) by (unfold business; by rewrite He).
  constructor; rewrite ?Hcfg, ?Hl, ?Hch; try done.
  - rewrite Hp. by constructor.
  - rewrite (weigh_perm _ _ _ Hp), weigh_cons, only_true by done. unfold one at 1. lia.
  - rewrite (weigh_perm _ _ _ Hp), weigh_cons, only_true by done. lia.
  - rewrite (weigh_perm _ _ _ Hp), weigh_cons, only_false by done. lia.
  - rewrite (weigh_perm _ _ _ Hp), weigh_cons, only_false by done. lia.
  - intros id d. rewrite lookup_insert_Some. intros [[<- <-] | [Hne Hd]].
    + assert (Hw := wf_channels0 _ _ Hc). unfold channel_wf in *.
      destruct Hsame as (E1 & E2 & E3 & E4 & E5 & E6 & E7). cbn in *.
      rewrite Hcfg, Hl, !(weigh_perm _ _ _ Hp), !weigh_cons, !only_true by (by apply business_of_home).
      unfold one at 1. rewrite <- E1, <- E3, <- E4, <- E5, <- E6, <- E7 in *. split_and!; try tauto; lia.
    + eapply channel_wf_transport; [done | done | | | by apply wf_channels0];
        rewrite (weigh_perm _ _ _ Hp), weigh_cons, only_false by (by apply business_of_other); lia.
  - rewrite Hp. constructor; [intros _; rewrite lookup_insert_eq; eauto |].
    eapply Forall_impl; [exact wf_homes0 |]. cbn. intros e' He' Hb. specialize (He' Hb).
    rewrite lookup_insert_is_Some. destruct (decide (queued_channel_id e = queued_channel_id e')); auto.
  - by rewrite (msize_insert_old _ _ _ _ Hc).
Qed.

Lemma only_nonneg limits p q :
  Forall (sized_entry limits) q ->
  0 <= weigh (only p one) q /\ 0 <= weigh (only p (size_of limits)) q.
Proof.
  induction 1 as [| e q He _ IH]; [done |]. rewrite !weigh_cons.
  apply size_of_sized in He. unfold only at 1 3, one at 1. destruct (p e); lia.
Qed.

(** A control frame leaves. *)
Lemma wf_remove_control m m' e :
  manager_wf m -> moved_only m m' -> is_control e = true ->
  entries m ≡ₚ e :: entries m' -> channels_ m' = channels_ m ->
  business_queued_frames_ m' = business_queued_frames_ m ->
  business_queued_bytes_ m' = business_queued_bytes_ m ->
  control_queued_frames_ m' = control_queued_frames_ m - 1 ->
  control_queued_bytes_ m' = control_queued_bytes_ m - size_of (limits_ m) e ->
  manager_wf m'.
Proof.
  intros [] (Hcfg & Hl & Ht & Hk) He Hp Hch Hbf Hbb Hcf Hcb.
  assert (Hbus : business e = false) by (unfold business; by rewrite He).
  assert (Hszs := wf_sized0). rewrite Hp in Hszs. inversion Hszs as [| ? ? Hsz Hszs']; subst.
  apply size_of_sized in Hsz.
  rewrite (weigh_perm _ _ _ Hp), weigh_cons, only_false in wf_frames0 by done.
  rewrite (weigh_perm _ _ _ Hp), weigh_cons, only_false in wf_bytes0 by done.
  rewrite (weigh_perm _ _ _ Hp), weigh_cons, only_true in wf_control_frames0 by done.
  rewrite (weigh_perm _ _ _ Hp), weigh_cons, only_true in wf_control_bytes0 by done.
  unfold one at 1 in wf_control_frames0.
  constructor; rewrite ?Hcfg, ?Hl, ?Hch; try done; try lia.
  - intros id c Hc. eapply channel_wf_transport; [done | done | | | by apply wf_channels0];
      rewrite (weigh_perm _ _ _ Hp), weigh_cons, only_false by (by apply business_of_control); lia.
  - rewrite Hp in wf_homes0. by inversion wf_homes0.
Qed.

(** A business frame leaves the queue of its channel. *)
Lemma wf_remove_business m m' e c c' :
  manager_wf m -> moved_only m m' -> is_control e = false ->
  entries m ≡ₚ e :: entries m' ->
  channels_ m !! queued_channel_id e = Some c ->
  channels_ m' = <[queued_channel_id e := c']> (channels_ m) ->
  same_queue (set_channel_queue c (queued_frames c - 1) (queued_bytes c - size_of (limits_ m) e)) c' ->
  business_queued_frames_ m' = business_queued_frames_ m - 1 ->
  business_queued_bytes_ m' = business_queued_bytes_ m - size_of (limits_ m) e ->
  control_queued_frames_ m' = control_queued_frames_ m ->
  control_queued_bytes_ m' = control_queued_bytes_ m ->
  manager_wf m'.
Proof.
  intros [] (Hcfg & Hl & Ht & Hk) He Hp Hc Hch Hsame Hbf Hbb Hcf Hcb.
  assert (Hbus : business e = true) by (unfold business; by rewrite He).
  assert (Hszs := wf_sized0). rewrite Hp in Hszs. inversion Hszs as [| ? ? Hsz Hszs']; subst.
  apply size_of_sized in Hsz.
  rewrite (weigh_perm _ _ _ Hp), weigh_cons, only_true in wf_frames0 by done.
  rewrite (weigh_perm _ _ _ Hp), weigh_cons, only_true in wf_bytes0 by done.
  rewrite (weigh_perm _ _ _ Hp), weigh_cons, only_false in wf_control_frames0 by done.
  rewrite (weigh_perm _ _ _ Hp), weigh_cons, only_false in wf_control_bytes0 by done.
  unfold one at 1 in wf_frames0.
  constructor; rewrite ?Hcfg, ?Hl, ?Hch; try done; try lia.
  - intros id d. rewrite lookup_insert_Some. intros [[<- <-] | [Hne Hd]].
    + assert (Hw := wf_channels0 _ _ Hc). unfold channel_wf in *.
      destruct Hsame as (E1 & E2 & E3 & E4 & E5 & E6 & E7). cbn in *.
      rewrite !(weigh_perm _ _ _ Hp), !weigh_cons, !only_true in Hw by (by apply business_of_home).
      unfold one at 1 in Hw. rewrite Hcfg, Hl, <- E1, <- E3, <- E4, <- E5, <- E6, <- E7 in *.
      split_and!; try tauto; lia.
    + eapply channel_wf_transport; [done | done | | | by apply wf_channels0];
        rewrite (weigh_perm _ _ _ Hp), weigh_cons, only_false by (by apply business_of_other); lia.
  - rewrite Hp in wf_homes0. inversion wf_homes0 as [| ? ? _ Hh]; subst.
    eapply Forall_impl; [exact Hh |]. cbn. intros e' He' Hb. specialize (He' Hb).
    rewrite lookup_insert_is_Some. destruct (decide (queued_channel_id e = queued_channel_id e')); auto.
  - by rewrite (msize_insert_old _ _ _ _ Hc).
Qed.

(** What the counters of a queued frame are worth. *)
Lemma wf_counts m e :
  manager_wf m -> e ∈ entries m ->
  0 < size_of (limits_ m) e /\
  if is_control e then
    1 <= control_queued_frames_ m < 2 ^ 64 /\ size_of (limits_ m) e <= control_queued_bytes_ m
  else
    1 <= business_queued_frames_ m < 2 ^ 64 /\ size_of (limits_ m) e <= business_queued_bytes_ m /\
    exists c, channels_ m !! queued_channel_id e = Some c /\
              1 <= queued_frames c < 2 ^ 64 /\ size_of (limits_ m) e <= queued_bytes c.
Proof.
  intros Hwf (q1 & q2 & Hq)%list_elem_of_split. destruct Hwf.
  assert (Hbb := budget_bounds _ wf_config0).
  assert (Hp : entries m ≡ₚ e :: q1 ++ q2) by (rewrite Hq; solve_Permutation).
  assert (Hszs := wf_sized0). rewrite Hp in Hszs. inversion Hszs as [| ? ? Hsz Hszs']; subst.
  apply size_of_sized in Hsz. split; [lia |].
  assert (Hn := fun p => only_nonneg (limits_ m) p _ Hszs').
  destruct (is_control e) eqn:He.
  - rewrite (weigh_perm _ _ _ Hp), weigh_cons, only_true in wf_control_frames0 by done.
    rewrite (weigh_perm _ _ _ Hp), weigh_cons, only_true in wf_control_bytes0 by done.
    unfold one at 1 in wf_control_frames0. specialize (Hn is_control). lia.
  - assert (Hbus : business e = true) by (unfold business; by rewrite He).
    rewrite (weigh_perm _ _ _ Hp), weigh_cons, only_true in wf_frames0 by done.
    rewrite (weigh_perm _ _ _ Hp), weigh_cons, only_true in wf_bytes0 by done.
    unfold one at 1 in wf_frames0. assert (Hb := Hn business). split_and!; [lia | lia | lia |].
    rewrite Hp in wf_homes0. inversion wf_homes0 as [| ? ? Hh _]; subst.
    destruct (Hh He) as [c Hc]. exists c. split; [done |].
    assert (Hw := wf_channels0 _ _ Hc). unfold channel_wf in Hw. destruct Hw as (_ & _ & _ & H1 & H2 & H3 & _).
    rewrite (weigh_perm _ _ _ Hp), weigh_cons, only_true in H1 by (by apply business_of_home).
    rewrite (weigh_perm _ _ _ Hp), weigh_cons, only_true in H2 by (by apply business_of_home).
    unfold one at 1 in H1. specialize (Hn (business_of (queued_channel_id e))). lia.
Qed.

(** ** Sending *)

Lemma notify_loop_channels id ws m c :
  channels_ m !! id = Some c ->
  exists c', channels_ (notify_loop id ws m) = <[id := c']> (channels_ m) /\ same_queue c c'.
Proof.
  revert m c. induction ws as [| w ws IH]; intros m c Hc; cbn [notify_loop]; rewrite Hc.
  { exists c. by rewrite insert_id. }
  destruct (_ && _); [| exists c; by rewrite insert_id]. cbv zeta.
  set (m1 := set_channels (complete_waiter _ _ _) _).
  assert (Hm1 : channels_ m1 = <[id := set_stats (set_channel_waiters c ws) (count_wait (stats c))]> (channels_ m)).
  { unfold m1. cbn [channels_ set_channels]. rewrite complete_waiter_channels. cbn. by rewrite insert_insert_eq. }
  destruct (IH m1 (set_stats (set_channel_waiters c ws) (count_wait (stats c)))) as (c' & Hc' & Hs).
  { rewrite Hm1. apply lookup_insert_eq. }
  exists c'. rewrite Hc', Hm1, insert_insert_eq. split; [done |]. by etransitivity; [| exact Hs].
Qed.

(** The frame [e] left [m] for [m']. *)
Definition released (m m' : Manager) (e : QueuedSendFrame) : Prop :=
  config_ m' = config_ m /\ limits_ m' = limits_ m /\ class_queues_ m' = class_queues_ m /\
  class_state_ m' = class_state_ m /\
  if is_control e then
    channels_ m' = channels_ m /\
    business_queued_frames_ m' = business_queued_frames_ m /\
    business_queued_bytes_ m' = business_queued_bytes_ m /\
    control_queued_frames_ m' = control_queued_frames_ m - 1 /\
    control_queued_bytes_ m' = control_queued_bytes_ m - size_of (limits_ m) e
  else
    control_queued_frames_ m' = control_queued_frames_ m /\
    control_queued_bytes_ m' = control_queued_bytes_ m /\
    business_queued_frames_ m' = business_queued_frames_ m - 1 /\
    business_queued_bytes_ m' = business_queued_bytes_ m - size_of (limits_ m) e /\
    exists c c', channels_ m !! queued_channel_id e = Some c /\
      channels_ m' = <[queued_channel_id e := c']> (channels_ m) /\
      same_queue (set_channel_queue c (queued_frames c - 1) (queued_bytes c - size_of (limits_ m) e)) c'.

Lemma u64_pred x : 1 <= x < 2 ^ 64 -> u64 (x - 1) = x - 1.
Proof. intros. apply u64_small. lia. Qed.

Lemma uncharge_released m0 m e size :
  manager_wf m0 -> e ∈ entries m0 ->
  config_ m = config_ m0 -> limits_ m = limits_ m0 -> channels_ m = channels_ m0 ->
  business_queued_frames_ m = business_queued_frames_ m0 ->
  business_queued_bytes_ m = business_queued_bytes_ m0 ->
  control_queued_frames_ m = control_queued_frames_ m0 ->
  control_queued_bytes_ m = control_queued_bytes_ m0 ->
  frame_wire_size (queued_frame e) (limits_ m) = Some size ->
  released m (uncharge m e size) e.
Proof.
  intros Hwf He Hcfg Hl Hch Hbf Hbb Hcf Hcb Hsize.
  assert (Hs : size_of (limits_ m) e = size) by (unfold size_of; by rewrite Hsize).
  assert (Hc := wf_counts _ _ Hwf He). rewrite <- Hl, Hs in Hc. destruct Hc as [Hpos Hc].
  unfold released, uncharge, is_control in *. case_bool_decide.
  - cbn. rewrite Hcf, Hcb, u64_pred, Hs by lia. split_and!; try done; lia.
  - destruct Hc as (Hf & Hb & c & Hc & Hqf & Hqb). rewrite <- Hch in Hc. rewrite Hc.
    set (c1 := set_stats _ _). set (m1 := set_channels m _).
    assert (Hm1 : channels_ m1 !! queued_channel_id e = Some c1) by apply lookup_insert_eq.
    assert (Hn : exists m2 c', m2 = match waiters c1 with [] => m1 | _ :: _ => notify_capacity m1 (queued_channel_id e) end
              /\ same_accounts m1 m2 /\ channels_ m2 = <[queued_channel_id e := c']> (channels_ m1) /\ same_queue c1 c').
    { destruct (waiters c1) as [| w ws] eqn:Hw.
      - exists m1, c1. by rewrite insert_id.
      - destruct (notify_loop_channels (queued_channel_id e) (waiters c1) m1 c1 Hm1) as (c' & Hc' & Hsq).
        exists (notify_capacity m1 (queued_channel_id e)), c'. split; [done |].
        split; [apply notify_capacity_same |]. unfold notify_capacity. by rewrite Hm1. }
    destruct Hn as (m2 & c' & <- & Hsame & Hm2 & Hsq).
    destruct Hsame as [S1 S2 S3 S4 [S5 S6] [S7 S8] _]. cbn in S1, S2, S3, S4, S5, S6, S7, S8. cbn.
    rewrite <- S1, <- S2, <- S3, <- S4, <- S5, <- S6, <- S7, <- S8. clear S1 S2 S3 S4 S5 S6 S7 S8.
    rewrite Hbf, Hbb, u64_pred, Hs by lia. split_and!; try done; [lia |].
    exists c, c'. split; [done |]. split; [by rewrite Hm2; cbn; rewrite insert_insert_eq |].
    etransitivity; [| exact Hsq]. unfold c1, same_queue. cbn. rewrite u64_pred by lia. split_and!; try done. lia.
Qed.

(** A class from which the loop of [next_to_send] cannot send. *)
Definition idle (m : Manager) (k : FrameClass) : Prop :=
  class_get k (class_queues_ m) = [] \/ class_get k (class_state_ m) = 0.

(** The manager between taking the head of class [k] and settling its counters. *)
Definition popped (m : Manager) (k : FrameClass) (q : list QueuedSendFrame) : Manager :=
  set_tokens (set_queues m (class_set k q (class_queues_ m)))
    (class_set k (class_get k (class_state_ m) - 1) (class_state_ m)).

(** [e] was sent from the head of class [k]. *)
Record sent_from (m m' : Manager) (k : FrameClass) (e : QueuedSendFrame) (q : list QueuedSendFrame)
    : Prop := {
  sent_head : class_get k (class_queues_ m) = e :: q;
  sent_token : 0 < class_get k (class_state_ m);
  sent_release : released (popped m k q) m' e;
}.

Lemma pick_cases m ks :
  manager_wf m ->
  (pick m ks = Some (None, m) /\ Forall (idle m) ks) \/
  exists ks1 k ks2 e q m',
    ks = ks1 ++ k :: ks2 /\ Forall (idle m) ks1 /\
    pick m ks = Some (Some e, m') /\ sent_from m m' k e q.
Proof.
  intros Hwf. induction ks as [| k ks IH]; [by left |]. cbn [pick].
  destruct (class_get k (class_queues_ m)) as [| e q] eqn:Hq.
  { destruct IH as [[-> Hi] | (ks1 & k' & ks2 & e & q & m' & -> & Hi & -> & Hs)].
    - left. split; [done |]. constructor; [by left | done].
    - right. exists (k :: ks1), k', ks2, e, q, m'. split; [done |]. split; [| done].
      constructor; [by left | done]. }
  destruct (Z.eqb_spec (class_get k (class_state_ m)) 0) as [Ht | Ht].
  { destruct IH as [[-> Hi] | (ks1 & k' & ks2 & e' & q' & m' & -> & Hi & -> & Hs)].
    - left. split; [done |]. constructor; [by right | done].
    - right. exists (k :: ks1), k', ks2, e', q', m'. split; [done |]. split; [| done].
      constructor; [by right | done]. }
  right. assert (He : e ∈ entries m) by (rewrite (entries_pop _ _ _ _ Hq); left).
  assert (Hsz : sized_entry (limits_ m) e) by (by eapply Forall_forall in He; [| apply wf_sized]).
  destruct Hsz as [size Hsize]. cbn [limits_ set_tokens set_queues]. rewrite Hsize.
  exists [], k, ks, e, q. eexists. split; [done |]. split; [constructor |]. split; [done |].
  constructor; [done | pose proof (wf_tokens m Hwf k); lia |].
  apply (uncharge_released m (popped m k q)); done.
Qed.

Lemma released_wf m m' k e q : manager_wf m -> sent_from m m' k e q -> manager_wf m'.
Proof.
  intros Hwf [Hq Ht (Hcfg & Hl & Hqs & Htk & Hrel)]. cbn in Hcfg, Hl, Hqs, Htk, Hrel.
  assert (Hp := entries_pop _ _ _ _ Hq). rewrite <- Hqs in Hp.
  assert (Hm : moved_only m m').
  { split_and!; [done | done | |]; intros k'.
    - rewrite Htk, class_get_set. assert (Hk' := wf_tokens m Hwf k'). case_decide; [subst; lia | done].
    - rewrite Hqs, class_get_set. assert (Hk' := wf_classed m Hwf k'). case_decide; [| done].
      subst. rewrite Hq in Hk'. by inversion Hk'. }
  destruct (is_control e) eqn:He.
  - destruct Hrel as (H1 & H2 & H3 & H4 & H5). by eapply wf_remove_control.
  - destruct Hrel as (H1 & H2 & H3 & H4 & c & c' & H5 & H6 & H7). by eapply wf_remove_business.
Qed.

(** Somebody can be served once the tokens are full again. *)
Lemma has_sendable_spec m :
  has_sendable_frames m = true <-> exists k, class_get k (class_queues_ m) <> [].
Proof.
  unfold has_sendable_frames, classes. rewrite existsb_exists. split.
  - intros (k & _ & Hk). exists k. by destruct (class_get k (class_queues_ m)).
  - intros (k & Hk). exists k. split; [destruct k; cbn; tauto |]. by destruct (class_get k (class_queues_ m)).
Qed.

Lemma entries_empty b : (forall k, class_get k b = []) -> all_entries b = [].
Proof.
  intros H. assert (H1 := H FrameClass.control). assert (H2 := H FrameClass.interactive).
  assert (H3 := H FrameClass.standard). assert (H4 := H FrameClass.bulk). cbn in *.
  unfold all_entries. by rewrite H1, H2, H3, H4.
Qed.

Lemma refill_wf m : manager_wf m -> manager_wf (refill_tokens m).
Proof. intros []. constructor; try done. by intros []. Qed.

Lemma classes_all k : k ∈ classes.
Proof. destruct k; unfold classes; set_solver. Qed.

(** The manager whose tokens the choice was made with: [m] itself, or [m] with
    full tokens when no class could send. *)
Definition served (m m0 : Manager) : Prop :=
  m0 = m \/ (m0 = refill_tokens m /\ forall k, idle m k).

Lemma next_to_send_fuel_spec fuel m :
  manager_wf m -> (2 <= fuel)%nat ->
  (next_to_send_fuel fuel m = Some (None, m) /\ entries m = []) \/
  exists m0 ks1 k ks2 e q m',
    served m m0 /\ classes = ks1 ++ k :: ks2 /\ Forall (idle m0) ks1 /\
    next_to_send_fuel fuel m = Some (Some e, m') /\ sent_from m0 m' k e q.
Proof.
  intros Hwf Hf. destruct fuel as [| [| fuel]]; [lia | lia |]. cbn [next_to_send_fuel].
  destruct (pick_cases m classes Hwf) as [[-> Hidle] | (ks1 & k & ks2 & e & q & m' & Hc & Hi & -> & Hs)].
  2: { right. exists m, ks1, k, ks2, e, q, m'. by split; [left |]. }
  destruct (has_sendable_frames m) eqn:Hh; cbn [negb].
  2: { left. split; [done |]. assert (Hn : ~ exists k, class_get k (class_queues_ m) <> [])
         by (rewrite <- has_sendable_spec; congruence).
       assert (He : forall k, class_get k (class_queues_ m) = []).
       { intros k. destruct (class_get k (class_queues_ m)) eqn:E; [done |]. exfalso. apply Hn. exists k. congruence. }
       by apply entries_empty. }
  right. destruct (pick_cases (refill_tokens m) classes (refill_wf m Hwf))
    as [[_ Hidle'] | (ks1 & k & ks2 & e & q & m' & Hc & Hi & -> & Hs)].
  - exfalso. apply has_sendable_spec in Hh as [k Hk].
    eapply Forall_forall in Hidle'; [| apply (classes_all k)].
    destruct Hidle' as [H0 | H0]; [done |]. by destruct k.
  - exists (refill_tokens m), ks1, k, ks2, e, q, m'. split; [| done]. right. split; [done |].
    intros k'. eapply Forall_forall in Hidle; [exact Hidle | apply classes_all].
Qed.

Lemma served_wf m m0 : manager_wf m -> served m m0 -> manager_wf m0.
Proof. intros Hwf [-> | [-> _]]; [done | by apply refill_wf]. Qed.

(** Putting back the frame that was just taken. *)
Lemma return_wf m m' k e q :
  manager_wf m -> sent_from m m' k e q ->
  exists m'', return_to_send m' e = Some m'' /\ manager_wf m'' /\
    entries m'' ≡ₚ entries m /\ class_state_ m'' = class_state_ m'.
Proof.
  intros Hwf Hsent. assert (Hwf' := released_wf _ _ _ _ _ Hwf Hsent).
  destruct Hsent as [Hq Ht (Hcfg & Hl & Hqs & Htk & Hrel)]. cbn in Hcfg, Hl, Hqs, Htk, Hrel.
  assert (Hp := entries_pop _ _ _ _ Hq).
  assert (He : e ∈ entries m) by (rewrite Hp; left).
  assert (Hsz : sized_entry (limits_ m) e) by (eapply Forall_forall in He; [exact He | by apply wf_sized]).
  assert (Hk : frame_class e = k).
  { assert (Hf := wf_classed m Hwf k). rewrite Hq in Hf. by inversion Hf. }
  assert (Hcnt := wf_counts _ _ Hwf He). destruct Hcnt as [Hpos Hcnt].
  assert (Hbb := budget_bounds _ (wf_config m Hwf)).
  assert (Hsz' := Hsz). destruct Hsz' as [size Hsize]. unfold return_to_send. rewrite Hl, Hsize.
  assert (Hs : size_of (limits_ m) e = size) by (unfold size_of; by rewrite Hsize). rewrite Hs in *.
  assert (Hmov : forall m1, class_state_ m1 = class_state_ m' ->
      config_ m1 = config_ m' -> limits_ m1 = limits_ m' ->
      moved_only m' (set_queues m1 (class_set (frame_class e)
        (e :: class_get (frame_class e) (class_queues_ m')) (class_queues_ m')))).
  { intros m1 E2 E3 E4. split_and!; [done | done | |]; cbn.
    - intros k'. rewrite E2. by apply wf_tokens.
    - intros k'. rewrite class_get_set. assert (Hf := wf_classed m' Hwf' k').
      case_decide; [subst k' | done]. by constructor. }
  eexists. split; [done |]. unfold is_control in *. case_bool_decide.
  - destruct Hrel as (R1 & R2 & R3 & R4 & R5). destruct (wf_control_frames m Hwf), (wf_control_bytes m Hwf).
    split; [| split; [| done]].
    + eapply (wf_add_control m' _ e); cbn; rewrite ?Hl, ?Hs; try done.
      * by apply Hmov.
      * unfold is_control. by case_bool_decide.
      * apply entries_push_front.
      * rewrite u64_small; lia.
      * rewrite u64_small; lia.
      * rewrite Hcfg, u64_small; lia.
      * rewrite Hcfg, u64_small; lia.
    + cbn. rewrite entries_push_front, Hqs. by symmetry.
  - destruct Hrel as (R1 & R2 & R3 & R4 & c & c' & R5 & R6 & R7).
    destruct Hcnt as (C1 & C2 & cc & C3 & C4 & C5). rewrite R5 in C3. injection C3 as <-.
    assert (Hcw := wf_channels m Hwf _ _ R5). destruct Hcw as (_ & _ & _ & _ & _ & W1 & W2).
    destruct R7 as (E1 & E2 & E3 & E4 & E5 & E6 & E7). cbn in E1, E2, E3, E4, E5, E6, E7.
    assert (Hbf := wf_peer_frames m Hwf). assert (Hby := wf_peer_bytes m Hwf).
    rewrite R6, lookup_insert_eq. split; [| split; [| done]].
    + eapply (wf_add_business m' _ e c'); cbn; rewrite ?R6, ?Hl, ?Hs; try done.
      * by apply Hmov.
      * unfold is_control. by case_bool_decide.
      * apply entries_push_front.
      * apply lookup_insert_eq.
      * unfold same_queue. cbn. rewrite <- E6, <- E7, !u64_small by lia. done.
      * rewrite u64_small; lia.
      * rewrite u64_small; lia.
      * rewrite Hcfg, u64_small; lia.
      * rewrite Hcfg, u64_small; lia.
      * cbn. rewrite u64_small; lia.
      * cbn. rewrite u64_small; lia.
    + cbn. rewrite entries_push_front, Hqs. by symmetry.
Qed.

(** ** Dropping the frames of a channel *)

Lemma weigh_drop_business w id b :
  weigh (only business w) (all_entries b) =
  weigh (only business w) (all_entries (class_map (drop_channel_frames id) b)) +
  weigh (only (business_of id) w) (all_entries b).
Proof.
  rewrite weigh_entries_drop. induction (all_entries b) as [| e q IH]; [done |]. rewrite !weigh_cons.
  unfold only at 1 3 5, business_of at 1. destruct (business e), (queued_channel_id e =? id); cbn [andb]; lia.
Qed.

Lemma weigh_drop_other w id id' b :
  id' <> id ->
  weigh (only (business_of id') w) (all_entries (class_map (drop_channel_frames id) b)) =
  weigh (only (business_of id') w) (all_entries b).
Proof.
  intros Hne. rewrite weigh_entries_drop. apply weigh_ext, Forall_true. intros e.
  destruct (Z.eqb_spec (queued_channel_id e) id) as [He |]; [| done].
  rewrite only_false; [done |]. apply business_of_other. congruence.
Qed.

Lemma weigh_drop_self w id b :
  weigh (only (business_of id) w) (all_entries (class_map (drop_channel_frames id) b)) = 0.
Proof.
  rewrite weigh_entries_drop. apply weigh_zero, Forall_true. intros e.
  destruct (Z.eqb_spec (queued_channel_id e) id) as [He |]; [done |].
  apply only_false, business_of_other. congruence.
Qed.

Lemma weigh_drop_le w p id b :
  Forall (fun e => 0 <= w e) (all_entries b) ->
  weigh (only p w) (all_entries (class_map (drop_channel_frames id) b))
    <= weigh (only p w) (all_entries b).
Proof.
  rewrite weigh_entries_drop. induction 1 as [| e q He _ IH]; [done |]. rewrite !weigh_cons.
  unfold only at 1 3. destruct (queued_channel_id e =? id), (p e); lia.
Qed.

Lemma Forall_drop_entries (P : QueuedSendFrame -> Prop) id b :
  Forall P (all_entries b) ->
  Forall (fun e => P e /\ queued_channel_id e <> id) (all_entries (class_map (drop_channel_frames id) b)).
Proof.
  rewrite !Forall_entries. intros H k. rewrite class_get_map. unfold drop_channel_frames.
  apply Forall_forall. intros e [Hne He]%list_elem_of_filter. split; [| done].
  by eapply Forall_forall in He; [| apply (H k)].
Qed.

Lemma wf_drop m m' id c o :
  manager_wf m -> channels_ m !! id = Some c ->
  config_ m' = config_ m -> limits_ m' = limits_ m -> class_state_ m' = class_state_ m ->
  class_queues_ m' = class_map (drop_channel_frames id) (class_queues_ m) ->
  channels_ m' = partial_alter (fun _ => o) id (channels_ m) ->
  (forall c', o = Some c' -> same_queue (set_channel_queue c 0 0) c') ->
  business_queued_frames_ m' = business_queued_frames_ m - queued_frames c ->
  business_queued_bytes_ m' = business_queued_bytes_ m - queued_bytes c ->
  control_queued_frames_ m' = control_queued_frames_ m ->
  control_queued_bytes_ m' = control_queued_bytes_ m ->
  manager_wf m'.
Proof.
  intros Hwf Hc Hcfg Hl Htk Hqs Hch Ho Hbf Hbb Hcf Hcb.
  assert (Hcw := wf_channels m Hwf _ _ Hc). destruct Hcw as (C1 & C2 & C3 & C4 & C5 & C6 & C7).
  destruct Hwf. assert (Hn := only_nonneg _ (business_of id) _ wf_sized0).
  assert (Hw1 : Forall (fun e => 0 <= one e) (entries m)) by (by apply Forall_true).
  assert (Hw2 : Forall (fun e => 0 <= size_of (limits_ m) e) (entries m)).
  { eapply Forall_impl; [exact wf_sized0 |]. intros e He%size_of_sized. lia. }
  constructor; rewrite ?Hcfg, ?Hl, ?Htk, ?Hch; try done.
  - rewrite Hqs. eapply Forall_impl; [exact (Forall_drop_entries _ id _ wf_sized0) | by intros ? []].
  - intros k. rewrite Hqs, class_get_map. unfold drop_channel_frames.
    apply Forall_forall. intros e [_ He]%list_elem_of_filter. by eapply Forall_forall in He; [| apply (wf_classed0 k)].
  - rewrite Hqs. rewrite (weigh_drop_business _ id) in wf_frames0. lia.
  - rewrite Hqs. rewrite (weigh_drop_business _ id) in wf_bytes0. lia.
  - lia.
  - lia.
  - rewrite Hqs. assert (H := weigh_drop_le one is_control id _ Hw1). lia.
  - rewrite Hqs. assert (H := weigh_drop_le _ is_control id _ Hw2). lia.
  - intros id' d. rewrite lookup_partial_alter_Some. intros [[<- Hd] | [Hne Hd]].
    + destruct (Ho d Hd) as (E1 & _ & E3 & E4 & E5 & E6 & E7). cbn in *. unfold channel_wf.
      rewrite Hqs, !weigh_drop_self, Hcfg, <- E1, <- E3, <- E4, <- E5, <- E6, <- E7.
      split_and!; try done; lia.
    + eapply channel_wf_transport; [done | done | | | by apply wf_channels0];
        rewrite Hqs; by apply weigh_drop_other.
  - rewrite Hqs. eapply Forall_impl; [exact (Forall_drop_entries _ id _ wf_homes0) |].
    cbn. intros e [He Hne] Hb. rewrite lookup_partial_alter_ne by done. by apply He.
  - destruct o as [c' |].
    + change (partial_alter _ id (channels_ m)) with (<[id := c']> (channels_ m)).
      by rewrite (msize_insert_old _ _ _ _ Hc).
    + change (partial_alter _ id (channels_ m)) with (delete id (channels_ m)).
      assert (H := msize_delete_le (channels_ m) id). lia.
Qed.

Lemma close_channel_wf m id : manager_wf m -> manager_wf (close_channel m id).
Proof.
  intros Hwf. unfold close_channel. destruct (channels_ m !! id) as [c |] eqn:Hc; [| done]. cbv zeta.
  set (m1 := foldl _ m (waiters c)).
  assert (Hs : same_accounts m m1) by apply complete_waiters_same.
  assert (Hch : channels_ m1 = channels_ m).
  { unfold m1. generalize (waiters c). intros ws. clear. revert m.
    induction ws as [| w ws IH]; intros m; cbn [foldl]; [done |]. rewrite IH. apply complete_waiter_channels. }
  assert (Hwf1 : manager_wf m1) by (by apply (same_accounts_wf m)).
  rewrite <- Hch in Hc. assert (Hcw := wf_channels m1 Hwf1 _ _ Hc).
  destruct Hcw as (_ & _ & _ & C4 & C5 & _).
  assert (Hf := wf_frames m1 Hwf1). assert (Hb := wf_bytes m1 Hwf1).
  rewrite (weigh_drop_business _ id) in Hf. rewrite (weigh_drop_business _ id) in Hb.
  assert (Hn : Forall (sized_entry (limits_ m1)) (all_entries (class_map (drop_channel_frames id) (class_queues_ m1)))).
  { eapply Forall_impl; [exact (Forall_drop_entries _ id _ (wf_sized m1 Hwf1)) | by intros ? []]. }
  apply (only_nonneg _ business) in Hn.
  apply (wf_drop m1 _ id c None); try done; cbn; lia.
Qed.

(** ** Queueing *)

Lemma take_first_some id q e q' :
  take_first id q = Some (e, q') -> queued_channel_id e = id /\ q ≡ₚ e :: q'.
Proof.
  revert q'. induction q as [| d q IH]; intros q' H; [done |]. cbn in H.
  destruct (Z.eqb_spec (queued_channel_id d) id) as [Hd | Hd]; [by injection H as -> -> |].
  destruct (take_first id q) as [[d' q''] |] eqn:E; [| done]. injection H as -> <-.
  destruct (IH q'' eq_refl) as [He Hp]. split; [done |]. rewrite Hp. apply Permutation_swap.
Qed.

Lemma drop_first_some id ks b e b' :
  drop_first id ks b = Some (e, b') ->
  queued_channel_id e = id /\ all_entries b ≡ₚ e :: all_entries b' /\
  exists k q, class_get k b ≡ₚ e :: q /\ b' = class_set k q b.
Proof.
  induction ks as [| k ks IH]; intros H; [done |]. cbn in H.
  destruct (take_first id (class_get k b)) as [[d q] |] eqn:E; [| by apply IH].
  injection H as -> <-. apply take_first_some in E as [Hid Hp]. split_and!; [done | | by exists k, q].
  unfold all_entries. destruct k; cbn in *; rewrite Hp; solve_Permutation.
Qed.

Lemma queue_bytes_sized limits q :
  Forall (sized_entry limits) q -> queue_bytes limits q = Some (weigh (size_of limits) q).
Proof.
  induction 1 as [| e q [n Hn] _ IH]; [done |]. cbn [queue_bytes]. rewrite IH, Hn, weigh_cons.
  unfold size_of at 2. by rewrite Hn.
Qed.

(** No control frame of the channel is waiting. *)
Definition undisturbed (m : Manager) (id : Z) : Prop :=
  Forall (fun e => queued_channel_id e = id -> is_control e = false) (entries m).

Lemma gone_weigh w id q :
  Forall (fun e => queued_channel_id e = id -> is_control e = false) q ->
  weigh w (filter (fun e => queued_channel_id e = id) q) = weigh (only (business_of id) w) q.
Proof.
  induction 1 as [| e q He _ IH]; [done |]. rewrite filter_cons, weigh_cons, <- IH. unfold only at 1, business_of at 1, business.
  case_decide as Hid.
  - rewrite (He Hid), Hid, Z.eqb_refl. by rewrite weigh_cons.
  - rewrite (proj2 (Z.eqb_neq _ _) Hid), andb_false_r. lia.
Qed.

Lemma weigh_one q : weigh one q = zlen q.
Proof. induction q as [| e q IH]; [done |]. rewrite weigh_cons, zlen_cons, IH. done. Qed.

(** What is left for a new frame once the channel has evicted. *)
Definition room_for (m m' : Manager) (id : Z) : Prop :=
  manager_wf m' /\ config_ m' = config_ m /\ limits_ m' = limits_ m /\
  business_queued_frames_ m' <= business_queued_frames_ m /\
  business_queued_bytes_ m' <= business_queued_bytes_ m /\
  exists c, channels_ m' !! id = Some c.

Lemma room_for_self m id c : manager_wf m -> channels_ m !! id = Some c -> room_for m m id.
Proof. intros Hwf Hc. unfold room_for. split_and!; try done. by exists c. Qed.

Lemma drop_oldest_wf m id c e queues :
  manager_wf m -> channels_ m !! id = Some c -> undisturbed m id ->
  drop_first id classes (class_queues_ m) = Some (e, queues) ->
  room_for m (charge_drop (set_queues m queues) id c 1 (size_of (limits_ m) e)) id.
Proof.
  intros Hwf Hc Hu Hd. apply drop_first_some in Hd as (Hid & Hp & k & q & Hkp & ->).
  assert (He : e ∈ entries m) by (rewrite Hp; left).
  assert (Hnc : is_control e = false) by (eapply (proj1 (Forall_forall _ _) Hu); done).
  destruct (wf_counts _ _ Hwf He) as [Hpos Hcnt]. rewrite Hnc in Hcnt.
  destruct Hcnt as (C1 & C2 & c0 & C3 & C4 & C5). rewrite Hid, Hc in C3. injection C3 as <-.
  unfold room_for, charge_drop. cbn. rewrite lookup_insert_eq. split_and!; try done; try lia; [| eauto].
  eapply (wf_remove_business m _ e c); cbn; rewrite ?Hid; try done.
  - split_and!; [done | done | exact (wf_tokens m Hwf) |]. intros k'. cbn. rewrite class_get_set.
    assert (Hf := wf_classed m Hwf k'). case_decide; [subst k' | done].
    rewrite Hkp in Hf. by inversion Hf.
  - unfold same_queue. cbn. split_and!; try done; lia.
  - lia.
  - lia.
Qed.

Lemma keep_latest_wf m id c :
  manager_wf m -> channels_ m !! id = Some c -> undisturbed m id ->
  let gone := filter (fun e => queued_channel_id e = id) (entries m) in
  let m1 := set_queues m (class_map (drop_channel_frames id) (class_queues_ m)) in
  exists bytes, queue_bytes (limits_ m) gone = Some bytes /\
    room_for m (if 0 <? zlen gone then charge_drop m1 id c (zlen gone) (u64 bytes) else m1) id.
Proof.
  intros Hwf Hc Hu gone m1. assert (Hbb := budget_bounds _ (wf_config m Hwf)).
  assert (Hcw := wf_channels m Hwf _ _ Hc). destruct Hcw as (_ & _ & _ & C4 & C5 & C6 & C7).
  rewrite <- (gone_weigh one id (entries m) Hu), weigh_one in C4. fold gone in C4.
  rewrite <- (gone_weigh _ id (entries m) Hu) in C5. fold gone in C5.
  assert (Hsz : Forall (sized_entry (limits_ m)) gone).
  { apply Forall_forall. intros e [_ He]%list_elem_of_filter. by eapply Forall_forall in He; [| apply wf_sized]. }
  exists (weigh (size_of (limits_ m)) gone). split; [by apply queue_bytes_sized |].
  assert (Hz := zlen_nonneg gone).
  assert (Hz2 : 0 <= weigh (size_of (limits_ m)) gone).
  { assert (Hz2 := proj2 (only_nonneg (limits_ m) (fun _ => true) _ Hsz)). exact Hz2. }
  rewrite u64_small by lia. rewrite <- C4, <- C5 in *.
  assert (Hf := wf_frames m Hwf). assert (Hb := wf_bytes m Hwf).
  rewrite (weigh_drop_business _ id) in Hf. rewrite (weigh_drop_business _ id) in Hb.
  assert (Hn : Forall (sized_entry (limits_ m)) (all_entries (class_map (drop_channel_frames id) (class_queues_ m)))).
  { eapply Forall_impl; [exact (Forall_drop_entries _ id _ (wf_sized m Hwf)) | by intros ? []]. }
  apply (only_nonneg _ business) in Hn.
  assert (Hcw := wf_channels m Hwf _ _ Hc). destruct Hcw as (_ & _ & _ & D4 & D5 & _ & _).
  destruct (Z.ltb_spec 0 (queued_frames c)) as [Hq | Hq].
  - unfold room_for, charge_drop. cbn. rewrite lookup_insert_eq. split_and!; try done; try lia; [| eauto].
    eapply (wf_drop m _ id c (Some _)); cbn; try done; try lia.
    intros c' [= <-]. unfold same_queue. cbn. split_and!; try done; lia.
  - assert (Hg : gone = []) by (destruct gone; [done | rewrite zlen_cons in C4; assert (Hz' := zlen_nonneg gone); lia]).
    rewrite Hg, weigh_nil in C5. unfold room_for. cbn. split_and!; try done; [| eauto].
    apply (wf_drop m _ id c (Some c)); cbn; try done; try lia.
    + symmetry. exact (insert_id _ _ _ Hc).
    + intros c' [= <-]. unfold same_queue. cbn. split_and!; try done; lia.
Qed.

Lemma evict_wf m id c :
  manager_wf m -> channels_ m !! id = Some c ->
  policy c = QueueFullPolicy.reject \/ undisturbed m id ->
  exists r m', evict m id c = Some (r, m') /\ room_for m m' id.
Proof.
  intros Hwf Hc Hu. unfold evict. destruct (policy c) eqn:Hp.
  - eexists _, _. split; [done |]. set (m' := set_channels _ _).
    assert (Hs : same_accounts m m') by (by apply (set_channel_same m id c)).
    unfold room_for. split_and!; try done; [by apply (same_accounts_wf m) |].
    unfold m'. cbn. rewrite lookup_insert_eq. eauto.
  - destruct Hu as [? | Hu]; [done |].
    destruct (queued_frames c =? 0); [eexists _, _; split; [done | by eapply room_for_self] |].
    destruct (drop_first id classes (class_queues_ m)) as [[e queues] |] eqn:Hd;
      [| eexists _, _; split; [done | by eapply room_for_self]].
    assert (He : sized_entry (limits_ m) e).
    { assert (H := Hd). apply drop_first_some in H as (_ & Hpm & _). assert (Hall := wf_sized m Hwf).
      rewrite Hpm in Hall. by inversion Hall. }
    destruct He as [n Hn]. rewrite Hn. eexists _, _. split; [done |].
    replace n with (size_of (limits_ m) e) by (unfold size_of; by rewrite Hn). by apply drop_oldest_wf.
  - destruct Hu as [? | Hu]; [done |].
    destruct (keep_latest_wf m id c Hwf Hc Hu) as (bytes & -> & Hroom).
    destruct (0 <? zlen _); eexists _, _; (split; [done | exact Hroom]).
Qed.

Lemma push_business_wf m id klass f size receipt :
  manager_wf m -> klass <> FrameClass.control -> frame_wire_size f (limits_ m) = Some size ->
  business_queued_frames_ m + 1 <= per_peer_queued_frames (config_ m) ->
  business_queued_bytes_ m + size <= per_peer_queued_bytes (config_ m) ->
  manager_wf (snd (push_business m id klass f size receipt)).
Proof.
  intros Hwf Hk Hsize Hb1 Hb2. unfold push_business.
  destruct (channels_ m !! id) as [c |] eqn:Hc; [| done].
  assert (Hpos := frame_wire_size_some _ _ _ Hsize). assert (Hbb := budget_bounds _ (wf_config m Hwf)).
  assert (Hcw := wf_channels m Hwf _ _ Hc). destruct Hcw as (_ & _ & _ & C4 & C5 & C6 & C7).
  assert (Hn := only_nonneg _ (business_of id) _ (wf_sized m Hwf)).
  assert (Hn' := only_nonneg _ business _ (wf_sized m Hwf)).
  assert (Hf := wf_frames m Hwf). assert (Hby := wf_bytes m Hwf).
  rewrite (u64_small (queued_frames c + 1)), (u64_small (queued_bytes c + size)) by lia.
  destruct (_ || _) eqn:Hfull.
  { cbn. apply (same_accounts_wf m); [| done]. by apply (set_channel_same m id c). }
  cbv zeta. cbn [snd].
  set (e := mkQueued id klass f).
  assert (Hs : size_of (limits_ m) e = size) by (unfold size_of; cbn; by rewrite Hsize).
  assert (Hnc : is_control e = false) by (unfold is_control; by case_bool_decide).
  eapply (wf_add_business m _ e c); rewrite ?Hs; try done; cbn.
  - split_and!; [done | done | exact (wf_tokens m Hwf) |]. intros k'. cbn. rewrite class_get_set.
    assert (Hf' := wf_classed m Hwf k'). case_decide; [subst k' | done]. by apply Forall_app; split; [| constructor].
  - by exists size.
  - apply entries_push.
  - rewrite u64_small; lia.
  - rewrite u64_small; lia.
  - rewrite u64_small; lia.
  - rewrite u64_small; lia.
  - cbn. lia.
  - cbn. lia.
Qed.

(** A business frame, on a channel that rejects or has no control frame queued. *)
Lemma enqueue_business_wf m id klass f c :
  manager_wf m -> channels_ m !! id = Some c -> klass <> FrameClass.control ->
  is_Some (frame_wire_size f (limits_ m)) ->
  policy c = QueueFullPolicy.reject \/ undisturbed m id ->
  exists r m', enqueue_business m c id klass f = Some (r, m') /\ manager_wf m'.
Proof.
  intros Hwf Hc Hk [size Hsize] Hu. unfold enqueue_business. rewrite Hsize.
  assert (Hpos := frame_wire_size_some _ _ _ Hsize). assert (Hbb := budget_bounds _ (wf_config m Hwf)).
  assert (Hn := only_nonneg _ business _ (wf_sized m Hwf)).
  assert (Hf := wf_frames m Hwf). assert (Hby := wf_bytes m Hwf).
  assert (Hpf := wf_peer_frames m Hwf). assert (Hpb := wf_peer_bytes m Hwf).
  rewrite (u64_small (business_queued_frames_ m + 1)), (u64_small (business_queued_bytes_ m + size)) by lia.
  cbv zeta. destruct ((_ <? _) || (per_peer_queued_bytes _ <? _)) eqn:Hpeer.
  { eexists _, _. split; [done |]. apply (same_accounts_wf m); [| done]. by apply (set_channel_same m id c). }
  destruct (_ || bool_decide _).
  - destruct (evict_wf m id c Hwf Hc Hu) as (r & m' & -> & Hwf' & Hcfg & Hl & H1 & H2 & _).
    destruct r as [receipt | err]; [| eauto].
    eexists _, _. split; [by rewrite (surjective_pairing (push_business _ _ _ _ _ _)) |].
    apply push_business_wf; rewrite ?Hcfg, ?Hl; try done; lia.
  - eexists _, _. split; [by rewrite (surjective_pairing (push_business _ _ _ _ _ _)) |].
    apply push_business_wf; try done; lia.
Qed.

Lemma enqueue_control_wf m id f :
  manager_wf m -> is_Some (frame_wire_size f (limits_ m)) ->
  exists r m', enqueue_control m id FrameClass.control f = Some (r, m') /\ manager_wf m'.
Proof.
  intros Hwf [size Hsize]. unfold enqueue_control. rewrite Hsize.
  assert (Hpos := frame_wire_size_some _ _ _ Hsize). assert (Hbb := budget_bounds _ (wf_config m Hwf)).
  assert (Hn := only_nonneg _ is_control _ (wf_sized m Hwf)).
  assert (Hf := wf_control_frames m Hwf). assert (Hby := wf_control_bytes m Hwf).
  rewrite !u64_small by lia. destruct (Z.ltb_spec (control_reserved_frames (config_ m)) (control_queued_frames_ m + 1)); [eauto |].
  destruct (Z.ltb_spec (control_reserved_bytes (config_ m)) (control_queued_bytes_ m + size)); [eauto |].
  eexists _, _. split; [done |]. set (e := mkQueued id FrameClass.control f).
  assert (Hs : size_of (limits_ m) e = size) by (unfold size_of; cbn; by rewrite Hsize).
  eapply (wf_add_control m _ e); rewrite ?Hs; try done; cbn.
  - split_and!; [done | done | exact (wf_tokens m Hwf) |]. intros k'. cbn.
    assert (Hf' := wf_classed m Hwf k'). destruct k'; try done. by apply Forall_app; split; [| constructor].
  - by exists size.
  - apply (entries_push FrameClass.control).
Qed.

(** ** Opening *)

Lemma open_channel_wf m id d p fc bc :
  0 <= fc -> 0 <= bc -> manager_wf m -> manager_wf (snd (open_channel m id d p fc bc)).
Proof.
  intros Hfc Hbc Hwf. unfold open_channel.
  destruct ((id =? 0) || _) eqn:G1; [done |]. destruct (_ && _) eqn:G2; [done |].
  destruct ((fc =? 0) || _) eqn:G3; [done |]. destruct ((bc =? 0) || _) eqn:G4; [done |].
  destruct (bool_decide (is_Some (channels_ m !! id))) eqn:G5; [done |]. cbn [snd].
  apply bool_decide_eq_false in G5. apply orb_false_iff in G1 as [Hid Hd]. apply bool_decide_eq_false in Hd.
  assert (Hnone : channels_ m !! id = None) by (destruct (channels_ m !! id) eqn:E; [exfalso; eauto | done]).
  destruct Hwf.
  assert (Hno : forall w, weigh (only (business_of id) w) (entries m) = 0).
  { intros w. apply weigh_zero. eapply Forall_impl; [exact wf_homes0 |]. cbn. intros e He.
    apply only_false. unfold business_of, business. destruct (is_control e); [done |].
    destruct (Z.eqb_spec (queued_channel_id e) id) as [Heq |]; [| done]. rewrite Heq in He. exfalso. by apply G5, He. }
  constructor; cbn; try done.
  - intros id' c'. rewrite lookup_insert_Some. intros [[<- <-] | [Hne Hc']].
    + unfold channel_wf. cbn. rewrite !Hno. split_and!; try done; lia.
    + by apply wf_channels0.
  - eapply Forall_impl; [exact wf_homes0 |]. cbn. intros e He Hb. rewrite lookup_insert_is_Some.
    destruct (decide (id = queued_channel_id e)); [by left | right]. split; [done | by apply He].
  - rewrite msize_insert_new by done. cbn in G2. lia.
Qed.

Lemma allocate_loop_wf fuel candidate m d p fc bc :
  0 <= fc -> 0 <= bc -> manager_wf m ->
  manager_wf (snd (allocate_loop fuel candidate m d p fc bc)).
Proof.
  intros Hfc Hbc. revert candidate. induction fuel as [| fuel IH]; intros candidate Hwf; cbn [allocate_loop]; [done |].
  destruct (negb _); [done |]. destruct (bool_decide _); [by apply IH |].
  assert (Ho := open_channel_wf m candidate d p fc bc Hfc Hbc Hwf).
  destruct (open_channel m candidate d p fc bc) as [[] m']; done.
Qed.

Lemma close_all_wf m : manager_wf m -> manager_wf (close_all m).
Proof.
  intros Hwf. unfold close_all. generalize (fst <$> filter (fun kv : Z * ChannelState => open (snd kv) = true)
    (iterate (channels_ m))). intros ids. revert m Hwf. induction ids as [| id ids IH]; intros m Hwf; [done |].
  cbn. apply IH. by apply close_channel_wf.
Qed.

(** The members are unsigned. *)
Definition budget_typed (c : ChannelBudgetConfig) : Prop :=
  0 <= max_open_channels c /\ 0 <= per_peer_queued_frames c /\ 0 <= per_peer_queued_bytes c /\
  0 <= control_reserved_frames c /\ 0 <= control_reserved_bytes c.

Lemma new_manager_wf config limits :
  validate_channel_budget_config config = success tt -> budget_typed config ->
  manager_wf (new_manager config limits).
Proof.
  intros Hv (H1 & H2 & H3 & H4 & H5). constructor; cbn; try done; try lia; by intros [].
Qed.

#[export] Hint Resolve open_channel_wf allocate_loop_wf close_channel_wf close_all_wf : channels.
