(* ===== verification/ChannelScheduling.v ===== *)
(** * Runs of the session channel manager

    Sequences of the operations of [SessionChannels.v], as [PeerSession] issues
    them: channels are opened and closed, frames are queued, the pump sends the
    next frame or puts it back when the transport is not writable, callers wait
    for capacity and give up waiting. The theorems: the accounting holds along
    every run, no class is passed over, and the frames of a class keep their order.
    [CapacityWaits.v] continues with the waits. *)

From Stdlib Require Import ZArith Lia ZifyBool String.
From stdpp Require Import base tactics option list gmap sorting numbers strings.
From S2P Require Import Prelude Errors Limits Varint Wire FrameStream Clock SessionChannels.
#[local] Open Scope Z_scope.

Import Wire FrameStream SessionChannels.

(** ** Operations *)

Inductive channel_op : Type :=
  | OpOpen (id : Z) (d : ChannelDomain) (p : QueueFullPolicy) (frame_capacity byte_capacity : Z)
  | OpAllocate (initiator : bool) (d : ChannelDomain) (p : QueueFullPolicy)
      (frame_capacity byte_capacity : Z)
  | OpClose (id : Z)
  | OpCloseAll
  | OpEnqueue (id : Z) (klass : FrameClass) (f : Frame)
  | OpSend
  | OpBounce
  | OpWait (id : Z)
  | OpCancel (address : Z).

(** The frames an operation sent, those it admitted, and the manager after it. *)
Record outcome : Type := mkOutcome {
  sent : list QueuedSendFrame;
  entered : list QueuedSendFrame;
  after : Manager;
}.

Definition perform (m : Manager) (op : channel_op) : option outcome :=
  match op with
  | OpOpen id d p fc bc => Some (mkOutcome [] [] (snd (open_channel m id d p fc bc)))
  | OpAllocate i d p fc bc => Some (mkOutcome [] [] (snd (allocate_channel m i d p fc bc)))
  | OpClose id => Some (mkOutcome [] [] (close_channel m id))
  | OpCloseAll => Some (mkOutcome [] [] (close_all m))
  | OpEnqueue id klass f =>
      match enqueue m id klass f with
      | None => None
      | Some (success _, m') => Some (mkOutcome [] [mkQueued id klass f] m')
      | Some (failure _, m') => Some (mkOutcome [] [] m')
      end
  | OpSend =>
      match next_to_send m with
      | None => None
      | Some (None, m') => Some (mkOutcome [] [] m')
      | Some (Some e, m') => Some (mkOutcome [e] [] m')
      end
  | OpBounce =>
      match next_to_send m with
      | None => None
      | Some (None, m') => Some (mkOutcome [] [] m')
      | Some (Some e, m') => mkOutcome [] [] <$> return_to_send m' e
      end
  | OpWait id => Some (mkOutcome [] [] (snd (wait_for_capacity m id)))
  | OpCancel address => Some (mkOutcome [] [] (detach m address))
  end.

(** Capacities are unsigned, a queued frame fits the frame limit, and a channel
    that evicts has no control frames of its own waiting: the services of the
    program open their channels with the rejecting policy. The 64-bit number of
    the next waiter does not wrap. *)
Definition disciplined (m : Manager) (op : channel_op) : Prop :=
  match op with
  | OpOpen _ _ _ fc bc => 0 <= fc /\ 0 <= bc
  | OpAllocate _ _ _ fc bc => 0 <= fc /\ 0 <= bc
  | OpEnqueue id klass f =>
      is_Some (frame_wire_size f (limits_ m)) /\
      (forall c, channels_ m !! id = Some c ->
                 policy c = QueueFullPolicy.reject \/ undisturbed m id)
  | OpWait _ => next_waiter_id_ m < u64_max
  | _ => True
  end.

(** A run from [m0]: what was admitted, what was sent, where it ended. *)
Inductive channel_run (m0 : Manager) : list QueuedSendFrame -> list QueuedSendFrame -> Manager -> Prop :=
  | run_start : channel_run m0 [] [] m0
  | run_next ins outs m op o :
      channel_run m0 ins outs m -> disciplined m op -> perform m op = Some o ->
      channel_run m0 (ins ++ entered o) (outs ++ sent o) (after o).

(** ** The accounting along a run *)

Lemma next_to_send_wf m :
  manager_wf m ->
  (next_to_send m = Some (None, m)) \/
  exists e m', next_to_send m = Some (Some e, m') /\ manager_wf m' /\
    exists m'', return_to_send m' e = Some m'' /\ manager_wf m''.
Proof.
  intros Hwf. destruct (next_to_send_fuel_spec 2 m Hwf ltac:(lia))
    as [[H _] | (m0 & ks1 & k & ks2 & e & q & m' & Hsv & _ & _ & H & Hs)]; [by left |].
  right. exists e, m'. split; [exact H |]. assert (Hwf0 := served_wf _ _ Hwf Hsv).
  split; [by eapply released_wf |].
  destruct (return_wf m0 m' k e q Hwf0 Hs) as (m'' & Hr & Hw & _). eauto.
Qed.

Lemma enqueue_wf m id klass f :
  manager_wf m -> is_Some (frame_wire_size f (limits_ m)) ->
  (forall c, channels_ m !! id = Some c -> policy c = QueueFullPolicy.reject \/ undisturbed m id) ->
  exists r m', enqueue m id klass f = Some (r, m') /\ manager_wf m'.
Proof.
  intros Hwf Hs Hd. unfold enqueue. case_bool_decide as Hk; [subst; by apply enqueue_control_wf |].
  destruct (channels_ m !! id) as [c |] eqn:Hc; [| eauto]. destruct (negb (open c)); [eauto |].
  apply enqueue_business_wf; try done. by apply Hd.
Qed.

Lemma perform_channels_wf m op :
  manager_wf m -> disciplined m op -> exists o, perform m op = Some o /\ manager_wf (after o).
Proof.
  intros Hwf Hd. destruct op; cbn [perform disciplined] in *.
  - destruct Hd. eauto with channels.
  - destruct Hd. unfold allocate_channel. eauto with channels.
  - eauto with channels.
  - eauto with channels.
  - destruct Hd as [Hs Hd]. destruct (enqueue_wf m id klass f Hwf Hs Hd) as (r & m' & -> & Hw). destruct r; eauto.
  - destruct (next_to_send_wf m Hwf) as [-> | (e & m' & -> & Hw & _)]; eauto.
  - destruct (next_to_send_wf m Hwf) as [-> | (e & m' & -> & Hw & m'' & -> & Hw')]; [eauto |]. cbn. eauto.
  - eexists. split; [done |]. cbn. apply (same_accounts_wf m); [apply wait_for_capacity_same | done].
  - eexists. split; [done |]. cbn. apply (same_accounts_wf m); [apply detach_same | done].
Qed.

Lemma channel_run_wf m0 ins outs m : manager_wf m0 -> channel_run m0 ins outs m -> manager_wf m.
Proof.
  intros Hwf. induction 1 as [| ins outs m op o _ IH Hd Hp]; [done |].
  destruct (perform_channels_wf m op IH Hd) as (o' & Hp' & Hw). congruence.
Qed.

(** C31. The budgets hold along every run in which every queued frame fits the frame
    limit and no channel that evicts has control frames of its own waiting. The
    counters of the peer and of each channel are exactly the business frames and
    bytes queued, and no budget, capacity or channel limit is exceeded; the control
    counters stay within the reserved budget and are at least the control frames and
    bytes queued (a closed channel gives up its control frames without returning
    their charge); and no such operation reads through a null pointer. *)
Theorem channel_budgets_hold config limits ins outs m :
  validate_channel_budget_config config = success tt -> budget_typed config ->
  channel_run (new_manager config limits) ins outs m ->
  manager_wf m /\ forall op, disciplined m op -> is_Some (perform m op).
Proof.
  intros Hv Ht Hrun. assert (Hm := channel_run_wf _ _ _ _ (new_manager_wf _ limits Hv Ht) Hrun).
  split; [done |].
  intros op Hd. destruct (perform_channels_wf m op Hm Hd) as (o & Ho & _). eauto.
Qed.

(** ** Nobody starves *)

Definition tokens (m : Manager) (k : FrameClass) : Z := class_get k (class_state_ m).

Fixpoint tokens_of (m : Manager) (ks : list FrameClass) : Z :=
  match ks with [] => 0 | k :: ks => tokens m k + tokens_of m ks end.

Definition before (k : FrameClass) : list FrameClass :=
  match k with
  | FrameClass.control => []
  | FrameClass.interactive => [FrameClass.control]
  | FrameClass.standard => [FrameClass.control; FrameClass.interactive]
  | FrameClass.bulk => [FrameClass.control; FrameClass.interactive; FrameClass.standard]
  end.

Fixpoint weights_of (ks : list FrameClass) : Z :=
  match ks with [] => 0 | k :: ks => frame_class_weight k + weights_of ks end.

(** How many frames of other classes can still go first. *)
Definition turns (k : FrameClass) (m : Manager) : Z :=
  if 0 <? tokens m k then tokens_of m (before k)
  else tokens_of m classes + weights_of (before k).

Lemma turns_bound k m : manager_wf m -> 0 <= turns k m <= weights_of classes + weights_of (before k).
Proof.
  intros Hwf. assert (H1 := wf_tokens m Hwf FrameClass.control). assert (H2 := wf_tokens m Hwf FrameClass.interactive).
  assert (H3 := wf_tokens m Hwf FrameClass.standard). assert (H4 := wf_tokens m Hwf FrameClass.bulk).
  unfold turns, tokens. destruct (0 <? _), k; cbn in *; lia.
Qed.

Lemma served_tokens m m0 k :
  manager_wf m -> served m m0 -> class_get k (class_queues_ m) <> [] ->
  class_queues_ m0 = class_queues_ m /\
  (m0 = m \/ (tokens m k = 0 /\ forall k', tokens m0 k' = frame_class_weight k')).
Proof.
  intros Hwf [-> | [-> Hi]] Hk; [by split; [| left] |]. split; [done |]. right.
  split; [by destruct (Hi k) |]. by intros [].
Qed.

Lemma classes_split ks1 j ks2 : classes = ks1 ++ j :: ks2 -> ks1 = before j.
Proof.
  unfold classes. intros H.
  destruct ks1 as [| a [| b [| c [| d ks1]]]]; cbn in H; injection H; intros; subst; try done.
  by destruct ks1.
Qed.

Definition precedes (j k : FrameClass) : bool := bool_decide (j ∈ before k).

Lemma precedes_total j k : j <> k -> precedes k j = false -> precedes j k = true.
Proof. destruct j, k; try done. Qed.

(** One send serves the class or brings its turn closer. *)
Lemma send_progress m k :
  manager_wf m -> class_get k (class_queues_ m) <> [] ->
  exists e m', next_to_send m = Some (Some e, m') /\
    (frame_class e = k \/ turns k m' + 1 <= turns k m).
Proof.
  intros Hwf Hk. destruct (next_to_send_fuel_spec 2 m Hwf ltac:(lia))
    as [[_ H] | (m0 & ks1 & j & ks2 & e & q & m' & Hsv & Hc & Hi & H & Hs)].
  { exfalso. apply Hk. assert (Hall : Forall (fun _ => False) (entries m)) by (rewrite H; constructor).
    apply Forall_entries with (k := k) in Hall. by destruct (class_get k (class_queues_ m)); [| inversion Hall]. }
  exists e, m'. split; [exact H |]. assert (Hwf0 := served_wf _ _ Hwf Hsv).
  destruct Hs as [Hq Ht (_ & _ & _ & Htk & _)]. cbn in Htk.
  assert (He : frame_class e = j).
  { assert (Hf := wf_classed m0 Hwf0 j). rewrite Hq in Hf. by inversion Hf. }
  destruct (decide (j = k)) as [-> | Hjk]; [by left | right].
  destruct (served_tokens m m0 k Hwf Hsv Hk) as [Hqs Hm0].
  apply classes_split in Hc as ->.
  assert (Hord : 0 < tokens m0 k -> precedes j k = true).
  { intros Hpos. apply precedes_total; [done |]. apply bool_decide_eq_false. intros Hin.
    eapply Forall_forall in Hi; [| exact Hin]. unfold idle, tokens in *.
    rewrite Hqs in Hi. destruct Hi; [done | lia]. }
  assert (HT : forall k', 0 <= tokens m k') by (intros k'; apply (wf_tokens m Hwf k')).
  assert (T1 := HT FrameClass.control). assert (T2 := HT FrameClass.interactive).
  assert (T3 := HT FrameClass.standard). assert (T4 := HT FrameClass.bulk).
  assert (Htm : forall k', tokens m' k' = if decide (k' = j) then tokens m0 j - 1 else tokens m0 k').
  { intros k'. unfold tokens. rewrite Htk, class_get_set. done. }
  unfold turns. destruct Hm0 as [-> | [Hz Hw]].
  - rewrite (Htm k), decide_False by done. destruct (Z.ltb_spec 0 (tokens m k)) as [Hpos | Hpos].
    + specialize (Hord Hpos). clear - Hord Htm.
      destruct j, k; vm_compute in Hord; try discriminate Hord; cbn [before tokens_of];
        rewrite !Htm; repeat case_decide; try done; cbn; lia.
    + clear - Htm. unfold classes. cbn [tokens_of]. rewrite !Htm.
      destruct j; repeat case_decide; try done; cbn; lia.
  - assert (Hpos : 0 < tokens m0 k) by (rewrite Hw; by destruct k). specialize (Hord Hpos).
    rewrite (Htm k), decide_False, Hz by done. rewrite (proj2 (Z.ltb_lt _ _)) by done.
    change (0 <? 0) with false. cbv iota. unfold classes. cbn [tokens_of].
    clear - Hord Htm Hw T1 T2 T3 T4.
    destruct j, k; vm_compute in Hord; try discriminate Hord; cbn [before tokens_of weights_of];
      rewrite !Htm, ?Hw; repeat case_decide; try done; cbn in *; lia.
Qed.

(** ** What the other operations leave alone *)

(** The tokens are untouched and the queues only lose frames. *)
Definition shrunk (m m' : Manager) : Prop :=
  class_state_ m' = class_state_ m /\
  forall k, class_get k (class_queues_ m') `sublist_of` class_get k (class_queues_ m).

#[export] Instance shrunk_preorder : PreOrder shrunk.
Proof.
  split; [intros m; by split | intros m m' m'' [H1 H2] [H3 H4]].
  split; [congruence | intros k; etransitivity; [apply H4 | apply H2]].
Qed.

Lemma same_accounts_shrunk m m' : same_accounts m m' -> shrunk m m'.
Proof. intros [_ _ Hq Ht _ _ _]. split; [done |]. intros k. by rewrite Hq. Qed.

Lemma dropped_shrunk m m' id :
  class_state_ m' = class_state_ m ->
  class_queues_ m' = class_map (drop_channel_frames id) (class_queues_ m) -> shrunk m m'.
Proof.
  intros Ht Hq. split; [done |]. intros k. rewrite Hq, class_get_map. apply sublist_filter.
Qed.

Lemma open_shrunk m id d p fc bc : shrunk m (snd (open_channel m id d p fc bc)).
Proof. unfold open_channel. repeat case_match; done. Qed.

Lemma allocate_shrunk fuel candidate m d p fc bc :
  shrunk m (snd (allocate_loop fuel candidate m d p fc bc)).
Proof.
  revert candidate. induction fuel as [| fuel IH]; intros candidate; cbn [allocate_loop]; [done |].
  destruct (negb _); [done |]. destruct (bool_decide _); [apply IH |].
  assert (Ho := open_shrunk m candidate d p fc bc).
  by destruct (open_channel m candidate d p fc bc) as [[] m'].
Qed.

Lemma close_shrunk m id : shrunk m (close_channel m id).
Proof.
  unfold close_channel. destruct (channels_ m !! id) as [c |]; [| done]. cbv zeta.
  set (m1 := foldl _ m (waiters c)).
  assert (Hs : same_accounts m m1) by apply complete_waiters_same.
  etransitivity; [by apply same_accounts_shrunk |]. by apply (dropped_shrunk m1 _ id).
Qed.

Lemma close_all_shrunk m : shrunk m (close_all m).
Proof.
  unfold close_all. generalize (fst <$> filter (fun kv : Z * ChannelState => open (snd kv) = true)
    (iterate (channels_ m))). intros ids. revert m. induction ids as [| id ids IH]; intros m; [done |].
  cbn. etransitivity; [apply close_shrunk | apply IH].
Qed.

Lemma take_first_sublist id q e q' : take_first id q = Some (e, q') -> q' `sublist_of` q.
Proof.
  revert q'. induction q as [| d q IH]; intros q' H; [done |]. cbn in H.
  destruct (queued_channel_id d =? id); [injection H as -> ->; by apply sublist_cons |].
  destruct (take_first id q) as [[d' q''] |]; [| done]. injection H as -> <-. by apply sublist_skip, IH.
Qed.

Lemma drop_first_shrunk id ks b e b' k :
  drop_first id ks b = Some (e, b') -> class_get k b' `sublist_of` class_get k b.
Proof.
  induction ks as [| j ks IH]; intros H; [done |]. cbn in H.
  destruct (take_first id (class_get j b)) as [[d q] |] eqn:E; [| by apply IH].
  injection H as -> <-. rewrite class_get_set. case_decide; [subst; by eapply take_first_sublist | done].
Qed.

Lemma evict_shrunk m id c r m' :
  channels_ m !! id = Some c -> evict m id c = Some (r, m') -> shrunk m m'.
Proof.
  intros Hc. unfold evict. destruct (policy c).
  - intros [= _ <-]. by split.
  - destruct (_ =? 0); [by intros [= _ <-] |].
    destruct (drop_first id classes (class_queues_ m)) as [[e qs] |] eqn:E; [| by intros [= _ <-]].
    destruct (frame_wire_size _ _); [| done]. intros [= _ <-].
    split; [done |]. intros k. cbn. by eapply drop_first_shrunk.
  - cbv zeta. destruct (queue_bytes _ _); [| done].
    destruct (0 <? _); intros [= _ <-]; by eapply dropped_shrunk.
Qed.

(** The entries of a class. *)
Definition of_class (k : FrameClass) (l : list QueuedSendFrame) : list QueuedSendFrame :=
  filter (fun e => frame_class e = k) l.

Lemma of_class_one k e : of_class k [e] = if decide (frame_class e = k) then [e] else [].
Proof. unfold of_class. by rewrite filter_cons, filter_nil. Qed.

(** The tokens are untouched, and the queues are what they were or less, with
    the frames [new] behind. *)
Definition grown (m m' : Manager) (new : list QueuedSendFrame) : Prop :=
  class_state_ m' = class_state_ m /\
  forall k, class_get k (class_queues_ m') `sublist_of` class_get k (class_queues_ m) ++ of_class k new.

Lemma shrunk_grown m m' new : shrunk m m' -> grown m m' new.
Proof. intros [Ht Hq]. split; [done |]. intros k. by apply sublist_inserts_r. Qed.

Lemma pushed_grown m m' e :
  class_state_ m' = class_state_ m ->
  class_queues_ m' =
    class_set (frame_class e) (class_get (frame_class e) (class_queues_ m) ++ [e]) (class_queues_ m) ->
  grown m m' [e].
Proof.
  intros Ht Hq. split; [done |]. intros k. rewrite Hq, class_get_set, of_class_one.
  case_decide; [subst k; by rewrite decide_True | by apply sublist_inserts_r].
Qed.

Lemma push_business_grown m id klass f size receipt :
  grown m (snd (push_business m id klass f size receipt))
    (if has_value (fst (push_business m id klass f size receipt)) then [mkQueued id klass f] else []).
Proof.
  unfold push_business. destruct (channels_ m !! id) as [c |]; [| by apply shrunk_grown].
  destruct (_ || _); [by apply shrunk_grown |]. cbn. by apply pushed_grown.
Qed.

Lemma grown_after m m1 m2 new : shrunk m m1 -> grown m1 m2 new -> grown m m2 new.
Proof.
  intros [H1 H2] [H3 H4]. split; [congruence |]. intros k. etransitivity; [apply H4 |]. by apply sublist_app.
Qed.

Lemma enqueue_grown m id klass f r m' :
  enqueue m id klass f = Some (r, m') ->
  grown m m' (if has_value r then [mkQueued id klass f] else []).
Proof.
  unfold enqueue. case_bool_decide as Hk.
  - unfold enqueue_control. destruct (_ <? _); [intros [= <- <-]; by apply shrunk_grown |].
    destruct (frame_wire_size _ _); [| done]. destruct (_ <? _); [intros [= <- <-]; by apply shrunk_grown |].
    intros [= <- <-]. by apply pushed_grown.
  - destruct (channels_ m !! id) as [c |] eqn:Hc; [| intros [= <- <-]; by apply shrunk_grown].
    destruct (negb (open c)); [intros [= <- <-]; by apply shrunk_grown |].
    unfold enqueue_business. destruct (frame_wire_size f _) as [size |]; [| done]. cbv zeta.
    destruct ((_ <? _) || (per_peer_queued_bytes _ <? _)); [intros [= <- <-]; by apply shrunk_grown |].
    destruct (_ || bool_decide _).
    + destruct (evict m id c) as [[[receipt | err] m1] |] eqn:He; [| | done].
      * intros [= Hp]. apply (grown_after m m1); [by eapply evict_shrunk |].
        assert (Hg := push_business_grown m1 id klass f size receipt). by rewrite Hp in Hg.
      * intros [= <- <-]. apply shrunk_grown. by eapply evict_shrunk.
    + intros [= Hp]. assert (Hg := push_business_grown m id klass f size (mkReceipt false false 0)).
      by rewrite Hp in Hg.
Qed.

Lemma perform_grown m op o :
  perform m op = Some o -> op <> OpSend -> op <> OpBounce ->
  sent o = [] /\ grown m (after o) (entered o).
Proof.
  intros H Hs Hb. destruct op; cbn [perform] in H; try done;
    try (injection H as <-; cbn; split; [done |]; apply shrunk_grown);
    try first [ apply open_shrunk | apply allocate_shrunk | apply close_shrunk | apply close_all_shrunk
              | apply same_accounts_shrunk, wait_for_capacity_same
              | apply same_accounts_shrunk, detach_same ].
  destruct (enqueue m id klass f) as [[[receipt | err] m'] |] eqn:E; [| | done];
    injection H as <-; apply enqueue_grown in E; by cbn in *.
Qed.

(** ** Order *)

Lemma send_queues m :
  manager_wf m ->
  next_to_send m = Some (None, m) \/
  exists e m' m'' q, next_to_send m = Some (Some e, m') /\ return_to_send m' e = Some m'' /\
    class_get (frame_class e) (class_queues_ m) = e :: q /\
    class_queues_ m' = class_set (frame_class e) q (class_queues_ m) /\
    class_queues_ m'' = class_queues_ m.
Proof.
  intros Hwf. destruct (next_to_send_fuel_spec 2 m Hwf ltac:(lia))
    as [[H _] | (m0 & ks1 & k & ks2 & e & q & m' & Hsv & _ & _ & H & Hs)]; [by left |]. right.
  assert (Hwf0 := served_wf _ _ Hwf Hsv).
  assert (Hqs : class_queues_ m0 = class_queues_ m) by (by destruct Hsv as [-> | [-> _]]).
  assert (He : frame_class e = k).
  { assert (Hf := wf_classed m0 Hwf0 k). rewrite (sent_head _ _ _ _ _ Hs) in Hf. by inversion Hf. }
  destruct (return_wf m0 m' k e q Hwf0 Hs) as (m'' & Hr & _ & _).
  assert (Hrel := sent_release _ _ _ _ _ Hs). destruct Hrel as (_ & Hl & Hq & _). cbn in Hq, Hl.
  exists e, m', m'', q. rewrite He, <- Hqs. split_and!; [exact H | done | exact (sent_head _ _ _ _ _ Hs) | done |].
  assert (Hh := sent_head _ _ _ _ _ Hs). unfold return_to_send in Hr. destruct (frame_wire_size _ _); [| done].
  injection Hr as <-. assert (Hqq : forall b : ByClass (list QueuedSendFrame),
    class_get k b = e :: q -> class_set k (e :: class_get k (class_set k q b)) (class_set k q b) = b).
  { intros [] Hb. by destruct k; cbn in *; rewrite Hb. }
  etransitivity; [| exact (Hqq (class_queues_ m0) Hh)]. cbn. rewrite He, <- Hq.
  case_bool_decide; [done |]. by destruct (channels_ m' !! _).
Qed.

Lemma perform_order m op o k :
  manager_wf m -> disciplined m op -> perform m op = Some o ->
  of_class k (sent o) ++ class_get k (class_queues_ (after o))
    `sublist_of` class_get k (class_queues_ m) ++ of_class k (entered o).
Proof.
  intros Hwf Hd H. destruct op; try (apply perform_grown in H as [-> [_ Hg]]; [apply Hg | done | done]);
    cbn [perform] in H; destruct (send_queues m Hwf) as [E | (e & m' & m'' & q & E & Hr & Hh & Hq & Hq')];
    rewrite E in H; cbn in H.
  - injection H as <-. cbn. by rewrite app_nil_r.
  - injection H as <-. cbn [sent after entered]. change (of_class k []) with (@nil QueuedSendFrame).
    rewrite Hq, of_class_one, class_get_set, app_nil_r.
    repeat case_decide; subst; try done. by rewrite Hh.
  - injection H as <-. cbn. by rewrite app_nil_r.
  - rewrite Hr in H. injection H as <-. cbn. by rewrite app_nil_r, Hq'.
Qed.

(** Frames of a scheduling class keep their order: over any run, the frames
    sent so far followed by those still queued are frames that were admitted, in
    the order of their admission and none of them twice. Frames disappear only
    when their channel is closed or evicts them. *)
Theorem class_order_preserved config limits ins outs m k :
  validate_channel_budget_config config = success tt -> budget_typed config ->
  channel_run (new_manager config limits) ins outs m ->
  of_class k outs ++ class_get k (class_queues_ m) `sublist_of` of_class k ins.
Proof.
  intros Hv Ht. assert (Hwf := new_manager_wf _ limits Hv Ht).
  induction 1 as [| ins outs m op o Hrun IH Hd Hp]; [by destruct k |].
  assert (Hm := channel_run_wf _ _ _ _ Hwf Hrun). assert (Ho := perform_order m op o k Hm Hd Hp).
  unfold of_class in *. rewrite !filter_app, <- app_assoc.
  etransitivity; [by apply sublist_app |]. rewrite app_assoc. by apply sublist_app.
Qed.

(** ** Bounded waiting *)

(** The frame an operation offers to the transport, and whether the transport takes
    it or it is put back. *)
Definition offered (m : Manager) (op : channel_op) : list (QueuedSendFrame * bool) :=
  match op, next_to_send m with
  | OpSend, Some (Some e, _) => [(e, true)]
  | OpBounce, Some (Some e, _) => [(e, false)]
  | _, _ => []
  end.

(** A run during which class [k] always has a frame queued, and what it offered. *)
Inductive pending_run (k : FrameClass) (m0 : Manager) : list (QueuedSendFrame * bool) -> Manager -> Prop :=
  | pending_start : pending_run k m0 [] m0
  | pending_next offers m op o :
      pending_run k m0 offers m -> class_get k (class_queues_ m) <> [] ->
      disciplined m op -> perform m op = Some o ->
      pending_run k m0 (offers ++ offered m op) (after o).

Lemma return_tokens m e m' : return_to_send m e = Some m' -> class_state_ m' = class_state_ m.
Proof.
  unfold return_to_send. destruct (frame_wire_size _ _); [| done]. cbn.
  repeat case_match; intros [= <-]; done.
Qed.

Lemma turns_tokens k m m' : class_state_ m' = class_state_ m -> turns k m' = turns k m.
Proof.
  intros Ht. unfold turns, tokens. rewrite Ht.
  assert (Hto : forall ks, tokens_of m' ks = tokens_of m ks).
  { induction ks as [| j ks IH]; [done |]. cbn. unfold tokens. by rewrite IH, Ht. }
  by rewrite !Hto.
Qed.

Lemma pending_run_turns k m0 offers m :
  manager_wf m0 -> pending_run k m0 offers m ->
  manager_wf m /\
  (Exists (fun o => frame_class (fst o) = k) offers \/ zlen offers + turns k m <= turns k m0).
Proof.
  intros Hwf. induction 1 as [| offers m op o _ [Hm IH] Hk Hd Hp]; [split; [done | by right] |].
  destruct (perform_channels_wf m op Hm Hd) as (o' & Hp' & Hw). rewrite Hp in Hp'. injection Hp' as <-.
  split; [done |]. destruct IH as [IH | IH]; [left; apply Exists_app; by left |].
  destruct (send_progress m k Hm Hk) as (e & m' & Hn & He).
  assert (Hstep : forall taken, offered m op = [(e, taken)] -> turns k (after o) = turns k m' ->
    Exists (fun o => frame_class (fst o) = k) (offers ++ offered m op) \/
    zlen (offers ++ offered m op) + turns k (after o) <= turns k m0).
  { intros taken -> ->. destruct He as [He | He]; [left; apply Exists_app; right; by left |].
    right. autorewrite with wire. lia. }
  assert (Hother : op <> OpSend -> op <> OpBounce ->
    zlen (offers ++ offered m op) + turns k (after o) <= turns k m0).
  { intros Hs Hb. destruct (perform_grown m op o Hp Hs Hb) as [_ [Ht _]].
    assert (offered m op = []) as -> by (by destruct op). by rewrite app_nil_r, (turns_tokens k m (after o)). }
  destruct op; try (right; by apply Hother).
  - apply (Hstep true); [unfold offered; by rewrite Hn |]. cbn [perform] in Hp. rewrite Hn in Hp. by injection Hp as <-.
  - apply (Hstep false); [unfold offered; by rewrite Hn |]. cbn [perform] in Hp. rewrite Hn in Hp. cbn in Hp.
    destruct (return_to_send m' e) as [m'' |] eqn:Hr; [| done]. injection Hp as <-. cbn.
    apply turns_tokens. by eapply return_tokens.
Qed.

(** C35. No class is passed over: while frames of a class are waiting, one of them is
    offered to the transport before [weights_of classes + weights_of (before k)]
    other frames are, at most 41 for the lowest class, whatever is queued, sent or
    put back meanwhile. When the transport takes what it is offered, the frame is
    sent; a frame it puts back costs its class the turn. *)
Theorem class_not_starved config limits ins outs m k later m' :
  validate_channel_budget_config config = success tt -> budget_typed config ->
  channel_run (new_manager config limits) ins outs m ->
  pending_run k m later m' ->
  weights_of classes + weights_of (before k) < zlen later ->
  exists e taken, (e, taken) ∈ later /\ frame_class e = k.
Proof.
  intros Hv Ht Hrun Hpend Hlen.
  assert (Hm := channel_run_wf _ _ _ _ (new_manager_wf _ limits Hv Ht) Hrun).
  destruct (pending_run_turns k m later m' Hm Hpend) as [Hm' [He | Hle]].
  - apply Exists_exists in He as ([e taken] & Hin & He). by exists e, taken.
  - assert (H1 := turns_bound k m Hm). assert (H2 := turns_bound k m' Hm'). lia.
Qed.

(** ** Concrete runs *)

(** Decides the discipline on channels that reject. *)
Definition disciplined_b (m : Manager) (op : channel_op) : bool :=
  match op with
  | OpOpen _ _ _ fc bc | OpAllocate _ _ _ fc bc => (0 <=? fc) && (0 <=? bc)
  | OpEnqueue id _ f =>
      match frame_wire_size f (limits_ m) with None => false | Some _ => true end &&
      match channels_ m !! id with
      | None => true
      | Some c => bool_decide (policy c = QueueFullPolicy.reject)
      end
  | OpWait _ => next_waiter_id_ m <? u64_max
  | _ => true
  end.

Lemma disciplined_b_sound m op : disciplined_b m op = true -> disciplined m op.
Proof.
  destruct op; cbn; try done; try lia.
  destruct (frame_wire_size f (limits_ m)); [| done]. intros H. split; [eauto |]. intros c Hc.
  rewrite Hc in H. left. by apply bool_decide_eq_true in H.
Qed.

(** A list of operations performed in turn, as long as they are disciplined. *)
Fixpoint run_ops (m : Manager) (ops : list channel_op) : option Manager :=
  match ops with
  | [] => Some m
  | op :: ops =>
      if disciplined_b m op then
        match perform m op with None => None | Some o => run_ops (after o) ops end
      else None
  end.

Lemma run_ops_run m0 ins outs m ops m' :
  channel_run m0 ins outs m -> run_ops m ops = Some m' -> exists ins' outs', channel_run m0 ins' outs' m'.
Proof.
  revert ins outs m. induction ops as [| op ops IH]; intros ins outs m Hrun H; cbn in *.
  { injection H as <-. eauto. }
  destruct (disciplined_b m op) eqn:Hd; [| done]. destruct (perform m op) as [o |] eqn:Ho; [| done].
  eapply IH; [| exact H]. eapply run_next; [done | by apply disciplined_b_sound | done].
Qed.

Definition message_frame (id : Z) : Frame :=
  mkFrame (frame_type_value message) 0 id (repeat 1 16) (repeat 0 16).

(** [run_ops] while class [k] has a frame queued; also returns what was offered. *)
Fixpoint run_pending (k : FrameClass) (m : Manager) (ops : list channel_op)
    : option (list (QueuedSendFrame * bool) * Manager) :=
  match ops with
  | [] => Some ([], m)
  | op :: ops =>
      match class_get k (class_queues_ m), disciplined_b m op, perform m op with
      | _ :: _, true, Some o =>
          match run_pending k (after o) ops with
          | None => None
          | Some (offers, m') => Some (offered m op ++ offers, m')
          end
      | _, _, _ => None
      end
  end.

Lemma run_pending_run k m0 offers m ops offers' m' :
  pending_run k m0 offers m -> run_pending k m ops = Some (offers', m') ->
  pending_run k m0 (offers ++ offers') m'.
Proof.
  revert offers m offers'. induction ops as [| op ops IH]; intros offers m offers' Hrun H; cbn [run_pending] in H.
  { injection H as <- <-. by rewrite app_nil_r. }
  destruct (class_get k (class_queues_ m)) as [| e q] eqn:Hq; [done |].
  destruct (disciplined_b m op) eqn:Hd; [| done]. destruct (perform m op) as [o |] eqn:Ho; [| done].
  destruct (run_pending k (after o) ops) as [[o1 m1] |] eqn:Hr; [| done]. injection H as <- <-.
  rewrite app_assoc. eapply IH; [| exact Hr]. eapply pending_next; try done; [congruence |].
  by apply disciplined_b_sound.
Qed.

(** Forty-three bulk frames on one channel. *)
Definition bulk_backlog : list channel_op :=
  OpOpen 1 ChannelDomain.file QueueFullPolicy.reject 64 65536 ::
  repeat (OpEnqueue 1 FrameClass.bulk (message_frame 1)) 43.

Definition backlog_manager : Manager :=
  default (new_manager default_budget default_limits)
    (run_ops (new_manager default_budget default_limits) bulk_backlog).

Lemma bulk_backlog_run :
  exists ins outs, channel_run (new_manager default_budget default_limits) ins outs backlog_manager.
Proof.
  eapply (run_ops_run _ _ _ _ bulk_backlog); [apply run_start |]. vm_compute. reflexivity.
Qed.

(** Forty-two frames are sent from it. *)
Definition backlog_sent : list (QueuedSendFrame * bool) * Manager :=
  default ([], backlog_manager) (run_pending FrameClass.bulk backlog_manager (repeat OpSend 42)).

Lemma backlog_pending :
  pending_run FrameClass.bulk backlog_manager (fst backlog_sent) (snd backlog_sent).
Proof.
  assert (H := run_pending_run FrameClass.bulk backlog_manager [] backlog_manager (repeat OpSend 42)
    (fst backlog_sent) (snd backlog_sent) (pending_start _ _)).
  rewrite app_nil_l in H. apply H. vm_compute. reflexivity.
Qed.

Lemma default_budget_ok :
  validate_channel_budget_config default_budget = success tt /\ budget_typed default_budget.
Proof. split; [done |]. unfold budget_typed. cbn. lia. Qed.

Lemma channel_budgets_hold_witness :
  manager_wf backlog_manager /\ is_Some (perform backlog_manager OpSend).
Proof.
  destruct bulk_backlog_run as (ins & outs & Hrun).
  destruct (channel_budgets_hold default_budget default_limits ins outs backlog_manager
    (proj1 default_budget_ok) (proj2 default_budget_ok) Hrun) as [H1 H2].
  split; [exact H1 | exact (H2 OpSend I)].
Defined.

Lemma class_order_preserved_witness :
  exists ins outs, of_class FrameClass.bulk outs ++
    class_get FrameClass.bulk (class_queues_ backlog_manager) `sublist_of` of_class FrameClass.bulk ins.
Proof.
  destruct bulk_backlog_run as (ins & outs & Hrun). exists ins, outs.
  apply (class_order_preserved default_budget default_limits ins outs backlog_manager FrameClass.bulk
    (proj1 default_budget_ok) (proj2 default_budget_ok) Hrun).
Defined.

Lemma class_not_starved_witness :
  zlen (fst backlog_sent) = 42 /\
  exists e taken, (e, taken) ∈ fst backlog_sent /\ frame_class e = FrameClass.bulk.
Proof.
  assert (Hl : zlen (fst backlog_sent) = 42) by (vm_compute; reflexivity). split; [exact Hl |].
  destruct bulk_backlog_run as (ins & outs & Hrun).
  apply (class_not_starved default_budget default_limits ins outs backlog_manager FrameClass.bulk
    (fst backlog_sent) (snd backlog_sent) (proj1 default_budget_ok) (proj2 default_budget_ok) Hrun
    backlog_pending). rewrite Hl. reflexivity.
Defined.

(** A turn that is put back is lost: [return_to_send] keeps the budgets but not the
    token of the class. A transport that takes four frames of the standard class and
    is full at the fifth offer, over and over, sends two hundred of them while one
    bulk frame waits, is offered fifty times and never sent. *)
Definition busy_round : list channel_op :=
  concat (repeat [OpEnqueue 1 FrameClass.standard (message_frame 1); OpSend] 4) ++ [OpBounce].

Definition busy_rounds : option (list (QueuedSendFrame * bool) * Manager) :=
  match run_ops (new_manager default_budget default_limits)
          [OpOpen 1 ChannelDomain.file QueueFullPolicy.reject 64 65536; OpEnqueue 1 FrameClass.bulk (message_frame 1)] with
  | Some m => run_pending FrameClass.bulk m (concat (repeat busy_round 50))
  | None => None
  end.

Lemma returned_turn_lost :
  option_map (fun r => (length (filter (fun o => snd o = true) (fst r)),
                        length (filter (fun o => frame_class (fst o) = FrameClass.bulk) (fst r)),
                        length (filter (fun o => frame_class (fst o) = FrameClass.bulk /\ snd o = true) (fst r)))) busy_rounds
    = Some (200%nat, 50%nat, 0%nat).
Proof. vm_compute. reflexivity. Qed.
