(* ===== verification/CapacityWaits.v ===== *)
(** * Capacity waits

    The tickets of [SessionChannelManager::wait_for_capacity]: along every run of
    [ChannelScheduling.v] a ticket completes at most once, and when the manager
    is destroyed every ticket ever issued has completed exactly once. Two runs
    show waits and budgets that the manager forgets. *)

From Stdlib Require Import ZArith Lia ZifyBool String.
From stdpp Require Import base tactics option list gmap sorting numbers strings.
From S2P Require Import Prelude Errors Limits Varint Wire FrameStream Clock SessionChannels.
From S2P Require Import ChannelScheduling.
#[local] Open Scope Z_scope.

Import Wire FrameStream SessionChannels.

(** The ticket at [a] has not been called back. *)
Definition waiting (m : Manager) (a : Z) : Prop := exists w, waiters_ m !! w = Some a.

Record waits_wf (m : Manager) : Prop := {
  waits_registered : forall w a, waiters_ m !! w = Some a ->
    exists c, controls m !! a = Some c /\ completed c = false /\ waiter_id c = w /\ manager c = true;
  waits_pending : forall a c, controls m !! a = Some c -> completed c = false ->
    waiters_ m !! waiter_id c = Some a;
  waits_settled : forall a c, controls m !! a = Some c -> completed c = true -> manager c = false;
  waits_once : NoDup (fst <$> completions m);
  waits_log : forall a, a ∈ fst <$> completions m <-> 1 <= a < next_control m /\ ~ waiting m a;
  waits_issued : forall a c, controls m !! a = Some c -> 1 <= a < next_control m;
  waits_ids : forall w a, waiters_ m !! w = Some a -> 1 <= w < next_waiter_id_ m;
  waits_address : 1 <= next_control m;
  waits_counter : 1 <= next_waiter_id_ m < 2 ^ 64;
}.

(** Managers with the same tickets. *)
Definition same_waits (m m' : Manager) : Prop :=
  waiters_ m = waiters_ m' /\ next_waiter_id_ m = next_waiter_id_ m' /\ controls m = controls m' /\
  next_control m = next_control m' /\ completions m = completions m'.

#[export] Instance same_waits_equiv : Equivalence same_waits.
Proof. unfold same_waits. split; [intros m | intros m m' | intros m m' m'']; naive_solver congruence. Qed.

Lemma same_waits_wf m m' : same_waits m m' -> waits_wf m -> waits_wf m'.
Proof.
  intros (H1 & H2 & H3 & H4 & H5) []. unfold waiting in *. rewrite H1, H3, H5 in *.
  constructor; unfold waiting; rewrite <- ?H2, <- ?H4; try done; by rewrite <- H1.
Qed.

#[export] Instance waits_wf_proper : Proper (same_waits ==> iff) waits_wf.
Proof. intros m m' H. split; apply same_waits_wf; done || by symmetry. Qed.

(** A ticket has one waiter number. *)
Lemma waits_unique m w w' a :
  waits_wf m -> waiters_ m !! w = Some a -> waiters_ m !! w' = Some a -> w = w'.
Proof.
  intros Hwf H1 H2. destruct (waits_registered m Hwf _ _ H1) as (c & Hc & _ & <- & _).
  destruct (waits_registered m Hwf _ _ H2) as (c' & Hc' & _ & <- & _). congruence.
Qed.

Lemma NoDup_snoc {A} (l : list A) x : NoDup l -> x ∉ l -> NoDup (l ++ [x]).
Proof. intros. apply NoDup_app. split_and!; [done | set_solver | apply NoDup_singleton]. Qed.

Lemma complete_waiter_waits m w r : waits_wf m -> waits_wf (complete_waiter m w r).
Proof.
  intros Hwf. unfold complete_waiter. destruct (waiters_ m !! w) as [a |] eqn:Hw; [| done].
  assert (Hreg := waits_registered m Hwf _ _ Hw). destruct Hreg as (c & Hc & Hd & Hid & _).
  rewrite Hc. assert (Hu := fun w' => waits_unique m w w' a Hwf Hw). destruct Hwf.
  assert (Hna : a ∉ fst <$> completions m) by (rewrite waits_log0; intros [_ []]; by exists w).
  constructor; cbn; try done.
  - intros w' a' [Hne Hw']%lookup_delete_Some. destruct (waits_registered0 _ _ Hw') as (c' & Hc' & ?).
    exists c'. split; [| done]. rewrite lookup_insert_ne; [done |]. intros ->. by apply Hne, Hu.
  - intros a' c' Hc' Hd'. apply lookup_insert_Some in Hc' as [[<- <-] | [Hne Hc']]; [done |].
    rewrite lookup_delete_ne; [by apply waits_pending0 |]. intros ->.
    assert (Heq := waits_pending0 _ _ Hc' Hd'). congruence.
  - intros a' c' Hc'. apply lookup_insert_Some in Hc' as [[<- <-] | [Hne Hc']]; [done |]. by eapply waits_settled0.
  - rewrite fmap_app. by apply NoDup_snoc.
  - intros a'. rewrite fmap_app, elem_of_app, waits_log0. cbn. rewrite list_elem_of_singleton. unfold waiting. cbn.
    split.
    + intros [[Hr Hn] | ->].
      * split; [done |]. intros [w' [_ Hw']%lookup_delete_Some]. apply Hn. by exists w'.
      * split; [by eapply waits_issued0 |]. intros [w' [Hne Hw']%lookup_delete_Some]. by apply Hne, Hu.
    + intros [Hr Hn]. destruct (decide (a' = a)) as [-> |]; [by right | left]. split; [done |].
      intros [w' Hw']. apply Hn. exists w'. rewrite lookup_delete_ne; [done |]. intros ->. congruence.
  - intros a' c' Hc'. apply lookup_insert_Some in Hc' as [[<- <-] | [Hne Hc']]; [by eapply waits_issued0 |].
    by eapply waits_issued0.
  - intros w' a' [_ Hw']%lookup_delete_Some. by eapply waits_ids0.
Qed.

Lemma complete_waiters_waits m ws r :
  waits_wf m -> waits_wf (foldl (fun m w => complete_waiter m w r) m ws).
Proof.
  revert m. induction ws as [| w ws IH]; intros m Hwf; [done |]. cbn. apply IH. by apply complete_waiter_waits.
Qed.

Lemma notify_loop_waits id ws m : waits_wf m -> waits_wf (notify_loop id ws m).
Proof.
  revert m. induction ws as [| w ws IH]; intros m Hwf; cbn [notify_loop];
    destruct (channels_ m !! id) as [c |]; try done.
  destruct (_ && _); [| done]. cbv zeta. apply IH.
  apply (same_waits_wf (complete_waiter
    (set_channels m (<[id := set_channel_waiters c ws]> (channels_ m))) w (success tt))); [done |].
  apply complete_waiter_waits. by apply (same_waits_wf m).
Qed.

Lemma uncharge_waits m e size : waits_wf m -> waits_wf (uncharge m e size).
Proof.
  intros Hwf. unfold uncharge. case_bool_decide; [by apply (same_waits_wf m) |].
  set (m1 := match channels_ m !! queued_channel_id e with None => m | Some c => _ end).
  apply (same_waits_wf m1); [done |]. unfold m1. destruct (channels_ m !! queued_channel_id e) as [c |]; [| done].
  cbv zeta. set (m2 := set_channels m _). assert (Hm2 : waits_wf m2) by (by apply (same_waits_wf m)).
  case_match; [done |]. unfold notify_capacity. case_match; [by apply notify_loop_waits | done].
Qed.

Lemma pick_waits m ks r m' : waits_wf m -> pick m ks = Some (r, m') -> waits_wf m'.
Proof.
  intros Hwf. induction ks as [| k ks IH]; cbn [pick]; [by intros [= _ <-] |].
  destruct (class_get k (class_queues_ m)) as [| e q]; [done |].
  destruct (_ =? 0); [done |]. destruct (frame_wire_size _ _); [| done]. intros [= _ <-].
  apply uncharge_waits. by apply (same_waits_wf m).
Qed.

Lemma next_to_send_waits m r m' : waits_wf m -> next_to_send m = Some (r, m') -> waits_wf m'.
Proof.
  unfold next_to_send. generalize 2%nat. intros fuel. revert m. induction fuel as [| fuel IH]; intros m Hwf; cbn [next_to_send_fuel].
  { by intros [= _ <-]. }
  destruct (pick m classes) as [[[e |] m1] |] eqn:E; [| | done].
  - intros [= <- <-]. by eapply pick_waits.
  - assert (H1 := pick_waits _ _ _ _ Hwf E). destruct (negb _); [by intros [= _ <-] |].
    apply IH. by apply (same_waits_wf m1).
Qed.

Lemma return_waits m e m' : waits_wf m -> return_to_send m e = Some m' -> waits_wf m'.
Proof.
  intros Hwf. unfold return_to_send. destruct (frame_wire_size _ _); [| done]. intros [= <-].
  apply (same_waits_wf m); [| done]. case_bool_decide; [done |]. by destruct (channels_ m !! _).
Qed.

Lemma close_waits m id : waits_wf m -> waits_wf (close_channel m id).
Proof.
  intros Hwf. unfold close_channel. destruct (channels_ m !! id) as [c |]; [| done]. cbv zeta.
  set (m1 := foldl _ m (waiters c)). apply (same_waits_wf m1); [done |]. by apply complete_waiters_waits.
Qed.

Lemma close_all_waits m : waits_wf m -> waits_wf (close_all m).
Proof.
  unfold close_all. generalize (fst <$> filter (fun kv : Z * ChannelState => open (snd kv) = true)
    (iterate (channels_ m))). intros ids. revert m. induction ids as [| id ids IH]; intros m Hwf; [done |].
  cbn. apply IH. by apply close_waits.
Qed.

Lemma enqueue_same_waits m id klass f r m' : enqueue m id klass f = Some (r, m') -> same_waits m m'.
Proof.
  assert (Hpush : forall m size receipt, same_waits m (snd (push_business m id klass f size receipt))).
  { intros m0 size receipt. unfold push_business. by repeat case_match. }
  unfold enqueue. case_bool_decide.
  - unfold enqueue_control. repeat case_match; intros; simplify_eq; done.
  - destruct (channels_ m !! id) as [c |]; [| by intros [= _ <-]]. destruct (negb _); [by intros [= _ <-] |].
    unfold enqueue_business. destruct (frame_wire_size f _) as [size |]; [| done]. cbv zeta.
    destruct ((_ <? _) || (per_peer_queued_bytes _ <? _)); [by intros [= _ <-] |].
    destruct (_ || bool_decide _).
    + destruct (evict m id c) as [[[receipt | err] m1] |] eqn:He; [| | done];
        (assert (H1 : same_waits m m1) by (unfold evict in He; repeat case_match; simplify_eq; done)).
      * intros [= Hp]. etransitivity; [exact H1 |]. assert (Hg := Hpush m1 size receipt). by rewrite Hp in Hg.
      * by intros [= _ <-].
    + intros [= Hp]. assert (Hg := Hpush m size (mkReceipt false false 0)). by rewrite Hp in Hg.
Qed.

Lemma open_same_waits m id d p fc bc : same_waits m (snd (open_channel m id d p fc bc)).
Proof. unfold open_channel. by repeat case_match. Qed.

Lemma allocate_same_waits fuel candidate m d p fc bc :
  same_waits m (snd (allocate_loop fuel candidate m d p fc bc)).
Proof.
  revert candidate. induction fuel as [| fuel IH]; intros candidate; cbn [allocate_loop]; [done |].
  destruct (negb _); [done |]. destruct (bool_decide _); [apply IH |].
  assert (Ho := open_same_waits m candidate d p fc bc).
  by destruct (open_channel m candidate d p fc bc) as [[] m'].
Qed.

(** A fresh address has no block and has not been called. *)
Lemma waits_fresh m :
  waits_wf m -> controls m !! next_control m = None /\ ~ waiting m (next_control m) /\
  next_control m ∉ fst <$> completions m.
Proof.
  intros []. assert (Hn : controls m !! next_control m = None).
  { destruct (controls m !! next_control m) as [c |] eqn:E; [| done]. apply waits_issued0 in E. lia. }
  split_and!; [done | |].
  - intros [w Hw]. apply waits_registered0 in Hw as (c & Hc & _). congruence.
  - rewrite waits_log0. lia.
Qed.

Lemma wait_for_capacity_waits m id :
  waits_wf m -> next_waiter_id_ m < u64_max -> waits_wf (snd (wait_for_capacity m id)).
Proof.
  intros Hwf Hlt. unfold u64_max in Hlt. destruct (waits_fresh m Hwf) as (Hfc & Hfw & Hfl).
  unfold wait_for_capacity. destruct (channels_ m !! id) as [c |]; [| done].
  destruct (negb (open c)); [done |]. cbv zeta. destruct (_ && _); [| destruct (_ <=? _); [done |]].
  - destruct Hwf. constructor; cbn; try done; try lia.
    + intros w a Hw. destruct (waits_registered0 _ _ Hw) as (c' & Hc' & ?). exists c'.
      rewrite lookup_insert_ne; [done |]. congruence.
    + intros a c' Hc'. apply lookup_insert_Some in Hc' as [[<- <-] | [_ Hc']]; [done | by apply waits_pending0].
    + intros a c' Hc'. apply lookup_insert_Some in Hc' as [[<- <-] | [_ Hc']]; [done | by eapply waits_settled0].
    + rewrite fmap_app. by apply NoDup_snoc.
    + intros a. rewrite fmap_app, elem_of_app, waits_log0. cbn. rewrite list_elem_of_singleton. split.
      * intros [[Hr Hn] | ->]; (split; [lia | done]).
      * intros [Hr Hn]. destruct (decide (a = next_control m)); [by right | left]. split; [lia | done].
    + intros a c' Hc'. apply lookup_insert_Some in Hc' as [[<- <-] | [_ Hc']]; [lia |].
      apply waits_issued0 in Hc'. lia.
  - set (w0 := next_waiter_id_ m) in *. destruct Hwf. cbn [snd].
    assert (Hfresh : waiters_ m !! w0 = None).
    { destruct (waiters_ m !! w0) eqn:E; [| done]. apply waits_ids0 in E. unfold w0 in E. lia. }
    constructor; cbn; rewrite ?u64_small by lia; try done; try lia.
    + intros w a Hw. apply lookup_insert_Some in Hw as [[<- <-] | [Hne Hw]].
      * eexists. by rewrite lookup_insert_eq.
      * destruct (waits_registered0 _ _ Hw) as (c' & Hc' & ?). exists c'. rewrite lookup_insert_ne; [done | congruence].
    + intros a c' Hc' Hd'. apply lookup_insert_Some in Hc' as [[<- <-] | [_ Hc']]; cbn; [apply lookup_insert_eq |].
      assert (Hp := waits_pending0 _ _ Hc' Hd'). rewrite lookup_insert_ne; [done | congruence].
    + intros a c' Hc'. apply lookup_insert_Some in Hc' as [[<- <-] | [_ Hc']]; [done | by eapply waits_settled0].
    + intros a. rewrite waits_log0. unfold waiting. cbn. split.
      * intros [Hr Hn]. split; [lia |]. intros [w Hw]. apply lookup_insert_Some in Hw as [[_ <-] | [_ Hw]]; [lia |].
        apply Hn. by exists w.
      * intros [Hr Hn]. assert (a <> next_control m).
        { intros ->. apply Hn. exists w0. apply lookup_insert_eq. }
        split; [lia |]. intros [w Hw]. apply Hn. exists w. rewrite lookup_insert_ne; [done | congruence].
    + intros a c' Hc'. apply lookup_insert_Some in Hc' as [[<- <-] | [_ Hc']]; [lia |].
      apply waits_issued0 in Hc'. lia.
    + intros w a Hw. apply lookup_insert_Some in Hw as [[<- _] | [_ Hw]]; [lia |]. apply waits_ids0 in Hw. lia.
Qed.

Lemma detach_waits m a : waits_wf m -> waits_wf (detach m a).
Proof.
  intros Hwf. unfold detach. destruct (controls m !! a) as [c |] eqn:Hc; [| done]. cbv zeta.
  destruct (completed c) eqn:Hd.
  - rewrite (waits_settled m Hwf _ _ Hc Hd). destruct Hwf. constructor; cbn; try done.
    + intros w a' Hw. destruct (waits_registered0 _ _ Hw) as (c' & Hc' & Hd' & ?).
      assert (a <> a') by congruence. exists c'. by rewrite lookup_delete_ne, lookup_insert_ne by done.
    + intros a' c' Hc'. apply lookup_delete_Some in Hc' as [Hne Hc']. rewrite lookup_insert_ne in Hc' by done.
      by apply waits_pending0.
    + intros a' c' Hc'. apply lookup_delete_Some in Hc' as [Hne Hc']. rewrite lookup_insert_ne in Hc' by done.
      by eapply waits_settled0.
    + intros a' c' Hc'. apply lookup_delete_Some in Hc' as [Hne Hc']. rewrite lookup_insert_ne in Hc' by done.
      by eapply waits_issued0.
  - assert (Hw := waits_pending m Hwf _ _ Hc Hd).
    assert (Hm : manager c = true).
    { destruct (waits_registered m Hwf _ _ Hw) as (c' & Hc' & _ & _ & Hm). congruence. }
    rewrite Hm. assert (Hu := fun w' => waits_unique m (waiter_id c) w' a Hwf Hw). destruct Hwf.
    assert (Hna : a ∉ fst <$> completions m) by (rewrite waits_log0; intros [_ []]; by exists (waiter_id c)).
    constructor; cbn; try done.
    + intros w a' Hw'. apply lookup_delete_Some in Hw' as [Hne Hw'].
      destruct (waits_registered0 _ _ Hw') as (c' & Hc' & ?).
      assert (a <> a') by (intros ->; by apply Hne, Hu). exists c'. by rewrite lookup_delete_ne, lookup_insert_ne by done.
    + intros a' c' Hc' Hd'. apply lookup_delete_Some in Hc' as [Hne Hc']. rewrite lookup_insert_ne in Hc' by done.
      assert (Hp := waits_pending0 _ _ Hc' Hd'). rewrite lookup_delete_ne; [done | congruence].
    + intros a' c' Hc'. apply lookup_delete_Some in Hc' as [Hne Hc']. rewrite lookup_insert_ne in Hc' by done.
      by eapply waits_settled0.
    + rewrite fmap_app. by apply NoDup_snoc.
    + intros a'. rewrite fmap_app, elem_of_app, waits_log0. cbn. rewrite list_elem_of_singleton. unfold waiting. cbn. split.
      * intros [[Hr Hn] | ->].
        -- split; [done |]. intros [w' [_ Hw']%lookup_delete_Some]. apply Hn. by exists w'.
        -- split; [by eapply waits_issued0 |]. intros [w' [Hne Hw']%lookup_delete_Some]. by apply Hne, Hu.
      * intros [Hr Hn]. destruct (decide (a' = a)) as [-> |]; [by right | left]. split; [done |].
        intros [w' Hw']. apply Hn. exists w'. rewrite lookup_delete_ne; [done |]. congruence.
    + intros a' c' Hc'. apply lookup_delete_Some in Hc' as [Hne Hc']. rewrite lookup_insert_ne in Hc' by done.
      by eapply waits_issued0.
    + intros w a' [_ Hw']%lookup_delete_Some. by eapply waits_ids0.
Qed.

Lemma perform_waits m op o : waits_wf m -> disciplined m op -> perform m op = Some o -> waits_wf (after o).
Proof.
  intros Hwf Hd H. destruct op; cbn [perform disciplined] in *; try (injection H as <-; cbn).
  - apply (same_waits_wf m); [apply open_same_waits | done].
  - apply (same_waits_wf m); [apply allocate_same_waits | done].
  - by apply close_waits.
  - by apply close_all_waits.
  - destruct (enqueue m id klass f) as [[[receipt | err] m'] |] eqn:E; [| | done]; injection H as <-; cbn;
      apply (same_waits_wf m); (done || by eapply enqueue_same_waits).
  - destruct (next_to_send m) as [[[e |] m'] |] eqn:E; [| | done]; injection H as <-; by eapply next_to_send_waits.
  - destruct (next_to_send m) as [[[e |] m'] |] eqn:E; [| | done].
    + destruct (return_to_send m' e) as [m'' |] eqn:Er; [| done]. injection H as <-. cbn.
      eapply return_waits; [| exact Er]. by eapply next_to_send_waits.
    + injection H as <-. by eapply next_to_send_waits.
  - by apply wait_for_capacity_waits.
  - by apply detach_waits.
Qed.

Lemma new_manager_waits config limits : waits_wf (new_manager config limits).
Proof.
  constructor; cbn; try done; try lia; try (intros a; rewrite elem_of_nil; lia). apply NoDup_nil_2.
Qed.

Lemma channel_run_waits config limits ins outs m :
  channel_run (new_manager config limits) ins outs m -> waits_wf m.
Proof.
  induction 1 as [| ins outs m op o _ IH Hd Hp]; [apply new_manager_waits | by eapply perform_waits].
Qed.

(** ** Tickets complete once *)

Lemma complete_waiter_waiters m w r : waiters_ (complete_waiter m w r) = delete w (waiters_ m).
Proof.
  unfold complete_waiter. destruct (waiters_ m !! w) as [a |] eqn:Hw; [by case_match | by rewrite delete_id].
Qed.

Lemma complete_waiter_next m w r : next_control (complete_waiter m w r) = next_control m.
Proof. unfold complete_waiter. by repeat case_match. Qed.

Lemma destroy_fold l e m :
  waits_wf m ->
  let m' := foldl (fun m (w : Z * Z) => complete_waiter m (fst w) (failure e)) m l in
  waits_wf m' /\ next_control m' = next_control m /\
  (forall w a, waiters_ m' !! w = Some a -> waiters_ m !! w = Some a /\ w ∉ fst <$> l).
Proof.
  revert m. induction l as [| [w a] l IH]; intros m Hwf; cbn [foldl].
  { split_and!; try done. intros w a Hw. split; [done | by apply not_elem_of_nil]. }
  destruct (IH (complete_waiter m w (failure e)) (complete_waiter_waits _ _ _ Hwf)) as (H1 & H2 & H3).
  cbn in *. split_and!; [done | by rewrite H2, complete_waiter_next |].
  intros w' a' Hw'. destruct (H3 w' a' Hw') as [H4 H5]. rewrite complete_waiter_waiters in H4.
  apply lookup_delete_Some in H4 as [Hne H4]. split; [done |]. rewrite not_elem_of_cons. done.
Qed.

Lemma destroy_all m :
  waits_wf m -> waits_wf (destroy_manager m) /\ next_control (destroy_manager m) = next_control m /\
  forall a, ~ waiting (destroy_manager m) a.
Proof.
  intros Hwf. unfold destroy_manager.
  destruct (destroy_fold (iterate (waiters_ m)) (session_channel_error ErrorCode.cancelled
    "session_channels_closed") m Hwf) as (H1 & H2 & H3).
  split_and!; [done | done |]. intros a [w Hw]. destruct (H3 w a Hw) as [H4 H5]. apply H5.
  apply list_elem_of_fmap. exists (w, a). split; [done |]. by apply elem_of_iterate.
Qed.

(** A capacity wait completes exactly once. Along every run no ticket is
    called back twice, a ticket that has not been called back is registered, and
    once the manager is gone every ticket it ever issued has been called back
    exactly once, whether capacity appeared, the channel closed, the caller gave
    up or the session ended. *)
Theorem capacity_wait_once config limits ins outs m :
  channel_run (new_manager config limits) ins outs m ->
  NoDup (fst <$> completions m) /\
  (forall a, 1 <= a < next_control m -> a ∈ fst <$> completions m \/ waiting m a) /\
  fst <$> completions (destroy_manager m) ≡ₚ seqZ 1 (next_control m - 1).
Proof.
  intros Hrun. assert (Hwf := channel_run_waits _ _ _ _ _ Hrun).
  destruct (destroy_all m Hwf) as (Hwf' & Hn & Hnone). split_and!; [by apply waits_once | |].
  - intros a Ha. destruct (decide (a ∈ fst <$> completions m)) as [| Hna]; [by left | right].
    rewrite (waits_log m Hwf) in Hna. unfold waiting.
    destruct (decide (Exists (fun kv => snd kv = a) (iterate (waiters_ m)))) as [He | He].
    + apply Exists_exists in He as ([w a'] & Hin & <-). exists w. by apply elem_of_iterate.
    + exfalso. apply Hna. split; [done |]. intros [w Hw]. apply He, Exists_exists. exists (w, a).
      split; [by apply elem_of_iterate | done].
  - apply NoDup_Permutation; [by apply waits_once | apply NoDup_seqZ |]. intros a.
    rewrite (waits_log _ Hwf'), Hn, elem_of_seqZ. specialize (Hnone a). split; [lia |]. intros. split; [lia | done].
Qed.

(** ** What the manager forgets *)

(** A stream reset frame on a business channel, sixteen bytes long. *)
Definition reset_frame (id : Z) : Frame :=
  mkFrame (frame_type_value stream_reset) 0 id (repeat 1 16) (repeat 0 16).

(** A channel is opened, one control frame is queued on it, the channel closes. *)
Definition leak_round : list channel_op :=
  [OpOpen 1 ChannelDomain.stream QueueFullPolicy.reject 8 8192;
   OpEnqueue 1 FrameClass.control (reset_frame 1);
   OpClose 1].

(** Closing a channel forgets its control frames: [close_channel] removes
    them from the queue and keeps them charged to the control reservation. With
    the default budgets, 64 channels that close with one control frame queued
    leave a session with nothing queued and no channel open that refuses every
    further control frame. *)
Theorem control_reservation_leaks :
  exists ins outs m,
    channel_run (new_manager default_budget default_limits) ins outs m /\
    has_sendable_frames m = false /\ channels_ m = empty /\
    forall id f, enqueue m id FrameClass.control f =
      Some (failure (session_channel_error ErrorCode.would_block "control_reservation_full"), m).
Proof.
  assert (Hops : exists m, run_ops (new_manager default_budget default_limits) (concat (repeat leak_round 64)) = Some m /\
    has_sendable_frames m = false /\ map_to_list (channels_ m) = [] /\
    control_queued_frames_ m = 64 /\ control_reserved_frames (config_ m) = 64).
  { eexists. split; [vm_compute; reflexivity |]. split_and!; vm_compute; reflexivity. }
  destruct Hops as (m & Hm & Hs & Hc & Hq & Hr).
  destruct (run_ops_run _ _ _ _ _ m (run_start _) Hm) as (ins & outs & Hrun).
  exists ins, outs, m. split_and!; [done | done | by apply map_to_list_empty_iff |].
  intros id f. unfold enqueue, enqueue_control. cbn [bool_decide]. rewrite bool_decide_eq_true_2 by done.
  rewrite Hq, Hr. done.
Qed.

(** A budget of one business frame for the peer. *)
Definition narrow_budget : ChannelBudgetConfig := mkBudget 16 1 8388608 1 65536 1024 8388608.

(** A wait for the peer budget is not woken: when another channel's frames
    used up the budget, sending them makes room but [next_to_send] notifies only
    the waiters of the channel it sent from, so a ticket of an idle channel
    stays registered although its channel has capacity and nothing is queued. *)
Theorem capacity_wait_stranded :
  exists ins outs m c,
    validate_channel_budget_config narrow_budget = success tt /\
    channel_run (new_manager narrow_budget default_limits) ins outs m /\
    waiting m 1 /\ total_queued_frames m = 0 /\ has_sendable_frames m = false /\
    channels_ m !! 3 = Some c /\ waiters c = [1] /\ queued_frames c < queued_frame_capacity c /\
    queued_bytes c < queued_byte_capacity c.
Proof.
  set (ops := [OpOpen 1 ChannelDomain.message QueueFullPolicy.reject 8 8192;
               OpOpen 3 ChannelDomain.message QueueFullPolicy.reject 8 8192;
               OpEnqueue 1 FrameClass.standard (message_frame 1); OpWait 3; OpSend]).
  assert (Hops : exists m c, run_ops (new_manager narrow_budget default_limits) ops = Some m /\
    waiters_ m !! 1 = Some 1 /\ total_queued_frames m = 0 /\ has_sendable_frames m = false /\
    channels_ m !! 3 = Some c /\ waiters c = [1] /\ queued_frames c < queued_frame_capacity c /\
    queued_bytes c < queued_byte_capacity c).
  { eexists _, _. split; [vm_compute; reflexivity |]. split_and!; vm_compute; reflexivity. }
  destruct Hops as (m & c & Hm & Hw & H).
  destruct (run_ops_run _ _ _ _ _ m (run_start _) Hm) as (ins & outs & Hrun).
  exists ins, outs, m, c. split; [done |]. split; [done |]. split; [by exists 1 | done].
Qed.

Lemma capacity_wait_once_witness : NoDup (fst <$> completions backlog_manager).
Proof.
  destruct bulk_backlog_run as (ins & outs & Hrun).
  apply (capacity_wait_once default_budget default_limits ins outs backlog_manager Hrun).
Defined.
