(* ===== verification/PairingProtocol.v ===== *)
(** * The pairing protocol

    [include/heyaki/pairing_protocol.hpp] and [src/core/pairing_protocol.cpp]:
    the bodies of PAIRING_REQUEST, PAIRING_APPROVAL_REQUEST and PAIRING_RESULT
    with their wire codecs, and [PairingRequestAdmission], the per-session gate
    that counts attempts and replays cached results.

    The theorems: what encodes within the payload ceiling is parsed back, and
    whatever is parsed is well formed; over any sequence of operations at most
    [max_pairing_attempts_per_session] requests are admitted, and a duplicate is
    answered with the result last recorded for it. *)

From Stdlib Require Import ZArith Lia ZifyBool String.
From stdpp Require Import base tactics option list numbers strings.
From S2P Require Import Prelude Errors Limits Varint ProtoCodec FieldCodec TrustGrant.
#[local] Open Scope Z_scope.

(** [enum class StableStatus]. *)
Module StableStatus.
Inductive StableStatus : Type :=
  | unspecified | ok | cancelled | deadline_exceeded | unauthenticated | permission_denied
  | not_found | already_exists | resource_exhausted | failed_precondition | unavailable
  | internal | unimplemented | protocol_error | outcome_unknown.
End StableStatus.
Abbreviation StableStatus := StableStatus.StableStatus.

#[export] Instance StableStatus_eq_dec : EqDecision StableStatus.
Proof. solve_decision. Defined.

(** [enum class PairingAdmissionAction]. *)
Module PairingAdmissionAction.
Inductive PairingAdmissionAction : Type := admitted | duplicate.
End PairingAdmissionAction.
Abbreviation PairingAdmissionAction := PairingAdmissionAction.PairingAdmissionAction.

Module PairingProtocol.
Import ProtoCodec TrustGrant.

Definition stable_status_value (status : StableStatus) : Z :=
  match status with
  | StableStatus.unspecified => 0 | StableStatus.ok => 1 | StableStatus.cancelled => 2
  | StableStatus.deadline_exceeded => 3 | StableStatus.unauthenticated => 4
  | StableStatus.permission_denied => 5 | StableStatus.not_found => 6
  | StableStatus.already_exists => 7 | StableStatus.resource_exhausted => 8
  | StableStatus.failed_precondition => 9 | StableStatus.unavailable => 10
  | StableStatus.internal => 11 | StableStatus.unimplemented => 12
  | StableStatus.protocol_error => 13 | StableStatus.outcome_unknown => 14
  end.

Definition stable_statuses : list StableStatus :=
  [StableStatus.unspecified; StableStatus.ok; StableStatus.cancelled; StableStatus.deadline_exceeded;
   StableStatus.unauthenticated; StableStatus.permission_denied; StableStatus.not_found;
   StableStatus.already_exists; StableStatus.resource_exhausted; StableStatus.failed_precondition;
   StableStatus.unavailable; StableStatus.internal; StableStatus.unimplemented;
   StableStatus.protocol_error; StableStatus.outcome_unknown].

(** [static_cast<StableStatus>(value)] of a value up to [outcome_unknown]. *)
Definition stable_status_of (value : Z) : StableStatus :=
  nth (Z.to_nat value) stable_statuses StableStatus.unspecified.

Definition max_pairing_password_bytes : Z := 1024.
Definition max_pairing_requested_scopes : Z := max_trust_scopes.

Record PairingRequestBody : Type := mkPairingRequest {
  request_id : list Z;
  request_nonce : list Z;
  password_utf8 : list Z;
  requested_scopes : list (list Z);
}.

Record PairingApprovalRequestBody : Type := mkApprovalRequest {
  approval_request_id : list Z;
  approval_nonce : list Z;
  approval_scopes : list (list Z);
}.

Record PairingResultBody : Type := mkPairingResult {
  result_request_id : list Z;
  status : StableStatus;
  grant : option SignedTrustGrant;
}.

Definition pairing_error (code : ErrorCode) (detail : string) : Error :=
  make_error code "pairing" detail.

Definition pairing_payload_ceiling : Z := max_pairing_payload_bytes default_limits.

Definition validate_pairing_request (request : PairingRequestBody) : Result unit :=
  fail_if all_zero (request_id request) with pairing_error ErrorCode.protocol "request_id_zero";
  fail_if all_zero (request_nonce request) with pairing_error ErrorCode.protocol "nonce_zero";
  fail_if (zlen (password_utf8 request) =? 0)
          || (max_pairing_password_bytes <? zlen (password_utf8 request))
    with pairing_error ErrorCode.protocol "password_length_invalid";
  fail_if (zlen (requested_scopes request) =? 0)
          || (max_pairing_requested_scopes <? zlen (requested_scopes request))
    with pairing_error ErrorCode.protocol "requested_scope_count_invalid";
  fail_if negb (forallb is_valid_trust_scope (requested_scopes request))
    with pairing_error ErrorCode.protocol "requested_scope_syntax_invalid";
  success tt.

Definition encode_pairing_request (request : PairingRequestBody) : Result (list Z) :=
  let? _ := validate_pairing_request request in
  let output := append_bytes [] 1 (request_id request) in
  let output := append_bytes output 2 (request_nonce request) in
  let output := append_text output 3 (password_utf8 request) in
  let output := foldl (fun output scope => append_text output 4 scope) output (requested_scopes request) in
  fail_if max_pairing_password_bytes + pairing_payload_ceiling <? zlen output
    with pairing_error ErrorCode.resource_exhausted "object_too_large";
  success output.

Definition validate_pairing_approval_request (request : PairingApprovalRequestBody) : Result unit :=
  fail_if all_zero (approval_request_id request)
    with pairing_error ErrorCode.protocol "request_id_zero";
  fail_if all_zero (approval_nonce request) with pairing_error ErrorCode.protocol "nonce_zero";
  fail_if (zlen (approval_scopes request) =? 0)
          || (max_pairing_requested_scopes <? zlen (approval_scopes request))
    with pairing_error ErrorCode.protocol "requested_scope_count_invalid";
  fail_if negb (forallb is_valid_trust_scope (approval_scopes request))
    with pairing_error ErrorCode.protocol "requested_scope_syntax_invalid";
  success tt.

Definition encode_pairing_approval_request (request : PairingApprovalRequestBody) : Result (list Z) :=
  let? _ := validate_pairing_approval_request request in
  let output := append_bytes [] 1 (approval_request_id request) in
  let output := append_bytes output 2 (approval_nonce request) in
  let output := foldl (fun output scope => append_text output 4 scope) output (approval_scopes request) in
  fail_if pairing_payload_ceiling <? zlen output
    with pairing_error ErrorCode.resource_exhausted "object_too_large";
  success output.

(** The optionals the request parsers collect; the approval parser has no
    password. *)
Record RequestFields : Type := mkRequestFields {
  q_request_id : option (list Z);
  q_nonce : option (list Z);
  q_password : option (list Z);
  q_scopes : option (list (list Z));
}.

Definition no_request_fields : RequestFields := mkRequestFields None None None None.

(** A field that must be bytes of an exact size and appear once. *)
Definition pairing_once (old : option (list Z)) (field : ProtoField) (size : Z)
    (conflict invalid : string) : Result (list Z) :=
  fail_if negb (wire_type field =? 2) || seen old with pairing_error ErrorCode.protocol conflict;
  copy_exact (field_bytes field) size invalid "proto".

(** [case 4U] of the request parsers. *)
Definition pairing_scope (old : option (list (list Z))) (field : ProtoField)
    : Result (list (list Z)) :=
  fail_if negb (wire_type field =? 2) with pairing_error ErrorCode.protocol "scope_field_invalid";
  fail_if negb (is_valid_trust_scope (field_bytes field))
    with pairing_error ErrorCode.protocol "requested_scope_syntax_invalid";
  let scopes := match old with Some scopes => scopes | None => [] end in
  fail_if max_pairing_requested_scopes <=? zlen scopes
    with pairing_error ErrorCode.protocol "requested_scope_count_invalid";
  success (scopes ++ [field_bytes field]).

(** The [switch] of [parse_pairing_approval_request]. *)
Definition approval_step (p : RequestFields) (field : ProtoField) : Result RequestFields :=
  let '(mkRequestFields i1 i2 i3 i4) := p in
  let n := number field in
  if n =? 1 then
    let? v := pairing_once i1 field 16 "request_id_field_conflict" "request_id_field_invalid" in
    success (mkRequestFields (Some v) i2 i3 i4)
  else if n =? 2 then
    let? v := pairing_once i2 field 32 "nonce_field_conflict" "nonce_field_invalid" in
    success (mkRequestFields i1 (Some v) i3 i4)
  else if n =? 3 then failure (pairing_error ErrorCode.protocol "password_field_unexpected")
  else if n =? 4 then
    let? v := pairing_scope i4 field in
    success (mkRequestFields i1 i2 i3 (Some v))
  else failure (pairing_error ErrorCode.protocol "field_unknown").

Definition parse_pairing_approval_request (payload : list Z) : Result PairingApprovalRequestBody :=
  fail_if pairing_payload_ceiling <? zlen payload
    with pairing_error ErrorCode.resource_exhausted "object_too_large";
  let? p := parse_proto approval_step payload "proto" no_request_fields in
  match p with
  | mkRequestFields (Some id) (Some nonce) _ (Some (scope :: scopes)) =>
      let request := mkApprovalRequest id nonce (scope :: scopes) in
      let? _ := validate_pairing_approval_request request in
      success request
  | _ => failure (pairing_error ErrorCode.protocol "field_missing")
  end.

(** The [switch] of [parse_pairing_request]. *)
Definition request_step (p : RequestFields) (field : ProtoField) : Result RequestFields :=
  let '(mkRequestFields i1 i2 i3 i4) := p in
  let n := number field in
  if n =? 1 then
    let? v := pairing_once i1 field 16 "request_id_field_conflict" "request_id_field_invalid" in
    success (mkRequestFields (Some v) i2 i3 i4)
  else if n =? 2 then
    let? v := pairing_once i2 field 32 "nonce_field_conflict" "nonce_field_invalid" in
    success (mkRequestFields i1 (Some v) i3 i4)
  else if n =? 3 then
    fail_if negb (wire_type field =? 2) || seen i3
      with pairing_error ErrorCode.protocol "password_field_conflict";
    success (mkRequestFields i1 i2 (Some (field_bytes field)) i4)
  else if n =? 4 then
    let? v := pairing_scope i4 field in
    success (mkRequestFields i1 i2 i3 (Some v))
  else failure (pairing_error ErrorCode.protocol "field_unknown").

Definition parse_pairing_request (payload : list Z) : Result PairingRequestBody :=
  fail_if pairing_payload_ceiling <? zlen payload
    with pairing_error ErrorCode.resource_exhausted "object_too_large";
  let? p := parse_proto request_step payload "proto" no_request_fields in
  match p with
  | mkRequestFields (Some id) (Some nonce) (Some password) (Some (scope :: scopes)) =>
      let request := mkPairingRequest id nonce password (scope :: scopes) in
      let? _ := validate_pairing_request request in
      success request
  | _ => failure (pairing_error ErrorCode.protocol "field_missing")
  end.

Definition is_ok (s : StableStatus) : bool := bool_decide (s = StableStatus.ok).
Definition is_unspecified (s : StableStatus) : bool := bool_decide (s = StableStatus.unspecified).

Definition encode_pairing_result (result : PairingResultBody) : Result (list Z) :=
  fail_if all_zero (result_request_id result)
    with pairing_error ErrorCode.protocol "request_id_zero";
  fail_if is_unspecified (status result)
    with pairing_error ErrorCode.protocol "status_unspecified";
  fail_if seen (grant result) && negb (is_ok (status result))
    with pairing_error ErrorCode.protocol "grant_with_failure_status";
  fail_if negb (seen (grant result)) && is_ok (status result)
    with pairing_error ErrorCode.protocol "ok_without_grant";
  let output := append_bytes [] 1 (result_request_id result) in
  let output := append_uint output 2 (stable_status_value (status result)) in
  let? output := match grant result with
                 | Some g => let? encoded := encode_signed_trust_grant g in
                             success (append_bytes output 3 encoded)
                 | None => success output
                 end in
  fail_if pairing_payload_ceiling <? zlen output
    with pairing_error ErrorCode.resource_exhausted "object_too_large";
  success output.

(** The optionals [parse_pairing_result] collects. *)
Record ResultFields : Type := mkResultFields {
  r_request_id : option (list Z);
  r_status : option StableStatus;
  r_grant : option SignedTrustGrant;
}.

Definition no_result_fields : ResultFields := mkResultFields None None None.

(** The [switch] of [parse_pairing_result]. *)
Definition result_step (p : ResultFields) (field : ProtoField) : Result ResultFields :=
  let '(mkResultFields i1 i2 i3) := p in
  let n := number field in
  if n =? 1 then
    let? v := pairing_once i1 field 16 "request_id_field_conflict" "request_id_field_invalid" in
    success (mkResultFields (Some v) i2 i3)
  else if n =? 2 then
    fail_if negb (wire_type field =? 0) || seen i2
      with pairing_error ErrorCode.protocol "status_field_conflict";
    let value := u32 (integer field) in
    fail_if stable_status_value StableStatus.outcome_unknown <? value
      with pairing_error ErrorCode.protocol "status_unknown";
    success (mkResultFields i1 (Some (stable_status_of value)) i3)
  else if n =? 3 then
    fail_if negb (wire_type field =? 2) || seen i3
      with pairing_error ErrorCode.protocol "grant_field_conflict";
    let? g := parse_signed_trust_grant (field_bytes field) in
    success (mkResultFields i1 i2 (Some g))
  else failure (pairing_error ErrorCode.protocol "field_unknown").

Definition parse_pairing_result (payload : list Z) : Result PairingResultBody :=
  fail_if pairing_payload_ceiling <? zlen payload
    with pairing_error ErrorCode.resource_exhausted "object_too_large";
  let? p := parse_proto result_step payload "proto" no_result_fields in
  match p with
  | mkResultFields (Some id) (Some s) g =>
      fail_if all_zero id with pairing_error ErrorCode.protocol "request_id_zero";
      fail_if is_unspecified s with pairing_error ErrorCode.protocol "status_unspecified";
      fail_if negb (seen g) && is_ok s with pairing_error ErrorCode.protocol "ok_without_grant";
      fail_if seen g && negb (is_ok s)
        with pairing_error ErrorCode.protocol "grant_with_failure_status";
      success (mkPairingResult id s g)
  | _ => failure (pairing_error ErrorCode.protocol "field_missing")
  end.

(** ** [class PairingRequestAdmission] *)

Record PairingAdmissionOutcome : Type := mkAdmissionOutcome {
  action : PairingAdmissionAction;
  cached_result : option PairingResultBody;
}.

(** The members; a key is a request id and a nonce. *)
Record Admission : Type := mkAdmission {
  limits_ : Limits;
  terminal_results_ : list ((list Z * list Z) * PairingResultBody);
  pending_key_ : option (list Z * list Z);
  attempts_used_ : Z;
}.

Definition new_admission (limits : Limits) : Admission := mkAdmission limits [] None 0.

(** The first cached entry with the request's id. *)
Definition find_terminal (id : list Z) (results : list ((list Z * list Z) * PairingResultBody))
    : option ((list Z * list Z) * PairingResultBody) :=
  List.find (fun entry => bytes_eqb (fst (fst entry)) id) results.

Definition admit_request (a : Admission) (request : PairingRequestBody)
    : Result PairingAdmissionOutcome * Admission :=
  match validate_pairing_request request with
  | failure e => (failure e, a)
  | success _ =>
      match find_terminal (request_id request) (terminal_results_ a) with
      | Some ((_, nonce), result) =>
          if bytes_eqb nonce (request_nonce request)
          then (success (mkAdmissionOutcome PairingAdmissionAction.duplicate (Some result)), a)
          else (failure (pairing_error ErrorCode.protocol "conflicting_duplicate_request"), a)
      | None =>
          if max_pairing_attempts_per_session (limits_ a) <=? attempts_used_ a
          then (failure (pairing_error ErrorCode.pairing_rate_limited "pairing_attempts_exhausted"), a)
          else (success (mkAdmissionOutcome PairingAdmissionAction.admitted None),
                mkAdmission (limits_ a) (terminal_results_ a)
                  (Some (request_id request, request_nonce request)) (attempts_used_ a + 1))
      end
  end.

(** [cached = std::move(result)] in the first entry with the id. *)
Fixpoint replace_terminal (id : list Z) (result : PairingResultBody)
    (results : list ((list Z * list Z) * PairingResultBody))
    : list ((list Z * list Z) * PairingResultBody) :=
  match results with
  | [] => []
  | (key, cached) :: results =>
      if bytes_eqb (fst key) id then (key, result) :: results
      else (key, cached) :: replace_terminal id result results
  end.

Definition record_result (a : Admission) (result : PairingResultBody) : Result unit * Admission :=
  match pending_key_ a with
  | Some key =>
      if negb (bytes_eqb (fst key) (result_request_id result))
      then (failure (pairing_error ErrorCode.configuration "no_admitted_request"), a)
      else
        let results := terminal_results_ a in
        match find_terminal (result_request_id result) results with
        | Some _ =>
            (success tt, mkAdmission (limits_ a)
               (replace_terminal (result_request_id result) result results) None (attempts_used_ a))
        | None =>
            let results := if max_pairing_attempts_per_session (limits_ a) <=? zlen results
                           then tail results else results in
            (success tt, mkAdmission (limits_ a) (results ++ [(key, result)]) None (attempts_used_ a))
        end
  | None => (failure (pairing_error ErrorCode.configuration "no_admitted_request"), a)
  end.

Definition attempts_used (a : Admission) : Z := attempts_used_ a.
Definition exhausted (a : Admission) : bool :=
  max_pairing_attempts_per_session (limits_ a) <=? attempts_used_ a.

End PairingProtocol.

Import ProtoCodec TrustGrant PairingProtocol.

#[local] Arguments stable_status_of : simpl never.
#[local] Arguments stable_status_value : simpl never.
#[local] Arguments pairing_once : simpl never.
#[local] Arguments pairing_scope : simpl never.
#[local] Arguments validate_pairing_request : simpl never.
#[local] Arguments validate_pairing_approval_request : simpl never.
#[local] Arguments parse_signed_trust_grant : simpl never.

(** ** The wire codecs *)

(** The types of the members. *)
Definition request_typed (r : PairingRequestBody) : Prop :=
  sized 16 (request_id r) /\ sized 32 (request_nonce r) /\ bytes_ok (password_utf8 r).

Definition approval_typed (r : PairingApprovalRequestBody) : Prop :=
  sized 16 (approval_request_id r) /\ sized 32 (approval_nonce r).

Definition result_typed (r : PairingResultBody) : Prop :=
  sized 16 (result_request_id r) /\ forall g, grant r = Some g -> grant_typed g.

Definition request_fields (r : PairingRequestBody) : list ProtoField :=
  [bytes_field 1 (request_id r); bytes_field 2 (request_nonce r); bytes_field 3 (password_utf8 r)]
  ++ map (bytes_field 4) (requested_scopes r).

Definition approval_fields (r : PairingApprovalRequestBody) : list ProtoField :=
  [bytes_field 1 (approval_request_id r); bytes_field 2 (approval_nonce r)]
  ++ map (bytes_field 4) (approval_scopes r).

Lemma validate_request_scopes r :
  validate_pairing_request r = success tt ->
  1 <= zlen (password_utf8 r) <= 1024 /\ 1 <= zlen (requested_scopes r) <= 256 /\
  forallb is_valid_trust_scope (requested_scopes r) = true.
Proof.
  unfold validate_pairing_request, max_pairing_password_bytes, max_pairing_requested_scopes, max_trust_scopes.
  intros H. split_match_in H. assert (Hz := zlen_nonneg (requested_scopes r)).
  assert (Hp := zlen_nonneg (password_utf8 r)). split_and!; lia.
Qed.

Lemma validate_approval_scopes r :
  validate_pairing_approval_request r = success tt ->
  1 <= zlen (approval_scopes r) <= 256 /\ forallb is_valid_trust_scope (approval_scopes r) = true.
Proof.
  unfold validate_pairing_approval_request, max_pairing_requested_scopes, max_trust_scopes.
  intros H. split_match_in H. assert (Hz := zlen_nonneg (approval_scopes r)).
  split; [lia |]. by destruct (forallb _ _).
Qed.

Lemma scope_fields_ok scopes :
  forallb is_valid_trust_scope scopes = true -> Forall field_ok (map (bytes_field 4) scopes).
Proof.
  intros Hs. apply Forall_map, Forall_forall. intros s Hin%list_elem_of_In. rewrite forallb_forall in Hs.
  apply Hs, is_valid_trust_scope_spec in Hin as (? & ? & _). apply bytes_field_ok; [lia | done | lia].
Qed.

Lemma pairing_scope_item old s :
  is_valid_trust_scope s = true -> zlen (default [] old) < 256 ->
  pairing_scope old (bytes_field 4 s) = success (default [] old ++ [s]).
Proof.
  intros Hs Hl. unfold pairing_scope. cbn [wire_type field_bytes bytes_field Z.eqb Pos.eqb negb].
  rewrite Hs. cbn [negb]. replace (match old with Some l => l | None => [] end) with (default [] old) by by destruct old.
  by rewrite (proj2 (Z.leb_gt _ _)) by (unfold max_pairing_requested_scopes, max_trust_scopes; lia).
Qed.

Lemma valid_scopes_forall scopes :
  forallb is_valid_trust_scope scopes = true -> Forall (fun s => is_valid_trust_scope s = true) scopes.
Proof. intros H. apply Forall_forall. intros s Hs%list_elem_of_In. rewrite forallb_forall in H. by apply H. Qed.

Lemma pairing_once_exact field size c i :
  wire_type field = 2 -> zlen (field_bytes field) = size -> pairing_once None field size c i = success (field_bytes field).
Proof. intros Hw Hl. unfold pairing_once, copy_exact. by rewrite Hw, Hl, !Z.eqb_refl. Qed.

Lemma encode_request_layout r b :
  encode_pairing_request r = success b ->
  validate_pairing_request r = success tt /\ b = encode_fields (request_fields r) /\ zlen b <= 9216.
Proof.
  unfold encode_pairing_request. intros H. apply result_bind_success in H as ([] & Hv & H).
  match type of H with context [zlen ?o] => assert (E : o = encode_fields (request_fields r)) end.
  { rewrite append_scopes. unfold request_fields, append_text. rewrite encode_fields_app. f_equal. fold_writers. }
  rewrite E in H. destruct (_ <? _) eqn:Hz in H; [done |]. injection H as <-. split_and!; [done | done |].
  change (max_pairing_password_bytes + pairing_payload_ceiling) with 9216 in Hz. lia.
Qed.

Lemma request_fields_ok r :
  request_typed r -> validate_pairing_request r = success tt -> Forall field_ok (request_fields r).
Proof.
  intros ((B1 & L1) & (B2 & L2) & B3) Hv. destruct (validate_request_scopes r Hv) as (Hp & Hn & Hs).
  unfold request_fields. rewrite Forall_app. split; [| by apply scope_fields_ok].
  rewrite !Forall_cons. split_and!; [apply bytes_field_ok; (done || lia).. | done].
Qed.

Lemma request_bytes_ok r b : request_typed r -> encode_pairing_request r = success b -> bytes_ok b.
Proof. intros Ht (Hv & -> & _)%encode_request_layout. by apply encode_fields_bytes_ok, request_fields_ok. Qed.

Lemma parse_encode_request r b :
  request_typed r -> encode_pairing_request r = success b -> zlen b <= pairing_payload_ceiling ->
  parse_pairing_request b = success r.
Proof.
  intros Ht (Hv & -> & _)%encode_request_layout Hz. assert (Hfields := request_fields_ok r Ht Hv).
  destruct Ht as ((B1 & L1) & (B2 & L2) & B3).
  destruct (validate_request_scopes r Hv) as (Hp & Hn & Hs). unfold parse_pairing_request.
  rewrite (proj2 (Z.ltb_ge _ _)) by lia. rewrite parse_proto_encode by done.
  unfold request_fields, no_request_fields. cbn [app].
  erewrite fold_fields_cons by (cbn; rewrite pairing_once_exact by done; reflexivity).
  erewrite fold_fields_cons by (cbn; rewrite pairing_once_exact by done; reflexivity).
  erewrite fold_fields_cons by (cbn; reflexivity). cbn [field_bytes bytes_field].
  rewrite <- (app_nil_r (map _ _)).
  rewrite (fold_fields_repeated request_step 4 256 (mkRequestFields (Some (request_id r)) (Some (request_nonce r))
    (Some (password_utf8 r))) (fun s => is_valid_trust_scope s = true)).
  - destruct r as [id nonce password [| s ss]]; cbn [requested_scopes] in *; [rewrite zlen_nil in Hn; lia |].
    cbn. cbn in Hv. by rewrite Hv.
  - intros acc s Hok Hlt. cbn. by rewrite pairing_scope_item.
  - by apply valid_scopes_forall.
  - cbn. rewrite zlen_nil. lia.
Qed.

Lemma encode_approval_layout r b :
  encode_pairing_approval_request r = success b ->
  validate_pairing_approval_request r = success tt /\ b = encode_fields (approval_fields r) /\
  zlen b <= pairing_payload_ceiling.
Proof.
  unfold encode_pairing_approval_request. intros H. apply result_bind_success in H as ([] & Hv & H).
  match type of H with context [zlen ?o] => assert (E : o = encode_fields (approval_fields r)) end.
  { rewrite append_scopes. unfold approval_fields. rewrite encode_fields_app. f_equal. fold_writers. }
  rewrite E in H. destruct (_ <? _) eqn:Hz in H; [done |]. injection H as <-. split_and!; [done | done | lia].
Qed.

Lemma parse_encode_approval r b :
  approval_typed r -> encode_pairing_approval_request r = success b ->
  parse_pairing_approval_request b = success r.
Proof.
  intros ((B1 & L1) & (B2 & L2)) (Hv & -> & Hz)%encode_approval_layout.
  destruct (validate_approval_scopes r Hv) as (Hn & Hs). unfold parse_pairing_approval_request.
  rewrite (proj2 (Z.ltb_ge _ _)) by lia. rewrite parse_proto_encode.
  2:{ unfold approval_fields. rewrite Forall_app. split; [| by apply scope_fields_ok].
      rewrite !Forall_cons. split_and!; [apply bytes_field_ok; (done || lia).. | done]. }
  unfold approval_fields, no_request_fields. cbn [app].
  erewrite fold_fields_cons by (cbn; rewrite pairing_once_exact by done; reflexivity).
  erewrite fold_fields_cons by (cbn; rewrite pairing_once_exact by done; reflexivity).
  cbn [field_bytes bytes_field]. rewrite <- (app_nil_r (map _ _)).
  rewrite (fold_fields_repeated approval_step 4 256 (mkRequestFields (Some (approval_request_id r))
    (Some (approval_nonce r)) None) (fun s => is_valid_trust_scope s = true)).
  - destruct r as [id nonce [| s ss]]; cbn [approval_scopes] in *; [rewrite zlen_nil in Hn; lia |].
    cbn. cbn in Hv. by rewrite Hv.
  - intros acc s Hok Hlt. cbn. by rewrite pairing_scope_item.
  - by apply valid_scopes_forall.
  - cbn. rewrite zlen_nil. lia.
Qed.

Lemma stable_status_roundtrip s :
  stable_status_of (stable_status_value s) = s /\ 0 <= stable_status_value s <= 14.
Proof. by destruct s. Qed.

(** The encoded body of a result, given the encoding of its grant. *)
Definition result_fields (id : list Z) (s : StableStatus) (encoded : option (list Z)) : list ProtoField :=
  [bytes_field 1 id; uint_field 2 (stable_status_value s)]
  ++ match encoded with Some b => [bytes_field 3 b] | None => [] end.

Lemma encode_result_layout r b :
  encode_pairing_result r = success b ->
  all_zero (result_request_id r) = false /\ is_unspecified (status r) = false /\
  seen (grant r) = is_ok (status r) /\ zlen b <= pairing_payload_ceiling /\
  exists encoded, b = encode_fields (result_fields (result_request_id r) (status r) encoded) /\
    match grant r with
    | Some g => exists e, encoded = Some e /\ encode_signed_trust_grant g = success e
    | None => encoded = None
    end.
Proof.
  unfold encode_pairing_result. intros H. destruct (all_zero _); [done |].
  destruct (is_unspecified _); [done |].
  assert (Hs : seen (grant r) = is_ok (status r)) by (by destruct (seen _), (is_ok _)).
  rewrite Hs in H. destruct (is_ok (status r)) eqn:Eok; cbn [negb andb] in H;
    apply result_bind_success in H as (o & Ho & H); destruct (_ <? _) eqn:Hz in H; try done; injection H as <-;
    (split_and!; [done | done | done | lia |]);
    (destruct (grant r) as [g |];
      [apply result_bind_success in Ho as (e & He & [= <-]); exists (Some e); split; [| by exists e]
      |injection Ho as <-; exists None; split; [| done]]);
    unfold result_fields; cbn [app]; fold_writers.
Qed.

(** The answer that carries such a grant is encoded. *)
Lemma encode_result_total id g :
  sized 16 id -> all_zero id = false -> grant_typed g -> validate_signed_trust_grant g = success tt ->
  zlen (concat (granted_scopes g)) + 20 * zlen (granted_scopes g) <= 7000 ->
  exists b, encode_pairing_result (mkPairingResult id StableStatus.ok (Some g)) = success b.
Proof.
  intros [Hb Hl] Hz Ht Hv Hroom. destruct (encode_grant_total g Ht Hv Hroom) as (e & He & Hle).
  destruct (encode_grant_layout g e He) as (_ & Heq & _).
  assert (Hbe : bytes_ok e) by (rewrite Heq; by apply encode_fields_bytes_ok, grant_proto_fields_ok).
  unfold encode_pairing_result. cbn [result_request_id status grant]. rewrite Hz, He.
  change (is_unspecified StableStatus.ok) with false. change (is_ok StableStatus.ok) with true. cbn [seen negb andb result_bind].
  rewrite (proj2 (Z.ltb_ge _ _)); [by eexists |].
  match goal with |- zlen ?o <= _ =>
    assert (o = encode_fields (result_fields id StableStatus.ok (Some e))) as ->
      by (unfold result_fields; cbn [app]; fold_writers) end.
  unfold result_fields. cbn [app]. rewrite !zlen_encode_cons. change (zlen (encode_fields [])) with 0.
  assert (F1 := zlen_bytes_field 1 id ltac:(lia) Hb ltac:(lia)).
  assert (F2 := zlen_uint_field 2 (stable_status_value StableStatus.ok) ltac:(lia) ltac:(by vm_compute)).
  assert (F3 := zlen_bytes_field 3 e ltac:(lia) Hbe ltac:(lia)).
  change pairing_payload_ceiling with 8192. lia.
Qed.

Lemma grant_encoding_ok g e :
  grant_typed g -> encode_signed_trust_grant g = success e -> field_ok (bytes_field 3 e).
Proof.
  intros Ht (Hv & -> & Hz)%encode_grant_layout.
  apply bytes_field_ok; [lia | by apply encode_fields_bytes_ok, grant_proto_fields_ok |].
  unfold max_trust_grant_wire_bytes in Hz. lia.
Qed.

Lemma result_fields_ok r encoded :
  result_typed r ->
  match grant r with
  | Some g => exists e, encoded = Some e /\ encode_signed_trust_grant g = success e
  | None => encoded = None
  end -> Forall field_ok (result_fields (result_request_id r) (status r) encoded).
Proof.
  intros ((B1 & L1) & Hg) He. destruct (stable_status_roundtrip (status r)) as [Hst Hb].
  unfold result_fields. rewrite Forall_app, !Forall_cons. split_and!.
  - apply bytes_field_ok; (done || lia).
  - apply uint_field_ok; [lia | unfold is_u64; lia].
  - done.
  - destruct (grant r) as [g |]; [| by rewrite He]. destruct He as (e & -> & He).
    rewrite Forall_cons. split; [by eapply grant_encoding_ok; [apply Hg |] | done].
Qed.

Lemma result_bytes_ok r b : result_typed r -> encode_pairing_result r = success b -> bytes_ok b.
Proof.
  intros Ht (_ & _ & _ & _ & encoded & -> & He)%encode_result_layout.
  by apply encode_fields_bytes_ok, result_fields_ok.
Qed.

Lemma parse_encode_result r b :
  result_typed r -> encode_pairing_result r = success b -> parse_pairing_result b = success r.
Proof.
  intros Ht (Hz & Hu & Hs & Hl & encoded & -> & He)%encode_result_layout.
  assert (Hfields := result_fields_ok r encoded Ht He). destruct Ht as ((B1 & L1) & Hg).
  destruct (stable_status_roundtrip (status r)) as [Hst Hb]. unfold parse_pairing_result.
  rewrite (proj2 (Z.ltb_ge _ _)) by lia. rewrite parse_proto_encode by done.
  unfold result_fields, no_result_fields. cbn [app].
  erewrite fold_fields_cons by (cbn; rewrite pairing_once_exact by done; reflexivity).
  cbn [field_bytes bytes_field].
  assert (Hstep : result_step (mkResultFields (Some (result_request_id r)) None None)
    (uint_field 2 (stable_status_value (status r))) =
    success (mkResultFields (Some (result_request_id r)) (Some (status r)) None)).
  { cbn. change (stable_status_value StableStatus.outcome_unknown) with 14. unfold u32.
    rewrite Z.mod_small by lia. rewrite (proj2 (Z.ltb_ge _ _)) by lia. by rewrite Hst. }
  erewrite fold_fields_cons by exact Hstep. destruct r as [id s [g |]]; cbn [grant status result_request_id] in *.
  - destruct He as (e & -> & He). apply parse_encode_grant in He; [| by apply Hg].
    erewrite fold_fields_cons by (cbn; rewrite He; reflexivity). cbn. rewrite Hz, Hu. cbn in Hs.
    rewrite <- Hs. done.
  - rewrite He. cbn. rewrite Hz, Hu. cbn in Hs. by rewrite <- Hs.
Qed.

(** What the request parsers have collected so far. *)
Definition request_fields_typed (p : RequestFields) : Prop :=
  collected (sized 16) (q_request_id p) /\ collected (sized 32) (q_nonce p) /\ collected bytes_ok (q_password p).

Lemma pairing_once_sized old f size c i v :
  field_ok f -> pairing_once old f size c i = success v -> sized size v.
Proof.
  unfold pairing_once. intros Hf H. destruct (_ || _) eqn:E in H; [done |].
  eapply copy_exact_sized; [done | | exact H]. lia.
Qed.

Lemma request_step_typed p f p' :
  field_ok f -> request_fields_typed p -> request_step p f = success p' -> request_fields_typed p'.
Proof.
  intros Hf (H1 & H2 & H3) H. destruct p as [i1 i2 i3 i4]. unfold request_step in H. cbn in *.
  repeat match type of H with (if ?c then _ else _) = _ => let E := fresh in destruct c eqn:E; try discriminate H end;
    try (apply result_bind_success in H as (v & Hv & H)); injection H as <-;
    unfold request_fields_typed; cbn; split_and!; try done; apply collected_some;
    try (by eapply pairing_once_sized); apply field_bytes_ok; [done | lia].
Qed.

Lemma approval_step_typed p f p' :
  field_ok f -> request_fields_typed p -> approval_step p f = success p' -> request_fields_typed p'.
Proof.
  intros Hf (H1 & H2 & H3) H. destruct p as [i1 i2 i3 i4]. unfold approval_step in H. cbn in *.
  repeat match type of H with (if ?c then _ else _) = _ => destruct c; try discriminate H end;
    apply result_bind_success in H as (v & Hv & H); injection H as <-;
    unfold request_fields_typed; cbn; split_and!; try done; apply collected_some; by eapply pairing_once_sized.
Qed.

Lemma no_request_fields_typed : request_fields_typed no_request_fields.
Proof. unfold request_fields_typed; cbn; auto. Qed.

Lemma parse_request_sound payload r :
  bytes_ok payload -> parse_pairing_request payload = success r ->
  request_typed r /\ validate_pairing_request r = success tt.
Proof.
  intros Hok H. unfold parse_pairing_request in H. destruct (_ <? _); [done |].
  apply result_bind_success in H as (p & Hp & H).
  assert (Hfold : request_fields_typed p).
  { eapply (parse_proto_invariant request_fields_typed); [| exact Hok | apply no_request_fields_typed | exact Hp].
    eauto using request_step_typed. }
  destruct Hfold as (H1 & H2 & H3). destruct p as [[] [] [] [[] |]]; try discriminate H. cbn in *.
  apply result_bind_success in H as ([] & Hv & H). injection H as <-. split; [| done].
  exact (conj (H1 _ eq_refl) (conj (H2 _ eq_refl) (H3 _ eq_refl))).
Qed.

Lemma parse_approval_sound payload r :
  bytes_ok payload -> parse_pairing_approval_request payload = success r ->
  approval_typed r /\ validate_pairing_approval_request r = success tt.
Proof.
  intros Hok H. unfold parse_pairing_approval_request in H. destruct (_ <? _); [done |].
  apply result_bind_success in H as (p & Hp & H).
  assert (Hfold : request_fields_typed p).
  { eapply (parse_proto_invariant request_fields_typed); [| exact Hok | apply no_request_fields_typed | exact Hp].
    eauto using approval_step_typed. }
  destruct Hfold as (H1 & H2 & _). destruct p as [[] [] [] [[] |]]; try discriminate H; cbn in *;
    apply result_bind_success in H as ([] & Hv & H); injection H as <-; (split; [| done]);
    exact (conj (H1 _ eq_refl) (H2 _ eq_refl)).
Qed.

(** What [parse_pairing_result] has collected so far. *)
Definition result_fields_typed (p : ResultFields) : Prop :=
  collected (sized 16) (r_request_id p) /\
  collected (fun g => grant_typed g /\ validate_signed_trust_grant g = success tt) (r_grant p).

Lemma result_step_typed p f p' :
  field_ok f -> result_fields_typed p -> result_step p f = success p' -> result_fields_typed p'.
Proof.
  intros Hf (H1 & H3) H. destruct p as [i1 i2 i3]. unfold result_step in H. cbn in *.
  repeat match type of H with (if ?c then _ else _) = _ => let E := fresh in destruct c eqn:E; try discriminate H end;
    try (apply result_bind_success in H as (v & Hv & H)); injection H as <-;
    unfold result_fields_typed; cbn; split_and!; try done; apply collected_some.
  - by eapply pairing_once_sized.
  - eapply parse_grant_sound; [| exact Hv]. apply field_bytes_ok; [done | lia].
Qed.

Lemma parse_result_sound payload r :
  bytes_ok payload -> parse_pairing_result payload = success r ->
  result_typed r /\ all_zero (result_request_id r) = false /\ status r <> StableStatus.unspecified /\
  (status r = StableStatus.ok <-> exists g, grant r = Some g /\ validate_signed_trust_grant g = success tt).
Proof.
  intros Hok H. unfold parse_pairing_result in H. destruct (_ <? _); [done |].
  apply result_bind_success in H as (p & Hp & H).
  assert (Hfold : result_fields_typed p).
  { eapply (parse_proto_invariant result_fields_typed); [| exact Hok | | exact Hp]; [eauto using result_step_typed |].
    unfold result_fields_typed; cbn; auto. }
  destruct Hfold as (H1 & H3). destruct p as [[id |] [s |] g]; try discriminate H. cbn in *.
  destruct (all_zero id) eqn:Ez; [done |].
  destruct (is_unspecified s) eqn:Eu; [done |]. destruct (negb (seen g) && is_ok s) eqn:E1; [done |].
  destruct (seen g && negb (is_ok s)) eqn:E2; [done |]. injection H as <-. cbn.
  unfold is_unspecified, is_ok in *. rewrite bool_decide_eq_false in Eu. split_and!; try done.
  - split; [by apply H1 |]. cbn. intros g' ->. by apply H3.
  - destruct g as [g |]; cbn in *; destruct (bool_decide_reflect (s = StableStatus.ok)) as [-> | Hne];
      try discriminate; split; try done; intros; [exists g; split; [done | by apply H3] | by destruct H as (? & ? & _)].
Qed.

(** The pairing codecs: a request, an approval request or a result that
    encodes, and fits the payload ceiling, is parsed back unchanged; and from
    any bytes the parsers return only bodies with identifiers and nonces of
    their exact sizes that pass validation, an [ok] result carrying a valid
    grant and no other result carrying one. *)
Theorem pairing_codecs :
  (forall r b, request_typed r -> encode_pairing_request r = success b ->
     zlen b <= pairing_payload_ceiling -> parse_pairing_request b = success r) /\
  (forall r b, approval_typed r -> encode_pairing_approval_request r = success b ->
     parse_pairing_approval_request b = success r) /\
  (forall r b, result_typed r -> encode_pairing_result r = success b -> parse_pairing_result b = success r) /\
  (forall payload r, bytes_ok payload -> parse_pairing_request payload = success r ->
     request_typed r /\ validate_pairing_request r = success tt) /\
  (forall payload r, bytes_ok payload -> parse_pairing_approval_request payload = success r ->
     approval_typed r /\ validate_pairing_approval_request r = success tt) /\
  (forall payload r, bytes_ok payload -> parse_pairing_result payload = success r ->
     result_typed r /\ all_zero (result_request_id r) = false /\ status r <> StableStatus.unspecified /\
     (status r = StableStatus.ok <->
      exists g, grant r = Some g /\ validate_signed_trust_grant g = success tt)).
Proof.
  split_and!; [apply parse_encode_request | apply parse_encode_approval | apply parse_encode_result |
    apply parse_request_sound | apply parse_approval_sound | apply parse_result_sound].
Qed.

(** The largest request [encode_pairing_request] accepts is not one the peer
    reads: the writer allows the password's 1024 bytes on top of the ceiling the
    parser enforces. *)
Definition wide_scope (i : Z) : list Z := repeat 97 250%nat ++ [48 + i / 10; 48 + i mod 10].

Definition wide_request : PairingRequestBody :=
  mkPairingRequest (repeat 1 16) (repeat 2 32) (repeat 112 64) (map wide_scope (map Z.of_nat (seq 0 33))).

(** The writer and the parser of a pairing request disagree on the largest
    payload: a request of 8,5 kB encodes and is then refused by the parser as
    too large. *)
Theorem pairing_request_ceiling_mismatch :
  request_typed wide_request /\
  exists b, encode_pairing_request wide_request = success b /\
    parse_pairing_request b = failure (pairing_error ErrorCode.resource_exhausted "object_too_large").
Proof.
  split.
  - split_and!; try (split; [apply bytes_ok_decide; vm_compute; reflexivity | vm_compute; reflexivity]).
    apply bytes_ok_decide. vm_compute. reflexivity.
  - exists (match encode_pairing_request wide_request with success b => b | failure _ => [] end).
    split; vm_compute; reflexivity.
Qed.

(** ** Admission *)

Abbreviation pairing_key := (list Z * list Z)%type.

(** The calls a session makes, and what each of them did. *)
Inductive admission_call : Type :=
  | Admit (request : PairingRequestBody)
  | RecordResult (result : PairingResultBody).

Inductive admission_event : Type :=
  | EvAdmitted (request : PairingRequestBody)
  | EvReplayed (request : PairingRequestBody) (result : PairingResultBody)
  | EvRecorded (key : pairing_key) (result : PairingResultBody)
  | EvRefused.

Definition admission_step (a : Admission) (c : admission_call) : Admission * admission_event :=
  match c with
  | Admit request =>
      match admit_request a request with
      | (success (mkAdmissionOutcome PairingAdmissionAction.admitted _), a') => (a', EvAdmitted request)
      | (success (mkAdmissionOutcome PairingAdmissionAction.duplicate (Some result)), a') =>
          (a', EvReplayed request result)
      | (_, a') => (a', EvRefused)
      end
  | RecordResult result =>
      match record_result a result, pending_key_ a with
      | (success _, a'), Some key => (a', EvRecorded key result)
      | (_, a'), _ => (a', EvRefused)
      end
  end.

(** The events of a run, oldest first. *)
Fixpoint admission_run (a : Admission) (calls : list admission_call) : Admission * list admission_event :=
  match calls with
  | [] => (a, [])
  | c :: calls =>
      let '(a, e) := admission_step a c in
      let '(a, es) := admission_run a calls in (a, e :: es)
  end.

(** The verdicts of a history, and the requests it admitted. *)
Definition verdicts (es : list admission_event) : list (pairing_key * PairingResultBody) :=
  omap (fun e => match e with EvRecorded key result => Some (key, result) | _ => None end) es.

Definition is_admitted (e : admission_event) : bool :=
  match e with EvAdmitted _ => true | _ => false end.

Definition admitted_count (es : list admission_event) : Z := zlen (List.filter is_admitted es).

Definition verdict_id (v : pairing_key * PairingResultBody) : list Z := v.1.1.

(** What the members say about the history: the cache is the list of all
    verdicts, no id has two of them, and the pending request has none. *)
Record admission_inv (limits : Limits) (a : Admission) (es : list admission_event) : Prop := {
  inv_limits : limits_ a = limits;
  inv_cache : terminal_results_ a = verdicts es;
  inv_nodup : NoDup (map verdict_id (verdicts es));
  inv_attempts : attempts_used_ a = admitted_count es;
  inv_budget : admitted_count es <= max_pairing_attempts_per_session limits;
  inv_pending : zlen (verdicts es) + match pending_key_ a with Some _ => 1 | None => 0 end <= admitted_count es;
  inv_fresh : forall key, pending_key_ a = Some key -> key.1 ∉ map verdict_id (verdicts es);
}.

Lemma verdicts_snoc es e :
  verdicts (es ++ [e]) = verdicts es ++ match e with EvRecorded key result => [(key, result)] | _ => [] end.
Proof. unfold verdicts. rewrite omap_app. by destruct e. Qed.

Lemma admitted_count_snoc es e :
  admitted_count (es ++ [e]) = admitted_count es + match e with EvAdmitted _ => 1 | _ => 0 end.
Proof. unfold admitted_count. rewrite List.filter_app, zlen_app. by destruct e. Qed.

Lemma find_terminal_none id results :
  find_terminal id results = None <-> id ∉ map verdict_id results.
Proof.
  unfold find_terminal. split.
  - intros H Hin. apply list_elem_of_In, in_map_iff in Hin as (v & <- & Hin).
    apply (List.find_none _ _ H) in Hin. by rewrite bytes_eqb_refl in Hin.
  - intros H. destruct (List.find _ _) as [v |] eqn:E; [| done]. destruct H.
    apply List.find_some in E as [Hin He]. apply bytes_eqb_eq in He as <-.
    apply list_elem_of_In. exact (in_map verdict_id _ _ Hin).
Qed.

Lemma find_terminal_some id results v :
  find_terminal id results = Some v -> v ∈ results /\ verdict_id v = id.
Proof.
  intros [Hin He]%List.find_some. apply bytes_eqb_eq in He. split; [by apply list_elem_of_In | done].
Qed.

(** A call that changed nothing. *)
Lemma admission_inv_idle limits a es e :
  admission_inv limits a es ->
  match e with EvAdmitted _ | EvRecorded _ _ => False | _ => True end -> admission_inv limits a (es ++ [e]).
Proof.
  intros [] He. destruct e; try done;
    split; rewrite ?verdicts_snoc, ?admitted_count_snoc, ?app_nil_r, ?Z.add_0_r; done.
Qed.

Lemma admission_step_inv limits a es c a' e :
  admission_inv limits a es -> admission_step a c = (a', e) -> admission_inv limits a' (es ++ [e]).
Proof.
  intros Hinv H. destruct c as [request | result]; cbn in H.
  - unfold admit_request in H.
    destruct (validate_pairing_request request) as [[] |]; [| injection H as <- <-; by apply admission_inv_idle].
    destruct (find_terminal _ _) as [[[id nonce] r] |] eqn:Ef.
    { destruct (bytes_eqb nonce (request_nonce request)); injection H as <- <-; by apply admission_inv_idle. }
    destruct (Z.leb_spec (max_pairing_attempts_per_session (limits_ a)) (attempts_used_ a)) as [| Hlt];
      injection H as <- <-; [by apply admission_inv_idle |].
    destruct Hinv as [Hl Hc Hn Ha Hb Hp Hf].
    split; rewrite ?verdicts_snoc, ?admitted_count_snoc, ?app_nil_r; cbn; try done.
    + lia.
    + rewrite <- Hl. lia.
    + destruct (pending_key_ a); lia.
    + intros key [= <-]. cbn. apply find_terminal_none. by rewrite <- Hc.
  - unfold record_result in H.
    destruct (pending_key_ a) as [key |] eqn:Ep; [| injection H as <- <-; by apply admission_inv_idle].
    destruct (negb _) eqn:Eid; [injection H as <- <-; by apply admission_inv_idle |].
    destruct Hinv as [Hl Hc Hn Ha Hb Hp Hf]. rewrite Ep in Hp.
    apply negb_false_iff, bytes_eqb_eq in Eid. rewrite <- Eid, (proj2 (find_terminal_none _ _)) in H
      by (rewrite Hc; by apply Hf).
    assert (Hsmall : zlen (terminal_results_ a) < max_pairing_attempts_per_session (limits_ a))
      by (rewrite Hc, Hl; lia).
    rewrite (proj2 (Z.leb_gt _ _)) in H by lia. injection H as <- <-.
    split; rewrite ?verdicts_snoc, ?admitted_count_snoc, ?Z.add_0_r; cbn; try done.
    + by rewrite Hc.
    + rewrite map_app. apply NoDup_app. split_and!; [done | | by apply NoDup_singleton].
      intros x Hx Hin. apply list_elem_of_singleton in Hin as ->. by apply (Hf key).
    + autorewrite with wire. lia.
Qed.

Lemma admission_run_inv limits calls a es a' es' :
  admission_inv limits a es -> admission_run a calls = (a', es') -> admission_inv limits a' (es ++ es').
Proof.
  revert a es es'. induction calls as [| c calls IH]; intros a es es' Hinv H; cbn in H.
  { injection H as <- <-. by rewrite app_nil_r. }
  destruct (admission_step a c) as [a1 e] eqn:Ec. destruct (admission_run a1 calls) as [a2 es2] eqn:Er.
  injection H as <- <-. change (e :: es2) with ([e] ++ es2). rewrite app_assoc.
  eapply IH; [| exact Er]. by eapply admission_step_inv.
Qed.

Lemma new_admission_inv limits :
  0 <= max_pairing_attempts_per_session limits -> admission_inv limits (new_admission limits) [].
Proof. intros H. split; cbn; try done. by apply NoDup_nil_2. Qed.

(** A replay answers with a verdict the history already holds. *)
Lemma admission_step_replay limits a es c a' request result :
  admission_inv limits a es -> admission_step a c = (a', EvReplayed request result) ->
  ((request_id request, request_nonce request), result) ∈ verdicts es.
Proof.
  intros Hinv H. destruct c as [r | r]; cbn in H.
  2:{ destruct (record_result a r) as [[] ?], (pending_key_ a); congruence. }
  unfold admit_request in H. destruct (validate_pairing_request r) as [[] |]; [| congruence].
  destruct (find_terminal _ _) as [[[id nonce] v] |] eqn:Ef; [| destruct (_ <=? _); congruence].
  destruct (bytes_eqb nonce (request_nonce r)) eqn:En; [| congruence]. injection H as <- <- <-.
  apply bytes_eqb_eq in En as ->. apply find_terminal_some in Ef as [Hin Hid]. cbn in Hid. subst id.
  by rewrite <- (inv_cache _ _ _ Hinv).
Qed.

Lemma admission_run_app a xs ys :
  admission_run a (xs ++ ys) =
  let '(a1, es1) := admission_run a xs in let '(a2, es2) := admission_run a1 ys in (a2, es1 ++ es2).
Proof.
  revert a. induction xs as [| c xs IH]; intros a; cbn; [by destruct (admission_run a ys) |].
  destruct (admission_step a c) as [a1 e]. rewrite IH. destruct (admission_run a1 xs) as [a2 es2].
  by destruct (admission_run a2 ys).
Qed.

Lemma admission_run_length a calls : length (admission_run a calls).2 = length calls.
Proof.
  revert a. induction calls as [| c calls IH]; intros a; cbn; [done |].
  destruct (admission_step a c) as [a1 e]. specialize (IH a1).
  destruct (admission_run a1 calls). cbn in *. lia.
Qed.

(** Over any sequence of requests and results of a session, no more requests
    are admitted to password verification than [Limits] allows; the cache is
    the complete list of the verdicts given, at most one per request id; and a
    duplicate is always answered with the verdict recorded for its id and
    nonce. *)
Theorem pairing_admission_log limits calls a es :
  0 <= max_pairing_attempts_per_session limits ->
  admission_run (new_admission limits) calls = (a, es) ->
  admitted_count es = attempts_used a /\ attempts_used a <= max_pairing_attempts_per_session limits /\
  terminal_results_ a = verdicts es /\ NoDup (map verdict_id (verdicts es)) /\
  (forall before request result after, es = before ++ EvReplayed request result :: after ->
     ((request_id request, request_nonce request), result) ∈ verdicts before).
Proof.
  intros Hlim H. assert (Hinit := new_admission_inv limits Hlim).
  assert (Hinv := admission_run_inv limits calls _ [] _ _ Hinit H). destruct Hinv as [Hl Hc Hn Ha Hb _ _].
  unfold attempts_used. split_and!; [done | by rewrite Ha | done | done |].
  intros before request result after ->.
  assert (Hlen := admission_run_length (new_admission limits) calls). rewrite H in Hlen. cbn in Hlen.
  rewrite <- (take_drop (length before) calls) in H. rewrite admission_run_app in H.
  destruct (admission_run (new_admission limits) (take (length before) calls)) as [a1 es1] eqn:E1.
  destruct (admission_run a1 (drop (length before) calls)) as [a2 es2] eqn:E2. injection H as -> He.
  assert (Hl1 := admission_run_length (new_admission limits) (take (length before) calls)).
  rewrite E1, length_take in Hl1. cbn in Hl1. rewrite length_app in Hlen. cbn in Hlen.
  apply app_inj_1 in He as [-> ->]; [| lia].
  destruct (drop (length before) calls) as [| c rest] eqn:Ed; [done |]. cbn in E2.
  destruct (admission_step a1 c) as [a3 e] eqn:Es. destruct (admission_run a3 rest). injection E2 as ? -> ?.
  eapply admission_step_replay; [| exact Es]. exact (admission_run_inv limits _ _ [] _ _ Hinit E1).
Qed.

Definition sample_request (n : Z) : PairingRequestBody :=
  mkPairingRequest (repeat n 16) (repeat 7 32) (bytes_of_string "secret") [bytes_of_string "message.send"].

Definition sample_result (n : Z) : PairingResultBody :=
  mkPairingResult (repeat n 16) StableStatus.unauthenticated None.

Definition sample_calls : list admission_call :=
  [Admit (sample_request 1); RecordResult (sample_result 1); Admit (sample_request 1); Admit (sample_request 2)].

Lemma pairing_admission_log_witness :
  let '(a, es) := admission_run (new_admission default_limits) sample_calls in
  es = [EvAdmitted (sample_request 1); EvRecorded (repeat 1 16, repeat 7 32) (sample_result 1);
        EvReplayed (sample_request 1) (sample_result 1); EvAdmitted (sample_request 2)] /\
  attempts_used a <= 5 /\ ((repeat 1 16, repeat 7 32), sample_result 1) ∈ verdicts (take 2 es).
Proof.
  destruct (admission_run (new_admission default_limits) sample_calls) as [a es] eqn:E.
  destruct (pairing_admission_log default_limits sample_calls a es ltac:(done) E) as (_ & H2 & _ & _ & H5).
  vm_compute in E. injection E as <- <-. split; [reflexivity |]. split; [exact H2 |].
  exact (H5 [EvAdmitted (sample_request 1); EvRecorded (repeat 1 16%nat, repeat 7 32%nat) (sample_result 1)]
    (sample_request 1) (sample_result 1) [EvAdmitted (sample_request 2)] eq_refl).
Defined.
