(* ===== verification/PeerSession.v ===== *)
(** * Peer sessions

    [src/client/peer_session.hpp] and [src/client/peer_session.cpp]: one session
    with one peer. It exchanges signed hellos on the control channel, adjudicates
    trust, runs the pairing exchange of an untrusted peer, opens the physical
    channels of the business domains and drains the channel scheduler into them.
    It is composed of the hello admission of [SessionHello], the channel manager
    of [SessionChannels], the pairing admission of [PairingProtocol] and the
    attempt timeline of [Operation].

    The transport is the interface of [src/transport/transport_session.hpp]: the
    operations of the class [SessionEnv], on an environment that also holds the
    clocks, the random source and whatever the callbacks of the configuration
    act on. Channels are addresses. What the transport calls back (messages,
    states, channels, completions of an open) are operations of the session.
    Frame handlers are names, run by the class [Handlers]: they act on the whole
    session, so a handler that calls back into it is covered. The observer is
    not modelled: it gets a copy of the diagnostics. An operation is partial: it
    has no result where the code reads through a null or empty value. *)

From Stdlib Require Import ZArith Lia ZifyBool String.
From stdpp Require Import base tactics option list gmap sets strings numbers.
From S2P Require Import Prelude Errors Limits Varint Wire FrameStream Identifiers ProtoCodec FieldCodec.
From S2P Require Import Protocol Security Operation Identity Signing TrustGrant SessionHello SignalingProtocol Clock.
From S2P Require Import SessionChannels ChannelScheduling PairingProtocol.
#[local] Open Scope Z_scope.

(** ** The transport interface *)

Module ChannelKind.
Inductive ChannelKind : Type :=
  | control | pairing | message | rpc | event | file | shell | stream.
End ChannelKind.
Abbreviation ChannelKind := ChannelKind.ChannelKind.

#[export] Instance ChannelKind_eq_dec : EqDecision ChannelKind.
Proof. solve_decision. Defined.

Module ChannelPriority.
Inductive ChannelPriority : Type := control | interactive | standard | bulk.
End ChannelPriority.
Abbreviation ChannelPriority := ChannelPriority.ChannelPriority.

Module CloseReason.
Inductive CloseReason : Type :=
  | local_shutdown | peer_closed | transport_failed | signaling_lost | timeout
  | cancelled | protocol_error.
End CloseReason.
Abbreviation CloseReason := CloseReason.CloseReason.

Module TransportState.
Inductive TransportState : Type :=
  | new_session | gathering | checking | connected | failed | closed.
End TransportState.
Abbreviation TransportState := TransportState.TransportState.

Module PeerSessionState.
Inductive PeerSessionState : Type :=
  | idle | authenticating | pairing_restricted | authenticated | active | closed.
End PeerSessionState.
Abbreviation PeerSessionState := PeerSessionState.PeerSessionState.

#[export] Instance PeerSessionState_eq_dec : EqDecision PeerSessionState.
Proof. solve_decision. Defined.

(** The keys of the maps by domain. *)
Definition domain_index (d : ChannelDomain) : nat :=
  match d with
  | ChannelDomain.control => 0 | ChannelDomain.message => 1 | ChannelDomain.rpc => 2
  | ChannelDomain.event => 3 | ChannelDomain.file => 4 | ChannelDomain.shell => 5
  | ChannelDomain.stream => 6
  end.

Definition domain_of_index (n : nat) : option ChannelDomain :=
  match n with
  | 0 => Some ChannelDomain.control | 1 => Some ChannelDomain.message | 2 => Some ChannelDomain.rpc
  | 3 => Some ChannelDomain.event | 4 => Some ChannelDomain.file | 5 => Some ChannelDomain.shell
  | 6 => Some ChannelDomain.stream | _ => None
  end%nat.

#[export] Instance ChannelDomain_countable : Countable ChannelDomain.
Proof. apply (inj_countable domain_index domain_of_index). by intros []. Defined.

Module PeerSession.
Import Wire Identifiers Protocol Security Identity Signing SessionHello PairingProtocol.

(** [struct ChannelOptions]; every use of it is reliable and ordered. *)
Record ChannelOptions : Type := mkOptions {
  priority : ChannelPriority;
  send_queue_bytes : Z;
  max_message_bytes_option : Z;
}.

Definition close_reason_name (reason : CloseReason) : string :=
  match reason with
  | CloseReason.local_shutdown => "local_shutdown"
  | CloseReason.peer_closed => "peer_closed"
  | CloseReason.transport_failed => "transport_failed"
  | CloseReason.signaling_lost => "signaling_lost"
  | CloseReason.timeout => "timeout"
  | CloseReason.cancelled => "cancelled"
  | CloseReason.protocol_error => "protocol_error"
  end.

(** What the session calls outside itself. [random_nonzero] is the value with
    which a [do .. while (is_zero)] loop over [randombytes_buf] ended. *)
Class SessionEnv (E : Type) : Type := {
  channel_kind : E -> Z -> ChannelKind;
  channel_max_message_bytes : E -> Z -> Z;
  channel_send : E -> Z -> list Z -> Result unit * E;
  channel_close : E -> Z -> CloseReason -> E;
  transport_close : E -> CloseReason -> E;
  async_open_channel : E -> ChannelKind -> ChannelOptions -> E;
  steady_now : E -> Z;
  random_nonzero : E -> nat -> list Z * E;
}.

Record SessionAuthorization : Type := mkAuthorization {
  trusted : bool;
  auth_scopes : list (list Z);
  pairing_allowed : bool;
}.

(** [struct PeerSessionConfig] without the transport and the clock of the
    timeline, which the environment holds, and without the observer. The
    callbacks may change the environment. *)
Record PeerSessionConfig (E : Type) : Type := mkConfig {
  transport : bool;
  local_hello : SignedSessionHello;
  expectation : SessionHelloExpectation;
  peer_public_key : list Z;
  local_protocol : ProtocolHello;
  now_unix_milliseconds : Z;
  initiator : bool;
  timeline : option Operation.ConnectionAttemptTimeline;
  trust_authorizer : option (E -> Z -> Result SessionAuthorization * E);
  pairing_evaluator : option (E -> PairingRequestBody -> Result PairingResultBody * E);
  pairing_result_sink : option (E -> PairingResultBody -> list Z -> list Z -> list (list Z) -> Result unit * E);
  session_limits : Limits;
  channel_budgets : SessionChannels.ChannelBudgetConfig;
  pairing_deadline : Z;
  basic_communication_enabled : bool;
  basic_communication_scopes : list (list Z);
  pairing_approval_enabled : bool;
  pairing_approval_handler : option (E -> PairingApprovalRequestBody -> Result unit * E);
  wall_clock : option (E -> Z);
  initiator_owned_domains : gset ChannelDomain;
}.
Arguments transport {E}.
Arguments local_hello {E}.
Arguments expectation {E}.
Arguments peer_public_key {E}.
Arguments local_protocol {E}.
Arguments now_unix_milliseconds {E}.
Arguments initiator {E}.
Arguments timeline {E}.
Arguments trust_authorizer {E}.
Arguments pairing_evaluator {E}.
Arguments pairing_result_sink {E}.
Arguments session_limits {E}.
Arguments channel_budgets {E}.
Arguments pairing_deadline {E}.
Arguments basic_communication_enabled {E}.
Arguments basic_communication_scopes {E}.
Arguments pairing_approval_enabled {E}.
Arguments pairing_approval_handler {E}.
Arguments wall_clock {E}.
Arguments initiator_owned_domains {E}.

Record PeerSessionDiagnostics : Type := mkDiagnostics {
  state : PeerSessionState;
  hellos_sent : Z;
  hellos_received : Z;
  pings_received : Z;
  pings_sent : Z;
  pongs_sent : Z;
  pongs_received : Z;
  business_frames_rejected : Z;
  restart_frames_sent : Z;
  restart_frames_received : Z;
  pairing_requests_sent : Z;
  pairing_requests_received : Z;
  pairing_results_sent : Z;
  pairing_results_received : Z;
  pairing_result_request_id : list Z;
  pairing_result_status : StableStatus;
  basic_communication : bool;
  policy_scopes : list (list Z);
  authorized_scopes : list (list Z);
  restricted : bool;
  negotiated_capabilities : Z;
  last_error : option Error;
}.

Definition new_diagnostics : PeerSessionDiagnostics :=
  mkDiagnostics PeerSessionState.idle 0 0 0 0 0 0 0 0 0 0 0 0 0 (repeat 0 16)
    StableStatus.unspecified false [] [] false 0 None.

Record PeerSessionRestartHandler (H : Type) : Type := mkRestartHandler {
  on_restart_offer : option H;
  on_restart_answer : option H;
  on_restart_candidate : option H;
}.
Arguments mkRestartHandler {H}.
Arguments on_restart_offer {H}.
Arguments on_restart_answer {H}.
Arguments on_restart_candidate {H}.

(** [class PeerSession]; the timeline the configuration shares with the node is
    a member of its own. *)
Record PeerSession (E H : Type) : Type := mkSession {
  config_ : PeerSessionConfig E;
  timeline_ : option Operation.ConnectionAttemptTimeline;
  admission_ : SessionHelloAdmission;
  channels_ : SessionChannels.Manager;
  pairing_admission_ : PairingProtocol.Admission;
  control_ : option Z;
  physical_channels_ : gmap ChannelDomain Z;
  opening_physical_channels_ : gset ChannelDomain;
  channel_handlers_ : gmap Z H;
  domain_handlers_ : gmap ChannelDomain H;
  diagnostics_ : PeerSessionDiagnostics;
  restart_handler_ : PeerSessionRestartHandler H;
  pending_ping_ : option Z;
  pending_pairing_ : option (list Z * list Z);
  pending_pairing_scopes_ : list (list Z);
  restricted_since_ : option Z;
  business_violations_ : Z;
  started_ : bool;
  env_ : E;
}.
Arguments config_ {E H}.
Arguments timeline_ {E H}.
Arguments admission_ {E H}.
Arguments channels_ {E H}.
Arguments pairing_admission_ {E H}.
Arguments control_ {E H}.
Arguments physical_channels_ {E H}.
Arguments opening_physical_channels_ {E H}.
Arguments channel_handlers_ {E H}.
Arguments domain_handlers_ {E H}.
Arguments diagnostics_ {E H}.
Arguments restart_handler_ {E H}.
Arguments pending_ping_ {E H}.
Arguments pending_pairing_ {E H}.
Arguments pending_pairing_scopes_ {E H}.
Arguments restricted_since_ {E H}.
Arguments business_violations_ {E H}.
Arguments started_ {E H}.
Arguments env_ {E H}.

(** ** The operations of a session *)

(** An operation: its result and the session after it, or undefined behaviour. *)
Definition Op (E H A : Type) : Type := PeerSession E H -> option (A * PeerSession E H).

Definition ret {E H A} (a : A) : Op E H A := fun s => Some (a, s).
Definition ub {E H A} : Op E H A := fun _ => None.
Definition bind {E H A B} (m : Op E H A) (k : A -> Op E H B) : Op E H B :=
  fun s => match m s with Some (a, s) => k a s | None => None end.
Definition get {E H A} (f : PeerSession E H -> A) : Op E H A := fun s => Some (f s, s).
Definition modify {E H} (f : PeerSession E H -> PeerSession E H) : Op E H unit :=
  fun s => Some (tt, f s).

(** A call of the environment. *)
Definition call {E H A} (f : E -> A * E) : Op E H A :=
  fun s => let '(a, e) := f (env_ s) in Some (a, {| s with env_ := e |}).

(** An assignment to the diagnostics. *)
Definition diagnose {E H} (f : PeerSessionDiagnostics -> PeerSessionDiagnostics) : Op E H unit :=
  modify (fun s => {| s with diagnostics_ := f (diagnostics_ s) |}).

Declare Scope session_scope.
Delimit Scope session_scope with session.
Notation "'let*' x := m 'in' k" := (bind m (fun x => k))
  (at level 10, x pattern, m at level 100, k at level 200) : session_scope.
Notation "m ;; k" := (bind m (fun _ => k)) (at level 100, k at level 200, right associativity) : session_scope.
#[local] Open Scope session_scope.

(** An error of the callee is returned. *)
Notation "'let*?' x := m 'in' k" :=
  (bind m (fun r => match r with failure e => ret (failure e) | success x => k end))
  (at level 10, x pattern, m at level 100, k at level 200) : session_scope.

Definition session_error (code : ErrorCode) (detail : string) : Error :=
  make_error code "peer_session" detail.

(** [++counter]. *)
Definition bump (n : Z) : Z := u64 (n + 1).

Definition encode_ping_payload (value : Z) : list Z :=
  map (fun index => u8 (Z.shiftr value (index * 8))) [0; 1; 2; 3; 4; 5; 6; 7].

Fixpoint decode_ping_from (index : Z) (payload : list Z) : Z :=
  match payload with
  | [] => 0
  | b :: payload => Z.lor (u64 (Z.shiftl b (index * 8))) (decode_ping_from (index + 1) payload)
  end.

(** Called on eight bytes. *)
Definition decode_ping_payload (payload : list Z) : Z := decode_ping_from 0 payload.

Definition validate_timeline_for_peer_session (timeline : option Operation.ConnectionAttemptTimeline)
    : Result unit :=
  match timeline with
  | None => success tt
  | Some t =>
      let enough (required_capacity : Z) :=
        fail_if u64 (Operation.timeline_capacity_ t - zlen (Operation.transitions_ t)) <? required_capacity
          with session_error ErrorCode.configuration "connection_timeline_capacity_insufficient";
        success tt in
      match Operation.stage_ t with
      | ConnectionStage.signaling => enough 6
      | ConnectionStage.gathering => enough 5
      | ConnectionStage.checking => enough 4
      | ConnectionStage.transport_connected => enough 3
      | _ => failure (session_error ErrorCode.configuration "connection_timeline_not_ready")
      end
  end.

Definition physical_kind_for_domain (domain : ChannelDomain) : ChannelKind :=
  match domain with
  | ChannelDomain.control => ChannelKind.control
  | ChannelDomain.message => ChannelKind.message
  | ChannelDomain.rpc => ChannelKind.rpc
  | ChannelDomain.event => ChannelKind.event
  | ChannelDomain.file => ChannelKind.file
  | ChannelDomain.shell => ChannelKind.shell
  | ChannelDomain.stream => ChannelKind.stream
  end.

Definition physical_domain_for_kind (kind : ChannelKind) : option ChannelDomain :=
  match kind with
  | ChannelKind.control => Some ChannelDomain.control
  | ChannelKind.message => Some ChannelDomain.message
  | ChannelKind.rpc => Some ChannelDomain.rpc
  | ChannelKind.event => Some ChannelDomain.event
  | ChannelKind.file => Some ChannelDomain.file
  | ChannelKind.shell => Some ChannelDomain.shell
  | ChannelKind.stream => Some ChannelDomain.stream
  | ChannelKind.pairing => None
  end.

Definition capability_for_domain (domain : ChannelDomain) : Capability :=
  match domain with
  | ChannelDomain.control => Capability.session
  | ChannelDomain.message => Capability.message
  | ChannelDomain.rpc => Capability.unary_rpc
  | ChannelDomain.event => Capability.event
  | ChannelDomain.file => Capability.file
  | ChannelDomain.shell => Capability.shell
  | ChannelDomain.stream => Capability.byte_stream
  end.

Definition status_for_error (error : Error) : StableStatus :=
  match code_ error with
  | ErrorCode.pairing_rate_limited | ErrorCode.resource_exhausted => StableStatus.resource_exhausted
  | ErrorCode.pairing_denied | ErrorCode.permission => StableStatus.permission_denied
  | ErrorCode.authentication | ErrorCode.pairing_required => StableStatus.unauthenticated
  | ErrorCode.timeout => StableStatus.deadline_exceeded
  | ErrorCode.cancelled => StableStatus.cancelled
  | _ => StableStatus.internal
  end.

(** The frame handlers, by name. *)
Class Handlers (E H : Type) : Type := {
  run_channel_handler : H -> Frame -> Op E H unit;
  run_domain_handler : H -> Frame -> Op E H (Result unit);
  run_restart_handler : H -> list Z -> Op E H unit;
}.

(** The constructor. *)
Definition new_session {E H} (config : PeerSessionConfig E) (env : E) : PeerSession E H :=
  {| config_ := config;
     timeline_ := timeline config;
     admission_ := SessionHello.new_admission (expectation config) (peer_public_key config)
                     (local_protocol config);
     channels_ := SessionChannels.new_manager (channel_budgets config) (session_limits config);
     pairing_admission_ := PairingProtocol.new_admission (session_limits config);
     control_ := None; physical_channels_ := empty; opening_physical_channels_ := empty;
     channel_handlers_ := empty; domain_handlers_ := empty; diagnostics_ := new_diagnostics;
     restart_handler_ := mkRestartHandler None None None; pending_ping_ := None;
     pending_pairing_ := None; pending_pairing_scopes_ := []; restricted_since_ := None;
     business_violations_ := 0; started_ := false; env_ := env |}.

Definition create {E H} (config : PeerSessionConfig E) (env : E) : Result (PeerSession E H) :=
  let local := local_hello config in
  let expected := expectation config in
  fail_if negb (transport config) || all_zero (key_device_id (sender local))
          || all_zero (key_device_id (peer local)) || all_zero (peer_public_key config)
    with session_error ErrorCode.configuration "peer_session_config_invalid";
  let? _ := validate_signed_session_hello local in
  let? _ := validate_timeline_for_peer_session (timeline config) in
  let? _ := SessionChannels.validate_channel_budget_config (channel_budgets config) in
  fail_if pairing_deadline config <=? 0
    with session_error ErrorCode.configuration "pairing_deadline_invalid";
  fail_if negb (key_eqb (sender local) (expected_peer expected))
          || negb (key_eqb (peer local) (expected_sender expected))
          || negb (bytes_eqb (session_id local) (expected_session_id expected))
          || negb (session_epoch local =? expected_epoch expected)
          || negb (bytes_eqb (initiator_nonce local) (expected_initiator_nonce expected))
          || negb (bytes_eqb (responder_nonce local) (expected_responder_nonce expected))
          || negb (bytes_eqb (signaling_transcript_sha256 local) (expected_transcript expected))
    with session_error ErrorCode.authentication "local_hello_binding_mismatch";
  success (new_session config env).

(** The hello [create_verified] builds from the verified binding. *)
Definition unsigned_hello {E} (config : PeerSessionConfig E) (expires_unix_milliseconds : Z) : SignedSessionHello :=
  let bound := expectation config in
  {| sender := expected_peer bound; peer := expected_sender bound;
     session_id := expected_session_id bound; session_epoch := expected_epoch bound;
     initiator_nonce := expected_initiator_nonce bound;
     responder_nonce := expected_responder_nonce bound;
     signaling_transcript_sha256 := expected_transcript bound;
     protocol_version := Protocol.version (local_protocol config);
     hello_supported := Protocol.supported (local_protocol config);
     hello_required := Protocol.required (local_protocol config);
     hello_expires := expires_unix_milliseconds;
     hello_signature := repeat 0 64 |}.

(** The verified binding's expectation and role are those of [config]. *)
Definition create_verified `{Sodium} {E H} (config : PeerSessionConfig E)
    (local_identity : option IdentityKeyPair) (expires_unix_milliseconds : Z) (env : E)
    : Result (PeerSession E H) :=
  match local_identity with
  | None => failure (session_error ErrorCode.configuration "local_identity_missing")
  | Some identity =>
      let? local := sign_signed_session_hello (unsigned_hello config expires_unix_milliseconds) identity in
      create {| config with local_hello := local |} env
  end.

Section session.
Context {E H : Type} `{!SessionEnv E} `{!Handlers E H} `{Sodium}.

(** Calls of the environment and of the channel manager. *)
Definition effect (f : E -> E) : Op E H unit := call (fun e => (tt, f e)).

Definition manage (f : SessionChannels.Manager -> SessionChannels.Manager) : Op E H unit :=
  modify (fun s => {| s with channels_ := f (channels_ s) |}).

Definition manage_result {A} (f : SessionChannels.Manager -> A * SessionChannels.Manager) : Op E H A :=
  fun s => let '(a, m) := f (channels_ s) in Some (a, {| s with channels_ := m |}).

Definition manage_partial {A} (f : SessionChannels.Manager -> option (A * SessionChannels.Manager))
    : Op E H A :=
  fun s => match f (channels_ s) with
           | Some (a, m) => Some (a, {| s with channels_ := m |})
           | None => None
           end.

Definition record (stage : ConnectionStage) (source reason : string) : Op E H (Result unit) := fun s =>
  match timeline_ s with
  | None => Some (success tt, s)
  | Some t =>
      if Operation.is_stage (Operation.stage_ t) stage
         || Operation.is_stage (Operation.stage_ t) ConnectionStage.closed
      then Some (success tt, s)
      else
        let '(r, t) := Operation.transition t stage (bytes_of_string source) (bytes_of_string reason)
                         (steady_now (env_ s)) in
        Some (r, {| s with timeline_ := Some t |})
  end.

Definition timeline_stage (s : PeerSession E H) : option ConnectionStage :=
  Operation.stage_ <$> timeline_ s.

Definition fail (error : Error) : Op E H unit :=
  diagnose (fun d => {| d with last_error := Some error; state := PeerSessionState.closed |}) ;;
  record ConnectionStage.closed "peer_session" (safe_detail_ error) ;;
  let* transport := get (fun s => transport (config_ s)) in
  if transport then effect (fun e => transport_close e CloseReason.protocol_error) else ret tt.

(** [if (!recorded) diagnostics_.last_error = ...]. *)
Definition note_error (r : Result unit) : Op E H unit :=
  match r with
  | failure e => diagnose (fun d => {| d with last_error := Some e |})
  | success _ => ret tt
  end.

Definition close (reason : CloseReason) : Op E H unit :=
  let* state := get (fun s => state (diagnostics_ s)) in
  if bool_decide (state = PeerSessionState.closed) then ret tt else
  diagnose (fun d => {| d with state := PeerSessionState.closed |}) ;;
  let* recorded := record ConnectionStage.closed "peer_session" (close_reason_name reason) in
  note_error recorded ;;
  let* transport := get (fun s => transport (config_ s)) in
  if transport then effect (fun e => transport_close e reason) else ret tt.

Definition authenticated (s : PeerSession E H) : bool :=
  bool_decide (state (diagnostics_ s) = PeerSessionState.authenticated)
  || bool_decide (state (diagnostics_ s) = PeerSessionState.active).

Definition pairing_restricted (s : PeerSession E H) : bool :=
  bool_decide (state (diagnostics_ s) = PeerSessionState.pairing_restricted).

Definition basic_domain_allowed (s : PeerSession E H) (domain : ChannelDomain) : bool :=
  if negb (basic_communication (diagnostics_ s)) || authenticated s then false
  else bool_decide (domain = ChannelDomain.message) || bool_decide (domain = ChannelDomain.file).

Definition policy_scope_covers (s : PeerSession E H) (scope : list Z) : bool :=
  basic_communication (diagnostics_ s)
  && existsb (fun policy_scope => TrustGrant.trust_scope_covers policy_scope scope)
       (policy_scopes (diagnostics_ s)).

Definition wall_clock_now (s : PeerSession E H) : Z :=
  match wall_clock (config_ s) with
  | Some now => now (env_ s)
  | None => now_unix_milliseconds (config_ s)
  end.

(** *** Sending *)

(** The physical channel of a frame; [None] when its type has no domain. *)
Definition route (queued : SessionChannels.QueuedSendFrame) : option (PeerSession E H -> option Z) :=
  let type := type (SessionChannels.queued_frame queued) in
  if bool_decide (SessionChannels.frame_class queued = FrameClass.control)
     && SessionChannels.is_control_domain_frame_type type
  then Some control_
  else match SessionChannels.frame_type_domain type with
       | None => None
       | Some domain => Some (fun s => physical_channels_ s !! domain)
       end.

Definition return_to_send (queued : SessionChannels.QueuedSendFrame) : Op E H unit :=
  manage_partial (fun m => match SessionChannels.return_to_send m queued with
                           | Some m => Some (tt, m)
                           | None => None
                           end).

(** The loop of [pump]; every round that goes on takes a frame off the queues,
    so one round more than there are queued frames is enough. *)
Fixpoint pump_loop (fuel : nat) : Op E H unit :=
  match fuel with
  | O => ub
  | S fuel =>
      let* sendable := get (fun s => SessionChannels.has_sendable_frames (channels_ s)) in
      if negb sendable then ret tt else
      let* next := manage_partial SessionChannels.next_to_send in
      match next with
      | None => ret tt
      | Some queued =>
          let close_logical :=
            manage (fun m => SessionChannels.close_channel m (SessionChannels.queued_channel_id queued)) in
          match route queued with
          | None => close_logical ;; pump_loop fuel
          | Some find =>
              let* physical := get find in
              match physical with
              | None => return_to_send queued
              | Some channel =>
                  let* limits := get (fun s => session_limits (config_ s)) in
                  match encode_frame (SessionChannels.queued_frame queued) limits with
                  | failure e => close_logical ;; fail e
                  | success encoded =>
                      let* sent := call (fun e => channel_send e channel encoded) in
                      match sent with
                      | success _ => pump_loop fuel
                      | failure e =>
                          if bool_decide (code_ e = ErrorCode.would_block) then return_to_send queued
                          else close_logical ;; fail e
                      end
                  end
              end
          end
      end
  end.

Definition pump : Op E H unit := fun s =>
  pump_loop (S (length (SessionChannels.all_entries (SessionChannels.class_queues_ (channels_ s))))) s.

Definition enqueue (id : Z) (klass : FrameClass) (frame : Frame) : Op E H (Result SessionChannels.EnqueueReceipt) :=
  manage_partial (fun m => SessionChannels.enqueue m id klass frame).

Definition enqueue_control_frame (type : FrameType) (payload : list Z) : Op E H (Result unit) :=
  let* control := get control_ in
  match control with
  | None => ret (failure (session_error ErrorCode.permission "control_channel_not_ready"))
  | Some _ =>
      let* id := call (fun e => random_nonzero e 16) in
      let frame := mkFrame (frame_type_value type) 0 0 id payload in
      let* limits := get (fun s => session_limits (config_ s)) in
      match encode_frame frame limits with
      | failure e => ret (failure e)
      | success _ =>
          let*? _ := enqueue 0 FrameClass.control frame in
          pump ;; ret (success tt)
      end
  end.

Definition send_hello : Op E H (Result unit) :=
  let* hello := get (fun s => local_hello (config_ s)) in
  match encode_signed_session_hello hello with
  | failure e => ret (failure e)
  | success payload =>
      let*? _ := enqueue_control_frame session_hello payload in
      diagnose (fun d => {| d with hellos_sent := bump (hellos_sent d) |}) ;;
      ret (success tt)
  end.

Definition send_ping (ping_id : Z) : Op E H (Result unit) :=
  let* unavailable := get (fun s => negb (authenticated s) || negb (seen (control_ s)) || seen (pending_ping_ s)) in
  if unavailable
  then ret (failure (session_error ErrorCode.permission "control_ping_not_available")) else
  let*? _ := enqueue_control_frame ping (encode_ping_payload ping_id) in
  modify (fun s => {| s with pending_ping_ := Some ping_id |}) ;;
  diagnose (fun d => {| d with pings_sent := bump (pings_sent d) |}) ;;
  ret (success tt).

Definition is_restart_type (type : FrameType) : bool :=
  match type with
  | session_restart_offer | session_restart_answer | session_restart_candidate => true
  | _ => false
  end.

Definition send_restart_frame (type : FrameType) (payload : list Z) : Op E H (Result unit) :=
  if negb (is_restart_type type)
  then ret (failure (session_error ErrorCode.configuration "restart_frame_type_invalid")) else
  let* unavailable := get (fun s => negb (authenticated s) || negb (seen (control_ s))) in
  if unavailable
  then ret (failure (session_error ErrorCode.permission "restart_frame_not_available")) else
  let* capabilities := get (fun s => negotiated_capabilities (diagnostics_ s)) in
  if negb (has capabilities Capability.session_restart_v1)
  then ret (failure (session_error ErrorCode.permission "restart_capability_not_negotiated")) else
  if (zlen payload =? 0) || (SignalingProtocol.max_signaling_object_bytes <? zlen payload)
  then ret (failure (session_error ErrorCode.protocol "restart_frame_payload_invalid")) else
  let*? _ := enqueue_control_frame type payload in
  diagnose (fun d => {| d with restart_frames_sent := bump (restart_frames_sent d) |}) ;;
  ret (success tt).

(** *** Authorisation *)

Definition enforce_pairing_deadline : Op E H (Result unit) :=
  get (fun s =>
    match restricted_since_ s with
    | None => success tt
    | Some since =>
        let now := wall_clock_now s in
        if now <? since then success tt else
        if u64 (pairing_deadline (config_ s)) <? now - since
        then failure (session_error ErrorCode.timeout "pairing_deadline_exceeded")
        else success tt
    end).

Definition upgrade_to_authorized (scopes : list (list Z)) (reason : string) : Op E H unit :=
  diagnose (fun d => {| d with authorized_scopes := scopes; restricted := false;
                               basic_communication := false; policy_scopes := [] |}) ;;
  modify (fun s => {| s with restricted_since_ := None |}) ;;
  let* recorded := record ConnectionStage.authenticated "peer_session" reason in
  note_error recorded ;;
  diagnose (fun d => {| d with state := PeerSessionState.authenticated |}).

Definition note_business_violation (channel : Z) : Op E H unit :=
  diagnose (fun d => {| d with business_frames_rejected := bump (business_frames_rejected d) |}) ;;
  modify (fun s => {| s with business_violations_ := bump (business_violations_ s) |}) ;;
  let* violations := get business_violations_ in
  if 2 <=? violations
  then fail (session_error ErrorCode.permission "business_frames_not_authorized")
  else effect (fun e => channel_close e channel CloseReason.protocol_error).

(** The peer's identity is verified: what the trust adjudication allows. *)
Definition adjudicate : Op E H unit :=
  let* authorizer := get (fun s => trust_authorizer (config_ s)) in
  match authorizer with
  | None => upgrade_to_authorized [] "session_hello_verified"
  | Some authorizer =>
      let* now := get wall_clock_now in
      let* authorization := call (fun e => authorizer e now) in
      match authorization with
      | failure e => fail e
      | success trust =>
          if trusted trust then upgrade_to_authorized (auth_scopes trust) "session_authorized" else
          let* basic := get (fun s =>
            basic_communication_enabled (config_ s)
            && negb (zlen (basic_communication_scopes (config_ s)) =? 0)
            && has (negotiated_capabilities (diagnostics_ s)) Capability.message) in
          let* capabilities := get (fun s => negotiated_capabilities (diagnostics_ s)) in
          if negb basic && negb (has capabilities Capability.pairing)
          then fail (session_error ErrorCode.pairing_denied "pairing_capability_absent") else
          let* scopes := get (fun s => basic_communication_scopes (config_ s)) in
          diagnose (fun d => {| d with state := PeerSessionState.pairing_restricted; restricted := true;
                                       authorized_scopes := []; basic_communication := basic;
                                       policy_scopes := if basic then scopes else [] |}) ;;
          modify (fun s => {| s with restricted_since_ := Some (wall_clock_now s) |})
      end
  end.

(** [if (!result) { fail(...); return; }]. *)
Definition or_fail {A} (r : Result A) (k : A -> Op E H unit) : Op E H unit :=
  match r with failure e => fail e | success a => k a end.

(** The timeline's stages up to authentication. *)
Definition record_inbound_hello : Op E H (Result unit) :=
  let* stage := get timeline_stage in
  match stage with
  | None => ret (success tt)
  | Some stage =>
      if Operation.is_stage stage ConnectionStage.authenticating then ret (success tt) else
      let*? _ := if Operation.is_stage stage ConnectionStage.transport_connected then ret (success tt)
                 else record ConnectionStage.transport_connected "peer_session"
                        "inbound_control_channel_ready" in
      record ConnectionStage.authenticating "peer_session" "session_hello_received"
  end.

Definition handle_hello (channel : Z) (frame : Frame) : Op E H unit :=
  modify (fun s => {| s with control_ := Some channel;
            physical_channels_ := <[ChannelDomain.control := channel]> (physical_channels_ s) |}) ;;
  let* recorded := record_inbound_hello in
  or_fail recorded (fun _ =>
  let* admitted := fun s =>
    let '(r, a) := admit_hello (admission_ s) (payload frame) (now_unix_milliseconds (config_ s)) in
    Some (r, {| s with admission_ := a |}) in
  or_fail admitted (fun outcome =>
  diagnose (fun d => {| d with hellos_received := bump (hellos_received d) |}) ;;
  match SessionHello.action outcome with
  | SessionHelloAdmissionAction.accepted =>
      diagnose (fun d => {| d with negotiated_capabilities :=
                              match outcome_protocol outcome with
                              | Some negotiated => capabilities negotiated
                              | None => 0
                              end |}) ;;
      let* sent_before := get (fun s => hellos_sent (diagnostics_ s)) in
      let* sent := if sent_before =? 0 then send_hello else ret (success tt) in
      or_fail sent (fun _ => adjudicate)
  | _ => ret tt
  end)).

(** *** Pairing *)

Definition send_result (result : PairingResultBody) : Op E H (Result unit) :=
  match encode_pairing_result result with
  | failure e => ret (failure e)
  | success encoded => enqueue_control_frame pairing_result encoded
  end.

Definition count_result_sent : Op E H unit :=
  diagnose (fun d => {| d with pairing_results_sent := bump (pairing_results_sent d) |}).

(** A stable denial: an authorized session survives it, a restricted one ends. *)
Definition deny (authorized_peer : bool) (request_id : list Z) (status : StableStatus)
    (close_error : Error) : Op E H unit :=
  match encode_pairing_result (mkPairingResult request_id status None) with
  | failure _ => ret tt
  | success encoded =>
      enqueue_control_frame pairing_result encoded ;;
      if authorized_peer then count_result_sent else ret tt
  end ;;
  if authorized_peer then ret tt else fail close_error.

Definition admit_pairing (request : PairingRequestBody) : Op E H (Result PairingAdmissionOutcome) := fun s =>
  let '(r, a) := admit_request (pairing_admission_ s) request in
  Some (r, {| s with pairing_admission_ := a |}).

Definition record_pairing (result : PairingResultBody) : Op E H (Result unit) := fun s =>
  let '(r, a) := record_result (pairing_admission_ s) result in
  Some (r, {| s with pairing_admission_ := a |}).

(** The verdict of the evaluator, as the body of the answer. *)
Definition evaluated_result (request_id : list Z) (evaluated : Result PairingResultBody) : PairingResultBody :=
  match evaluated with
  | failure e =>
      let status := status_for_error e in
      mkPairingResult request_id
        (if is_ok status then StableStatus.internal else status) None
  | success result => mkPairingResult request_id (status result) (grant result)
  end.

(** An admitted request, from the evaluation on. *)
Definition answer_pairing_request (authorized_peer : bool) (request : PairingRequestBody)
    (evaluator : E -> PairingRequestBody -> Result PairingResultBody * E) : Op E H unit :=
  let* evaluated := call (fun e => evaluator e request) in
  let result := evaluated_result (request_id request) evaluated in
  let* recorded := record_pairing result in
  or_fail recorded (fun _ =>
  let* sent := send_result result in
  or_fail sent (fun _ =>
  count_result_sent ;;
  match grant result with
  | Some granted =>
      if is_ok (status result) && negb authorized_peer
      then upgrade_to_authorized (TrustGrant.granted_scopes granted) "session_authorized"
      else if authorized_peer then ret tt
      else fail (session_error ErrorCode.pairing_denied "pairing_denied")
  | None =>
      if authorized_peer then ret tt
      else fail (session_error ErrorCode.pairing_denied "pairing_denied")
  end)).

Definition handle_pairing_request (frame : Frame) : Op E H unit :=
  let* verified := get (fun s => authenticated s || pairing_restricted s) in
  if negb verified
  then fail (session_error ErrorCode.authentication "pairing_frame_before_hello") else
  let* authorized_peer := get authenticated in
  diagnose (fun d => {| d with pairing_requests_received := bump (pairing_requests_received d) |}) ;;
  let* limits := get (fun s => session_limits (config_ s)) in
  if max_pairing_payload_bytes limits <? zlen (payload frame) then
    if authorized_peer then ret tt
    else fail (session_error ErrorCode.protocol "pairing_payload_limit")
  else
  match parse_pairing_request (payload frame) with
  | failure e => if authorized_peer then ret tt else fail e
  | success request =>
  let* deadline := enforce_pairing_deadline in
  match deadline with
  | failure _ => deny authorized_peer (request_id request) StableStatus.deadline_exceeded
                   (session_error ErrorCode.pairing_denied "pairing_deadline_exceeded")
  | success _ =>
  let* admission := admit_pairing request in
  match admission with
  | failure e => deny authorized_peer (request_id request) StableStatus.resource_exhausted
                   (session_error (code_ e) "pairing_rate_limited")
  | success (mkAdmissionOutcome PairingAdmissionAction.duplicate (Some cached)) =>
      let* sent := send_result cached in
      or_fail sent (fun _ => if authorized_peer then count_result_sent else ret tt)
  | success _ =>
  let* evaluator := get (fun s => pairing_evaluator (config_ s)) in
  match evaluator with
  | None => deny authorized_peer (request_id request) StableStatus.permission_denied
              (session_error ErrorCode.pairing_denied "pairing_disabled")
  | Some evaluator => answer_pairing_request authorized_peer request evaluator
  end end end end.

Definition handle_pairing_result (frame : Frame) : Op E H unit :=
  let* pending := get pending_pairing_ in
  match pending with
  | None =>
      let* authorized := get authenticated in
      if authorized
      then diagnose (fun d => {| d with pairing_results_received := bump (pairing_results_received d) |})
      else fail (session_error ErrorCode.protocol "pairing_result_unexpected")
  | Some (pending_id, pending_nonce) =>
  let* verified := get (fun s => pairing_restricted s || authenticated s) in
  if negb verified
  then fail (session_error ErrorCode.protocol "pairing_result_outside_restricted") else
  or_fail (parse_pairing_result (payload frame)) (fun result =>
  if negb (bytes_eqb (result_request_id result) pending_id)
  then fail (session_error ErrorCode.protocol "pairing_result_request_mismatch") else
  diagnose (fun d => {| d with pairing_results_received := bump (pairing_results_received d);
                               pairing_result_request_id := result_request_id result;
                               pairing_result_status := status result |}) ;;
  let forget := modify (fun s => {| s with pending_pairing_ := None |}) in
  match is_ok (status result), grant result with
  | true, Some granted =>
      let* sink := get (fun s => pairing_result_sink (config_ s)) in
      match sink with
      | None => fail (session_error ErrorCode.configuration "pairing_result_sink_missing")
      | Some sink =>
          let* scopes := get pending_pairing_scopes_ in
          let* accepted := call (fun e => sink e result pending_id pending_nonce scopes) in
          or_fail accepted (fun _ =>
          forget ;;
          let* authorized := get authenticated in
          if authorized then ret tt
          else upgrade_to_authorized (TrustGrant.granted_scopes granted) "session_authorized")
      end
  | _, _ =>
      forget ;;
      let* authorized := get authenticated in
      if authorized then ret tt
      else fail (session_error ErrorCode.pairing_denied "pairing_denied")
  end)
  end.

(** The checks [submit_pairing_request] and its passwordless variant share. *)
Definition may_submit (capability : Capability) (absent : string) : Op E H (Result unit) :=
  let* verified := get (fun s => pairing_restricted s || authenticated s) in
  if negb verified
  then ret (failure (session_error ErrorCode.pairing_required "session_not_pairing_restricted")) else
  let* pending := get pending_pairing_ in
  if seen pending
  then ret (failure (session_error ErrorCode.pairing_required "pairing_request_in_flight")) else
  let*? _ := enforce_pairing_deadline in
  let* capabilities := get (fun s => negotiated_capabilities (diagnostics_ s)) in
  if negb (has capabilities capability)
  then ret (failure (session_error ErrorCode.pairing_denied absent)) else ret (success tt).

Definition note_submitted (id nonce : list Z) (scopes : list (list Z)) : Op E H (Result unit) :=
  modify (fun s => {| s with pending_pairing_ := Some (id, nonce); pending_pairing_scopes_ := scopes |}) ;;
  diagnose (fun d => {| d with pairing_requests_sent := bump (pairing_requests_sent d) |}) ;;
  ret (success tt).

Definition submit_pairing_request (id password : list Z) (scopes : list (list Z)) : Op E H (Result unit) :=
  let*? _ := may_submit Capability.pairing "pairing_capability_absent" in
  let* nonce := call (fun e => random_nonzero e 32) in
  match encode_pairing_request (mkPairingRequest id nonce password scopes) with
  | failure e => ret (failure e)
  | success encoded =>
      let*? _ := enqueue_control_frame pairing_request encoded in
      note_submitted id nonce scopes
  end.

Definition submit_pairing_approval_request (id : list Z) (scopes : list (list Z)) : Op E H (Result unit) :=
  let*? _ := may_submit Capability.pairing_approval_v1 "approval_capability_absent" in
  let* nonce := call (fun e => random_nonzero e 32) in
  match encode_pairing_approval_request (mkApprovalRequest id nonce scopes) with
  | failure e => ret (failure e)
  | success encoded =>
      let*? _ := enqueue_control_frame pairing_approval_request encoded in
      note_submitted id nonce scopes
  end.

Definition send_pairing_result (result : PairingResultBody) : Op E H (Result unit) :=
  let* verified := get (fun s => pairing_restricted s || authenticated s) in
  if negb verified
  then ret (failure (session_error ErrorCode.pairing_required "session_not_pairing_restricted")) else
  let*? _ := send_result result in
  count_result_sent ;; ret (success tt).

Definition handle_pairing_approval_request (frame : Frame) : Op E H unit :=
  let* verified := get (fun s => authenticated s || pairing_restricted s) in
  if negb verified
  then fail (session_error ErrorCode.authentication "pairing_frame_before_hello") else
  let* authorized_peer := get authenticated in
  diagnose (fun d => {| d with pairing_requests_received := bump (pairing_requests_received d) |}) ;;
  let* limits := get (fun s => session_limits (config_ s)) in
  if authorized_peer && (max_pairing_payload_bytes limits <? zlen (payload frame)) then ret tt else
  match parse_pairing_approval_request (payload frame) with
  | failure e => if authorized_peer then ret tt else fail e
  | success request =>
  let denied := deny authorized_peer (approval_request_id request) in
  let* handler := get (fun s => if pairing_approval_enabled (config_ s)
                                then pairing_approval_handler (config_ s) else None) in
  match handler with
  | None => denied StableStatus.permission_denied
              (session_error ErrorCode.pairing_denied "pairing_approval_disabled")
  | Some handler =>
  let* deadline := enforce_pairing_deadline in
  match deadline with
  | failure _ => denied StableStatus.deadline_exceeded
                   (session_error ErrorCode.pairing_denied "pairing_deadline_exceeded")
  | success _ =>
  let* handed_off := call (fun e => handler e request) in
  match handed_off with
  | failure _ => deny authorized_peer (repeat 0 16) StableStatus.resource_exhausted
                   (session_error ErrorCode.pairing_denied "pairing_approval_not_admitted")
  | success _ => ret tt
  end end end end.

(** *** Control frames *)

Definition is_type (frame : Frame) (t : FrameType) : bool := type frame =? frame_type_value t.

Definition handle_restart_frame (frame : Frame) : Op E H unit :=
  diagnose (fun d => {| d with restart_frames_received := bump (restart_frames_received d) |}) ;;
  let* authorized := get authenticated in
  if negb authorized
  then fail (session_error ErrorCode.authentication "restart_frame_before_hello") else
  let* capabilities := get (fun s => negotiated_capabilities (diagnostics_ s)) in
  if negb (has capabilities Capability.session_restart_v1) then ret tt else
  let* handler := get (fun s =>
    if is_type frame session_restart_offer then on_restart_offer (restart_handler_ s)
    else if is_type frame session_restart_answer then on_restart_answer (restart_handler_ s)
    else on_restart_candidate (restart_handler_ s)) in
  match handler with
  | Some handler => run_restart_handler handler (payload frame)
  | None => ret tt
  end.

Definition handle_control_frame (channel : Z) (frame : Frame) : Op E H unit :=
  if is_type frame session_hello then handle_hello channel frame else
  if is_type frame pairing_request then handle_pairing_request frame else
  if is_type frame pairing_result then handle_pairing_result frame else
  if is_type frame pairing_approval_request then handle_pairing_approval_request frame else
  if is_type frame session_restart_offer || is_type frame session_restart_answer
     || is_type frame session_restart_candidate
  then handle_restart_frame frame else
  let* authorized := get authenticated in
  let* pending := get pending_ping_ in
  let sized8 := zlen (payload frame) =? 8 in
  if is_type frame ping && authorized && sized8 then
    let* sent := enqueue_control_frame pong (payload frame) in
    match sent with
    | failure _ => fail (session_error ErrorCode.transport "pong_send_failed")
    | success _ =>
        diagnose (fun d => {| d with pings_received := bump (pings_received d);
                                     pongs_sent := bump (pongs_sent d) |})
    end
  else if is_type frame pong && authorized && sized8
          && bool_decide (pending = Some (decode_ping_payload (payload frame))) then
    modify (fun s => {| s with pending_ping_ := None |}) ;;
    diagnose (fun d => {| d with pongs_received := bump (pongs_received d) |})
  else if is_type frame ping || is_type frame pong then ret tt
  else if is_type frame protocol_close then close CloseReason.peer_closed
  else
    let* verified := get (fun s => authenticated s || pairing_restricted s) in
    if negb verified
    then fail (session_error ErrorCode.authentication "control_frame_before_hello") else ret tt.

(** *** Business channels *)

Definition activate : Op E H unit :=
  diagnose (fun d => if bool_decide (state d = PeerSessionState.authenticated)
                     then {| d with state := PeerSessionState.active |} else d).

Definition options_for (domain : ChannelDomain) : ChannelOptions :=
  match domain with
  | ChannelDomain.file | ChannelDomain.stream =>
      mkOptions ChannelPriority.bulk (1024 * 1024) (1024 * 1024)
  | ChannelDomain.shell => mkOptions ChannelPriority.interactive (128 * 1024) (256 * 1024)
  | _ => mkOptions ChannelPriority.standard (256 * 1024) (1024 * 1024)
  end.

Definition ensure_physical_channel (domain : ChannelDomain) : Op E H unit :=
  let* present := get (fun s => bool_decide (domain = ChannelDomain.control)
                                || seen (physical_channels_ s !! domain)) in
  if present then ret tt else
  let* opening := get (fun s => bool_decide (domain ∈ opening_physical_channels_ s)) in
  if opening then ret tt else
  let* left_to_peer := get (fun s => negb (initiator (config_ s))
                              && bool_decide (domain ∈ initiator_owned_domains (config_ s))) in
  if left_to_peer then ret tt else
  modify (fun s => {| s with opening_physical_channels_ := {[domain]} ∪ opening_physical_channels_ s |}) ;;
  effect (fun e => async_open_channel e (physical_kind_for_domain domain) (options_for domain)).

(** The completion of that open. *)
Definition physical_channel_opened (domain : ChannelDomain) (result : Result Z) : Op E H unit :=
  modify (fun s => {| s with opening_physical_channels_ := opening_physical_channels_ s ∖ {[domain]} |}) ;;
  or_fail result (fun channel =>
  modify (fun s => {| s with physical_channels_ := <[domain := channel]> (physical_channels_ s) |}) ;;
  pump).

Definition adopt_physical_channel (kind : ChannelKind) (channel : Z) : Op E H unit :=
  match physical_domain_for_kind kind with
  | None => ub
  | Some domain =>
      let* kept := get (fun s => bool_decide (domain ∈ initiator_owned_domains (config_ s))
                                 && seen (physical_channels_ s !! domain)) in
      if bool_decide (domain = ChannelDomain.control) || kept then ret tt else
      modify (fun s => {| s with physical_channels_ := <[domain := channel]> (physical_channels_ s) |}) ;;
      pump
  end.

(** [channel_handlers_.emplace]: an existing entry stays. *)
Definition emplace_handler (id : Z) (handler : H) : Op E H unit :=
  modify (fun s => {| s with channel_handlers_ :=
                        if seen (channel_handlers_ s !! id) then channel_handlers_ s
                        else <[id := handler]> (channel_handlers_ s) |}).

Definition open_business_channel (domain : ChannelDomain) (policy : QueueFullPolicy)
    (frame_capacity byte_capacity : Z) (handler : H) : Op E H (Result Z) :=
  let* basic_domain := get (fun s => basic_domain_allowed s domain) in
  let* denied := get (fun s => (negb (authenticated s) && negb basic_domain)
                               || (pairing_restricted s && negb basic_domain)) in
  if denied then ret (failure (session_error ErrorCode.pairing_required "session_not_authorized")) else
  let* capabilities := get (fun s => negotiated_capabilities (diagnostics_ s)) in
  if negb (has capabilities (capability_for_domain domain))
  then ret (failure (session_error ErrorCode.protocol "domain_capability_not_negotiated")) else
  let* role := get (fun s => initiator (config_ s)) in
  let*? id := manage_result (fun m =>
    SessionChannels.allocate_channel m role domain policy frame_capacity byte_capacity) in
  emplace_handler id handler ;;
  ensure_physical_channel domain ;;
  activate ;;
  ret (success id).

Definition forget_channel (id : Z) : Op E H unit :=
  manage (fun m => SessionChannels.close_channel m id) ;;
  modify (fun s => {| s with channel_handlers_ := delete id (channel_handlers_ s) |}).

Definition close_business_channel (id : Z) : Op E H unit := forget_channel id.

Definition fail_business_channel (id : Z) (reason : CloseReason) : Op E H unit :=
  diagnose (fun d => {| d with business_frames_rejected := bump (business_frames_rejected d) |}) ;;
  let* domain := get (fun s => SessionChannels.channel_domain (channels_ s) id) in
  forget_channel id ;;
  match domain with
  | None => ret tt
  | Some domain =>
      let* physical := get (fun s => physical_channels_ s !! domain) in
      match physical with
      | None => ret tt
      | Some channel =>
          effect (fun e => channel_close e channel reason) ;;
          modify (fun s => {| s with physical_channels_ := delete domain (physical_channels_ s) |})
      end
  end.

Definition adopt_business_channel (id : Z) (domain : ChannelDomain) (policy : QueueFullPolicy)
    (frame_capacity byte_capacity : Z) (handler : H) : Op E H (Result Z) :=
  let* allowed := get (fun s => authenticated s || basic_domain_allowed s domain) in
  if negb allowed
  then ret (failure (session_error ErrorCode.pairing_required "session_not_authorized")) else
  let*? _ := manage_result (fun m =>
    SessionChannels.open_channel m id domain policy frame_capacity byte_capacity) in
  emplace_handler id handler ;;
  ensure_physical_channel domain ;;
  ret (success id).

Definition set_domain_handler (domain : ChannelDomain) (handler : option H) : Op E H unit :=
  modify (fun s => {| s with domain_handlers_ :=
                        match handler with
                        | Some handler => <[domain := handler]> (domain_handlers_ s)
                        | None => delete domain (domain_handlers_ s)
                        end |}).

Definition set_restart_handler (handler : PeerSessionRestartHandler H) : Op E H unit :=
  modify (fun s => {| s with restart_handler_ := handler |}).

(** Whether frames of the type may flow: authorization, or the policy that
    lets an untrusted peer send messages and files. *)
Definition frame_allowed (s : PeerSession E H) (frame_type : Z) : bool :=
  authenticated s
  || match SessionChannels.frame_type_domain frame_type with
     | Some domain => basic_domain_allowed s domain
     | None => false
     end.

Definition send_frame (id : Z) (klass : FrameClass) (frame : Frame) : Op E H (Result unit) :=
  let* allowed := get (fun s => frame_allowed s (type frame)) in
  if negb allowed
  then ret (failure (session_error ErrorCode.pairing_required "session_not_authorized")) else
  let* message_id := if all_zero (message_id frame) then call (fun e => random_nonzero e 16)
                     else ret (message_id frame) in
  let channel_id := if channel_id frame =? 0 then id else channel_id frame in
  let frame := mkFrame (type frame) (flags frame) channel_id message_id (payload frame) in
  ensure_physical_channel
    (default ChannelDomain.message (SessionChannels.frame_type_domain (type frame))) ;;
  let*? _ := enqueue id klass frame in
  pump ;; ret (success tt).

Definition max_message_bytes (s : PeerSession E H) (domain : ChannelDomain) : Z :=
  match physical_channels_ s !! domain with
  | Some channel => channel_max_message_bytes (env_ s) channel
  | None => max_frame_bytes (session_limits (config_ s))
  end.

Definition reject_on (channel : Z) : Op E H unit :=
  diagnose (fun d => {| d with business_frames_rejected := bump (business_frames_rejected d) |}) ;;
  effect (fun e => channel_close e channel CloseReason.protocol_error).

Definition handle_business_frame (channel : Z) (frame : Frame) : Op E H unit :=
  let* allowed := get (fun s => frame_allowed s (type frame)) in
  if negb allowed then note_business_violation channel else
  match unknown_frame_action frame with
  | close_channel => forget_channel (channel_id frame) ;; reject_on channel
  | skip => ret tt
  | process =>
      let* handler := get (fun s => channel_handlers_ s !! channel_id frame) in
      match handler with
      | Some handler => activate ;; run_channel_handler handler frame
      | None =>
          let* handler := get (fun s =>
            match SessionChannels.frame_type_domain (type frame) with
            | Some domain => domain_handlers_ s !! domain
            | None => None
            end) in
          match handler with
          | Some handler =>
              let* admitted := run_domain_handler handler frame in
              match admitted with
              | failure _ => reject_on channel
              | success _ => activate
              end
          | None =>
              diagnose (fun d => {| d with business_frames_rejected := bump (business_frames_rejected d) |})
          end
      end
  end.

Definition handle_message (channel : Z) (payload : list Z) : Op E H unit :=
  let* limits := get (fun s => session_limits (config_ s)) in
  let* kind := get (fun s => channel_kind (env_ s) channel) in
  let result := parse_frame payload limits in
  match Wire.status result, Wire.frame result, consumed result =? zlen payload with
  | parsed, Some frame, true =>
      if bool_decide (kind = ChannelKind.control) then handle_control_frame channel frame
      else handle_business_frame channel frame
  | _, _, _ =>
      if bool_decide (kind = ChannelKind.control)
      then fail (session_error ErrorCode.protocol "control_frame_invalid")
      else note_business_violation channel
  end.

(** *** Start and transport events *)

Definition start : Op E H (Result unit) :=
  let* refused := get (fun s => started_ s || bool_decide (state (diagnostics_ s) = PeerSessionState.closed)) in
  if refused then ret (failure (session_error ErrorCode.cancelled "peer_session_closed")) else
  modify (fun s => {| s with started_ := true |}) ;;
  diagnose (fun d => {| d with state := PeerSessionState.authenticating |}) ;;
  let* initiator := get (fun s => initiator (config_ s)) in
  if negb initiator then ret (success tt) else
  effect (fun e => async_open_channel e ChannelKind.control
                     (mkOptions ChannelPriority.control (64 * 1024) (64 * 1024))) ;;
  ret (success tt).

(** The completion of the initiator's open of the control channel. *)
Definition control_channel_opened (result : Result Z) : Op E H unit :=
  or_fail result (fun channel =>
  modify (fun s => {| s with control_ := Some channel;
            physical_channels_ := <[ChannelDomain.control := channel]> (physical_channels_ s) |}) ;;
  let* stage := get timeline_stage in
  let* recorded :=
    match stage with
    | Some stage =>
        if Operation.is_stage stage ConnectionStage.transport_connected then ret (success tt)
        else record ConnectionStage.transport_connected "peer_session" "control_channel_open"
    | None => ret (success tt)
    end in
  or_fail recorded (fun _ =>
  let* recorded := record ConnectionStage.authenticating "peer_session" "session_hello_sent" in
  or_fail recorded (fun _ =>
  let* sent := send_hello in
  or_fail sent (fun _ => ret tt)))).

(** The state handler; [error] is the error of the snapshot. *)
Definition handle_state (transport_state : TransportState) (error : option Error) : Op E H unit :=
  let* stage := get timeline_stage in
  let at_stage (stages : list ConnectionStage) :=
    match stage with Some stage => existsb (Operation.is_stage stage) stages | None => false end in
  let advance (next : ConnectionStage) (reason : string) :=
    let* recorded := record next "transport" reason in
    or_fail recorded (fun _ => ret tt) in
  let end_with (reason : string) :=
    let* recorded := record ConnectionStage.closed "transport" reason in
    note_error recorded in
  match transport_state with
  | TransportState.gathering =>
      if at_stage [ConnectionStage.signaling]
      then advance ConnectionStage.gathering "ice_gathering" else ret tt
  | TransportState.checking =>
      if at_stage [ConnectionStage.signaling; ConnectionStage.gathering]
      then advance ConnectionStage.checking "ice_checking" else ret tt
  | TransportState.connected =>
      if at_stage [ConnectionStage.signaling; ConnectionStage.gathering; ConnectionStage.checking]
      then advance ConnectionStage.transport_connected "data_channel_transport_ready" else ret tt
  | TransportState.failed =>
      diagnose (fun d => {| d with state := PeerSessionState.closed;
                  last_error := match error with Some _ => error | None => last_error d end |}) ;;
      end_with match error with Some e => safe_detail_ e | None => "transport_failed"%string end
  | TransportState.closed =>
      diagnose (fun d => {| d with state := PeerSessionState.closed |}) ;;
      end_with "transport_closed"%string
  | TransportState.new_session => ret tt
  end.

End session.

End PeerSession.

Import Wire Identifiers Protocol Security Identity Signing SessionHello PairingProtocol PeerSession.
#[local] Open Scope session_scope.

(** ** What most operations leave alone *)

(** Every result of [m] from a state of [P] is in [Q]. *)
Definition triple {E H A} (P : PeerSession E H -> Prop) (m : Op E H A)
    (Q : A -> PeerSession E H -> Prop) : Prop :=
  forall s a s', P s -> m s = Some (a, s') -> Q a s'.

(** Every run of [m] is in [R]. *)
Definition within {E H A} (R : relation (PeerSession E H)) (m : Op E H A) : Prop :=
  forall s a s', m s = Some (a, s') -> R s s'.

Section within.
Context {E H : Type} (R : relation (PeerSession E H)) `{!PreOrder R}.

Lemma within_ret {A} (a : A) : within R (ret a).
Proof. intros s b s' [= <- <-]. done. Qed.

Lemma within_ub {A} : within (A := A) R ub.
Proof. by intros s b s' [=]. Qed.

Lemma within_get {A} (f : PeerSession E H -> A) : within R (get f).
Proof. intros s b s' [= <- <-]. done. Qed.

Lemma within_bind {A B} (m : Op E H A) (k : A -> Op E H B) :
  within R m -> (forall a, within R (k a)) -> within R (bind m k).
Proof.
  intros Hm Hk s b s' Hb. unfold bind in Hb. destruct (m s) as [[a s1] |] eqn:E1; [| done].
  transitivity s1; [by eapply Hm | by eapply Hk].
Qed.

Lemma within_or_fail {A} `{!SessionEnv E} (r : Result A) k :
  (forall e, within R (fail e)) -> (forall a, within R (k a)) -> within R (or_fail r k).
Proof. intros Hf Hk. by destruct r; cbn. Qed.

End within.

(** The members that say who the peer is and what it may do. Only the hello,
    the adjudication and the pairing exchange change them; everything else at
    most ends the session, or marks an authorized one active. *)
Record quiet {E H} (s s' : PeerSession E H) : Prop := {
  quiet_config : config_ s' = config_ s;
  quiet_admission : admission_ s' = admission_ s;
  quiet_capabilities : negotiated_capabilities (diagnostics_ s') = negotiated_capabilities (diagnostics_ s);
  quiet_basic : basic_communication (diagnostics_ s') = basic_communication (diagnostics_ s);
  quiet_policy : policy_scopes (diagnostics_ s') = policy_scopes (diagnostics_ s);
  quiet_scopes : authorized_scopes (diagnostics_ s') = authorized_scopes (diagnostics_ s);
  quiet_state :
    state (diagnostics_ s') = state (diagnostics_ s) \/
    state (diagnostics_ s') = PeerSessionState.closed \/
    (state (diagnostics_ s) = PeerSessionState.authenticated /\
     state (diagnostics_ s') = PeerSessionState.active);
}.

#[export] Instance quiet_preorder {E H} : PreOrder (@quiet E H).
Proof.
  split; [intros s; split; auto |].
  intros s s1 s2 [Hc1 Ha1 Hn1 Hb1 Hp1 Hs1 Ht1] [Hc2 Ha2 Hn2 Hb2 Hp2 Hs2 Ht2]. split; try congruence.
  destruct Ht1 as [E1 | [E1 | [E1 E1']]], Ht2 as [E2 | [E2 | [E2 E2']]]; try congruence; intuition congruence.
Qed.

Create HintDb session.
#[export] Hint Resolve within_ret within_ub within_get : session.

Section quiet.
Context {E H : Type} `{!SessionEnv E}.

Lemma quiet_modify (f : PeerSession E H -> PeerSession E H) : (forall s, quiet s (f s)) -> within quiet (modify f).
Proof. intros Hf s a s' [= <- <-]. apply Hf. Qed.

Lemma quiet_diagnose (f : PeerSessionDiagnostics -> PeerSessionDiagnostics) :
  (forall s : PeerSession E H, quiet s {| s with diagnostics_ := f (diagnostics_ s) |}) ->
  within (H := H) (E := E) quiet (diagnose f).
Proof. intros Hf. by apply quiet_modify. Qed.

Lemma quiet_call {A} (f : E -> A * E) : within (H := H) quiet (call f).
Proof. intros s a s'. unfold call. destruct (f (env_ s)). intros [= <- <-]. split; auto. Qed.

Lemma quiet_effect f : within (E := E) (H := H) quiet (effect f).
Proof. apply quiet_call. Qed.

Lemma quiet_manage f : within (E := E) (H := H) quiet (manage f).
Proof. apply quiet_modify. intros s. split; auto. Qed.

Lemma quiet_manage_result {A} f : within (A := A) (E := E) (H := H) quiet (manage_result f).
Proof. intros s a s'. unfold manage_result. destruct (f (channels_ s)). intros [= <- <-]. split; auto. Qed.

Lemma quiet_manage_partial {A} f : within (A := A) (E := E) (H := H) quiet (manage_partial f).
Proof.
  intros s a s'. unfold manage_partial. destruct (f (channels_ s)) as [[] |]; [| done].
  intros [= <- <-]. split; auto.
Qed.

Lemma quiet_record stage source reason : within (E := E) (H := H) quiet (record stage source reason).
Proof.
  intros s a s'. unfold record. destruct (timeline_ s); [| intros [= <- <-]; done].
  destruct (_ || _); [intros [= <- <-]; done |]. destruct (Operation.transition _ _ _ _ _).
  intros [= <- <-]. split; auto.
Qed.

End quiet.

#[export] Hint Resolve quiet_call quiet_effect quiet_manage quiet_manage_result quiet_manage_partial
  quiet_record : session.

(** Takes an operation apart down to its primitive steps. *)
Ltac quiet_step :=
  match goal with
  | |- forall _, _ => intro
  | |- within _ (bind _ _) => apply within_bind; [apply _ | |]
  | |- within _ (or_fail _ _) => apply within_or_fail
  | |- within _ (if ?b then _ else _) => destruct b
  | |- within _ (match ?x with _ => _ end) => destruct x
  | |- within _ (let _ := _ in _) => cbv zeta
  | |- within quiet (diagnose _) => apply quiet_diagnose; intros ?; split; cbn; auto
  | |- within quiet (modify _) => apply quiet_modify; intros ?; split; cbn; auto
  | |- within _ _ => solve [eauto with session typeclass_instances]
  end.
Ltac quiet_op := repeat quiet_step.

Section quiet_operations.
Context {E H : Type} `{!SessionEnv E}.
#[local] Abbreviation quiet_op m := (within (E := E) (H := H) quiet m).

Lemma quiet_fail e : quiet_op (fail e).
Proof. unfold fail. quiet_op. Qed.
#[local] Hint Resolve quiet_fail : session.

Lemma quiet_note_error r : quiet_op (note_error r).
Proof. unfold note_error. quiet_op. Qed.
#[local] Hint Resolve quiet_note_error : session.

Lemma quiet_close reason : quiet_op (close reason).
Proof. unfold close. quiet_op. Qed.

Lemma quiet_return_to_send queued : quiet_op (return_to_send queued).
Proof. apply quiet_manage_partial. Qed.
#[local] Hint Resolve quiet_return_to_send : session.

Lemma quiet_pump_loop fuel : quiet_op (pump_loop fuel).
Proof. induction fuel; cbn [pump_loop]; quiet_op. Qed.

Lemma quiet_pump : quiet_op pump.
Proof. intros s a s'. apply quiet_pump_loop. Qed.
#[local] Hint Resolve quiet_pump : session.

Lemma quiet_enqueue id klass frame : quiet_op (enqueue id klass frame).
Proof. apply quiet_manage_partial. Qed.
#[local] Hint Resolve quiet_enqueue : session.

Lemma quiet_enqueue_control_frame type payload : quiet_op (enqueue_control_frame type payload).
Proof. unfold enqueue_control_frame. quiet_op. Qed.
#[local] Hint Resolve quiet_enqueue_control_frame : session.

Lemma quiet_send_hello : quiet_op send_hello.
Proof. unfold send_hello. quiet_op. Qed.

Lemma quiet_send_ping id : quiet_op (send_ping id).
Proof. unfold send_ping. quiet_op. Qed.

Lemma quiet_send_restart_frame type payload : quiet_op (send_restart_frame type payload).
Proof. unfold send_restart_frame. quiet_op. Qed.

Lemma quiet_enforce_pairing_deadline : quiet_op enforce_pairing_deadline.
Proof. unfold enforce_pairing_deadline. quiet_op. Qed.
#[local] Hint Resolve quiet_enforce_pairing_deadline : session.

Lemma quiet_note_business_violation channel : quiet_op (note_business_violation channel).
Proof. unfold note_business_violation. quiet_op. Qed.

Lemma quiet_record_inbound_hello : quiet_op record_inbound_hello.
Proof. unfold record_inbound_hello. quiet_op. Qed.

Lemma quiet_send_result result : quiet_op (send_result result).
Proof. unfold send_result. quiet_op. Qed.
#[local] Hint Resolve quiet_send_result : session.

Lemma quiet_count_result_sent : quiet_op count_result_sent.
Proof. unfold count_result_sent. quiet_op. Qed.
#[local] Hint Resolve quiet_count_result_sent : session.

Lemma quiet_deny authorized id status e : quiet_op (deny authorized id status e).
Proof. unfold deny. quiet_op. Qed.
#[local] Hint Resolve quiet_deny : session.

Lemma quiet_admit_pairing request : quiet_op (admit_pairing request).
Proof.
  intros s a s'. unfold admit_pairing. destruct (admit_request _ _). intros [= <- <-]. split; auto.
Qed.

Lemma quiet_record_pairing result : quiet_op (record_pairing result).
Proof.
  intros s a s'. unfold record_pairing. destruct (record_result _ _). intros [= <- <-]. split; auto.
Qed.

Lemma quiet_may_submit capability absent : quiet_op (may_submit capability absent).
Proof. unfold may_submit. quiet_op. Qed.
#[local] Hint Resolve quiet_may_submit : session.

Lemma quiet_note_submitted id nonce scopes : quiet_op (note_submitted id nonce scopes).
Proof. unfold note_submitted. quiet_op. Qed.
#[local] Hint Resolve quiet_note_submitted : session.

Lemma quiet_submit_pairing_request id password scopes : quiet_op (submit_pairing_request id password scopes).
Proof. unfold submit_pairing_request. quiet_op. Qed.

Lemma quiet_submit_pairing_approval_request id scopes : quiet_op (submit_pairing_approval_request id scopes).
Proof. unfold submit_pairing_approval_request. quiet_op. Qed.

Lemma quiet_send_pairing_result result : quiet_op (send_pairing_result result).
Proof. unfold send_pairing_result. quiet_op. Qed.

Lemma quiet_handle_pairing_approval_request frame : quiet_op (handle_pairing_approval_request frame).
Proof. unfold handle_pairing_approval_request. quiet_op. Qed.

Lemma quiet_activate : quiet_op activate.
Proof.
  unfold activate. apply quiet_diagnose. intros s. case_bool_decide as Hs; [| by split; auto].
  split; cbn; auto.
Qed.
#[local] Hint Resolve quiet_activate : session.

Lemma quiet_ensure_physical_channel domain : quiet_op (ensure_physical_channel domain).
Proof. unfold ensure_physical_channel. quiet_op. Qed.
#[local] Hint Resolve quiet_ensure_physical_channel : session.

Lemma quiet_physical_channel_opened domain result : quiet_op (physical_channel_opened domain result).
Proof. unfold physical_channel_opened. quiet_op. Qed.

Lemma quiet_adopt_physical_channel kind channel : quiet_op (adopt_physical_channel kind channel).
Proof. unfold adopt_physical_channel. quiet_op. Qed.

Lemma quiet_emplace_handler id handler : quiet_op (emplace_handler id handler).
Proof. unfold emplace_handler. quiet_op. Qed.
#[local] Hint Resolve quiet_emplace_handler : session.

Lemma quiet_open_business_channel domain policy fc bc handler :
  quiet_op (open_business_channel domain policy fc bc handler).
Proof. unfold open_business_channel. quiet_op. Qed.

Lemma quiet_forget_channel id : quiet_op (forget_channel id).
Proof. unfold forget_channel. quiet_op. Qed.
#[local] Hint Resolve quiet_forget_channel : session.

Lemma quiet_fail_business_channel id reason : quiet_op (fail_business_channel id reason).
Proof. unfold fail_business_channel. quiet_op. Qed.

Lemma quiet_adopt_business_channel id domain policy fc bc handler :
  quiet_op (adopt_business_channel id domain policy fc bc handler).
Proof. unfold adopt_business_channel. quiet_op. Qed.

Lemma quiet_set_domain_handler domain handler : quiet_op (set_domain_handler domain handler).
Proof. unfold set_domain_handler. quiet_op. Qed.

Lemma quiet_set_restart_handler handler : quiet_op (set_restart_handler handler).
Proof. unfold set_restart_handler. quiet_op. Qed.

Lemma quiet_send_frame id klass frame : quiet_op (send_frame id klass frame).
Proof. unfold send_frame. quiet_op. Qed.

Lemma quiet_reject_on channel : quiet_op (reject_on channel).
Proof. unfold reject_on. quiet_op. Qed.

Lemma quiet_control_channel_opened result : quiet_op (control_channel_opened result).
Proof. pose proof quiet_send_hello. unfold control_channel_opened. quiet_op. Qed.

Lemma quiet_handle_state ts error : quiet_op (handle_state ts error).
Proof. unfold handle_state. quiet_op. Qed.

End quiet_operations.
