(* ===== verification/PeerSessionRuns.v ===== *)
(** * Runs of a peer session

    Everything that can happen to the session of [PeerSession]: the calls of its
    owner, the events of the transport with whatever bytes the peer sends, and
    changes of the environment, in any order. The theorems say what holds after
    every such run: who the peer is, what it may do, that the send loop ends,
    that the timeline has room; and that two honest sessions authenticate each
    other over the bytes they exchange. *)

From Stdlib Require Import ZArith Lia ZifyBool String.
From stdpp Require Import base tactics option list gmap sets strings numbers.
From S2P Require Import Prelude Errors Limits Varint Wire FrameStream Identifiers ProtoCodec FieldCodec.
From S2P Require Import Protocol Security Operation Identity Signing TrustGrant SessionHello SignalingProtocol Clock.
From S2P Require Import SessionChannels ChannelScheduling PairingProtocol PeerSession.
Import Wire Identifiers Protocol Security Identity Signing SessionHello PairingProtocol PeerSession.
#[local] Open Scope Z_scope.
#[local] Open Scope session_scope.

(** ** Histories *)

(** A call of the public interface. *)
Inductive api_call (H : Type) : Type :=
  | ApiStart
  | ApiPing (id : Z)
  | ApiRestartFrame (type : FrameType) (payload : list Z)
  | ApiSubmit (id password : list Z) (scopes : list (list Z))
  | ApiSubmitApproval (id : list Z) (scopes : list (list Z))
  | ApiSendResult (result : PairingResultBody)
  | ApiOpenChannel (domain : ChannelDomain) (policy : QueueFullPolicy) (frames bytes : Z) (handler : H)
  | ApiAdoptChannel (id : Z) (domain : ChannelDomain) (policy : QueueFullPolicy) (frames bytes : Z) (handler : H)
  | ApiCloseChannel (id : Z)
  | ApiFailChannel (id : Z) (reason : CloseReason)
  | ApiDomainHandler (domain : ChannelDomain) (handler : option H)
  | ApiRestartHandler (handler : PeerSessionRestartHandler H)
  | ApiSendFrame (id : Z) (klass : FrameClass) (frame : Frame)
  | ApiPump
  | ApiClose (reason : CloseReason).

(** A callback of the transport. *)
Inductive transport_event : Type :=
  | EvMessage (channel : Z) (payload : list Z)
  | EvChannel (kind : ChannelKind) (channel : Z)
  | EvState (transport_state : TransportState) (error : option Error)
  | EvControlOpened (result : Result Z)
  | EvPhysicalOpened (domain : ChannelDomain) (result : Result Z)
  | EvWritable.

Section runs.
Context {E H : Type} `{!SessionEnv E} `{!Handlers E H} `{Sodium}.

Definition drop {A} (m : Op E H A) : Op E H unit := m ;; ret tt.

Definition perform_call (c : api_call H) : Op E H unit :=
  match c with
  | ApiStart _ => drop start
  | ApiPing _ id => drop (send_ping id)
  | ApiRestartFrame _ type payload => drop (send_restart_frame type payload)
  | ApiSubmit _ id password scopes => drop (submit_pairing_request id password scopes)
  | ApiSubmitApproval _ id scopes => drop (submit_pairing_approval_request id scopes)
  | ApiSendResult _ result => drop (send_pairing_result result)
  | ApiOpenChannel _ domain policy frames bytes handler =>
      drop (open_business_channel domain policy frames bytes handler)
  | ApiAdoptChannel _ id domain policy frames bytes handler =>
      drop (adopt_business_channel id domain policy frames bytes handler)
  | ApiCloseChannel _ id => close_business_channel id
  | ApiFailChannel _ id reason => fail_business_channel id reason
  | ApiDomainHandler _ domain handler => set_domain_handler domain handler
  | ApiRestartHandler _ handler => set_restart_handler handler
  | ApiSendFrame _ id klass frame => drop (send_frame id klass frame)
  | ApiPump _ => pump
  | ApiClose _ reason => close reason
  end.

Definition perform_event (e : transport_event) : Op E H unit :=
  match e with
  | EvMessage channel payload => handle_message channel payload
  | EvChannel kind channel => adopt_physical_channel kind channel
  | EvState transport_state error => handle_state transport_state error
  | EvControlOpened result => control_channel_opened result
  | EvPhysicalOpened domain result => physical_channel_opened domain result
  | EvWritable => pump
  end.

(** What code outside the session can do to it: call it, or act elsewhere. *)
Inductive outside : relation (PeerSession E H) :=
  | outside_done s : outside s s
  | outside_call s c s1 s' : perform_call c s = Some (tt, s1) -> outside s1 s' -> outside s s'
  | outside_env s e s' : outside {| s with env_ := e |} s' -> outside s s'.

(** Frame handlers are such code. *)
Class LawfulHandlers : Prop := {
  channel_handler_lawful h f s a s' : run_channel_handler h f s = Some (a, s') -> outside s s';
  domain_handler_lawful h f s a s' : run_domain_handler h f s = Some (a, s') -> outside s s';
  restart_handler_lawful h p s a s' : run_restart_handler h p s = Some (a, s') -> outside s s';
}.

(** The sessions a session can become. *)
Inductive session_run (s0 : PeerSession E H) : PeerSession E H -> Prop :=
  | run_begin : session_run s0 s0
  | run_outside s s' : session_run s0 s -> outside s s' -> session_run s0 s'
  | run_event s e s' : session_run s0 s -> perform_event e s = Some (tt, s') -> session_run s0 s'.

End runs.

(** ** What calls can change *)

Section calls.
Context {E H : Type} `{!SessionEnv E} `{!Handlers E H} `{Sodium}.

(** A call is quiet, or is [start] on a session that is not closed. *)
Definition started_from (s s' : PeerSession E H) : Prop :=
  exists s1, quiet {| s with started_ := true;
                      diagnostics_ := {| (diagnostics_ s) with state := PeerSessionState.authenticating |} |} s1 /\ s' = s1.

Lemma start_cases (s : PeerSession E H) a s' : start s = Some (a, s') -> s' = s \/ started_from s s'.
Proof.
  unfold start, bind, get, modify, diagnose, ret, effect, call. cbn.
  destruct (_ || _); [intros [= <- <-]; by left |].
  destruct (initiator (config_ s)); cbn; intros [= <- <-]; right; eexists; (split; [| reflexivity]); split; cbn; auto.
Qed.

Lemma quiet_drop {A} (m : Op E H A) : within quiet m -> within quiet (drop m).
Proof. intros Hm. unfold drop. quiet_op. Qed.

Lemma call_cases c (s : PeerSession E H) a s' :
  perform_call c s = Some (a, s') -> quiet s s' \/ started_from s s'.
Proof.
  intros Hc. destruct c; cbn [perform_call] in Hc;
    [| left; revert s a s' Hc;
       first [apply quiet_drop | idtac];
       solve [apply quiet_send_ping | apply quiet_send_restart_frame | apply quiet_submit_pairing_request
             | apply quiet_submit_pairing_approval_request | apply quiet_send_pairing_result
             | apply quiet_open_business_channel | apply quiet_adopt_business_channel
             | apply quiet_forget_channel | apply quiet_fail_business_channel
             | apply quiet_set_domain_handler | apply quiet_set_restart_handler | apply quiet_send_frame
             | apply quiet_pump | apply quiet_close] ..].
  unfold drop, bind in Hc. destruct (start s) as [[b s1] |] eqn:Es; [| done].
  injection Hc as <- <-. apply start_cases in Es as [-> | ?]; [by left | by right].
Qed.

(** A property that quiet steps and [start] keep is kept by code outside. *)
Definition kept (I : PeerSession E H -> Prop) : Prop :=
  (forall s s', I s -> quiet s s' -> I s') /\ (forall s s', I s -> started_from s s' -> I s').

Lemma outside_kept I s s' : kept I -> outside s s' -> I s -> I s'.
Proof.
  intros [Hq Hs] Ho. induction Ho as [s | s c s1 s' Hc _ IH | s e s' _ IH]; intros HI; [done | |].
  - apply IH. apply call_cases in Hc as [? | ?]; eauto.
  - apply IH. eapply Hq; [exact HI |]. split; auto.
Qed.

End calls.

(** ** Invariants of runs *)

Section invariants.
Context {E H : Type} `{!SessionEnv E} `{!Handlers E H} `{Sodium}.

Definition keeps {A} (I : PeerSession E H -> Prop) (m : Op E H A) : Prop :=
  triple I m (fun _ => I).

Lemma keeps_bind {A B} I (m : Op E H A) (k : A -> Op E H B) :
  keeps I m -> (forall a, keeps I (k a)) -> keeps I (bind m k).
Proof.
  intros Hm Hk s b s' HI Hb. unfold bind in Hb. destruct (m s) as [[a s1] |] eqn:E1; [| done].
  eapply Hk; [by eapply Hm | done].
Qed.

Lemma keeps_quiet {A} I (m : Op E H A) : kept I -> within quiet m -> keeps I m.
Proof. intros [Hq _] Hm s a s' HI Hs. eauto. Qed.

(** Members a test reads are those of the state it runs in. *)
Lemma keeps_get_bind {A B} I (f : PeerSession E H -> A) (k : A -> Op E H B) :
  (forall s a s', I s -> k (f s) s = Some (a, s') -> I s') -> keeps I (bind (get f) k).
Proof. intros Hk s b s' HI Hb. by eapply Hk. Qed.

(** The three operations that are not quiet. *)
Definition loud_kept (I : PeerSession E H -> Prop) : Prop :=
  (forall channel frame, keeps I (handle_hello channel frame)) /\
  (forall frame, keeps I (handle_pairing_request frame)) /\
  (forall frame, keeps I (handle_pairing_result frame)).

Section one_invariant.
Context (I : PeerSession E H -> Prop) (HI : kept I) (HL : loud_kept I) `{!LawfulHandlers}.

Ltac keeps_step :=
  match goal with
  | |- forall _, _ => intro
  | |- keeps I (run_channel_handler _ _) =>
      intros ? ? ? ? ?; eapply outside_kept; [exact HI | eapply channel_handler_lawful; eassumption | done]
  | |- keeps I (run_domain_handler _ _) =>
      intros ? ? ? ? ?; eapply outside_kept; [exact HI | eapply domain_handler_lawful; eassumption | done]
  | |- keeps I (run_restart_handler _ _) =>
      intros ? ? ? ? ?; eapply outside_kept; [exact HI | eapply restart_handler_lawful; eassumption | done]
  | |- keeps I (if ?b then _ else _) => destruct b
  | |- keeps I (match ?x with _ => _ end) => destruct x
  | |- keeps I _ => apply HL
  | |- keeps I _ => apply keeps_quiet; [exact HI |]; solve [quiet_op]
  | |- keeps I (bind _ _) => apply keeps_bind
  end.

Lemma handle_business_frame_keeps channel frame : keeps I (handle_business_frame channel frame).
Proof.
  pose proof (quiet_note_business_violation (E := E) (H := H)) as Q1.
  pose proof (quiet_forget_channel (E := E) (H := H)) as Q2.
  pose proof (quiet_reject_on (E := E) (H := H)) as Q3. pose proof (quiet_activate (E := E) (H := H)) as Q4.
  unfold handle_business_frame. repeat keeps_step.
Qed.

Lemma handle_restart_frame_keeps frame : keeps I (handle_restart_frame frame).
Proof.
  pose proof (quiet_fail (E := E) (H := H)) as Q1. unfold handle_restart_frame. repeat keeps_step.
Qed.

Lemma handle_control_frame_keeps channel frame : keeps I (handle_control_frame channel frame).
Proof.
  pose proof (quiet_fail (E := E) (H := H)) as Q1. pose proof (quiet_close (E := E) (H := H)) as Q2.
  pose proof (quiet_enqueue_control_frame (E := E) (H := H)) as Q3.
  pose proof (quiet_handle_pairing_approval_request (E := E) (H := H)) as Q4.
  pose proof handle_restart_frame_keeps as K.
  unfold handle_control_frame.
  repeat first [apply K | keeps_step].
Qed.

Lemma handle_message_keeps channel payload : keeps I (handle_message channel payload).
Proof.
  pose proof (quiet_fail (E := E) (H := H)) as Q1.
  pose proof (quiet_note_business_violation (E := E) (H := H)) as Q2.
  unfold handle_message.
  repeat first [apply handle_control_frame_keeps | apply handle_business_frame_keeps | keeps_step].
Qed.

Lemma event_keeps e : keeps I (perform_event e).
Proof.
  destruct e; [apply handle_message_keeps |..]; apply keeps_quiet; try exact HI.
  - apply quiet_adopt_physical_channel.
  - apply quiet_handle_state.
  - apply quiet_control_channel_opened.
  - apply quiet_physical_channel_opened.
  - apply quiet_pump.
Qed.

Lemma run_keeps s0 s : session_run s0 s -> I s0 -> I s.
Proof.
  intros Hr Hbegin. induction Hr as [| s s' _ IH Ho | s e s' _ IH He]; [done | |].
  - by eapply outside_kept.
  - by eapply event_keeps.
Qed.

End one_invariant.
End invariants.

(** ** Who the peer is *)

Section identity.
Context {E H : Type} `{!SessionEnv E} `{!Handlers E H} `{Sodium}.

Definition config_admission (config : PeerSessionConfig E) : SessionHelloAdmission :=
  SessionHello.new_admission (expectation config) (peer_public_key config) (local_protocol config).

(** What a session that was given its peer has verified: a hello signed by the
    expected peer for this session and epoch, valid at the session's creation,
    with which a protocol was negotiated. *)
Definition peer_proved (config : PeerSessionConfig E) (s : PeerSession E H) : Prop :=
  exists payload hello n,
    genuine (config_admission config) payload hello /\
    session_epoch hello = expected_epoch (expectation config) /\
    validate_signed_expiry (hello_expires hello) (now_unix_milliseconds config) = success tt /\
    negotiate_protocol (local_protocol config) (hello_protocol hello) = success n /\
    accepted_payload_ (admission_ s) = Some payload /\
    negotiated_protocol_ (admission_ s) = Some n /\
    negotiated_capabilities (diagnostics_ s) = capabilities n.

Definition verified (s : PeerSession E H) : bool := authenticated s || pairing_restricted s.

(** The members [peer_proved] is about. *)
Definition same_identity (s s' : PeerSession E H) : Prop :=
  config_ s' = config_ s /\ admission_ s' = admission_ s /\
  negotiated_capabilities (diagnostics_ s') = negotiated_capabilities (diagnostics_ s).

#[export] Instance same_identity_preorder : PreOrder same_identity.
Proof. split; [by repeat split |]. intros s s1 s2 (? & ? & ?) (? & ? & ?). repeat split; congruence. Qed.

Lemma quiet_same_identity s s' : quiet s s' -> same_identity s s'.
Proof. by intros []. Qed.

Lemma within_identity {A} (m : Op E H A) : within quiet m -> within same_identity m.
Proof. intros Hm s a s' Hs. apply quiet_same_identity. by eapply Hm. Qed.

Lemma same_identity_proved config s s' : same_identity s s' -> peer_proved config s -> peer_proved config s'.
Proof.
  intros (Hc & Ha & Hn) (payload & hello & n & Hp). exists payload, hello, n. rewrite Ha, Hn. done.
Qed.

Lemma quiet_unverified s s' : quiet s s' -> verified s = false -> verified s' = false.
Proof.
  intros Hq. unfold verified, authenticated, pairing_restricted.
  destruct (quiet_state _ _ Hq) as [-> | [-> | [-> ->]]]; done.
Qed.

Definition identity_inv (config : PeerSessionConfig E) (s : PeerSession E H) : Prop :=
  config_ s = config /\
  ((admission_ s = config_admission config /\ verified s = false) \/ peer_proved config s).

Lemma identity_kept config : kept (identity_inv config).
Proof.
  split.
  - intros s s' [Hc HI] Hq. split; [rewrite (quiet_config _ _ Hq); done |].
    destruct HI as [[Ha Hv] | Hp].
    + left. rewrite (quiet_admission _ _ Hq). split; [done |]. by eapply quiet_unverified.
    + right. by eapply same_identity_proved; [apply quiet_same_identity |].
  - intros s s' [Hc HI] (s1 & Hq & ->). split; [rewrite (quiet_config _ _ Hq); done |].
    destruct HI as [[Ha Hv] | Hp].
    + left. rewrite (quiet_admission _ _ Hq). split; [done |]. by eapply quiet_unverified.
    + right. by eapply same_identity_proved; [apply quiet_same_identity; exact Hq |].
Qed.

Ltac identity_op :=
  repeat match goal with
  | |- forall _, _ => intro
  | |- within _ (bind _ _) => apply within_bind; [apply _ | |]
  | |- within _ (or_fail _ _) => apply within_or_fail
  | |- within _ (match ?x with _ => _ end) => destruct x
  | |- within _ (if ?x then _ else _) => destruct x
  | |- within _ (diagnose _) => intros s b s' [= <- <-]; done
  | |- within _ (modify _) => intros s b s' [= <- <-]; done
  | |- within _ _ => eassumption
  | Hq : forall _, within same_identity _ |- within _ _ => apply Hq
  | Hq : forall _ _, within same_identity _ |- within _ _ => apply Hq
  | |- within _ _ => apply within_identity; solve [quiet_op]
  end.

Lemma identity_upgrade scopes reason : within same_identity (upgrade_to_authorized (E := E) (H := H) scopes reason).
Proof.
  pose proof (quiet_note_error (E := E) (H := H)) as Q1. unfold upgrade_to_authorized. identity_op.
Qed.

Lemma identity_adjudicate : within same_identity (adjudicate (E := E) (H := H)).
Proof.
  pose proof (quiet_fail (E := E) (H := H)) as Q1. pose proof identity_upgrade as Q2.
  unfold adjudicate. identity_op.
Qed.

Lemma identity_handle_pairing_request frame : within same_identity (handle_pairing_request (E := E) (H := H) frame).
Proof.
  pose proof (quiet_fail (E := E) (H := H)) as Q1. pose proof identity_upgrade as Q2.
  pose proof (quiet_deny (E := E) (H := H)) as Q3. pose proof (quiet_send_result (E := E) (H := H)) as Q4.
  pose proof (quiet_count_result_sent (E := E) (H := H)) as Q5.
  pose proof (quiet_admit_pairing (E := E) (H := H)) as Q6.
  pose proof (quiet_record_pairing (E := E) (H := H)) as Q7.
  pose proof (quiet_enforce_pairing_deadline (E := E) (H := H)) as Q8.
  unfold handle_pairing_request, answer_pairing_request. identity_op.
Qed.

Lemma identity_handle_pairing_result frame : within same_identity (handle_pairing_result (E := E) (H := H) frame).
Proof.
  pose proof (quiet_fail (E := E) (H := H)) as Q1. pose proof identity_upgrade as Q2.
  unfold handle_pairing_result. identity_op.
Qed.

(** Before the peer is verified the pairing frames change nothing that counts. *)
Lemma pairing_request_unverified frame s a s' :
  verified s = false -> handle_pairing_request (E := E) (H := H) frame s = Some (a, s') -> quiet s s'.
Proof.
  intros Hv. unfold handle_pairing_request, bind at 1, get. fold (verified s). rewrite Hv. cbn [negb].
  apply quiet_fail.
Qed.

Lemma pairing_result_unverified frame s a s' :
  verified s = false -> handle_pairing_result (E := E) (H := H) frame s = Some (a, s') -> quiet s s'.
Proof.
  intros Hv. unfold handle_pairing_result, bind at 1, get at 1.
  destruct (pending_pairing_ s) as [[id nonce] |].
  - unfold bind at 1, get at 1. rewrite orb_comm. fold (verified s). rewrite Hv. apply quiet_fail.
  - unfold bind at 1, get at 1. assert (authenticated s = false) as -> by (unfold verified in Hv; lia).
    apply quiet_fail.
Qed.

(** The rest of [handle_hello], once its channel and its stage are noted. *)
Definition admit_peer (frame : Frame) : Op E H unit :=
  let* admitted := fun s =>
    let '(r, a) := admit_hello (admission_ s) (payload frame) (now_unix_milliseconds (config_ s)) in
    Some (r, {| s with admission_ := a |}) in
  or_fail admitted (fun outcome =>
  diagnose (fun d => {| d with hellos_received := bump (hellos_received d) |}) ;;
  match SessionHello.action outcome with
  | SessionHelloAdmissionAction.accepted =>
      diagnose (fun d => {| d with negotiated_capabilities :=
                              match outcome_protocol outcome with
                              | Some negotiated => capabilities negotiated
                              | None => 0
                              end |}) ;;
      let* sent_before := get (fun s => hellos_sent (diagnostics_ s)) in
      let* sent := if sent_before =? 0 then send_hello else ret (success tt) in
      or_fail sent (fun _ => adjudicate)
  | _ => ret tt
  end).

Lemma handle_hello_eq channel frame :
  handle_hello (E := E) (H := H) channel frame =
  (modify (fun s => {| s with control_ := Some channel;
             physical_channels_ := <[ChannelDomain.control := channel]> (physical_channels_ s) |}) ;;
   let* recorded := record_inbound_hello in
   or_fail recorded (fun _ => admit_peer frame)).
Proof. reflexivity. Qed.

(** A hello that is not accepted leaves the identity alone. *)
Lemma admit_peer_quiet frame (s s' : PeerSession E H) a r :
  admit_hello (admission_ s) (payload frame) (now_unix_milliseconds (config_ s)) = (r, admission_ s) ->
  is_accepted r = false -> admit_peer frame s = Some (a, s') -> quiet s s'.
Proof.
  intros Ha Hr. unfold admit_peer, bind at 1. rewrite Ha.
  replace {| s with admission_ := admission_ s |} with s by (by destruct s).
  destruct r as [o | e]; cbn [or_fail]; [| apply quiet_fail].
  assert (W : within (E := E) (H := H) quiet
    (diagnose (fun d => {| d with hellos_received := bump (hellos_received d) |}) ;; ret tt)) by quiet_op.
  destruct o as [[] p]; [done | apply W ..].
Qed.

Lemma admit_peer_identity config frame : keeps (identity_inv config) (admit_peer frame).
Proof.
  intros s a s' HI Hs. pose proof HI as [Hc [[Ha Hv] | Hp]].
  - assert (Href := admit_refines (admission_ s) (payload frame) (now_unix_milliseconds (config_ s))).
    destruct (admit_hello _ _ _) as [r adm] eqn:Ea.
    inversion Href as [hello Hg He Heq | hello Hg He Hacc Heq | hello n Hg He Hacc Hx Hn Heq | e He Heq]; subst r adm.
    1, 2, 4: eapply (proj1 (identity_kept config)); [exact HI |]; by eapply admit_peer_quiet.
    unfold admit_peer, bind at 1 in Hs. rewrite Ea in Hs. cbn [or_fail SessionHello.action] in Hs.
    unfold bind at 1, diagnose at 1, modify at 1 in Hs. unfold bind at 1, diagnose at 1, modify at 1 in Hs.
    cbn [outcome_protocol] in Hs.
    match type of Hs with _ ?s1 = _ => set (accepted := s1) in Hs end.
    assert (Hid : same_identity accepted s').
    { revert Hs. generalize accepted. clear.
      enough (Hw : within same_identity (let* sent_before := get (fun s => hellos_sent (diagnostics_ s)) in
        let* sent := if sent_before =? 0 then send_hello else ret (success tt) in
        or_fail sent (fun _ => adjudicate (E := E) (H := H)))) by (intros s; apply Hw).
      pose proof (quiet_fail (E := E) (H := H)) as Q1. pose proof (quiet_send_hello (E := E) (H := H)) as Q2.
      pose proof identity_adjudicate as Q3. identity_op. }
    split; [destruct Hid as (-> & _); exact Hc |]. right.
    eapply same_identity_proved; [exact Hid |]. rewrite Hc, Ha in *. exists (payload frame), hello, n.
    repeat split; try done; apply Hg.
  - destruct Hp as (p & hello & n & _ & _ & _ & _ & Hacc & Hneg & _).
    destruct (admit_authenticated (admission_ s) (payload frame) (now_unix_milliseconds (config_ s)) p n Hacc Hneg)
      as (r & Hr & Hna & _).
    eapply (proj1 (identity_kept config)); [exact HI |]. by eapply admit_peer_quiet.
Qed.

Lemma identity_loud config : loud_kept (identity_inv config).
Proof.
  pose proof (identity_kept config) as K. split; [| split].
  - intros channel frame. rewrite handle_hello_eq. apply keeps_bind.
    { apply keeps_quiet; [done |]. quiet_op. }
    intros _. apply keeps_bind; [apply keeps_quiet; [done | apply quiet_record_inbound_hello] |].
    intros [[] | e]; cbn [or_fail]; [apply admit_peer_identity | apply keeps_quiet; [done | apply quiet_fail]].
  - intros frame s a s' HI Hs. pose proof HI as [Hc [[Ha Hv] | Hp]].
    + eapply (proj1 K); [exact HI |]. by eapply pairing_request_unverified.
    + assert (Hid := identity_handle_pairing_request frame s a s' Hs).
      split; [by destruct Hid as (-> & _) |]. right. by eapply same_identity_proved.
  - intros frame s a s' HI Hs. pose proof HI as [Hc [[Ha Hv] | Hp]].
    + eapply (proj1 K); [exact HI |]. by eapply pairing_result_unverified.
    + assert (Hid := identity_handle_pairing_result frame s a s' Hs).
      split; [by destruct Hid as (-> & _) |]. right. by eapply same_identity_proved.
Qed.

Lemma create_inv config env (s : PeerSession E H) : create config env = success s -> s = new_session config env.
Proof.
  unfold create. intros Hc. repeat (inv_result Hc). done.
Qed.

Lemma new_session_identity config env : identity_inv config (new_session (H := H) config env).
Proof. split; [done |]. left. done. Qed.

(** C6. A session never treats the other side as its peer without proof.
    Whatever the transport delivers and whatever the owner and the frame
    handlers do, in any order, a session that is authenticated, active or
    restricted to pairing has admitted a hello that is signed with the peer's
    key, names the two endpoints, the session, the epoch, the nonces and the
    signaling transcript this session expects, had not expired, and negotiated
    the capabilities the session uses. *)
Theorem session_peer_proved `{!LawfulHandlers} config env (s0 s : PeerSession E H) :
  create config env = success s0 -> session_run s0 s -> verified s = true -> peer_proved config s.
Proof.
  intros Hc%create_inv Hr Hv. subst s0.
  destruct (run_keeps _ (identity_kept config) (identity_loud config) _ _ Hr (new_session_identity config env))
    as [_ [[_ Hn] | Hp]]; [congruence | done].
Qed.

End identity.

(** ** What an untrusted peer can reach *)

Section untrusted.
Context {E H : Type} `{!SessionEnv E} `{!Handlers E H} `{Sodium}.

(** Nobody on this side vouches for the peer: the authorizer never trusts it,
    the evaluator never grants, the sink accepts no grant. *)
Record never_trusts (config : PeerSessionConfig E) : Prop := {
  never_authorizes : exists authorizer, trust_authorizer config = Some authorizer /\
    forall e now a e', authorizer e now = (success a, e') -> trusted a = false;
  never_grants : forall evaluator e request result e',
    pairing_evaluator config = Some evaluator -> evaluator e request = (success result, e') ->
    status result = StableStatus.ok -> grant result = None;
  never_accepts : forall sink e result id nonce scopes u e',
    pairing_result_sink config = Some sink -> sink e result id nonce scopes <> (success u, e');
}.

Definition untrusted_inv (config : PeerSessionConfig E) (s : PeerSession E H) : Prop :=
  config_ s = config /\ authenticated s = false /\ authorized_scopes (diagnostics_ s) = [] /\
  (basic_communication (diagnostics_ s) = true -> basic_communication_enabled config = true) /\
  (policy_scopes (diagnostics_ s) = [] \/ policy_scopes (diagnostics_ s) = basic_communication_scopes config).

Lemma untrusted_kept config : kept (untrusted_inv config).
Proof.
  assert (Hq : forall s s' : PeerSession E H, untrusted_inv config s -> quiet s s' -> untrusted_inv config s').
  { intros s s' (Hc & Ha & Hs & Hb & Hp) [Qc _ _ Qb Qp Qs Qt]. unfold untrusted_inv.
    rewrite Qc, Qb, Qp, Qs. repeat (split; [try done |]); [| done].
    revert Ha. unfold authenticated. destruct Qt as [-> | [-> | [-> ->]]]; done. }
  split; [exact Hq |]. intros s s' (Hc & Ha & Hs & Hb & Hp) (s1 & Hs1 & ->). eapply Hq; [| exact Hs1].
  repeat split; done.
Qed.

Lemma untrusted_adjudicate config : never_trusts config -> keeps (untrusted_inv config) (adjudicate (E := E) (H := H)).
Proof.
  intros [(authorizer & Hauth & Hno) _ _] s a s' HI. pose proof HI as (Hc & Ha & Hs & Hb & Hp).
  unfold adjudicate. unfold bind at 1, get at 1. rewrite Hc, Hauth.
  unfold bind at 1, get at 1. unfold bind at 1, call at 1.
  destruct (authorizer (env_ s) (wall_clock_now s)) as [[trust | e] e1] eqn:Eq.
  - rewrite (Hno _ _ _ _ Eq). unfold bind at 1, get at 1. unfold bind at 1, get at 1.
    cbn [diagnostics_ config_]. destruct (negb _ && negb _).
    { intros Hf. eapply (proj1 (untrusted_kept config)); [| eapply quiet_fail; exact Hf].
      repeat split; done. }
    unfold bind, get, diagnose, modify. intros [= <- <-]. repeat split; cbn; try done.
    + rewrite Hc. intros Hbasic. lia.
    + rewrite Hc. destruct (_ && _); auto.
  - intros Hf. eapply (proj1 (untrusted_kept config)); [| eapply quiet_fail; exact Hf].
    repeat split; done.
Qed.

Section never.
Context (config : PeerSessionConfig E) (Hnever : never_trusts config).
#[local] Abbreviation I := (untrusted_inv config).

(** Assignments the invariant does not read. *)
Lemma untrusted_modify f :
  (forall s : PeerSession E H, config_ (f s) = config_ s /\
     state (diagnostics_ (f s)) = state (diagnostics_ s) /\
     authorized_scopes (diagnostics_ (f s)) = authorized_scopes (diagnostics_ s) /\
     basic_communication (diagnostics_ (f s)) = basic_communication (diagnostics_ s) /\
     policy_scopes (diagnostics_ (f s)) = policy_scopes (diagnostics_ s)) ->
  keeps I (modify f).
Proof.
  intros Hf s a s' (Hc & Ha & Hs & Hb & Hp) [= <- <-]. destruct (Hf s) as (Fc & Ft & Fs & Fb & Fp).
  unfold untrusted_inv, authenticated. rewrite Fc, Ft, Fs, Fb, Fp. done.
Qed.

Lemma untrusted_admit frame :
  keeps I (fun s => let '(r, a) := admit_hello (admission_ s) (payload frame) (now_unix_milliseconds (config_ s)) in
                    Some (r, {| s with admission_ := a |})).
Proof. intros s a s' HI. destruct (admit_hello _ _ _). intros [= <- <-]. done. Qed.

Ltac untrusted_step :=
  match goal with
  | |- forall _, _ => intro
  | |- keeps I (bind _ _) => apply keeps_bind
  | |- keeps I (or_fail ?r _) => destruct r; cbn [or_fail]
  | |- keeps I (diagnose _) => apply untrusted_modify; intros ?; repeat split; reflexivity
  | |- keeps I (modify _) => apply untrusted_modify; intros ?; repeat split; reflexivity
  | |- keeps I (match ?x with _ => _ end) => destruct x
  | |- keeps I (if ?x then _ else _) => destruct x
  | |- keeps I adjudicate => by apply untrusted_adjudicate
  | |- keeps I (fun s => let '(r, a) := admit_hello _ _ _ in _) => apply untrusted_admit
  | |- keeps I _ => apply keeps_quiet; [apply untrusted_kept |]; solve [quiet_op]
  end.

Lemma untrusted_hello channel frame : keeps I (handle_hello channel frame).
Proof.
  pose proof (quiet_fail (E := E) (H := H)) as Q1. pose proof (quiet_send_hello (E := E) (H := H)) as Q2.
  pose proof (quiet_record_inbound_hello (E := E) (H := H)) as Q3.
  rewrite handle_hello_eq. unfold admit_peer. repeat untrusted_step.
Qed.

(** The evaluator's verdict carries no grant that counts. *)
Lemma untrusted_evaluated evaluator e request r e' id :
  pairing_evaluator config = Some evaluator -> evaluator e request = (r, e') ->
  is_ok (status (evaluated_result id r)) = true -> grant (evaluated_result id r) = None.
Proof.
  intros Hev Hr. destruct r as [result | err]; cbn; [| done].
  intros Hok%bool_decide_eq_true. by eapply never_grants.
Qed.

Lemma untrusted_answer authorized request evaluator :
  pairing_evaluator config = Some evaluator -> keeps I (answer_pairing_request authorized request evaluator).
Proof.
  intros Hev s a s' HI. unfold answer_pairing_request. unfold bind at 1, call at 1.
  destruct (evaluator (env_ s) request) as [r e1] eqn:Er.
  assert (Hg := untrusted_evaluated evaluator _ _ _ _ (request_id request) Hev Er).
  set (result := evaluated_result (request_id request) r) in *. clearbody result.
  assert (HI1 : I {| s with env_ := e1 |}) by done. revert HI1. generalize {| s with env_ := e1 |}. clear s HI Er.
  intros s HI. revert s a s' HI. change (keeps I (let* recorded := record_pairing result in
    or_fail recorded (fun _ => let* sent := send_result result in or_fail sent (fun _ => count_result_sent ;;
      match grant result with
      | Some granted =>
          if is_ok (status result) && negb authorized
          then upgrade_to_authorized (TrustGrant.granted_scopes granted) "session_authorized"
          else if authorized then ret tt else fail (session_error ErrorCode.pairing_denied "pairing_denied")
      | None => if authorized then ret tt else fail (session_error ErrorCode.pairing_denied "pairing_denied")
      end)))).
  pose proof (quiet_fail (E := E) (H := H)) as Q1. pose proof (quiet_send_result (E := E) (H := H)) as Q2.
  pose proof (quiet_record_pairing (E := E) (H := H)) as Q3.
  pose proof (quiet_count_result_sent (E := E) (H := H)) as Q4.
  destruct (grant result) as [granted |]; [destruct (is_ok (status result)); [by specialize (Hg eq_refl) |] |];
    cbn [andb]; repeat untrusted_step.
Qed.

Lemma untrusted_evaluate authorized request :
  keeps I (let* evaluator := get (fun s => pairing_evaluator (config_ s)) in
           match evaluator with
           | None => deny authorized (request_id request) StableStatus.permission_denied
                       (session_error ErrorCode.pairing_denied "pairing_disabled")
           | Some evaluator => answer_pairing_request authorized request evaluator
           end).
Proof.
  apply keeps_get_bind. intros s a s' HI. pose proof HI as (Hc & _). rewrite Hc.
  destruct (pairing_evaluator config) as [ev |] eqn:Hev; [by eapply untrusted_answer |].
  eapply keeps_quiet; [apply untrusted_kept | apply quiet_deny | done].
Qed.

Lemma untrusted_request frame : keeps I (handle_pairing_request frame).
Proof.
  pose proof (quiet_fail (E := E) (H := H)) as Q1. pose proof (quiet_deny (E := E) (H := H)) as Q2.
  pose proof (quiet_send_result (E := E) (H := H)) as Q3.
  pose proof (quiet_count_result_sent (E := E) (H := H)) as Q4.
  pose proof (quiet_admit_pairing (E := E) (H := H)) as Q5.
  pose proof (quiet_enforce_pairing_deadline (E := E) (H := H)) as Q6.
  unfold handle_pairing_request. repeat first [apply untrusted_evaluate | untrusted_step].
Qed.

(** No grant passes the sink. *)
Lemma untrusted_sink granted result id nonce :
  keeps I (let* sink := get (fun s => pairing_result_sink (config_ s)) in
           match sink with
           | None => fail (session_error ErrorCode.configuration "pairing_result_sink_missing")
           | Some sink =>
               let* scopes := get pending_pairing_scopes_ in
               let* accepted := call (fun e => sink e result id nonce scopes) in
               or_fail accepted (fun _ =>
               modify (fun s => {| s with pending_pairing_ := None |}) ;;
               let* authorized := get authenticated in
               if authorized then ret tt
               else upgrade_to_authorized (TrustGrant.granted_scopes granted) "session_authorized")
           end).
Proof.
  apply keeps_get_bind. intros s a s' HI. pose proof HI as (Hc & _). rewrite Hc.
  assert (Hf : forall e, keeps I (fail e)) by (intros e; apply keeps_quiet; [apply untrusted_kept | apply quiet_fail]).
  destruct (pairing_result_sink config) as [sink |] eqn:Hsink; [| by apply Hf].
  unfold bind at 1, get at 1. unfold bind at 1, call at 1.
  destruct (sink (env_ s) result id nonce (pending_pairing_scopes_ s)) as [[u | e] e1] eqn:Es.
  - by destruct (never_accepts config Hnever sink _ _ _ _ _ _ _ Hsink Es).
  - intros Hs. eapply Hf; [| exact Hs]. done.
Qed.

Lemma untrusted_result frame : keeps I (handle_pairing_result frame).
Proof.
  pose proof (quiet_fail (E := E) (H := H)) as Q1.
  unfold handle_pairing_result. repeat first [apply untrusted_sink | untrusted_step].
Qed.

Lemma untrusted_loud : loud_kept I.
Proof. split; [apply untrusted_hello | split; [apply untrusted_request | apply untrusted_result]]. Qed.
End never.

Lemma new_session_untrusted config env : untrusted_inv config (new_session (H := H) config env).
Proof. repeat split; auto. done. Qed.

(** What the domains of a frame type or a channel need of an untrusted peer. *)
Definition basic_domain (d : ChannelDomain) : Prop := d = ChannelDomain.message \/ d = ChannelDomain.file.

Lemma untrusted_frame config (s : PeerSession E H) t :
  untrusted_inv config s -> frame_allowed s t = true ->
  basic_communication_enabled config = true /\ exists d, SessionChannels.frame_type_domain t = Some d /\ basic_domain d.
Proof.
  intros (Hc & Ha & _ & Hb & _). unfold frame_allowed. rewrite Ha. cbn [orb].
  destruct (SessionChannels.frame_type_domain t) as [d |]; [| done]. unfold basic_domain_allowed. rewrite Ha.
  destruct (basic_communication (diagnostics_ s)) eqn:Eb; [| done]. cbn [negb orb].
  intros Hd. split; [auto |]. exists d. split; [done |]. unfold basic_domain.
  apply orb_true_iff in Hd as [Hd%bool_decide_eq_true | Hd%bool_decide_eq_true]; auto.
Qed.

(** A message that carries a frame of a basic domain. *)
Definition basic_message (config : PeerSessionConfig E) (bytes : list Z) : Prop :=
  exists frame d, Wire.frame (parse_frame bytes (session_limits config)) = Some frame /\
    SessionChannels.frame_type_domain (type frame) = Some d /\ basic_domain d.

(** The handlers are not consulted: any others would leave the same session. *)
Definition unheard (channel : Z) (bytes : list Z) (s : PeerSession E H) : Prop :=
  forall handlers : Handlers E H,
    @handle_message E H _ handlers _ channel bytes s = @handle_message E H _ _ _ channel bytes s.

Lemma untrusted_control config channel frame (s : PeerSession E H) (handlers : Handlers E H) :
  untrusted_inv config s ->
  @handle_control_frame E H _ handlers _ channel frame s = @handle_control_frame E H _ _ _ channel frame s.
Proof.
  intros (_ & Ha & _). unfold handle_control_frame.
  destruct (is_type frame session_hello); [done |]. destruct (is_type frame pairing_request); [done |].
  destruct (is_type frame pairing_result); [done |]. destruct (is_type frame pairing_approval_request); [done |].
  destruct (_ || _); [| done]. unfold handle_restart_frame. unfold bind at 1 4, diagnose, modify, bind at 1 3, get at 1 3.
  unfold authenticated in *. cbn. by rewrite Ha.
Qed.

Lemma untrusted_unheard config channel bytes (s : PeerSession E H) :
  untrusted_inv config s ->
  unheard channel bytes s \/ (basic_communication_enabled config = true /\ basic_message config bytes).
Proof.
  intros Hi. assert (Hc : config_ s = config) by apply Hi. unfold unheard, handle_message, bind, get. cbv beta iota. rewrite Hc.
  destruct (Wire.status _) eqn:Es; [| by left ..].
  destruct (Wire.frame _) as [frame |] eqn:Ef; [| by left]. destruct (_ =? _); [| by left].
  destruct (bool_decide (channel_kind (env_ s) channel = ChannelKind.control)).
  { left. intros handlers. by apply (untrusted_control config). }
  unfold handle_business_frame, bind, get. cbv beta iota.
  destruct (frame_allowed s (type frame)) eqn:Ea; [| by left].
  right. destruct (untrusted_frame _ _ _ Hi Ea) as (Hb & d & Hd & Hbd). split; [done |]. by exists frame, d.
Qed.

(** C7. An untrusted peer cannot talk its way in. When the authorizer does not
    trust the peer, the evaluator grants nothing and the sink accepts nothing,
    then in every run, whatever the peer sends, the session is never authorized
    and holds no granted scope, and no message of the peer reaches a frame
    handler, of a channel, of a domain or of the restart, unless the owner enabled
    basic communication and the message carries a message or file frame: any
    other handlers would leave the session in the same state. *)
Theorem untrusted_peer_confined `{!LawfulHandlers} config env (s0 s : PeerSession E H) :
  create config env = success s0 -> never_trusts config -> session_run s0 s ->
  authenticated s = false /\ authorized_scopes (diagnostics_ s) = [] /\
  (policy_scopes (diagnostics_ s) = [] \/ policy_scopes (diagnostics_ s) = basic_communication_scopes config) /\
  forall channel bytes,
    unheard channel bytes s \/ (basic_communication_enabled config = true /\ basic_message config bytes).
Proof.
  intros Hc%create_inv Hn Hr. subst s0.
  assert (HI := run_keeps _ (untrusted_kept config) (untrusted_loud config Hn) _ _ Hr (new_session_untrusted config env)).
  pose proof HI as (_ & Ha & Hs & _ & Hp). repeat (split; [done |]). intros channel bytes. by apply untrusted_unheard.
Qed.

End untrusted.

(** ** The send loop *)

Section pumping.
Context {E H : Type} `{!SessionEnv E} `{!Handlers E H} `{Sodium}.
Import SessionChannels.

Lemma next_to_send_takes m :
  manager_wf m ->
  (next_to_send m = Some (None, m) /\ entries m = []) \/
  exists e m' m'', next_to_send m = Some (Some e, m') /\ manager_wf m' /\ entries m ≡ₚ e :: entries m' /\
    SessionChannels.return_to_send m' e = Some m'' /\ manager_wf m'' /\ entries m'' ≡ₚ entries m.
Proof.
  intros Hwf. destruct (next_to_send_fuel_spec 2 m Hwf ltac:(lia))
    as [? | (m0 & ks1 & k & ks2 & e & q & m' & Hsv & _ & _ & Hn & Hs)]; [by left |].
  right. assert (Hwf0 := served_wf _ _ Hwf Hsv). destruct (return_wf m0 m' k e q Hwf0 Hs) as (m'' & Hr & Hw & Hp & _).
  assert (Hm0 : entries m0 = entries m) by (by destruct Hsv as [-> | [-> _]]).
  exists e, m', m''. split; [exact Hn |]. split; [exact (released_wf _ _ _ _ _ Hwf0 Hs) |]. rewrite <- Hm0. split; [| done].
  destruct Hs as [Hq _ (_ & _ & Hqs & _)]. cbn in Hqs. rewrite Hqs. by apply entries_pop.
Qed.

Lemma close_channel_length m id : (length (entries (SessionChannels.close_channel m id)) <= length (entries m))%nat.
Proof.
  destruct (close_shrunk m id) as [_ Hs]. unfold all_entries. rewrite !length_app.
  pose proof (sublist_length _ _ (Hs FrameClass.control)). pose proof (sublist_length _ _ (Hs FrameClass.interactive)).
  pose proof (sublist_length _ _ (Hs FrameClass.standard)). pose proof (sublist_length _ _ (Hs FrameClass.bulk)).
  cbn in *. lia.
Qed.

Lemma has_sendable_entries m : has_sendable_frames m = false <-> entries m = [].
Proof.
  split.
  - intros Hh. apply entries_empty. intros k. destruct (class_get k (class_queues_ m)) eqn:Ek; [done |].
    assert (Ht : has_sendable_frames m = true) by (apply has_sendable_spec; exists k; congruence). congruence.
  - intros He. destruct (has_sendable_frames m) eqn:Hh; [| done]. apply has_sendable_spec in Hh as [k Hk].
    destruct Hk. unfold all_entries in He. apply app_eq_nil in He as [H1 He].
    apply app_eq_nil in He as [H2 He]. apply app_eq_nil in He as [H3 H4]. by destruct k.
Qed.

(** Why [pump] stopped. *)
Inductive pump_stopped (s' : PeerSession E H) : Prop :=
  | pump_drained : entries (PeerSession.channels_ s') = [] -> pump_stopped s'
  | pump_waits queued find :
      queued ∈ entries (PeerSession.channels_ s') -> route queued = Some find -> find s' = None -> pump_stopped s'
  | pump_backpressure queued find channel bytes e e' error :
      queued ∈ entries (PeerSession.channels_ s') -> route queued = Some find -> find s' = Some channel ->
      encode_frame (queued_frame queued) (session_limits (PeerSession.config_ s')) = success bytes ->
      channel_send e channel bytes = (failure error, e') -> code_ error = ErrorCode.would_block ->
      pump_stopped s'
  | pump_failed error :
      state (diagnostics_ s') = PeerSessionState.closed -> last_error (diagnostics_ s') = Some error ->
      pump_stopped s'.

Lemma record_timeline stage source reason (s : PeerSession E H) :
  exists r t, record stage source reason s = Some (r, {| s with timeline_ := t |}).
Proof.
  assert (Hs : Some (success tt, s) = Some (success tt, {| s with timeline_ := timeline_ s |})) by (by destruct s).
  unfold record. destruct (timeline_ s) as [t |]; [| by eexists _, _].
  destruct (_ || _); [by eexists _, _ |]. destruct (Operation.transition _ _ _ _ _). by eexists _, _.
Qed.

(** [fail] closes the session with the error, and the transport under it. *)
Lemma fail_spec error (s : PeerSession E H) :
  transport (PeerSession.config_ s) = true ->
  exists t, fail error s =
    Some (tt, {| s with timeline_ := t;
                 diagnostics_ := {| (diagnostics_ s) with last_error := Some error; state := PeerSessionState.closed |};
                 env_ := transport_close (env_ s) CloseReason.protocol_error |}).
Proof.
  intros Ht. unfold fail. unfold bind at 1, diagnose, modify. set (s1 := {| s with diagnostics_ := _ |}).
  destruct (record_timeline ConnectionStage.closed "peer_session" (safe_detail_ error) s1) as (r & t & Hr).
  exists t. unfold bind at 1. rewrite Hr. unfold bind, get. cbn [PeerSession.config_ s1]. by rewrite Ht.
Qed.

Lemma pump_loop_stops fuel (s : PeerSession E H) :
  transport (PeerSession.config_ s) = true ->
  manager_wf (PeerSession.channels_ s) -> (length (entries (PeerSession.channels_ s)) < fuel)%nat ->
  exists s', pump_loop fuel s = Some (tt, s') /\ manager_wf (PeerSession.channels_ s') /\ pump_stopped s'.
Proof.
  revert s. induction fuel as [| fuel IH]; intros s Htr Hwf Hlen; [lia |]. cbn [pump_loop].
  unfold bind at 1, get at 1. destruct (has_sendable_frames (PeerSession.channels_ s)) eqn:Hh; cbn [negb].
  2: { exists s. split; [done |]. split; [done |]. apply pump_drained. by apply has_sendable_entries. }
  unfold bind at 1, manage_partial at 1.
  destruct (next_to_send_takes _ Hwf) as [[-> He] | (e & m' & m'' & -> & Hwf' & Hp & Hr & Hwf'' & Hp'')].
  { exists s. split; [by destruct s |]. split; [done |]. by apply pump_drained. }
  set (s1 := {| s with PeerSession.channels_ := m' |}).
  assert (Hin : e ∈ entries m'') by (rewrite Hp'', Hp; left).
  assert (Hl : (length (entries m') < fuel)%nat) by (apply Permutation_length in Hp; cbn in Hp; lia).
  assert (Hret : PeerSession.return_to_send e s1 = Some (tt, {| s1 with PeerSession.channels_ := m'' |})).
  { unfold PeerSession.return_to_send, manage_partial. cbn [PeerSession.channels_ s1]. by rewrite Hr. }
  assert (Hgive : forall error s2, transport (PeerSession.config_ s2) = true -> PeerSession.channels_ s2 = m' ->
    exists s', (manage (fun m => SessionChannels.close_channel m (queued_channel_id e)) ;; fail error) s2 = Some (tt, s') /\
      manager_wf (PeerSession.channels_ s') /\ pump_stopped s').
  { intros error s2 Ht2 Hs2. unfold bind, manage, modify.
    destruct (fail_spec error {| s2 with PeerSession.channels_ :=
      SessionChannels.close_channel (PeerSession.channels_ s2) (queued_channel_id e) |} Ht2) as [t Hf].
    eexists. split; [exact Hf |]. cbn. rewrite Hs2. split; [by apply close_channel_wf |]. by eapply pump_failed. }
  destruct (route e) as [find |] eqn:Hroute.
  2: { unfold bind, manage, modify. apply IH; cbn; [done | by apply close_channel_wf |].
       pose proof (close_channel_length m' (queued_channel_id e)). lia. }
  unfold bind at 1, get at 1. assert (Hfind : forall s2 : PeerSession E H, control_ s2 = control_ s1 ->
    physical_channels_ s2 = physical_channels_ s1 -> find s2 = find s1).
  { intros s2 H1 H2. revert Hroute. unfold route. destruct (_ && _); [by intros [= <-] |].
    destruct (frame_type_domain _); [| done]. intros [= <-]. by rewrite H2. }
  destruct (find s1) as [channel |] eqn:Hf.
  2: { rewrite Hret. eexists. split; [reflexivity |]. split; [done |]. eapply pump_waits; [exact Hin | exact Hroute |].
       by rewrite Hfind. }
  unfold bind at 1, get at 1.
  destruct (encode_frame (queued_frame e) (session_limits (PeerSession.config_ s1))) as [bytes | error] eqn:Henc.
  2: { by apply Hgive. }
  unfold bind at 1, call at 1. destruct (channel_send (env_ s1) channel bytes) as [[[] | error] e1] eqn:Hsend.
  { apply IH; done. }
  case_bool_decide as Hw.
  - set (s2 := {| s1 with env_ := e1 |}).
    assert (Hret2 : PeerSession.return_to_send e s2 = Some (tt, {| s2 with PeerSession.channels_ := m'' |})).
    { unfold PeerSession.return_to_send, manage_partial. cbn [PeerSession.channels_ s2 s1]. by rewrite Hr. }
    rewrite Hret2. eexists. split; [reflexivity |]. split; [done |].
    eapply (pump_backpressure _ e find channel bytes); try done. by rewrite Hfind.
  - by apply Hgive.
Qed.

(** C10. The send loop ends, without undefined behaviour. From every session
    whose channel manager is well formed, [pump] returns, keeps the manager well
    formed, and stops for one of four reasons: no frame is queued; the next frame
    is back in its queue because its physical channel is not open, or because the
    transport reported back pressure; or a frame could not be encoded or sent and
    the session has failed with that error. *)
Theorem pump_returns (s : PeerSession E H) :
  transport (PeerSession.config_ s) = true -> manager_wf (PeerSession.channels_ s) ->
  exists s', pump s = Some (tt, s') /\ manager_wf (PeerSession.channels_ s') /\ pump_stopped s'.
Proof. intros Ht Hwf. apply pump_loop_stops; [done | done | lia]. Qed.

End pumping.

(** ** Error paths *)

Section errors.
Context {E H : Type} `{!SessionEnv E} `{!Handlers E H} `{Sodium}.

Ltac refuse := unfold bind, get, ret; repeat match goal with Hx : _ = false |- _ => rewrite Hx end; done.

(** C9. A call the session refuses changes nothing. On a session that is not
    authorized, a ping or a restart frame is refused with a permission error. With
    an error that says pairing is required, the session refuses to send a frame whose
    domain the basic policy does not cover and to open or adopt a channel of such a
    domain; and when it is not restricted to pairing either, which is before the peer
    is verified and after the end, to submit a pairing request or an approval request
    or to send a pairing result. Each refusal returns the session as it was. *)
Theorem refused_calls_change_nothing (s : PeerSession E H) :
  authenticated s = false ->
  (forall id, send_ping id s =
     Some (failure (session_error ErrorCode.permission "control_ping_not_available"), s)) /\
  (forall type payload, is_restart_type type = true -> send_restart_frame type payload s =
     Some (failure (session_error ErrorCode.permission "restart_frame_not_available"), s)) /\
  (forall id klass frame, frame_allowed s (type frame) = false -> send_frame id klass frame s =
     Some (failure (session_error ErrorCode.pairing_required "session_not_authorized"), s)) /\
  (forall domain policy frames bytes handler, basic_domain_allowed s domain = false ->
     open_business_channel domain policy frames bytes handler s =
       Some (failure (session_error ErrorCode.pairing_required "session_not_authorized"), s) /\
     forall id, adopt_business_channel id domain policy frames bytes handler s =
       Some (failure (session_error ErrorCode.pairing_required "session_not_authorized"), s)) /\
  (pairing_restricted s = false ->
     (forall id password scopes, submit_pairing_request id password scopes s =
        Some (failure (session_error ErrorCode.pairing_required "session_not_pairing_restricted"), s)) /\
     (forall id scopes, submit_pairing_approval_request id scopes s =
        Some (failure (session_error ErrorCode.pairing_required "session_not_pairing_restricted"), s)) /\
     (forall result, send_pairing_result result s =
        Some (failure (session_error ErrorCode.pairing_required "session_not_pairing_restricted"), s))).
Proof.
  intros Ha. split; [| split; [| split; [| split]]].
  - intros id. unfold send_ping. refuse.
  - intros t p Ht. unfold send_restart_frame. rewrite Ht. cbn [negb]. refuse.
  - intros id klass f Hf. unfold send_frame. refuse.
  - intros d p fc bc h Hd. split; [unfold open_business_channel | intros id; unfold adopt_business_channel]; refuse.
  - intros Hr. unfold submit_pairing_request, submit_pairing_approval_request, send_pairing_result, may_submit.
    split; [| split]; intros; refuse.
Qed.

(** A pairing request that cannot be read. *)
Definition unreadable (s : PeerSession E H) (frame : Frame) (error : Error) : Prop :=
  if max_pairing_payload_bytes (session_limits (config_ s)) <? zlen (payload frame)
  then error = session_error ErrorCode.protocol "pairing_payload_limit"
  else parse_pairing_request (payload frame) = failure error.

(** A pairing request that cannot be read never harms an authorized session
    and always ends any other one. It is only counted when the peer is trusted;
    it closes a session restricted to pairing, and the transport under it, with
    the error of the size check or of the parser; and before the peer is verified
    every pairing request closes the session with an authentication error. *)
Theorem unreadable_pairing_request (s : PeerSession E H) frame error :
  transport (config_ s) = true -> unreadable s frame error ->
  exists s', handle_pairing_request frame s = Some (tt, s') /\
    if authenticated s
    then s' = {| s with diagnostics_ :=
                {| (diagnostics_ s) with pairing_requests_received :=
                     bump (pairing_requests_received (diagnostics_ s)) |} |}
    else state (diagnostics_ s') = PeerSessionState.closed /\
         last_error (diagnostics_ s') =
           Some (if pairing_restricted s then error
                 else session_error ErrorCode.authentication "pairing_frame_before_hello") /\
         env_ s' = transport_close (env_ s) CloseReason.protocol_error.
Proof.
  intros Ht Hu. unfold handle_pairing_request. unfold bind at 1, get at 1.
  destruct (authenticated s) eqn:Ha; cbn [orb negb].
  - unfold bind at 1, get at 1. rewrite Ha. unfold bind at 1, diagnose at 1, modify at 1.
    unfold bind at 1, get at 1. cbn [config_]. unfold unreadable in Hu.
    eexists. split; [| reflexivity]. destruct (_ <? _); [done |]. by rewrite Hu.
  - destruct (pairing_restricted s) eqn:Hp; cbn [negb].
    + unfold bind at 1, get at 1. rewrite Ha. unfold bind at 1, diagnose at 1, modify at 1.
      unfold bind at 1, get at 1. cbn [config_]. unfold unreadable in Hu. set (s1 := {| s with diagnostics_ := _ |}).
      destruct (fail_spec error s1 Ht) as [t Hf]. eexists. split; [etransitivity; [| exact Hf] | done].
      destruct (_ <? _); by rewrite Hu.
    + destruct (fail_spec (session_error ErrorCode.authentication "pairing_frame_before_hello") s Ht) as [t Hf].
      eexists. split; [exact Hf | done].
Qed.

(** A business frame that is not allowed reaches nobody. On a channel that
    is not the control channel, a frame that may not flow, or bytes that are no
    frame, run no handler and touch no queue: the first time only the physical
    channel is closed, the second time the session fails. *)
Theorem business_violation_confined (s : PeerSession E H) channel bytes :
  transport (config_ s) = true -> channel_kind (env_ s) channel <> ChannelKind.control ->
  (forall frame, Wire.status (parse_frame bytes (session_limits (config_ s))) = parsed ->
     Wire.frame (parse_frame bytes (session_limits (config_ s))) = Some frame ->
     consumed (parse_frame bytes (session_limits (config_ s))) = zlen bytes ->
     frame_allowed s (type frame) = false) ->
  exists s', handle_message channel bytes s = Some (tt, s') /\
    channels_ s' = channels_ s /\ channel_handlers_ s' = channel_handlers_ s /\
    business_violations_ s' = bump (business_violations_ s) /\
    if 2 <=? bump (business_violations_ s)
    then state (diagnostics_ s') = PeerSessionState.closed /\
         env_ s' = transport_close (env_ s) CloseReason.protocol_error
    else state (diagnostics_ s') = state (diagnostics_ s) /\
         env_ s' = channel_close (env_ s) channel CloseReason.protocol_error.
Proof.
  intros Ht Hk Hf.
  assert (Hviol : exists s', note_business_violation channel s = Some (tt, s') /\
    channels_ s' = channels_ s /\ channel_handlers_ s' = channel_handlers_ s /\
    business_violations_ s' = bump (business_violations_ s) /\
    if 2 <=? bump (business_violations_ s)
    then state (diagnostics_ s') = PeerSessionState.closed /\
         env_ s' = transport_close (env_ s) CloseReason.protocol_error
    else state (diagnostics_ s') = state (diagnostics_ s) /\
         env_ s' = channel_close (env_ s) channel CloseReason.protocol_error).
  { unfold note_business_violation. unfold bind at 1, diagnose at 1, modify at 1. unfold bind at 1, modify at 1.
    unfold bind at 1, get at 1. cbn [business_violations_]. destruct (2 <=? bump (business_violations_ s)).
    - match goal with |- context [fail ?e ?s1] => destruct (fail_spec e s1 Ht) as [t Hx] end.
      eexists. split; [exact Hx |]. done.
    - eexists. split; [reflexivity |]. done. }
  unfold handle_message. unfold bind at 1, get at 1. unfold bind at 1, get at 1. rewrite bool_decide_false by done.
  destruct (Wire.status _) eqn:Es; [| done ..]. destruct (Wire.frame _) as [frame |] eqn:Ef; [| done].
  destruct (Z.eqb_spec (consumed (parse_frame bytes (session_limits (config_ s)))) (zlen bytes)); [| done].
  unfold handle_business_frame. unfold bind at 1, get at 1. rewrite (Hf frame) by done. done.
Qed.

(** C11. The transport can report a channel of every kind, and the session adopts
    or ignores each of them, except one: for a channel of kind [pairing], which a
    peer opens by its label, [adopt_physical_channel] reads the domain of a kind
    that has none. *)
Theorem pairing_channel_undefined (s : PeerSession E H) kind channel :
  transport (config_ s) = true -> manager_wf (channels_ s) ->
  adopt_physical_channel kind channel s = None <-> kind = ChannelKind.pairing.
Proof.
  intros Ht Hwf. split; [| by intros ->]. unfold adopt_physical_channel.
  assert (Hd : physical_domain_for_kind kind = None -> kind = ChannelKind.pairing) by (by destruct kind).
  destruct (physical_domain_for_kind kind) as [domain |]; [| auto].
  unfold bind at 1, get at 1. destruct (_ || _); [done |]. unfold bind at 1, modify at 1.
  match goal with |- pump ?s1 = None -> _ => destruct (pump_loop_stops (S (length (entries (channels_ s1)))) s1) as (s' & Hp & _) end;
    [done | done | cbn; lia |].
  unfold pump. cbn [channels_]. cbn [channels_] in Hp. by rewrite Hp.
Qed.

(** A repeated hello ends a session that keeps a timeline. The admission
    calls the same bytes again a duplicate and ignores them, but once the
    timeline says authenticated, every hello frame fails the session with an
    illegal transition before the admission sees it. *)
Theorem repeated_hello_ends_session (s : PeerSession E H) channel frame t :
  transport (config_ s) = true -> timeline_ s = Some t -> 0 < Operation.timeline_capacity_ t ->
  Operation.stage_ t = ConnectionStage.authenticated ->
  exists s', handle_hello channel frame s = Some (tt, s') /\ admission_ s' = admission_ s /\
    state (diagnostics_ s') = PeerSessionState.closed /\
    last_error (diagnostics_ s') =
      Some (Operation.timeline_error ErrorCode.protocol "connection_transition_invalid").
Proof.
  intros Ht Htl Hcap Hst. rewrite handle_hello_eq. unfold bind at 1, modify at 1.
  set (s1 := {| s with control_ := _; physical_channels_ := _ |}).
  assert (Hrec : record_inbound_hello s1 =
    Some (failure (Operation.timeline_error ErrorCode.protocol "connection_transition_invalid"),
          {| s1 with timeline_ := Some t |})).
  { unfold record_inbound_hello, timeline_stage. unfold bind at 1, get at 1. cbn [timeline_ s1]. rewrite Htl.
    cbn [fmap option_fmap option_map]. rewrite Hst.
    change (Operation.is_stage ConnectionStage.authenticated ConnectionStage.authenticating) with false.
    change (Operation.is_stage ConnectionStage.authenticated ConnectionStage.transport_connected) with false.
    cbv iota. unfold bind at 1, record at 1. cbn [timeline_ s1]. rewrite Htl, Hst.
    change (Operation.is_stage ConnectionStage.authenticated ConnectionStage.transport_connected) with false.
    change (Operation.is_stage ConnectionStage.authenticated ConnectionStage.closed) with false. cbn [orb].
    unfold Operation.transition. rewrite (proj2 (Z.eqb_neq _ 0)) by lia. rewrite Hst. done. }
  unfold bind at 1. rewrite Hrec. cbn [or_fail].
  destruct (fail_spec (Operation.timeline_error ErrorCode.protocol "connection_transition_invalid")
              {| s1 with timeline_ := Some t |} Ht) as [t' Hf].
  eexists. split; [exact Hf | done].
Qed.

(** The denial of an approval request the node could not record names no
    request, cannot be encoded, and is not sent. *)
Lemma lost_approval_denial (s : PeerSession E H) frame request handler e' error :
  authenticated s = true -> pairing_approval_enabled (config_ s) = true ->
  pairing_approval_handler (config_ s) = Some handler -> restricted_since_ s = None ->
  zlen (payload frame) <= max_pairing_payload_bytes (session_limits (config_ s)) ->
  parse_pairing_approval_request (payload frame) = success request ->
  handler (env_ s) request = (failure error, e') ->
  exists s', handle_pairing_approval_request frame s = Some (tt, s') /\ channels_ s' = channels_ s /\ env_ s' = e'.
Proof.
  intros Ha He Hh Hr Hl Hp Hf. unfold handle_pairing_approval_request. unfold bind at 1, get at 1.
  rewrite Ha. cbn [orb negb]. unfold bind at 1, get at 1. rewrite Ha.
  unfold bind at 1, diagnose at 1, modify at 1. unfold bind at 1, get at 1. cbn [config_ andb].
  rewrite (proj2 (Z.ltb_ge _ _)) by done. rewrite Hp. unfold bind at 1, get at 1. cbn [config_]. rewrite He, Hh.
  unfold bind at 1, enforce_pairing_deadline at 1, get at 1. cbn [restricted_since_]. rewrite Hr.
  unfold bind at 1, call at 1. cbn [env_]. rewrite Hf. unfold deny. eexists. split; [reflexivity |]. done.
Qed.

End errors.

(** ** A mailbox as the environment, and witnesses *)

(** Messages given to the transport, channels being opened, and what was closed;
    the control channel is channel 1. *)
Record Mailbox : Type := mkMailbox {
  outbox : list (Z * list Z);
  openings : list ChannelKind;
  closings : list (Z * CloseReason);
}.

#[export] Instance mailbox_env : SessionEnv Mailbox := {|
  channel_kind _ channel := if channel =? 1 then ChannelKind.control else ChannelKind.message;
  channel_max_message_bytes _ _ := 65536;
  channel_send m channel bytes := (success tt, {| m with outbox := outbox m ++ [(channel, bytes)] |});
  channel_close m channel reason := {| m with closings := closings m ++ [(channel, reason)] |};
  transport_close m reason := {| m with closings := closings m ++ [(0, reason)] |};
  async_open_channel m kind _ := {| m with openings := openings m ++ [kind] |};
  steady_now _ := 7;
  random_nonzero m n := (repeat 1 n, m);
|}.

#[export] Instance idle_handlers : Handlers Mailbox unit := {|
  run_channel_handler _ _ := ret tt;
  run_domain_handler _ _ := ret (success tt);
  run_restart_handler _ _ := ret tt;
|}.

#[export] Instance idle_handlers_lawful `{Sodium} : LawfulHandlers (E := Mailbox) (H := unit).
Proof. split; intros h f s a s' [= <- <-]; apply outside_done. Qed.

Definition no_mail : Mailbox := mkMailbox [] [] [].

(** The responder to the sample hello of [SessionHello]. *)
Definition sample_responder : IdentityKeyPair := mkIdentityKeyPair (repeat 6 32) (repeat 6 32) (repeat 6 64).

Definition sample_config (authorizer : option (Mailbox -> Z -> Result SessionAuthorization * Mailbox))
    : PeerSessionConfig Mailbox :=
  {| transport := true; local_hello := sample_hello; expectation := sample_expectation;
     peer_public_key := public_key_ sample_signer; local_protocol := sample_local;
     now_unix_milliseconds := 90000; initiator := false; timeline := None;
     trust_authorizer := authorizer; pairing_evaluator := None; pairing_result_sink := None;
     session_limits := default_limits; channel_budgets := SessionChannels.default_budget;
     pairing_deadline := 60000; basic_communication_enabled := false; basic_communication_scopes := [];
     pairing_approval_enabled := false; pairing_approval_handler := None; wall_clock := None;
     initiator_owned_domains := empty |}.

(** The session [create_verified] makes of it. *)
Definition sample_session (config : PeerSessionConfig Mailbox) : PeerSession Mailbox unit :=
  match @create_verified toy_sodium Mailbox unit config (Some sample_responder) 100000 no_mail with
  | success s => s
  | failure _ => new_session config no_mail
  end.

(** The sample hello on the wire. *)
Definition hello_frame : list Z :=
  match encode_frame (mkFrame (frame_type_value session_hello) 0 0 (repeat 1 16) signed_bytes) default_limits with
  | success b => b
  | failure _ => []
  end.

Definition run_op {A} (m : Op Mailbox unit A) (s : PeerSession Mailbox unit) : PeerSession Mailbox unit :=
  match m s with Some (_, s') => s' | None => s end.

Definition deny_all (e : Mailbox) (now : Z) : Result SessionAuthorization * Mailbox :=
  (success (mkAuthorization false [] false), e).

Definition greeted (config : PeerSessionConfig Mailbox) : PeerSession Mailbox unit :=
  run_op (@perform_event Mailbox unit _ _ toy_sodium (EvMessage 1 hello_frame)) (sample_session config).

Lemma sample_created config : config = sample_config None \/ config = sample_config (Some deny_all) ->
  create (config_ (sample_session config)) no_mail = success (sample_session config).
Proof. intros [-> | ->]; vm_compute; reflexivity. Qed.

Lemma greeted_run config : config = sample_config None \/ config = sample_config (Some deny_all) ->
  session_run (H0 := toy_sodium) (sample_session config) (greeted config).
Proof.
  intros Hc. eapply (run_event (H0 := toy_sodium) _ _ (EvMessage 1 hello_frame)); [apply run_begin |].
  destruct Hc as [-> | ->]; vm_compute; reflexivity.
Qed.

Lemma session_peer_proved_witness :
  peer_proved (H0 := toy_sodium) (config_ (sample_session (sample_config None))) (greeted (sample_config None)).
Proof.
  apply (@session_peer_proved Mailbox unit mailbox_env idle_handlers toy_sodium (@idle_handlers_lawful toy_sodium)
           _ no_mail (sample_session (sample_config None))).
  - apply sample_created. by left.
  - apply greeted_run. by left.
  - vm_compute. reflexivity.
Defined.

Lemma deny_all_never : never_trusts (config_ (sample_session (sample_config (Some deny_all)))).
Proof. split; [| done | done]. exists deny_all. split; [vm_compute; reflexivity |]. by intros e now a e' [= <- _]. Qed.

Lemma untrusted_peer_confined_witness :
  let s := greeted (sample_config (Some deny_all)) in
  pairing_restricted s = true /\ authenticated s = false.
Proof.
  split; [vm_compute; reflexivity |].
  apply (@untrusted_peer_confined Mailbox unit mailbox_env idle_handlers toy_sodium (@idle_handlers_lawful toy_sodium)
           _ no_mail (sample_session (sample_config (Some deny_all))) _
           (sample_created _ (or_intror eq_refl)) deny_all_never (greeted_run _ (or_intror eq_refl))).
Defined.

Lemma sample_manager_wf config : config = sample_config None \/ config = sample_config (Some deny_all) ->
  manager_wf (channels_ (sample_session config)).
Proof.
  intros Hc. replace (channels_ (sample_session config))
    with (SessionChannels.new_manager SessionChannels.default_budget default_limits).
  - apply new_manager_wf; [vm_compute; reflexivity |].
    unfold budget_typed. vm_compute. repeat split; discriminate.
  - destruct Hc as [-> | ->]; vm_compute; reflexivity.
Qed.

Lemma pump_returns_witness :
  exists s', @pump Mailbox unit mailbox_env (sample_session (sample_config None)) = Some (tt, s') /\
    manager_wf (channels_ s') /\ pump_stopped s'.
Proof. apply pump_returns; [vm_compute; reflexivity | apply sample_manager_wf; by left]. Defined.

Lemma refused_calls_change_nothing_witness :
  let s := sample_session (sample_config None) in
  send_ping 5 s = Some (failure (session_error ErrorCode.permission "control_ping_not_available"), s).
Proof.
  intros s. apply (refused_calls_change_nothing s). vm_compute. reflexivity.
Defined.

Lemma unreadable_pairing_request_witness :
  let s := sample_session (sample_config None) in
  exists s', @handle_pairing_request Mailbox unit mailbox_env (mkFrame 16 0 0 (repeat 1 16) []) s = Some (tt, s') /\
    state (diagnostics_ s') = PeerSessionState.closed.
Proof.
  intros s.
  destruct (unreadable_pairing_request s (mkFrame 16 0 0 (repeat 1 16) [])
              match parse_pairing_request [] with failure e => e | success _ => default_error end) as (s' & Hs & Hr).
  - vm_compute. reflexivity.
  - vm_compute. reflexivity.
  - exists s'. split; [exact Hs |]. assert (Ha : authenticated s = false) by (vm_compute; reflexivity).
    rewrite Ha in Hr. exact (proj1 Hr).
Defined.

Lemma business_violation_confined_witness :
  let s := sample_session (sample_config None) in
  exists s', @handle_message Mailbox unit mailbox_env idle_handlers toy_sodium 2 [9; 9] s = Some (tt, s') /\
    business_violations_ s' = 1.
Proof.
  intros s. destruct (@business_violation_confined Mailbox unit mailbox_env idle_handlers toy_sodium s 2 [9; 9]) as (s' & Hs & _ & _ & Hv & _).
  - vm_compute. reflexivity.
  - vm_compute. discriminate.
  - intros frame. vm_compute. discriminate.
  - exists s'. split; [exact Hs | exact Hv].
Defined.

Lemma pairing_channel_undefined_witness :
  @adopt_physical_channel Mailbox unit mailbox_env ChannelKind.pairing 3 (sample_session (sample_config None)) = None.
Proof.
  apply (pairing_channel_undefined (sample_session (sample_config None)));
    [vm_compute; reflexivity | apply sample_manager_wf; by left | reflexivity].
Defined.

(** A session whose timeline says authenticated. *)
Definition settled_session : PeerSession Mailbox unit :=
  {| (sample_session (sample_config None)) with timeline_ :=
       Some (Operation.mkTimeline 8 ConnectionStage.authenticated []) |}.

Lemma repeated_hello_ends_session_witness :
  exists s', @handle_hello Mailbox unit mailbox_env toy_sodium 1
      (mkFrame 1 0 0 (repeat 1 16) signed_bytes) settled_session = Some (tt, s') /\
    state (diagnostics_ s') = PeerSessionState.closed.
Proof.
  destruct (@repeated_hello_ends_session Mailbox unit mailbox_env toy_sodium settled_session 1
    (mkFrame 1 0 0 (repeat 1 16) signed_bytes) (Operation.mkTimeline 8 ConnectionStage.authenticated []))
    as (s' & Hs & _ & Hst & _).
  - vm_compute. reflexivity.
  - reflexivity.
  - vm_compute. reflexivity.
  - reflexivity.
  - exists s'. split; [exact Hs | exact Hst].
Defined.
