(* ===== verification/PeerSessionHandshake.v ===== *)
(** * Two sessions authenticate each other

    The composition of [PeerSession] with everything below it: over a transport
    that delivers what it is given, the hello one session signs, encodes, queues
    and sends is the hello the other one receives, parses, verifies and admits,
    and both sessions end up authorized with the same capabilities. The transport
    is the class [ReliableTransport]; a mailbox is an instance of it. *)

From Stdlib Require Import ZArith Lia ZifyBool String.
From stdpp Require Import base tactics option list gmap sets strings numbers.
From S2P Require Import Prelude Errors Limits Varint Wire FrameStream Identifiers ProtoCodec FieldCodec.
From S2P Require Import Protocol Security Operation Identity Signing TrustGrant SessionHello SignalingProtocol Clock.
From S2P Require Import SessionChannels ChannelScheduling PairingProtocol PeerSession PeerSessionRuns.
Import Wire Identifiers ProtoCodec Protocol Security Identity Signing SessionHello PairingProtocol PeerSession.
#[local] Open Scope Z_scope.
#[local] Open Scope session_scope.

(** ** One frame through an idle manager *)

Section idle.
Import SessionChannels.

(** Nothing is queued and nothing is charged. *)
Record idle_manager (m : Manager) : Prop := {
  idle_wf : manager_wf m;
  idle_empty : entries m = [];
  idle_frames : control_queued_frames_ m = 0;
  idle_bytes : control_queued_bytes_ m = 0;
}.

Lemma new_manager_idle config limits :
  validate_channel_budget_config config = success tt -> budget_typed config -> idle_manager (new_manager config limits).
Proof. intros Hv Ht. split; [by apply new_manager_wf | done ..]. Qed.

Lemma idle_queue m k : idle_manager m -> class_get k (class_queues_ m) = [].
Proof.
  intros [_ He _ _]. assert (Hf : Forall (fun _ => False) (entries m)) by (by rewrite He).
  eapply Forall_entries with (k := k) in Hf. by destruct (class_get k (class_queues_ m)); [| inversion Hf].
Qed.

Lemma idle_send m f size :
  idle_manager m -> frame_wire_size f (limits_ m) = Some size -> size <= control_reserved_bytes (config_ m) ->
  exists r m1 m2, SessionChannels.enqueue m 0 FrameClass.control f = Some (success r, m1) /\
    entries m1 = [mkQueued 0 FrameClass.control f] /\
    next_to_send m1 = Some (Some (mkQueued 0 FrameClass.control f), m2) /\
    idle_manager m2 /\ limits_ m2 = limits_ m /\ config_ m2 = config_ m.
Proof.
  intros Hidle Hsize Hfit. pose proof Hidle as [Hwf He Hf Hb].
  set (e := mkQueued 0 FrameClass.control f).
  assert (Hres : 1 <= control_reserved_frames (config_ m)).
  { assert (Hc := wf_config m Hwf). assert (Hq := wf_control_frames m Hwf).
    unfold validate_channel_budget_config in Hc. inv_result Hc. lia. }
  assert (Hpos := frame_wire_size_some _ _ _ Hsize).
  destruct (enqueue_control_wf m 0 f Hwf ltac:(eauto)) as (r & m1 & Henq & Hwf1).
  assert (Hq : enqueue_control m 0 FrameClass.control f =
    Some (success (mkReceipt true false 0),
      set_queues (set_control m 1 size) (class_set FrameClass.control [e] (class_queues_ m)))).
  { unfold enqueue_control. rewrite Hsize, Hf, Hb.
    rewrite (proj2 (Z.ltb_ge _ _)) by (rewrite u64_small; lia).
    rewrite (proj2 (Z.ltb_ge _ _)) by (rewrite u64_small; lia).
    change (class_queues_ (set_control m _ _)) with (class_queues_ m). rewrite (idle_queue m) by done.
    rewrite !u64_small by lia. done. }
  rewrite Hq in Henq. injection Henq as <- <-.
  set (m1 := set_queues _ _) in *.
  assert (He1 : entries m1 = [e]).
  { unfold m1, all_entries. cbn. pose proof (idle_queue m FrameClass.interactive Hidle) as H1.
    pose proof (idle_queue m FrameClass.standard Hidle) as H2. pose proof (idle_queue m FrameClass.bulk Hidle) as H3.
    cbn in H1, H2, H3. by rewrite H1, H2, H3. }
  destruct (next_to_send_fuel_spec 2 m1 Hwf1 ltac:(lia))
    as [[_ Hn] | (m0 & ks1 & k & ks2 & e' & q & m2 & Hsv & _ & _ & Hn & Hs)]; [by rewrite He1 in Hn |].
  assert (Hm0 : entries m0 = [e] /\ limits_ m0 = limits_ m /\ config_ m0 = config_ m /\
                control_queued_frames_ m0 = 1 /\ control_queued_bytes_ m0 = size).
  { destruct Hsv as [-> | [-> _]]; done. }
  destruct Hm0 as (He0 & Hl0 & Hc0 & Hf0 & Hb0).
  assert (Hwf2 := released_wf _ _ _ _ _ (served_wf _ _ Hwf1 Hsv) Hs). destruct Hs as [Hq0 _ (Rc & Rl & Rq & _ & Rx)].
  assert (Hperm := entries_pop _ _ _ _ Hq0). rewrite He0 in Hperm. apply Permutation_singleton_l in Hperm.
  injection Hperm as <- Hq2. cbn in Rc, Rl, Rq, Rx. destruct Rx as (_ & _ & _ & Rf & Rb).
  exists (mkReceipt true false 0), m1, m2. split; [unfold SessionChannels.enqueue; by rewrite bool_decide_true |].
  split; [exact He1 |]. split; [exact Hn |]. split; [| by rewrite Rl, Rc].
  assert (Hsz : size_of (limits_ m0) e = size) by (unfold size_of; cbn; by rewrite Hl0, Hsize).
  split; [done | by rewrite Rq | lia |]. rewrite Rb. cbn. rewrite Hb0, Hsz. lia.
Qed.

End idle.

(** ** A transport that delivers *)

(** [sent] is what was given to the transport, oldest first. *)
Class ReliableTransport (E : Type) `{!SessionEnv E} : Type := {
  sent : E -> list (Z * list Z);
  send_reliable e c b : exists e', channel_send e c b = (success tt, e') /\ sent e' = sent e ++ [(c, b)] /\
    forall c', channel_kind e' c' = channel_kind e c';
  random_reliable e n : (0 < n)%nat -> exists id e', random_nonzero e n = (id, e') /\ sized (Z.of_nat n) id /\
    all_zero id = false /\ sent e' = sent e /\ forall c', channel_kind e' c' = channel_kind e c';
  open_reliable e k o : sent (async_open_channel e k o) = sent e /\
    forall c', channel_kind (async_open_channel e k o) c' = channel_kind e c';
}.

(** The environment after one more send. *)
Definition delivered {E} `{ReliableTransport E} (e e' : E) (out : list (Z * list Z)) : Prop :=
  sent e' = sent e ++ out /\ forall c, channel_kind e' c = channel_kind e c.

Section handshake.
Context {E H : Type} `{!SessionEnv E} `{!ReliableTransport E} `{!Handlers E H} `{Sodium}.

(** The manager of the session has nothing to do and its limits are those of
    the session. *)
Record at_rest (s : PeerSession E H) : Prop := {
  rest_idle : idle_manager (channels_ s);
  rest_limits : SessionChannels.limits_ (channels_ s) = session_limits (config_ s);
  rest_budget : SessionChannels.config_ (channels_ s) = channel_budgets (config_ s);
  rest_control : 4096 <= SessionChannels.control_reserved_bytes (channel_budgets (config_ s));
  rest_valid : validate_limits (session_limits (config_ s)) = success tt;
  rest_frame : 4096 <= max_control_frame_bytes (session_limits (config_ s));
}.

(** A control payload of at most 4000 bytes. *)
Definition modest (limits : Limits) (type : FrameType) (payload : list Z) : Prop :=
  bytes_ok payload /\ zlen payload <= 4000 /\ is_control_type (frame_type_value type) = true /\
  channel_error (frame_type_value type) 0 = None /\
  SessionChannels.is_control_domain_frame_type (frame_type_value type) = true /\
  payload_limit_error (frame_type_value type) (zlen payload) limits = None.

Lemma modest_frame limits type payload id :
  modest limits type payload -> sized 16 id -> frame_ok (mkFrame (frame_type_value type) 0 0 id payload).
Proof.
  intros (Hb & _) [Hid Hl]. repeat split; cbn; try done; destruct type; cbn; lia.
Qed.

Lemma modest_encodes (s : PeerSession E H) type payload id :
  at_rest s -> modest (session_limits (config_ s)) type payload -> sized 16 id -> all_zero id = false ->
  let f := mkFrame (frame_type_value type) 0 0 id payload in
  exists bytes size, encode_frame f (session_limits (config_ s)) = success bytes /\
    SessionChannels.frame_wire_size f (session_limits (config_ s)) = Some size /\
    size <= SessionChannels.control_reserved_bytes (channel_budgets (config_ s)).
Proof.
  intros [_ _ _ Hres Hval Hctl] Hm Hid Hz f. assert (Hok := modest_frame _ type payload id Hm Hid).
  destruct Hm as (Hb & Hlen & Hct & Hch & _ & Hpl). assert (Hbounds := validate_limits_bounds _ Hval).
  assert (Hnn := zlen_nonneg payload). destruct (zlen_frame_body f Hok) as [Hbody Hvs]. fold f in Hok.
  change (varint_size (channel_id f)) with 1 in Hbody. change (Wire.payload f) with payload in Hbody.
  unfold fixed_body_size, message_id_bytes in Hbody.
  destruct (frame_wire_size_defined f (session_limits (config_ s))) as [size Hsize].
  { change (varint_size (channel_id f)) with 1. change (Wire.payload f) with payload.
    unfold fixed_body_size, message_id_bytes, u32_max. lia. }
  eexists _, size. split.
  { apply encode_frame_complete; [done |]. unfold encodable.
    cbn [Wire.flags Wire.message_id Wire.type Wire.channel_id Wire.payload f]. split_and!; try done; lia. }
  split; [done |].
  revert Hsize. unfold SessionChannels.frame_wire_size, FrameStream.encoded_size.
  change (channel_id f) with 0. change (Wire.payload f) with payload. change (varint_size 0) with 1.
  unfold fixed_body_size, message_id_bytes. rewrite u64_small by lia.
  pose proof (varint_size_range (u32 (1 + 1 + 16 + 1 + zlen payload))).
  destruct (_ || _); cbn; [done |]. intros [= <-]. lia.
Qed.

Lemma control_frame_sent (s : PeerSession E H) type payload channel :
  at_rest s -> control_ s = Some channel -> modest (session_limits (config_ s)) type payload ->
  exists id bytes m e,
    sized 16 id /\ all_zero id = false /\
    encode_frame (mkFrame (frame_type_value type) 0 0 id payload) (session_limits (config_ s)) = success bytes /\
    enqueue_control_frame type payload s = Some (success tt, {| s with channels_ := m; env_ := e |}) /\
    at_rest {| s with channels_ := m; env_ := e |} /\ delivered (env_ s) e [(channel, bytes)].
Proof.
  intros Hrest Hc Hm. destruct (random_reliable (env_ s) 16 ltac:(lia)) as (id & e1 & Hr & Hid & Hz & Hs1 & Hk1).
  destruct (modest_encodes s type payload id Hrest Hm Hid Hz) as (bytes & size & Henc & Hsize & Hfit).
  destruct (send_reliable e1 channel bytes) as (e2 & Hsend & Hs2 & Hk2).
  pose proof Hrest as [Hidle Hl Hb _ _ _]. rewrite <- Hl in Hsize. rewrite <- Hb in Hfit.
  destruct (idle_send _ _ _ Hidle Hsize Hfit) as (r & m1 & m2 & Henq & He1 & Hn & Hidle2 & Hl2 & Hb2).
  exists id, bytes, m2, e2. do 3 (split; [done |]). split; [| split].
  - unfold enqueue_control_frame. unfold bind at 1, get at 1. rewrite Hc.
    unfold bind at 1, call at 1. rewrite Hr. unfold bind at 1, get at 1. cbn [config_]. rewrite Henc.
    unfold bind at 1, enqueue at 1, manage_partial at 1. cbn [channels_]. rewrite Henq.
    unfold bind at 1, pump. cbn [channels_]. rewrite He1. cbn [length pump_loop].
    unfold bind at 1, get at 1. cbn [channels_].
    destruct (SessionChannels.has_sendable_frames m1) eqn:Hh; [| apply has_sendable_entries in Hh; by rewrite He1 in Hh].
    cbn [negb]. unfold bind at 1, manage_partial at 1. cbn [channels_]. rewrite Hn.
    unfold route. cbn [SessionChannels.queued_frame SessionChannels.frame_class Wire.type].
    destruct Hm as (_ & _ & _ & _ & Hd & _). rewrite Hd, bool_decide_true by done. cbn [andb].
    unfold bind at 1, get at 1. cbn [control_]. rewrite Hc.
    unfold bind at 1, get at 1. cbn [config_]. rewrite Henc.
    unfold bind at 1, call at 1. cbn [env_]. rewrite Hsend.
    unfold bind at 1, get at 1. cbn [channels_].
    rewrite (proj2 (has_sendable_entries m2)) by (apply Hidle2). done.
  - destruct Hrest. split; cbn; try done; congruence.
  - split; [by rewrite Hs2, Hs1 | intros c; by rewrite Hk2, Hk1].
Qed.

(** *** The timeline *)

Definition timeline_at (stages : list ConnectionStage) (room : Z)
    (t : option Operation.ConnectionAttemptTimeline) : Prop :=
  match t with
  | None => True
  | Some t => Operation.stage_ t ∈ stages /\
              zlen (Operation.transitions_ t) + room <= Operation.timeline_capacity_ t
  end.

Definition before_hello : list ConnectionStage :=
  [ConnectionStage.signaling; ConnectionStage.gathering; ConnectionStage.checking;
   ConnectionStage.transport_connected].

Lemma is_stage_false a b : a <> b -> Operation.is_stage a b = false.
Proof. intros ?. by apply bool_decide_eq_false. Qed.

Lemma record_advances stages room next source reason (s : PeerSession E H) :
  timeline_at stages (room + 1) (timeline_ s) -> 0 <= room ->
  Forall (fun st => Operation.legal_transition st next = true /\ st <> next /\ st <> ConnectionStage.closed) stages ->
  1 <= zlen (bytes_of_string source) <= 64 -> 1 <= zlen (bytes_of_string reason) <= 128 ->
  exists t, record next source reason s = Some (success tt, {| s with timeline_ := t |}) /\
    timeline_at [next] room t.
Proof.
  intros Ht Hroom Hst Hsrc Hrsn. unfold record. destruct (timeline_ s) as [t |] eqn:Et.
  2: { exists None. split; [| done]. rewrite <- Et. by destruct s. }
  destruct Ht as [Hin Hcap]. eapply list.Forall_forall in Hst; [| exact Hin]. destruct Hst as (Hlegal & Hne & Hncl).
  rewrite !is_stage_false by done. cbn [orb]. unfold Operation.transition.
  pose proof (zlen_nonneg (Operation.transitions_ t)).
  destruct (_ || _) eqn:Eg; [lia |]. rewrite Hlegal. cbn [negb].
  rewrite (proj2 (Z.leb_gt _ _)) by lia. eexists. split; [reflexivity |]. split; [by left |].
  cbn. rewrite zlen_app. change (zlen [_]) with 1. lia.
Qed.

Lemma timeline_weaken stages room room' t : room' <= room -> timeline_at stages room t -> timeline_at stages room' t.
Proof. destruct t as [t |]; [| done]. intros ? []. split; [done | lia]. Qed.

(** The stage handling of an inbound hello, and of the opened control channel. *)
Lemma connected_recorded (s : PeerSession E H) stage reason :
  timeline_at before_hello 3 (timeline_ s) -> timeline_stage s = Some stage -> 1 <= zlen (bytes_of_string reason) <= 128 ->
  exists t,
    (if Operation.is_stage stage ConnectionStage.transport_connected then ret (success tt)
     else record ConnectionStage.transport_connected "peer_session" reason) s
    = Some (success tt, {| s with timeline_ := t |}) /\ timeline_at [ConnectionStage.transport_connected] 2 t.
Proof.
  unfold timeline_stage. intros Ht Hs Hr. destruct (timeline_ s) as [t0 |] eqn:Et; [| done]. injection Hs as Hs.
  destruct (decide (stage = ConnectionStage.transport_connected)) as [-> | Hne].
  - exists (timeline_ s). split; [by destruct s |]. rewrite Et. destruct Ht as [_ ?].
    split; [rewrite Hs; by left | lia].
  - rewrite is_stage_false by done.
    apply (record_advances [ConnectionStage.signaling; ConnectionStage.gathering; ConnectionStage.checking] 2);
      [| done | repeat constructor; done | done | done].
    rewrite Et. destruct Ht as [Hin ?]. split; [| lia]. unfold before_hello in Hin. rewrite Hs in *. set_solver.
Qed.

Lemma inbound_recorded (s : PeerSession E H) :
  timeline_at before_hello 3 (timeline_ s) \/ timeline_at [ConnectionStage.authenticating] 1 (timeline_ s) ->
  exists t, record_inbound_hello s = Some (success tt, {| s with timeline_ := t |}) /\
    timeline_at [ConnectionStage.authenticating] 1 t.
Proof.
  intros Ht. unfold record_inbound_hello. unfold bind at 1, get at 1.
  assert (Hself : forall r, ret (E := E) (H := H) (A := Result unit) r s = Some (r, {| s with timeline_ := timeline_ s |}))
    by (intros r; by destruct s).
  destruct (timeline_stage s) as [stage |] eqn:Hs.
  2: { exists (timeline_ s). split; [apply Hself |]. unfold timeline_stage in Hs. by destruct (timeline_ s). }
  destruct (decide (stage = ConnectionStage.authenticating)) as [-> | Hne].
  - exists (timeline_ s). split; [apply Hself |]. destruct Ht as [Ht | Ht]; [| done].
    unfold timeline_stage in Hs. destruct (timeline_ s) as [t |]; [| done]. injection Hs as Hs.
    destruct Ht as [Hin _]. rewrite Hs in Hin. unfold before_hello in Hin. set_solver.
  - rewrite is_stage_false by done. destruct Ht as [Ht | Ht].
    2: { unfold timeline_stage in Hs. destruct (timeline_ s) as [t |]; [| done]. injection Hs as Hs.
         destruct Ht as [Hin _]. rewrite Hs in Hin. set_solver. }
    destruct (connected_recorded s stage "inbound_control_channel_ready" Ht Hs ltac:(vm_compute; split; discriminate))
      as (t1 & Hr1 & Ht1).
    unfold bind at 1. rewrite Hr1.
    destruct (record_advances [ConnectionStage.transport_connected] 1 ConnectionStage.authenticating
      "peer_session" "session_hello_received" {| s with timeline_ := t1 |}) as (t2 & Hr2 & Ht2);
      [done | done | repeat constructor; done | vm_compute; split; discriminate | vm_compute; split; discriminate |].
    exists t2. split; [exact Hr2 | done].
Qed.

(** *** Hellos *)

Lemma hello_modest limits h b :
  hello_typed h -> encode_signed_session_hello h = success b -> modest limits session_hello b.
Proof.
  intros Ht (_ & -> & _)%encode_hello_layout. assert (Hs := hello_proto_fields_small h Ht).
  split; [apply encode_fields_bytes_ok; by apply hello_proto_fields_ok |].
  split; [| by repeat split].
  assert (Hb : Forall (fun f => zlen (encode_field f) <= 300) (hello_proto_fields h))
    by (eapply list.Forall_impl; [exact Hs |]; by intros f []).
  apply encode_fields_bound in Hb. change (zlen (hello_proto_fields h)) with 11 in Hb. lia.
Qed.

(** The owner trusts the peer, with these scopes. *)
Definition trusts (config : PeerSessionConfig E) (scopes : list (list Z)) : Prop :=
  match trust_authorizer config with
  | None => scopes = []
  | Some authorizer => forall e now, exists p e',
      authorizer e now = (success (mkAuthorization true scopes p), e') /\ delivered e e' []
  end.

Lemma delivered_nil (e : E) : delivered e e [].
Proof. split; [by rewrite app_nil_r | done]. Qed.

Lemma delivered_trans (e e1 e2 : E) out out' :
  delivered e e1 out -> delivered e1 e2 out' -> delivered e e2 (out ++ out').
Proof. intros [H1 H2] [H3 H4]. split; [by rewrite H3, H1, app_assoc | intros c; by rewrite H4, H2]. Qed.

(** The authorized session. *)
Definition authorized (s : PeerSession E H) (scopes : list (list Z)) t e : PeerSession E H :=
  {| s with timeline_ := t; restricted_since_ := None; env_ := e;
     diagnostics_ := {| (diagnostics_ s) with state := PeerSessionState.authenticated;
       authorized_scopes := scopes; restricted := false; basic_communication := false; policy_scopes := [] |} |}.

Lemma upgraded (s : PeerSession E H) scopes reason :
  timeline_at [ConnectionStage.authenticating] 1 (timeline_ s) -> 1 <= zlen (bytes_of_string reason) <= 128 ->
  exists t, upgrade_to_authorized scopes reason s = Some (tt, authorized s scopes t (env_ s)).
Proof.
  intros Ht Hr. unfold upgrade_to_authorized. unfold bind at 1, diagnose at 1, modify at 1.
  unfold bind at 1, modify at 1. unfold bind at 1.
  match goal with |- context [record _ _ _ ?s1] =>
    destruct (record_advances [ConnectionStage.authenticating] 0 ConnectionStage.authenticated "peer_session" reason s1)
      as (t & -> & _); [done | done | repeat constructor; done | vm_compute; split; discriminate | done |] end.
  exists t. done.
Qed.

Lemma adjudicated (s : PeerSession E H) scopes :
  trusts (config_ s) scopes -> timeline_at [ConnectionStage.authenticating] 1 (timeline_ s) ->
  exists t e, adjudicate s = Some (tt, authorized s scopes t e) /\ delivered (env_ s) e [].
Proof.
  intros Hs Ht. unfold adjudicate, trusts in *. unfold bind at 1, get at 1.
  destruct (trust_authorizer (config_ s)) as [authorizer |].
  - destruct (Hs (env_ s) (wall_clock_now s)) as (p & e & Ha & Hd).
    unfold bind at 1, get at 1. unfold bind at 1, call at 1. rewrite Ha. cbn [trusted auth_scopes].
    destruct (upgraded {| s with env_ := e |} scopes "session_authorized") as [t Hu]; [done | vm_compute; split; discriminate |].
    exists t, e. rewrite Hu. done.
  - subst scopes. destruct (upgraded s [] "session_hello_verified") as [t Hu]; [done | vm_compute; split; discriminate |].
    exists t, (env_ s). split; [exact Hu | apply delivered_nil].
Qed.

(** A frame one session sends is the frame the other one handles. *)
Lemma frame_handled (s : PeerSession E H) type payload id bytes limits channel :
  at_rest s -> modest (session_limits (config_ s)) type payload -> sized 16 id -> all_zero id = false ->
  encode_frame (mkFrame (frame_type_value type) 0 0 id payload) limits = success bytes ->
  channel_kind (env_ s) channel = ChannelKind.control ->
  handle_message channel bytes s = handle_control_frame channel (mkFrame (frame_type_value type) 0 0 id payload) s.
Proof.
  intros Hrest Hm Hid Hz Henc Hk. set (f := mkFrame _ _ _ _ _) in *.
  assert (Hok : frame_ok f) by (by eapply modest_frame).
  destruct (modest_encodes s type payload id Hrest Hm Hid Hz) as (bytes' & size & Henc' & _). fold f in Henc'.
  assert (bytes' = bytes) as ->.
  { apply encode_frame_layout in Henc as [_ ->]; [| done]. by apply encode_frame_layout in Henc' as [_ ->]. }
  assert (Hp := parse_encode_frame f _ _ [] Hok ltac:(constructor) Henc'). rewrite app_nil_r in Hp.
  unfold handle_message. unfold bind at 1, get at 1. unfold bind at 1, get at 1.
  rewrite Hp. cbn [Wire.status Wire.frame consumed]. rewrite Z.eqb_refl, Hk, bool_decide_true by done. done.
Qed.

Lemma hello_sent (s : PeerSession E H) channel p :
  at_rest s -> control_ s = Some channel -> hello_typed (local_hello (config_ s)) ->
  encode_signed_session_hello (local_hello (config_ s)) = success p ->
  exists id bytes m e,
    sized 16 id /\ all_zero id = false /\
    encode_frame (mkFrame (frame_type_value session_hello) 0 0 id p) (session_limits (config_ s)) = success bytes /\
    send_hello s = Some (success tt, {| s with channels_ := m; env_ := e; diagnostics_ :=
      {| (diagnostics_ s) with hellos_sent := bump (hellos_sent (diagnostics_ s)) |} |}) /\
    at_rest {| s with channels_ := m; env_ := e |} /\ delivered (env_ s) e [(channel, bytes)].
Proof.
  intros Hrest Hc Ht Hp.
  destruct (control_frame_sent s session_hello p channel Hrest Hc (hello_modest _ _ _ Ht Hp))
    as (id & bytes & m & e & Hid & Hz & Henc & Hq & Hr & Hd).
  exists id, bytes, m, e. do 3 (split; [done |]). split; [| done].
  unfold send_hello. unfold bind at 1, get at 1. rewrite Hp. unfold bind at 1. rewrite Hq. done.
Qed.

(** The hello of the peer, as the session expects it. *)
Record expected_hello (s : PeerSession E H) (i : IdentityKeyPair) (h h' : SignedSessionHello) (p : list Z)
    (n : NegotiatedProtocol) : Prop := {
  hello_has_types : hello_typed h;
  hello_signer : identity_ok i;
  hello_signed : sign_signed_session_hello h i = success h';
  hello_encoded : encode_signed_session_hello h' = success p;
  hello_first : accepted_payload_ (admission_ s) = None;
  hello_key : sender_public_key_ (admission_ s) = public_key_ i;
  hello_bound : bound_to h (expectation_ (admission_ s));
  hello_epoch : session_epoch h = expected_epoch (expectation_ (admission_ s));
  hello_fresh : validate_signed_expiry (hello_expires h) (now_unix_milliseconds (config_ s)) = success tt;
  hello_common : negotiate_protocol (local_protocol_ (admission_ s)) (hello_protocol h) = success n;
}.

End handshake.

Section exchange.
Context {E H : Type} `{!SessionEnv E} `{!ReliableTransport E} `{!Handlers E H} `{SodiumLaws}.

Lemma hello_received (s : PeerSession E H) channel id i h h' p n scopes local :
  expected_hello s i h h' p n -> at_rest s -> trusts (config_ s) scopes ->
  timeline_at before_hello 3 (timeline_ s) \/ timeline_at [ConnectionStage.authenticating] 1 (timeline_ s) ->
  hello_typed (local_hello (config_ s)) -> encode_signed_session_hello (local_hello (config_ s)) = success local ->
  exists s', handle_control_frame channel (mkFrame (frame_type_value session_hello) 0 0 id p) s = Some (tt, s') /\
    authenticated s' = true /\ authorized_scopes (diagnostics_ s') = scopes /\
    negotiated_capabilities (diagnostics_ s') = capabilities n /\
    if hellos_sent (diagnostics_ s) =? 0 then
      exists id' bytes, sized 16 id' /\ all_zero id' = false /\
        encode_frame (mkFrame (frame_type_value session_hello) 0 0 id' local) (session_limits (config_ s)) = success bytes /\
        delivered (env_ s) (env_ s') [(channel, bytes)]
    else delivered (env_ s) (env_ s') [].
Proof.
  intros Hh Hrest Htrust Ht Htyped Hlocal.
  change (handle_control_frame channel (mkFrame (frame_type_value session_hello) 0 0 id p) s)
    with (handle_hello channel (mkFrame (frame_type_value session_hello) 0 0 id p) s).
  rewrite handle_hello_eq. unfold bind at 1, modify at 1. set (s1 := {| s with control_ := _; physical_channels_ := _ |}).
  destruct (inbound_recorded s1 Ht) as (t & Hrec & Ht1). unfold bind at 1. rewrite Hrec. cbn [or_fail].
  unfold admit_peer. unfold bind at 1. cbn [admission_ payload config_ s1].
  destruct Hh as [Hty Hi Hsg Hen Hacc Hkey Hbd Hep Hx Hneg].
  assert (Hadm := honest_hello_admitted (admission_ s) i h h' p (now_unix_milliseconds (config_ s)) 0 n
                    Hty Hi Hsg Hen Hacc Hkey Hbd Hep Hx Hneg).
  destruct (admit_hello _ _ _) as [r a']. destruct Hadm as [-> _]. cbn [or_fail].
  match goal with |- context [bind _ _ ?s0] => set (s3 := s0) end.
  unfold bind at 1, diagnose at 1, modify at 1. cbn [SessionHello.action outcome_protocol].
  match goal with |- context [bind _ _ ?s0] => set (s4 := s0) end.
  unfold bind at 1, diagnose at 1, modify at 1. match goal with |- context [bind _ _ ?s0] => set (s5 := s0) end.
  unfold bind at 1, get at 1.
  change (hellos_sent (diagnostics_ s5)) with (hellos_sent (diagnostics_ s)).
  destruct (hellos_sent (diagnostics_ s) =? 0).
  - assert (Hrest5 : at_rest s5) by (by destruct Hrest).
    destruct (hello_sent s5 channel local Hrest5 eq_refl Htyped Hlocal)
      as (id' & bytes & m & e & Hid & Hz & Henc & Hsend & _ & Hd).
    unfold bind at 1. rewrite Hsend. cbn [or_fail].
    match goal with |- context [adjudicate ?s0] => destruct (adjudicated s0 scopes) as (t' & e' & Hadj & Hd'); [done | done |] end.
    eexists. split; [exact Hadj |]. do 3 (split; [done |]). exists id', bytes. do 3 (split; [done |]).
    exact (delivered_trans _ _ _ _ _ Hd Hd').
  - unfold bind at 1, ret at 1. cbn [or_fail]. destruct (adjudicated s5 scopes) as (t' & e' & Hadj & Hd'); [done | done |].
    eexists. split; [exact Hadj |]. do 3 (split; [done |]). exact Hd'.
Qed.

Lemma signed_hello_typed h i h' :
  hello_typed h -> identity_ok i -> sign_signed_session_hello h i = success h' -> hello_typed h'.
Proof.
  intros Ht Hi Hs. unfold sign_signed_session_hello in Hs. inv_result Hs.
  destruct (identity_sign_verify _ _ _ Hi E1) as (_ & Hsz).
  destruct Ht as (? & ? & ? & ? & ? & ? & ? & ? & ? & ? & _). unfold hello_typed. cbn. done.
Qed.

(** The configuration of an honest endpoint: its members have their types, its
    limits and budgets leave room for a hello, its timeline fits its capacity. *)
Record usable (config : PeerSessionConfig E) (expires : Z) : Prop := {
  usable_hello : hello_typed (unsigned_hello config expires);
  usable_limits : validate_limits (session_limits config) = success tt;
  usable_frame : 4096 <= max_control_frame_bytes (session_limits config);
  usable_budget : budget_typed (channel_budgets config);
  usable_reserve : 4096 <= SessionChannels.control_reserved_bytes (channel_budgets config);
  usable_timeline : forall t, timeline config = Some t ->
    zlen (Operation.transitions_ t) <= Operation.timeline_capacity_ t < 2 ^ 64;
}.

(** What [create_verified] made. *)
Record created (config : PeerSessionConfig E) (i : IdentityKeyPair) (expires : Z) (env : E) (s : PeerSession E H)
    (local : SignedSessionHello) (payload : list Z) : Prop := {
  created_signed : sign_signed_session_hello (unsigned_hello config expires) i = success local;
  created_encodes : encode_signed_session_hello local = success payload;
  created_typed : hello_typed local;
  created_session : s = new_session {| config with local_hello := local |} env;
  created_timeline : timeline_at before_hello 3 (timeline config);
  created_budget : SessionChannels.validate_channel_budget_config (channel_budgets config) = success tt;
}.

Lemma create_verified_spec config i expires env (s : PeerSession E H) :
  usable config expires -> identity_ok i -> create_verified config (Some i) expires env = success s ->
  exists local payload, created config i expires env s local payload.
Proof.
  intros Hu Hi Hc. unfold create_verified in Hc. apply result_bind_success in Hc as (local & Hsign & Hc).
  pose proof Hc as Hs%create_inv. unfold create in Hc. inv_result Hc. destruct r, r0, r1.
  assert (Hty := signed_hello_typed _ _ _ (usable_hello _ _ Hu) Hi Hsign).
  exists local, (encode_fields (hello_proto_fields local)). split; try done.
  - rewrite encode_hello_eq. change (local_hello _) with local in E0. rewrite E0. cbn [result_bind].
    assert (Hb : Forall (fun f => zlen (encode_field f) <= 300) (hello_proto_fields local))
      by (eapply list.Forall_impl; [exact (hello_proto_fields_small local Hty) |]; by intros f []).
    apply encode_fields_bound in Hb. change (zlen (hello_proto_fields local)) with 11 in Hb.
    assert (Hfit : (max_session_hello_bytes <? zlen (encode_fields (hello_proto_fields local))) = false)
      by (clear - Hb; unfold max_session_hello_bytes; lia).
    by rewrite Hfit.
  - clear - E1 Hu. cbn [timeline] in E1. unfold timeline_at. destruct (timeline config) as [t |] eqn:Et; [| done].
    assert (Hcap := usable_timeline _ _ Hu t Et). pose proof (zlen_nonneg (Operation.transitions_ t)).
    unfold validate_timeline_for_peer_session in E1. unfold before_hello.
    rewrite u64_small in E1 by lia.
    destruct (Operation.stage_ t); try done; inv_result E1; (split; [set_solver | lia]).
Qed.

Lemma created_rest config i expires env s local payload :
  usable config expires -> created config i expires env s local payload -> at_rest s.
Proof.
  intros Hu [_ _ _ -> _ Hb]. split; cbn; try done; try apply Hu.
  apply new_manager_idle; [done | apply Hu].
Qed.

(** [start], on either side. *)
Lemma session_starts (s : PeerSession E H) :
  started_ s = false -> state (diagnostics_ s) <> PeerSessionState.closed ->
  exists e, start s = Some (success tt, {| s with started_ := true; env_ := e; diagnostics_ :=
      {| (diagnostics_ s) with state := PeerSessionState.authenticating |} |}) /\
    delivered (env_ s) e [].
Proof.
  intros Hs Hst. unfold start. unfold bind at 1, get at 1. rewrite Hs, bool_decide_false by done. cbn [orb].
  unfold bind at 1, modify at 1. unfold bind at 1, diagnose at 1, modify at 1. unfold bind at 1, get at 1.
  cbn [config_]. destruct (initiator (config_ s)); cbn [negb].
  - unfold bind at 1, effect, call. eexists. split; [reflexivity |]. cbn [env_].
    destruct (open_reliable (env_ s) ChannelKind.control (mkOptions ChannelPriority.control (64 * 1024) (64 * 1024)))
      as [Hsame Hkinds]. split; [by rewrite app_nil_r | done].
  - eexists. split; [reflexivity | apply delivered_nil].
Qed.

(** The initiator's hello, once its control channel is open. *)
Lemma opened_sends (s : PeerSession E H) channel p :
  at_rest s -> timeline_at before_hello 3 (timeline_ s) -> hello_typed (local_hello (config_ s)) ->
  encode_signed_session_hello (local_hello (config_ s)) = success p ->
  exists s' id bytes, control_channel_opened (success channel) s = Some (tt, s') /\
    sized 16 id /\ all_zero id = false /\
    encode_frame (mkFrame (frame_type_value session_hello) 0 0 id p) (session_limits (config_ s)) = success bytes /\
    delivered (env_ s) (env_ s') [(channel, bytes)] /\ at_rest s' /\
    config_ s' = config_ s /\ admission_ s' = admission_ s /\
    hellos_sent (diagnostics_ s') = bump (hellos_sent (diagnostics_ s)) /\
    timeline_at [ConnectionStage.authenticating] 1 (timeline_ s').
Proof.
  intros Hrest Ht Hty He. unfold control_channel_opened. cbn [or_fail]. unfold bind at 1, modify at 1.
  set (s2 := {| s with control_ := _; physical_channels_ := _ |}). unfold bind at 1, get at 1.
  assert (Hconn : exists t,
    match timeline_stage s2 with
    | Some stage => if Operation.is_stage stage ConnectionStage.transport_connected then ret (success tt)
                    else record ConnectionStage.transport_connected "peer_session" "control_channel_open"
    | None => ret (success tt)
    end s2 = Some (success tt, {| s2 with timeline_ := t |}) /\ timeline_at [ConnectionStage.transport_connected] 2 t).
  { destruct (timeline_stage s2) as [stage |] eqn:Est.
    - apply (connected_recorded s2 stage); [done | done | vm_compute; split; discriminate].
    - exists (timeline_ s2). split; [reflexivity |]. unfold timeline_stage in Est. by destruct (timeline_ s2). }
  destruct Hconn as (t & Hconn & Ht2). unfold bind at 1. rewrite Hconn. cbn [or_fail]. unfold bind at 1.
  set (s3 := {| s2 with timeline_ := t |}).
  destruct (record_advances [ConnectionStage.transport_connected] 1 ConnectionStage.authenticating
      "peer_session" "session_hello_sent" s3) as (t' & Hr & Ht3);
      [done | done | repeat constructor; done | vm_compute; split; discriminate | vm_compute; split; discriminate |].
  rewrite Hr. cbn [or_fail]. set (s4 := {| s3 with timeline_ := t' |}).
  assert (Hrest4 : at_rest s4) by (by destruct Hrest).
  destruct (hello_sent s4 channel p Hrest4 eq_refl Hty He) as (id & bytes & m & e & Hid & Hz & Henc & Hsend & Hrest5 & Hd).
  unfold bind at 1. rewrite Hsend. cbn [or_fail].
  eexists _, id, bytes. split; [reflexivity |]. do 3 (split; [done |]). split; [exact Hd |].
  split; [by destruct Hrest5 |]. done.
Qed.

(** The two sides of one signaling exchange. *)
Definition mirrored (a b : SessionHelloExpectation) : Prop :=
  expected_sender a = expected_peer b /\ expected_peer a = expected_sender b /\
  expected_session_id a = expected_session_id b /\ expected_epoch a = expected_epoch b /\
  expected_initiator_nonce a = expected_initiator_nonce b /\
  expected_responder_nonce a = expected_responder_nonce b /\ expected_transcript a = expected_transcript b.

(** A hello from the mirrored endpoint is the expected one. *)
Lemma mirrored_hello (ca cb : PeerSessionConfig E) ib xb eb sb local payload (s : PeerSession E H) n :
  mirrored (expectation ca) (expectation cb) -> peer_public_key ca = public_key_ ib -> identity_ok ib ->
  usable cb xb -> created cb ib xb eb sb local payload ->
  admission_ s = config_admission ca -> now_unix_milliseconds (config_ s) = now_unix_milliseconds ca ->
  validate_signed_expiry xb (now_unix_milliseconds ca) = success tt ->
  negotiate_protocol (local_protocol ca) (local_protocol cb) = success n ->
  expected_hello s ib (unsigned_hello cb xb) local payload n.
Proof.
  intros (M1 & M2 & M3 & M4 & M5 & M6 & M7) Hk Hi Hu Hc Ha Hnow Hx Hn. destruct Hc as [Hs He _ _ _ _].
  split; rewrite ?Ha, ?Hnow; try done; cbn. apply Hu.
Qed.

(** One endpoint of the exchange, with the other one's key. *)
Record honest_side (config : PeerSessionConfig E) (i : IdentityKeyPair) (expires : Z) (env : E)
    (scopes : list (list Z)) (channel : Z) : Prop := {
  side_usable : usable config expires;
  side_identity : identity_ok i;
  side_trusts : trusts config scopes;
  side_control : channel_kind env channel = ChannelKind.control;
}.

(** C5. Two honest sessions authenticate each other. Let both be created for the
    same verified signaling exchange, each with the other's key, hellos that are
    still valid and protocols that have a version and the session capability in
    common; let each owner trust the peer, and let the transport deliver. Then
    the initiator's control channel carries exactly one frame, its hello; on
    those bytes the responder answers with exactly one frame and is authorized;
    on that answer the initiator is authorized. Both hold the scopes of their own
    adjudication and the same negotiated capabilities. *)
Theorem sessions_authenticate (ca cb : PeerSessionConfig E) ia ib xa xb ea eb (sa sb : PeerSession E H) n scopes_a scopes_b cha chb :
  honest_side ca ia xa ea scopes_a cha -> honest_side cb ib xb eb scopes_b chb ->
  create_verified ca (Some ia) xa ea = success sa -> create_verified cb (Some ib) xb eb = success sb ->
  initiator ca = true -> initiator cb = false -> mirrored (expectation ca) (expectation cb) ->
  peer_public_key ca = public_key_ ib -> peer_public_key cb = public_key_ ia ->
  validate_signed_expiry xb (now_unix_milliseconds ca) = success tt ->
  validate_signed_expiry xa (now_unix_milliseconds cb) = success tt ->
  negotiate_protocol (local_protocol ca) (local_protocol cb) = success n ->
  exists sa1 sa2 sa3 sb1 sb2 bytes_a bytes_b,
    start sa = Some (success tt, sa1) /\ control_channel_opened (success cha) sa1 = Some (tt, sa2) /\
    sent (env_ sa2) = sent ea ++ [(cha, bytes_a)] /\
    start sb = Some (success tt, sb1) /\ handle_message chb bytes_a sb1 = Some (tt, sb2) /\
    sent (env_ sb2) = sent eb ++ [(chb, bytes_b)] /\
    handle_message cha bytes_b sa2 = Some (tt, sa3) /\
    sent (env_ sa3) = sent (env_ sa2) /\
    (authenticated sb2 = true /\ authorized_scopes (diagnostics_ sb2) = scopes_b /\
     negotiated_capabilities (diagnostics_ sb2) = capabilities n) /\
    (authenticated sa3 = true /\ authorized_scopes (diagnostics_ sa3) = scopes_a /\
     negotiated_capabilities (diagnostics_ sa3) = capabilities n).
Proof.
  intros [Hua Hia Hta Hka] [Hub Hib Htb Hkb] Hca Hcb Hra Hrb Hmir Hpa Hpb Hxb Hxa Hn.
  destruct (create_verified_spec _ _ _ _ _ Hua Hia Hca) as (la & pa & Ca).
  destruct (create_verified_spec _ _ _ _ _ Hub Hib Hcb) as (lb & pb & Cb).
  assert (Ra := created_rest _ _ _ _ _ _ _ Hua Ca). assert (Rb := created_rest _ _ _ _ _ _ _ Hub Cb).
  assert (Ta : started_ sa = false /\ state (diagnostics_ sa) <> PeerSessionState.closed) by (by destruct Ca as [_ _ _ -> _ _]).
  assert (Tb : started_ sb = false /\ state (diagnostics_ sb) <> PeerSessionState.closed) by (by destruct Cb as [_ _ _ -> _ _]).
  destruct (session_starts sa) as (e1 & Hst & Hd0); [apply Ta .. |].
  destruct (session_starts sb) as (e2 & Hstb & Hd0b); [apply Tb .. |].
  match type of Hst with _ = Some (_, ?x) => set (sa1 := x) in Hst end.
  match type of Hstb with _ = Some (_, ?x) => set (sb1 := x) in Hstb end.
  destruct (opened_sends sa1 cha pa)
    as (sa2 & ida & bytes_a & Hop & Hid & Hz & Henc & Hd & Hrest & Hcfg & Hadm & Hsent & Htl).
  { by destruct Ra. }
  1-3: by destruct Ca as [_ ? ? -> ? _].
  assert (Hrb1 : at_rest sb1) by (by destruct Rb).
  assert (Heb : env_ sa = ea /\ env_ sb = eb) by (by destruct Ca as [_ _ _ -> _ _], Cb as [_ _ _ -> _ _]).
  destruct Heb as [Hea Heb]. rewrite Hea in Hd0. rewrite Heb in Hd0b.
  assert (Hd' := delivered_trans _ _ _ [] _ Hd0 Hd). cbn [app] in Hd'. clear Hd. rename Hd' into Hd.
  assert (Hcfga : config_ sa1 = {| ca with local_hello := la |} /\ admission_ sa1 = config_admission ca /\
    hellos_sent (diagnostics_ sa1) = 0) by (by destruct Ca as [_ _ _ -> _ _]).
  destruct Hcfga as (Hcfga & Hadma & Hsenta). rewrite Hcfga in Hcfg, Henc. rewrite Hadma in Hadm. rewrite Hsenta in Hsent.
  assert (Hcfgb : config_ sb1 = {| cb with local_hello := lb |} /\ admission_ sb1 = config_admission cb /\
    hellos_sent (diagnostics_ sb1) = 0 /\ timeline_at before_hello 3 (timeline_ sb1)) by (by destruct Cb as [_ _ _ -> ? _]).
  destruct Hcfgb as (Hcfgb & Hadmb & Hsentb & Htlb). assert (He2 : env_ sb1 = e2) by done. clearbody sa1 sb1.
  assert (Hmir' : mirrored (expectation cb) (expectation ca)) by (unfold mirrored in *; intuition).
  assert (Hya : expected_hello sb1 ia (unsigned_hello ca xa) la pa n).
  { eapply (mirrored_hello cb ca); try done; [by rewrite Hcfgb |]. by rewrite negotiate_protocol_symmetric. }
  assert (Hyb : expected_hello sa2 ib (unsigned_hello cb xb) lb pb n).
  { eapply (mirrored_hello ca cb); try done. by rewrite Hcfg. }
  destruct Ca as [_ Hena Htya _ _ _], Cb as [_ Henb Htyb _ _ _].
  assert (Hma := fun l => hello_modest l _ _ Htya Hena). assert (Hmb := fun l => hello_modest l _ _ Htyb Henb).
  destruct (hello_received sb1 chb ida ia (unsigned_hello ca xa) la pa n scopes_b pb)
    as (sb2 & Hhb & Hab & Hsb & Hnb & Hdb); try done; rewrite ?Hcfgb; try done; [by left |].
  rewrite Hsentb in Hdb. cbn [Z.eqb] in Hdb. destruct Hdb as (idb & bytes_b & Hidb & Hzb & Hencb & Hdb).
  destruct (hello_received sa2 cha idb ib (unsigned_hello cb xb) lb pb n scopes_a pa)
    as (sa3 & Hha & Haa & Hsa & Hna & Hda); try done; rewrite ?Hcfg; try done; [by right |].
  rewrite Hsent in Hda. cbn [Z.eqb] in Hda.
  rewrite He2 in Hdb. apply (delivered_trans _ _ _ _ _ Hd0b) in Hdb.
  exists sa1, sa2, sa3, sb1, sb2, bytes_a, bytes_b. destruct Hd as [Hd1 Hd2], Hdb as [Hdb1 _], Hda as [Hda1 _].
  rewrite app_nil_r in Hda1.
  do 3 (split; [done |]). split; [done |]. split; [| split; [done |]; split; [| done]].
  - rewrite (frame_handled sb1 session_hello pa ida bytes_a (session_limits ca)); [exact Hhb | done .. |].
    rewrite He2. by rewrite (proj2 Hd0b).
  - rewrite (frame_handled sa2 session_hello pb idb bytes_b (session_limits (config_ sb1))); [exact Hha | done .. |].
    by rewrite Hd2.
Qed.
End exchange.

(** ** A failed session comes back *)

Section revival.
Context {E H : Type} `{!SessionEnv E} `{!ReliableTransport E} `{!Handlers E H} `{SodiumLaws}.

(** A closed session is not final. Nothing on the path of a hello asks
    whether the session has failed: a session closed by an error, whose peer's
    hello arrives afterwards, is authorized by it like a session that never
    failed, and keeps the error as its last one. *)
Theorem closed_session_revives (s : PeerSession E H) channel id i h h' p n scopes local :
  state (diagnostics_ s) = PeerSessionState.closed -> timeline_ s = None ->
  expected_hello s i h h' p n -> at_rest s -> trusts (config_ s) scopes ->
  hello_typed (local_hello (config_ s)) -> encode_signed_session_hello (local_hello (config_ s)) = success local ->
  exists s', handle_control_frame channel (mkFrame (frame_type_value session_hello) 0 0 id p) s = Some (tt, s') /\
    authenticated s = false /\ authenticated s' = true.
Proof.
  intros Hst Htl Hh Hr Ht Hty He.
  destruct (hello_received s channel id i h h' p n scopes local Hh Hr Ht) as (s' & Hs & Ha & _); try done.
  { left. by rewrite Htl. }
  exists s'. split; [exact Hs |]. split; [| exact Ha]. unfold authenticated. by rewrite Hst.
Qed.

End revival.

(** ** Witnesses *)

#[export] Instance mailbox_reliable : ReliableTransport Mailbox.
Proof.
  refine {| sent := outbox |}.
  - intros e c b. eexists. split; [reflexivity |]. done.
  - intros e n Hn. exists (repeat 1 n), e. split; [reflexivity |].
    split; [| split; [| done]].
    + split; [| unfold zlen; by rewrite repeat_length]. clear Hn.
      induction n; constructor; [unfold is_byte; lia | done].
    + by destruct n; [lia |].
  - done.
Defined.

(** The two ends of the sample exchange, each trusting the other. *)
Definition trust_all (scopes : list (list Z)) (e : Mailbox) (now : Z) : Result SessionAuthorization * Mailbox :=
  (success (mkAuthorization true scopes false), e).

Definition responder_config : PeerSessionConfig Mailbox := sample_config (Some (trust_all [[1]])).

Definition initiator_config : PeerSessionConfig Mailbox :=
  {| (sample_config (Some (trust_all [[2]]))) with initiator := true;
     expectation := mkExpectation (peer sample_hello) (sender sample_hello) (session_id sample_hello) 2
       (initiator_nonce sample_hello) (responder_nonce sample_hello) (signaling_transcript_sha256 sample_hello);
     peer_public_key := public_key_ sample_responder;
     timeline := Some (Operation.mkTimeline 16 ConnectionStage.signaling []) |}.

Definition made (config : PeerSessionConfig Mailbox) (i : IdentityKeyPair) : PeerSession Mailbox unit :=
  match @create_verified toy_sodium Mailbox unit config (Some i) 100000 no_mail with
  | success s => s
  | failure _ => new_session config no_mail
  end.

Lemma sample_usable config : config = initiator_config \/ config = responder_config -> usable config 100000.
Proof.
  intros Hc. split.
  - destruct Hc as [-> | ->]; unfold hello_typed, key_typed, version_typed, is_u32, is_u64;
      split_and!; try (apply sized_decide; vm_compute; reflexivity); vm_compute; (reflexivity || discriminate).
  - by destruct Hc as [-> | ->].
  - destruct Hc as [-> | ->]; vm_compute; discriminate.
  - destruct Hc as [-> | ->]; unfold budget_typed; vm_compute; repeat split; discriminate.
  - destruct Hc as [-> | ->]; vm_compute; discriminate.
  - destruct Hc as [-> | ->]; intros t; [| done]. intros [= <-]. vm_compute. split; [discriminate | reflexivity].
Qed.

Lemma sample_side config i scopes :
  config = initiator_config \/ config = responder_config -> trusts config scopes ->
  (exists seed, @crypto_sign_seed_keypair toy_sodium seed = Some (public_key_ i, secret_key_ i) /\
    @derive_device_id toy_sodium (public_key_ i) = success (device_id_ i)) ->
  @honest_side Mailbox mailbox_env mailbox_reliable toy_sodium config i 100000 no_mail scopes 1.
Proof. intros Hc Ht Hi. split; [by apply sample_usable | exact Hi | exact Ht | reflexivity]. Qed.

Lemma sessions_authenticate_witness :
  exists sa1 sa2 bytes, @start Mailbox unit mailbox_env (made initiator_config sample_signer) = Some (success tt, sa1) /\
    @control_channel_opened Mailbox unit mailbox_env (success 1) sa1 = Some (tt, sa2) /\
    outbox (env_ sa2) = [(1, bytes)].
Proof.
  destruct (@sessions_authenticate Mailbox unit mailbox_env mailbox_reliable idle_handlers toy_sodium toy_sodium_laws
    initiator_config responder_config sample_signer sample_responder 100000 100000 no_mail no_mail
    (made initiator_config sample_signer) (made responder_config sample_responder)
    (mkNegotiatedProtocol (mkProtocolVersion 1 3) known_capability_bits) [[2]] [[1]] 1 1)
    as (sa1 & sa2 & sa3 & sb1 & sb2 & bytes_a & bytes_b & H1 & H2 & H3 & _).
  - apply sample_side; [by left | | exists (repeat 5 32); split; vm_compute; reflexivity].
    intros e now. exists false, e. split; [done | apply delivered_nil].
  - apply sample_side; [by right | | exists (repeat 6 32); split; vm_compute; reflexivity].
    intros e now. exists false, e. split; [done | apply delivered_nil].
  - vm_compute. reflexivity.
  - vm_compute. reflexivity.
  - reflexivity.
  - reflexivity.
  - repeat split; reflexivity.
  - reflexivity.
  - reflexivity.
  - vm_compute. reflexivity.
  - vm_compute. reflexivity.
  - vm_compute. reflexivity.
  - exists sa1, sa2, bytes_a. split; [exact H1 |]. split; [exact H2 | exact H3].
Defined.

(** The sample responder after a failure. *)
Definition failed_session : PeerSession Mailbox unit :=
  run_op (fail (session_error ErrorCode.protocol "control_frame_invalid")) (sample_session (sample_config None)).

Lemma failed_session_rest : at_rest failed_session.
Proof.
  split; try (vm_compute; (reflexivity || discriminate)).
  change (channels_ failed_session) with (channels_ (sample_session (sample_config None))).
  split; [apply sample_manager_wf; by left | vm_compute; reflexivity ..].
Qed.

Lemma closed_session_revives_witness :
  exists s', @handle_control_frame Mailbox unit mailbox_env idle_handlers toy_sodium 1
      (mkFrame (frame_type_value session_hello) 0 0 (repeat 1 16) signed_bytes) failed_session = Some (tt, s') /\
    authenticated failed_session = false /\ authenticated s' = true.
Proof.
  apply (@closed_session_revives Mailbox unit mailbox_env mailbox_reliable idle_handlers toy_sodium toy_sodium_laws
    failed_session 1 (repeat 1 16) sample_signer sample_hello signed_hello signed_bytes
    (mkNegotiatedProtocol (mkProtocolVersion 1 1) protocol_1_1_capability_bits) []
    match encode_signed_session_hello (local_hello (config_ failed_session)) with success b => b | failure _ => [] end).
  - vm_compute. reflexivity.
  - vm_compute. reflexivity.
  - split; try (vm_compute; reflexivity); [apply sample_hello_typed | | repeat split; vm_compute; reflexivity].
    exists (repeat 5 32). split; vm_compute; reflexivity.
  - apply failed_session_rest.
  - vm_compute. reflexivity.
  - unfold hello_typed, key_typed, version_typed, is_u32, is_u64.
    split_and!; try (apply sized_decide; vm_compute; reflexivity); vm_compute; (reflexivity || discriminate).
  - vm_compute. reflexivity.
Defined.
