(* ===== verification/PeerSessionPairing.v ===== *)
(** * Pairing between two sessions

    The pairing exchange of [PeerSession], end to end over the bytes of the
    control channel: the request an untrusted session submits is the request the
    other one evaluates, and the result it answers with authorizes both. *)

From Stdlib Require Import ZArith Lia ZifyBool String.
From stdpp Require Import base tactics option list gmap sets strings numbers.
From S2P Require Import Prelude Errors Limits Varint Wire FrameStream Identifiers ProtoCodec FieldCodec.
From S2P Require Import Protocol Security Operation Identity Signing TrustGrant SessionHello SignalingProtocol Clock.
From S2P Require Import SessionChannels ChannelScheduling PairingProtocol PeerSession PeerSessionRuns PeerSessionHandshake.
Import Wire Identifiers ProtoCodec Protocol Security Identity Signing SessionHello PairingProtocol PeerSession.
#[local] Open Scope Z_scope.
#[local] Open Scope session_scope.

Section pairing.
Context {E H : Type} `{!SessionEnv E} `{!ReliableTransport E} `{!Handlers E H} `{Sodium}.

(** A session that has verified its peer, does not trust it, and has time left. *)
Record awaiting_pairing (s : PeerSession E H) (channel : Z) : Prop := {
  await_rest : at_rest s;
  await_state : state (diagnostics_ s) = PeerSessionState.pairing_restricted;
  await_control : control_ s = Some channel;
  await_kind : channel_kind (env_ s) channel = ChannelKind.control;
  await_time : enforce_pairing_deadline s = Some (success tt, s);
  await_timeline : timeline_at [ConnectionStage.authenticating] 1 (timeline_ s);
  await_limit : 4000 <= max_pairing_payload_bytes (session_limits (config_ s));
}.

Lemma await_restricted s channel :
  awaiting_pairing s channel -> authenticated s = false /\ pairing_restricted s = true.
Proof. intros Hs. unfold authenticated, pairing_restricted. rewrite (await_state _ _ Hs). done. Qed.

(** The request fits a control frame whatever the nonce. *)
Definition sendable_request (id password : list Z) (scopes : list (list Z)) : Prop :=
  sized 16 id /\ bytes_ok password /\
  forall nonce, sized 32 nonce -> all_zero nonce = false ->
    exists b, encode_pairing_request (mkPairingRequest id nonce password scopes) = success b /\ zlen b <= 4000.

(** The answer that grants [granted nonce] fits as well. *)
Definition sendable_grant (id : list Z) (granted : list Z -> TrustGrant.SignedTrustGrant) : Prop :=
  forall nonce, sized 32 nonce -> grant_typed (granted nonce) /\
    exists b, encode_pairing_result (mkPairingResult id StableStatus.ok (Some (granted nonce))) = success b /\
      zlen b <= 4000.

Lemma pairing_modest limits type b :
  type = pairing_request \/ type = pairing_result -> bytes_ok b -> zlen b <= 4000 ->
  4000 <= max_pairing_payload_bytes limits -> modest limits type b.
Proof.
  intros Ht Hb Hz Hl. assert (Hle : (max_pairing_payload_bytes limits <? zlen b) = false) by lia.
  destruct Ht as [-> | ->]; repeat split; try done; unfold payload_limit_error; cbn; by rewrite Hle.
Qed.

(** The requester's part. *)
Lemma request_submitted (s : PeerSession E H) channel id password scopes :
  awaiting_pairing s channel -> pending_pairing_ s = None ->
  has (negotiated_capabilities (diagnostics_ s)) Capability.pairing = true -> sendable_request id password scopes ->
  exists s' nonce b fid bytes,
    submit_pairing_request id password scopes s = Some (success tt, s') /\
    sized 32 nonce /\ all_zero nonce = false /\
    encode_pairing_request (mkPairingRequest id nonce password scopes) = success b /\ zlen b <= 4000 /\
    sized 16 fid /\ all_zero fid = false /\
    encode_frame (mkFrame (frame_type_value pairing_request) 0 0 fid b) (session_limits (config_ s)) = success bytes /\
    delivered (env_ s) (env_ s') [(channel, bytes)] /\ at_rest s' /\ config_ s' = config_ s /\
    state (diagnostics_ s') = PeerSessionState.pairing_restricted /\ timeline_ s' = timeline_ s /\
    pending_pairing_ s' = Some (id, nonce) /\ pending_pairing_scopes_ s' = scopes.
Proof.
  intros Hs Hp Hcap (Hid & Hpw & Hreq). destruct (await_restricted s channel Hs) as [Ha Hr].
  destruct (random_reliable (env_ s) 32 ltac:(lia)) as (nonce & e1 & Hrand & Hn & Hnz & Hs1 & Hk1).
  destruct (Hreq nonce Hn Hnz) as (b & Hb & Hz).
  set (s1 := {| s with env_ := e1 |}).
  assert (Hrest1 : at_rest s1) by (by destruct (await_rest _ _ Hs)).
  assert (Hm : modest (session_limits (config_ s1)) pairing_request b).
  { apply pairing_modest; [by left | | done | apply Hs]. exact (request_bytes_ok (mkPairingRequest id nonce password scopes) _ (conj Hid (conj Hn Hpw)) Hb). }
  destruct (control_frame_sent s1 pairing_request b channel Hrest1 (await_control _ _ Hs) Hm)
    as (fid & bytes & m & e & Hfid & Hfz & Henc & Hq & Hrest2 & Hd).
  exists {| {| s1 with channels_ := m; env_ := e |} with pending_pairing_ := Some (id, nonce);
            pending_pairing_scopes_ := scopes;
            diagnostics_ := {| (diagnostics_ s) with pairing_requests_sent :=
              bump (pairing_requests_sent (diagnostics_ s)) |} |}, nonce, b, fid, bytes.
  split.
  - unfold submit_pairing_request, may_submit. unfold bind at 1, bind at 1, get at 1. rewrite Ha, Hr. cbn [orb negb].
    unfold bind at 1, get at 1. rewrite Hp. cbn [seen]. unfold bind at 1. rewrite (await_time _ _ Hs).
    unfold bind at 1, get at 1. rewrite Hcap. cbn [negb]. unfold ret at 1.
    unfold bind at 1, call at 1. rewrite Hrand. fold s1. rewrite Hb. unfold bind at 1. rewrite Hq. done.
  - do 7 (split; [done |]). split; [exact (delivered_trans _ _ _ [] _ (conj (eq_trans Hs1 (eq_sym (app_nil_r _))) Hk1) Hd) |].
    split; [by destruct Hrest2 |]. repeat split; try done. apply (await_state _ _ Hs).
Qed.

(** The evaluator grants the request, the sink accepts the grant. *)
Definition grants (config : PeerSessionConfig E) (id password : list Z) (scopes : list (list Z))
    (granted : list Z -> TrustGrant.SignedTrustGrant) : Prop :=
  exists evaluator, pairing_evaluator config = Some evaluator /\
    forall e nonce, exists rid e', evaluator e (mkPairingRequest id nonce password scopes) =
      (success (mkPairingResult rid StableStatus.ok (Some (granted nonce))), e') /\ delivered e e' [].

Definition accepts (config : PeerSessionConfig E) (id : list Z) (scopes : list (list Z))
    (granted : list Z -> TrustGrant.SignedTrustGrant) : Prop :=
  exists sink, pairing_result_sink config = Some sink /\
    forall e nonce, exists e', sink e (mkPairingResult id StableStatus.ok (Some (granted nonce))) id nonce scopes =
      (success tt, e') /\ delivered e e' [].

(** A request the session has not seen, with an attempt left. *)
Definition admissible (s : PeerSession E H) (id : list Z) : Prop :=
  find_terminal id (terminal_results_ (pairing_admission_ s)) = None /\
  attempts_used_ (pairing_admission_ s) < max_pairing_attempts_per_session (PairingProtocol.limits_ (pairing_admission_ s)).

Lemma pairing_admitted (s : PeerSession E H) request :
  admissible s (request_id request) -> validate_pairing_request request = success tt ->
  exists a, admit_pairing request s =
      Some (success (mkAdmissionOutcome PairingAdmissionAction.admitted None), {| s with pairing_admission_ := a |}) /\
    pending_key_ a = Some (request_id request, request_nonce request).
Proof.
  intros [Hf Hl] Hv. unfold admit_pairing, admit_request. rewrite Hv, Hf, (proj2 (Z.leb_gt _ _)) by done.
  eexists. split; [reflexivity |]. done.
Qed.

Lemma pairing_recorded (s : PeerSession E H) result nonce :
  pending_key_ (pairing_admission_ s) = Some (result_request_id result, nonce) ->
  exists a, record_pairing result s = Some (success tt, {| s with pairing_admission_ := a |}).
Proof.
  intros Hk. unfold record_pairing, record_result. rewrite Hk. cbn [fst]. rewrite bytes_eqb_refl. cbn [negb].
  destruct (find_terminal _ _); by eexists.
Qed.

(** The verdict on its way back: recorded, sent, and acted on. *)
Lemma grant_sent (s : PeerSession E H) channel id nonce g rb :
  at_rest s -> control_ s = Some channel -> timeline_at [ConnectionStage.authenticating] 1 (timeline_ s) ->
  4000 <= max_pairing_payload_bytes (session_limits (config_ s)) ->
  pending_key_ (pairing_admission_ s) = Some (id, nonce) -> sized 16 id -> grant_typed g ->
  encode_pairing_result (mkPairingResult id StableStatus.ok (Some g)) = success rb -> zlen rb <= 4000 ->
  exists s' rfid bytes,
    (let* recorded := record_pairing (mkPairingResult id StableStatus.ok (Some g)) in
     or_fail recorded (fun _ =>
     let* sent := send_result (mkPairingResult id StableStatus.ok (Some g)) in
     or_fail sent (fun _ =>
     count_result_sent ;;
     upgrade_to_authorized (TrustGrant.granted_scopes g) "session_authorized"))) s = Some (tt, s') /\
    authenticated s' = true /\ authorized_scopes (diagnostics_ s') = TrustGrant.granted_scopes g /\
    sized 16 rfid /\ all_zero rfid = false /\
    encode_frame (mkFrame (frame_type_value pairing_result) 0 0 rfid rb) (session_limits (config_ s)) = success bytes /\
    delivered (env_ s) (env_ s') [(channel, bytes)].
Proof.
  intros Hrest Hc Ht Hl Hk Hid Hg Hrb Hz. set (result := mkPairingResult id StableStatus.ok (Some g)) in *.
  destruct (pairing_recorded s result nonce Hk) as [a Ha]. unfold bind at 1. rewrite Ha. cbn [or_fail].
  set (s1 := {| s with pairing_admission_ := a |}).
  assert (Hrest1 : at_rest s1) by (by destruct Hrest).
  assert (Hm : modest (session_limits (config_ s1)) pairing_result rb).
  { apply pairing_modest; [by right | | done | done]. eapply (result_bytes_ok result); [| exact Hrb].
    split; [exact Hid |]. by intros g' [= <-]. }
  destruct (control_frame_sent s1 pairing_result rb channel Hrest1 Hc Hm)
    as (rfid & bytes & m & e & Hfid & Hfz & Henc & Hq & _ & Hd).
  unfold bind at 1, send_result at 1. rewrite Hrb, Hq. cbn [or_fail]. set (s2 := {| s1 with channels_ := m; env_ := e |}).
  unfold bind at 1, count_result_sent, diagnose, modify. set (s3 := {| s2 with diagnostics_ := _ |}).
  destruct (upgraded s3 (TrustGrant.granted_scopes g) "session_authorized") as [t Hu]; [exact Ht | vm_compute; split; discriminate |].
  eexists _, rfid, bytes. split; [exact Hu |]. do 5 (split; [done |]). exact Hd.
Qed.

(** The target's part: the request is admitted, granted and answered. *)
Lemma request_answered (s : PeerSession E H) channel id nonce password scopes granted b fid :
  awaiting_pairing s channel -> grants (config_ s) id password scopes granted -> sendable_grant id granted ->
  admissible s id -> sized 16 id -> sized 32 nonce -> bytes_ok password ->
  encode_pairing_request (mkPairingRequest id nonce password scopes) = success b -> zlen b <= 4000 ->
  exists s' rb rfid bytes,
    handle_control_frame channel (mkFrame (frame_type_value pairing_request) 0 0 fid b) s = Some (tt, s') /\
    authenticated s' = true /\ authorized_scopes (diagnostics_ s') = TrustGrant.granted_scopes (granted nonce) /\
    encode_pairing_result (mkPairingResult id StableStatus.ok (Some (granted nonce))) = success rb /\
    sized 16 rfid /\ all_zero rfid = false /\
    encode_frame (mkFrame (frame_type_value pairing_result) 0 0 rfid rb) (session_limits (config_ s)) = success bytes /\
    delivered (env_ s) (env_ s') [(channel, bytes)].
Proof.
  intros Hs (evaluator & Hev & Hgrant) Hsg [Hfresh Hleft] Hid Hn Hpw Hb Hz.
  destruct (await_restricted s channel Hs) as [Ha Hr]. destruct (Hsg nonce Hn) as (Hgt & rb & Hrb & Hrz).
  set (request := mkPairingRequest id nonce password scopes) in *.
  set (result := mkPairingResult id StableStatus.ok (Some (granted nonce))) in *.
  assert (Hparse : parse_pairing_request b = success request).
  { apply parse_encode_request; [exact (conj Hid (conj Hn Hpw)) | done |]. change pairing_payload_ceiling with 8192. lia. }
  assert (Hvalid := proj1 (encode_request_layout _ _ Hb)).
  change (handle_control_frame channel (mkFrame (frame_type_value pairing_request) 0 0 fid b) s)
    with (handle_pairing_request (mkFrame (frame_type_value pairing_request) 0 0 fid b) s).
  unfold handle_pairing_request. unfold bind at 1, get at 1. rewrite Ha, Hr. cbn [orb negb].
  unfold bind at 1, get at 1. rewrite Ha. unfold bind at 1, diagnose at 1, modify at 1.
  match goal with |- context [bind _ _ ?s0] => set (s1 := s0) end. unfold bind at 1, get at 1.
  change (payload (mkFrame _ _ _ _ b)) with b. change (config_ s1) with (config_ s).
  assert (Hl := await_limit _ _ Hs). rewrite (proj2 (Z.ltb_ge _ _)) by lia. rewrite Hparse.
  unfold bind at 1. assert (Htime : enforce_pairing_deadline s1 = Some (success tt, s1)).
  { assert (Ht := await_time _ _ Hs). unfold enforce_pairing_deadline, get in *. injection Ht as Ht.
    change (restricted_since_ s1) with (restricted_since_ s). change (config_ s1) with (config_ s).
    change (wall_clock_now s1) with (wall_clock_now s). by rewrite Ht. }
  rewrite Htime. destruct (pairing_admitted s1 request (conj Hfresh Hleft) Hvalid) as (adm & Hadm & Hkey).
  unfold bind at 1. rewrite Hadm. cbv beta iota. set (s2 := {| s1 with pairing_admission_ := adm |}).
  unfold bind at 1, get at 1. change (config_ s2) with (config_ s). rewrite Hev.
  unfold answer_pairing_request. unfold bind at 1, call at 1. change (env_ s2) with (env_ s).
  destruct (Hgrant (env_ s) nonce) as (rid & e1 & Hans & Hd1). fold request in Hans. rewrite Hans.
  cbn [evaluated_result status grant is_ok negb andb].
  destruct (grant_sent {| s2 with env_ := e1 |} channel id nonce (granted nonce) rb)
    as (s' & rfid & bytes & Hs' & Ha' & Hsc & Hf & Hfz & Henc & Hd); try done; try apply Hs.
  { by destruct (await_rest _ _ Hs). }
  exists s', rb, rfid, bytes. split; [exact Hs' |]. do 6 (split; [done |]). exact (delivered_trans _ _ _ _ _ Hd1 Hd).
Qed.

(** The requester's end of it. *)
Lemma result_accepted (s : PeerSession E H) channel id nonce scopes granted rb fid :
  state (diagnostics_ s) = PeerSessionState.pairing_restricted ->
  pending_pairing_ s = Some (id, nonce) -> pending_pairing_scopes_ s = scopes ->
  timeline_at [ConnectionStage.authenticating] 1 (timeline_ s) -> accepts (config_ s) id scopes granted ->
  sized 16 id -> grant_typed (granted nonce) ->
  encode_pairing_result (mkPairingResult id StableStatus.ok (Some (granted nonce))) = success rb ->
  exists s', handle_control_frame channel (mkFrame (frame_type_value pairing_result) 0 0 fid rb) s = Some (tt, s') /\
    authenticated s' = true /\ authorized_scopes (diagnostics_ s') = TrustGrant.granted_scopes (granted nonce) /\
    pending_pairing_ s' = None /\ delivered (env_ s) (env_ s') [].
Proof.
  intros Hst Hp Hsc Ht (sink & Hsink & Hacc) Hid Hg Hrb.
  set (result := mkPairingResult id StableStatus.ok (Some (granted nonce))) in *.
  assert (Hparse : parse_pairing_result rb = success result).
  { apply parse_encode_result; [| done]. split; [exact Hid |]. by intros g' [= <-]. }
  change (handle_control_frame channel (mkFrame (frame_type_value pairing_result) 0 0 fid rb) s)
    with (handle_pairing_result (mkFrame (frame_type_value pairing_result) 0 0 fid rb) s).
  unfold handle_pairing_result. unfold bind at 1, get at 1. rewrite Hp. unfold bind at 1, get at 1.
  assert (Hv : pairing_restricted s || authenticated s = true) by (unfold pairing_restricted; by rewrite Hst).
  rewrite Hv. cbn [negb]. change (payload (mkFrame _ _ _ _ rb)) with rb. rewrite Hparse. cbn [or_fail].
  change (result_request_id result) with id. rewrite bytes_eqb_refl. cbn [negb].
  unfold bind at 1, diagnose at 1, modify at 1. set (s1 := {| s with diagnostics_ := _ |}). cbv zeta.
  change (is_ok (status result)) with true. change (grant result) with (Some (granted nonce)). cbv iota. unfold bind at 1, get at 1. change (config_ s1) with (config_ s). rewrite Hsink.
  unfold bind at 1, get at 1. change (pending_pairing_scopes_ s1) with (pending_pairing_scopes_ s). rewrite Hsc.
  unfold bind at 1, call at 1. change (env_ s1) with (env_ s). destruct (Hacc (env_ s) nonce) as (e & Hsk & Hd).
  fold result in Hsk. rewrite Hsk. cbn [or_fail].
  unfold bind at 1, modify at 1. match goal with |- context [bind _ _ ?s0] => set (s2 := s0) end.
  unfold bind at 1, get at 1. assert (Ha : authenticated s2 = false) by (unfold authenticated; cbn; by rewrite Hst).
  rewrite Ha.
  destruct (upgraded s2 (TrustGrant.granted_scopes (granted nonce)) "session_authorized") as [t Hu];
    [exact Ht | vm_compute; split; discriminate |].
  eexists. split; [exact Hu |]. do 3 (split; [done |]). exact Hd.
Qed.

(** C8. Pairing authorizes both sides with the same scopes. Two sessions have
    verified each other's identity and are restricted to pairing, with time,
    attempts and limits left; one submits a password. If the other one's
    evaluator grants the request and the requester's sink accepts the grant, then
    exactly one frame goes each way, and on the answer both sessions are
    authorized with the scopes of that one grant. *)
Theorem pairing_authorizes_both (sa sb : PeerSession E H) cha chb id password scopes granted :
  awaiting_pairing sa cha -> awaiting_pairing sb chb -> pending_pairing_ sa = None ->
  has (negotiated_capabilities (diagnostics_ sa)) Capability.pairing = true ->
  sendable_request id password scopes -> sendable_grant id granted -> admissible sb id ->
  grants (config_ sb) id password scopes granted -> accepts (config_ sa) id scopes granted ->
  exists sa1 sa2 sb1 question answer nonce,
    submit_pairing_request id password scopes sa = Some (success tt, sa1) /\
    sent (env_ sa1) = sent (env_ sa) ++ [(cha, question)] /\
    handle_message chb question sb = Some (tt, sb1) /\
    sent (env_ sb1) = sent (env_ sb) ++ [(chb, answer)] /\
    handle_message cha answer sa1 = Some (tt, sa2) /\
    authenticated sb1 = true /\ authorized_scopes (diagnostics_ sb1) = TrustGrant.granted_scopes (granted nonce) /\
    authenticated sa2 = true /\ authorized_scopes (diagnostics_ sa2) = TrustGrant.granted_scopes (granted nonce).
Proof.
  intros Ha Hb Hp Hcap Hreq Hgrt Hadm Hev Hsink.
  destruct (request_submitted sa cha id password scopes Ha Hp Hcap Hreq)
    as (sa1 & nonce & b & fid & question & Hsub & Hn & Hnz & Henc & Hz & Hfid & Hfz & Hfr & Hd & Hrest & Hcfg & Hst & Htl & Hpend & Hpsc).
  destruct Hreq as (Hid & Hpw & _). destruct (Hgrt nonce Hn) as (Hgt & rb' & Hrb' & Hrz).
  destruct (request_answered sb chb id nonce password scopes granted b fid Hb Hev Hgrt Hadm Hid Hn Hpw Henc Hz)
    as (sb1 & rb & rfid & answer & Hans & Hab & Hsb & Hrb & Hrf & Hrfz & Hrfr & Hdb).
  assert (rb' = rb) as -> by congruence.
  destruct (result_accepted sa1 cha id nonce scopes granted rb rfid)
    as (sa2 & Hres & Haa & Hsa & _ & _); try done; [rewrite Htl; apply Ha | by rewrite Hcfg |].
  exists sa1, sa2, sb1, question, answer, nonce. destruct Hd as [Hd1 Hd2], Hdb as [Hdb1 _].
  do 2 (split; [done |]). split; [| split; [done |]; split; [| done]].
  - rewrite (frame_handled sb pairing_request b fid question (session_limits (config_ sa))); try done; try apply Hb.
    apply pairing_modest; [by left | | done | apply Hb].
    exact (request_bytes_ok (mkPairingRequest id nonce password scopes) _ (conj Hid (conj Hn Hpw)) Henc).
  - rewrite (frame_handled sa1 pairing_result rb rfid answer (session_limits (config_ sb))); try done.
    + rewrite Hcfg. apply pairing_modest; [by right | | done | apply Ha].
      eapply (result_bytes_ok (mkPairingResult id StableStatus.ok (Some (granted nonce)))); [| exact Hrb].
      split; [exact Hid |]. by intros g' [= <-].
    + rewrite Hd2. apply Ha.
Qed.

End pairing.

(** ** Witness *)

(** A session of the sample exchange, restricted to pairing. *)
Definition waiting_session (config : PeerSessionConfig Mailbox) : PeerSession Mailbox unit :=
  {| (@new_session Mailbox unit config no_mail) with control_ := Some 1;
     diagnostics_ := {| new_diagnostics with state := PeerSessionState.pairing_restricted;
                        negotiated_capabilities := known_capability_bits |} |}.

Definition granting_config : PeerSessionConfig Mailbox :=
  {| (sample_config None) with pairing_evaluator := Some (fun e request =>
       (success (mkPairingResult (request_id request) StableStatus.ok (Some sample_grant)), e)) |}.

Definition accepting_config : PeerSessionConfig Mailbox :=
  {| (sample_config None) with pairing_result_sink := Some (fun e _ _ _ _ => (success tt, e)) |}.

Lemma waiting_ready config : config = granting_config \/ config = accepting_config ->
  awaiting_pairing (waiting_session config) 1.
Proof.
  intros Hc. split; try (destruct Hc as [-> | ->]; vm_compute; (reflexivity || discriminate)).
  - split; try (destruct Hc as [-> | ->]; vm_compute; (reflexivity || discriminate)).
    replace (channels_ (waiting_session config))
      with (SessionChannels.new_manager SessionChannels.default_budget default_limits) by (by destruct Hc as [-> | ->]).
    apply new_manager_idle; [vm_compute; reflexivity |]. unfold budget_typed. vm_compute. repeat split; discriminate.
Qed.

Definition sample_scopes : list (list Z) := [bytes_of_string "message.send"].

Lemma sample_sendable : sendable_request (repeat 4 16) (repeat 97 12) sample_scopes.
Proof.
  split; [apply sized_decide; vm_compute; reflexivity |].
  split; [apply (sized_decide 12); vm_compute; reflexivity |].
  intros nonce [_ Hl] Hz.
  do 32 (destruct nonce as [| ? nonce]; [discriminate Hl |]). destruct nonce; [| exfalso; unfold zlen in Hl; cbn in Hl; lia].
  unfold encode_pairing_request, validate_pairing_request. cbn [request_nonce request_id]. rewrite Hz.
  eexists. split; [vm_compute; reflexivity |]. vm_compute. discriminate.
Qed.

Lemma pairing_authorizes_both_witness :
  exists sa1 sa2 sb1 question answer,
    @submit_pairing_request Mailbox unit mailbox_env (repeat 4 16) (repeat 97 12) sample_scopes
      (waiting_session accepting_config) = Some (success tt, sa1) /\
    @handle_message Mailbox unit mailbox_env idle_handlers toy_sodium 1 question
      (waiting_session granting_config) = Some (tt, sb1) /\
    @handle_message Mailbox unit mailbox_env idle_handlers toy_sodium 1 answer sa1 = Some (tt, sa2) /\
    authenticated sb1 = true /\ authenticated sa2 = true.
Proof.
  destruct (@pairing_authorizes_both Mailbox unit mailbox_env mailbox_reliable idle_handlers toy_sodium
    (waiting_session accepting_config) (waiting_session granting_config) 1 1 (repeat 4 16) (repeat 97 12)
    sample_scopes (fun _ => sample_grant))
    as (sa1 & sa2 & sb1 & question & answer & nonce & H1 & _ & H2 & _ & H3 & H4 & _ & H5 & _).
  - apply waiting_ready. by right.
  - apply waiting_ready. by left.
  - reflexivity.
  - vm_compute. reflexivity.
  - apply sample_sendable.
  - intros nonce _. split; [apply sample_grant_typed |]. eexists. split; [vm_compute; reflexivity |]. vm_compute. discriminate.
  - split; vm_compute; reflexivity.
  - eexists. split; [reflexivity |]. intros e nonce. eexists _, e. split; [reflexivity | apply delivered_nil].
  - eexists. split; [reflexivity |]. intros e nonce. exists e. split; [reflexivity | apply delivered_nil].
  - exists sa1, sa2, sb1, question, answer. split; [exact H1 |]. split; [exact H2 |]. split; [exact H3 |].
    split; [exact H4 | exact H5].
Defined.
