(* ===== verification/Password.v ===== *)
(** * Passwords

    [include/heyaki/password.hpp] and [src/profile/password.cpp]: the password
    policy, the calibration of the Argon2id parameters and the password
    verifier. The Argon2id functions of libsodium are the class [PasswordHash];
    what the code relies on of them is [PasswordHashLaws].

    The theorems: [count_unicode_scalars] accepts exactly the UTF-8 texts and
    counts their characters, calibration always ends with parameters the policy
    admits, and a verifier accepts the password it was made from. *)

From Stdlib Require Import ZArith Lia ZifyBool String.
From stdpp Require Import base tactics option list numbers strings.
From S2P Require Import Prelude Errors Identity Signing Security.
#[local] Open Scope Z_scope.

(** The functions of libsodium the code calls; [None] is a non-zero return.
    [crypto_pwhash] is represented by the milliseconds one call took. *)
Class PasswordHash : Type := {
  crypto_pwhash : Z -> Z -> option Z;
  crypto_pwhash_str_alg : list Z -> Z -> Z -> option (list Z);
  crypto_pwhash_str_verify : list Z -> list Z -> bool;
  crypto_pwhash_str_needs_rehash : list Z -> Z -> Z -> Z;
}.

Module Password.
Import Identity Signing Security.

Record PasswordHashParameters : Type := mkHashParameters {
  operations : Z;
  memory_bytes : Z;
}.

Record PasswordVerifier : Type := mkVerifier {
  format_version : Z;
  parameters : PasswordHashParameters;
  encoded : list Z;
}.

Definition crypto_pwhash_STRBYTES : Z := 128.

Definition password_error (detail : string) : Error :=
  make_error ErrorCode.configuration "password" detail.

(** The lead byte of a turn: the continuation bytes it asks for and the range of
    the second byte. *)
Definition scalar_lead (first : Z) : option (Z * Z * Z) :=
  if first <=? 0x7f then Some (0, 0x80, 0xbf) else utf8_lead first.

(** The loop of [count_unicode_scalars] over the bytes from [index] on; every
    turn consumes at least one. *)
Fixpoint scalars_loop (fuel : nat) (value : list Z) (scalars : Z) : Result Z :=
  match value with
  | [] => success scalars
  | first :: _ =>
      match fuel with
      | O => failure (password_error "invalid_utf8")
      | S fuel =>
          match scalar_lead first with
          | None => failure (password_error "invalid_utf8")
          | Some (continuation_count, second_minimum, second_maximum) =>
              fail_if zlen value <=? continuation_count with password_error "invalid_utf8";
              let second := byte_at value 1 in
              fail_if negb (continuation_count =? 0)
                      && ((second <? second_minimum) || (second_maximum <? second))
                with password_error "invalid_utf8";
              fail_if negb (continuation_count =? 0)
                      && negb (forallb (fun continuation => (0x80 <=? continuation) && (continuation <=? 0xbf))
                                 (subspan 2 (continuation_count - 1) value))
                with password_error "invalid_utf8";
              scalars_loop fuel (subspan_from (continuation_count + 1) value) (scalars + 1)
          end
      end
  end.

Definition count_unicode_scalars (value : list Z) : Result Z := scalars_loop (length value) value 0.

Definition validate_password (password : list Z) (policy : PasswordSecurityPolicy) : Result unit :=
  fail_if maximum_utf8_bytes policy <? zlen password with password_error "password_too_long";
  let? scalars := count_unicode_scalars password in
  fail_if scalars <? minimum_unicode_scalars policy with password_error "password_too_short";
  success tt.

Definition valid_parameters (p : PasswordHashParameters) (policy : PasswordSecurityPolicy) : bool :=
  let memory_kib := memory_bytes p / 1024 in
  (memory_bytes p mod 1024 =? 0)
  && (argon2_minimum_operations policy <=? operations p)
  && (operations p <=? argon2_maximum_operations policy)
  && (argon2_minimum_memory_kib policy <=? memory_kib)
  && (memory_kib <=? argon2_maximum_memory_kib policy).

Section password.
Context `{Sodium} `{PasswordHash}.

(** The [while (true)] loop of the calibration; [None] when the fuel is spent. *)
Fixpoint calibrate_loop (fuel : nat) (policy : PasswordSecurityPolicy) (p : PasswordHashParameters)
    : option (Result PasswordHashParameters) :=
  match fuel with
  | O => None
  | S fuel =>
      match crypto_pwhash (operations p) (memory_bytes p) with
      | None => Some (failure (make_error ErrorCode.resource_exhausted "password" "argon2_calibration_failed"))
      | Some elapsed =>
          if (argon2_target_milliseconds policy <=? elapsed)
             || (argon2_maximum_operations policy <=? operations p)
          then Some (success p)
          else calibrate_loop fuel policy (mkHashParameters (operations p + 1) (memory_bytes p))
      end
  end.

Definition calibrate_password_parameters (policy : PasswordSecurityPolicy) (fuel : nat)
    : option (Result PasswordHashParameters) :=
  match validate_security_policy default_replay_policy policy with
  | failure e => Some (failure e)
  | success _ =>
      match initialize_crypto with
      | failure e => Some (failure e)
      | success _ =>
          calibrate_loop fuel policy
            (mkHashParameters (argon2_minimum_operations policy) (argon2_minimum_memory_kib policy * 1024))
      end
  end.

Definition validate_password_policy (password : list Z) (policy : PasswordSecurityPolicy) : Result unit :=
  let? _ := validate_security_policy default_replay_policy policy in
  validate_password password policy.

Definition create_password_verifier (password : list Z) (p : PasswordHashParameters)
    (policy : PasswordSecurityPolicy) : Result PasswordVerifier :=
  let? _ := validate_security_policy default_replay_policy policy in
  let? _ := validate_password password policy in
  fail_if negb (valid_parameters p policy) with password_error "invalid_argon2_parameters";
  let? _ := initialize_crypto in
  match crypto_pwhash_str_alg password (operations p) (memory_bytes p) with
  | None => failure (make_error ErrorCode.resource_exhausted "password" "argon2_hash_failed")
  | Some encoded => success (mkVerifier (verifier_format_version policy) p encoded)
  end.

Definition corrupt_verifier : Error :=
  make_error ErrorCode.identity "password" "corrupt_password_verifier".

Definition verify_password (password : list Z) (verifier : PasswordVerifier) : Result bool :=
  let? _ := initialize_crypto in
  fail_if negb (format_version verifier =? 1) || (zlen (encoded verifier) =? 0)
          || (crypto_pwhash_STRBYTES <=? zlen (encoded verifier))
    with corrupt_verifier;
  success (crypto_pwhash_str_verify (encoded verifier) password).

Definition password_verifier_needs_upgrade (verifier : PasswordVerifier)
    (desired : PasswordHashParameters) (desired_format_version : Z) : Result bool :=
  if negb (format_version verifier =? desired_format_version) then success true else
  fail_if (zlen (encoded verifier) =? 0) || (crypto_pwhash_STRBYTES <=? zlen (encoded verifier))
    with corrupt_verifier;
  let result := crypto_pwhash_str_needs_rehash (encoded verifier) (operations desired) (memory_bytes desired) in
  fail_if result <? 0 with corrupt_verifier;
  success (negb (result =? 0)).

End password.

End Password.

Import Identity Signing Security Password.

(** What libsodium documents: the encoded string is not empty, fits
    [crypto_pwhash_STRBYTES] with its terminator, and verifies the password it
    was made from. *)
Class PasswordHashLaws `{PasswordHash} : Prop := {
  str_alg_size password ops mem e :
    crypto_pwhash_str_alg password ops mem = Some e -> 0 < zlen e < crypto_pwhash_STRBYTES;
  str_alg_verify password ops mem e :
    crypto_pwhash_str_alg password ops mem = Some e -> crypto_pwhash_str_verify e password = true;
}.

(** ** UTF-8 *)

Lemma scalars_loop_valid fuel value n m :
  scalars_loop fuel value n = success m -> utf8_loop fuel value = true.
Proof.
  revert value n. induction fuel as [| fuel IH]; intros [| first rest] n H; try done.
  cbn [scalars_loop] in H. cbn [utf8_loop]. unfold scalar_lead in H.
  destruct (first <=? 0x7f).
  { rewrite (proj2 (Z.leb_gt _ 0)) in H by (rewrite zlen_cons; assert (Hz := zlen_nonneg rest); lia).
    exact (IH rest (n + 1) H). }
  destruct (utf8_lead first) as [[[count lo] hi] |] eqn:El; [| done].
  assert (Hc : (count =? 0) = false) by (unfold utf8_lead in El; repeat case_match; simplify_eq; done).
  rewrite Hc in H. destruct (zlen (first :: rest) <=? count); [done |].
  destruct ((byte_at (first :: rest) 1 <? lo) || (hi <? byte_at (first :: rest) 1)); [done |].
  cbn [negb andb] in H. destruct (forallb _ _); [| done]. exact (IH _ _ H).
Qed.

Lemma scalars_loop_encode fuel c rest n :
  is_scalar c -> scalars_loop (S fuel) (utf8_encode c ++ rest) n = scalars_loop fuel rest (n + 1).
Proof.
  intros Hc. assert (Hz := zlen_nonneg rest). unfold utf8_encode, is_scalar in *.
  sextet c. sextet (c / 64). sextet (c / 64 / 64).
  destruct (Z.ltb_spec c 0x80).
  { cbn [app scalars_loop]. unfold scalar_lead. rewrite (proj2 (Z.leb_le c 0x7f)) by lia.
    by rewrite (proj2 (Z.leb_gt _ 0)) by (rewrite zlen_cons; lia). }
  destruct (Z.ltb_spec c 0x800); [| destruct (Z.ltb_spec c 0x10000)]; cbn [app scalars_loop]; unfold scalar_lead, utf8_lead;
    rewrite (proj2 (Z.leb_gt _ 0x7f)) by lia.
  - rewrite (proj2 (andb_true_iff (0xc2 <=? 0xc0 + c / 64) _)) by lia.
    rewrite (proj2 (Z.leb_gt _ 1)) by (rewrite !zlen_cons; lia).
    match goal with |- context [byte_at (?a :: ?b :: ?r) 1] => change (byte_at (a :: b :: r) 1) with b end.
    rewrite (proj2 (orb_false_iff _ _)) by lia. done.
  - rewrite (proj2 (andb_false_iff (0xc2 <=? 0xe0 + c / 64 / 64) _)) by lia.
    rewrite (proj2 (andb_true_iff (0xe0 <=? 0xe0 + c / 64 / 64) _)) by lia.
    rewrite (proj2 (Z.leb_gt _ 2)) by (rewrite !zlen_cons; lia).
    match goal with |- context [byte_at (?a :: ?b :: ?r) 1] => change (byte_at (a :: b :: r) 1) with b end.
    rewrite (proj2 (orb_false_iff _ _)) by (repeat case_match; lia).
    match goal with |- context [subspan 2 (2 - 1) (?a :: ?b :: ?d :: ?r)] => change (subspan 2 (2 - 1) (a :: b :: d :: r)) with [d] end.
    cbn [forallb negb andb Z.eqb]. rewrite (proj2 (andb_true_iff (0x80 <=? 0x80 + c mod 64) _)) by lia. done.
  - rewrite (proj2 (andb_false_iff (0xc2 <=? 0xf0 + c / 64 / 64 / 64) _)) by lia.
    rewrite (proj2 (andb_false_iff (0xe0 <=? 0xf0 + c / 64 / 64 / 64) _)) by lia.
    rewrite (proj2 (andb_true_iff (0xf0 <=? 0xf0 + c / 64 / 64 / 64) _)) by lia.
    rewrite (proj2 (Z.leb_gt _ 3)) by (rewrite !zlen_cons; lia).
    match goal with |- context [byte_at (?a :: ?b :: ?r) 1] => change (byte_at (a :: b :: r) 1) with b end.
    rewrite (proj2 (orb_false_iff _ _)) by (repeat case_match; lia).
    match goal with |- context [subspan 2 (3 - 1) (?a :: ?b :: ?d :: ?e :: ?r)] =>
      change (subspan 2 (3 - 1) (a :: b :: d :: e :: r)) with [d; e] end.
    cbn [forallb negb andb Z.eqb]. rewrite (proj2 (andb_true_iff (0x80 <=? 0x80 + (c / 64) mod 64) _)) by lia.
    rewrite (proj2 (andb_true_iff (0x80 <=? 0x80 + c mod 64) _)) by lia. done.
Qed.

Lemma scalars_loop_text cs fuel n :
  Forall is_scalar cs -> (length (concat (map utf8_encode cs)) <= fuel)%nat ->
  scalars_loop fuel (concat (map utf8_encode cs)) n = success (n + zlen cs).
Proof.
  intros Hcs. revert fuel n. induction Hcs as [| c cs Hc Hcs IH]; intros fuel n Hf.
  { rewrite zlen_nil, Z.add_0_r. by destruct fuel. }
  cbn [map concat] in *. rewrite length_app in Hf. assert (Hp := utf8_encode_pos c).
  destruct fuel as [| fuel]; [lia |]. rewrite scalars_loop_encode by done.
  rewrite IH by lia. rewrite zlen_cons. f_equal. lia.
Qed.

Lemma count_unicode_scalars_spec value n :
  bytes_ok value ->
  count_unicode_scalars value = success n <->
  exists cs, Forall is_scalar cs /\ value = concat (map utf8_encode cs) /\ n = zlen cs.
Proof.
  intros Hok. unfold count_unicode_scalars. split.
  - intros H. assert (Hv := scalars_loop_valid _ _ _ _ H).
    apply utf8_loop_exact in Hv as (cs & Hcs & ->); [| done | done].
    rewrite scalars_loop_text in H by done. injection H as <-. exists cs. split_and!; [done | done | lia].
  - intros (cs & Hcs & -> & ->). by rewrite scalars_loop_text.
Qed.

(** The password policy is exactly what it says: a password is accepted when
    it is UTF-8 text of at most [maximum_utf8_bytes] bytes and at least
    [minimum_unicode_scalars] characters. *)
Theorem validate_password_exact password policy :
  bytes_ok password ->
  validate_password password policy = success tt <->
  zlen password <= maximum_utf8_bytes policy /\
  exists cs, Forall is_scalar cs /\ password = concat (map utf8_encode cs) /\
    minimum_unicode_scalars policy <= zlen cs.
Proof.
  intros Hok. unfold validate_password. destruct (Z.ltb_spec (maximum_utf8_bytes policy) (zlen password)) as [Hlt | Hle].
  { split; [done | intros [? _]; lia]. }
  destruct (count_unicode_scalars password) as [n | e] eqn:E; cbn [result_bind].
  - apply count_unicode_scalars_spec in E as (cs & Hcs & -> & ->); [| done].
    destruct (Z.ltb_spec (zlen cs) (minimum_unicode_scalars policy)) as [Hs | Hs].
    + split; [done |]. intros (_ & cs' & Hcs' & Heq & Hn).
      assert (H : count_unicode_scalars (concat (map utf8_encode cs)) = success (zlen cs'))
        by (apply count_unicode_scalars_spec; [done | by exists cs']).
      assert (H' : count_unicode_scalars (concat (map utf8_encode cs)) = success (zlen cs))
        by (apply count_unicode_scalars_spec; [done | by exists cs]).
      rewrite H in H'. injection H' as H'. lia.
    + split; [intros _ | done]. split; [done | by exists cs].
  - split; [done |]. intros (_ & cs & Hcs & Heq & _).
    assert (H : count_unicode_scalars password = success (zlen cs))
      by (apply count_unicode_scalars_spec; [done | by exists cs]). congruence.
Qed.

Lemma validate_password_exact_witness :
  let password := [0xc3; 0xa9] ++ bytes_of_string "t3-sesame" in
  validate_password password default_password_policy = success tt /\
  exists cs, Forall is_scalar cs /\ password = concat (map utf8_encode cs) /\ 8 <= zlen cs.
Proof.
  intros password. assert (Hok : bytes_ok password) by (apply bytes_ok_decide; vm_compute; reflexivity).
  assert (Hv : validate_password password default_password_policy = success tt) by (vm_compute; reflexivity).
  split; [exact Hv |]. exact (proj2 (proj1 (validate_password_exact password default_password_policy Hok) Hv)).
Defined.

(** ** Calibration *)

Lemma validate_policy_operations policy :
  validate_security_policy default_replay_policy policy = success tt ->
  2 <= argon2_minimum_operations policy <= argon2_maximum_operations policy /\
  argon2_maximum_operations policy <= 6 /\
  0 < argon2_minimum_memory_kib policy <= argon2_maximum_memory_kib policy.
Proof.
  unfold validate_security_policy. cbn [default_replay_policy ttl_milliseconds capacity per_peer_capacity].
  intros H. split_match_in H. lia.
Qed.

Section calibration.
Context `{Sodium} `{PasswordHash}.

(** How the loop ends: with a failing call, or at the first operation count that
    meets the target or the maximum. *)
Lemma calibrate_loop_ends fuel policy p :
  operations p <= argon2_maximum_operations policy ->
  argon2_maximum_operations policy - operations p < Z.of_nat fuel ->
  exists r, calibrate_loop fuel policy p = Some r /\
    (forall q, r = success q ->
       memory_bytes q = memory_bytes p /\
       operations p <= operations q <= argon2_maximum_operations policy /\
       (operations q = argon2_maximum_operations policy \/
        exists t, crypto_pwhash (operations q) (memory_bytes q) = Some t /\
          argon2_target_milliseconds policy <= t) /\
       (forall n, operations p <= n < operations q -> exists t,
          crypto_pwhash n (memory_bytes q) = Some t /\ t < argon2_target_milliseconds policy)).
Proof.
  revert p. induction fuel as [| fuel IH]; intros p Hp Hf; [lia |]. cbn [calibrate_loop].
  destruct (crypto_pwhash (operations p) (memory_bytes p)) as [t |] eqn:Et; [| by eexists].
  destruct (_ || _) eqn:E.
  - eexists. split; [done |]. intros q [= <-]. split_and!; try done; [| intros n Hn; lia].
    destruct (Z.leb_spec (argon2_target_milliseconds policy) t) as [Hle |]; [right; by exists t | left].
    cbn in E. lia.
  - destruct (IH (mkHashParameters (operations p + 1) (memory_bytes p))) as (r & Hr & Hq); cbn [operations]; [lia | lia |].
    exists r. split; [done |]. intros q ->. destruct (Hq q eq_refl) as (Hm & Ho & Hend & Hlow). cbn in Hm, Ho, Hlow.
    split_and!; try done; try lia. intros n Hn. destruct (Z.eq_dec n (operations p)) as [-> |]; [| apply Hlow; lia].
    exists t. rewrite Hm. split; [done | lia].
Qed.

(** Calibration always terminates, whatever the machine measures: five turns
    are enough for every policy that validates. The parameters it returns are
    admitted by the policy, and are the cheapest ones that reach the target
    time, or the policy's maximum. *)
Theorem calibrate_terminates policy :
  exists r, calibrate_password_parameters policy 5 = Some r /\
    (forall p, r = success p ->
       valid_parameters p policy = true /\
       (operations p = argon2_maximum_operations policy \/
        exists t, crypto_pwhash (operations p) (memory_bytes p) = Some t /\
          argon2_target_milliseconds policy <= t) /\
       (forall n, argon2_minimum_operations policy <= n < operations p -> exists t,
          crypto_pwhash n (memory_bytes p) = Some t /\ t < argon2_target_milliseconds policy)).
Proof.
  unfold calibrate_password_parameters.
  destruct (validate_security_policy default_replay_policy policy) as [[] |] eqn:Ev; [| by eexists].
  destruct initialize_crypto; [| by eexists]. apply validate_policy_operations in Ev as (H1 & H2 & H3).
  destruct (calibrate_loop_ends 5 policy
    (mkHashParameters (argon2_minimum_operations policy) (argon2_minimum_memory_kib policy * 1024)))
    as (r & Hr & Hq); cbn [operations]; [lia | lia |].
  exists r. split; [done |]. intros p ->. destruct (Hq p eq_refl) as (Hm & Ho & Hend & Hlow). cbn in Hm, Ho, Hlow.
  split_and!; [| done | done]. unfold valid_parameters. rewrite Hm, Z.mod_mul, Z.div_mul by lia. lia.
Qed.

(** A verifier accepts the password it was made from. *)
Lemma create_verify_password `{!PasswordHashLaws} password p policy v :
  create_password_verifier password p policy = success v -> verify_password password v = success true.
Proof.
  unfold create_password_verifier, verify_password. intros E.
  apply result_bind_success in E as ([] & Hpol & E). apply result_bind_success in E as ([] & _ & E).
  destruct (negb _); [done |]. destruct initialize_crypto as [[] |]; [| done]. cbn [result_bind] in *.
  destruct (crypto_pwhash_str_alg _ _ _) as [e |] eqn:Ee; [| done]. injection E as <-.
  cbn [format_version encoded]. assert (Hs := str_alg_size _ _ _ _ Ee). rewrite (str_alg_verify _ _ _ _ Ee).
  assert (Hf : verifier_format_version policy = 1).
  { unfold validate_security_policy in Hpol. split_match_in Hpol. lia. }
  by rewrite Hf, (proj2 (orb_false_iff _ _)) by lia.
Qed.

End calibration.

(** ** An instance *)

(** A stand-in for Argon2id that keeps the laws: the encoded string is the
    password behind a marker. *)
#[local] Instance toy_password_hash : PasswordHash := {|
  crypto_pwhash _ _ := Some 600;
  crypto_pwhash_str_alg password _ _ := if zlen password <? 100 then Some (36 :: password) else None;
  crypto_pwhash_str_verify e password := bytes_eqb e (36 :: password);
  crypto_pwhash_str_needs_rehash _ _ _ := 0;
|}.

#[local] Instance toy_password_laws : PasswordHashLaws.
Proof.
  split; cbn; intros password ops mem e; destruct (Z.ltb_spec (zlen password) 100); try done; intros [= <-].
  - rewrite zlen_cons. assert (Hz := zlen_nonneg password). unfold crypto_pwhash_STRBYTES. lia.
  - by apply bytes_eqb_eq.
Qed.
