(* ===== verification/TrustStore.v ===== *)
(** * The trust store

    The part of [src/profile/profile_store.cpp] that pairing and authorization
    rest on: the pairing policy, the password verifier with its generation, and
    the table of trust grants. A table is a map from its primary key to a row;
    each operation is the checks of the code around the effect of its SQL text,
    for a database whose statements run to completion. 64-bit columns are
    signed. [SELECT] without [ORDER BY] returns its rows in any order: the class
    [RowOrder] is that order.

    [ProfileOps] is what the pairing service sees of a profile, and
    [ProfileLaws] what it may rely on; the store is an instance of both. *)

From Stdlib Require Import ZArith Lia ZifyBool String.
From stdpp Require Import base tactics option list numbers strings sorting gmap.
From S2P Require Import Prelude Errors TrustGrant Password.
#[local] Open Scope Z_scope.

(** [enum class TrustGrantDirection]. *)
Module TrustGrantDirection.
Inductive TrustGrantDirection : Type := issued | received.
End TrustGrantDirection.
Abbreviation TrustGrantDirection := TrustGrantDirection.TrustGrantDirection.

#[export] Instance TrustGrantDirection_eq_dec : EqDecision TrustGrantDirection.
Proof. solve_decision. Defined.

Module TrustStore.
Import TrustGrant Password.

Record PairingPolicy : Type := mkPairingPolicy {
  policy_generation : Z;
  password_pairing_enabled : bool;
  require_manual_approval_unknown : bool;
  default_scopes : list (list Z);
}.

Record TrustGrantRecord : Type := mkTrustGrantRecord {
  record_grant_id : list Z;
  direction : TrustGrantDirection;
  record_issuer : list Z;
  record_subject : list Z;
  scopes : list (list Z);
  record_generation : Z;
  record_issued : Z;
  record_expires : option Z;
  record_signature : list Z;
  revoked : bool;
}.

(** [static_cast<sqlite3_int64>] of a 64-bit value, and back. *)
Definition i64 (x : Z) : Z := if u64 x <? 2 ^ 63 then u64 x else u64 x - 2 ^ 64.

(** A row of [trust_grants] with its rows of [trust_grant_scopes], by scope. *)
Record GrantRow : Type := mkGrantRow {
  row_direction : TrustGrantDirection;
  row_issuer : list Z;
  row_subject : list Z;
  row_generation : Z;
  row_issued : Z;
  row_expires : option Z;
  row_signature : list Z;
  row_revoked : bool;
  row_revoked_at : option Z;
  row_scopes : list (list Z);
}.

Record Profile : Type := mkProfile {
  device_id : list Z;
  policy_row : option PairingPolicy;
  verifier_row : option (PasswordVerifier * Z);
  trust_grants : gmap (list Z) GrantRow;
}.

Definition profile_error (code : ErrorCode) (detail : string) : Error :=
  make_error code "profile" detail.

Definition valid_scope (value : list Z) : bool :=
  if (zlen value =? 0) || (256 <? zlen value) then false
  else forallb (fun character => (0x21 <=? character) && (character <=? 0x7e)) value.

Definition with_policy (p : Profile) (policy : PairingPolicy) : Profile :=
  mkProfile (device_id p) (Some policy) (verifier_row p) (trust_grants p).

Definition with_grants (p : Profile) (grants : gmap (list Z) GrantRow) : Profile :=
  mkProfile (device_id p) (policy_row p) (verifier_row p) grants.

Definition validate_pairing_policy (policy : PairingPolicy) : Result unit :=
  fail_if (policy_generation policy =? 0) || (256 <? zlen (default_scopes policy))
          || negb (forallb valid_scope (default_scopes policy))
    with profile_error ErrorCode.configuration "invalid_pairing_policy";
  fail_if has_adjacent_equal (merge_sort scope_le (default_scopes policy))
    with profile_error ErrorCode.configuration "invalid_pairing_policy";
  success tt.

(** What [step_done] reports when a [CHECK] of the schema fails, with the extended
    code of SQLite. *)
Definition constraint_failed : Error :=
  make_error_full ErrorCode.storage "profile" "sqlite_write_failed" (Some 275) None None.

(** [write_pairing_policy] stores the scopes as a set; [read_pairing_policy]
    reads them back in order. The column of the generation has [CHECK(generation > 0)],
    and a failed write is rolled back. *)
Definition set_pairing_policy (p : Profile) (policy : PairingPolicy) : Result unit * Profile :=
  match validate_pairing_policy policy with
  | failure e => (failure e, p)
  | success _ =>
      if negb (0 <? i64 (policy_generation policy)) then (failure constraint_failed, p)
      else (success tt, with_policy p (mkPairingPolicy (i64 (policy_generation policy))
              (password_pairing_enabled policy) (require_manual_approval_unknown policy)
              (merge_sort scope_le (default_scopes policy))))
  end.

Definition pairing_policy (p : Profile) : Result PairingPolicy :=
  match policy_row p with
  | None => failure (profile_error ErrorCode.profile_corrupt "pairing_policy_missing")
  | Some row =>
      let policy := mkPairingPolicy (u64 (policy_generation row)) (password_pairing_enabled row)
                      (require_manual_approval_unknown row) (default_scopes row) in
      match validate_pairing_policy policy with
      | failure _ => failure (profile_error ErrorCode.profile_corrupt "pairing_policy_invalid")
      | success _ => success policy
      end
  end.

(** The bytes of a string that [c_str] shows: those before the first zero byte. *)
Fixpoint c_str (value : list Z) : list Z :=
  match value with
  | [] => []
  | byte :: value => if byte =? 0 then [] else byte :: c_str value
  end.

Definition set_password_verifier (p : Profile) (verifier : PasswordVerifier) (generation : Z)
    : Result unit * Profile :=
  if (generation =? 0) || (zlen (encoded verifier) =? 0)
  then (failure (profile_error ErrorCode.configuration "invalid_password_verifier"), p)
  else (success tt, mkProfile (device_id p) (policy_row p)
          (Some (mkVerifier (format_version verifier)
             (mkHashParameters (i64 (operations (parameters verifier))) (i64 (memory_bytes (parameters verifier))))
             (c_str (encoded verifier)), i64 generation)) (trust_grants p)).

Definition password_verifier (p : Profile) : Result (option PasswordVerifier) :=
  match verifier_row p with
  | None => success None
  | Some (verifier, _) =>
      success (Some (mkVerifier (u16 (format_version verifier))
        (mkHashParameters (u64 (operations (parameters verifier))) (u64 (memory_bytes (parameters verifier))))
        (encoded verifier)))
  end.

Definition password_generation (p : Profile) : Result Z :=
  match verifier_row p with
  | None => success 0
  | Some (_, generation) =>
      fail_if generation <? 0
        with profile_error ErrorCode.profile_corrupt "password_generation_invalid";
      success (u64 generation)
  end.

Definition put_trust_grant (p : Profile) (input : TrustGrantRecord) : Result unit * Profile :=
  if all_zero (record_grant_id input) || all_zero (record_issuer input) || all_zero (record_subject input)
     || (record_generation input =? 0) || (record_issued input =? 0)
     || (zlen (record_signature input) =? 0) || (4096 <? zlen (record_signature input))
     || (zlen (scopes input) =? 0) || (256 <? zlen (scopes input))
  then (failure (profile_error ErrorCode.configuration "invalid_trust_grant"), p)
  else
    let sorted := unique_adjacent (merge_sort scope_le (scopes input)) in
    if negb (forallb valid_scope sorted)
    then (failure (profile_error ErrorCode.configuration "invalid_trust_scope"), p)
    else
      let old := trust_grants p !! record_grant_id input in
      let row := mkGrantRow (direction input) (record_issuer input) (record_subject input)
                   (i64 (record_generation input)) (i64 (record_issued input))
                   (option_map i64 (record_expires input)) (record_signature input) (revoked input)
                   (match old with Some row => row_revoked_at row | None => None end) sorted in
      (success tt, with_grants p (<[record_grant_id input := row]> (trust_grants p))).

(** What the query loops make of a row. *)
Definition row_record (id : list Z) (row : GrantRow) : Result TrustGrantRecord :=
  fail_if zlen (row_signature row) =? 0
    with profile_error ErrorCode.profile_corrupt "trust_signature_invalid";
  fail_if negb (forallb valid_scope (row_scopes row))
    with profile_error ErrorCode.profile_corrupt "trust_scope_invalid";
  success (mkTrustGrantRecord id (row_direction row) (row_issuer row) (row_subject row) (row_scopes row)
             (u64 (row_generation row)) (u64 (row_issued row)) (option_map u64 (row_expires row))
             (row_signature row) (row_revoked row)).

Definition trust_grant (p : Profile) (grant_id : list Z) : Result (option TrustGrantRecord) :=
  match trust_grants p !! grant_id with
  | None => success None
  | Some row => let? record := row_record grant_id row in success (Some record)
  end.

Definition revoke_row (row : GrantRow) (at_time : Z) : GrantRow :=
  mkGrantRow (row_direction row) (row_issuer row) (row_subject row) (row_generation row) (row_issued row)
    (row_expires row) (row_signature row) true (Some (i64 at_time)) (row_scopes row).

Definition revoke_trust_grant (p : Profile) (grant_id : list Z) (revoked_unix_milliseconds : Z)
    : Result unit * Profile :=
  match trust_grants p !! grant_id with
  | None => (failure (profile_error ErrorCode.configuration "trust_grant_not_found"), p)
  | Some row =>
      (success tt, with_grants p (<[grant_id := revoke_row row revoked_unix_milliseconds]> (trust_grants p)))
  end.

Definition below_generation (p : Profile) (minimum_generation : Z) (row : GrantRow) : bool :=
  bool_decide (row_direction row = TrustGrantDirection.issued) && bytes_eqb (row_issuer row) (device_id p)
  && negb (row_revoked row) && (row_generation row <? i64 minimum_generation).

Definition revoke_issued_trust_grants_below_generation (p : Profile)
    (minimum_generation revoked_unix_milliseconds : Z) : Result Z * Profile :=
  let hit row := below_generation p minimum_generation row in
  (success (Z.of_nat (size (filter (fun kv => hit kv.2 = true) (trust_grants p)))),
   with_grants p ((fun row => if hit row then revoke_row row revoked_unix_milliseconds else row)
                    <$> trust_grants p)).

(** The [WHERE] clauses. *)
Definition row_valid (now_unix_milliseconds : Z) (row : GrantRow) : bool :=
  negb (row_revoked row)
  && match row_expires row with None => true | Some e => i64 now_unix_milliseconds <? e end.

Definition row_issued_to (p : Profile) (peer : list Z) (row : GrantRow) : bool :=
  bool_decide (row_direction row = TrustGrantDirection.issued)
  && bytes_eqb (row_issuer row) (device_id p) && bytes_eqb (row_subject row) peer.

Definition row_received_from (p : Profile) (peer : list Z) (row : GrantRow) : bool :=
  bool_decide (row_direction row = TrustGrantDirection.received)
  && bytes_eqb (row_issuer row) peer && bytes_eqb (row_subject row) (device_id p).

Definition is_scope_authorized (p : Profile) (peer scope : list Z) (now : Z) : Result bool :=
  fail_if negb (valid_scope scope) with profile_error ErrorCode.configuration "invalid_trust_scope";
  success (existsb (fun '(_, row) =>
    row_issued_to p peer row && row_valid now row && existsb (bytes_eqb scope) (row_scopes row))
    (map_to_list (trust_grants p))).

Definition is_device_trusted (p : Profile) (peer : list Z) (now : Z) : Result bool :=
  fail_if all_zero peer with profile_error ErrorCode.configuration "invalid_trusted_peer";
  success (existsb (fun '(_, row) => row_issued_to p peer row && row_valid now row)
    (map_to_list (trust_grants p))).

Definition trusted_devices (p : Profile) (now : Z) : Result (list (list Z)) :=
  let rows := List.filter (fun '(_, row) =>
    bool_decide (row_direction row = TrustGrantDirection.issued)
    && bytes_eqb (row_issuer row) (device_id p) && row_valid now row) (map_to_list (trust_grants p)) in
  success (unique_adjacent (merge_sort scope_le (map (fun '(_, row) => row_subject row) rows))).

End TrustStore.

(** The order a query without [ORDER BY] returns its rows in. *)
Class RowOrder : Type := arrange : list (list Z * TrustStore.GrantRow) -> list (list Z * TrustStore.GrantRow).
Class RowOrderLaws `{RowOrder} : Prop := arrange_permutation l : arrange l ≡ₚ l.

Module TrustQuery.
Import TrustStore.

Section query.
Context `{RowOrder}.

(** The [while (true)] loop over the rows of a query. *)
Fixpoint collect_rows (rows : list (list Z * GrantRow)) : Result (list TrustGrantRecord) :=
  match rows with
  | [] => success []
  | (id, row) :: rows =>
      let? record := row_record id row in
      let? records := collect_rows rows in
      success (record :: records)
  end.

Definition trust_grants_for_peer (p : Profile) (peer : list Z) (now_unix_milliseconds : Z)
    : Result (list TrustGrantRecord) :=
  fail_if all_zero peer || bytes_eqb peer (device_id p)
    with profile_error ErrorCode.configuration "invalid_trust_peer";
  collect_rows (arrange (List.filter (fun '(_, row) =>
    row_valid now_unix_milliseconds row && (row_issued_to p peer row || row_received_from p peer row))
    (map_to_list (trust_grants p)))).

End query.
End TrustQuery.

Import TrustGrant Password TrustStore TrustQuery.

(** ** What the pairing service sees of a profile *)

Class ProfileOps (S : Type) : Type := {
  profile_device_id : S -> list Z;
  profile_pairing_policy : S -> Result PairingPolicy;
  profile_password_verifier : S -> Result (option PasswordVerifier);
  profile_password_generation : S -> Result Z;
  profile_set_password_verifier : S -> PasswordVerifier -> Z -> Result unit * S;
  profile_put_trust_grant : S -> TrustGrantRecord -> Result unit * S;
  profile_trust_grants_for_peer : S -> list Z -> Z -> Result (list TrustGrantRecord);
  profile_revoke_trust_grant : S -> list Z -> Z -> Result unit * S;
  profile_revoke_below_generation : S -> Z -> Z -> Result Z * S;
}.

(** A grant as it is read back: its scopes sorted, each once. *)
Definition stored (r : TrustGrantRecord) : TrustGrantRecord :=
  mkTrustGrantRecord (record_grant_id r) (direction r) (record_issuer r) (record_subject r)
    (unique_adjacent (merge_sort scope_le (scopes r))) (record_generation r) (record_issued r)
    (record_expires r) (record_signature r) (revoked r).

(** Between [device] and [peer], in the direction it says, and not over at [now]. *)
Definition concerns (device peer : list Z) (r : TrustGrantRecord) : Prop :=
  match direction r with
  | TrustGrantDirection.issued => record_issuer r = device /\ record_subject r = peer
  | TrustGrantDirection.received => record_issuer r = peer /\ record_subject r = device
  end.

Definition live (now : Z) (r : TrustGrantRecord) : Prop :=
  revoked r = false /\ forall e, record_expires r = Some e -> now < e.

(** 64-bit times below [2^63], which SQLite keeps as they are. *)
Definition record_typed (r : TrustGrantRecord) : Prop :=
  0 <= record_generation r < 2 ^ 63 /\ 0 <= record_issued r < 2 ^ 63 /\
  forall e, record_expires r = Some e -> 0 <= e < 2 ^ 63.

Class ProfileLaws (S : Type) `{ProfileOps S} : Type := {
  profile_ok : S -> Prop;
  put_grant_frame s r s' :
    profile_ok s -> record_typed r -> profile_put_trust_grant s r = (success tt, s') ->
    profile_ok s' /\ profile_device_id s' = profile_device_id s /\
    profile_pairing_policy s' = profile_pairing_policy s;
  put_grant_listed s r s' peer now rs' :
    profile_ok s -> record_typed r -> 0 <= now < 2 ^ 63 ->
    profile_put_trust_grant s r = (success tt, s') ->
    profile_trust_grants_for_peer s' peer now = success rs' ->
    exists rs, profile_trust_grants_for_peer s peer now = success rs /\
    forall r', r' ∈ rs' <->
      (r' = stored r /\ concerns (profile_device_id s) peer r /\ live now r) \/
      (r' ∈ rs /\ record_grant_id r' <> record_grant_id r);
  grants_for_peer_total s peer now :
    profile_ok s -> all_zero peer = false -> peer <> profile_device_id s ->
    exists rs, profile_trust_grants_for_peer s peer now = success rs;
  put_grant_accepts s r :
    profile_ok s ->
    all_zero (record_grant_id r) = false -> all_zero (record_issuer r) = false ->
    all_zero (record_subject r) = false -> record_generation r <> 0 -> record_issued r <> 0 ->
    1 <= zlen (record_signature r) <= 4096 -> 1 <= zlen (scopes r) <= 256 ->
    forallb valid_scope (scopes r) = true ->
    exists s', profile_put_trust_grant s r = (success tt, s');
  grants_for_peer_scopes s peer now rs :
    profile_trust_grants_for_peer s peer now = success rs ->
    Forall (fun r => forallb valid_scope (scopes r) = true) rs;
}.

(** ** The store *)

Definition row_ok (row : GrantRow) : Prop :=
  zlen (row_signature row) <> 0 /\ forallb valid_scope (row_scopes row) = true.

Definition profile_wf (p : Profile) : Prop := map_Forall (fun _ row => row_ok row) (trust_grants p).

#[export] Instance store_ops `{RowOrder} : ProfileOps Profile := {|
  profile_device_id := device_id;
  profile_pairing_policy := pairing_policy;
  profile_password_verifier := password_verifier;
  profile_password_generation := password_generation;
  profile_set_password_verifier := set_password_verifier;
  profile_put_trust_grant := put_trust_grant;
  profile_trust_grants_for_peer := trust_grants_for_peer;
  profile_revoke_trust_grant := revoke_trust_grant;
  profile_revoke_below_generation := revoke_issued_trust_grants_below_generation;
|}.

Lemma i64_small x : 0 <= x < 2 ^ 63 -> i64 x = x.
Proof. intros Hx. unfold i64, u64. rewrite Z.mod_small by lia. by rewrite (proj2 (Z.ltb_lt _ _)) by lia. Qed.

Lemma u64_i64 x : 0 <= x < 2 ^ 63 -> u64 (i64 x) = x.
Proof. intros Hx. rewrite i64_small by done. unfold u64. apply Z.mod_small. lia. Qed.

(** The row a record is stored as. *)
Definition record_row (r : TrustGrantRecord) (revoked_at : option Z) : GrantRow :=
  mkGrantRow (direction r) (record_issuer r) (record_subject r) (i64 (record_generation r))
    (i64 (record_issued r)) (option_map i64 (record_expires r)) (record_signature r) (revoked r) revoked_at
    (unique_adjacent (merge_sort scope_le (scopes r))).

Lemma put_trust_grant_inv p r p' :
  put_trust_grant p r = (success tt, p') ->
  exists revoked_at, p' = with_grants p (<[record_grant_id r := record_row r revoked_at]> (trust_grants p)) /\
    row_ok (record_row r revoked_at).
Proof.
  unfold put_trust_grant. intros H. destruct (_ || _) eqn:E in H; [done |].
  destruct (negb _) eqn:Ev in H; [done |]. injection H as <-.
  eexists. split; [reflexivity |]. apply negb_false_iff in Ev. split; cbn; [lia | done].
Qed.

Lemma row_record_stored r at_time :
  record_typed r -> row_ok (record_row r at_time) ->
  row_record (record_grant_id r) (record_row r at_time) = success (stored r).
Proof.
  intros (Hg & Hi & He) [Hs Hv]. unfold row_record, record_row in *. cbn in *.
  rewrite (proj2 (Z.eqb_neq _ _)) by done. rewrite Hv. cbn. unfold stored. rewrite !u64_i64 by done.
  do 2 f_equal. destruct (record_expires r) as [e |]; [| done]. cbn. by rewrite u64_i64 by (by apply He).
Qed.

(** The record a row is read back as. *)
Definition row_view (id : list Z) (row : GrantRow) : TrustGrantRecord :=
  mkTrustGrantRecord id (row_direction row) (row_issuer row) (row_subject row) (row_scopes row)
    (u64 (row_generation row)) (u64 (row_issued row)) (option_map u64 (row_expires row))
    (row_signature row) (row_revoked row).

Lemma row_record_ok id row : row_ok row -> row_record id row = success (row_view id row).
Proof. intros [Hs Hv]. unfold row_record. rewrite (proj2 (Z.eqb_neq _ _)) by done. by rewrite Hv. Qed.

Lemma collect_rows_ok rows :
  Forall (fun kv => row_ok kv.2) rows ->
  collect_rows rows = success (map (fun kv => row_view kv.1 kv.2) rows).
Proof.
  induction 1 as [| [id row] rows Hr Hrs IH]; [done |]. cbn in *. rewrite row_record_ok by done.
  cbn. by rewrite IH.
Qed.

Definition row_selected (p : Profile) (peer : list Z) (now : Z) (row : GrantRow) : bool :=
  row_valid now row && (row_issued_to p peer row || row_received_from p peer row).

Section store_laws.
Context `{RowOrderLaws}.

Lemma selected_rows_ok p peer now :
  profile_wf p ->
  Forall (fun kv => row_ok kv.2)
    (arrange (List.filter (fun '(_, row) => row_selected p peer now row) (map_to_list (trust_grants p)))).
Proof.
  intros Hwf. apply Forall_forall. intros [id row] Hin. rewrite arrange_permutation in Hin.
  apply list_elem_of_In, filter_In in Hin as [Hin _]. apply list_elem_of_In, elem_of_map_to_list in Hin.
  by apply (Hwf id).
Qed.

(** What a query returns. *)
Lemma trust_grants_for_peer_spec p peer now :
  profile_wf p -> all_zero peer = false -> peer <> device_id p ->
  exists rs, trust_grants_for_peer p peer now = success rs /\
  forall r, r ∈ rs <-> exists id row, trust_grants p !! id = Some row /\
    row_selected p peer now row = true /\ r = row_view id row.
Proof.
  intros Hwf Hz Hne. unfold trust_grants_for_peer. rewrite Hz.
  destruct (bytes_eqb peer (device_id p)) eqn:E; [by apply bytes_eqb_eq in E |]. cbn [orb].
  rewrite collect_rows_ok by (by apply selected_rows_ok). eexists. split; [done |]. intros r.
  rewrite list_elem_of_In, in_map_iff. split.
  - intros ([id row] & <- & Hin). apply list_elem_of_In in Hin. rewrite arrange_permutation in Hin.
    apply list_elem_of_In, filter_In in Hin as [Hin Hs]. apply list_elem_of_In, elem_of_map_to_list in Hin.
    by exists id, row.
  - intros (id & row & Hl & Hs & ->). exists (id, row). split; [done |].
    apply list_elem_of_In. rewrite arrange_permutation. apply list_elem_of_In, filter_In. split; [| done].
    by apply list_elem_of_In, elem_of_map_to_list.
Qed.

Lemma trust_grants_for_peer_legal p peer now rs :
  trust_grants_for_peer p peer now = success rs -> all_zero peer = false /\ peer <> device_id p.
Proof.
  unfold trust_grants_for_peer. destruct (all_zero peer); [done |].
  destruct (bytes_eqb peer (device_id p)) eqn:E; [done |]. intros _. split; [done |].
  intros ->. by rewrite bytes_eqb_refl in E.
Qed.

(** A stored record is selected when it concerns the peer and is live. *)
Lemma record_row_selected p peer now r at_time :
  record_typed r -> 0 <= now < 2 ^ 63 ->
  row_selected p peer now (record_row r at_time) = true <-> concerns (device_id p) peer r /\ live now r.
Proof.
  intros (_ & _ & He) Hnow. unfold row_selected, row_valid, row_issued_to, row_received_from, concerns, live, record_row.
  cbn. rewrite i64_small by done.
  assert (Hexp : match option_map i64 (record_expires r) with Some e => now <? e | None => true end = true <->
    forall e, record_expires r = Some e -> now < e).
  { destruct (record_expires r) as [e |]; cbn; [| done]. rewrite i64_small by (by apply He).
    split; [intros H1 e' [= <-]; lia | intros H1; specialize (H1 e eq_refl); lia]. }
  rewrite !andb_true_iff, Hexp, orb_true_iff, negb_true_iff, !andb_true_iff, !bytes_eqb_eq, !bool_decide_eq_true.
  destruct (direction r); naive_solver.
Qed.

Lemma insert_selected p (id : list Z) row peer now (q : Profile) :
  device_id q = device_id p -> row_selected q peer now row = row_selected p peer now row.
Proof. intros E. unfold row_selected, row_issued_to, row_received_from. by rewrite E. Qed.

Lemma put_listed p r p' peer now rs' :
  profile_wf p -> record_typed r -> 0 <= now < 2 ^ 63 -> put_trust_grant p r = (success tt, p') ->
  trust_grants_for_peer p' peer now = success rs' ->
  exists rs, trust_grants_for_peer p peer now = success rs /\
  forall r', r' ∈ rs' <->
    (r' = stored r /\ concerns (device_id p) peer r /\ live now r) \/
    (r' ∈ rs /\ record_grant_id r' <> record_grant_id r).
Proof.
  intros Hwf Ht Hnow (at_time & -> & Hok)%put_trust_grant_inv Hq.
  assert (Hwf' : profile_wf (with_grants p (<[record_grant_id r := record_row r at_time]> (trust_grants p))))
    by (by apply map_Forall_insert_2).
  destruct (trust_grants_for_peer_legal _ _ _ _ Hq) as [Hz Hne]. cbn in Hne.
  destruct (trust_grants_for_peer_spec p peer now Hwf Hz Hne) as (rs & Hrs & Hin).
  destruct (trust_grants_for_peer_spec _ peer now Hwf' Hz Hne) as (rs2 & Hrs2 & Hin2).
  rewrite Hq in Hrs2. injection Hrs2 as <-. exists rs. split; [done |]. intros r'. rewrite Hin2, Hin. clear Hin2 Hin.
  assert (Hview : row_view (record_grant_id r) (record_row r at_time) = stored r).
  { assert (H1 := row_record_stored r at_time Ht Hok). rewrite row_record_ok in H1 by done. congruence. }
  cbn [trust_grants with_grants]. split.
  - intros (id & row & Hl & Hs & ->). destruct (decide (id = record_grant_id r)) as [-> | Hid].
    + rewrite lookup_insert_eq in Hl. injection Hl as <-. left. split; [done |].
      by apply (record_row_selected p peer now r at_time).
    + rewrite lookup_insert_ne in Hl by done. right. split; [| done]. by exists id, row.
  - intros [(-> & Hc & Hlive) | [(id & row & Hl & Hs & ->) Hid]].
    + exists (record_grant_id r), (record_row r at_time). rewrite lookup_insert_eq. split_and!; [done | | done].
      by apply (record_row_selected p peer now r at_time).
    + exists id, row. cbn in Hid. by rewrite lookup_insert_ne.
Qed.

Lemma collect_rows_scopes rows rs :
  collect_rows rows = success rs -> Forall (fun r => forallb valid_scope (scopes r) = true) rs.
Proof.
  revert rs. induction rows as [| [id row] rows IH]; intros rs Hc; cbn [collect_rows] in Hc; [by injection Hc as <- |].
  apply result_bind_success in Hc as (r & Hr & Hc). apply result_bind_success in Hc as (rs' & Hrs & [= <-]).
  apply List.Forall_cons; [| by apply IH]. unfold row_record in Hr. destruct (_ =? _) in Hr; [done |].
  destruct (forallb valid_scope (row_scopes row)) eqn:Hv; [| done]. by injection Hr as <-.
Qed.

#[export] Program Instance store_laws : ProfileLaws Profile := {| profile_ok := profile_wf |}.
Next Obligation.
  intros p r p' Hwf _ (at_time & -> & Hok)%put_trust_grant_inv. split_and!; [| done | done].
  by apply map_Forall_insert_2.
Qed.
Next Obligation. exact put_listed. Qed.
Next Obligation.
  intros p peer now Hwf Hz Hne. destruct (trust_grants_for_peer_spec p peer now Hwf Hz Hne) as (rs & Hrs & _).
  by exists rs.
Qed.
Next Obligation.
  intros p r _ H1 H2 H3 H4 H5 H6 H7 Hv. unfold profile_put_trust_grant. cbn. unfold put_trust_grant.
  rewrite H1, H2, H3. cbn [orb]. rewrite (proj2 (orb_false_iff _ _)) by lia.
  assert (Hs : forallb valid_scope (unique_adjacent (merge_sort scope_le (scopes r))) = true).
  { apply forallb_forall. intros s Hs%list_elem_of_In. rewrite unique_adjacent_elem in Hs.
    rewrite (merge_sort_Permutation scope_le (scopes r)) in Hs. rewrite forallb_forall in Hv.
    by apply Hv, list_elem_of_In. }
  rewrite Hs. by eexists.
Qed.
Next Obligation.
  intros p peer now rs Hq. unfold profile_trust_grants_for_peer in Hq. cbn in Hq. unfold trust_grants_for_peer in Hq.
  destruct (_ || _) in Hq; [done |]. by eapply collect_rows_scopes.
Qed.

End store_laws.

(** ** Revocation *)

(** The operations that change the store. *)
Inductive store_op : Type :=
  | OpPolicy (policy : PairingPolicy)
  | OpVerifier (verifier : PasswordVerifier) (generation : Z)
  | OpPut (record : TrustGrantRecord)
  | OpRevoke (grant_id : list Z) (at_time : Z)
  | OpRevokeBelow (generation at_time : Z).

Definition store_step (p : Profile) (op : store_op) : Profile :=
  match op with
  | OpPolicy policy => (set_pairing_policy p policy).2
  | OpVerifier verifier generation => (set_password_verifier p verifier generation).2
  | OpPut record => (put_trust_grant p record).2
  | OpRevoke grant_id at_time => (revoke_trust_grant p grant_id at_time).2
  | OpRevokeBelow generation at_time =>
      (revoke_issued_trust_grants_below_generation p generation at_time).2
  end.

Definition store_run (p : Profile) (ops : list store_op) : Profile := foldl store_step p ops.

Definition puts (id : list Z) (op : store_op) : Prop :=
  match op with OpPut record => record_grant_id record = id | _ => False end.

(** Every operation keeps the store well formed. *)
Lemma store_step_wf p op : profile_wf p -> profile_wf (store_step p op).
Proof.
  intros Hwf. destruct op as [policy | v g | r | id t | g t]; cbn.
  - unfold set_pairing_policy. destruct (validate_pairing_policy policy); [by destruct (negb _) | done].
  - unfold set_password_verifier. by destruct (_ || _).
  - destruct (put_trust_grant p r) as [[[] | e] p'] eqn:E.
    + apply put_trust_grant_inv in E as (at_time & -> & Hok). by apply map_Forall_insert_2.
    + unfold put_trust_grant in E. destruct (_ || _) in E; [by injection E as <- <- |].
      destruct (negb _) in E; [by injection E as <- <- | done].
  - unfold revoke_trust_grant. destruct (trust_grants p !! id) as [row |] eqn:E; cbn; [| done].
    apply map_Forall_insert_2; [exact (Hwf id row E) | done].
  - unfold profile_wf. cbn. intros id row Hl. rewrite lookup_fmap in Hl.
    destruct (trust_grants p !! id) as [row0 |] eqn:E; [| done]. cbn in Hl. injection Hl as <-.
    destruct (below_generation p g row0); exact (Hwf id row0 E).
Qed.

Lemma store_run_wf p ops : profile_wf p -> profile_wf (store_run p ops).
Proof. revert p. induction ops as [| op ops IH]; intros p Hwf; [done |]. apply IH. by apply store_step_wf. Qed.

Definition revoked_in (p : Profile) (id : list Z) : Prop :=
  exists row, trust_grants p !! id = Some row /\ row_revoked row = true.

Lemma store_step_revoked p op id : revoked_in p id -> ~ puts id op -> revoked_in (store_step p op) id.
Proof.
  intros (row & Hl & Hr) Hp. destruct op as [policy | v g | r | id' t | g t]; cbn in *.
  - unfold set_pairing_policy. destruct (validate_pairing_policy policy); [destruct (negb _) |]; by exists row.
  - unfold set_password_verifier. destruct (_ || _); by exists row.
  - destruct (put_trust_grant p r) as [[[] | e] p'] eqn:E.
    + apply put_trust_grant_inv in E as (at_time & -> & _). exists row. cbn. by rewrite lookup_insert_ne.
    + unfold put_trust_grant in E. destruct (_ || _) in E; [injection E as <- <-; by exists row |].
      destruct (negb _) in E; [injection E as <- <-; by exists row | done].
  - unfold revoke_trust_grant. destruct (trust_grants p !! id') as [row' |] eqn:E; cbn; [| by exists row].
    destruct (decide (id' = id)) as [-> | Hne].
    + eexists. cbn. by rewrite lookup_insert_eq.
    + exists row. cbn. by rewrite lookup_insert_ne.
  - unfold revoked_in. cbn. rewrite lookup_fmap, Hl. cbn. eexists. split; [done |].
    by destruct (below_generation p g row).
Qed.

Lemma store_run_revoked p ops id :
  revoked_in p id -> Forall (fun op => ~ puts id op) ops -> revoked_in (store_run p ops) id.
Proof.
  intros H Hops. revert p H. induction Hops as [| op ops Hop Hops IH]; intros p H; [done |].
  apply IH. by apply store_step_revoked.
Qed.

(** C38. Revocation lasts: once a grant is revoked, no later sequence of policy
    changes, password rotations, revocations and grants under other ids makes
    any query list it again, whatever peer and time it asks for. *)
Theorem revocation_lasts `{RowOrderLaws} p id at_time p1 ops peer now rs r :
  profile_wf p -> revoke_trust_grant p id at_time = (success tt, p1) ->
  Forall (fun op => ~ puts id op) ops ->
  trust_grants_for_peer (store_run p1 ops) peer now = success rs -> r ∈ rs -> record_grant_id r <> id.
Proof.
  intros Hwf Hrev Hops Hq Hin.
  assert (Hp1 : profile_wf p1 /\ revoked_in p1 id).
  { assert (H1 := store_step_wf p (OpRevoke id at_time) Hwf). cbn in H1. rewrite Hrev in H1. split; [exact H1 |].
    unfold revoke_trust_grant in Hrev. destruct (trust_grants p !! id) as [row |]; [| done]. injection Hrev as <-.
    eexists. cbn. by rewrite lookup_insert_eq. }
  destruct Hp1 as [Hwf1 Hr1]. apply (store_run_revoked _ ops) in Hr1 as (row & Hl & Hr); [| done].
  destruct (trust_grants_for_peer_legal _ _ _ _ Hq) as [Hz Hne].
  destruct (trust_grants_for_peer_spec _ peer now (store_run_wf p1 ops Hwf1) Hz Hne) as (rs2 & Hrs2 & Hspec).
  rewrite Hq in Hrs2. injection Hrs2 as <-. apply Hspec in Hin as (id' & row' & Hl' & Hs & ->). cbn.
  intros ->. rewrite Hl in Hl'. injection Hl' as <-. unfold row_selected, row_valid in Hs. rewrite Hr in Hs. done.
Qed.

(** "Rotate and revoke" revokes exactly the trust issued under older
    passwords: afterwards a query lists what it listed before, without the
    grants this device issued under a password generation below the new one. *)
Theorem rotation_revokes_exactly `{RowOrderLaws} p generation at_time n p' peer now rs rs' :
  profile_wf p -> map_Forall (fun _ row => 0 <= row_generation row < 2 ^ 63) (trust_grants p) ->
  0 <= generation < 2 ^ 63 ->
  revoke_issued_trust_grants_below_generation p generation at_time = (success n, p') ->
  trust_grants_for_peer p peer now = success rs -> trust_grants_for_peer p' peer now = success rs' ->
  forall r, r ∈ rs' <->
    r ∈ rs /\ ~ (direction r = TrustGrantDirection.issued /\ record_generation r < generation).
Proof.
  intros Hwf Hgen Hg Hrev Hq Hq' r. assert (Hwf' := store_step_wf p (OpRevokeBelow generation at_time) Hwf).
  cbn [store_step] in Hwf'. rewrite Hrev in Hwf'. cbn [snd] in Hwf'.
  unfold revoke_issued_trust_grants_below_generation in Hrev. injection Hrev as _ <-.
  destruct (trust_grants_for_peer_legal _ _ _ _ Hq) as [Hz Hne].
  destruct (trust_grants_for_peer_spec p peer now Hwf Hz Hne) as (rs1 & E1 & H1).
  destruct (trust_grants_for_peer_spec _ peer now Hwf' Hz Hne) as (rs2 & E2 & H2).
  rewrite Hq in E1. rewrite Hq' in E2. injection E1 as <-. injection E2 as <-. rewrite H1, H2. clear H1 H2 Hq Hq'.
  cbn [trust_grants with_grants]. split.
  - intros (id & row & Hl & Hs & ->). rewrite lookup_fmap in Hl.
    destruct (trust_grants p !! id) as [row0 |] eqn:E0; [| done]. cbn in Hl. injection Hl as <-.
    destruct (below_generation p generation row0) eqn:Eb; [done |]. split; [by exists id, row0 |].
    cbn. intros [Hd Hlt]. assert (Hr := Hgen id row0 E0). cbn in Hr.
    unfold u64 in Hlt. rewrite Z.mod_small in Hlt by lia.
    unfold row_selected, row_valid, row_issued_to, row_received_from in Hs.
    rewrite !andb_true_iff, orb_true_iff, !andb_true_iff, !bool_decide_eq_true, negb_true_iff in Hs.
    destruct Hs as [[Hrow _] [[[_ Hi] _] | [[Hd' _] _]]]; [| by rewrite Hd in Hd'].
    unfold below_generation in Eb. cbn [device_id with_grants] in Hi.
    rewrite Hi, Hrow, i64_small in Eb by done. rewrite bool_decide_eq_true_2 in Eb by done. cbn in Eb. lia.
  - intros [(id & row & Hl & Hs & ->) Hno]. exists id, row. rewrite lookup_fmap, Hl. cbn.
    assert (Hr := Hgen id row Hl). cbn in Hr, Hno. unfold u64 in Hno. rewrite Z.mod_small in Hno by lia.
    destruct (below_generation p generation row) eqn:Eb; [| by split_and!].
    destruct Hno. unfold below_generation in Eb. rewrite !andb_true_iff, bool_decide_eq_true in Eb.
    rewrite i64_small in Eb by done. destruct Eb as [[[Hd _] _] Hlt]. split; [done | lia].
Qed.

Lemma store_step_device p op : device_id (store_step p op) = device_id p.
Proof.
  destruct op as [policy | v g | r | id t | g t]; cbn; [| | | | done].
  - unfold set_pairing_policy. destruct (validate_pairing_policy policy); [by destruct (negb _) | done].
  - unfold set_password_verifier. by destruct (_ || _).
  - unfold put_trust_grant. by repeat case_match.
  - unfold revoke_trust_grant. by destruct (trust_grants p !! id).
Qed.

Lemma store_run_device p ops : device_id (store_run p ops) = device_id p.
Proof.
  revert p. induction ops as [| op ops IH]; intros p; [done |]. cbn [store_run foldl].
  change (device_id (store_run (store_step p op) ops) = device_id p). by rewrite IH, store_step_device.
Qed.

(** What a caller may rely on in a grant a query returns. *)
Definition grant_well_typed (device peer : list Z) (r : TrustGrantRecord) : Prop :=
  zlen (record_signature r) <> 0 /\ forallb valid_scope (scopes r) = true /\
  is_u64 (record_generation r) /\ is_u64 (record_issued r) /\
  (forall e, record_expires r = Some e -> is_u64 e) /\ revoked r = false /\ concerns device peer r.

Lemma row_view_well_typed p peer now id row :
  row_ok row -> row_selected p peer now row = true -> grant_well_typed (device_id p) peer (row_view id row).
Proof.
  intros [Hs Hv] Hsel. unfold row_selected, row_valid, row_issued_to, row_received_from in Hsel.
  rewrite !andb_true_iff, orb_true_iff, !andb_true_iff, !bool_decide_eq_true, negb_true_iff in Hsel.
  destruct Hsel as [[Hr _] Hd]. assert (Hu : forall x, is_u64 (u64 x)) by (intros; apply Z.mod_pos_bound; lia).
  unfold grant_well_typed, concerns. cbn. split_and!; auto.
  - intros e He. destruct (row_expires row); [| done]. injection He as <-. auto.
  - destruct Hd as [[[-> Hi%bytes_eqb_eq] Hj%bytes_eqb_eq] | [[-> Hi%bytes_eqb_eq] Hj%bytes_eqb_eq]]; done.
Qed.

(** C39. The store is well-typed: whatever sequence of policy changes, verifier
    changes, grants and revocations was applied to a fresh profile, a query for
    another device never fails with a corruption error, and every grant it
    returns is signed, has valid scopes and 64-bit times, is not revoked and is
    between this device and the peer asked for, in the direction it says. *)
Theorem store_well_typed `{RowOrderLaws} device ops peer now :
  all_zero peer = false -> peer <> device ->
  exists rs, trust_grants_for_peer (store_run (mkProfile device None None ∅) ops) peer now = success rs /\
    Forall (grant_well_typed device peer) rs.
Proof.
  intros Hz Hne. set (p := store_run _ ops).
  assert (Hwf : profile_wf p) by (apply store_run_wf, map_Forall_empty).
  assert (Hd : device_id p = device) by apply store_run_device.
  destruct (trust_grants_for_peer_spec p peer now Hwf Hz) as (rs & Hq & Hspec); [by rewrite Hd |].
  exists rs. split; [done |]. apply Forall_forall. intros r (id & row & Hl & Hs & ->)%Hspec.
  rewrite <- Hd. by apply (row_view_well_typed p peer now), Hs; apply (Hwf id).
Qed.

(** ** A concrete store *)

Definition table_order : RowOrder := fun l => l.

Lemma table_order_laws : @RowOrderLaws table_order.
Proof. intros l. done. Qed.

Definition sample_device : list Z := repeat 9 32.
Definition sample_peer : list Z := repeat 5 32.

Definition sample_record (id : Z) (d : TrustGrantDirection) (issuer subject : list Z) (generation : Z)
    : TrustGrantRecord :=
  mkTrustGrantRecord (repeat id 16) d issuer subject [bytes_of_string "message.send"] generation 1000 None
    (repeat 3 64) false.

Definition sample_profile : Profile :=
  store_run (mkProfile sample_device None None ∅)
    [OpPut (sample_record 1 TrustGrantDirection.issued sample_device sample_peer 1);
     OpPut (sample_record 2 TrustGrantDirection.issued sample_device sample_peer 2);
     OpPut (sample_record 3 TrustGrantDirection.received sample_peer sample_device 1)].

Lemma sample_profile_wf : profile_wf sample_profile.
Proof. apply store_run_wf. apply map_Forall_empty. Qed.

Lemma generations_decide (m : gmap (list Z) GrantRow) :
  forallb (fun kv => (0 <=? row_generation kv.2) && (row_generation kv.2 <? 2 ^ 63)) (map_to_list m) = true ->
  map_Forall (fun _ row => 0 <= row_generation row < 2 ^ 63) m.
Proof.
  intros H id row Hl%elem_of_map_to_list%list_elem_of_In. rewrite forallb_forall in H. apply H in Hl. cbn in Hl. lia.
Qed.

Lemma revocation_lasts_witness :
  exists p1 rs,
    revoke_trust_grant sample_profile (repeat 1 16) 1500 = (success tt, p1) /\
    @trust_grants_for_peer table_order (store_run p1 [OpRevokeBelow 1 1600]) sample_peer 2000 = success rs /\
    length rs = 2%nat /\ forall r, r ∈ rs -> record_grant_id r <> repeat 1 16.
Proof.
  set (p1 := (revoke_trust_grant sample_profile (repeat 1 16%nat) 1500).2).
  assert (H1 : revoke_trust_grant sample_profile (repeat 1 16%nat) 1500 = (success tt, p1)) by (vm_compute; reflexivity).
  set (q := @trust_grants_for_peer table_order (store_run p1 [OpRevokeBelow 1 1600]) sample_peer 2000).
  exists p1, (match q with success rs => rs | failure _ => [] end).
  assert (Hq : q = success (match q with success rs => rs | failure _ => [] end)) by (vm_compute; reflexivity).
  split; [exact H1 |]. split; [exact Hq |]. split; [vm_compute; reflexivity |]. intros r Hr.
  refine (@revocation_lasts table_order table_order_laws sample_profile (repeat 1 16%nat) 1500 p1 [OpRevokeBelow 1 1600]
    sample_peer 2000 _ r sample_profile_wf H1 _ Hq Hr).
  apply Forall_cons. split; [intros [] | apply Forall_nil; exact I].
Defined.

Lemma rotation_revokes_exactly_witness :
  exists n p' rs rs',
    revoke_issued_trust_grants_below_generation sample_profile 2 1500 = (success n, p') /\
    @trust_grants_for_peer table_order sample_profile sample_peer 2000 = success rs /\
    @trust_grants_for_peer table_order p' sample_peer 2000 = success rs' /\
    length rs = 3%nat /\ length rs' = 2%nat /\
    forall r, r ∈ rs' <->
      r ∈ rs /\ ~ (direction r = TrustGrantDirection.issued /\ record_generation r < 2).
Proof.
  set (p' := (revoke_issued_trust_grants_below_generation sample_profile 2 1500).2).
  set (q := @trust_grants_for_peer table_order sample_profile sample_peer 2000).
  set (q' := @trust_grants_for_peer table_order p' sample_peer 2000).
  exists 1, p', (match q with success rs => rs | failure _ => [] end), (match q' with success rs => rs | failure _ => [] end).
  assert (H1 : revoke_issued_trust_grants_below_generation sample_profile 2 1500 = (success 1, p')) by (vm_compute; reflexivity).
  assert (Hq : q = success (match q with success rs => rs | failure _ => [] end)) by (vm_compute; reflexivity).
  assert (Hq' : q' = success (match q' with success rs => rs | failure _ => [] end)) by (vm_compute; reflexivity).
  split; [exact H1 |]. split; [exact Hq |]. split; [exact Hq' |].
  split; [vm_compute; reflexivity |]. split; [vm_compute; reflexivity |].
  refine (@rotation_revokes_exactly table_order table_order_laws sample_profile 2 1500 1 p' sample_peer 2000 _ _
    sample_profile_wf _ (conj _ _) H1 Hq Hq'); [| lia | lia].
  apply generations_decide. vm_compute. reflexivity.
Defined.

Lemma store_well_typed_witness :
  exists rs,
    @trust_grants_for_peer table_order sample_profile sample_peer 2000 = success rs /\
    Forall (grant_well_typed sample_device sample_peer) rs.
Proof.
  refine (@store_well_typed table_order table_order_laws sample_device
    [OpPut (sample_record 1 TrustGrantDirection.issued sample_device sample_peer 1);
     OpPut (sample_record 2 TrustGrantDirection.issued sample_device sample_peer 2);
     OpPut (sample_record 3 TrustGrantDirection.received sample_peer sample_device 1)] sample_peer 2000 _ _).
  - vm_compute. reflexivity.
  - vm_compute. discriminate.
Defined.
