(* ===== verification/PairingService.v ===== *)
(** * The pairing service

    [src/client/pairing_service.hpp] and [src/client/pairing_service.cpp]: the
    target side of pairing (password evaluation, passwordless approval, per-source
    backoff), the initiator side (acceptance of a returned grant), session
    authorization and trust management. The profile is any [ProfileOps]; the wall
    clock of a call is its argument [now], and the grant id the draw of
    [randombytes_buf] that ended [random_grant_id]'s loop. Audit events are kept
    in a list, newest last.

    The theorems: a grant is only ever issued to a peer that knows the password,
    outside its backoff, with scopes the policy covers; an accepted grant is
    bound to the request, the two identities and the requested scopes; the two
    sides compose. The failure table outgrows its capacity, and a grant received
    from a peer authorizes that peer. *)

From Stdlib Require Import ZArith Lia ZifyBool String.
From stdpp Require Import base tactics option list numbers strings sorting gmap.
From S2P Require Import Prelude Errors Clock FieldCodec Identity Signing Security TrustGrant Password PairingProtocol.
From S2P Require Import TrustStore.
#[local] Open Scope Z_scope.

(** [enum class PairingAuditKind]. *)
Module PairingAuditKind.
Inductive PairingAuditKind : Type :=
  | attempt | denied_password | denied_policy | denied_backoff | granted | grant_accepted
  | grant_rejected | grant_revoked | password_rotated | grants_revoked.
End PairingAuditKind.
Abbreviation PairingAuditKind := PairingAuditKind.PairingAuditKind.

#[export] Instance PairingAuditKind_eq_dec : EqDecision PairingAuditKind.
Proof. solve_decision. Defined.

Module PairingService.
Import Identity TrustGrant Password PairingProtocol TrustStore.

Record PairingAuditEvent : Type := mkAuditEvent {
  kind : PairingAuditKind;
  audit_peer : list Z;
  unix_milliseconds : Z;
  audit_detail : string;
  audit_request_id : option (list Z);
  audit_grant_id : option (list Z);
}.

(** [struct PairingServiceStats]: one counter per kind of audit event. *)
Record PairingServiceStats : Type := mkStats {
  attempts : Z;
  granted : Z;
  denied_password : Z;
  denied_policy : Z;
  denied_backoff : Z;
  grant_accepted : Z;
  grant_rejected : Z;
  grant_revoked : Z;
  password_rotated : Z;
  grants_revoked : Z;
}.

Definition no_stats : PairingServiceStats := mkStats 0 0 0 0 0 0 0 0 0 0.

(** The [switch] of [PairingService::audit]. *)
Definition bump (k : PairingAuditKind) (t : PairingServiceStats) : PairingServiceStats :=
  let '(mkStats a g dp dl db ga gr gv pr gs) := t in
  match k with
  | PairingAuditKind.attempt => mkStats (u64 (a + 1)) g dp dl db ga gr gv pr gs
  | PairingAuditKind.granted => mkStats a (u64 (g + 1)) dp dl db ga gr gv pr gs
  | PairingAuditKind.denied_password => mkStats a g (u64 (dp + 1)) dl db ga gr gv pr gs
  | PairingAuditKind.denied_policy => mkStats a g dp (u64 (dl + 1)) db ga gr gv pr gs
  | PairingAuditKind.denied_backoff => mkStats a g dp dl (u64 (db + 1)) ga gr gv pr gs
  | PairingAuditKind.grant_accepted => mkStats a g dp dl db (u64 (ga + 1)) gr gv pr gs
  | PairingAuditKind.grant_rejected => mkStats a g dp dl db ga (u64 (gr + 1)) gv pr gs
  | PairingAuditKind.grant_revoked => mkStats a g dp dl db ga gr (u64 (gv + 1)) pr gs
  | PairingAuditKind.password_rotated => mkStats a g dp dl db ga gr gv (u64 (pr + 1)) gs
  | PairingAuditKind.grants_revoked => mkStats a g dp dl db ga gr gv pr (u64 (gs + 1))
  end.

Record PairingServiceConfig : Type := mkConfig {
  identity : IdentityKeyPair;
  grant_ttl_milliseconds : Z;
  failure_threshold : Z;
  backoff_base : Z;
  backoff_max : Z;
  failure_table_capacity : Z;
  audit_sink : bool;
}.

Record FailureRecord : Type := mkFailure {
  failures : Z;
  last_failure_unix_milliseconds : Z;
}.

Record SessionAuthorization : Type := mkAuthorization {
  trusted : bool;
  authorized_scopes : list (list Z);
  pairing_allowed : bool;
}.

Definition pairing_service_error (code : ErrorCode) (detail : string) : Error :=
  make_error code "pairing_service" detail.

Definition max_identity_public_key_bytes : Z := 32.

(** The clamping of the constructor. *)
Definition clamp_config (c : PairingServiceConfig) : PairingServiceConfig :=
  let threshold := if failure_threshold c =? 0 then 1 else failure_threshold c in
  let base := if backoff_base c <=? 0 then 1000 else backoff_base c in
  let maximum := if backoff_max c <? base then base else backoff_max c in
  let capacity := if failure_table_capacity c =? 0 then 1 else failure_table_capacity c in
  mkConfig (identity c) (grant_ttl_milliseconds c) threshold base maximum capacity (audit_sink c).

Section service.
Context {S : Type} `{ProfileOps S} `{Sodium} `{PasswordHash}.

(** The members; [profile] is [config_.profile]. *)
Record Service : Type := mkService {
  config_ : PairingServiceConfig;
  profile : option S;
  failures_ : gmap (list Z) FailureRecord;
  stats_ : PairingServiceStats;
  audit_log : list PairingAuditEvent;
}.

Definition new_service (config : PairingServiceConfig) (p : option S) : Service :=
  mkService (clamp_config config) p ∅ no_stats [].

Definition with_profile (s : Service) (p : S) : Service :=
  mkService (config_ s) (Some p) (failures_ s) (stats_ s) (audit_log s).

Definition with_failures (s : Service) (f : gmap (list Z) FailureRecord) : Service :=
  mkService (config_ s) (profile s) f (stats_ s) (audit_log s).

Definition audit (s : Service) (now : Z) (k : PairingAuditKind) (peer : list Z) (detail : string)
    (request_id grant_id : option (list Z)) : Service :=
  mkService (config_ s) (profile s) (failures_ s) (bump k (stats_ s))
    (if negb (audit_sink (config_ s)) then audit_log s
     else audit_log s ++ [mkAuditEvent k peer now detail request_id grant_id]).

(** The doubling loop of [backoff_blocks]. *)
Fixpoint wait_loop (exponent : nat) (wait : Z) : Z :=
  match exponent with
  | O => wait
  | Datatypes.S exponent => if u64_max / 2 <? wait then u64_max else wait_loop exponent (u64 (wait * 2))
  end.

Definition backoff_blocks (s : Service) (peer : list Z) (now_value : Z) : bool :=
  match failures_ s !! peer with
  | None => false
  | Some record =>
      if failures record <? failure_threshold (config_ s) then false else
      let exponent := Z.min (failures record - failure_threshold (config_ s)) 16 in
      let wait := wait_loop (Z.to_nat exponent) (u64 (backoff_base (config_ s))) in
      let wait := Z.min wait (u64 (backoff_max (config_ s))) in
      now_value <? u64 (last_failure_unix_milliseconds record + wait)
  end.

(** [std::min_element]: the first entry with the smallest time. *)
Fixpoint min_entry (best : list Z * FailureRecord) (rest : list (list Z * FailureRecord))
    : list Z * FailureRecord :=
  match rest with
  | [] => best
  | entry :: rest =>
      if last_failure_unix_milliseconds entry.2 <? last_failure_unix_milliseconds best.2
      then min_entry entry rest else min_entry best rest
  end.

Definition oldest_failure (m : gmap (list Z) FailureRecord) : option (list Z) :=
  match iterate m with
  | [] => None
  | entry :: rest => Some (fst (min_entry entry rest))
  end.

(** [map.try_emplace(peer)]: whether it inserted. *)
Definition try_emplace (m : gmap (list Z) FailureRecord) (peer : list Z)
    : bool * gmap (list Z) FailureRecord :=
  match m !! peer with
  | Some _ => (false, m)
  | None => (true, <[peer := mkFailure 0 0]> m)
  end.

Definition record_failure (s : Service) (peer : list Z) (now_value : Z) : Service :=
  let '(inserted, m) := try_emplace (failures_ s) peer in
  let m := if inserted && (failure_table_capacity (config_ s) <? msize m) then
             let m := match oldest_failure m with Some oldest => delete oldest m | None => m end in
             snd (try_emplace m peer)
           else m in
  let record := default (mkFailure 0 0) (m !! peer) in
  with_failures s (<[peer := mkFailure (u64 (failures record + 1)) now_value]> m).

Definition clear_failures (s : Service) (peer : list Z) : Service :=
  with_failures s (delete peer (failures_ s)).

Definition to_record (g : SignedTrustGrant) (d : TrustGrantDirection) : TrustGrantRecord :=
  mkTrustGrantRecord (TrustGrant.grant_id g) d (issuer g) (subject g) (granted_scopes g)
    (TrustGrant.password_generation g) (issued_unix_milliseconds g) (expires_unix_milliseconds g)
    (signature g) false.

(** The common end of [evaluate] and [approve]: bind the grant to both
    identities, the nonce and the password generation, sign it and store it. *)
Definition issue_grant (s : Service) (p : S) (now : Z) (random_id : list Z) (id nonce : list Z)
    (allowed : list (list Z)) (peer peer_public_key : list Z) (detail : string)
    : Result PairingResultBody * Service :=
  match profile_password_generation p with
  | failure e => (failure e, s)
  | success generation =>
      let ttl := grant_ttl_milliseconds (config_ s) in
      let grant := mkGrant random_id (profile_device_id p) peer allowed generation now
                     (if 0 <? ttl then Some (u64 (now + ttl)) else None) nonce (repeat 0 64) in
      match sign_signed_trust_grant grant (identity (config_ s)) with
      | failure e => (failure e, s)
      | success grant =>
          if max_identity_public_key_bytes <? zlen peer_public_key
          then (failure (pairing_service_error ErrorCode.protocol "peer_public_key_invalid"), s)
          else match profile_put_trust_grant p (to_record grant TrustGrantDirection.issued) with
               | (failure e, p) => (failure e, with_profile s p)
               | (success _, p) =>
                   let s := with_profile s p in
                   let s := audit s now PairingAuditKind.granted peer detail (Some id)
                              (Some (TrustGrant.grant_id grant)) in
                   (success (mkPairingResult id StableStatus.ok (Some grant)), s)
               end
      end
  end.

Definition profile_missing : Error :=
  pairing_service_error ErrorCode.configuration "profile_missing".

Definition evaluate (s : Service) (now : Z) (random_id : list Z) (request : PairingRequestBody)
    (peer peer_public_key : list Z) : Result PairingResultBody * Service :=
  match profile s with
  | None => (failure profile_missing, s)
  | Some p =>
      let id := request_id request in
      let deny s status k detail :=
        (success (mkPairingResult id status None), audit s now k peer detail (Some id) None) in
      match profile_pairing_policy p with
      | failure e => (failure e, s)
      | success policy =>
          if negb (password_pairing_enabled policy)
          then deny s StableStatus.permission_denied PairingAuditKind.denied_policy "pairing_disabled"%string
          else if backoff_blocks s peer now
          then deny s StableStatus.resource_exhausted PairingAuditKind.denied_backoff "pairing_backoff"%string
          else
            let s := audit s now PairingAuditKind.attempt peer "pairing_attempt" (Some id) None in
            match profile_password_verifier p with
            | failure e => (failure e, s)
            | success None =>
                deny s StableStatus.permission_denied PairingAuditKind.denied_policy "verifier_missing"%string
            | success (Some verifier) =>
                match verify_password (password_utf8 request) verifier with
                | failure e => (failure e, s)
                | success false =>
                    deny (record_failure s peer now) StableStatus.unauthenticated
                      PairingAuditKind.denied_password "password_mismatch"%string
                | success true =>
                    let s := clear_failures s peer in
                    match normalize_trust_scopes (default_scopes policy) with
                    | failure e => (failure e, s)
                    | success policy_scopes =>
                        let adjudication := adjudicate_trust_scopes (requested_scopes request) policy_scopes None in
                        if negb (authorized adjudication)
                        then deny s StableStatus.permission_denied PairingAuditKind.denied_policy
                               "scope_intersection_empty"%string
                        else issue_grant s p now random_id id (request_nonce request)
                               (allowed_scopes adjudication) peer peer_public_key "grant_issued"
                    end
                end
            end
      end
  end.

Definition approve (s : Service) (now : Z) (random_id : list Z) (request : PairingApprovalRequestBody)
    (peer peer_public_key : list Z) : Result PairingResultBody * Service :=
  match profile s with
  | None => (failure profile_missing, s)
  | Some p =>
      let id := approval_request_id request in
      match profile_pairing_policy p with
      | failure e => (failure e, s)
      | success policy =>
          let s := audit s now PairingAuditKind.attempt peer "pairing_approval_attempt" (Some id) None in
          match normalize_trust_scopes (default_scopes policy) with
          | failure e => (failure e, s)
          | success policy_scopes =>
              let adjudication := adjudicate_trust_scopes (approval_scopes request) policy_scopes None in
              if negb (authorized adjudication)
              then (success (mkPairingResult id StableStatus.permission_denied None),
                    audit s now PairingAuditKind.denied_policy peer "approval_scope_intersection_empty"
                      (Some id) None)
              else issue_grant s p now random_id id (approval_nonce request)
                     (allowed_scopes adjudication) peer peer_public_key "approval_grant_issued"
          end
      end
  end.

Definition record_approval_rejected (s : Service) (now : Z) (peer request_id : list Z) : Service :=
  audit s now PairingAuditKind.denied_policy peer "approval_rejected" (Some request_id) None.

Definition accept_grant (s : Service) (now : Z) (result : PairingResultBody)
    (pending_request_id pending_nonce issuer_device issuer_public_key : list Z)
    (requested : list (list Z)) : Result unit * Service :=
  match profile s with
  | None => (failure profile_missing, s)
  | Some p =>
      let id := result_request_id result in
      let reject detail grant_id e :=
        (failure e, audit s now PairingAuditKind.grant_rejected issuer_device detail (Some id) grant_id) in
      match grant result with
      | None => reject "result_without_grant"%string None
                  (pairing_service_error ErrorCode.protocol "result_without_grant")
      | Some g =>
          let gid := Some (TrustGrant.grant_id g) in
          if negb (bytes_eqb id pending_request_id) || negb (bytes_eqb (nonce g) pending_nonce)
          then reject "grant_binding_mismatch"%string gid
                 (pairing_service_error ErrorCode.authentication "grant_binding_mismatch")
          else if negb (bytes_eqb (issuer g) issuer_device)
                  || negb (bytes_eqb (subject g) (profile_device_id p))
          then reject "grant_identity_mismatch"%string gid
                 (pairing_service_error ErrorCode.authentication "grant_identity_mismatch")
          else
            match verify_signed_trust_grant g issuer_public_key now with
            | failure e => reject "grant_signature_invalid"%string gid e
            | success _ =>
                if negb (forallb (fun scope => existsb (bytes_eqb scope) requested) (granted_scopes g))
                then reject "grant_scope_overreach"%string gid
                       (pairing_service_error ErrorCode.authentication "grant_scope_overreach")
                else match profile_put_trust_grant p (to_record g TrustGrantDirection.received) with
                     | (failure e, p) => (failure e, with_profile s p)
                     | (success _, p) =>
                         (success tt, audit (with_profile s p) now PairingAuditKind.grant_accepted
                                        issuer_device "grant_stored" (Some id) gid)
                     end
            end
      end
  end.

Definition authorize (s : Service) (peer : list Z) (now : Z) : Result SessionAuthorization :=
  match profile s with
  | None => failure profile_missing
  | Some p =>
      let? policy := profile_pairing_policy p in
      let pairing := password_pairing_enabled policy in
      let? grants := profile_trust_grants_for_peer p peer now in
      let all := concat (map scopes grants) in
      match all with
      | [] => success (mkAuthorization false [] pairing)
      | _ :: _ =>
          let? normalized := normalize_trust_scopes all in
          success (mkAuthorization true normalized pairing)
      end
  end.

Definition revoke_grant (s : Service) (now : Z) (grant_id : list Z) : Result unit * Service :=
  match profile s with
  | None => (failure profile_missing, s)
  | Some p =>
      match profile_revoke_trust_grant p grant_id now with
      | (failure e, p) => (failure e, with_profile s p)
      | (success _, p) =>
          (success tt, audit (with_profile s p) now PairingAuditKind.grant_revoked (repeat 0 32)
                         "grant_revoked" None (Some grant_id))
      end
  end.

Definition rotate_password (s : Service) (now : Z) (new_verifier : PasswordVerifier) : Result Z * Service :=
  match profile s with
  | None => (failure profile_missing, s)
  | Some p =>
      match profile_password_generation p with
      | failure e => (failure e, s)
      | success current =>
          let next := u64 (current + 1) in
          match profile_set_password_verifier p new_verifier next with
          | (failure e, p) => (failure e, with_profile s p)
          | (success _, p) =>
              (success next, audit (with_profile s p) now PairingAuditKind.password_rotated (repeat 0 32)
                               "password_rotated" None None)
          end
      end
  end.

Definition rotate_password_and_revoke_grants (s : Service) (now : Z) (new_verifier : PasswordVerifier)
    : Result Z * Service :=
  match rotate_password s now new_verifier with
  | (failure e, s) => (failure e, s)
  | (success next, s) =>
      match profile s with
      | None => (failure profile_missing, s)
      | Some p =>
          match profile_revoke_below_generation p next now with
          | (failure e, p) => (failure e, with_profile s p)
          | (success _, p) =>
              (success next, audit (with_profile s p) now PairingAuditKind.grants_revoked (repeat 0 32)
                               "old_generation_grants_revoked" None None)
          end
      end
  end.

Definition grants_for_peer (s : Service) (peer : list Z) (now : Z) : Result (list TrustGrantRecord) :=
  match profile s with
  | None => failure profile_missing
  | Some p => profile_trust_grants_for_peer p peer now
  end.

Definition tracked_failure_sources (s : Service) : Z := msize (failures_ s).

End service.
End PairingService.

Import Identity Signing Security TrustGrant Password PairingProtocol TrustStore TrustQuery PairingService.

Section service_facts.
Context {S : Type} `{ProfileOps S} `{Sodium} `{PasswordHash}.
Implicit Types (s : @Service S) (p : S).

(** The grant [issue_grant] asks the identity to sign. *)
Definition draft_grant s (p : S) (now : Z) (random_id nonce : list Z) (allowed : list (list Z)) (peer : list Z)
    (generation : Z) : SignedTrustGrant :=
  mkGrant random_id (profile_device_id p) peer allowed generation now
    (if 0 <? grant_ttl_milliseconds (config_ s) then Some (u64 (now + grant_ttl_milliseconds (config_ s))) else None)
    nonce (repeat 0 64).

Lemma issue_grant_inv s p now rid id nonce allowed peer pk detail res s' :
  issue_grant s p now rid id nonce allowed peer pk detail = (success res, s') ->
  exists generation g p',
    profile_password_generation p = success generation /\
    sign_signed_trust_grant (draft_grant s p now rid nonce allowed peer generation) (identity (config_ s)) = success g /\
    profile_put_trust_grant p (to_record g TrustGrantDirection.issued) = (success tt, p') /\
    res = mkPairingResult id StableStatus.ok (Some g) /\
    s' = audit (with_profile s p') now PairingAuditKind.granted peer detail (Some id) (Some (TrustGrant.grant_id g)).
Proof.
  unfold issue_grant. destruct (profile_password_generation p) as [generation |]; [| congruence].
  destruct (sign_signed_trust_grant _ _) as [g |] eqn:Es; [| congruence].
  destruct (max_identity_public_key_bytes <? _); [congruence |].
  destruct (profile_put_trust_grant p _) as [[[] |] p'] eqn:Ep; [| congruence].
  intros [= <- <-]. by exists generation, g, p'.
Qed.

Lemma sign_grant_inv g i g' :
  sign_signed_trust_grant g i = success g' ->
  g' = with_signature g (signature g') /\ device_id_ i = issuer g /\ validate_signed_trust_grant g = success tt.
Proof.
  unfold sign_signed_trust_grant. intros E. destruct (negb _) eqn:Eid in E; [done |].
  apply negb_false_iff, bytes_eqb_eq in Eid. apply result_bind_success in E as (c & Hc & E).
  apply result_bind_success in E as (sig & _ & [= <-]). split_and!; [done | done |].
  unfold canonical_signed_trust_grant in Hc. by apply result_bind_success in Hc as ([] & ? & _).
Qed.

Lemma normalize_covers requested policy policy_scopes sc :
  normalize_trust_scopes policy = success policy_scopes ->
  sc ∈ allowed_scopes (adjudicate_trust_scopes requested policy_scopes None) <->
  sc ∈ requested /\ exists g, g ∈ policy /\ scope_covered g sc.
Proof.
  intros Hn. assert (Hs := normalize_trust_scopes_spec policy). rewrite Hn in Hs. destruct Hs as (_ & _ & _ & Hel).
  rewrite elem_of_adjudicated. setoid_rewrite Hel. naive_solver.
Qed.

Lemma evaluate_ok_inv s now rid request peer pk res s' :
  evaluate s now rid request peer pk = (success res, s') -> status res = StableStatus.ok ->
  exists p policy verifier ps generation g p',
    profile s = Some p /\ profile_pairing_policy p = success policy /\
    password_pairing_enabled policy = true /\ backoff_blocks s peer now = false /\
    profile_password_verifier p = success (Some verifier) /\
    verify_password (password_utf8 request) verifier = success true /\
    normalize_trust_scopes (default_scopes policy) = success ps /\
    profile_password_generation p = success generation /\
    sign_signed_trust_grant (draft_grant s p now rid (request_nonce request)
      (allowed_scopes (adjudicate_trust_scopes (requested_scopes request) ps None)) peer generation)
      (identity (config_ s)) = success g /\
    profile_put_trust_grant p (to_record g TrustGrantDirection.issued) = (success tt, p') /\
    res = mkPairingResult (request_id request) StableStatus.ok (Some g) /\
    profile s' = Some p' /\ failures_ s' !! peer = None.
Proof.
  intros E Hok. unfold evaluate in E. destruct (profile s) as [p |] eqn:Ep; [| congruence].
  destruct (profile_pairing_policy p) as [policy |] eqn:Epol; [| congruence].
  destruct (negb (password_pairing_enabled policy)) eqn:Een; [injection E as <- <-; discriminate Hok |].
  destruct (backoff_blocks s peer now) eqn:Eb; [injection E as <- <-; discriminate Hok |].
  destruct (profile_password_verifier p) as [[verifier |] |] eqn:Ev; [| injection E as <- <-; discriminate Hok | congruence].
  destruct (verify_password (password_utf8 request) verifier) as [[] |] eqn:Epw;
    [| injection E as <- <-; discriminate Hok | congruence].
  destruct (normalize_trust_scopes (default_scopes policy)) as [ps |] eqn:En; [| congruence].
  destruct (negb (authorized _)); [injection E as <- <-; discriminate Hok |].
  apply issue_grant_inv in E as (generation & g & p' & Hgen & Hsign & Hput & -> & ->). apply negb_false_iff in Een.
  exists p, policy, verifier, ps, generation, g, p'. split_and!; try done. cbn. apply lookup_delete_eq.
Qed.

(** C34. A grant is issued only for the right password, outside the peer's
    backoff, under a policy that allows pairing; it names this device as issuer
    and the peer as subject, carries the request's nonce and exactly the
    requested scopes the policy covers, is stored as issued, and clears the
    peer's failures. *)
Theorem evaluate_grants_soundly s now rid request peer pk res s' :
  evaluate s now rid request peer pk = (success res, s') -> status res = StableStatus.ok ->
  exists p policy verifier g p',
    profile s = Some p /\ profile_pairing_policy p = success policy /\
    password_pairing_enabled policy = true /\ backoff_blocks s peer now = false /\
    profile_password_verifier p = success (Some verifier) /\
    verify_password (password_utf8 request) verifier = success true /\
    res = mkPairingResult (request_id request) StableStatus.ok (Some g) /\
    issuer g = profile_device_id p /\ subject g = peer /\ nonce g = request_nonce request /\
    (forall sc, sc ∈ granted_scopes g <->
       sc ∈ requested_scopes request /\ exists d, d ∈ default_scopes policy /\ scope_covered d sc) /\
    profile_put_trust_grant p (to_record g TrustGrantDirection.issued) = (success tt, p') /\
    profile s' = Some p' /\ failures_ s' !! peer = None.
Proof.
  intros E Hok. destruct (evaluate_ok_inv _ _ _ _ _ _ _ _ E Hok) as
    (p & policy & verifier & ps & generation & g & p' & ? & ? & ? & ? & ? & ? & Hn & _ & Hsign & ? & -> & ? & ?).
  apply sign_grant_inv in Hsign as (Hg & _). exists p, policy, verifier, g, p'.
  split_and!; try done; try (by rewrite Hg). intros sc. rewrite Hg. by apply normalize_covers.
Qed.
End service_facts.

(** ** The failure table *)

Lemma min_entry_spec best rest :
  min_entry best rest ∈ best :: rest /\
  forall e, e ∈ best :: rest ->
    last_failure_unix_milliseconds (min_entry best rest).2 <= last_failure_unix_milliseconds e.2.
Proof.
  revert best. induction rest as [| x rest IH]; intros best; cbn [min_entry].
  { split; [by left |]. intros e He. apply list_elem_of_singleton in He as ->. lia. }
  destruct (Z.ltb_spec (last_failure_unix_milliseconds x.2) (last_failure_unix_milliseconds best.2)) as [Hlt | Hge].
  - destruct (IH x) as [Hin Hle]. split; [by right |]. intros e He.
    apply elem_of_cons in He as [-> | He]; [| by apply Hle].
    etransitivity; [apply (Hle x); by left | lia].
  - destruct (IH best) as [Hin Hle]. split.
    + apply elem_of_cons in Hin as [-> | Hin]; [by left | by right; right].
    + intros e He. apply elem_of_cons in He as [-> | He]; [apply Hle; by left |].
      apply elem_of_cons in He as [-> | He]; [| apply Hle; by right].
      etransitivity; [apply (Hle best); by left | lia].
Qed.

(** All recorded failures happened after the epoch. *)
Definition times_positive (m : gmap (list Z) FailureRecord) : Prop :=
  map_Forall (fun _ r => 0 < last_failure_unix_milliseconds r) m.

Lemma oldest_is_new m peer :
  times_positive m -> m !! peer = None -> oldest_failure (<[peer := mkFailure 0 0]> m) = Some peer.
Proof.
  intros Hpos Hnone. unfold oldest_failure.
  assert (Hin : (peer, mkFailure 0 0) ∈ iterate (<[peer := mkFailure 0 0]> m))
    by (apply elem_of_iterate; apply lookup_insert_eq).
  destruct (iterate (<[peer := mkFailure 0 0]> m)) as [| x rest] eqn:Ei; [by apply not_elem_of_nil in Hin |].
  destruct (min_entry_spec x rest) as [Hmin Hle]. specialize (Hle _ Hin). cbn in Hle.
  destruct (min_entry x rest) as [q r]. cbn in *. f_equal.
  destruct (decide (q = peer)) as [| Hne]; [done |].
  rewrite <- Ei in Hmin. apply elem_of_iterate in Hmin. rewrite lookup_insert_ne in Hmin by done.
  specialize (Hpos _ _ Hmin). cbn in Hpos. lia.
Qed.

(** The eviction always picks the entry that was just made, and makes it again. *)
Lemma record_failure_table {S} (s : @Service S) peer now :
  times_positive (failures_ s) ->
  failures_ (record_failure s peer now) =
  <[peer := mkFailure (u64 (failures (default (mkFailure 0 0) (failures_ s !! peer)) + 1)) now]> (failures_ s).
Proof.
  intros Hpos. unfold record_failure, try_emplace.
  destruct (failures_ s !! peer) as [r |] eqn:El; cbn [andb].
  - cbn. by rewrite El.
  - destruct (failure_table_capacity (config_ s) <? _).
    + rewrite oldest_is_new, lookup_delete_eq by done. cbn. rewrite insert_delete_eq, lookup_insert_eq.
      cbn. by rewrite !insert_insert_eq.
    + cbn. rewrite lookup_insert_eq. cbn. apply insert_insert_eq.
Qed.

(** The failure table is not bounded by its capacity: the entry to evict is
    searched after the new source has been entered with time zero, so the new
    source is what is found, erased and entered again, and the table grows by
    one with every source that fails, whatever [failure_table_capacity] says. *)
Theorem failure_table_unbounded {S} (config : PairingServiceConfig) (p : option S) (peers : list (list Z)) (now : Z) :
  NoDup peers -> 0 < now ->
  tracked_failure_sources (foldl (fun s peer => record_failure s peer now) (new_service config p) peers) = zlen peers.
Proof.
  intros Hnd Hnow.
  assert (Hgen : forall (s : @Service S), times_positive (failures_ s) ->
    (forall peer, peer ∈ peers -> failures_ s !! peer = None) ->
    tracked_failure_sources (foldl (fun s peer => record_failure s peer now) s peers) =
    tracked_failure_sources s + zlen peers).
  { induction Hnd as [| peer peers Hni Hnd IH]; intros s Hpos Hnew; cbn [foldl]; [rewrite zlen_nil; lia |].
    assert (Ht := record_failure_table s peer now Hpos).
    rewrite IH, zlen_cons.
    - unfold tracked_failure_sources. rewrite Ht, msize_insert_new by (apply Hnew; by left). lia.
    - rewrite Ht. by apply map_Forall_insert_2.
    - intros q Hq. rewrite Ht, lookup_insert_ne by (by intros ->). apply Hnew. by right. }
  rewrite Hgen; [done | apply map_Forall_empty | done].
Qed.

Definition sample_config : PairingServiceConfig :=
  mkConfig (mkIdentityKeyPair (repeat 1 32) (repeat 2 32) (repeat 3 64)) 0 3 1000 60000 2 true.

Lemma failure_table_unbounded_witness :
  failure_table_capacity sample_config = 2 /\
  tracked_failure_sources
    (foldl (fun s peer => record_failure s peer 1000) (new_service (S := unit) sample_config None)
       [[1]; [2]; [3]; [4]; [5]]) = 5.
Proof.
  split; [reflexivity |].
  apply (failure_table_unbounded sample_config None [[1]; [2]; [3]; [4]; [5]] 1000); [| lia].
  refine (bool_decide_eq_true_1 (NoDup _) _). vm_compute. reflexivity.
Defined.

(** ** Backoff *)

(** The values of a clamped configuration. *)
Definition config_typed (c : PairingServiceConfig) : Prop :=
  1 <= failure_threshold c < 2 ^ 64 /\ 1 <= backoff_base c <= backoff_max c /\ backoff_max c < 2 ^ 63.

Lemma clamp_config_typed c :
  0 <= failure_threshold c < 2 ^ 64 -> backoff_base c < 2 ^ 63 -> backoff_max c < 2 ^ 63 ->
  config_typed (clamp_config c).
Proof.
  intros H1 H2 H3. unfold config_typed, clamp_config. cbn.
  destruct (Z.eqb_spec (failure_threshold c) 0), (Z.leb_spec (backoff_base c) 0); cbn;
    destruct (Z.ltb_spec (backoff_max c) 1000), (Z.ltb_spec (backoff_max c) (backoff_base c)); lia.
Qed.

(** The wait after so many failures: the base doubled per failure over the
    threshold, sixteen times at most, and capped. *)
Definition backoff_wait (c : PairingServiceConfig) (count : Z) : Z :=
  Z.min (backoff_base c * 2 ^ Z.min (count - failure_threshold c) 16) (backoff_max c).

Lemma wait_loop_spec n w : 0 < w <= u64_max -> wait_loop n w = Z.min (w * 2 ^ Z.of_nat n) u64_max.
Proof.
  unfold u64_max. revert w. induction n as [| n IH]; intros w Hw; cbn [wait_loop].
  { change (2 ^ Z.of_nat 0) with 1. lia. }
  assert (Hp : 2 ^ Z.of_nat (S n) = 2 * 2 ^ Z.of_nat n) by (rewrite Nat2Z.inj_succ, Z.pow_succ_r; lia).
  assert (0 < 2 ^ Z.of_nat n) by (apply Z.pow_pos_nonneg; lia). rewrite Hp. unfold u64_max.
  change ((2 ^ 64 - 1) / 2) with (2 ^ 63 - 1). destruct (Z.ltb_spec (2 ^ 63 - 1) w); [nia |].
  unfold u64. rewrite Z.mod_small by lia. rewrite IH by lia. f_equal. lia.
Qed.

Lemma backoff_blocks_spec {S} (s : @Service S) peer now r :
  config_typed (config_ s) -> failures_ s !! peer = Some r ->
  0 <= last_failure_unix_milliseconds r < 2 ^ 63 ->
  backoff_blocks s peer now = true <->
  failure_threshold (config_ s) <= failures r /\
  now < last_failure_unix_milliseconds r + backoff_wait (config_ s) (failures r).
Proof.
  intros ((Ht1 & Ht2) & (Hb1 & Hb2) & Hm) Hl Hlast. unfold backoff_blocks. rewrite Hl.
  destruct (Z.ltb_spec (failures r) (failure_threshold (config_ s))) as [Hlt | Hge]; [split; [done | lia] |].
  set (e := Z.min (failures r - failure_threshold (config_ s)) 16).
  assert (He : 0 <= e <= 16) by lia.
  assert (Hub : u64 (backoff_base (config_ s)) = backoff_base (config_ s)) by (apply Z.mod_small; lia).
  assert (Hum : u64 (backoff_max (config_ s)) = backoff_max (config_ s)) by (apply Z.mod_small; lia).
  rewrite Hub, Hum.
  rewrite wait_loop_spec by (unfold u64_max; lia). rewrite Z2Nat.id by lia.
  assert (Hw : Z.min (Z.min (backoff_base (config_ s) * 2 ^ e) u64_max) (backoff_max (config_ s)) =
    backoff_wait (config_ s) (failures r)) by (unfold backoff_wait, u64_max; fold e; lia).
  rewrite Hw. assert (0 < 2 ^ e) by (apply Z.pow_pos_nonneg; lia).
  assert (0 <= backoff_wait (config_ s) (failures r) < 2 ^ 63) by (unfold backoff_wait; fold e; nia).
  unfold u64. rewrite Z.mod_small by lia. rewrite Z.ltb_lt. tauto.
Qed.

Section guesses.
Context {S : Type} `{ProfileOps S} `{Sodium} `{PasswordHash}.
Implicit Types (s : @Service S) (p : S).

(** What the peer is told: its password was wrong, it has to wait, or something else. *)
Inductive Answer : Type := Wrong | Wait | Other.

Definition answer_of (r : Result PairingResultBody) : Answer :=
  match r with
  | success res =>
      if bool_decide (status res = StableStatus.unauthenticated) then Wrong
      else if bool_decide (status res = StableStatus.resource_exhausted) then Wait
      else Other
  | failure _ => Other
  end.

Lemma issue_grant_frame s p now rid id nonce allowed peer pk detail :
  let s' := (issue_grant s p now rid id nonce allowed peer pk detail).2 in
  config_ s' = config_ s /\ failures_ s' = failures_ s.
Proof.
  unfold issue_grant. destruct (profile_password_generation p) as [g |]; [| done].
  destruct (sign_signed_trust_grant _ _) as [sg |]; [| done].
  destruct (max_identity_public_key_bytes <? _); [done |].
  by destruct (profile_put_trust_grant p _) as [[[] |] p'].
Qed.

Lemma issue_grant_answer s p now rid id nonce allowed peer pk detail :
  answer_of (issue_grant s p now rid id nonce allowed peer pk detail).1 = Other.
Proof.
  unfold issue_grant. destruct (profile_password_generation p) as [g |]; [| done].
  destruct (sign_signed_trust_grant _ _) as [sg |]; [| done].
  destruct (max_identity_public_key_bytes <? _); [done |].
  by destruct (profile_put_trust_grant p _) as [[[] |] p'].
Qed.

(** What a call does to the failure table and to the configuration, by its answer. *)
Lemma evaluate_frame s now rid request peer pk :
  let '(r, s') := evaluate s now rid request peer pk in
  config_ s' = config_ s /\
  match answer_of r with
  | Wrong => failures_ s' = failures_ (record_failure s peer now)
  | Wait => failures_ s' = failures_ s
  | Other => failures_ s' = failures_ s \/ failures_ s' = delete peer (failures_ s)
  end.
Proof.
  unfold evaluate. destruct (profile s) as [p |] eqn:Ep; [| split; [done | by left]].
  destruct (profile_pairing_policy p) as [policy |]; [| split; [done | by left]].
  destruct (password_pairing_enabled policy); cbn [negb]; [| split; [done | by left]].
  destruct (backoff_blocks s peer now); [done |].
  destruct (profile_password_verifier p) as [[v |] |]; [| split; [done | by left]..].
  destruct (verify_password (password_utf8 request) v) as [[] |];
    [| cbn; unfold record_failure; cbn [failures_ audit]; by destruct (try_emplace (failures_ s) peer)
     | split; [done | by left]].
  destruct (normalize_trust_scopes (default_scopes policy)) as [ps |]; [| split; [done | by right]].
  destruct (negb (authorized _)); [split; [done | by right] |].
  match goal with |- context [issue_grant ?s ?p ?n ?r ?i ?k ?a ?q ?u ?d] =>
    assert (Hf := issue_grant_frame s p n r i k a q u d); assert (Ha := issue_grant_answer s p n r i k a q u d);
    destruct (issue_grant s p n r i k a q u d) as [res s'] end.
  cbn in Hf, Ha. destruct Hf as [-> ->]. rewrite Ha. split; [done | by right].
Qed.

(** The same request with another password. *)
Definition with_password (request : PairingRequestBody) (password : list Z) : PairingRequestBody :=
  mkPairingRequest (request_id request) (request_nonce request) password (requested_scopes request).

(** A blocked peer learns nothing: the answer and the next state are the same for
    every password, and nothing is granted. *)
Lemma evaluate_blocked s now rid request peer pk :
  backoff_blocks s peer now = true ->
  (forall password, evaluate s now rid (with_password request password) peer pk = evaluate s now rid request peer pk) /\
  (forall res, (evaluate s now rid request peer pk).1 = success res ->
     status res = StableStatus.resource_exhausted \/ status res = StableStatus.permission_denied).
Proof.
  intros Hb. unfold evaluate. destruct (profile s) as [p |]; [| done].
  destruct (profile_pairing_policy p) as [policy |]; [| done].
  destruct (password_pairing_enabled policy); cbn [negb]; [rewrite Hb |];
    (split; [done |]); intros res [= <-]; [by left | by right].
Qed.

(** The calls on a service. *)
Inductive service_call : Type :=
  | CallEvaluate (now : Z) (random_id : list Z) (request : PairingRequestBody) (peer public_key : list Z)
  | CallApprove (now : Z) (random_id : list Z) (request : PairingApprovalRequestBody) (peer public_key : list Z)
  | CallReject (now : Z) (peer id : list Z)
  | CallAccept (now : Z) (result : PairingResultBody) (id nonce issuer public_key : list Z) (requested : list (list Z))
  | CallRevoke (now : Z) (id : list Z)
  | CallRotate (now : Z) (verifier : PasswordVerifier)
  | CallRotateRevoke (now : Z) (verifier : PasswordVerifier).

Definition service_step s (c : service_call) : @Service S :=
  match c with
  | CallEvaluate now rid request peer pk => (evaluate s now rid request peer pk).2
  | CallApprove now rid request peer pk => (approve s now rid request peer pk).2
  | CallReject now peer id => record_approval_rejected s now peer id
  | CallAccept now result id nonce issuer pk requested => (accept_grant s now result id nonce issuer pk requested).2
  | CallRevoke now id => (revoke_grant s now id).2
  | CallRotate now verifier => (rotate_password s now verifier).2
  | CallRotateRevoke now verifier => (rotate_password_and_revoke_grants s now verifier).2
  end.

(** An answer to a pairing request: to whom, when, and what. *)
Definition answered : Type := list Z * Z * Answer.

Definition answer_to s (c : service_call) : list answered :=
  match c with
  | CallEvaluate now rid request peer pk => [(peer, now, answer_of (evaluate s now rid request peer pk).1)]
  | _ => []
  end.

Fixpoint service_run s (calls : list service_call) : @Service S * list answered :=
  match calls with
  | [] => (s, [])
  | c :: calls =>
      let '(s', answers) := service_run (service_step s c) calls in
      (s', answer_to s c ++ answers)
  end.

(** The other calls do not touch the table. *)
Lemma service_step_frame s c :
  config_ (service_step s c) = config_ s /\
  match answer_to s c with
  | [] => failures_ (service_step s c) = failures_ s
  | (peer, now, Wrong) :: _ => failures_ (service_step s c) = failures_ (record_failure s peer now)
  | (peer, now, Wait) :: _ => failures_ (service_step s c) = failures_ s
  | (peer, now, Other) :: _ =>
      failures_ (service_step s c) = failures_ s \/ failures_ (service_step s c) = delete peer (failures_ s)
  end.
Proof.
  destruct c as [now rid request peer pk | now rid request peer pk | now peer id | now result id nonce iss pk req |
    now id | now v | now v]; cbn [service_step answer_to].
  - assert (Hf := evaluate_frame s now rid request peer pk).
    destruct (evaluate s now rid request peer pk) as [r s']. destruct Hf as [Hc Ht]. cbn.
    split; [done |]. by destruct (answer_of r).
  - unfold approve. destruct (profile s) as [p |]; [| done]. destruct (profile_pairing_policy p) as [policy |]; [| done].
    destruct (normalize_trust_scopes _) as [ps |]; [| done]. destruct (negb _); [done |].
    match goal with |- context [issue_grant ?s ?p ?n ?r ?i ?k ?a ?q ?u ?d] =>
      destruct (issue_grant_frame s p n r i k a q u d) as [-> ->] end. done.
  - done.
  - unfold accept_grant. destruct (profile s) as [p |]; [| done]. destruct (grant result) as [g |]; [| done].
    destruct (_ || _); [done |]. destruct (_ || _); [done |].
    destruct (verify_signed_trust_grant _ _ _); [| done]. destruct (negb _); [done |].
    by destruct (profile_put_trust_grant p _) as [[[] |] p'].
  - unfold revoke_grant. destruct (profile s) as [p |]; [| done].
    by destruct (profile_revoke_trust_grant p _ _) as [[[] |] p'].
  - unfold rotate_password. destruct (profile s) as [p |]; [| done].
    destruct (profile_password_generation p); [| done].
    by destruct (profile_set_password_verifier p _ _) as [[[] |] p'].
  - unfold rotate_password_and_revoke_grants, rotate_password. destruct (profile s) as [p |]; [| done].
    destruct (profile_password_generation p); [| done].
    destruct (profile_set_password_verifier p _ _) as [[[] |] p'] eqn:E; [| done]. cbn.
    by destruct (profile_revoke_below_generation p' _ _) as [[? |] p''].
Qed.
End guesses.

(** How often a peer was told that its password is wrong since it was last told
    something other than that or to wait, and when it was told last. *)
Definition log_answer (peer : list Z) (log : Z * Z) (g : answered) : Z * Z :=
  let '(q, t, answer) := g in
  if bytes_eqb q peer then
    match answer with Wrong => (fst log + 1, t) | Wait => log | Other => (0, 0) end
  else log.

Definition failure_log (peer : list Z) (answers : list answered) : Z * Z := foldl (log_answer peer) (0, 0) answers.

Lemma failure_log_snoc peer gs g : failure_log peer (gs ++ [g]) = log_answer peer (failure_log peer gs) g.
Proof. unfold failure_log. by rewrite foldl_app. Qed.

(** The table knows of every wrong password in the log, and of no more than there
    were answers. *)
Definition table_covers (m : gmap (list Z) FailureRecord) (gs : list answered) : Prop :=
  (forall peer, 0 < fst (failure_log peer gs) -> exists r, m !! peer = Some r /\
     fst (failure_log peer gs) <= failures r /\ last_failure_unix_milliseconds r = snd (failure_log peer gs)) /\
  map_Forall (fun _ r => 0 < last_failure_unix_milliseconds r < 2 ^ 63 /\ 0 <= failures r <= zlen gs) m.

Lemma table_covers_more m gs peer now answer :
  table_covers m gs -> answer <> Wrong -> table_covers m (gs ++ [(peer, now, answer)]).
Proof.
  intros [Hl Ht] Hne. split.
  - intros q. rewrite failure_log_snoc. unfold log_answer.
    destruct (bytes_eqb peer q); [| apply Hl]. destruct answer; [done | apply Hl | cbn; lia].
  - intros q r Hq. specialize (Ht q r Hq). cbn in Ht. rewrite zlen_app. change (zlen [_]) with 1. lia.
Qed.

Lemma table_covers_delete m gs peer now :
  table_covers m gs -> table_covers (delete peer m) (gs ++ [(peer, now, Other)]).
Proof.
  intros Hc%(table_covers_more _ _ peer now Other); [| done]. destruct Hc as [Hl Ht]. split; [| by apply map_Forall_delete].
  intros q Hq. destruct (decide (q = peer)) as [-> | Hne].
  - rewrite failure_log_snoc in Hq. unfold log_answer in Hq. rewrite bytes_eqb_refl in Hq. cbn in Hq. lia.
  - destruct (Hl q Hq) as (r & Hr & Hrest). exists r. by rewrite lookup_delete_ne.
Qed.

Lemma table_covers_insert m gs peer now :
  table_covers m gs -> 0 < now < 2 ^ 63 -> zlen gs < 2 ^ 64 - 1 ->
  table_covers (<[peer := mkFailure (u64 (failures (default (mkFailure 0 0) (m !! peer)) + 1)) now]> m)
    (gs ++ [(peer, now, Wrong)]).
Proof.
  intros [Hl Ht] Hnow Hlen. assert (Hz := zlen_nonneg gs).
  assert (Hold : 0 <= failures (default (mkFailure 0 0) (m !! peer)) <= zlen gs).
  { destruct (m !! peer) as [r |] eqn:Hr; cbn; [| lia]. by destruct (Ht peer r Hr). }
  rewrite u64_small by lia. split.
  - intros q. rewrite failure_log_snoc. unfold log_answer. destruct (bytes_eqb peer q) eqn:E.
    + apply bytes_eqb_eq in E as <-. intros _. rewrite lookup_insert_eq. eexists. split; [done |]. cbn. split; [| done].
      destruct (Z.le_gt_cases (fst (failure_log peer gs)) 0) as [| Hpos]; [lia |].
      destruct (Hl peer ltac:(lia)) as (r & -> & Hle & _). cbn. lia.
    + rewrite lookup_insert_ne by (intros ->; by rewrite bytes_eqb_refl in E). apply Hl.
  - rewrite zlen_app. change (zlen [_]) with 1. apply map_Forall_insert_2; [cbn; lia |].
    intros q r Hq. specialize (Ht q r Hq). cbn in Ht. lia.
Qed.

Section guess_rate.
Context {S : Type} `{ProfileOps S} `{Sodium} `{PasswordHash}.
Implicit Types (s : @Service S) (p : S).

(** The wall clock of every call, in milliseconds since the epoch. *)
Definition call_time (c : service_call) : Z :=
  match c with
  | CallEvaluate now _ _ _ _ | CallApprove now _ _ _ _ | CallReject now _ _
  | CallAccept now _ _ _ _ _ _ | CallRevoke now _ | CallRotate now _ | CallRotateRevoke now _ => now
  end.

Lemma table_covers_step s c gs :
  table_covers (failures_ s) gs -> 0 < call_time c < 2 ^ 63 -> zlen gs < 2 ^ 64 - 1 ->
  table_covers (failures_ (service_step s c)) (gs ++ answer_to s c).
Proof.
  intros Hc Hnow Hlen. destruct (service_step_frame s c) as [_ Hf].
  destruct c as [now rid request peer pk | | | | | |]; cbn [answer_to] in *;
    [| rewrite Hf, app_nil_r; exact Hc..].
  destruct (answer_of _).
  - rewrite Hf, record_failure_table by (intros q r Hq; by destruct (proj2 Hc q r Hq) as [[? _] _]).
    by apply table_covers_insert.
  - rewrite Hf. by apply table_covers_more.
  - destruct Hf as [-> | ->]; [by apply table_covers_more | by apply table_covers_delete].
Qed.

Lemma service_run_covers calls s gs s' gs' :
  table_covers (failures_ s) gs -> Forall (fun c => 0 < call_time c < 2 ^ 63) calls ->
  zlen gs + zlen calls < 2 ^ 64 -> service_run s calls = (s', gs') ->
  config_ s' = config_ s /\ table_covers (failures_ s') (gs ++ gs').
Proof.
  intros Hc Htimes. revert s gs s' gs' Hc. induction Htimes as [| c calls Hnow Htimes IH]; intros s gs s' gs' Hc Hlen Hrun; cbn in Hrun.
  { injection Hrun as <- <-. by rewrite app_nil_r. }
  destruct (service_run (service_step s c) calls) as [s2 gs2] eqn:Er. injection Hrun as <- <-.
  rewrite zlen_cons in Hlen. assert (Hzc := zlen_nonneg calls). destruct (service_step_frame s c) as [Hcfg _].
  rewrite app_assoc, <- Hcfg. eapply IH; [apply table_covers_step; [done | done | lia] | | done].
  rewrite zlen_app. assert (zlen (answer_to s c) <= 1) by (destruct c; cbn; done). lia.
Qed.

(** More wrong passwords never shorten the wait. *)
Lemma backoff_wait_mono c n m : config_typed c -> n <= m -> backoff_wait c n <= backoff_wait c m.
Proof.
  intros (_ & Hb & _) Hle. unfold backoff_wait. apply Z.min_le_compat_r, Z.mul_le_mono_nonneg_l; [lia |].
  destruct (Z.le_gt_cases 0 (Z.min (n - failure_threshold c) 16)); [apply Z.pow_le_mono_r; lia |].
  rewrite Z.pow_neg_r by lia. apply Z.pow_nonneg. lia.
Qed.

(** C30. Password guessing is rate limited per source, over any history of calls:
    once a peer has been told [failure_threshold] times that its password is wrong,
    with nothing in between but being told to wait, then until the exponential wait
    counted from the last of these answers is over, [evaluate] gives it the same
    answer and leaves the same state for every password it tries, and grants
    nothing. *)
Theorem guess_rate_limited config (p : option S) calls s answers peer t rid request pk :
  0 <= failure_threshold config < 2 ^ 64 -> backoff_base config < 2 ^ 63 -> backoff_max config < 2 ^ 63 ->
  Forall (fun c => 0 < call_time c < 2 ^ 63) calls -> zlen calls < 2 ^ 64 ->
  service_run (new_service config p) calls = (s, answers) ->
  let c := clamp_config config in
  let '(count, last) := failure_log peer answers in
  failure_threshold c <= count ->
  t < last + Z.min (backoff_base c * 2 ^ Z.min (count - failure_threshold c) 16) (backoff_max c) ->
  (forall password, evaluate s t rid (with_password request password) peer pk = evaluate s t rid request peer pk) /\
  (forall res, (evaluate s t rid request peer pk).1 = success res ->
     status res = StableStatus.resource_exhausted \/ status res = StableStatus.permission_denied).
Proof.
  intros H1' H2' H3' Htimes Hlen Hrun c. assert (Hty := clamp_config_typed config H1' H2' H3').
  destruct (service_run_covers calls (new_service config p) [] s answers) as [Hcfg [Hl Ht]]; try done.
  cbn [app config_ new_service] in *. specialize (Hl peer). destruct (failure_log peer answers) as [count last]. cbn [fst snd] in Hl.
  intros Hthr Hwait. destruct Hl as (r & Hr & Hle & Hlast); [destruct Hty as [[? _] _]; unfold c in Hthr; lia |].
  apply evaluate_blocked. rewrite <- Hcfg in Hty. destruct (Ht peer r Hr) as [Htime _].
  apply (backoff_blocks_spec s peer t r Hty Hr); [lia |]. rewrite Hcfg, Hlast.
  rewrite Hcfg in Hty. assert (Hm := backoff_wait_mono _ _ _ Hty Hle). unfold backoff_wait in Hm at 1. fold c in Hm |- *. lia.
Qed.
End guess_rate.

(** ** The initiator's side *)

Section acceptance.
Context {S : Type} `{ProfileOps S} `{Sodium}.
Implicit Types (s : @Service S) (p : S).

Lemma accept_grant_inv s now result id nonce_ issuer_ pk requested s' :
  accept_grant s now result id nonce_ issuer_ pk requested = (success tt, s') ->
  exists p g p',
    profile s = Some p /\ grant result = Some g /\ result_request_id result = id /\ nonce g = nonce_ /\
    issuer g = issuer_ /\ subject g = profile_device_id p /\
    derive_device_id pk = success issuer_ /\
    (exists b, canonical_signed_trust_grant g = success b /\ crypto_sign_verify_detached (signature g) b pk = true) /\
    (forall sc, sc ∈ granted_scopes g -> sc ∈ requested) /\
    profile_put_trust_grant p (to_record g TrustGrantDirection.received) = (success tt, p') /\ profile s' = Some p'.
Proof.
  unfold accept_grant. destruct (profile s) as [p |] eqn:Ep; [| congruence].
  destruct (grant result) as [g |]; [| congruence].
  destruct (_ || _) eqn:E1; [congruence |]. destruct (negb (bytes_eqb (issuer g) issuer_) || _) eqn:E2; [congruence |].
  destruct (verify_signed_trust_grant g pk now) as [[] |] eqn:Ev; [| congruence].
  destruct (forallb _ (granted_scopes g)) eqn:Es; cbn [negb]; [| congruence].
  destruct (profile_put_trust_grant p _) as [[[] |] p'] eqn:Eput; [| congruence]. intros [= <-].
  apply orb_false_iff in E1 as [H1'%negb_false_iff%bytes_eqb_eq H2'%negb_false_iff%bytes_eqb_eq].
  apply orb_false_iff in E2 as [H3'%negb_false_iff%bytes_eqb_eq H4'%negb_false_iff%bytes_eqb_eq].
  apply verify_grant_inv in Ev as (b & _ & Hb & Hsig & Hd & _). rewrite H3' in Hd.
  exists p, g, p'. split_and!; try done; [by exists b |].
  intros sc Hsc. rewrite forallb_forall in Es. apply list_elem_of_In, Es, existsb_exists in Hsc as (q & Hq & E).
  apply bytes_eqb_eq in E as ->. by apply list_elem_of_In.
Qed.
(** An accepted grant is bound to what was asked: it answers the pending
    request and nonce, was issued by the device the session authenticated to
    this device, is signed by the key of that device, carries no scope that was
    not requested, and is what the profile stores as received. *)
Theorem accept_grant_sound s now result id nonce_ issuer_ pk requested s' :
  accept_grant s now result id nonce_ issuer_ pk requested = (success tt, s') ->
  exists p g p',
    profile s = Some p /\ grant result = Some g /\ result_request_id result = id /\ nonce g = nonce_ /\
    issuer g = issuer_ /\ subject g = profile_device_id p /\
    derive_device_id pk = success issuer_ /\
    (exists b, canonical_signed_trust_grant g = success b /\ crypto_sign_verify_detached (signature g) b pk = true) /\
    (forall sc, sc ∈ granted_scopes g -> sc ∈ requested) /\
    profile_put_trust_grant p (to_record g TrustGrantDirection.received) = (success tt, p') /\ profile s' = Some p'.
Proof. apply accept_grant_inv. Qed.
End acceptance.

(** ** Both sides together *)

Lemma valid_scope_same s : valid_scope s = is_valid_trust_scope s.
Proof. done. Qed.

Lemma validate_grant_facts g :
  validate_signed_trust_grant g = success tt ->
  all_zero (TrustGrant.grant_id g) = false /\ all_zero (issuer g) = false /\ all_zero (subject g) = false /\
  issuer g <> subject g /\ TrustGrant.password_generation g <> 0 /\ issued_unix_milliseconds g <> 0 /\
  1 <= zlen (granted_scopes g) <= 256 /\ forallb is_valid_trust_scope (granted_scopes g) = true.
Proof.
  intros Hv. destruct (validate_grant_scopes g Hv) as [Hn Hs]. unfold validate_signed_trust_grant in Hv.
  destruct (all_zero (TrustGrant.grant_id g)); [done |]. destruct (all_zero (issuer g)); [done |].
  destruct (all_zero (subject g)); [done |]. destruct (bytes_eqb (issuer g) (subject g)) eqn:E; [done |].
  cbn [orb] in Hv. destruct (_ || _) eqn:Eg in Hv; [done |]. split_and!; try done; try lia.
  intros Heq. by rewrite Heq, bytes_eqb_refl in E.
Qed.

Lemma with_signature_fields g sig :
  TrustGrant.grant_id (with_signature g sig) = TrustGrant.grant_id g /\ issuer (with_signature g sig) = issuer g /\
  subject (with_signature g sig) = subject g /\ granted_scopes (with_signature g sig) = granted_scopes g /\
  nonce (with_signature g sig) = nonce g.
Proof. done. Qed.

Lemma signed_grant_typed `{SodiumLaws} g i g' :
  identity_ok i -> grant_typed g -> sign_signed_trust_grant g i = success g' -> grant_typed g'.
Proof.
  intros Hi (T1 & T2 & T3 & T5 & T6 & T7 & T8 & _) E. unfold sign_signed_trust_grant in E.
  destruct (negb _); [done |]. apply result_bind_success in E as (c & _ & E).
  apply result_bind_success in E as (sig & Hs & [= <-]).
  destruct (identity_sign_verify _ _ _ Hi Hs) as (_ & Hb & Hl).
  exact (conj T1 (conj T2 (conj T3 (conj T5 (conj T6 (conj T7 (conj T8 (conj Hb Hl)))))))).
Qed.

(** A query that lists a grant makes [authorize] trust its scopes. *)
Lemma authorize_listed {S} `{ProfileOps S} (s : @Service S) p peer now rs r a :
  profile s = Some p -> profile_trust_grants_for_peer p peer now = success rs -> r ∈ rs -> scopes r <> [] ->
  authorize s peer now = success a ->
  trusted a = true /\ forall sc, sc ∈ scopes r -> sc ∈ authorized_scopes a.
Proof.
  intros Hp Hq Hr Hne E. unfold authorize in E. rewrite Hp in E. apply result_bind_success in E as (policy & _ & E).
  rewrite Hq in E. cbn [result_bind] in E.
  assert (Hin : forall sc, sc ∈ scopes r -> sc ∈ concat (map scopes rs)).
  { intros sc Hsc. apply list_elem_of_In, in_concat. exists (scopes r). split; [| by apply list_elem_of_In].
    by apply list_elem_of_In, list_elem_of_fmap_2. }
  destruct (concat (map scopes rs)) as [| x l] eqn:Ec.
  { destruct (scopes r) as [| sc rest]; [done |]. by destruct (not_elem_of_nil sc (Hin sc ltac:(by left))). }
  apply result_bind_success in E as (norm & Hn & [= <-]). cbn. split; [done |]. intros sc Hsc.
  assert (Hs := normalize_trust_scopes_spec (x :: l)). rewrite Hn in Hs. destruct Hs as (_ & _ & _ & Hel).
  apply Hel. by apply Hin.
Qed.

Lemma stored_scopes r sc : sc ∈ scopes (stored r) <-> sc ∈ scopes r.
Proof. cbn. rewrite unique_adjacent_elem. by rewrite (merge_sort_Permutation scope_le (scopes r)). Qed.

(** A live grant that is stored, in either direction, is listed for the other device. *)
Lemma put_then_listed {S} `{ProfileLaws S} p r p' peer now :
  profile_ok p -> record_typed r -> 0 <= now < 2 ^ 63 ->
  profile_put_trust_grant p r = (success tt, p') -> concerns (profile_device_id p) peer r -> live now r ->
  all_zero peer = false -> peer <> profile_device_id p ->
  exists rs, profile_trust_grants_for_peer p' peer now = success rs /\ stored r ∈ rs.
Proof.
  intros Hok Ht Hnow Hput Hc Hlive Hz Hdev.
  destruct (put_grant_frame _ _ _ Hok Ht Hput) as (Hok' & Hdev' & _).
  destruct (grants_for_peer_total p' peer now Hok' Hz) as (rs' & Hrs'); [by rewrite Hdev' |].
  destruct (put_grant_listed _ _ _ _ _ _ Hok Ht Hnow Hput Hrs') as (rs & _ & Hin).
  exists rs'. split; [done |]. apply Hin. by left.
Qed.

Lemma stored_scopes_nonempty r : scopes r <> [] -> scopes (stored r) <> [].
Proof.
  intros Hne Hnil. destruct (scopes r) as [| sc rest] eqn:Es; [done |].
  assert (Hsc : sc ∈ scopes (stored r)) by (apply stored_scopes; rewrite Es; by left).
  rewrite Hnil in Hsc. by apply not_elem_of_nil in Hsc.
Qed.

(** Once a live grant is stored, in either direction, [authorize] trusts the
    other device with its scopes. *)
Lemma put_then_authorize {S} `{ProfileLaws S} (s : @Service S) p r p' peer now a :
  profile s = Some p' -> profile_ok p -> record_typed r -> 0 <= now < 2 ^ 63 ->
  profile_put_trust_grant p r = (success tt, p') -> concerns (profile_device_id p) peer r -> live now r ->
  scopes r <> [] -> all_zero peer = false -> peer <> profile_device_id p ->
  authorize s peer now = success a -> trusted a = true /\ forall sc, sc ∈ scopes r -> sc ∈ authorized_scopes a.
Proof.
  intros Hs Hok Ht Hnow Hput Hc Hlive Hne Hz Hdev Ha.
  destruct (put_then_listed _ _ _ _ _ Hok Ht Hnow Hput Hc Hlive Hz Hdev) as (rs & Hrs & Hr).
  destruct (authorize_listed s p' peer now rs _ a Hs Hrs Hr) as [Htr Hsc]; [by apply stored_scopes_nonempty | done |].
  split; [done |]. intros sc Hin'. by apply Hsc, stored_scopes.
Qed.

(** [authorize] answers as long as the listed grants carry at most 256 scopes together. *)
Lemma authorize_total {S} `{ProfileLaws S} (s : @Service S) p policy peer now rs :
  profile s = Some p -> profile_pairing_policy p = success policy ->
  profile_trust_grants_for_peer p peer now = success rs -> zlen (concat (map scopes rs)) <= max_trust_scopes ->
  exists a, authorize s peer now = success a.
Proof.
  intros Hp Hpol Hrs Hlen. assert (Hv := grants_for_peer_scopes _ _ _ _ Hrs).
  unfold authorize. rewrite Hp, Hpol. cbn [result_bind]. rewrite Hrs. cbn [result_bind].
  assert (Hn := normalize_trust_scopes_spec (concat (map scopes rs))).
  destruct (normalize_trust_scopes (concat (map scopes rs))) as [norm |] eqn:En.
  - destruct (concat (map scopes rs)); [by eexists |]. by eexists.
  - exfalso. destruct Hn as [Hn | (sc & Hsc & Hbad)]; [lia |].
    apply list_elem_of_In, in_concat in Hsc as (l & Hl & Hsc). apply in_map_iff in Hl as (r & <- & Hr).
    rewrite Forall_forall in Hv. assert (Hvr := Hv r ltac:(by apply list_elem_of_In)). cbn in Hvr.
    rewrite forallb_forall in Hvr. specialize (Hvr sc Hsc). rewrite valid_scope_same in Hvr. congruence.
Qed.

(** A grant that verifies and stays within the request is accepted. *)
Lemma accept_valid_grant {S} `{ProfileLaws S} `{Sodium} (s : @Service S) p g id now pk requested :
  profile s = Some p -> profile_ok p -> grant_typed g -> validate_signed_trust_grant g = success tt ->
  subject g = profile_device_id p -> verify_signed_trust_grant g pk now = success tt ->
  (forall sc, sc ∈ granted_scopes g -> sc ∈ requested) ->
  exists s' p', accept_grant s now (mkPairingResult id StableStatus.ok (Some g)) id (nonce g) (issuer g) pk requested =
    (success tt, s') /\ profile s' = Some p' /\
    profile_put_trust_grant p (to_record g TrustGrantDirection.received) = (success tt, p').
Proof.
  intros Hp Hok Ht Hval Hsub Hver Hsc.
  destruct (validate_grant_facts g Hval) as (V1 & V2 & V3 & V4 & V5 & V6 & V7 & V8).
  destruct (put_grant_accepts p (to_record g TrustGrantDirection.received) Hok V1 V2 V3 V5 V6) as (p' & Hput);
    [cbn; destruct Ht as (_ & _ & _ & _ & _ & _ & _ & _ & ->); lia | done | done |].
  eexists _, p'. unfold accept_grant. rewrite Hp. cbn [grant result_request_id].
  rewrite Hsub, !bytes_eqb_refl. cbn [negb orb]. rewrite Hver.
  assert (Hall : forallb (fun scope => existsb (bytes_eqb scope) requested) (granted_scopes g) = true).
  { apply forallb_forall. intros sc Hin%list_elem_of_In. apply Hsc in Hin. apply existsb_exists. exists sc.
    split; [by apply list_elem_of_In | apply bytes_eqb_refl]. }
  rewrite Hall. cbn [negb]. rewrite Hput. done.
Qed.

Section pairing.
Context {SA SB : Type} `{ProfileLaws SA} `{ProfileLaws SB} `{SodiumLaws} `{PasswordHash}.

(** The target [B] and the initiator [A], and the clocks of the exchange: [now]
    at [B], [now_a] at [A], the lifetime of grants at most five minutes. *)
Record pairing_setting (sA : @Service SA) (sB : @Service SB) (pA : SA) (pB : SB)
    (request : PairingRequestBody) (rid : list Z) (now now_a : Z) : Prop := {
  set_pa : profile sA = Some pA;
  set_pb : profile sB = Some pB;
  set_oka : profile_ok pA;
  set_okb : profile_ok pB;
  set_identity : identity_ok (identity (config_ sB));
  set_device_a : sized 32 (profile_device_id pA);
  set_device_b : sized 32 (profile_device_id pB);
  set_request : request_typed request;
  set_rid : sized 16 rid;
  set_generation : forall n, profile_password_generation pB = success n -> 0 <= n < 2 ^ 63;
  set_now : 0 <= now < 2 ^ 62;
  set_now_a : 0 <= now_a < 2 ^ 62;
  set_ttl : 0 <= grant_ttl_milliseconds (config_ sB) < 2 ^ 62;
  set_window : 0 < grant_ttl_milliseconds (config_ sB) ->
    now_a - 30000 <= now + grant_ttl_milliseconds (config_ sB) <= now_a + 300000;
}.

Lemma draft_grant_typed sA sB pA pB request rid now now_a allowed n :
  pairing_setting sA sB pA pB request rid now now_a ->
  profile_password_generation pB = success n ->
  let g := draft_grant sB pB now rid (request_nonce request) allowed (profile_device_id pA) n in
  grant_typed g /\ expiry_in_window g now_a /\
  (forall e, expires_unix_milliseconds g = Some e -> e = now + grant_ttl_milliseconds (config_ sB)).
Proof.
  intros [] Hn g. destruct (set_generation0 n Hn). destruct set_request0 as (_ & Hnonce & _).
  assert (He : forall e, expires_unix_milliseconds g = Some e -> e = now + grant_ttl_milliseconds (config_ sB) /\
    0 < grant_ttl_milliseconds (config_ sB)).
  { unfold g, draft_grant. cbn. intros e. destruct (Z.ltb_spec 0 (grant_ttl_milliseconds (config_ sB))); [| done].
    intros [= <-]. split; [| done]. apply Z.mod_small. lia. }
  split_and!.
  - unfold grant_typed, g, draft_grant, is_u64 in *. cbn.
    split_and!; try done; try (apply set_rid0 || apply set_device_b0 || apply set_device_a0 || apply Hnonce || lia).
    + intros e E. destruct (He e E) as [-> _]. lia.
    + by apply bytes_ok_decide.
  - intros e E. destruct (He e E) as [-> Hpos].
    unfold maximum_expiry_clock_skew_milliseconds, maximum_signed_validity_milliseconds. specialize (set_window0 Hpos). lia.
  - intros e E. by destruct (He e E).
Qed.

(** The grant [B] drew up, as both sides store it. *)
Lemma drafted_record_typed sA sB pA pB request rid now now_a allowed n sig d :
  pairing_setting sA sB pA pB request rid now now_a -> profile_password_generation pB = success n ->
  record_typed (to_record (with_signature
    (draft_grant sB pB now rid (request_nonce request) allowed (profile_device_id pA) n) sig) d).
Proof.
  intros Hset Hn. destruct (draft_grant_typed _ _ _ _ _ _ _ _ allowed n Hset Hn) as (_ & _ & Hexp).
  destruct (set_generation _ _ _ _ _ _ _ _ Hset n Hn), (set_now _ _ _ _ _ _ _ _ Hset), (set_ttl _ _ _ _ _ _ _ _ Hset).
  split_and!; cbn; try lia. intros e He. rewrite (Hexp e He). lia.
Qed.

Lemma drafted_live sA sB pA pB request rid now now_a allowed n sig d now_b :
  pairing_setting sA sB pA pB request rid now now_a -> profile_password_generation pB = success n ->
  (0 < grant_ttl_milliseconds (config_ sB) -> now_b < now + grant_ttl_milliseconds (config_ sB)) ->
  live now_b (to_record (with_signature
    (draft_grant sB pB now rid (request_nonce request) allowed (profile_device_id pA) n) sig) d).
Proof.
  intros Hset Hn Hlive. destruct (draft_grant_typed _ _ _ _ _ _ _ _ allowed n Hset Hn) as (_ & _ & Hexp).
  split; [done |]. intros e He. cbn in He. rewrite (Hexp e He). apply Hlive. unfold draft_grant in He. cbn in He.
  destruct (Z.ltb_spec 0 (grant_ttl_milliseconds (config_ sB))); [done | discriminate He].
Qed.

(** C4. Pairing composes, for grants without expiry or with a lifetime that keeps the
    expiry within the five minutes [A] accepts. When the target [B] answers a request
    of [A] with [ok], the answer carries a grant; the answer is encoded and parsed
    back (the request id is not zero and the granted scopes leave a kilobyte of the
    payload for the rest); [A] accepts the grant, and while it lives [A] lists it for
    [B]; and while it lives [B] lists it for [A], and authorizes [A] with every scope
    of it as long as the listed grants carry at most 256 scopes together. *)
Theorem pairing_end_to_end sA sB pA pB request rid now now_a pk res sB' :
  pairing_setting sA sB pA pB request rid now now_a ->
  evaluate sB now rid request (profile_device_id pA) pk = (success res, sB') -> status res = StableStatus.ok ->
  exists g pB' sA' pA', grant res = Some g /\ profile sB' = Some pB' /\
  (all_zero (request_id request) = false ->
   zlen (concat (granted_scopes g)) + 20 * zlen (granted_scopes g) <= 7000 ->
   exists wire, encode_pairing_result res = success wire /\ parse_pairing_result wire = success res) /\
  accept_grant sA now_a res (request_id request) (request_nonce request) (profile_device_id pB)
    (public_key_ (identity (config_ sB))) (requested_scopes request) = (success tt, sA') /\
  profile sA' = Some pA' /\
  forall at_time, 0 <= at_time < 2 ^ 62 ->
    (0 < grant_ttl_milliseconds (config_ sB) -> at_time < now + grant_ttl_milliseconds (config_ sB)) ->
    (exists rs, profile_trust_grants_for_peer pA' (profile_device_id pB) at_time = success rs /\
       stored (to_record g TrustGrantDirection.received) ∈ rs) /\
    (exists rs, profile_trust_grants_for_peer pB' (profile_device_id pA) at_time = success rs /\
       stored (to_record g TrustGrantDirection.issued) ∈ rs /\
       (zlen (concat (map scopes rs)) <= max_trust_scopes ->
        exists a, authorize sB' (profile_device_id pA) at_time = success a /\ trusted a = true /\
          forall sc, sc ∈ granted_scopes g -> sc ∈ authorized_scopes a)).
Proof.
  intros Hset E Hok. destruct (evaluate_ok_inv _ _ _ _ _ _ _ _ E Hok) as
    (p & policy & v & ps & n & g & pB' & Hp & Hpol & _ & _ & _ & _ & Hn & Hgen & Hsign & Hput & -> & Hp' & _).
  assert (p = pB) as -> by (rewrite (set_pb _ _ _ _ _ _ _ _ Hset) in Hp; congruence).
  set (allowed := allowed_scopes (adjudicate_trust_scopes (requested_scopes request) ps None)) in *.
  destruct (draft_grant_typed _ _ _ _ _ _ _ _ allowed n Hset Hgen) as (Ht & Hwin & _).
  destruct (sign_grant_verifies _ (identity (config_ sB)) g now_a Ht (set_identity _ _ _ _ _ _ _ _ Hset)) as [Hver Hg];
    [destruct (set_now_a _ _ _ _ _ _ _ _ Hset); unfold is_u64; lia | done | done |].
  destruct (sign_grant_inv _ _ _ Hsign) as (_ & Hid & Hval).
  assert (Hgt := signed_grant_typed _ _ g (set_identity _ _ _ _ _ _ _ _ Hset) Ht Hsign).
  assert (Hgv : validate_signed_trust_grant g = success tt) by (rewrite Hg; exact Hval).
  assert (Hf : issuer g = profile_device_id pB /\ subject g = profile_device_id pA /\ nonce g = request_nonce request /\
    granted_scopes g = allowed) by (by rewrite Hg).
  destruct Hf as (F1 & F2 & F3 & Hgs). destruct (validate_grant_facts g Hgv) as (V1 & V2 & V3 & V4 & V5 & V6 & V7 & V8).
  assert (Hacc := accept_valid_grant sA pA g (request_id request) now_a (public_key_ (identity (config_ sB)))
    (requested_scopes request) (set_pa _ _ _ _ _ _ _ _ Hset) (set_oka _ _ _ _ _ _ _ _ Hset) Hgt Hgv F2 Hver).
  destruct Hacc as (sA' & pA' & Hacc & HpA' & HputA).
  { intros sc Hsc. rewrite Hgs in Hsc. by apply elem_of_adjudicated in Hsc as [Hsc _]. }
  rewrite F1, F3 in Hacc. exists g, pB', sA', pA'. split_and!; [done | done | | done | done |].
  { intros Hz Hroom. destruct (encode_result_total (request_id request) g) as (wire & Hw); try done.
    - apply (set_request _ _ _ _ _ _ _ _ Hset).
    - exists wire. split; [done |]. apply parse_encode_result; [| done]. split; [apply (set_request _ _ _ _ _ _ _ _ Hset) |].
      by intros g' [= <-]. }
  assert (Hne : granted_scopes g <> []) by (intros Hnil; rewrite Hnil, zlen_nil in V7; lia).
  assert (Hrt : forall d, record_typed (to_record g d)) by (intros d; rewrite Hg; by eapply drafted_record_typed).
  intros at_time Hat Hl.
  assert (Hlive : forall d, live at_time (to_record g d)) by (intros d; rewrite Hg; by eapply drafted_live).
  split.
  - apply (put_then_listed pA (to_record g TrustGrantDirection.received) pA'); try done.
    + apply (set_oka _ _ _ _ _ _ _ _ Hset).
    + lia.
    + by rewrite <- F1.
    + rewrite <- F1, <- F2. done.
  - destruct (put_then_listed pB (to_record g TrustGrantDirection.issued) pB' (profile_device_id pA) at_time)
      as (rs & Hrs & Hr); try done.
    + apply (set_okb _ _ _ _ _ _ _ _ Hset).
    + lia.
    + by rewrite <- F2.
    + rewrite <- F1, <- F2. intros Heq. by apply V4.
    + exists rs. split_and!; [done | done |]. intros Hroom.
      destruct (put_grant_frame _ _ _ (set_okb _ _ _ _ _ _ _ _ Hset) (Hrt _) Hput) as (_ & _ & Hpol').
      rewrite Hpol in Hpol'. destruct (authorize_total sB' pB' policy (profile_device_id pA) at_time rs) as (a & Ha); try done.
      destruct (authorize_listed sB' pB' _ at_time rs _ a Hp' Hrs Hr) as [Htr Hsc]; [by apply stored_scopes_nonempty | done |].
      exists a. split_and!; [done | done |]. intros sc Hin. by apply Hsc, stored_scopes.
Qed.
End pairing.

(** ** Direction *)

(** A store without any grant issued to [peer] does not trust it by its own
    account. *)
Lemma received_not_trusted p r at_time peer now :
  map_Forall (fun _ row => row_issued_to p peer row = false) (trust_grants p) ->
  direction r = TrustGrantDirection.received -> all_zero peer = false ->
  is_device_trusted (with_grants p (<[record_grant_id r := record_row r at_time]> (trust_grants p))) peer now =
  success false.
Proof.
  intros Hnone Hd Hz. unfold is_device_trusted. rewrite Hz. f_equal. apply not_true_is_false. intros H.
  apply existsb_exists in H as ([id row] & Hin & Hrow). apply list_elem_of_In, elem_of_map_to_list in Hin.
  apply andb_true_iff in Hrow as [Hrow _]. cbn [trust_grants with_grants] in Hin.
  destruct (decide (id = record_grant_id r)) as [-> | Hne].
  - rewrite lookup_insert_eq in Hin. injection Hin as <-. unfold row_issued_to in Hrow. cbn in Hrow.
    rewrite Hd, bool_decide_eq_false_2 in Hrow by done. done.
  - rewrite lookup_insert_ne in Hin by done. specialize (Hnone id row Hin). cbn in Hnone. unfold row_issued_to in *.
    cbn in Hrow. congruence.
Qed.

(** A received grant authorizes its issuer. After [A] has paired with [B] and
    stored the grant that lets [A] act on [B], [authorize] on [A] trusts [B] with
    the same scopes, although [A] has issued nothing to [B] and its own trust
    store says that [B] is not trusted. *)
Theorem received_grant_authorizes_issuer `{RowOrderLaws} `{Sodium} (s s' : @Service Profile) p g result now id nonce_
    issuer_ pk requested now' a :
  profile s = Some p -> profile_wf p -> grant result = Some g ->
  record_typed (to_record g TrustGrantDirection.received) -> 0 <= now' < 2 ^ 63 ->
  (forall e, expires_unix_milliseconds g = Some e -> now' < e) ->
  map_Forall (fun _ row => row_issued_to p issuer_ row = false) (trust_grants p) ->
  accept_grant s now result id nonce_ issuer_ pk requested = (success tt, s') ->
  authorize s' issuer_ now' = success a ->
  (trusted a = true /\ forall sc, sc ∈ granted_scopes g -> sc ∈ authorized_scopes a) /\
  exists p', profile s' = Some p' /\ is_device_trusted p' issuer_ now' = success false.
Proof.
  intros Hp Hwf Hg Ht Hnow Hlive Hnone Hacc Ha.
  assert (Hval : validate_signed_trust_grant g = success tt).
  { unfold accept_grant in Hacc. rewrite Hp, Hg in Hacc. destruct (_ || _); [congruence |].
    destruct (_ || _) in Hacc; [congruence |]. destruct (verify_signed_trust_grant g pk now) as [[] |] eqn:Ev; [| congruence].
    by apply verify_grant_inv in Ev as (? & ? & _). }
  destruct (accept_grant_inv _ _ _ _ _ _ _ _ _ Hacc) as
    (p0 & g0 & p' & Hp0 & Hg0 & _ & _ & Hiss & Hsub & _ & _ & _ & Hput & Hp').
  rewrite Hp in Hp0. rewrite Hg in Hg0. injection Hp0 as <-. injection Hg0 as <-.
  destruct (validate_grant_facts g Hval) as (_ & V2 & _ & V4 & _ & _ & V7 & _).
  split.
  - apply (put_then_authorize s' p (to_record g TrustGrantDirection.received) p' issuer_ now' a); try done.
    + cbn. intros Hnil. rewrite Hnil, zlen_nil in V7. lia.
    + by rewrite <- Hiss.
    + rewrite <- Hiss. intros Heq. apply V4. by rewrite Heq, Hsub.
  - exists p'. split; [done |]. apply put_trust_grant_inv in Hput as (at_time & -> & _).
    apply (received_not_trusted p (to_record g TrustGrantDirection.received)); [done | done |]. by rewrite <- Hiss.
Qed.

(** ** Too many scopes *)

(** [n] distinct scopes. *)
Definition many_scopes (n : nat) : list (list Z) :=
  map (fun i => bytes_of_string "file:" ++ [48 + Z.of_nat i / 100; 48 + Z.of_nat i / 10 mod 10; 48 + Z.of_nat i mod 10])
    (seq 0 n).

Definition wide_record (id : Z) : TrustGrantRecord :=
  mkTrustGrantRecord (repeat id 16) TrustGrantDirection.issued sample_device sample_peer (many_scopes 129) 1 1000 None
    (repeat 3 64) false.

Definition wide_policy : PairingPolicy := mkPairingPolicy 1 true true [bytes_of_string "file:*"].

Definition wide_profile (grants : list TrustGrantRecord) : Profile :=
  store_run (mkProfile sample_device None None ∅) (OpPolicy wide_policy :: map OpPut grants).

(** Pairing again can lock a peer out: [authorize] counts the scopes of all
    grants before it removes duplicates, so a peer that holds a grant of 129
    scopes is trusted with them, and is refused altogether once it has been
    granted the very same scopes a second time. *)
Theorem repeated_grant_locks_out :
  let service grants := @new_service Profile sample_config (Some (wide_profile grants)) in
  authorize (H := @store_ops table_order) (service [wide_record 1]) sample_peer 2000 =
    success (mkAuthorization true (many_scopes 129) true) /\
  authorize (H := @store_ops table_order) (service [wide_record 1; wide_record 2]) sample_peer 2000 =
    failure (trust_grant_error ErrorCode.protocol "scope_count_limit").
Proof. split; vm_compute; reflexivity. Qed.

(** ** A concrete pairing *)

Definition pairing_store (device : list Z) : Profile :=
  store_run (mkProfile device None None ∅)
    [OpPolicy (mkPairingPolicy 1 true true [bytes_of_string "message.send"]);
     OpVerifier (mkVerifier 1 (mkHashParameters 2 67108864) (36 :: bytes_of_string "secret")) 1].

Definition target_service : @Service Profile :=
  new_service (mkConfig sample_identity 0 1 1000 60000 2 true) (Some (pairing_store sample_peer)).

Definition initiator_service : @Service Profile :=
  new_service sample_config (Some (pairing_store sample_device)).

Definition pairing_request : PairingRequestBody :=
  mkPairingRequest (repeat 1 16) (repeat 7 32) (bytes_of_string "secret") [bytes_of_string "message.send"].

Definition wrong_request : PairingRequestBody :=
  mkPairingRequest (repeat 2 16) (repeat 7 32) (bytes_of_string "guess") [bytes_of_string "message.send"].

#[local] Existing Instance table_order.
#[local] Existing Instance table_order_laws.
#[local] Existing Instance toy_sodium.
#[local] Existing Instance toy_sodium_laws.
#[local] Existing Instance toy_password_hash.

Definition target_answer : Result PairingResultBody * @Service Profile :=
  evaluate target_service 1000 (repeat 4 16) pairing_request sample_device (repeat 8 32).

Definition answer_body : PairingResultBody :=
  match target_answer.1 with success r => r | failure _ => mkPairingResult [] StableStatus.internal None end.

Definition answer_grant : SignedTrustGrant :=
  default (mkGrant [] [] [] [] 0 0 None [] []) (grant answer_body).

Lemma target_answers : target_answer = (success answer_body, target_answer.2).
Proof. vm_compute. reflexivity. Qed.

Lemma evaluate_grants_soundly_witness :
  status answer_body = StableStatus.ok /\
  exists p policy verifier g p',
    profile target_service = Some p /\ profile_pairing_policy p = success policy /\
    password_pairing_enabled policy = true /\ backoff_blocks target_service sample_device 1000 = false /\
    profile_password_verifier p = success (Some verifier) /\
    verify_password (password_utf8 pairing_request) verifier = success true /\
    answer_body = mkPairingResult (request_id pairing_request) StableStatus.ok (Some g) /\
    issuer g = profile_device_id p /\ subject g = sample_device /\ nonce g = request_nonce pairing_request /\
    (forall sc, sc ∈ granted_scopes g <->
       sc ∈ requested_scopes pairing_request /\ exists d, d ∈ default_scopes policy /\ scope_covered d sc) /\
    profile_put_trust_grant p (to_record g TrustGrantDirection.issued) = (success tt, p') /\
    profile target_answer.2 = Some p' /\ failures_ target_answer.2 !! sample_device = None.
Proof.
  assert (Hok : status answer_body = StableStatus.ok) by (vm_compute; reflexivity). split; [exact Hok |].
  exact (evaluate_grants_soundly target_service 1000 (repeat 4 16%nat) pairing_request sample_device (repeat 8 32%nat)
    answer_body target_answer.2 target_answers Hok).
Defined.

Lemma pairing_store_wf device : profile_wf (pairing_store device).
Proof. apply store_run_wf. apply map_Forall_empty. Qed.

Definition initiator_accepts : Result unit * @Service Profile :=
  accept_grant initiator_service 1500 answer_body (repeat 1 16) (repeat 7 32) sample_peer (repeat 5 32)
    [bytes_of_string "message.send"].

Lemma initiator_accepted : initiator_accepts = (success tt, initiator_accepts.2).
Proof. vm_compute. reflexivity. Qed.

Lemma accept_grant_sound_witness :
  exists p g p',
    profile initiator_service = Some p /\ grant answer_body = Some g /\ result_request_id answer_body = repeat 1 16 /\
    nonce g = repeat 7 32 /\ issuer g = sample_peer /\ subject g = profile_device_id p /\
    derive_device_id (repeat 5 32) = success sample_peer /\
    (exists b, canonical_signed_trust_grant g = success b /\
       crypto_sign_verify_detached (signature g) b (repeat 5 32) = true) /\
    (forall sc, sc ∈ granted_scopes g -> sc ∈ [bytes_of_string "message.send"]) /\
    profile_put_trust_grant p (to_record g TrustGrantDirection.received) = (success tt, p') /\
    profile initiator_accepts.2 = Some p'.
Proof.
  exact (accept_grant_sound initiator_service 1500 answer_body (repeat 1 16%nat) (repeat 7 32%nat) sample_peer
    (repeat 5 32%nat) [bytes_of_string "message.send"] initiator_accepts.2 initiator_accepted).
Defined.

Lemma sample_setting :
  pairing_setting initiator_service target_service (pairing_store sample_device) (pairing_store sample_peer)
    pairing_request (repeat 4 16) 1000 1500.
Proof.
  assert (Hbytes : forall n k, 0 <= n < 256 -> sized (Z.of_nat k) (repeat n k)).
  { intros n k Hn. split; [| unfold zlen; by rewrite repeat_length].
    apply Forall_forall. intros x Hx%list_elem_of_In%repeat_spec. subst. exact Hn. }
  split; try reflexivity; try apply pairing_store_wf; try (apply (Hbytes _ 32%nat); lia); try (apply (Hbytes _ 16%nat); lia).
  - apply sample_identity_ok.
  - split; [apply (Hbytes 1 16%nat); lia |]. split; [apply (Hbytes 7 32%nat); lia |].
    apply bytes_ok_decide. vm_compute. reflexivity.
  - intros n Hn. vm_compute in Hn. injection Hn as <-. lia.
  - lia.
  - lia.
  - cbn. lia.
  - cbn. lia.
Qed.

Lemma pairing_end_to_end_witness :
  exists g pB' sA' pA', grant answer_body = Some g /\ profile target_answer.2 = Some pB' /\
  (exists wire, encode_pairing_result answer_body = success wire /\ parse_pairing_result wire = success answer_body) /\
  accept_grant initiator_service 1500 answer_body (repeat 1 16) (repeat 7 32) sample_peer
     (repeat 5 32) [bytes_of_string "message.send"] = (success tt, sA') /\ profile sA' = Some pA' /\
  exists rs, profile_trust_grants_for_peer pA' sample_peer 2000 = success rs /\
    stored (to_record g TrustGrantDirection.received) ∈ rs.
Proof.
  assert (Hok : status answer_body = StableStatus.ok) by (vm_compute; reflexivity).
  destruct (pairing_end_to_end initiator_service target_service (pairing_store sample_device) (pairing_store sample_peer)
    pairing_request (repeat 4 16%nat) 1000 1500 (repeat 8 32%nat) answer_body target_answer.2 sample_setting target_answers Hok)
    as (g & pB' & sA' & pA' & Hg & HpB & Hwire & Hacc & HpA & Hlist).
  exists g, pB', sA', pA'. split; [exact Hg |]. split; [exact HpB |]. split.
  { apply Hwire; [vm_compute; reflexivity |].
    assert (Hs : (match grant answer_body with Some g => zlen (concat (granted_scopes g)) + 20 * zlen (granted_scopes g)
      | None => 0 end) <= 7000) by (vm_compute; discriminate).
    rewrite Hg in Hs. exact Hs. }
  split; [exact Hacc |]. split; [exact HpA |]. apply Hlist; [lia |].
  intros Hpos. exfalso. vm_compute in Hpos. discriminate Hpos.
Defined.

Definition initiator_view : SessionAuthorization :=
  match authorize initiator_accepts.2 sample_peer 2000 with
  | success a => a
  | failure _ => mkAuthorization false [] false
  end.

Lemma received_grant_authorizes_issuer_witness :
  (trusted initiator_view = true /\ forall sc, sc ∈ granted_scopes answer_grant -> sc ∈ authorized_scopes initiator_view) /\
  exists p', profile initiator_accepts.2 = Some p' /\ is_device_trusted p' sample_peer 2000 = success false.
Proof.
  assert (Ha : authorize initiator_accepts.2 sample_peer 2000 = success initiator_view) by (vm_compute; reflexivity).
  assert (Hg : grant answer_body = Some answer_grant) by (vm_compute; reflexivity).
  assert (Hp : profile initiator_service = Some (pairing_store sample_device)) by (vm_compute; reflexivity).
  assert (He : expires_unix_milliseconds answer_grant = None) by (vm_compute; reflexivity).
  assert (Ht : record_typed (to_record answer_grant TrustGrantDirection.received)).
  { split; [vm_compute; split; [intros H; discriminate H | reflexivity] |].
    split; [vm_compute; split; [intros H; discriminate H | reflexivity] |].
    cbn. rewrite He. intros e H. discriminate H. }
  refine (received_grant_authorizes_issuer initiator_service initiator_accepts.2 (pairing_store sample_device)
    answer_grant answer_body 1500 (repeat 1 16%nat) (repeat 7 32%nat) sample_peer (repeat 5 32%nat)
    [bytes_of_string "message.send"] 2000 initiator_view Hp (pairing_store_wf sample_device) Hg Ht _ _ _
    initiator_accepted Ha).
  - lia.
  - rewrite He. intros e H. discriminate H.
  - intros id row Hl. vm_compute in Hl. discriminate Hl.
Defined.

(** Three guesses from one source; the second falls into the wait. *)
Definition guess_calls : list service_call :=
  map (fun t => CallEvaluate t (repeat 4 16) wrong_request sample_device (repeat 8 32)) [1000; 1500; 2000].

Definition guess_answers : list answered :=
  [(sample_device, 1000, Wrong); (sample_device, 1500, Wait); (sample_device, 2000, Wrong)].

(** With the right password, a second after the third guess. *)
Lemma guess_rate_limited_witness :
  let s := (service_run target_service guess_calls).1 in
  failure_log sample_device guess_answers = (2, 2000) /\
  evaluate s 3000 (repeat 5 16) (with_password wrong_request (bytes_of_string "secret")) sample_device (repeat 8 32) =
    evaluate s 3000 (repeat 5 16) wrong_request sample_device (repeat 8 32).
Proof.
  assert (Hgs : (service_run target_service guess_calls).2 = guess_answers) by (vm_compute; reflexivity).
  destruct (service_run target_service guess_calls) as [s gs] eqn:E. cbn in Hgs. subst gs. cbn [fst].
  assert (Hrate := guess_rate_limited (mkConfig sample_identity 0 1 1000 60000 2 true) (Some (pairing_store sample_peer))
    guess_calls s guess_answers sample_device 3000 (repeat 5 16) wrong_request (repeat 8 32)
    ltac:(cbn; lia) ltac:(cbn; lia) ltac:(cbn; lia)).
  assert (Htimes : Forall (fun c => 0 < call_time c < 2 ^ 63) guess_calls).
  { unfold guess_calls. cbn [map]. repeat (apply Forall_cons; split; [cbn; lia |]). apply Forall_nil. exact I. }
  specialize (Hrate Htimes ltac:(vm_compute; reflexivity) E).
  assert (Hlog : failure_log sample_device guess_answers = (2, 2000)) by (vm_compute; reflexivity).
  split; [exact Hlog |]. rewrite Hlog in Hrate. apply Hrate; vm_compute; congruence.
Defined.
