(* ===== verification/GatewayAddress.v ===== *)
(** * Gateway addresses

    The address half of [src/core/gateway_protocol.cpp]: host names, IPv4 and
    IPv6 literals, their canonical text, and CIDR ranges. Text is a list of
    bytes; the characters the code compares with are ASCII, so the signedness of
    [char] does not matter.

    The theorems: an address printed by [format_gateway_ip] is parsed back to
    itself, and a range contains exactly the addresses of its family that agree
    with it on the prefix. *)

From Stdlib Require Import ZArith Lia ZifyBool String.
From stdpp Require Import base tactics option list numbers strings.
From S2P Require Import Prelude Errors.
#[local] Open Scope Z_scope.

Module GatewayAddress.

(** Characters. *)
Definition char_dot : Z := 46.
Definition char_colon : Z := 58.
Definition char_slash : Z := 47.
Definition char_hyphen : Z := 45.
Definition char_zero : Z := 48.

Definition is_digit (c : Z) : bool := (48 <=? c) && (c <=? 57).
Definition is_lower (c : Z) : bool := (97 <=? c) && (c <=? 122).
Definition is_upper (c : Z) : bool := (65 <=? c) && (c <=? 90).

(** [text.front()], [text.back()] of a text that is not empty. *)
Definition front (text : list Z) : Z := byte_at text 0.
Definition back (text : list Z) : Z := List.last text 0.

Definition contains (c : Z) (text : list Z) : bool := existsb (Z.eqb c) text.

Definition valid_ldh_label (label : list Z) : bool :=
  if (zlen label =? 0) || (63 <? zlen label) then false
  else if (front label =? char_hyphen) || (back label =? char_hyphen) then false
  else forallb (fun c => is_lower c || is_upper c || is_digit c || (c =? char_hyphen)) label.

(** The inner loop of [ipv4_octets]: a decimal group, [None] on other
    characters. *)
Fixpoint decimal_value (value : Z) (group : list Z) : option Z :=
  match group with
  | [] => Some value
  | c :: group => if is_digit c then decimal_value (u32 (value * 10 + (c - char_zero))) group else None
  end.

(** The loop of [ipv4_octets]; [octets] holds the first [groups] octets. *)
Fixpoint ipv4_loop (fuel : nat) (rest : list Z) (octets : list Z) : option (list Z) :=
  match rest with
  | [] => Some octets
  | _ :: _ =>
      match fuel with
      | O => None
      | S fuel =>
          let '(group, after) := cut char_dot rest in
          let rest := default [] after in
          if (zlen group =? 0) || (3 <? zlen group) || (4 <=? zlen octets) then None
          else if (1 <? zlen group) && (front group =? char_zero) then None
          else match decimal_value 0 group with
               | None => None
               | Some value =>
                   if 255 <? value then None else ipv4_loop fuel rest (octets ++ [u8 value])
               end
      end
  end.

Definition ipv4_octets (text : list Z) : option (list Z) :=
  if (zlen text =? 0) || (front text =? char_dot) || (back text =? char_dot) then None
  else match ipv4_loop (length text) text [] with
       | None => None
       | Some octets => if zlen octets =? 4 then Some octets else None
       end.

Definition hex_digit (c : Z) : option Z :=
  if is_digit c then Some (c - 48)
  else if (97 <=? c) && (c <=? 102) then Some (c - 97 + 10)
  else if (65 <=? c) && (c <=? 70) then Some (c - 65 + 10)
  else None.

Fixpoint hex_value (value : Z) (group : list Z) : option Z :=
  match group with
  | [] => Some value
  | c :: group =>
      match hex_digit c with
      | None => None
      | Some digit => hex_value (u16 (Z.lor (Z.shiftl value 4) digit)) group
      end
  end.

(** The values a group of an IPv6 literal stands for. *)
Definition ipv6_group (group : list Z) (allow_v4_tail last : bool) : option (list Z) :=
  if contains char_dot group then
    if negb allow_v4_tail || negb last then None
    else match ipv4_octets group with
         | Some [a; b; c; d] =>
             Some [u16 (Z.lor (Z.shiftl a 8) b); u16 (Z.lor (Z.shiftl c 8) d)]
         | _ => None
         end
  else if (zlen group =? 0) || (4 <? zlen group) then None
  else option_map (fun value => [value]) (hex_value 0 group).

(** The loop of [parse_ipv6_part]; [groups] are the groups parsed so far. *)
Fixpoint ipv6_loop (fuel : nat) (rest : list Z) (allow_v4_tail : bool) (groups : list Z)
    : option (list Z) :=
  match rest with
  | [] => Some groups
  | _ :: _ =>
      match fuel with
      | O => None
      | S fuel =>
          let '(group, after) := cut char_colon rest in
          let last := match after with None => true | Some _ => false end in
          match ipv6_group group allow_v4_tail last with
          | None => None
          | Some values =>
              if 8 <? zlen groups + zlen values then None
              else ipv6_loop fuel (default [] after) allow_v4_tail (groups ++ values)
          end
      end
  end.

Definition parse_ipv6_part (part : list Z) (allow_v4_tail : bool) : option (list Z) :=
  match part with
  | [] => Some []
  | _ :: _ =>
      if (front part =? char_colon) || (back part =? char_colon) then None
      else ipv6_loop (length part) part allow_v4_tail []
  end.

(** [text.find("::")] with the text before it and after it. *)
Fixpoint cut_compression (text : list Z) : option (list Z * list Z) :=
  match text with
  | [] => None
  | x :: text =>
      match text with
      | y :: rest =>
          if (x =? char_colon) && (y =? char_colon) then Some ([], rest)
          else option_map (fun '(head, tail) => (x :: head, tail)) (cut_compression text)
      | [] => None
      end
  end.

Definition ipv6_groups (text : list Z) : option (list Z) :=
  if zlen text <? 2 then None else
  match cut_compression text with
  | None =>
      match parse_ipv6_part text true with
      | None => None
      | Some head => if zlen head =? 8 then Some head else None
      end
  | Some (head_part, tail_part) =>
      match cut_compression tail_part with
      | Some _ => None
      | None =>
          match parse_ipv6_part head_part false, parse_ipv6_part tail_part true with
          | Some head, Some tail =>
              if 7 <? zlen head + zlen tail then None
              else Some (head ++ replicate (Z.to_nat (8 - zlen head - zlen tail)) 0 ++ tail)
          | _, _ => None
          end
      end
  end.

Definition valid_ipv6_literal (text : list Z) : bool :=
  match ipv6_groups text with None => false | Some _ => true end.

Definition max_gateway_host_bytes : Z := 253.

(** The loop over the labels of a host name. *)
Fixpoint labels_loop (fuel : nat) (rest : list Z) : bool :=
  match rest with
  | [] => true
  | _ :: _ =>
      match fuel with
      | O => false
      | S fuel =>
          match cut char_dot rest with
          | (label, None) => valid_ldh_label label
          | (label, Some rest) => if negb (valid_ldh_label label) then false else labels_loop fuel rest
          end
      end
  end.

Definition valid_gateway_host (host : list Z) : bool :=
  if (zlen host =? 0) || (max_gateway_host_bytes <? zlen host) then false else
  let printable := forallb (fun c => (0x21 <=? c) && (c <=? 0x7e) && negb (c =? 32)) host in
  if negb printable then false
  else if contains char_colon host then valid_ipv6_literal host
  else if (front host =? char_dot) || (back host =? char_dot) then false
  else if forallb (fun c => is_digit c || (c =? char_dot)) host then
    match ipv4_octets host with None => false | Some _ => true end
  else labels_loop (length host) host.

(** [struct GatewayIp]: sixteen bytes, an IPv4 address in the first four. *)
Record GatewayIp : Type := mkGatewayIp {
  ip_bytes : list Z;
  v4 : bool;
}.

Definition parse_gateway_ip (literal : list Z) : option GatewayIp :=
  if negb (contains char_colon literal) then
    match ipv4_octets literal with
    | None => None
    | Some octets => Some (mkGatewayIp (octets ++ replicate 12 0) true)
    end
  else
    match ipv6_groups literal with
    | None => None
    | Some groups =>
        Some (mkGatewayIp (concat (map (fun value => [u8 (Z.shiftr value 8); u8 value]) groups)) false)
    end.

(** [std::to_string] of an unsigned number: the digits, most significant
    first. Twenty digits hold any 64-bit value. *)
Fixpoint decimal_loop (fuel : nat) (n : Z) (digits : list Z) : list Z :=
  match fuel with
  | O => digits
  | S fuel =>
      let digits := (char_zero + n mod 10) :: digits in
      if n <? 10 then digits else decimal_loop fuel (n / 10) digits
  end.

Definition to_decimal (n : Z) : list Z := decimal_loop 20 n [].

Definition hex_char (nibble : Z) : Z := if nibble <? 10 then 48 + nibble else 87 + nibble.

(** The loop over the four nibbles of a group. *)
Fixpoint format_nibbles (shifts : list Z) (value : Z) (significant : bool) : list Z :=
  match shifts with
  | [] => []
  | shift :: shifts =>
      let nibble := Z.land (Z.shiftr value shift) 0xf in
      if negb (nibble =? 0) || significant || (shift =? 0)
      then hex_char nibble :: format_nibbles shifts value true
      else format_nibbles shifts value significant
  end.

Definition format_group (value : Z) : list Z := format_nibbles [12; 8; 4; 0] value false.

(** The group at an index below eight. *)
Definition group_at (groups : list Z) (index : Z) : Z := nth (Z.to_nat index) groups 0.

(** [while (run < 8U && groups[run] == 0U) ++run]. *)
Fixpoint zero_run (fuel : nat) (groups : list Z) (run : Z) : Z :=
  match fuel with
  | O => run
  | S fuel => if (run <? 8) && (group_at groups run =? 0) then zero_run fuel groups (run + 1) else run
  end.

(** The search for the longest run of zero groups. *)
Fixpoint best_run_loop (fuel : nat) (groups : list Z) (index best_start best_length : Z) : Z * Z :=
  match fuel with
  | O => (best_start, best_length)
  | S fuel =>
      if 8 <=? index then (best_start, best_length)
      else if negb (group_at groups index =? 0) then
        best_run_loop fuel groups (index + 1) best_start best_length
      else
        let run := zero_run 8 groups index in
        let '(best_start, best_length) :=
          if (best_length <? run - index) && (2 <=? run - index)
          then (index, run - index) else (best_start, best_length) in
        best_run_loop fuel groups run best_start best_length
  end.

Definition best_run (groups : list Z) : Z * Z := best_run_loop 9 groups 0 8 0.

(** The loop that prints the groups. *)
Fixpoint format_groups (fuel : nat) (groups : list Z) (best_start best_length group : Z) : list Z :=
  match fuel with
  | O => []
  | S fuel =>
      if 8 <=? group then []
      else if negb (best_length =? 0) && (group =? best_start) then
        [char_colon; char_colon] ++
        format_groups fuel groups best_start best_length (group + (best_length - 1) + 1)
      else
        (if negb (group =? 0) && negb (negb (best_length =? 0) && (group =? best_start + best_length))
         then [char_colon] else []) ++
        format_group (group_at groups group) ++
        format_groups fuel groups best_start best_length (group + 1)
  end.

Definition groups_of (bytes : list Z) : list Z :=
  map (fun group => u16 (Z.lor (Z.shiftl (byte_at bytes (2 * group)) 8) (byte_at bytes (2 * group + 1))))
    [0; 1; 2; 3; 4; 5; 6; 7].

Definition format_quad (a b c d : Z) : list Z :=
  to_decimal a ++ [char_dot] ++ to_decimal b ++ [char_dot] ++ to_decimal c ++ [char_dot] ++ to_decimal d.

Definition format_gateway_ip (address : GatewayIp) : list Z :=
  if v4 address then
    format_quad (byte_at (ip_bytes address) 0) (byte_at (ip_bytes address) 1)
      (byte_at (ip_bytes address) 2) (byte_at (ip_bytes address) 3)
  else
    let groups := groups_of (ip_bytes address) in
    let '(best_start, best_length) := best_run groups in
    let v4_mapped := forallb (Z.eqb 0) (take 5 groups) && (group_at groups 5 =? 0xffff) in
    if v4_mapped then
      bytes_of_string "::ffff:" ++
      format_quad (Z.land (Z.shiftr (group_at groups 6) 8) 0xff) (Z.land (group_at groups 6) 0xff)
        (Z.land (Z.shiftr (group_at groups 7) 8) 0xff) (Z.land (group_at groups 7) 0xff)
    else format_groups 9 groups best_start best_length 0.

(** [struct GatewayCidr]. *)
Record GatewayCidr : Type := mkGatewayCidr {
  address : GatewayIp;
  prefix_bits : Z;
}.

Fixpoint bits_value (bits : Z) (text : list Z) : option Z :=
  match text with
  | [] => Some bits
  | c :: text => if is_digit c then bits_value (bits * 10 + (c - char_zero)) text else None
  end.

Definition parse_gateway_cidr (text : list Z) : option GatewayCidr :=
  match cut char_slash text with
  | (_, None) => None
  | (literal, Some bits_text) =>
      match parse_gateway_ip literal with
      | None => None
      | Some address =>
          if (zlen bits_text =? 0) || (3 <? zlen bits_text) then None
          else match bits_value 0 bits_text with
               | None => None
               | Some bits =>
                   let max_bits := if v4 address then 32 else 128 in
                   if max_bits <? bits then None else Some (mkGatewayCidr address bits)
               end
      end
  end.

Definition bit_at (width : Z) (value : GatewayIp) (bit : Z) : Z :=
  if width * 8 <=? bit then 0
  else Z.land (Z.shiftr (byte_at (ip_bytes value) (bit / 8)) (7 - bit mod 8)) 1.

(** The loop over the bits of the prefix. *)
Fixpoint prefix_loop (fuel : nat) (width bit prefix : Z) (a b : GatewayIp) : bool :=
  match fuel with
  | O => true
  | S fuel =>
      if negb (bit <? prefix) then true
      else if negb (bit_at width a bit =? bit_at width b bit) then false
      else prefix_loop fuel width (bit + 1) prefix a b
  end.

Definition gateway_cidr_contains (cidr : GatewayCidr) (ip : GatewayIp) : bool :=
  if negb (Bool.eqb (v4 (address cidr)) (v4 ip)) then false
  else
    let width := if v4 (address cidr) then 4 else 16 in
    prefix_loop (Z.to_nat (prefix_bits cidr)) width 0 (prefix_bits cidr) (address cidr) ip.

Definition gateway_cidr_is_catch_all (cidr : GatewayCidr) : bool := prefix_bits cidr =? 0.

End GatewayAddress.

Import GatewayAddress.

#[local] Arguments contains : simpl never.

(** ** Cutting text *)

Lemma contains_cons c x s : contains c (x :: s) = (c =? x) || contains c s.
Proof. done. Qed.

Lemma contains_app c s t : contains c (s ++ t) = contains c s || contains c t.
Proof. apply existsb_app. Qed.

Lemma cut_absent c s : contains c s = false -> cut c s = (s, None).
Proof.
  induction s as [| x s IH]; [done |]. rewrite contains_cons. intros [Hx Hs]%orb_false_iff.
  cbn. rewrite Z.eqb_sym, Hx, IH by done. done.
Qed.

Lemma cut_app c s t : contains c s = false -> cut c (s ++ c :: t) = (s, Some t).
Proof.
  induction s as [| x s IH]; [cbn; by rewrite Z.eqb_refl |]. rewrite contains_cons. intros [Hx Hs]%orb_false_iff.
  cbn. rewrite Z.eqb_sym, Hx, IH by done. done.
Qed.

Lemma front_app s t : s <> [] -> front (s ++ t) = front s.
Proof. by destruct s. Qed.

Lemma back_app s t : t <> [] -> back (s ++ t) = back t.
Proof.
  intros Ht. unfold back. induction s as [| x s IH]; [done |]. cbn [app].
  destruct (s ++ t) as [| y u] eqn:E; [by apply app_eq_nil in E as [_ ->] |]. exact IH.
Qed.

(** ** Decimal numbers *)

(** What the readers need to know about a printed byte. *)
Definition plain_decimal (b : Z) (text : list Z) : bool :=
  (1 <=? zlen text) && (zlen text <=? 3) && ((zlen text =? 1) || negb (front text =? char_zero))
  && forallb is_digit text && bool_decide (decimal_value 0 text = Some b).

Lemma to_decimal_plain b : is_byte b -> plain_decimal b (to_decimal b) = true.
Proof. apply (byte_forall (fun b => plain_decimal b (to_decimal b))). vm_compute. reflexivity. Qed.

Lemma digits_lack c text : forallb is_digit text = true -> is_digit c = false -> contains c text = false.
Proof.
  induction text as [| x text IH]; [done |]. cbn. intros [Hx Ht]%andb_true_iff Hc.
  rewrite contains_cons, IH by done. rewrite orb_false_r. destruct (Z.eqb_spec c x); [congruence | done].
Qed.

Lemma front_digit text : text <> [] -> forallb is_digit text = true -> is_digit (front text) = true.
Proof. destruct text; [done |]. cbn. by intros _ [? _]%andb_true_iff. Qed.

Lemma back_in s : s <> [] -> back s ∈ s.
Proof.
  unfold back. induction s as [| x s IH]; [done |]. intros _. destruct s as [| y s]; [by left |].
  right. by apply IH.
Qed.

Lemma back_digit text : text <> [] -> forallb is_digit text = true -> is_digit (back text) = true.
Proof.
  intros Hn Hd. rewrite forallb_forall in Hd. apply Hd, list_elem_of_In. by apply back_in.
Qed.

Lemma plain_decimal_spec b text :
  plain_decimal b text = true ->
  1 <= zlen text <= 3 /\ ((1 <? zlen text) && (front text =? char_zero)) = false /\
  forallb is_digit text = true /\ decimal_value 0 text = Some b /\ text <> [].
Proof.
  unfold plain_decimal. rewrite !andb_true_iff, bool_decide_eq_true, orb_true_iff.
  intros [[[[H1 H2] H3] H4] H5]. split_and!; try done; try lia. by intros ->.
Qed.

(** One group of a dotted quad. *)
Lemma ipv4_group_more fuel b rest octets :
  is_byte b -> zlen octets < 4 ->
  ipv4_loop (S fuel) (to_decimal b ++ char_dot :: rest) octets = ipv4_loop fuel rest (octets ++ [b]).
Proof.
  intros Hb Ho. destruct (plain_decimal_spec _ _ (to_decimal_plain b Hb)) as (H1 & H2 & H3 & H4 & H5).
  cbn [ipv4_loop]. rewrite cut_app by (by apply digits_lack).
  destruct (to_decimal b ++ char_dot :: rest) as [| x l] eqn:E; [by apply app_eq_nil in E as [? _] |].
  rewrite (proj2 (orb_false_iff _ _)) by lia. rewrite H2, H4. unfold is_byte in Hb.
  rewrite (proj2 (Z.ltb_ge _ _)) by lia. unfold u8. by rewrite Z.mod_small by lia.
Qed.

Lemma ipv4_group_last fuel b octets :
  is_byte b -> zlen octets < 4 -> ipv4_loop (S fuel) (to_decimal b) octets = Some (octets ++ [b]).
Proof.
  intros Hb Ho. destruct (plain_decimal_spec _ _ (to_decimal_plain b Hb)) as (H1 & H2 & H3 & H4 & H5).
  cbn [ipv4_loop]. rewrite cut_absent by (by apply digits_lack).
  destruct (to_decimal b) as [| x l] eqn:E; [done |].
  rewrite (proj2 (orb_false_iff _ _)) by lia. rewrite H2, H4. unfold is_byte in Hb.
  rewrite (proj2 (Z.ltb_ge _ _)) by lia. unfold u8. rewrite Z.mod_small by lia. by destruct fuel.
Qed.

Lemma format_quad_shape a b c d :
  is_byte a -> is_byte b -> is_byte c -> is_byte d ->
  is_digit (front (format_quad a b c d)) = true /\ is_digit (back (format_quad a b c d)) = true /\
  contains char_colon (format_quad a b c d) = false /\ contains char_dot (format_quad a b c d) = true /\
  exists k, length (format_quad a b c d) = S (S (S (S k))).
Proof.
  intros Ha Hb Hc Hd.
  destruct (plain_decimal_spec _ _ (to_decimal_plain a Ha)) as (A1 & _ & A3 & _ & A5).
  destruct (plain_decimal_spec _ _ (to_decimal_plain b Hb)) as (B1 & _ & B3 & _ & B5).
  destruct (plain_decimal_spec _ _ (to_decimal_plain c Hc)) as (C1 & _ & C3 & _ & C5).
  destruct (plain_decimal_spec _ _ (to_decimal_plain d Hd)) as (D1 & _ & D3 & _ & D5).
  unfold format_quad. split_and!.
  - rewrite front_app by done. by apply front_digit.
  - rewrite !app_assoc, back_app by done. by apply back_digit.
  - rewrite !contains_app, (digits_lack _ _ A3), (digits_lack _ _ B3), (digits_lack _ _ C3),
      (digits_lack _ _ D3) by done. done.
  - rewrite !contains_app, contains_cons. cbn. by rewrite orb_true_r.
  - exists (length (to_decimal a ++ to_decimal b ++ to_decimal c ++ to_decimal d) - 1)%nat.
    rewrite !length_app. unfold zlen in *. cbn [length]. lia.
Qed.

Lemma ipv4_octets_quad a b c d :
  is_byte a -> is_byte b -> is_byte c -> is_byte d ->
  ipv4_octets (format_quad a b c d) = Some [a; b; c; d].
Proof.
  intros Ha Hb Hc Hd. destruct (format_quad_shape a b c d Ha Hb Hc Hd) as (H1 & H2 & _ & _ & k & Hk).
  unfold ipv4_octets. rewrite Hk.
  assert (Hz : (zlen (format_quad a b c d) =? 0) = false) by (unfold zlen; lia).
  assert (Hf : (front (format_quad a b c d) =? char_dot) = false) by (unfold is_digit, char_dot in *; lia).
  assert (Hb' : (back (format_quad a b c d) =? char_dot) = false) by (unfold is_digit, char_dot in *; lia).
  rewrite Hz, Hf, Hb'. cbn [orb]. unfold format_quad. cbn [app].
  rewrite ipv4_group_more by done. cbn [app]. rewrite ipv4_group_more by done. cbn [app].
  rewrite ipv4_group_more by done. cbn [app]. by rewrite ipv4_group_last by done.
Qed.

(** ** Hexadecimal groups *)

(** What the readers need to know about a printed group. *)
Definition plain_hex (text : list Z) : bool :=
  forallb (fun c => is_digit c || ((97 <=? c) && (c <=? 102))) text.

Lemma hex_char_plain n : 0 <= n < 16 ->
  hex_digit (hex_char n) = Some n /\ is_digit (hex_char n) || ((97 <=? hex_char n) && (hex_char n <=? 102)) = true.
Proof.
  intros Hn. unfold hex_char, hex_digit, is_digit. destruct (Z.ltb_spec n 10).
  - rewrite (proj2 (andb_true_iff _ _)) by lia. split; [f_equal; lia | done].
  - assert (Hd : (48 <=? 87 + n) && (87 + n <=? 57) = false) by lia. rewrite Hd.
    rewrite (proj2 (andb_true_iff _ _)) by lia. split; [f_equal; lia | done].
Qed.

(** A row of nibbles and the number it stands for. *)
Definition nibbles_value (acc : Z) (nibbles : list Z) : Z := foldl (fun a n => a * 16 + n) acc nibbles.

Lemma hex_value_nibbles nibbles acc :
  Forall (fun n => 0 <= n < 16) nibbles -> 0 <= acc -> (acc + 1) * 16 ^ zlen nibbles <= 65536 ->
  hex_value acc (map hex_char nibbles) = Some (nibbles_value acc nibbles).
Proof.
  intros H. revert acc. induction H as [| n ns Hn Hns IH]; [done |]. intros acc Ha Hb. cbn.
  destruct (hex_char_plain n Hn) as [-> _]. rewrite zlen_cons in Hb.
  assert (Hp : 0 <= zlen ns) by (unfold zlen; lia).
  rewrite Z.pow_add_r in Hb by lia. assert (0 < 16 ^ zlen ns) by (apply Z.pow_pos_nonneg; lia).
  assert (Hor : Z.lor (Z.shiftl acc 4) n = acc * 16 + n)
    by (rewrite Z.lor_comm, lor_shiftl_add by lia; lia).
  rewrite Hor. unfold u16. rewrite Z.mod_small by nia. apply IH; nia.
Qed.

Lemma nibble_div v s : 0 <= s -> Z.land (Z.shiftr v s) 0xf = v / 2 ^ s mod 16.
Proof. intros Hs. rewrite Z.shiftr_div_pow2 by lia. change 0xf with (Z.ones 4). by rewrite Z.land_ones. Qed.

(** The nibbles a group is printed with, and that they stand for it. *)
Lemma format_group_nibbles v :
  0 <= v < 65536 ->
  exists nibbles, format_group v = map hex_char nibbles /\ Forall (fun n => 0 <= n < 16) nibbles /\
    1 <= zlen nibbles <= 4 /\ nibbles_value 0 nibbles = v.
Proof.
  intros Hv. unfold format_group. cbn [format_nibbles]. rewrite !nibble_div by lia.
  change (2 ^ 12) with 4096. change (2 ^ 8) with 256. change (2 ^ 4) with 16. change (2 ^ 0) with 1.
  assert (Hn : forall k, 0 <= k mod 16 < 16) by (intros; apply Z.mod_pos_bound; lia).
  assert (H3 := Hn (v / 4096)). assert (H2 := Hn (v / 256)). assert (H1 := Hn (v / 16)).
  assert (H0 := Hn (v / 1)).
  assert (Hv' : v / 4096 mod 16 * 4096 + v / 256 mod 16 * 256 + v / 16 mod 16 * 16 + v / 1 mod 16 = v)
    by (rewrite Z.div_1_r; Z.div_mod_to_equations; lia).
  revert H3 H2 H1 H0 Hv'. clear Hn. generalize (v / 4096 mod 16) (v / 256 mod 16) (v / 16 mod 16) (v / 1 mod 16).
  intros n3 n2 n1 n0 H3 H2 H1 H0 Hs. change (0 =? 0) with true. change (12 =? 0) with false.
  change (8 =? 0) with false. change (4 =? 0) with false. rewrite !orb_true_r, ?orb_false_r.
  destruct (Z.eqb_spec n3 0); cbn [negb orb].
  1: destruct (Z.eqb_spec n2 0); cbn [negb orb].
  1: destruct (Z.eqb_spec n1 0); cbn [negb orb].
  - exists [n0]. split_and!; try done; [by rewrite ?Forall_cons, Forall_nil | cbn; lia].
  - exists [n1; n0]. split_and!; try done; [by rewrite ?Forall_cons, Forall_nil | cbn; lia].
  - exists [n2; n1; n0]. split_and!; try done; [by rewrite ?Forall_cons, Forall_nil | cbn; lia].
  - exists [n3; n2; n1; n0]. split_and!; try done; [by rewrite ?Forall_cons, Forall_nil | cbn; lia].
Qed.

Lemma format_group_spec v :
  0 <= v < 65536 ->
  plain_hex (format_group v) = true /\ 1 <= zlen (format_group v) <= 4 /\
  hex_value 0 (format_group v) = Some v.
Proof.
  intros Hv. destruct (format_group_nibbles v Hv) as (ns & -> & Hf & Hl & Hval). split_and!.
  - clear Hl Hval. induction Hf as [| n ns Hn Hns IH]; [done |]. cbn.
    destruct (hex_char_plain n Hn) as [_ ->]. exact IH.
  - unfold zlen in *. rewrite length_map. lia.
  - unfold zlen in *. rewrite length_map. lia.
  - rewrite hex_value_nibbles, Hval; [done | done | lia |].
    assert (16 ^ zlen ns <= 16 ^ 4) by (apply Z.pow_le_mono_r; lia). lia.
Qed.

Lemma plain_hex_lacks c text :
  plain_hex text = true -> is_digit c || ((97 <=? c) && (c <=? 102)) = false -> contains c text = false.
Proof.
  unfold plain_hex. induction text as [| x text IH]; [done |]. cbn [forallb].
  intros [Hx Ht]%andb_true_iff Hc. rewrite contains_cons, IH by done. rewrite orb_false_r.
  destruct (Z.eqb_spec c x); [congruence | done].
Qed.

(** ** Colon-separated groups *)

(** The canonical text of a row of groups. *)
Fixpoint join (groups : list Z) : list Z :=
  match groups with
  | [] => []
  | [g] => format_group g
  | g :: groups => format_group g ++ char_colon :: join groups
  end.

Definition is_group (g : Z) : Prop := 0 <= g < 65536.

Lemma format_group_lacks g : is_group g ->
  format_group g <> [] /\ contains char_colon (format_group g) = false /\
  contains char_dot (format_group g) = false.
Proof.
  intros Hg. destruct (format_group_spec g Hg) as (Hh & Hl & _).
  split_and!; [intros E; rewrite E in Hl; destruct Hl as [Hl _]; exact (Hl eq_refl) | by apply plain_hex_lacks..].
Qed.

Lemma format_group_ends g : is_group g ->
  (front (format_group g) =? char_colon) = false /\ (back (format_group g) =? char_colon) = false.
Proof.
  intros Hg. destruct (format_group_lacks g Hg) as (Hn & Hc & _).
  assert (Hin : forall x, x ∈ format_group g -> (x =? char_colon) = false).
  { intros x Hx. destruct (Z.eqb_spec x char_colon) as [-> |]; [| done].
    apply list_elem_of_In in Hx. unfold contains in Hc.
    assert (existsb (Z.eqb char_colon) (format_group g) = true)
      by (apply existsb_exists; exists char_colon; split; [done | apply Z.eqb_refl]). congruence. }
  split; apply Hin; [| by apply back_in]. unfold front. destruct (format_group g); [done | by left].
Qed.

Lemma join_ends groups : Forall is_group groups -> groups <> [] ->
  join groups <> [] /\ (front (join groups) =? char_colon) = false /\
  (back (join groups) =? char_colon) = false.
Proof.
  intros H. induction H as [| g gs Hg Hgs IH]; [done |]. intros _.
  destruct (format_group_lacks g Hg) as (Hn & _). destruct (format_group_ends g Hg) as [Hf Hb].
  destruct gs as [| g' gs]; [done |]. destruct (IH ltac:(done)) as (Hn' & _ & Hb').
  change (join (g :: g' :: gs)) with (format_group g ++ [char_colon] ++ join (g' :: gs)).
  split_and!.
  - by intros [? _]%app_eq_nil.
  - by rewrite front_app by done.
  - rewrite back_app by done. by rewrite back_app.
Qed.

Lemma ipv6_group_format g allow last :
  is_group g -> ipv6_group (format_group g) allow last = Some [g].
Proof.
  intros Hg. destruct (format_group_spec g Hg) as (_ & Hl & Hv).
  destruct (format_group_lacks g Hg) as (_ & _ & Hd). unfold ipv6_group. rewrite Hd, Hv.
  by rewrite (proj2 (orb_false_iff _ _)) by lia.
Qed.

Lemma ipv6_loop_join groups fuel allow acc :
  Forall is_group groups -> (length groups <= fuel)%nat -> zlen acc + zlen groups <= 8 ->
  ipv6_loop fuel (join groups) allow acc = Some (acc ++ groups).
Proof.
  intros H. revert fuel acc. induction H as [| g gs Hg Hgs IH]; intros fuel acc Hf Ha.
  { destruct fuel; cbn; by rewrite app_nil_r. }
  destruct fuel as [| fuel]; [cbn in Hf; lia |]. cbn in Hf. rewrite zlen_cons in Ha.
  destruct (format_group_lacks g Hg) as (Hn & Hc & _). assert (0 <= zlen gs) by (unfold zlen; lia).
  assert (Hj : join (g :: gs) <> []) by (by apply join_ends; [constructor |]).
  destruct (join (g :: gs)) as [| x l] eqn:E; [done |]. cbn [ipv6_loop]. rewrite <- E. clear E Hj.
  destruct gs as [| g' gs].
  - change (join [g]) with (format_group g). rewrite cut_absent, ipv6_group_format by done.
    rewrite (proj2 (Z.ltb_ge _ _)) by (change (zlen [g]) with 1; lia). by destruct fuel.
  - change (join (g :: g' :: gs)) with (format_group g ++ char_colon :: join (g' :: gs)).
    rewrite cut_app, ipv6_group_format by done.
    rewrite (proj2 (Z.ltb_ge _ _)) by (change (zlen [g]) with 1; lia). cbn [default].
    rewrite IH; [by rewrite <- app_assoc | lia |]. rewrite zlen_app. change (zlen [g]) with 1. lia.
Qed.

Lemma join_length groups : Forall is_group groups -> (length groups <= length (join groups))%nat.
Proof.
  induction 1 as [| g gs Hg Hgs IH]; [done |]. destruct (format_group_spec g Hg) as (_ & Hl & _).
  unfold zlen in Hl. destruct gs as [| g' gs]; [cbn [join length]; lia |].
  change (join (g :: g' :: gs)) with (format_group g ++ char_colon :: join (g' :: gs)).
  rewrite length_app. cbn [length] in *. lia.
Qed.

Lemma parse_ipv6_part_join groups allow :
  Forall is_group groups -> zlen groups <= 8 -> parse_ipv6_part (join groups) allow = Some groups.
Proof.
  intros H Hl. destruct groups as [| g gs]; [done |].
  destruct (join_ends (g :: gs) H ltac:(done)) as (Hn & Hf & Hb).
  unfold parse_ipv6_part. destruct (join (g :: gs)) as [| x l] eqn:E; [done |]. rewrite <- E in *.
  rewrite Hf, Hb. cbn [orb]. by rewrite ipv6_loop_join by (try done; by apply join_length).
Qed.

(** ** The compressed run of zero groups *)

Lemma cut_compression_skip x text :
  (x =? char_colon) = false \/ (front text =? char_colon) = false ->
  cut_compression (x :: text) = option_map (fun '(head, tail) => (x :: head, tail)) (cut_compression text).
Proof.
  intros H. destruct text as [| y text]; [done |]. cbn [cut_compression].
  assert (Hxy : (x =? char_colon) && (y =? char_colon) = false)
    by (apply andb_false_iff; destruct H; [by left | by right]).
  by rewrite Hxy.
Qed.

Lemma cut_compression_plain s text :
  contains char_colon s = false ->
  cut_compression (s ++ text) = option_map (fun '(head, tail) => (s ++ head, tail)) (cut_compression text).
Proof.
  induction s as [| x s IH]; [cbn [app]; by destruct (cut_compression text) as [[? ?]|] |].
  rewrite contains_cons. intros [Hx Hs]%orb_false_iff. cbn [app].
  rewrite cut_compression_skip by (left; by rewrite Z.eqb_sym). rewrite IH by done.
  by destruct (cut_compression text) as [[? ?]|].
Qed.

Lemma cut_compression_join groups rest :
  Forall is_group groups -> rest = [] \/ (exists tail, rest = char_colon :: char_colon :: tail) ->
  cut_compression (join groups ++ rest) =
  match rest with _ :: _ :: tail => Some (join groups, tail) | _ => None end.
Proof.
  intros H Hr. induction H as [| g gs Hg Hgs IH].
  { by destruct Hr as [-> | [tail ->]]. }
  destruct (format_group_lacks g Hg) as (_ & Hc & _). destruct gs as [| g' gs].
  - change (join [g]) with (format_group g). rewrite cut_compression_plain by done.
    destruct Hr as [-> | [tail ->]]; cbn; [done | by rewrite app_nil_r].
  - change (join (g :: g' :: gs)) with (format_group g ++ char_colon :: join (g' :: gs)).
    rewrite <- app_assoc, cut_compression_plain by done. cbn [app].
    destruct (join_ends (g' :: gs) Hgs ltac:(done)) as (Hn & Hf & _).
    rewrite cut_compression_skip by (right; by rewrite front_app). rewrite IH.
    by destruct Hr as [-> | [tail ->]].
Qed.

(** A run of zero groups worth compressing, or none. *)
Definition compressible (groups : list Z) (best_start best_length : Z) : Prop :=
  best_length = 0 \/
  0 <= best_start /\ 2 <= best_length /\ best_start + best_length <= 8 /\
  (forall i, best_start <= i < best_start + best_length -> group_at groups i = 0).

Lemma zero_run_spec fuel groups run :
  run <= 8 -> let last := zero_run fuel groups run in
  run <= last <= 8 /\ (forall i, run <= i < last -> group_at groups i = 0).
Proof.
  revert run. induction fuel as [| fuel IH]; cbn; intros run Hr; [split; intros; lia |].
  destruct ((run <? 8) && (group_at groups run =? 0)) eqn:E; [| split; intros; lia].
  apply andb_true_iff in E as [E1 E2]. destruct (IH (run + 1)) as [H1 H2]; [lia |].
  split; [lia |]. intros i Hi. destruct (Z.eq_dec i run) as [-> | Hne]; [by apply Z.eqb_eq |].
  apply H2. lia.
Qed.

Lemma best_run_loop_spec fuel groups index best_start best_length :
  0 <= index -> compressible groups best_start best_length ->
  let '(best_start, best_length) := best_run_loop fuel groups index best_start best_length in
  compressible groups best_start best_length.
Proof.
  revert index best_start best_length. induction fuel as [| fuel IH]; intros index bs bl Hi Hc; [done |].
  cbn [best_run_loop]. destruct (Z.leb_spec 8 index); [done |].
  destruct (negb (group_at groups index =? 0)) eqn:E; [by apply IH; [lia |] |].
  destruct (zero_run_spec 8 groups index ltac:(lia)) as [Hr Hz].
  destruct ((bl <? zero_run 8 groups index - index) && (2 <=? zero_run 8 groups index - index)) eqn:Eb;
    [| by apply IH; [lia |]].
  apply andb_true_iff in Eb as [Eb1 Eb2]. apply IH; [lia |]. right. split_and!; try lia.
  intros i Hi'. apply Hz. lia.
Qed.

Lemma best_run_spec groups :
  compressible groups (best_run groups).1 (best_run groups).2.
Proof.
  assert (H := best_run_loop_spec 9 groups 0 8 0 ltac:(lia) (or_introl eq_refl)).
  unfold best_run. by destruct (best_run_loop 9 groups 0 8 0).
Qed.

(** What the printing loop writes. *)
Lemma format_groups_spec groups best_start best_length :
  length groups = 8%nat -> compressible groups best_start best_length ->
  format_groups 9 groups best_start best_length 0 =
  if best_length =? 0 then join groups
  else join (take (Z.to_nat best_start) groups) ++ [char_colon; char_colon] ++
       join (drop (Z.to_nat (best_start + best_length)) groups).
Proof.
  intros Hl Hc. destruct groups as [| g0 [| g1 [| g2 [| g3 [| g4 [| g5 [| g6 [| g7 [|]]]]]]]]]; try done.
  clear Hl. destruct Hc as [-> | (H1 & H2 & H3 & _)].
  { cbv -[format_group app char_colon]. by rewrite !app_nil_r. }
  assert (Hs : best_start = 0 \/ best_start = 1 \/ best_start = 2 \/ best_start = 3 \/ best_start = 4 \/
    best_start = 5 \/ best_start = 6) by lia.
  assert (Hn : best_length = 2 \/ best_length = 3 \/ best_length = 4 \/ best_length = 5 \/ best_length = 6 \/
    best_length = 7 \/ best_length = 8) by lia.
  destruct Hs as [-> | [-> | [-> | [-> | [-> | [-> | ->]]]]]];
    destruct Hn as [-> | [-> | [-> | [-> | [-> | [-> | ->]]]]]]; try lia;
    cbv -[format_group app char_colon]; rewrite ?app_nil_r; repeat (cbn [app]; rewrite <- app_assoc); cbn [app]; reflexivity.
Qed.

(** ** Addresses *)

(** The values of a [GatewayIp]: sixteen bytes, an IPv4 address leaving the
    last twelve zero. *)
Definition gateway_ip_wf (ip : GatewayIp) : Prop :=
  bytes_ok (ip_bytes ip) /\ length (ip_bytes ip) = 16%nat /\
  (v4 ip = true -> drop 4 (ip_bytes ip) = replicate 12 0).

Definition group_bytes (value : Z) : list Z := [u8 (Z.shiftr value 8); u8 value].

Definition group_of (a b : Z) : Z := u16 (Z.lor (Z.shiftl a 8) b).

Lemma group_of_bytes a b : is_byte a -> is_byte b ->
  is_group (group_of a b) /\ group_bytes (group_of a b) = [a; b].
Proof.
  unfold is_byte, group_of, group_bytes, is_group. intros Ha Hb.
  rewrite Z.lor_comm, lor_shiftl_add by lia. change (2 ^ 8) with 256. unfold u16, u8.
  rewrite !(Z.mod_small (b + a * 256)) by lia. split; [lia |].
  rewrite Z.shiftr_div_pow2 by lia. change (2 ^ 8) with 256.
  assert (H1 : (b + a * 256) / 256 mod 256 = a) by (Z.div_mod_to_equations; lia).
  assert (H2 : (b + a * 256) mod 256 = b) by (Z.div_mod_to_equations; lia). by rewrite H1, H2.
Qed.

Lemma group_of_split g : is_group g ->
  group_of (Z.land (Z.shiftr g 8) 0xff) (Z.land g 0xff) = g /\
  is_byte (Z.land (Z.shiftr g 8) 0xff) /\ is_byte (Z.land g 0xff).
Proof.
  unfold is_group, is_byte, group_of. intros Hg.
  assert (Hd : 0 <= g / 256 < 256 /\ 0 <= g mod 256 < 256 /\ g = g / 256 * 256 + g mod 256)
    by (Z.div_mod_to_equations; lia). change 0xff with (Z.ones 8). rewrite !Z.land_ones by lia.
  rewrite Z.shiftr_div_pow2 by lia. change (2 ^ 8) with 256. rewrite (Z.mod_small (g / 256)) by lia.
  rewrite Z.lor_comm, lor_shiftl_add by lia. change (2 ^ 8) with 256. unfold u16. split; [| lia].
  rewrite Z.mod_small by lia. lia.
Qed.

Lemma groups_of_spec bytes :
  bytes_ok bytes -> length bytes = 16%nat ->
  length (groups_of bytes) = 8%nat /\ Forall is_group (groups_of bytes) /\
  concat (map group_bytes (groups_of bytes)) = bytes.
Proof.
  intros Hb Hl.
  do 16 (destruct bytes as [| ? bytes]; [discriminate Hl |]). destruct bytes; [| discriminate Hl].
  unfold bytes_ok in Hb. rewrite !Forall_cons in Hb. destruct_and!.
  match goal with |- context [groups_of [?a; ?b; ?c; ?d; ?e; ?f; ?g; ?h; ?i; ?j; ?k; ?l; ?m; ?n; ?o; ?p]] =>
    change (groups_of [a; b; c; d; e; f; g; h; i; j; k; l; m; n; o; p]) with
      [group_of a b; group_of c d; group_of e f; group_of g h;
       group_of i j; group_of k l; group_of m n; group_of o p] end.
  split; [done |]. split.
  - repeat (apply Forall_cons_2; [by apply group_of_bytes |]). by apply Forall_nil_2.
  - cbn [map concat]. by rewrite !(fun a b Ha Hb => proj2 (group_of_bytes a b Ha Hb)) by done.
Qed.

Lemma split_zero_run groups best_start best_length :
  length groups = 8%nat -> 0 <= best_start -> 0 <= best_length -> best_start + best_length <= 8 ->
  (forall i, best_start <= i < best_start + best_length -> group_at groups i = 0) ->
  groups = take (Z.to_nat best_start) groups ++ replicate (Z.to_nat best_length) 0 ++
           drop (Z.to_nat (best_start + best_length)) groups.
Proof.
  intros Hl Hs Hn Hb Hz. rewrite <- (take_drop (Z.to_nat best_start) groups) at 1. f_equal.
  rewrite <- (take_drop (Z.to_nat best_length) (drop (Z.to_nat best_start) groups)) at 1.
  rewrite drop_drop, Z2Nat.inj_add by lia. f_equal.
  apply list_eq. intros i. destruct (decide (i < Z.to_nat best_length)%nat) as [Hi | Hi].
  - rewrite lookup_take_lt, lookup_drop, lookup_replicate_2 by lia.
    destruct (lookup_lt_is_Some_2 groups (Z.to_nat best_start + i)) as [x Hx]; [lia |].
    rewrite Hx. f_equal. rewrite <- (Hz (best_start + Z.of_nat i)) by lia.
    unfold group_at. rewrite (nth_lookup_Some _ _ _ x); [done |]. rewrite <- Hx. f_equal. lia.
  - rewrite lookup_take_ge by lia. symmetry. apply lookup_ge_None_2. rewrite length_replicate. lia.
Qed.

Lemma join_has_colon g g' gs : contains char_colon (join (g :: g' :: gs)) = true.
Proof.
  change (join (g :: g' :: gs)) with (format_group g ++ char_colon :: join (g' :: gs)).
  rewrite contains_app, contains_cons. by rewrite orb_true_r.
Qed.

Lemma contains_length c text : contains c text = true -> 1 <= zlen text.
Proof. destruct text; [done |]. intros _. rewrite zlen_cons. unfold zlen. lia. Qed.

(** The eight groups are read back from what the printing loop writes. *)
Lemma ipv6_groups_format groups best_start best_length :
  length groups = 8%nat -> Forall is_group groups -> compressible groups best_start best_length ->
  let text := format_groups 9 groups best_start best_length 0 in
  contains char_colon text = true /\ ipv6_groups text = Some groups.
Proof.
  intros Hl Hg Hc. cbn zeta. rewrite format_groups_spec by done.
  destruct (Z.eqb_spec best_length 0) as [-> | Hne].
  - assert (Hlen := join_length groups Hg). split.
    { destruct groups as [| ? [| ? ?]]; [done.. | apply join_has_colon]. }
    unfold ipv6_groups. rewrite (proj2 (Z.ltb_ge _ _)) by (unfold zlen; lia).
    assert (H := cut_compression_join groups [] Hg ltac:(by left)). rewrite app_nil_r in H. rewrite H.
    rewrite parse_ipv6_part_join by (try done; unfold zlen; lia).
    rewrite (proj2 (Z.eqb_eq _ _)) by (unfold zlen; lia). done.
  - destruct Hc as [? | (H1 & H2 & H3 & Hz)]; [done |].
    assert (Hsplit := split_zero_run groups best_start best_length Hl H1 ltac:(lia) H3 Hz).
    set (head := take (Z.to_nat best_start) groups) in *.
    set (tail := drop (Z.to_nat (best_start + best_length)) groups) in *.
    assert (Hh : Forall is_group head) by (by apply Forall_take).
    assert (Ht : Forall is_group tail) by (by apply Forall_drop).
    assert (Lh : zlen head = best_start) by (unfold zlen, head; rewrite length_take; lia).
    assert (Lt : zlen tail = 8 - best_start - best_length)
      by (unfold zlen, tail; rewrite length_drop; lia).
    split; [rewrite contains_app; cbn [app]; rewrite contains_cons; by rewrite orb_true_r |].
    unfold ipv6_groups. rewrite (proj2 (Z.ltb_ge _ _)) by
      (rewrite zlen_app; cbn [app]; rewrite !zlen_cons; unfold zlen; lia).
    rewrite cut_compression_join by (try done; right; by eexists). cbn [app].
    assert (H := cut_compression_join tail [] Ht ltac:(by left)). rewrite app_nil_r in H. rewrite H.
    rewrite !parse_ipv6_part_join by (try done; lia).
    rewrite (proj2 (Z.ltb_ge _ _)) by lia. f_equal. rewrite Lh, Lt.
    replace (8 - best_start - (8 - best_start - best_length)) with best_length by lia. by symmetry.
Qed.

Lemma v4_mapped_groups groups :
  length groups = 8%nat -> forallb (Z.eqb 0) (take 5 groups) && (group_at groups 5 =? 0xffff) = true ->
  groups = replicate 5 0 ++ [0xffff; group_at groups 6; group_at groups 7].
Proof.
  intros Hl. destruct groups as [| g0 [| g1 [| g2 [| g3 [| g4 [| g5 [| g6 [| g7 [|]]]]]]]]]; try done.
  change (group_at [g0; g1; g2; g3; g4; g5; g6; g7] 5) with g5.
  change (group_at [g0; g1; g2; g3; g4; g5; g6; g7] 6) with g6.
  change (group_at [g0; g1; g2; g3; g4; g5; g6; g7] 7) with g7.
  cbn [take forallb]. rewrite !andb_true_iff, !Z.eqb_eq. intros H. destruct_and!. by subst.
Qed.

Lemma cut_compression_absent text : contains char_colon text = false -> cut_compression text = None.
Proof. intros H. rewrite <- (app_nil_r text). by rewrite cut_compression_plain. Qed.

Lemma ipv6_loop_step fuel rest allow groups group after values :
  rest <> [] -> cut char_colon rest = (group, after) ->
  ipv6_group group allow (match after with None => true | Some _ => false end) = Some values ->
  zlen groups + zlen values <= 8 ->
  ipv6_loop (S fuel) rest allow groups = ipv6_loop fuel (default [] after) allow (groups ++ values).
Proof.
  intros Hne Hcut Hg Hl. destruct rest as [| x rest]; [done |]. cbn [ipv6_loop]. rewrite Hcut, Hg.
  by rewrite (proj2 (Z.ltb_ge _ _)) by lia.
Qed.

(** The mapped form: [::ffff:] and a dotted quad. *)
Lemma ipv6_groups_mapped a b c d :
  is_byte a -> is_byte b -> is_byte c -> is_byte d ->
  ipv6_groups (bytes_of_string "::ffff:" ++ format_quad a b c d) =
  Some (replicate 5 0 ++ [0xffff; group_of a b; group_of c d]).
Proof.
  intros Ha Hb Hc Hd. destruct (format_quad_shape a b c d Ha Hb Hc Hd) as (_ & Hlast & Hcol & Hdot & k & Hk).
  assert (Hoct := ipv4_octets_quad a b c d Ha Hb Hc Hd).
  revert Hlast Hcol Hdot Hk Hoct. generalize (format_quad a b c d). intros quad Hlast Hcol Hdot Hk Hoct.
  assert (Hne : quad <> []) by (by intros ->).
  set (tail := bytes_of_string "ffff:" ++ quad).
  change (bytes_of_string "::ffff:" ++ quad) with (char_colon :: char_colon :: tail).
  assert (Hcut : cut_compression tail = None).
  { unfold tail. change (bytes_of_string "ffff:") with ([102; 102; 102; 102] ++ [char_colon]).
    rewrite <- app_assoc, cut_compression_plain by done. cbn [app].
    rewrite cut_compression_skip, cut_compression_absent; [done | done |].
    destruct quad as [| x quad]; [done |]. rewrite contains_cons in Hcol.
    apply orb_false_iff in Hcol as [Hx _]. right. cbn. by rewrite Z.eqb_sym. }
  assert (Hpart : parse_ipv6_part tail true = Some [0xffff; group_of a b; group_of c d]).
  { unfold parse_ipv6_part. assert (Hback : (back tail =? char_colon) = false)
      by (unfold tail; rewrite back_app by done; unfold is_digit, char_colon in *; lia).
    change (front tail =? char_colon) with false. rewrite Hback.
    change (length tail) with (S (S (S (S (S (length quad)))))). rewrite Hk.
    change tail with ([102; 102; 102; 102] ++ char_colon :: quad). cbn [orb app].
    erewrite ipv6_loop_step; [| done | by apply (cut_app char_colon [102; 102; 102; 102] quad) | reflexivity | done]. cbn [default app].
    assert (Hgroup : ipv6_group quad true true = Some [group_of a b; group_of c d])
      by (unfold ipv6_group; by rewrite Hdot, Hoct).
    erewrite ipv6_loop_step; [| done | by apply cut_absent | exact Hgroup | done]. done. }
  unfold ipv6_groups. cbn [cut_compression]. change (char_colon =? char_colon) with true. cbn [andb].
  rewrite (proj2 (Z.ltb_ge _ _)) by (rewrite !zlen_cons; unfold zlen; lia). by rewrite Hcut, Hpart.
Qed.

(** What [format_gateway_ip] writes, [parse_gateway_ip] reads back as the
    same address: dotted quads, plain IPv6 text, the compressed run of zero
    groups wherever it falls, and the IPv4-mapped form. *)
Theorem gateway_ip_roundtrip ip :
  gateway_ip_wf ip -> parse_gateway_ip (format_gateway_ip ip) = Some ip.
Proof.
  destruct ip as [bytes []]; intros (Hb & Hl & H4); cbn [ip_bytes v4] in *; unfold format_gateway_ip; cbn [ip_bytes v4].
  - assert (Hq : forall i, is_byte (byte_at bytes i)) by (intros; by apply byte_at_is_byte).
    destruct (format_quad_shape _ _ _ _ (Hq 0) (Hq 1) (Hq 2) (Hq 3)) as (_ & _ & Hc & _).
    unfold parse_gateway_ip. rewrite Hc, ipv4_octets_quad by done. cbn [negb]. do 2 f_equal.
    rewrite <- (H4 eq_refl). rewrite <- (take_drop 4 bytes) at 5. f_equal.
    by destruct bytes as [| ? [| ? [| ? [| ? ?]]]].
  - destruct (groups_of_spec bytes Hb Hl) as (L8 & Hg & Hcat). revert L8 Hg Hcat.
    generalize (groups_of bytes). intros groups L8 Hg Hcat.
    assert (Hrun := best_run_spec groups). destruct (best_run groups) as [bs bl]. cbn in Hrun.
    destruct (forallb (Z.eqb 0) (take 5 groups) && (group_at groups 5 =? 0xffff)) eqn:Em.
    + apply v4_mapped_groups in Em; [| done].
      assert (Hg' := Hg). rewrite Em, Forall_app, !Forall_cons in Hg'. destruct Hg' as (_ & _ & H6 & H7 & _).
      destruct (group_of_split _ H6) as (E6 & B1 & B2). destruct (group_of_split _ H7) as (E7 & B3 & B4).
      unfold parse_gateway_ip. rewrite contains_app. change (contains char_colon (bytes_of_string "::ffff:")) with true.
      cbn [negb orb]. rewrite ipv6_groups_mapped, E6, E7 by done. rewrite <- Em, <- Hcat. done.
    + destruct (ipv6_groups_format groups bs bl L8 Hg Hrun) as [Hc Hp].
      unfold parse_gateway_ip. rewrite Hc, Hp. cbn [negb]. by rewrite <- Hcat.
Qed.

Lemma gateway_ip_roundtrip_witness :
  let ip := mkGatewayIp (map Z.of_N [0x20; 0x01; 0x0d; 0xb8; 0; 0; 0; 0; 0; 0; 0; 0; 0; 0; 0x12; 0x34]%N) false in
  format_gateway_ip ip = bytes_of_string "2001:db8::1234" /\
  parse_gateway_ip (format_gateway_ip ip) = Some ip.
Proof.
  intros ip. split; [vm_compute; reflexivity |]. apply gateway_ip_roundtrip.
  split_and!; [| done | done]. apply bytes_ok_decide. vm_compute. reflexivity.
Defined.

(** ** Address ranges *)

(** The bits of a byte, and of an address, most significant first. *)
Definition byte_bits (b : Z) : list bool := map (Z.testbit b) [7; 6; 5; 4; 3; 2; 1; 0].

Definition address_bits (ip : GatewayIp) : list bool :=
  concat (map byte_bits (if v4 ip then take 4 (ip_bytes ip) else ip_bytes ip)).

Lemma bytes_bits_nth bytes i :
  (i < 8 * length bytes)%nat ->
  nth i (concat (map byte_bits bytes)) false =
  Z.testbit (byte_at bytes (Z.of_nat i / 8)) (7 - Z.of_nat i mod 8).
Proof.
  revert i. induction bytes as [| b bytes IH]; intros i Hi; cbn [length] in Hi; [lia |].
  destruct (decide (i < 8)%nat) as [Hlt | Hge].
  - do 8 (destruct i as [| i]; [reflexivity |]). lia.
  - replace i with (8 + (i - 8))%nat by lia. set (j := (i - 8)%nat).
    change (nth (8 + j) (concat (map byte_bits (b :: bytes))) false) with
      (nth j (concat (map byte_bits bytes)) false). rewrite IH by lia.
    assert (Hd : Z.of_nat (8 + j) / 8 = 1 + Z.of_nat j / 8) by (Z.div_mod_to_equations; lia).
    assert (Hm : Z.of_nat (8 + j) mod 8 = Z.of_nat j mod 8) by (Z.div_mod_to_equations; lia).
    rewrite Hd, Hm. f_equal. change (b :: bytes) with ([b] ++ bytes).
    symmetry. apply (byte_at_app [b]). apply Z.div_pos; lia.
Qed.

Lemma bytes_bits_length bytes : length (concat (map byte_bits bytes)) = (8 * length bytes)%nat.
Proof. induction bytes as [| b bytes IH]; [done |]. cbn [map concat]. rewrite length_app, IH. cbn. lia. Qed.

Definition address_width (ip : GatewayIp) : Z := if v4 ip then 4 else 16.

Lemma address_bits_length ip : gateway_ip_wf ip -> length (address_bits ip) = Z.to_nat (8 * address_width ip).
Proof.
  intros (_ & Hl & _). unfold address_bits, address_width. rewrite bytes_bits_length.
  destruct (v4 ip); [rewrite length_take, Hl; done | rewrite Hl; done].
Qed.

Lemma bit_at_spec ip i :
  gateway_ip_wf ip -> (i < Z.to_nat (8 * address_width ip))%nat ->
  bit_at (address_width ip) ip (Z.of_nat i) = Z.b2z (nth i (address_bits ip) false).
Proof.
  intros (_ & Hl & _) Hi. unfold address_bits. rewrite bytes_bits_nth.
  2:{ unfold address_width in Hi. destruct (v4 ip); rewrite ?length_take, Hl; lia. }
  unfold bit_at. rewrite (proj2 (Z.leb_gt _ _)) by lia.
  assert (Hm : 0 <= Z.of_nat i mod 8 < 8) by (apply Z.mod_pos_bound; lia).
  assert (Hd : 0 <= Z.of_nat i / 8) by (apply Z.div_pos; lia).
  change 1 with (Z.ones 1). rewrite Z.land_ones, Z.shiftr_div_pow2 by lia. change (2 ^ 1) with 2.
  rewrite <- Z.testbit_spec' by lia. do 2 f_equal. unfold address_width in Hi. destruct (v4 ip); [| done].
  rewrite <- (take_drop 4 (ip_bytes ip)) at 1. apply byte_at_app_l.
  unfold zlen. rewrite length_take, Hl. split; [done |]. apply Z.div_lt_upper_bound; lia.
Qed.

Lemma prefix_loop_spec fuel width bit prefix a b :
  prefix - bit <= Z.of_nat fuel ->
  prefix_loop fuel width bit prefix a b = true <->
  (forall i, bit <= i < prefix -> bit_at width a i = bit_at width b i).
Proof.
  revert bit. induction fuel as [| fuel IH]; intros bit Hf; cbn [prefix_loop].
  - split; [intros _ i Hi; lia | done].
  - destruct (Z.ltb_spec bit prefix) as [Hlt | Hge]; cbn [negb]; [| split; [intros _ i Hi; lia | done]].
    destruct (Z.eqb_spec (bit_at width a bit) (bit_at width b bit)) as [E | E]; cbn [negb].
    + rewrite IH by lia. split; intros H i Hi; [| apply H; lia].
      destruct (Z.eq_dec i bit) as [-> |]; [done | apply H; lia].
    + split; [done |]. intros H. destruct E. apply H. lia.
Qed.

Lemma take_nth_eq {A} (d : A) (n : nat) (l k : list A) :
  (n <= length l)%nat -> (n <= length k)%nat ->
  take n l = take n k <-> (forall i, (i < n)%nat -> nth i l d = nth i k d).
Proof.
  revert l k. induction n as [| n IH]; intros l k Hl Hk; [split; [lia | done] |].
  destruct l as [| x l]; [cbn in Hl; lia |]. destruct k as [| y k]; [cbn in Hk; lia |].
  cbn in Hl, Hk |- *. split.
  - intros [= -> H] [| i] Hi; [done |]. apply (IH l k); [lia.. | done | lia].
  - intros H. rewrite (H 0%nat ltac:(lia)). f_equal. apply IH; [lia.. |]. intros i Hi. apply (H (S i)). lia.
Qed.

(** The ranges [parse_gateway_cidr] makes: an address and a prefix within its
    family. *)
Definition gateway_cidr_wf (cidr : GatewayCidr) : Prop :=
  gateway_ip_wf (address cidr) /\ 0 <= prefix_bits cidr <= 8 * address_width (address cidr).

(** ** What the parsers return is well formed *)

Lemma ipv4_loop_bytes fuel rest octets result :
  bytes_ok octets -> ipv4_loop fuel rest octets = Some result -> bytes_ok result.
Proof.
  revert rest octets. induction fuel as [| fuel IH]; intros [| x rest] octets Ho H; cbn [ipv4_loop] in H;
    try discriminate H; try (by injection H as <-).
  destruct (cut char_dot (x :: rest)) as [group after]. repeat (case_match; try discriminate H).
  refine (IH _ _ _ H). apply bytes_ok_app. split; [done |]. apply bytes_ok_cons. split; [| apply bytes_ok_nil].
  unfold is_byte, u8. apply Z.mod_pos_bound. lia.
Qed.

Lemma ipv6_groups_length text groups : ipv6_groups text = Some groups -> length groups = 8%nat.
Proof.
  unfold ipv6_groups. intros H. repeat (case_match; try discriminate H); injection H as <-.
  - rewrite !length_app, length_replicate. unfold zlen in *. lia.
  - unfold zlen in *. lia.
Qed.

Lemma group_bytes_ok groups :
  bytes_ok (concat (map group_bytes groups)) /\ length (concat (map group_bytes groups)) = (2 * length groups)%nat.
Proof.
  induction groups as [| g groups [IH1 IH2]]; [split; [apply bytes_ok_nil | done] |]. cbn [map concat].
  split; [| rewrite length_app, IH2; cbn; lia]. apply bytes_ok_app. split; [| done].
  unfold group_bytes. rewrite !bytes_ok_cons. unfold is_byte, u8.
  split_and!; try apply bytes_ok_nil; apply Z.mod_pos_bound; lia.
Qed.

Lemma parse_gateway_ip_wf text ip : parse_gateway_ip text = Some ip -> gateway_ip_wf ip.
Proof.
  unfold parse_gateway_ip. destruct (negb (contains char_colon text)).
  - destruct (ipv4_octets text) as [octets |] eqn:E; [| done]. intros [= <-]. unfold ipv4_octets in E.
    destruct (_ || _) in E; [done |]. destruct (ipv4_loop _ _ _) as [o |] eqn:El; [| done].
    apply ipv4_loop_bytes in El; [| apply bytes_ok_nil].
    destruct (Z.eqb_spec (zlen o) 4) as [Hl |]; [| done]. injection E as <-. unfold zlen in Hl.
    split_and!; cbn [ip_bytes v4].
    + apply bytes_ok_app. split; [done |]. apply bytes_ok_decide. reflexivity.
    + rewrite length_app. cbn [length]. lia.
    + intros _. by rewrite drop_app_length' by lia.
  - destruct (ipv6_groups text) as [groups |] eqn:E; [| done]. intros [= <-].
    apply ipv6_groups_length in E. destruct (group_bytes_ok groups) as [H1 H2].
    split_and!; [done | cbn [ip_bytes]; fold group_bytes; rewrite H2; lia | done].
Qed.

Lemma bits_value_nonneg text bits : 0 <= bits -> forall v, bits_value bits text = Some v -> 0 <= v.
Proof.
  revert bits. induction text as [| c text IH]; cbn; intros bits Hb v H; [by injection H as <- |].
  destruct (is_digit c) eqn:E; [| done]. apply (IH _) in H; [done |]. unfold is_digit in E.
  unfold char_zero. lia.
Qed.

Lemma parse_gateway_cidr_wf text cidr : parse_gateway_cidr text = Some cidr -> gateway_cidr_wf cidr.
Proof.
  unfold parse_gateway_cidr. intros H. destruct (cut char_slash text) as [literal [bits_text |]]; [| done].
  destruct (parse_gateway_ip literal) as [ip |] eqn:Ei; [| done].
  destruct (_ || _) in H; [done |]. destruct (bits_value 0 bits_text) as [bits |] eqn:Eb; [| done].
  destruct (Z.ltb_spec (if v4 ip then 32 else 128) bits) as [| Hle]; [done |]. injection H as <-.
  split; cbn [address prefix_bits]; [by eapply parse_gateway_ip_wf |].
  apply bits_value_nonneg in Eb; [| lia]. unfold address_width. destruct (v4 ip); lia.
Qed.

(** The range covers the address: same family, and the address agrees with the
    range's on the prefix. *)
Definition cidr_covers (cidr : GatewayCidr) (ip : GatewayIp) : Prop :=
  v4 ip = v4 (address cidr) /\
  take (Z.to_nat (prefix_bits cidr)) (address_bits ip) =
  take (Z.to_nat (prefix_bits cidr)) (address_bits (address cidr)).

Lemma cidr_contains_covers cidr ip :
  gateway_cidr_wf cidr -> gateway_ip_wf ip ->
  gateway_cidr_contains cidr ip = true <-> cidr_covers cidr ip.
Proof.
  intros [Ha Hp] Hi. unfold gateway_cidr_contains, cidr_covers.
  destruct (Bool.eqb (v4 (address cidr)) (v4 ip)) eqn:E; cbn [negb].
  2:{ apply eqb_false_iff in E. split; [done |]. intros [? _]. congruence. }
  apply eqb_prop in E. change (if v4 (address cidr) then 4 else 16) with (address_width (address cidr)).
  assert (Hw : address_width ip = address_width (address cidr)) by (unfold address_width; by rewrite E).
  rewrite prefix_loop_spec by lia.
  rewrite (take_nth_eq false) by (rewrite address_bits_length by done; lia).
  transitivity (forall i, (i < Z.to_nat (prefix_bits cidr))%nat ->
    nth i (address_bits ip) false = nth i (address_bits (address cidr)) false); [| by rewrite E; firstorder].
  split.
  - intros H j Hj. assert (Hj' := H (Z.of_nat j) ltac:(lia)).
    rewrite bit_at_spec in Hj' by (done || lia). rewrite <- Hw, bit_at_spec in Hj' by (done || lia).
    by apply Z.b2z_inj in Hj'.
  - intros H i Hi'. rewrite <- (Z2Nat.id i) by lia. rewrite bit_at_spec by (done || lia).
    rewrite <- Hw, bit_at_spec by (done || lia). by rewrite H by lia.
Qed.

(** Membership in a range is equality of the prefix: the address is of the
    range's family and its first [prefix_bits] bits are those of the range's
    address. *)
Theorem gateway_cidr_contains_exact cidr ip :
  gateway_cidr_wf cidr -> gateway_ip_wf ip ->
  gateway_cidr_contains cidr ip = true <->
  v4 ip = v4 (address cidr) /\
  take (Z.to_nat (prefix_bits cidr)) (address_bits ip) =
  take (Z.to_nat (prefix_bits cidr)) (address_bits (address cidr)).
Proof. exact (cidr_contains_covers cidr ip). Qed.

Lemma gateway_cidr_contains_exact_witness :
  exists cidr ip,
    parse_gateway_cidr (bytes_of_string "172.16.0.0/12") = Some cidr /\
    parse_gateway_ip (bytes_of_string "172.31.255.1") = Some ip /\
    (gateway_cidr_contains cidr ip = true <->
     v4 ip = v4 (address cidr) /\
     take (Z.to_nat (prefix_bits cidr)) (address_bits ip) =
     take (Z.to_nat (prefix_bits cidr)) (address_bits (address cidr))).
Proof.
  eexists _, _. split; [vm_compute; reflexivity |]. split; [vm_compute; reflexivity |].
  apply gateway_cidr_contains_exact.
  - split; [split_and!; [apply bytes_ok_decide; vm_compute; reflexivity | done | done] | vm_compute; done].
  - split_and!; [apply bytes_ok_decide; vm_compute; reflexivity | done | done].
Defined.
