(* ===== verification/GatewayPolicy.v ===== *)
(** * The gateway policy

    The rest of [src/core/gateway_protocol.cpp] and [include/heyaki/gateway.hpp]:
    the GatewayConnect body and its codec, the stream prelude, the refusal
    mapping, the dial-latency window, the profiles and the admission engine that
    decides which resolved addresses of a target may be dialled. Names are byte
    strings; addresses and ranges are those of [GatewayAddress].

    The theorems: the codec round trip, the exact admission decision, and that no
    address of the built-in deny list is ever dialled, in any of its spellings;
    the exported latency percentile is one. *)

From Stdlib Require Import ZArith Lia ZifyBool String.
From stdpp Require Import base tactics option list numbers strings sorting.
From S2P Require Import Prelude Errors Varint ProtoCodec FieldCodec PairingProtocol GatewayAddress.
#[local] Open Scope Z_scope.

(** [enum class GatewayRefusal]. *)
Module GatewayRefusal.
Inductive GatewayRefusal : Type :=
  | capability_not_negotiated | invalid_target | not_enabled | scope_denied | policy_denied
  | quota_exhausted | dial_failed | dial_deadline | local_failure.
End GatewayRefusal.
Abbreviation GatewayRefusal := GatewayRefusal.GatewayRefusal.

(** [enum class GatewayConfirmMode]. *)
Module GatewayConfirmMode.
Inductive GatewayConfirmMode : Type := never | first_use | always.
End GatewayConfirmMode.
Abbreviation GatewayConfirmMode := GatewayConfirmMode.GatewayConfirmMode.

Module GatewayPolicy.
Import ProtoCodec GatewayAddress.

Definition gateway_error (code : ErrorCode) (detail : string) : Error :=
  make_error code "gateway" detail.

Definition gateway_use_scope : list Z := bytes_of_string "gateway.use".

Definition gateway_provide_scope (profile : list Z) : list Z :=
  bytes_of_string "gateway.provide:" ++ profile.

Record GatewayConnect : Type := mkGatewayConnect {
  host : list Z;
  port : Z;
  connect_profile : list Z;
}.

Definition max_gateway_profile_bytes : Z := 64.
Definition max_gateway_profiles_per_endpoint_hard : Z := 64.
Definition max_gateway_dial_deadline : Z := 30000.
Definition hard_max_concurrent_gateway_streams : Z := 64.
Definition max_gateway_profile_bytes_hard : Z := 1024 * 1024 * 1024 * 1024.
Definition max_gateway_profile_bytes_per_second_hard : Z := 256 * 1024 * 1024.
Definition max_gateway_stream_idle_timeout : Z := 3600000.
Definition max_gateway_stream_duration : Z := 86400000.

Definition safe_gateway_profile_name (name : list Z) : bool :=
  if (zlen name =? 0) || (max_gateway_profile_bytes <? zlen name) then false
  else forallb (fun c => ((97 <=? c) && (c <=? 122)) || is_digit c || (c =? 95) || (c =? 46) || (c =? 45)) name.

Definition validate_gateway_connect (connect : GatewayConnect) : Result unit :=
  fail_if negb (valid_gateway_host (host connect))
    with gateway_error ErrorCode.permission "gateway_host_invalid";
  fail_if port connect =? 0 with gateway_error ErrorCode.permission "gateway_port_invalid";
  fail_if negb (zlen (connect_profile connect) =? 0)
          && negb (safe_gateway_profile_name (connect_profile connect))
    with gateway_error ErrorCode.permission "gateway_profile_invalid";
  success tt.

Definition encode_gateway_connect (connect : GatewayConnect) : Result (list Z) :=
  fail_if negb (valid_gateway_host (host connect))
    with gateway_error ErrorCode.protocol "gateway_host_invalid";
  fail_if port connect =? 0 with gateway_error ErrorCode.protocol "gateway_port_invalid";
  fail_if negb (zlen (connect_profile connect) =? 0)
          && negb (safe_gateway_profile_name (connect_profile connect))
    with gateway_error ErrorCode.protocol "gateway_profile_invalid";
  let payload := append_text [] 1 (host connect) in
  let payload := append_uint payload 2 (port connect) in
  success (if negb (zlen (connect_profile connect) =? 0)
           then append_text payload 3 (connect_profile connect) else payload).

(** The locals of [parse_gateway_connect]. *)
Record ConnectFields : Type := mkConnectFields {
  c_connect : GatewayConnect;
  have_host : bool;
  have_port : bool;
}.

Definition no_connect_fields : ConnectFields := mkConnectFields (mkGatewayConnect [] 0 []) false false.

Definition connect_step (s : ConnectFields) (parsed : ProtoField) : Result ConnectFields :=
  let connect := c_connect s in
  if (number parsed =? 1) && (wire_type parsed =? 2) then
    fail_if have_host s with gateway_error ErrorCode.protocol "gateway_field_conflict";
    success (mkConnectFields (mkGatewayConnect (field_bytes parsed) (port connect) (connect_profile connect))
               true (have_port s))
  else if (number parsed =? 2) && (wire_type parsed =? 0) then
    fail_if have_port s with gateway_error ErrorCode.protocol "gateway_field_conflict";
    fail_if (integer parsed =? 0) || (65535 <? integer parsed)
      with gateway_error ErrorCode.protocol "gateway_port_invalid";
    success (mkConnectFields (mkGatewayConnect (host connect) (u16 (integer parsed)) (connect_profile connect))
               (have_host s) true)
  else if (number parsed =? 3) && (wire_type parsed =? 2) then
    fail_if negb (zlen (connect_profile connect) =? 0)
      with gateway_error ErrorCode.protocol "gateway_field_conflict";
    success (mkConnectFields (mkGatewayConnect (host connect) (port connect) (field_bytes parsed))
               (have_host s) (have_port s))
  else failure (gateway_error ErrorCode.protocol "gateway_unknown_field").

Definition parse_gateway_connect (payload : list Z) : Result GatewayConnect :=
  let? s := parse_proto connect_step payload "proto" no_connect_fields in
  fail_if negb (have_host s) || negb (have_port s)
    with gateway_error ErrorCode.protocol "gateway_field_missing";
  success (c_connect s).

Definition gateway_prelude_bytes : Z := 2.
Definition gateway_prelude_connected : Z := 0.

Definition encode_gateway_prelude (status : Z) : list Z := [u8 (Z.shiftr status 8); u8 status].

Definition parse_gateway_prelude (payload : list Z) : Result Z :=
  fail_if negb (zlen payload =? gateway_prelude_bytes)
    with gateway_error ErrorCode.protocol "gateway_prelude_length";
  let high := byte_at payload 0 in
  let low := byte_at payload 1 in
  let status := u16 (Z.lor (Z.shiftl high 8) low) in
  fail_if negb (status =? gateway_prelude_connected)
    with gateway_error ErrorCode.protocol "gateway_prelude_status_invalid";
  success status.

Definition gateway_refusal_status (refusal : GatewayRefusal) : StableStatus :=
  match refusal with
  | GatewayRefusal.capability_not_negotiated => StableStatus.protocol_error
  | GatewayRefusal.invalid_target | GatewayRefusal.scope_denied | GatewayRefusal.policy_denied =>
      StableStatus.permission_denied
  | GatewayRefusal.quota_exhausted => StableStatus.resource_exhausted
  | GatewayRefusal.not_enabled => StableStatus.unimplemented
  | GatewayRefusal.dial_failed => StableStatus.unavailable
  | GatewayRefusal.dial_deadline => StableStatus.deadline_exceeded
  | GatewayRefusal.local_failure => StableStatus.internal
  end.

Definition gateway_refusal_name (refusal : GatewayRefusal) : string :=
  match refusal with
  | GatewayRefusal.capability_not_negotiated => "capability_not_negotiated"
  | GatewayRefusal.invalid_target => "invalid_target"
  | GatewayRefusal.not_enabled => "not_enabled"
  | GatewayRefusal.scope_denied => "scope_denied"
  | GatewayRefusal.policy_denied => "policy_denied"
  | GatewayRefusal.quota_exhausted => "quota_exhausted"
  | GatewayRefusal.dial_failed => "dial_failed"
  | GatewayRefusal.dial_deadline => "dial_deadline"
  | GatewayRefusal.local_failure => "local_failure"
  end.

(** The dial-latency members of [GatewayServiceStats]. *)
Definition dial_sample_window : Z := 256.

Record DialSamples : Type := mkDialSamples {
  dial_samples : list Z;
  dial_samples_count : Z;
  dial_samples_next : Z;
}.

Definition no_dial_samples : DialSamples := mkDialSamples (repeat 0 256) 0 0.

Definition record_gateway_dial_sample (stats : DialSamples) (milliseconds : Z) : DialSamples :=
  mkDialSamples
    (<[Z.to_nat (dial_samples_next stats) := milliseconds]> (dial_samples stats))
    (if dial_samples_count stats <? dial_sample_window then dial_samples_count stats + 1
     else dial_samples_count stats)
    ((dial_samples_next stats + 1) mod dial_sample_window).

Definition gateway_dial_p95 (stats : DialSamples) : Z :=
  let count := dial_samples_count stats in
  if count =? 0 then 0 else
  let window := merge_sort Z.le (take (Z.to_nat count) (dial_samples stats)) in
  let index := if 20 <=? count then count - count / 20 else count - 1 in
  nth (Z.to_nat index) window 0.

(** ** Profiles *)

Record GatewayPortRange : Type := mkPortRange { low : Z; high : Z }.

(** Durations are counted in milliseconds. *)
Record GatewayProfileConfig : Type := mkGatewayProfile {
  name : list Z;
  allowed_cidrs : list GatewayCidr;
  denied_cidrs : list GatewayCidr;
  allowed_ports : list GatewayPortRange;
  allow_internet : bool;
  max_concurrent_streams_per_session : Z;
  max_concurrent_streams_per_profile : Z;
  max_profile_bytes : Z;
  max_profile_bytes_per_second : Z;
  stream_idle_timeout : Z;
  stream_max_duration : Z;
  profile_dial_deadline : Z;
  confirm : GatewayConfirmMode;
}.

Definition configuration_error (detail : string) : Error := gateway_error ErrorCode.configuration detail.

Definition validate_gateway_profile (p : GatewayProfileConfig) : Result unit :=
  fail_if negb (safe_gateway_profile_name (name p)) with configuration_error "gateway_profile_name_invalid";
  fail_if zlen (allowed_cidrs p) =? 0 with configuration_error "gateway_profile_targets_empty";
  fail_if existsb (fun cidr => gateway_cidr_is_catch_all cidr && negb (allow_internet p)) (allowed_cidrs p)
    with configuration_error "gateway_profile_catch_all_without_internet";
  fail_if existsb (fun range => (low range =? 0) || (high range <? low range)) (allowed_ports p)
    with configuration_error "gateway_profile_ports_invalid";
  fail_if (max_concurrent_streams_per_session p =? 0)
          || (hard_max_concurrent_gateway_streams <? max_concurrent_streams_per_session p)
          || (max_concurrent_streams_per_profile p =? 0)
          || (hard_max_concurrent_gateway_streams <? max_concurrent_streams_per_profile p)
    with configuration_error "gateway_profile_concurrency_invalid";
  fail_if (max_profile_bytes p =? 0) || (max_gateway_profile_bytes_hard <? max_profile_bytes p)
          || (max_profile_bytes_per_second p =? 0)
          || (max_gateway_profile_bytes_per_second_hard <? max_profile_bytes_per_second p)
    with configuration_error "gateway_profile_quota_invalid";
  fail_if (stream_idle_timeout p <? 1000) || (max_gateway_stream_idle_timeout <? stream_idle_timeout p)
          || (stream_max_duration p <? 1000) || (max_gateway_stream_duration <? stream_max_duration p)
          || (profile_dial_deadline p <? 1000) || (max_gateway_dial_deadline <? profile_dial_deadline p)
    with configuration_error "gateway_profile_timeout_invalid";
  success tt.

Fixpoint validate_each (profiles : list GatewayProfileConfig) : Result unit :=
  match profiles with
  | [] => success tt
  | p :: profiles => let? _ := validate_gateway_profile p in validate_each profiles
  end.

(** The loops over [left] and [right]. *)
Fixpoint duplicate_names (profiles : list GatewayProfileConfig) : bool :=
  match profiles with
  | [] => false
  | first :: profiles =>
      existsb (fun second => bytes_eqb (name first) (name second)) profiles || duplicate_names profiles
  end.

Definition validate_gateway_profiles (profiles : list GatewayProfileConfig) : Result unit :=
  fail_if max_gateway_profiles_per_endpoint_hard <? zlen profiles
    with configuration_error "gateway_profile_count_invalid";
  let? _ := validate_each profiles in
  fail_if duplicate_names profiles with configuration_error "gateway_profile_name_duplicate";
  success tt.

Definition resolve_gateway_profile (profiles : list GatewayProfileConfig) (profile_name : list Z)
    : option GatewayProfileConfig :=
  if zlen profile_name =? 0 then (if zlen profiles =? 1 then head profiles else None)
  else List.find (fun candidate => bytes_eqb (name candidate) profile_name) profiles.

(** ** Admission *)

Definition builtin_gateway_deny_ranges : list (list Z) :=
  map bytes_of_string
    ["0.0.0.0/8"; "127.0.0.0/8"; "169.254.0.0/16"; "224.0.0.0/4"; "255.255.255.255/32"; "100.64.0.0/10";
     "::/128"; "::1/128"; "fe80::/10"; "ff00::/8"; "::ffff:0:0/96"]%string.

Definition cidr_list_contains (ranges : list GatewayCidr) (ip : GatewayIp) : bool :=
  existsb (fun cidr => gateway_cidr_contains cidr ip) ranges.

Definition builtin_denied (ip : GatewayIp) : bool :=
  existsb (fun range => match parse_gateway_cidr range with
                        | Some cidr => gateway_cidr_contains cidr ip
                        | None => false
                        end) builtin_gateway_deny_ranges.

Record GatewayAdmissionContext : Type := mkAdmissionContext {
  streams_active_session : Z;
  streams_active_profile : Z;
  profile_bytes_used : Z;
}.

Record GatewayAdmission : Type := mkGatewayAdmission {
  allowed : bool;
  refusal : GatewayRefusal;
  admitted_profile : option GatewayProfileConfig;
  dial_addresses : list GatewayIp;
}.

Definition refused (r : GatewayRefusal) : GatewayAdmission := mkGatewayAdmission false r None [].

(** The body of the loop over the resolved addresses. *)
Definition dialable (p : GatewayProfileConfig) (ip : GatewayIp) : bool :=
  let denied := builtin_denied ip in
  let denied := if negb denied && cidr_list_contains (denied_cidrs p) ip then true else denied in
  if denied then false else cidr_list_contains (allowed_cidrs p) ip.

Definition admit_gateway_connection (profiles : list GatewayProfileConfig) (connect : GatewayConnect)
    (resolved : list GatewayIp) (context : GatewayAdmissionContext) : GatewayAdmission :=
  match resolve_gateway_profile profiles (connect_profile connect) with
  | None => refused (if zlen (connect_profile connect) =? 0 then GatewayRefusal.not_enabled
                     else GatewayRefusal.policy_denied)
  | Some p =>
      if negb (existsb (fun range => (low range <=? port connect) && (port connect <=? high range))
                 (allowed_ports p))
      then refused GatewayRefusal.policy_denied
      else
        let addresses := List.filter (dialable p) resolved in
        if zlen addresses =? 0 then refused GatewayRefusal.policy_denied
        else if (max_concurrent_streams_per_session p <=? streams_active_session context)
                || (max_concurrent_streams_per_profile p <=? streams_active_profile context)
        then refused GatewayRefusal.quota_exhausted
        else if max_profile_bytes p <=? profile_bytes_used context
        then refused GatewayRefusal.quota_exhausted
        else mkGatewayAdmission true GatewayRefusal.policy_denied (Some p) addresses
  end.

End GatewayPolicy.

Import ProtoCodec GatewayAddress GatewayPolicy.

(** ** The built-in deny list *)

Lemma byte_bits_inj a b : is_byte a -> is_byte b -> byte_bits a = byte_bits b -> a = b.
Proof.
  intros Ha Hb H. unfold is_byte in *.
  assert (E : forall x, 0 <= x < 256 -> x = foldl (fun v bit => 2 * v + Z.b2z bit) 0 (byte_bits x)).
  { intros x Hx. apply (byte_forall (fun x => x =? foldl (fun v bit => 2 * v + Z.b2z bit) 0 (byte_bits x))) in Hx;
      [lia | vm_compute; reflexivity]. }
  rewrite (E a Ha), (E b Hb). by rewrite H.
Qed.

Lemma prefix_bytes k r l m :
  bytes_ok l -> bytes_ok m -> (k < length l)%nat -> (k < length m)%nat -> (r <= 8)%nat ->
  take (8 * k + r) (concat (map byte_bits l)) = take (8 * k + r) (concat (map byte_bits m)) <->
  take k l = take k m /\ take r (byte_bits (nth k l 0)) = take r (byte_bits (nth k m 0)).
Proof.
  intros Hl. revert k m. induction Hl as [| a l Ha Hl IH]; intros k m Hm Hk Hk' Hr; [cbn in Hk; lia |].
  destruct Hm as [| b m Hb Hm]; [cbn in Hk'; lia |]. cbn [length map concat] in *.
  destruct k as [| k]; cbn [nth].
  - change (8 * 0 + r)%nat with r. cbn [take]. rewrite !take_app_le by (cbn; lia). naive_solver.
  - cbn [take]. replace (8 * S k + r)%nat with (8 + (8 * k + r))%nat by lia.
    assert (E : forall x n bits, take (8 + n) (byte_bits x ++ bits) = byte_bits x ++ take n bits) by done.
    rewrite !E. clear E.
    specialize (IH k m Hm ltac:(lia) ltac:(lia) Hr). split.
    + intros [E1 E2]%app_inj_1; [| done]. apply byte_bits_inj in E1 as ->; [| done..].
      apply IH in E2 as [-> ?]. done.
    + intros [[= -> E1] E2]. f_equal. by apply IH.
Qed.

(** The addresses no profile can reach: for IPv4 this network, loopback,
    link-local, multicast, broadcast and carrier-grade NAT; for IPv6 the
    unspecified and loopback addresses, link-local, multicast and the
    IPv4-mapped addresses. *)
Definition reserved_address (ip : GatewayIp) : Prop :=
  let b := byte_at (ip_bytes ip) in
  if v4 ip then
    b 0 = 0 \/ b 0 = 127 \/ (b 0 = 169 /\ b 1 = 254) \/ 224 <= b 0 < 240 \/
    (b 0 = 255 /\ b 1 = 255 /\ b 2 = 255 /\ b 3 = 255) \/ (b 0 = 100 /\ 64 <= b 1 < 128)
  else
    (take 15 (ip_bytes ip) = repeat 0 15 /\ b 15 <= 1) \/ (b 0 = 254 /\ 128 <= b 1 < 192) \/ b 0 = 255 \/
    take 12 (ip_bytes ip) = repeat 0 10 ++ [255; 255].

Definition builtin_cidrs : list GatewayCidr :=
  let v4_range bytes bits := mkGatewayCidr (mkGatewayIp (bytes ++ repeat 0 (16 - length bytes)) true) bits in
  let v6_range bytes bits := mkGatewayCidr (mkGatewayIp (bytes ++ repeat 0 (16 - length bytes)) false) bits in
  [v4_range [] 8; v4_range [127] 8; v4_range [169; 254] 16; v4_range [224] 4; v4_range [255; 255; 255; 255] 32;
   v4_range [100; 64] 10; v6_range [] 128; v6_range (repeat 0 15 ++ [1]) 128; v6_range [254; 128] 10;
   v6_range [255] 8; v6_range (repeat 0 10 ++ [255; 255]) 96].

Lemma builtin_denied_eq ip : builtin_denied ip = cidr_list_contains builtin_cidrs ip.
Proof.
  unfold builtin_denied. replace (cidr_list_contains builtin_cidrs ip) with
    (existsb (fun o => match o with Some cidr => gateway_cidr_contains cidr ip | None => false end)
       (map Some builtin_cidrs)) by reflexivity.
  replace (map Some builtin_cidrs) with (map parse_gateway_cidr builtin_gateway_deny_ranges)
    by (vm_compute; reflexivity).
  induction builtin_gateway_deny_ranges as [| r rs IH]; [done |]. cbn [existsb map]. by rewrite IH.
Qed.

(** The top bits of a byte. *)
Definition top_bits (r : nat) (b : Z) : Z := b / 2 ^ (8 - Z.of_nat r).

Lemma take_byte_bits r a b :
  is_byte a -> is_byte b -> (r <= 8)%nat ->
  take r (byte_bits a) = take r (byte_bits b) <-> top_bits r a = top_bits r b.
Proof.
  intros Ha Hb Hr.
  set (value bits := foldl (fun v bit => 2 * v + Z.b2z bit) 0 bits).
  assert (V : forall x, is_byte x -> value (take r (byte_bits x)) = top_bits r x /\
                take r (byte_bits x) = take r (byte_bits (top_bits r x * 2 ^ (8 - Z.of_nat r)))).
  { intros x Hx. set (P r x := (value (take r (byte_bits x)) =? top_bits r x)
      && bool_decide (take r (byte_bits x) = take r (byte_bits (top_bits r x * 2 ^ (8 - Z.of_nat r))))).
    assert (H : P r x = true).
    { do 9 (destruct r as [| r]; [apply (byte_forall (P _)); [vm_compute; reflexivity | done] |]). lia. }
    apply andb_true_iff in H as [? H]. apply bool_decide_eq_true in H. split; [lia | done]. }
  destruct (V a Ha) as [Va Ta], (V b Hb) as [Vb Tb]. split; intros E.
  - by rewrite <- Va, <- Vb, E.
  - by rewrite Ta, Tb, E.
Qed.

Lemma cidr_contains_bytes cidr ip k r :
  gateway_cidr_wf cidr -> gateway_ip_wf ip -> prefix_bits cidr = Z.of_nat (8 * k + r) -> (r <= 8)%nat ->
  Z.of_nat k < address_width (address cidr) ->
  gateway_cidr_contains cidr ip = true <->
  v4 ip = v4 (address cidr) /\ take k (ip_bytes ip) = take k (ip_bytes (address cidr)) /\
  top_bits r (byte_at (ip_bytes ip) (Z.of_nat k)) = top_bits r (byte_at (ip_bytes (address cidr)) (Z.of_nat k)).
Proof.
  intros Hc Hi Hp Hr Hk. rewrite cidr_contains_covers by done. unfold cidr_covers, address_bits. rewrite Hp, Nat2Z.id.
  destruct Hc as [(Bc & Lc & _) _], Hi as (Bi & Li & _).
  destruct (Bool.bool_dec (v4 ip) (v4 (address cidr))) as [Hv |]; [| tauto]. rewrite Hv. apply and_iff_compat_l.
  assert (Ni := byte_at_is_byte _ (Z.of_nat k) Bi). assert (Nc := byte_at_is_byte _ (Z.of_nat k) Bc).
  unfold address_width in Hk. unfold byte_at in *. rewrite !Nat2Z.id in *.
  assert (Ht : forall n l, (k < n)%nat -> take k (take n l) = take k l /\ nth k (take n l) 0 = nth k l 0).
  { intros n l Hn'. split; [by rewrite take_take, Nat.min_l by lia |].
    rewrite <- (firstn_skipn n l) at 2. destruct (Nat.lt_ge_cases k (length (take n l))); [by rewrite app_nth1 |].
    rewrite (nth_overflow (take n l)) by lia. rewrite length_take in H.
    rewrite nth_overflow; [done |]. rewrite length_app, length_take, length_drop. lia. }
  destruct (v4 (address cidr)).
  - rewrite prefix_bytes; [| by apply Forall_take.. | rewrite length_take; lia | rewrite length_take; lia | done].
    destruct (Ht 4%nat (ip_bytes ip) ltac:(lia)) as [-> ->], (Ht 4%nat (ip_bytes (address cidr)) ltac:(lia)) as [-> ->].
    by rewrite take_byte_bits by auto.
  - rewrite prefix_bytes; [| done | done | lia | lia | done]. by rewrite take_byte_bits by auto.
Qed.

Lemma builtin_cidrs_wf : Forall gateway_cidr_wf builtin_cidrs.
Proof.
  repeat apply List.Forall_cons; try apply List.Forall_nil;
    (split; [split_and!; [apply bytes_ok_decide; vm_compute; reflexivity | done | done] | vm_compute; done]).
Qed.

Lemma cons_eq_iff {A} (x y : A) (l k : list A) : x :: l = y :: k <-> x = y /\ l = k.
Proof. naive_solver. Qed.

Lemma builtin_denied_spec ip : gateway_ip_wf ip -> builtin_denied ip = true <-> reserved_address ip.
Proof.
  intros Hi. rewrite builtin_denied_eq. unfold cidr_list_contains.
  assert (Hw := builtin_cidrs_wf). unfold builtin_cidrs in *. cbn [existsb]. rewrite !orb_true_iff.
  rewrite !List.Forall_cons_iff in Hw. destruct Hw as (H0 & H1 & H2 & H3 & H4 & H5 & H6 & H7 & H8 & H9 & H10 & _).
  rewrite (cidr_contains_bytes _ _ 0 8 H0 Hi) by (vm_compute; done || lia).
  rewrite (cidr_contains_bytes _ _ 0 8 H1 Hi) by (vm_compute; done || lia).
  rewrite (cidr_contains_bytes _ _ 1 8 H2 Hi) by (vm_compute; done || lia).
  rewrite (cidr_contains_bytes _ _ 0 4 H3 Hi) by (vm_compute; done || lia).
  rewrite (cidr_contains_bytes _ _ 3 8 H4 Hi) by (vm_compute; done || lia).
  rewrite (cidr_contains_bytes _ _ 1 2 H5 Hi) by (vm_compute; done || lia).
  rewrite (cidr_contains_bytes _ _ 15 8 H6 Hi) by (vm_compute; done || lia).
  rewrite (cidr_contains_bytes _ _ 15 8 H7 Hi) by (vm_compute; done || lia).
  rewrite (cidr_contains_bytes _ _ 1 2 H8 Hi) by (vm_compute; done || lia).
  rewrite (cidr_contains_bytes _ _ 0 8 H9 Hi) by (vm_compute; done || lia).
  rewrite (cidr_contains_bytes _ _ 11 8 H10 Hi) by (vm_compute; done || lia).
  clear H0 H1 H2 H3 H4 H5 H6 H7 H8 H9 H10. destruct ip as [bytes v], Hi as (Hb & Hl & _). cbn [ip_bytes v4] in *.
  do 16 (destruct bytes as [| ? bytes]; [done |]). destruct bytes; [| done]. clear Hl.
  unfold bytes_ok in Hb. rewrite !Forall_cons in Hb. unfold is_byte in Hb.
  unfold reserved_address, top_bits, byte_at. cbn [v4 ip_bytes address]. simpl.
  change (8 - Z.of_nat 8) with 0. change (8 - Z.of_nat 4) with 4.
  change (8 - Z.of_nat 2) with 6. rewrite !Z.div_1_r.
  assert (D4 : z / 2 ^ 4 = 224 / 2 ^ 4 <-> 224 <= z < 240) by (Z.div_mod_to_equations; lia).
  assert (D6 : forall w, w / 2 ^ 6 = 64 / 2 ^ 6 <-> 64 <= w < 128) by (intros; Z.div_mod_to_equations; lia).
  assert (D6' : forall w, w / 2 ^ 6 = 128 / 2 ^ 6 <-> 128 <= w < 192) by (intros; Z.div_mod_to_equations; lia).
  assert (D1 : z14 <= 1 <-> z14 = 0 \/ z14 = 1) by lia.
  assert (E1 : forall w, [z] = [w] <-> z = w) by naive_solver.
  assert (E3 : [z; z0; z1] = [255; 255; 255] <-> z = 255 /\ z0 = 255 /\ z1 = 255) by naive_solver.
  rewrite D4, D6, D6', !E1, E3.
  destruct v.
  - split.
    + intros H; destruct_or! H; destruct_and? H; (discriminate || tauto).
    + intros H; destruct_or! H; destruct_and? H; tauto.
  - assert (E12 : [z; z0; z1; z2; z3; z4; z5; z6; z7; z8; z9; z10] = [0; 0; 0; 0; 0; 0; 0; 0; 0; 0; 255; 255] <->
              [z; z0; z1; z2; z3; z4; z5; z6; z7; z8; z9] = [0; 0; 0; 0; 0; 0; 0; 0; 0; 0; 255] /\ z10 = 255).
    { repeat rewrite cons_eq_iff. clear. tauto. }
    rewrite D1, E12. split.
    + intros H; destruct_or! H; destruct_and? H; (discriminate || tauto).
    + intros H; destruct_or! H; destruct_and? H; tauto.
Qed.

(** ** Admission *)

(** What the policy lets a profile dial. *)
Definition may_dial (p : GatewayProfileConfig) (ip : GatewayIp) : Prop :=
  ~ reserved_address ip /\
  (forall cidr, cidr ∈ denied_cidrs p -> ~ cidr_covers cidr ip) /\
  exists cidr, cidr ∈ allowed_cidrs p /\ cidr_covers cidr ip.

Definition gateway_profile_wf (p : GatewayProfileConfig) : Prop :=
  Forall gateway_cidr_wf (allowed_cidrs p) /\ Forall gateway_cidr_wf (denied_cidrs p).

Lemma cidr_list_contains_spec ranges ip :
  Forall gateway_cidr_wf ranges -> gateway_ip_wf ip ->
  cidr_list_contains ranges ip = true <-> exists cidr, cidr ∈ ranges /\ cidr_covers cidr ip.
Proof.
  intros Hr Hi. unfold cidr_list_contains. rewrite existsb_exists. rewrite Forall_forall in Hr. split.
  - intros (c & Hc & H). apply list_elem_of_In in Hc. exists c. split; [done |]. by apply cidr_contains_covers; auto.
  - intros (c & Hc & H). exists c. split; [by apply list_elem_of_In |]. by apply cidr_contains_covers; auto.
Qed.

Lemma dialable_spec p ip : gateway_profile_wf p -> gateway_ip_wf ip -> dialable p ip = true <-> may_dial p ip.
Proof.
  intros [Ha Hd] Hi. unfold dialable, may_dial. rewrite <- builtin_denied_spec by done.
  assert (Sd := cidr_list_contains_spec _ ip Hd Hi). assert (Sa := cidr_list_contains_spec _ ip Ha Hi).
  destruct (builtin_denied ip); cbn [negb andb]; [naive_solver |].
  destruct (cidr_list_contains (denied_cidrs p) ip).
  - split; [done |]. intros (_ & H & _). destruct (proj1 Sd eq_refl) as (c & ? & ?). by destruct (H c).
  - rewrite Sa. split; [| naive_solver]. intros H. split_and!; [done | | done].
    intros c Hc Hv. assert (false = true) by (apply Sd; eauto). done.
Qed.

(** The port and the quotas of the profile let one more stream in. *)
Definition within_limits (p : GatewayProfileConfig) (connect : GatewayConnect)
    (context : GatewayAdmissionContext) : Prop :=
  (exists range, range ∈ allowed_ports p /\ low range <= port connect <= high range) /\
  streams_active_session context < max_concurrent_streams_per_session p /\
  streams_active_profile context < max_concurrent_streams_per_profile p /\
  profile_bytes_used context < max_profile_bytes p.

Lemma resolve_in profiles profile_name p :
  resolve_gateway_profile profiles profile_name = Some p -> p ∈ profiles.
Proof.
  unfold resolve_gateway_profile. destruct (_ =? 0).
  - destruct (_ =? 1); [| done]. destruct profiles; cbn; [done |]. intros [= ->]. apply list_elem_of_here.
  - intros [H _]%find_some. by apply list_elem_of_In.
Qed.

Lemma port_allowed_spec p connect :
  existsb (fun range => (low range <=? port connect) && (port connect <=? high range)) (allowed_ports p) = true <->
  exists range, range ∈ allowed_ports p /\ low range <= port connect <= high range.
Proof.
  rewrite existsb_exists. split; intros (r & Hr & H); exists r; rewrite list_elem_of_In in *; (split; [done | lia]).
Qed.

Lemma admit_cases profiles connect resolved context :
  (exists p, resolve_gateway_profile profiles (connect_profile connect) = Some p /\
     within_limits p connect context /\ List.filter (dialable p) resolved <> [] /\
     admit_gateway_connection profiles connect resolved context =
     mkGatewayAdmission true GatewayRefusal.policy_denied (Some p) (List.filter (dialable p) resolved)) \/
  (exists x, admit_gateway_connection profiles connect resolved context = refused x /\
     forall p, resolve_gateway_profile profiles (connect_profile connect) = Some p ->
       within_limits p connect context -> List.filter (dialable p) resolved = []).
Proof.
  unfold admit_gateway_connection, within_limits.
  destruct (resolve_gateway_profile profiles (connect_profile connect)) as [p |]; [| right; eexists; naive_solver].
  assert (Hport := port_allowed_spec p connect). destruct (existsb _ _); cbn [negb].
  2:{ right. eexists. split; [done |]. intros ? [= <-] (H & _). by apply Hport in H. }
  destruct (List.filter (dialable p) resolved) as [| ip ips] eqn:F; [right; eexists; naive_solver |].
  rewrite zlen_cons. assert (Hz := zlen_nonneg ips). rewrite (proj2 (Z.eqb_neq _ 0)) by lia.
  destruct (_ || _) eqn:Eq; [right; eexists; split; [done |]; intros ? [= <-] ?; lia |].
  destruct (_ <=? profile_bytes_used _) eqn:Eb; [right; eexists; split; [done |]; intros ? [= <-] ?; lia |].
  left. exists p. split_and!; [done | naive_solver | lia | lia | lia | by rewrite F | by rewrite F].
Qed.

Lemma filter_sublist {A} (f : A -> bool) l : List.filter f l `sublist_of` l.
Proof. induction l as [| x l IH]; cbn; [done |]. destruct (f x); by constructor. Qed.

(** C29. The admission engine is exact: a connection is allowed when and only when
    its profile resolves, the port is one of the profile, the three quotas have room
    and some resolved address may be dialled; the addresses handed to the dialler are
    the resolved ones that may be dialled, in resolution order; and none of them is a
    reserved address of the built-in list (loopback, link-local, multicast,
    carrier-grade NAT, or any IPv4-mapped spelling), lies in a denied range, or
    lies outside the allowed ranges. These are all the rules: an endpoint of the
    tunnel itself and a control port of the node are not refused. *)
Theorem gateway_admission_exact profiles connect resolved context :
  Forall gateway_profile_wf profiles -> Forall gateway_ip_wf resolved ->
  let r := admit_gateway_connection profiles connect resolved context in
  (allowed r = true <->
   exists p, resolve_gateway_profile profiles (connect_profile connect) = Some p /\
     within_limits p connect context /\ exists ip, ip ∈ resolved /\ may_dial p ip) /\
  (forall ip, ip ∈ dial_addresses r <->
     exists p, admitted_profile r = Some p /\ ip ∈ resolved /\ may_dial p ip) /\
  dial_addresses r `sublist_of` resolved /\
  (allowed r = false -> dial_addresses r = [] /\ admitted_profile r = None).
Proof.
  intros Hp Hr r. rewrite Forall_forall in Hp. assert (Hr' := proj1 (List.Forall_forall _ _) Hr). clear Hr.
  assert (Hd : forall p ip, resolve_gateway_profile profiles (connect_profile connect) = Some p ->
    In ip (List.filter (dialable p) resolved) <-> ip ∈ resolved /\ may_dial p ip).
  { intros p ip E%resolve_in. rewrite filter_In, list_elem_of_In.
    split; (intros [Hip H]; split; [done |]; apply dialable_spec in H || apply dialable_spec; auto). }
  destruct (admit_cases profiles connect resolved context) as [(p & E & Hl & Hn & Ea) | (x & Ea & Hx)];
    unfold r; rewrite Ea; cbn [allowed dial_addresses admitted_profile refused].
  - split_and!; [| | apply filter_sublist | done].
    + split; [intros _ | done]. exists p. split_and!; [done | done |].
      destruct (List.filter (dialable p) resolved) as [| ip ips] eqn:F; [done |].
      exists ip. apply Hd; [done |]. rewrite F. by left.
    + intros ip. rewrite list_elem_of_In, (Hd p) by done. naive_solver.
  - split_and!; [| | apply sublist_nil_l | done].
    + split; [done |]. intros (p & E & Hl & ip & Hip). apply (Hd p ip E) in Hip. by rewrite Hx in Hip.
    + intros ip. rewrite list_elem_of_In. naive_solver.
Qed.

Definition sample_gateway_profile : GatewayProfileConfig :=
  mkGatewayProfile (bytes_of_string "lab") [mkGatewayCidr (mkGatewayIp (repeat 0 16) true) 0]
    [mkGatewayCidr (mkGatewayIp (10 :: repeat 0 15) true) 8] [mkPortRange 443 443] true 8 16 1000 1000
    300000 3600000 10000 GatewayConfirmMode.never.

(** Of a public, a denied and a loopback address, the first is dialled. *)
Definition sample_resolved : list GatewayIp :=
  map (fun bytes => mkGatewayIp (bytes ++ repeat 0 12) true) [[93; 184; 216; 34]; [10; 1; 2; 3]; [127; 0; 0; 1]].

Lemma gateway_admission_exact_witness :
  let r := admit_gateway_connection [sample_gateway_profile]
             (mkGatewayConnect (bytes_of_string "example.org") 443 []) sample_resolved (mkAdmissionContext 0 0 0) in
  dial_addresses r = [mkGatewayIp ([93; 184; 216; 34] ++ repeat 0 12) true] /\
  (allowed r = true <->
   exists p, resolve_gateway_profile [sample_gateway_profile] [] = Some p /\
     within_limits p (mkGatewayConnect (bytes_of_string "example.org") 443 []) (mkAdmissionContext 0 0 0) /\
     exists ip, ip ∈ sample_resolved /\ may_dial p ip).
Proof.
  intros r. split; [vm_compute; reflexivity |].
  refine (proj1 (gateway_admission_exact [sample_gateway_profile]
    (mkGatewayConnect (bytes_of_string "example.org") 443 []) sample_resolved (mkAdmissionContext 0 0 0) _ _)).
  - apply List.Forall_cons; [| apply List.Forall_nil].
    split; (apply List.Forall_cons; [| apply List.Forall_nil]); (split; [| vm_compute; done]);
      (split_and!; [apply bytes_ok_decide; vm_compute; reflexivity | done | done]).
  - repeat apply List.Forall_cons; try apply List.Forall_nil;
      (split_and!; [apply bytes_ok_decide; vm_compute; reflexivity | done | done]).
Defined.

(** ** The GatewayConnect body *)

Definition connect_fields (c : GatewayConnect) : list ProtoField :=
  [bytes_field 1 (host c); uint_field 2 (port c)]
  ++ (if zlen (connect_profile c) =? 0 then [] else [bytes_field 3 (connect_profile c)]).

Lemma encode_connect_layout c b :
  encode_gateway_connect c = success b <->
  validate_gateway_connect c = success tt /\ b = encode_fields (connect_fields c).
Proof.
  unfold encode_gateway_connect, validate_gateway_connect.
  assert (E : encode_fields (connect_fields c) =
    if negb (zlen (connect_profile c) =? 0)
    then append_text (append_uint (append_text [] 1 (host c)) 2 (port c)) 3 (connect_profile c)
    else append_uint (append_text [] 1 (host c)) 2 (port c)).
  { unfold connect_fields, append_text. destruct (_ =? 0); cbn [negb app];
      rewrite ?append_bytes_field, ?append_uint_field; unfold encode_fields; cbn [map concat];
      by rewrite ?app_nil_r, <- ?app_assoc. }
  rewrite <- E. repeat (case_match; try naive_solver).
Qed.

Lemma validate_connect_spec c :
  validate_gateway_connect c = success tt <->
  valid_gateway_host (host c) = true /\ port c <> 0 /\
  (connect_profile c = [] \/ safe_gateway_profile_name (connect_profile c) = true).
Proof.
  unfold validate_gateway_connect.
  assert (Hz : connect_profile c = [] <-> zlen (connect_profile c) = 0).
  { destruct (connect_profile c) as [| x l]; [done |]. rewrite zlen_cons. assert (H := zlen_nonneg l). split; [done | lia]. }
  rewrite Hz.
  destruct (valid_gateway_host _); cbn [negb]; [| naive_solver].
  destruct (port c =? 0) eqn:Ep; [naive_solver lia |].
  destruct (zlen (connect_profile c) =? 0) eqn:Ez; cbn [negb andb]; [naive_solver lia |].
  destruct (safe_gateway_profile_name _); cbn [negb]; naive_solver lia.
Qed.

Lemma valid_host_bytes h : valid_gateway_host h = true -> bytes_ok h /\ zlen h <= 253.
Proof.
  unfold valid_gateway_host, max_gateway_host_bytes. destruct (_ || _) eqn:E; [done |].
  destruct (forallb _ _) eqn:F; [| done]. intros _. split; [| lia].
  apply Forall_forall. intros x Hx. rewrite forallb_forall in F. apply list_elem_of_In, F in Hx. unfold is_byte. lia.
Qed.

Lemma safe_profile_bytes n : safe_gateway_profile_name n = true -> bytes_ok n /\ 1 <= zlen n <= 64.
Proof.
  unfold safe_gateway_profile_name, max_gateway_profile_bytes. destruct (_ || _) eqn:E; [done |]. intros F.
  assert (Hz := zlen_nonneg n). split; [| lia].
  apply Forall_forall. intros x Hx. rewrite forallb_forall in F. apply list_elem_of_In, F in Hx.
  unfold is_byte, is_digit in *. lia.
Qed.

Lemma parse_encode_connect c b :
  is_u16 (port c) -> encode_gateway_connect c = success b -> parse_gateway_connect b = success c.
Proof.
  intros Hp [(Hh & Hport & Hn)%validate_connect_spec ->]%encode_connect_layout. unfold is_u16 in Hp.
  destruct (valid_host_bytes _ Hh) as [Bh Lh]. unfold parse_gateway_connect.
  assert (Hu : u16 (port c) = port c) by (apply Z.mod_small; lia).
  rewrite parse_proto_encode.
  2:{ unfold connect_fields. rewrite Forall_app. split.
      - rewrite !Forall_cons. split_and!; [apply bytes_field_ok; (done || lia) | | done].
        apply uint_field_ok; unfold is_u64; lia.
      - destruct (_ =? 0) eqn:E; [done |]. destruct Hn as [Hn | [? ?]%safe_profile_bytes]; [by rewrite Hn in E |].
        rewrite Forall_cons. split; [apply bytes_field_ok; (done || lia) | done]. }
  unfold connect_fields, no_connect_fields. cbn [app].
  erewrite fold_fields_cons by reflexivity.
  erewrite fold_fields_cons by (cbn; rewrite (proj2 (orb_false_iff _ _)) by lia; rewrite Hu; reflexivity).
  destruct c as [h p n]; cbn [host port connect_profile] in *.
  destruct Hn as [-> | [Bn Ln]%safe_profile_bytes]; [done |]. rewrite (proj2 (Z.eqb_neq _ _)) by lia.
  erewrite fold_fields_cons by reflexivity. reflexivity.
Qed.

Definition connect_typed (s : ConnectFields) : Prop :=
  bytes_ok (host (c_connect s)) /\ bytes_ok (connect_profile (c_connect s)) /\
  (have_port s = true -> 1 <= port (c_connect s) <= 65535).

Lemma connect_step_typed s f s' :
  field_ok f -> connect_typed s -> connect_step s f = success s' -> connect_typed s'.
Proof.
  intros Hf (H1 & H2 & H3) H. unfold connect_step in H.
  repeat match type of H with (if ?c then _ else _) = _ => let E := fresh "E" in destruct c eqn:E; try discriminate H end;
    injection H as <-; unfold connect_typed; cbn; split_and?; try done; try (apply field_bytes_ok; [done | lia]).
  intros _. assert (Hi := integer_u64 f Hf ltac:(lia)). unfold is_u64 in Hi. unfold u16. rewrite Z.mod_small; lia.
Qed.

(** The GatewayConnect codec: a body that encodes is a valid one and parses
    back to itself; whatever parses is well-typed with a port in 1..65535, and if
    it also passes the structural validation it re-encodes to a body with the same
    meaning. *)
Theorem gateway_connect_codec :
  (forall c b, is_u16 (port c) -> encode_gateway_connect c = success b ->
     parse_gateway_connect b = success c /\ validate_gateway_connect c = success tt) /\
  (forall payload c, bytes_ok payload -> parse_gateway_connect payload = success c ->
     1 <= port c <= 65535 /\ bytes_ok (host c) /\ bytes_ok (connect_profile c) /\
     (validate_gateway_connect c = success tt ->
      exists b, encode_gateway_connect c = success b /\ parse_gateway_connect b = success c)).
Proof.
  split.
  - intros c b Hp H. split; [by eapply parse_encode_connect | by apply (encode_connect_layout c b)].
  - intros payload c Hok H. unfold parse_gateway_connect in H. apply result_bind_success in H as (s & Hs & H).
    assert (Ht : connect_typed s).
    { eapply (parse_proto_invariant connect_typed); [| exact Hok | | exact Hs].
      - eauto using connect_step_typed.
      - split_and!; [apply bytes_ok_nil | apply bytes_ok_nil | done]. }
    destruct (_ || _) eqn:E; [done |]. injection H as <-. destruct Ht as (H1 & H2 & H3).
    assert (Hp : 1 <= port (c_connect s) <= 65535) by (apply H3; by destruct (have_host s), (have_port s)).
    split_and!; try lia; try done. intros Hv. eexists. split; [by apply encode_connect_layout |].
    apply parse_encode_connect; [unfold is_u16; lia |]. by apply encode_connect_layout.
Qed.

(** ** The dial-latency percentile *)

(** The samples the window keeps: the latest 256. *)
Definition latest (samples : list Z) : list Z := drop (length samples - 256) samples.

Definition record_all (samples : list Z) : DialSamples := foldl record_gateway_dial_sample no_dial_samples samples.

(** While it fills, the ring holds the samples from its start; once full, the
    oldest one is next to be overwritten. *)
Definition ring_holds (samples : list Z) (stats : DialSamples) : Prop :=
  length (dial_samples stats) = 256%nat /\
  if decide (length samples < 256)%nat then
    dial_samples_count stats = zlen samples /\ dial_samples_next stats = zlen samples /\
    take (length samples) (dial_samples stats) = samples
  else
    dial_samples_count stats = 256 /\ 0 <= dial_samples_next stats < 256 /\
    let next := Z.to_nat (dial_samples_next stats) in
    drop next (dial_samples stats) ++ take next (dial_samples stats) = latest samples.

Lemma latest_snoc samples s :
  (256 <= length samples)%nat -> latest (samples ++ [s]) = tail (latest samples) ++ [s].
Proof.
  intros Hl. unfold latest. rewrite length_app. cbn [length].
  replace (length samples + 1 - 256)%nat with (S (length samples - 256)) by lia.
  rewrite drop_app_le by lia. f_equal. replace (S (length samples - 256)) with (length samples - 256 + 1)%nat by lia.
  rewrite <- drop_drop. by destruct (drop (length samples - 256) samples).
Qed.

Lemma take_insert_next (l : list Z) n s :
  (n < length l)%nat -> take (S n) (<[n:=s]> l) = take n l ++ [s].
Proof.
  intros Hn. erewrite take_S_r by (by apply list_lookup_insert_eq). by rewrite take_insert_ge by lia.
Qed.

(** Overwriting the slot at [n] of a full ring drops the oldest sample. *)
Lemma ring_overwrite (l : list Z) n s :
  length l = 256%nat -> (n < 256)%nat ->
  let next := ((n + 1) mod 256)%nat in
  drop next (<[n:=s]> l) ++ take next (<[n:=s]> l) = tail (drop n l ++ take n l) ++ [s].
Proof.
  intros Hl Hn. cbn zeta. destruct (lookup_lt_is_Some_2 l n) as [x Hx]; [lia |].
  rewrite (drop_S l x n Hx). cbn [app tail]. destruct (decide (n = 255)%nat) as [-> | Hne].
  - change ((255 + 1) mod 256)%nat with 0%nat. rewrite drop_0, take_0, app_nil_r.
    rewrite (drop_ge l 256) by lia. cbn [app]. rewrite <- (take_insert_next l 255 s) by lia.
    by rewrite take_ge by (rewrite length_insert; lia).
  - rewrite Nat.mod_small, Nat.add_1_r by lia. rewrite drop_insert_lt by lia.
    by rewrite take_insert_next, app_assoc by lia.
Qed.

Lemma ring_holds_step samples stats s :
  ring_holds samples stats -> ring_holds (samples ++ [s]) (record_gateway_dial_sample stats s).
Proof.
  intros [Hl H]. unfold record_gateway_dial_sample, dial_sample_window, ring_holds.
  cbn [dial_samples dial_samples_count dial_samples_next]. rewrite length_insert, length_app. cbn [length].
  split; [done |]. destruct (decide (length samples < 256)%nat) as [Hs | Hs].
  - destruct H as (-> & -> & Hw). rewrite (proj2 (Z.ltb_lt _ _)) by (unfold zlen; lia).
    replace (Z.to_nat (zlen samples)) with (length samples) by (unfold zlen; lia).
    assert (Ht : take (S (length samples)) (<[length samples:=s]> (dial_samples stats)) = samples ++ [s])
      by (by rewrite take_insert_next, Hw by lia).
    rewrite Nat.add_1_r. destruct (decide _).
    + rewrite zlen_app. change (zlen [s]) with 1. by rewrite Z.mod_small by (unfold zlen; lia).
    + assert (length samples = 255%nat) as E by lia. unfold zlen, latest. rewrite length_app, E in *.
      rewrite take_ge in Ht by (rewrite length_insert; lia). rewrite Ht. by rewrite app_nil_r.
  - destruct H as (-> & Hr & Hw). rewrite decide_False by lia. cbn zeta.
    assert (Hm := Z.mod_pos_bound (dial_samples_next stats + 1) 256 ltac:(lia)). split_and!; [done | lia | lia |].
    rewrite latest_snoc, <- Hw by lia.
    replace (Z.to_nat ((dial_samples_next stats + 1) mod 256))
      with ((Z.to_nat (dial_samples_next stats) + 1) mod 256)%nat; [apply ring_overwrite; lia |].
    rewrite Z2Nat.inj_mod, Z2Nat.inj_add by lia. done.
Qed.

Lemma record_all_ring samples : ring_holds samples (record_all samples).
Proof.
  induction samples as [| s samples IH] using rev_ind; [split; done |].
  unfold record_all. rewrite foldl_app. by apply ring_holds_step.
Qed.

Lemma window_latest samples :
  dial_samples_count (record_all samples) = zlen (latest samples) /\
  Permutation (take (Z.to_nat (dial_samples_count (record_all samples))) (dial_samples (record_all samples)))
    (latest samples).
Proof.
  destruct (record_all_ring samples) as [Hl H]. unfold zlen, latest in *. rewrite length_drop.
  destruct (decide _).
  - destruct H as (-> & _ & H). replace (length samples - 256)%nat with 0%nat by lia.
    rewrite drop_0, Nat.sub_0_r. unfold zlen. rewrite Nat2Z.id, H. done.
  - destruct H as (-> & _ & H). split; [lia |]. rewrite take_ge by (rewrite Hl; lia). rewrite <- H.
    rewrite Permutation_app_comm. by rewrite take_drop.
Qed.

Lemma filter_keep_all (P : Z -> Prop) `{forall x, Decision (P x)} (l : list Z) : (forall x, x ∈ l -> P x) -> filter P l = l.
Proof.
  induction l as [| x l IH]; intros Hl; [done |]. rewrite filter_cons, decide_True by (apply Hl, list_elem_of_here).
  f_equal. apply IH. intros y Hy. by apply Hl, list_elem_of_further.
Qed.

(** How many values of a sorted list lie above and not below its [i]-th one. *)
Lemma sorted_rank (l : list Z) (i : nat) :
  StronglySorted Z.le l -> (i < length l)%nat ->
  zlen (filter (fun s => nth i l 0 < s) l) < zlen l - Z.of_nat i /\
  zlen l - Z.of_nat i <= zlen (filter (fun s => nth i l 0 <= s) l) /\ nth i l 0 ∈ l.
Proof.
  intros Hs. revert i. induction Hs as [| x l Hs IH Hx]; intros i Hi; cbn [length] in *; [lia |].
  rewrite Forall_forall in Hx. unfold zlen in *. cbn [length]. destruct i as [| i]; cbn [nth].
  - rewrite !filter_cons, decide_False, decide_True by lia. split_and!; [| | apply list_elem_of_here].
    + assert (H := length_filter (fun s => x < s) l). lia.
    + cbn [length]. rewrite (filter_keep_all (fun s => x <= s) l) by done. lia.
  - destruct (IH i ltac:(lia)) as (H1 & H2 & H3). assert (Hxi := Hx _ H3).
    rewrite !filter_cons. rewrite (decide_False (P := nth i l 0 < x)) by lia.
    split_and!; [lia | | by apply list_elem_of_further]. case_decide; cbn [length]; lia.
Qed.

(** The dial-latency window and the exported 95th percentile: after any
    history of samples the window is the latest 256 of them, and the exported value
    is one of them such that at most a twentieth of the window is larger and at
    least a twentieth is no smaller (zero when nothing was recorded). *)
Theorem dial_p95_percentile samples :
  let stats := record_all samples in
  let window := latest samples in
  let p95 := gateway_dial_p95 stats in
  take (Z.to_nat (dial_samples_count stats)) (dial_samples stats) ≡ₚ window /\
  (window = [] /\ p95 = 0 \/ p95 ∈ window) /\
  zlen (filter (fun s => p95 < s) window) <= zlen window / 20 <= zlen (filter (fun s => p95 <= s) window).
Proof.
  intros stats window p95. destruct (window_latest samples) as [Hc Hw]. fold stats window in Hc, Hw.
  split; [done |]. unfold p95, gateway_dial_p95. rewrite Hc.
  destruct (zlen window =? 0) eqn:E0.
  { assert (Ew : window = []) by (apply length_zero_iff_nil; unfold zlen in E0; lia). rewrite Ew.
    split; [by left |]. by vm_compute. }
  set (sorted := merge_sort Z.le (take (Z.to_nat (zlen window)) (dial_samples stats))).
  assert (Hp : Permutation sorted window) by (unfold sorted; rewrite merge_sort_Permutation, <- Hc; done).
  set (index := if 20 <=? zlen window then zlen window - zlen window / 20 else zlen window - 1).
  assert (Hz : zlen sorted = zlen window) by (unfold zlen; by rewrite Hp).
  assert (Hi : 0 <= index < zlen window /\ zlen window - index - 1 <= zlen window / 20 <= zlen window - index).
  { unfold index. assert (H := zlen_nonneg window). destruct (20 <=? zlen window) eqn:E; Z.div_mod_to_equations; lia. }
  destruct (sorted_rank sorted (Z.to_nat index)) as (H1 & H2 & H3).
  { apply StronglySorted_merge_sort; [intros x y z; lia | intros x y; lia]. }
  { unfold zlen in *. lia. }
  apply list_elem_of_In, (Permutation_in _ Hp), list_elem_of_In in H3. split; [by right |].
  assert (Hf : forall (P : Z -> Prop) `{forall x, Decision (P x)}, zlen (filter P window) = zlen (filter P sorted))
    by (intros; unfold zlen; by rewrite Hp).
  rewrite !Hf. lia.
Qed.
