(* ===== verification/Effects.v ===== *)
(** * Operations on a state

    The services of the client are written as sequences of calls that change the
    members of an object and the session below it. [M S A] is an operation on the
    state [S] with the result [A]; it has no result where a callee has none. [wp]
    is its total weakest precondition, with the rules that the invariants of the
    services are proved with. *)

From Stdlib Require Import ZArith.
From stdpp Require Import base tactics option list.
From S2P Require Import Prelude.

Module Effects.

Definition M (S A : Type) : Type := S -> option (A * S).

Definition ret {S A} (a : A) : M S A := fun s => Some (a, s).
Definition bind {S A B} (m : M S A) (k : A -> M S B) : M S B :=
  fun s => match m s with Some (a, s) => k a s | None => None end.
Definition get {S A} (f : S -> A) : M S A := fun s => Some (f s, s).
Definition modify {S} (f : S -> S) : M S unit := fun s => Some (tt, f s).

(** A range-based [for]. *)
Fixpoint each {S A} (f : A -> M S unit) (l : list A) : M S unit :=
  match l with
  | [] => ret tt
  | x :: l => bind (f x) (fun _ => each f l)
  end.

End Effects.

Declare Scope effect_scope.
Delimit Scope effect_scope with effect.
Notation "'let*' x := m 'in' k" := (Effects.bind m (fun x => k))
  (at level 10, x pattern, m at level 100, k at level 200) : effect_scope.
Notation "m ;; k" := (Effects.bind m (fun _ => k)) (at level 100, k at level 200, right associativity) : effect_scope.

Section wp.
Import Effects.
Context {S : Type}.
Implicit Types s : S.

Definition wp {A} (m : M S A) (Q : A -> S -> Prop) s : Prop := exists x s', m s = Some (x, s') /\ Q x s'.

Lemma wp_ret {A} (x : A) (Q : A -> S -> Prop) s : Q x s -> wp (ret x) Q s.
Proof. intros H. by exists x, s. Qed.

Lemma wp_get {A} (f : S -> A) (Q : A -> S -> Prop) s : Q (f s) s -> wp (get f) Q s.
Proof. intros H. by exists (f s), s. Qed.

Lemma wp_modify f (Q : unit -> S -> Prop) s : Q tt (f s) -> wp (modify f) Q s.
Proof. intros H. by exists tt, (f s). Qed.

Lemma wp_bind {A B} (m : M S A) (k : A -> M S B) Q s : wp m (fun x => wp (k x) Q) s -> wp (bind m k) Q s.
Proof. intros (x & s1 & E1 & (y & s2 & E2 & HQ)). exists y, s2. split; [| done]. unfold bind. by rewrite E1. Qed.

Lemma wp_mono {A} (m : M S A) (P Q : A -> S -> Prop) s :
  wp m P s -> (forall x s', P x s' -> Q x s') -> wp m Q s.
Proof. intros (x & s1 & E1 & HP) H. exists x, s1. eauto. Qed.

Lemma wp_each {A} (f : A -> M S unit) (I : S -> Prop) l s :
  I s -> (forall x s, x ∈ l -> I s -> wp (f x) (fun _ => I) s) -> wp (each f l) (fun _ => I) s.
Proof.
  revert s. induction l as [| x l IH]; intros s Hs Hf; cbn [each]; [by apply wp_ret |].
  apply wp_bind. eapply wp_mono; [apply Hf; [left | done] |]. intros u s' Hs'. apply IH; [done |].
  intros y s0 Hy. apply Hf. by right.
Qed.

(** The result of an operation that is known to return. *)
Lemma wp_run {A} (m : M S A) (Q : A -> S -> Prop) s x s' : wp m Q s -> m s = Some (x, s') -> Q x s'.
Proof. intros (y & s1 & E & HQ) E'. congruence. Qed.

End wp.
