(* ===== verification/ByteStream.v ===== *)
(** * Byte streams

    [src/client/byte_stream.hpp] and [src/client/byte_stream.cpp]: bidirectional
    byte streams with credit windows, multiplexed over the stream channels of one
    peer session. STREAM_OPEN fixes the id and the opener's receive window,
    STREAM_DATA carries bytes at an offset, WINDOW_UPDATE grants credit, FIN
    half-closes and RESET ends one stream.

    A handle is shared between the service, which looks it up by stream id, and
    the application, which may keep it after the stream has ended: handles live in
    a heap of addresses, and a handle is never freed. The session is the interface
    [StreamSession]; its operations are partial as those of [PeerSession] are.
    Completion handlers and the callbacks for inbound streams are names, and a
    call of one is an event that is appended to a log, together with the bytes a
    read put in its buffer or the bytes a write was given. A handler that calls
    back into the stream before it returns is not modelled. An operation has no
    result where the code reads out of bounds. *)

From Stdlib Require Import ZArith Lia ZifyBool String.
From stdpp Require Import base tactics option list gmap strings numbers pretty.
From S2P Require Import Prelude Errors Limits Varint Wire Identifiers ProtoCodec FieldCodec Protocol Signing Clock.
From S2P Require Import SessionChannels PairingProtocol GatewayAddress GatewayPolicy PeerSession Effects.
#[local] Open Scope Z_scope.
#[local] Open Scope effect_scope.

(** [enum class StreamState]. *)
Module StreamState.
Inductive StreamState : Type :=
  | opening | open | half_closed_local | half_closed_remote | closed | reset.
End StreamState.
Abbreviation StreamState := StreamState.StreamState.

#[export] Instance StreamState_eq_dec : EqDecision StreamState.
Proof. solve_decision. Defined.

Module ByteStream.
Import Wire ProtoCodec PairingProtocol GatewayPolicy Effects.

Definition stream_error (code : ErrorCode) (detail : string) : Error :=
  make_error code "byte_stream" detail.

(** ** Payload layouts *)

Definition append_u64 (out : list Z) (value : Z) : list Z :=
  out ++ map (fun index => u8 (Z.shiftr value (56 - index * 8))) [0; 1; 2; 3; 4; 5; 6; 7].

Definition append_u32 (out : list Z) (value : Z) : list Z :=
  out ++ map (fun index => u8 (Z.shiftr value (24 - index * 8))) [0; 1; 2; 3].

(** One turn of the loops below; [in[offset + index]] is undefined past the end. *)
Definition read_byte (width : Z -> Z) (input : list Z) (offset : Z) (value : option Z) (index : Z) : option Z :=
  match value, input !! Z.to_nat (offset + index) with
  | Some value, Some b => Some (Z.lor (width (Z.shiftl value 8)) b)
  | _, _ => None
  end.

Definition read_u64 (input : list Z) (offset : Z) : option Z :=
  foldl (read_byte u64 input offset) (Some 0) [0; 1; 2; 3; 4; 5; 6; 7].

Definition read_u32 (input : list Z) (offset : Z) : option Z :=
  foldl (read_byte u32 input offset) (Some 0) [0; 1; 2; 3].

Definition parse_stream_id (payload : list Z) : Result (list Z) :=
  fail_if zlen payload <? 16 with stream_error ErrorCode.protocol "stream_id_truncated";
  let id := take 16 payload in
  fail_if all_zero id with stream_error ErrorCode.protocol "stream_id_zero";
  success id.

Definition parse_pb_stream_id (payload : list Z) : Result (list Z) :=
  fail_if zlen payload <? 18 with stream_error ErrorCode.protocol "stream_id_field_truncated";
  fail_if negb (byte_at payload 0 =? 0x0A) || negb (byte_at payload 1 =? 16)
    with stream_error ErrorCode.protocol "stream_id_field_invalid";
  let id := subspan 2 16 payload in
  fail_if all_zero id with stream_error ErrorCode.protocol "stream_id_zero";
  success id.

Definition stream_channel_frame_capacity : Z := 1024.
Definition stream_channel_byte_capacity : Z := 8 * 1024 * 1024.
Definition stream_data_header_bytes : Z := 28.

Definition stream_state_name (state : StreamState) : string :=
  match state with
  | StreamState.opening => "opening"
  | StreamState.open => "open"
  | StreamState.half_closed_local => "half_closed_local"
  | StreamState.half_closed_remote => "half_closed_remote"
  | StreamState.closed => "closed"
  | StreamState.reset => "reset"
  end.

Record ByteStreamLimits : Type := mkStreamLimits {
  max_data_chunk_bytes : Z;
  default_receive_window_bytes : Z;
  default_receive_window_frames : Z;
  max_concurrent_streams : Z;
  pending_write_bytes : Z;
  max_pending_reads : Z;
  max_pending_writes : Z;
}.

Definition default_stream_limits : ByteStreamLimits :=
  mkStreamLimits (16 * 1024) (256 * 1024) 64 16 (512 * 1024) 16 16.

Definition validate_byte_stream_limits (limits : ByteStreamLimits) : Result unit :=
  fail_if (max_data_chunk_bytes limits =? 0) || (1024 * 1024 <? max_data_chunk_bytes limits)
    with stream_error ErrorCode.configuration "data_chunk_limit_invalid";
  fail_if (default_receive_window_bytes limits =? 0)
          || (64 * 1024 * 1024 <? default_receive_window_bytes limits)
    with stream_error ErrorCode.configuration "receive_window_limit_invalid";
  fail_if (default_receive_window_frames limits =? 0) || (65536 <? default_receive_window_frames limits)
    with stream_error ErrorCode.configuration "receive_window_frames_invalid";
  fail_if (max_concurrent_streams limits =? 0) || (1024 <? max_concurrent_streams limits)
    with stream_error ErrorCode.configuration "concurrent_stream_limit_invalid";
  fail_if (pending_write_bytes limits =? 0) || (64 * 1024 * 1024 <? pending_write_bytes limits)
          || (max_pending_reads limits =? 0) || (4096 <? max_pending_reads limits)
          || (max_pending_writes limits =? 0) || (4096 <? max_pending_writes limits)
    with stream_error ErrorCode.configuration "pending_limit_invalid";
  success tt.

(** ** Handles *)

Record StreamIoResult : Type := mkIo {
  io_bytes : Z;
  io_error : option Error;
}.

Record PendingWrite : Type := mkWrite {
  data : list Z;
  offset : Z;
  write_handler : Z;
  write_deadline : option Z;
  fin_after : bool;
}.

(** The buffer of a read is its size. *)
Record PendingRead : Type := mkRead {
  out_size : Z;
  read_handler : Z;
  read_deadline : option Z;
}.

Record ByteStreamHandle : Type := mkHandle {
  id_ : list Z;
  stream_channel_ : Z;
  state_ : StreamState;
  max_pending_reads_ : Z;
  max_pending_writes_ : Z;
  max_pending_write_bytes_ : Z;
  next_receive_offset_ : Z;
  receive_window_bytes_ : Z;
  receive_window_frames_ : Z;
  receive_window_remaining_bytes_ : Z;
  receive_window_remaining_frames_ : Z;
  receive_chunks_ : list (list Z);
  receive_buffered_bytes_ : Z;
  consumed_through_offset_ : Z;
  update_reported_consumed_bytes_ : Z;
  update_reported_consumed_frames_ : Z;
  fin_received_ : bool;
  final_receive_offset_ : Z;
  next_send_offset_ : Z;
  send_consumed_by_peer_ : Z;
  send_credit_bytes_ : Z;
  send_credit_frames_ : Z;
  fin_sent_ : bool;
  reset_reason_ : option Z;
  gateway_ : bool;
  gateway_initiator_ : bool;
  gateway_prelude_pending_ : bool;
  gateway_prelude_received_ : Z;
  gateway_prelude_ : list Z;
  gateway_dial_deadline_ : Z;
  gateway_connected_handler_ : option Z;
  gateway_connected_fired_ : bool;
  writes_ : list PendingWrite;
  reads_ : list PendingRead;
}.

Definition new_handle (limits : ByteStreamLimits) (id : list Z) (channel window_bytes window_frames : Z)
    : ByteStreamHandle :=
  mkHandle id channel StreamState.opening (max_pending_reads limits) (max_pending_writes limits)
    (pending_write_bytes limits) 0 window_bytes window_frames window_bytes window_frames [] 0 0 0 0
    false 0 0 0 0 0 false None false false false 0 [0; 0] 0 None false [] [].

(** What the service calls back: a completed read with the bytes its buffer
    holds, a completed write with the bytes it was given, the outcome of a
    gateway connection, and inbound streams. *)
Inductive Event : Type :=
  | ReadDone (stream handler : Z) (out : list Z) (result : StreamIoResult)
  | WriteDone (stream handler : Z) (written : list Z) (result : StreamIoResult)
  | Connected (stream handler : Z) (result : Result unit)
  | Inbound (stream : Z)
  | InboundGateway (stream : Z) (connect : GatewayConnect).

(** ** The session below *)

(** What the service calls of its [PeerSession], its clock and the random source:
    [random_stream_id] is the value with which the [do .. while] loop of the
    function of that name ended. *)
Class StreamSession (E : Type) : Type := {
  session_send_frame : E -> Z -> FrameClass -> Frame -> option (Result unit * E);
  session_open_channel : E -> ChannelDomain -> QueueFullPolicy -> Z -> Z -> option (Result Z * E);
  session_adopt_channel : E -> Z -> ChannelDomain -> QueueFullPolicy -> Z -> Z -> option (Result Z * E);
  session_has_channel : E -> Z -> bool;
  session_close_channel : E -> Z -> option E;
  session_fail_channel : E -> Z -> CloseReason -> option E;
  session_domain_handler : E -> bool -> E;
  session_capabilities : E -> Z;
  random_stream_id : E -> list Z * E;
  stream_now : E -> Z;
}.

(** [class ByteStreamService], with the heap its handles live in and the log of
    its callbacks. *)
Record ByteStreamService (E : Type) : Type := mkService {
  session_ : E;
  limits_ : ByteStreamLimits;
  service_channel_ : option Z;
  owned_channels_ : list Z;
  streams_ : gmap (list Z) Z;
  inbound_handler_ : bool;
  gateway_inbound_handler_ : bool;
  attached_ : bool;
  heap_ : gmap Z ByteStreamHandle;
  next_address_ : Z;
  log_ : list Event;
}.
Arguments mkService {E}.
Arguments session_ {E}.
Arguments limits_ {E}.
Arguments service_channel_ {E}.
Arguments owned_channels_ {E}.
Arguments streams_ {E}.
Arguments inbound_handler_ {E}.
Arguments gateway_inbound_handler_ {E}.
Arguments attached_ {E}.
Arguments heap_ {E}.
Arguments next_address_ {E}.
Arguments log_ {E}.

Definition new_service {E} (session : E) (limits : ByteStreamLimits) : ByteStreamService E :=
  mkService session limits None [] ∅ false false false ∅ 0 [].

(** ** Operations *)

Definition Op (E A : Type) : Type := M (ByteStreamService E) A.

Definition stuck {E A} : Op E A := fun _ => None.

(** The object at an address, and an assignment to its members. *)
Definition handle {E} (a : Z) : Op E ByteStreamHandle :=
  fun s => match heap_ s !! a with Some h => Some (h, s) | None => None end.
Definition set_handle {E} (a : Z) (h : ByteStreamHandle) : Op E unit :=
  modify (fun s => {| s with heap_ := <[a := h]> (heap_ s) |}).
Definition update {E} (a : Z) (f : ByteStreamHandle -> ByteStreamHandle) : Op E unit :=
  let* h := handle a in set_handle a (f h).

(** [std::make_shared]. *)
Definition allocate {E} (h : ByteStreamHandle) : Op E Z := fun s =>
  Some (next_address_ s,
        {| s with heap_ := <[next_address_ s := h]> (heap_ s); next_address_ := next_address_ s + 1 |}).

Definition emit {E} (e : Event) : Op E unit :=
  modify (fun s => {| s with log_ := log_ s ++ [e] |}).

(** A call of the session. *)
Definition session_call {E A} (f : E -> option (A * E)) : Op E A := fun s =>
  match f (session_ s) with
  | Some (a, e) => Some (a, {| s with session_ := e |})
  | None => None
  end.
Definition session_do {E} (f : E -> option E) : Op E unit :=
  session_call (fun e => match f e with Some e => Some (tt, e) | None => None end).

Definition is_ended (state : StreamState) : bool :=
  bool_decide (state = StreamState.reset) || bool_decide (state = StreamState.closed).

Section service.
Context {E : Type} `{!StreamSession E}.

Definition send_stream_frame (channel : Z) (type : FrameType) (payload : list Z) (klass : FrameClass)
    : Op E (Result unit) :=
  session_call (fun e => session_send_frame e channel klass
                           (mkFrame (frame_type_value type) 0 channel (repeat 0 16) payload)).

Definition fin_payload (h : ByteStreamHandle) : list Z :=
  append_uint (append_bytes [] 1 (id_ h)) 2 (next_send_offset_ h).

Definition reset_payload (id : list Z) (reason : StableStatus) : list Z :=
  append_uint (append_bytes [] 1 id) 2 (stable_status_value reason).

Definition window_payload (id : list Z) (consumed bytes frames : Z) : list Z :=
  append_uint (append_uint (append_uint (append_bytes [] 1 id) 2 consumed) 3 bytes) 4 frames.

(** The one-shot report of a gateway connection. *)
Definition fire_connected (a : Z) (result : ByteStreamHandle -> Result unit) : Op E unit :=
  let* h := handle a in
  match gateway_connected_handler_ h with
  | Some handler =>
      if gateway_initiator_ h && negb (gateway_connected_fired_ h) then
        set_handle a {| h with gateway_connected_fired_ := true; gateway_connected_handler_ := None |} ;;
        emit (Connected a handler (result h))
      else ret tt
  | None => ret tt
  end.

Definition complete_write (a : Z) (w : PendingWrite) (result : StreamIoResult) : Op E unit :=
  emit (WriteDone a (write_handler w) (data w) result).

(** [std::erase(owned_channels_, channel)] and the release of the channel. *)
Definition release_channel (channel : Z) : Op E unit :=
  modify (fun s => {| s with owned_channels_ := filter (fun c => c <> channel) (owned_channels_ s) |}) ;;
  session_do (fun e => session_close_channel e channel).

Definition connect_failure (terminal : StreamState) (h : ByteStreamHandle) : Result unit :=
  failure (match terminal with
           | StreamState.closed | StreamState.half_closed_remote =>
               make_error ErrorCode.cancelled "byte_stream" "gateway_connect_closed"
           | _ => make_error ErrorCode.remote_error "byte_stream"
                    ("gateway_connect_failed_" +:+ pretty (Z.to_N (default 0 (reset_reason_ h))))
           end).

Definition finish_stream (a : Z) (terminal : StreamState) : Op E unit :=
  update a (fun h => {| h with state_ := terminal |}) ;;
  fire_connected a (connect_failure terminal) ;;
  let clean_end := bool_decide (terminal = StreamState.closed)
                   || bool_decide (terminal = StreamState.half_closed_remote) in
  let* h := handle a in
  each (fun r => emit (ReadDone a (read_handler r) []
          (mkIo 0 (if clean_end then None else Some (stream_error ErrorCode.cancelled "stream_reset")))))
    (reads_ h) ;;
  update a (fun h => {| h with reads_ := [] |}) ;;
  each (fun w => complete_write a w (mkIo (offset w) (Some (stream_error ErrorCode.cancelled "stream_reset"))))
    (writes_ h) ;;
  update a (fun h => {| h with writes_ := [] |}) ;;
  if is_ended terminal then
    modify (fun s => {| s with streams_ := delete (id_ h) (streams_ s) |}) ;;
    if gateway_ h then release_channel (stream_channel_ h) else ret tt
  else ret tt.

Definition handle_reset_frame_for (a : Z) (reason : StableStatus) : Op E unit :=
  let* h := handle a in
  (if bool_decide (state_ h = StreamState.reset) then ret tt
   else let* _ := send_stream_frame (stream_channel_ h) stream_reset (reset_payload (id_ h) reason)
                    FrameClass.control in ret tt) ;;
  finish_stream a StreamState.reset.

Definition maybe_send_window_update (a : Z) : Op E unit :=
  let* h := handle a in
  let consumed_bytes := u64 (consumed_through_offset_ h - update_reported_consumed_bytes_ h) in
  let consumed_frames := u32 (receive_window_remaining_frames_ h - update_reported_consumed_frames_ h) in
  let window_drained := receive_window_remaining_bytes_ h =? 0 in
  let enough_credit := receive_window_bytes_ h / 4 <=? consumed_bytes in
  if negb window_drained && negb enough_credit then ret tt else
  let* sent := send_stream_frame (stream_channel_ h) stream_window_update
                 (window_payload (id_ h) (consumed_through_offset_ h) consumed_bytes consumed_frames)
                 FrameClass.control in
  match sent with
  | failure _ => ret tt
  | success _ =>
      update a (fun h =>
        {| h with update_reported_consumed_bytes_ := consumed_through_offset_ h;
                  update_reported_consumed_frames_ := receive_window_remaining_frames_ h;
                  receive_window_remaining_bytes_ :=
                    Z.min (u64 (receive_window_remaining_bytes_ h + consumed_bytes)) (receive_window_bytes_ h) |})
  end.

(** The front chunk gives [count] bytes to the first read, which is done. *)
Definition consume_chunk (h : ByteStreamHandle) (chunk : list Z) (rest : list (list Z)) (count : Z)
    (reads : list PendingRead) : ByteStreamHandle :=
  let whole := count =? zlen chunk in
  {| h with consumed_through_offset_ := u64 (consumed_through_offset_ h + count);
            receive_buffered_bytes_ := u64 (receive_buffered_bytes_ h - count);
            receive_chunks_ := if whole then rest else drop (Z.to_nat count) chunk :: rest;
            receive_window_remaining_frames_ :=
              if whole
              then Z.min (u32 (receive_window_remaining_frames_ h + 1)) (receive_window_frames_ h)
              else receive_window_remaining_frames_ h;
            reads_ := reads |}.

(** Every turn completes the first read. *)
Fixpoint dispatch_loop (fuel : nat) (a : Z) : Op E unit :=
  let* h := handle a in
  match reads_ h, fuel with
  | [], _ => ret tt
  | _ :: _, O => stuck
  | read :: reads, S fuel =>
      match receive_chunks_ h with
      | [] =>
          if fin_received_ h && (next_receive_offset_ h =? final_receive_offset_ h) then
            update a (fun h => {| h with reads_ := reads |}) ;;
            emit (ReadDone a (read_handler read) [] (mkIo 0 None)) ;;
            (if fin_sent_ h then finish_stream a StreamState.closed else ret tt) ;;
            dispatch_loop fuel a
          else ret tt
      | chunk :: chunks =>
          let count := Z.min (out_size read) (zlen chunk) in
          set_handle a (consume_chunk h chunk chunks count reads) ;;
          emit (ReadDone a (read_handler read) (take (Z.to_nat count) chunk) (mkIo count None)) ;;
          maybe_send_window_update a ;;
          dispatch_loop fuel a
      end
  end.

Definition try_dispatch_reads (a : Z) : Op E unit :=
  let* h := handle a in dispatch_loop (length (reads_ h)) a.

Definition async_read_some (a : Z) (out_size handler : Z) (deadline : option Z) : Op E unit :=
  let* h := handle a in
  let refuse e := emit (ReadDone a handler [] (mkIo 0 (Some e))) in
  if out_size =? 0 then refuse (stream_error ErrorCode.configuration "read_buffer_empty") else
  if bool_decide (state_ h = StreamState.reset)
  then refuse (stream_error ErrorCode.cancelled "stream_reset") else
  if max_pending_reads_ h <=? zlen (reads_ h)
  then refuse (stream_error ErrorCode.resource_exhausted "read_limit") else
  set_handle a {| h with reads_ := reads_ h ++ [mkRead out_size handler deadline] |} ;;
  try_dispatch_reads a.

Definition data_payload (h : ByteStreamHandle) (chunk : list Z) : list Z :=
  append_u32 (append_u64 (id_ h) (next_send_offset_ h)) (u32 (zlen chunk)) ++ chunk.

(** A chunk entered the send window. *)
Definition chunk_sent (h : ByteStreamHandle) (write : PendingWrite) (rest : list PendingWrite) (chunk : Z)
    : ByteStreamHandle :=
  {| h with send_credit_bytes_ := send_credit_bytes_ h - chunk;
            send_credit_frames_ := send_credit_frames_ h - 1;
            next_send_offset_ := u64 (next_send_offset_ h + chunk);
            writes_ := {| write with offset := offset write + chunk |} :: rest |}.

(** The two nested loops of [pump_writes] as one: the inner loop goes on with the
    front write until its bytes are out, then the outer one takes the next. Every
    turn sends a byte or completes a write. *)
Fixpoint pump_loop (fuel : nat) (a : Z) : Op E unit :=
  let* h := handle a in
  match writes_ h, fuel with
  | [], _ => ret tt
  | _ :: _, O => stuck
  | write :: rest, S fuel =>
      if offset write <? zlen (data write) then
        if (send_credit_bytes_ h =? 0) || (send_credit_frames_ h =? 0) then ret tt else
        let* limits := get limits_ in
        let chunk := Z.min (max_data_chunk_bytes limits)
                       (Z.min (zlen (data write) - offset write) (send_credit_bytes_ h)) in
        let* sent := send_stream_frame (stream_channel_ h) stream_data
                       (data_payload h (subspan (offset write) chunk (data write))) FrameClass.bulk in
        match sent with
        | failure e =>
            if bool_decide (code_ e = ErrorCode.would_block) then ret tt else
            complete_write a write (mkIo (offset write) (Some e)) ;;
            set_handle a {| h with writes_ := rest |} ;;
            handle_reset_frame_for a StableStatus.unavailable
        | success _ =>
            set_handle a (chunk_sent h write rest chunk) ;;
            pump_loop fuel a
        end
      else
        complete_write a write (mkIo (zlen (data write)) None) ;;
        set_handle a {| h with writes_ := rest |} ;;
        if fin_after write then
          let* _ := send_stream_frame (stream_channel_ h) stream_fin (fin_payload h) FrameClass.control in
          finish_stream a (if fin_received_ h then StreamState.closed else StreamState.half_closed_local)
        else pump_loop fuel a
  end.

Definition pump_fuel (h : ByteStreamHandle) : nat :=
  sum_list (map (fun w => S (length (data w) - Z.to_nat (offset w))) (writes_ h)).

Definition pump_writes (a : Z) : Op E unit :=
  let* h := handle a in
  if is_ended (state_ h) then ret tt else pump_loop (pump_fuel h) a.

Definition expired (now : Z) (deadline : option Z) : bool :=
  match deadline with Some d => d <? now | None => false end.

(** The reads and writes of one stream whose deadline has passed. *)
Definition sweep_stream (now a : Z) : Op E unit :=
  let* h := handle a in
  each (fun r => emit (ReadDone a (read_handler r) []
                   (mkIo 0 (Some (stream_error ErrorCode.timeout "read_deadline")))))
    (List.filter (fun r => expired now (read_deadline r)) (reads_ h)) ;;
  each (fun w => complete_write a w
                   (mkIo (offset w) (Some (stream_error ErrorCode.timeout "write_deadline"))))
    (List.filter (fun w => expired now (write_deadline w)) (writes_ h)) ;;
  update a (fun h =>
    {| h with reads_ := List.filter (fun r => negb (expired now (read_deadline r))) (reads_ h);
              writes_ := List.filter (fun w => negb (expired now (write_deadline w))) (writes_ h) |}).

Definition dial_expired (now : Z) (h : ByteStreamHandle) : bool :=
  gateway_initiator_ h && gateway_prelude_pending_ h
  && negb (gateway_dial_deadline_ h =? 0) && (gateway_dial_deadline_ h <? now).

(** The sweep over the streams, with the gateway dials it found expired. *)
Fixpoint sweep (now : Z) (streams : list (list Z * Z)) : Op E (list Z) :=
  match streams with
  | [] => ret []
  | (_, a) :: streams =>
      let* h := handle a in
      sweep_stream now a ;;
      let* late := sweep now streams in
      ret (if dial_expired now h then a :: late else late)
  end.

Definition check_deadlines : Op E unit :=
  let* now := get (fun s => stream_now (session_ s)) in
  let* streams := get (fun s => iterate (streams_ s)) in
  let* late := sweep now streams in
  each (fun a =>
    let* h := handle a in
    let* live := get (fun s => seen (streams_ s !! id_ h)) in
    if live then handle_reset_frame_for a StableStatus.deadline_exceeded else ret tt) late.

Definition pending_bytes (h : ByteStreamHandle) : Z :=
  foldr Z.add 0 (map (fun w => zlen (data w) - offset w) (writes_ h)).

Definition async_write (a : Z) (bytes : list Z) (handler : Z) (deadline : option Z) : Op E unit :=
  let* h := handle a in
  let answer e := emit (WriteDone a handler bytes (mkIo 0 e)) in
  if is_ended (state_ h)
  then answer (Some (stream_error ErrorCode.cancelled "stream_not_writable")) else
  if fin_sent_ h || bool_decide (state_ h = StreamState.half_closed_local)
  then answer (Some (stream_error ErrorCode.protocol "write_after_fin")) else
  if zlen bytes =? 0 then answer None else
  if max_pending_write_bytes_ h <? pending_bytes h + zlen bytes
  then answer (Some (stream_error ErrorCode.would_block "write_backlog_full")) else
  if max_pending_writes_ h <=? zlen (writes_ h)
  then answer (Some (stream_error ErrorCode.resource_exhausted "write_limit")) else
  set_handle a {| h with writes_ := writes_ h ++ [mkWrite bytes 0 handler deadline false] |} ;;
  pump_writes a ;;
  check_deadlines.

(** [writes_.back()->fin_after = true]. *)
Definition mark_last (writes : list PendingWrite) : list PendingWrite :=
  match last writes with
  | Some w => removelast writes ++ [{| w with fin_after := true |}]
  | None => []
  end.

Definition shutdown_write (a : Z) : Op E (Result unit) :=
  let* h := handle a in
  if fin_sent_ h || is_ended (state_ h)
  then ret (failure (stream_error ErrorCode.protocol "fin_not_sendable")) else
  if negb (zlen (writes_ h) =? 0) then
    set_handle a {| h with writes_ := mark_last (writes_ h); fin_sent_ := true |} ;;
    ret (success tt)
  else
  set_handle a {| h with fin_sent_ := true |} ;;
  let* sent := send_stream_frame (stream_channel_ h) stream_fin (fin_payload h) FrameClass.control in
  match sent with
  | failure e => ret (failure e)
  | success _ =>
      finish_stream a (if fin_received_ h then StreamState.closed else StreamState.half_closed_local) ;;
      ret (success tt)
  end.

Definition reset (a : Z) (reason : StableStatus) : Op E unit :=
  let* h := handle a in
  if is_ended (state_ h) then ret tt else handle_reset_frame_for a reason.

(** ** Opening *)

Definition open_channel : Op E (Result Z) :=
  session_call (fun e => session_open_channel e ChannelDomain.stream QueueFullPolicy.reject
                           stream_channel_frame_capacity stream_channel_byte_capacity).

Definition attach : Op E (Result unit) :=
  let* limits := get limits_ in
  match validate_byte_stream_limits limits with
  | failure e => ret (failure e)
  | success _ =>
      let* opened := open_channel in
      match opened with
      | failure e => ret (failure e)
      | success channel =>
          modify (fun s => {| s with service_channel_ := Some channel;
                                     owned_channels_ := owned_channels_ s ++ [channel] |}) ;;
          modify (fun s => {| s with session_ := session_domain_handler (session_ s) true; attached_ := true |}) ;;
          ret (success tt)
      end
  end.

Definition open_payload (h : ByteStreamHandle) : list Z :=
  append_uint (append_uint (append_bytes [] 1 (id_ h)) 2 (receive_window_bytes_ h)) 3 (receive_window_frames_ h).

Definition send_stream_open (h : ByteStreamHandle) (gateway : option GatewayConnect) : Op E (Result unit) :=
  let send payload := send_stream_frame (stream_channel_ h) stream_open payload FrameClass.standard in
  match gateway with
  | None => send (open_payload h)
  | Some connect =>
      match encode_gateway_connect connect with
      | failure e => ret (failure e)
      | success body => send (append_bytes (open_payload h) 4 body)
      end
  end.

Definition draw_stream_id : Op E (list Z) := session_call (fun e => Some (random_stream_id e)).

(** [streams_.emplace]: an existing entry stays. *)
Definition emplace_stream (a : Z) : Op E unit :=
  let* h := handle a in
  modify (fun s => if seen (streams_ s !! id_ h) then s
                   else {| s with streams_ := <[id_ h := a]> (streams_ s) |}).

Definition open_stream (window_bytes window_frames : Z) : Op E (Result Z) :=
  let* ready := get attached_ in
  if negb ready then ret (failure (stream_error ErrorCode.configuration "service_not_attached")) else
  if (window_bytes =? 0) || (window_frames =? 0)
  then ret (failure (stream_error ErrorCode.configuration "receive_window_invalid")) else
  let* limits := get limits_ in
  let* active := get (fun s => msize (streams_ s)) in
  if max_concurrent_streams limits <=? active
  then ret (failure (stream_error ErrorCode.resource_exhausted "stream_limit")) else
  let* channel := get service_channel_ in
  match channel with
  | None => stuck
  | Some channel =>
      let* id := draw_stream_id in
      let h := new_handle limits id channel window_bytes window_frames in
      let* a := allocate h in
      let* sent := send_stream_open h None in
      match sent with
      | failure e => ret (failure e)
      | success _ =>
          update a (fun h => {| h with state_ := StreamState.open |}) ;;
          emplace_stream a ;;
          ret (success a)
      end
  end.

Definition gateway_handle (h : ByteStreamHandle) (dial_deadline : Z) (on_connected : option Z) : ByteStreamHandle :=
  {| h with gateway_ := true; gateway_initiator_ := true; gateway_prelude_pending_ := true;
            gateway_dial_deadline_ := dial_deadline; gateway_connected_handler_ := on_connected;
            state_ := StreamState.opening |}.

Definition open_gateway_stream (target : GatewayConnect) (window_bytes window_frames dial_deadline : Z)
    (on_connected : option Z) : Op E (Result Z) :=
  let* ready := get attached_ in
  if negb ready then ret (failure (stream_error ErrorCode.configuration "service_not_attached")) else
  if (window_bytes =? 0) || (window_frames =? 0)
  then ret (failure (stream_error ErrorCode.configuration "receive_window_invalid")) else
  match validate_gateway_connect target with
  | failure e => ret (failure e)
  | success _ =>
  let* capabilities := get (fun s => session_capabilities (session_ s)) in
  if negb (Protocol.has capabilities Capability.gateway_v1)
  then ret (failure (stream_error ErrorCode.protocol "gateway_not_negotiated")) else
  let* limits := get limits_ in
  let* active := get (fun s => msize (streams_ s)) in
  if max_concurrent_streams limits <=? active
  then ret (failure (stream_error ErrorCode.resource_exhausted "stream_limit")) else
  let* opened := open_channel in
  match opened with
  | failure e => ret (failure e)
  | success channel =>
      modify (fun s => {| s with owned_channels_ := owned_channels_ s ++ [channel] |}) ;;
      let* id := draw_stream_id in
      let h := gateway_handle (new_handle limits id channel window_bytes window_frames)
                 dial_deadline on_connected in
      let* a := allocate h in
      let* sent := send_stream_open h (Some target) in
      match sent with
      | failure e =>
          session_do (fun e => session_close_channel e channel) ;;
          modify (fun s => {| s with owned_channels_ := filter (fun c => c <> channel) (owned_channels_ s) |}) ;;
          ret (failure e)
      | success _ => emplace_stream a ;; ret (success a)
      end
  end end.

(** ** Frames of the peer *)

Record OpenFields : Type := mkOpenFields {
  open_bytes : option Z;
  open_frames : option Z;
  open_gateway : option (list Z);
}.

(** A repeated gateway field ends the parse. *)
Definition open_step (s : OpenFields) (field : ProtoField) : Result OpenFields :=
  if (number field =? 2) && (wire_type field =? 0)
  then success {| s with open_bytes := Some (integer field) |}
  else if (number field =? 3) && (wire_type field =? 0)
  then success {| s with open_frames := Some (integer field) |}
  else if (number field =? 4) && (wire_type field =? 2) then
    fail_if seen (open_gateway s) with stream_error ErrorCode.protocol "gateway_field_repeated";
    success {| s with open_gateway := Some (field_bytes field) |}
  else success s.

(** The windows and the gateway field of an acceptable STREAM_OPEN. *)
Definition parse_open (payload : list Z) : option (Z * Z * option (list Z)) :=
  match parse_proto open_step payload "proto" (mkOpenFields None None None) with
  | success (mkOpenFields (Some bytes) (Some frames) gateway) =>
      if (bytes =? 0) || (frames =? 0) || (u32_max <? frames) || (64 * 1024 * 1024 <? bytes)
      then None else Some (bytes, frames, gateway)
  | _ => None
  end.

Definition refuse_open (id : list Z) (channel : Z) (status : StableStatus) : Op E unit :=
  let* _ := send_stream_frame channel stream_reset (reset_payload id status) FrameClass.control in ret tt.

Definition grant_initial_credit (a : Z) : Op E unit :=
  let* h := handle a in
  let* _ := send_stream_frame (stream_channel_ h) stream_window_update
              (window_payload (id_ h) 0 (receive_window_bytes_ h) (receive_window_frames_ h))
              FrameClass.control in
  ret tt.

(** The channel of an inbound stream, adopted when the session does not know it
    yet; false when the session refused. *)
Definition adopt_channel (channel : Z) : Op E bool :=
  let* known := get (fun s => session_has_channel (session_ s) channel) in
  if known then ret true else
  let* adopted := session_call (fun e => session_adopt_channel e channel ChannelDomain.stream
                    QueueFullPolicy.reject stream_channel_frame_capacity stream_channel_byte_capacity) in
  match adopted with
  | failure _ => ret false
  | success _ =>
      modify (fun s => {| s with owned_channels_ := owned_channels_ s ++ [channel] |}) ;; ret true
  end.

(** The handle of an inbound stream: the opener's window is our send credit. *)
Definition accept_stream (id : list Z) (channel bytes frames : Z) (gateway : bool) : Op E Z :=
  let* limits := get limits_ in
  let h := new_handle limits id channel (default_receive_window_bytes limits)
             (default_receive_window_frames limits) in
  let* a := allocate {| h with state_ := StreamState.open; gateway_ := gateway;
                               send_credit_bytes_ := bytes; send_credit_frames_ := u32 frames |} in
  emplace_stream a ;;
  grant_initial_credit a ;;
  ret a.

(** No consumer: the stream is taken back. *)
Definition retract_stream (a : Z) (id : list Z) (channel : Z) (status : StableStatus) : Op E unit :=
  update a (fun h => {| h with state_ := StreamState.reset |}) ;;
  modify (fun s => {| s with streams_ := delete id (streams_ s) |}) ;;
  refuse_open id channel status.

Definition handle_gateway_open (id : list Z) (channel bytes frames : Z) (field : list Z) : Op E unit :=
  let reject := session_do (fun e => session_fail_channel e channel CloseReason.protocol_error) in
  let* capabilities := get (fun s => session_capabilities (session_ s)) in
  if negb (Protocol.has capabilities Capability.gateway_v1) then reject else
  match parse_gateway_connect field with
  | failure _ => reject
  | success connect =>
  match validate_gateway_connect connect with
  | failure _ => refuse_open id channel (gateway_refusal_status GatewayRefusal.invalid_target)
  | success _ =>
  let* limits := get limits_ in
  let* active := get (fun s => msize (streams_ s)) in
  if max_concurrent_streams limits <=? active
  then refuse_open id channel (gateway_refusal_status GatewayRefusal.quota_exhausted) else
  let* adopted := adopt_channel channel in
  if negb adopted then ret tt else
  let* a := accept_stream id channel bytes frames true in
  let* handled := get gateway_inbound_handler_ in
  if handled then emit (InboundGateway a connect) else
  retract_stream a id channel (gateway_refusal_status GatewayRefusal.not_enabled) ;;
  release_channel channel
  end end.

Definition handle_plain_open (id : list Z) (channel bytes frames : Z) : Op E unit :=
  let* limits := get limits_ in
  let* active := get (fun s => msize (streams_ s)) in
  if max_concurrent_streams limits <=? active
  then refuse_open id channel StableStatus.resource_exhausted else
  let* adopted := adopt_channel channel in
  if negb adopted then ret tt else
  let* a := accept_stream id channel bytes frames false in
  let* handled := get inbound_handler_ in
  if handled then emit (Inbound a)
  else retract_stream a id channel StableStatus.permission_denied.

Definition handle_open (frame : Frame) (channel : Z) : Op E unit :=
  match parse_pb_stream_id (payload frame) with
  | failure _ => ret tt
  | success id =>
      let* existing := get (fun s => streams_ s !! id) in
      match existing with
      | Some a =>
          let* h := handle a in
          if bool_decide (state_ h = StreamState.reset) then ret tt
          else handle_reset_frame_for a StableStatus.already_exists
      | None =>
          match parse_open (payload frame) with
          | None => ret tt
          | Some (bytes, frames, Some field) => handle_gateway_open id channel bytes frames field
          | Some (bytes, frames, None) => handle_plain_open id channel bytes frames
          end
      end
  end.

(** The stream a frame is about, if it is known. *)
Definition known_stream (id : Result (list Z)) : Op E (option Z) :=
  match id with
  | failure _ => ret None
  | success id => get (fun s => streams_ s !! id)
  end.

(** The window and the offset take the whole frame. *)
Definition charge_data (h : ByteStreamHandle) (size : Z) : ByteStreamHandle :=
  {| h with receive_window_remaining_bytes_ := receive_window_remaining_bytes_ h - size;
            receive_window_remaining_frames_ := receive_window_remaining_frames_ h - 1;
            next_receive_offset_ := u64 (next_receive_offset_ h + size) |}.

(** The part of [bytes] that belongs to the prelude is stored in the handle. *)
Definition take_prelude (h : ByteStreamHandle) (bytes : list Z) : ByteStreamHandle * list Z :=
  let received := Z.to_nat (gateway_prelude_received_ h) in
  let taken := ((Z.to_nat gateway_prelude_bytes - received) `min` length bytes)%nat in
  ({| h with gateway_prelude_ := take received (gateway_prelude_ h) ++ take taken bytes
                                 ++ drop (received + taken)%nat (gateway_prelude_ h);
             gateway_prelude_received_ := gateway_prelude_received_ h + Z.of_nat taken |},
   drop taken bytes).

(** The prelude of a gateway connection: what is left for the reader, or nothing
    when the stream was reset. *)
Definition receive_prelude (a : Z) (bytes : list Z) : Op E (option (list Z)) :=
  let* h := handle a in
  if negb (gateway_initiator_ h && gateway_prelude_pending_ h) then ret (Some bytes) else
  let (h, deliverable) := take_prelude h bytes in
  if negb (gateway_prelude_received_ h =? gateway_prelude_bytes)
  then set_handle a h ;; ret (Some deliverable) else
  set_handle a {| h with gateway_prelude_pending_ := false |} ;;
  match parse_gateway_prelude (gateway_prelude_ h) with
  | failure _ => handle_reset_frame_for a StableStatus.protocol_error ;; ret None
  | success _ =>
      update a (fun h => if bool_decide (state_ h = StreamState.opening)
                         then {| h with state_ := StreamState.open |} else h) ;;
      fire_connected a (fun _ => success tt) ;;
      ret (Some deliverable)
  end.

(** A received direction that has ended and was read to its end. *)
Definition finish_received (a : Z) : Op E unit :=
  let* h := handle a in
  finish_stream a (if fin_sent_ h then StreamState.closed else StreamState.half_closed_remote).

Definition deliver_data (a : Z) (deliverable : list Z) : Op E unit :=
  update a (fun h =>
    {| h with receive_buffered_bytes_ := u64 (receive_buffered_bytes_ h + zlen deliverable);
              receive_chunks_ := if zlen deliverable =? 0 then receive_chunks_ h
                                 else receive_chunks_ h ++ [deliverable] |}) ;;
  try_dispatch_reads a ;;
  let* h := handle a in
  if fin_received_ h && (next_receive_offset_ h =? final_receive_offset_ h)
     && (zlen (receive_chunks_ h) =? 0)
  then finish_received a else ret tt.

Definition handle_data (frame : Frame) : Op E unit :=
  let* found := known_stream (parse_stream_id (payload frame)) in
  match found with
  | None => ret tt
  | Some a =>
      let* h := handle a in
      if is_ended (state_ h) then ret tt else
      match read_u64 (payload frame) 16, read_u32 (payload frame) 24 with
      | Some at_offset, Some length =>
          if negb (stream_data_header_bytes + length =? zlen (payload frame))
          then handle_reset_frame_for a StableStatus.protocol_error else
          let bytes := drop (Z.to_nat stream_data_header_bytes) (payload frame) in
          if at_offset <? next_receive_offset_ h then ret tt else
          if next_receive_offset_ h <? at_offset
          then handle_reset_frame_for a StableStatus.protocol_error else
          if (receive_window_remaining_bytes_ h <? zlen bytes) || (receive_window_remaining_frames_ h =? 0)
          then handle_reset_frame_for a StableStatus.resource_exhausted else
          set_handle a (charge_data h (zlen bytes)) ;;
          let* deliverable := receive_prelude a bytes in
          match deliverable with
          | None => ret tt
          | Some deliverable => deliver_data a deliverable
          end
      | _, _ => stuck
      end
  end.

Record WindowFields : Type := mkWindowFields {
  window_consumed : option Z;
  window_bytes : option Z;
  window_frames : option Z;
}.

Definition window_step (s : WindowFields) (field : ProtoField) : Result WindowFields :=
  if number field =? 2 then success {| s with window_consumed := Some (integer field) |}
  else if number field =? 3 then success {| s with window_bytes := Some (integer field) |}
  else if number field =? 4 then success {| s with window_frames := Some (integer field) |}
  else success s.

Definition handle_window_update (frame : Frame) : Op E unit :=
  let* found := known_stream (parse_pb_stream_id (payload frame)) in
  match found, parse_proto window_step (payload frame) "proto" (mkWindowFields None None None) with
  | Some a, success (mkWindowFields (Some consumed) (Some bytes) (Some frames)) =>
      let* h := handle a in
      if consumed <? send_consumed_by_peer_ h then ret tt else
      if next_send_offset_ h <? consumed then handle_reset_frame_for a StableStatus.protocol_error else
      let h := {| h with send_consumed_by_peer_ := consumed |} in
      set_handle a h ;;
      if u64_max - send_credit_bytes_ h <? bytes
      then handle_reset_frame_for a StableStatus.resource_exhausted else
      set_handle a {| h with send_credit_bytes_ := send_credit_bytes_ h + bytes;
                             send_credit_frames_ := Z.min (u64 (frames + send_credit_frames_ h)) u32_max |} ;;
      pump_writes a
  | _, _ => ret tt
  end.

Definition fin_step (s : option Z) (field : ProtoField) : Result (option Z) :=
  success (if number field =? 2 then Some (integer field) else s).

Definition handle_fin (frame : Frame) : Op E unit :=
  let* found := known_stream (parse_pb_stream_id (payload frame)) in
  match found with
  | None => ret tt
  | Some a =>
      let* h := handle a in
      if is_ended (state_ h) then ret tt else
      match parse_proto fin_step (payload frame) "proto" None with
      | success (Some final) =>
          set_handle a {| h with fin_received_ := true; final_receive_offset_ := final |} ;;
          if negb (final =? next_receive_offset_ h)
          then handle_reset_frame_for a StableStatus.protocol_error else
          try_dispatch_reads a ;;
          let* h := handle a in
          if zlen (receive_chunks_ h) =? 0 then finish_received a else ret tt
      | _ => ret tt
      end
  end.

(** The last reason before the payload ends or stops to parse. *)
Fixpoint reset_reason_loop (fuel : nat) (r : ProtoReader) (reason : option Z) : option Z :=
  match fuel with
  | O => reason
  | S fuel =>
      if done r then reason else
      match next r with
      | failure _ => reason
      | success (field, r) =>
          reset_reason_loop fuel r
            (if (number field =? 2) && (wire_type field =? 0) then Some (u32 (integer field)) else reason)
      end
  end.

Definition handle_reset (frame : Frame) : Op E unit :=
  let* found := known_stream (parse_pb_stream_id (payload frame)) in
  match found with
  | None => ret tt
  | Some a =>
      let* h := handle a in
      if bool_decide (state_ h = StreamState.reset) then ret tt else
      set_handle a {| h with reset_reason_ :=
        reset_reason_loop (length (payload frame)) (mkProtoReader (payload frame) "proto") (reset_reason_ h) |} ;;
      finish_stream a StreamState.reset
  end.

Definition admit_frame (frame : Frame) : Op E (Result unit) :=
  check_deadlines ;;
  match SessionChannels.frame_type_of (type frame) with
  | Some stream_open => handle_open frame (channel_id frame) ;; ret (success tt)
  | Some stream_data => handle_data frame ;; ret (success tt)
  | Some stream_window_update => handle_window_update frame ;; ret (success tt)
  | Some stream_fin => handle_fin frame ;; ret (success tt)
  | Some stream_reset => handle_reset frame ;; ret (success tt)
  | _ => ret (failure (stream_error ErrorCode.protocol "frame_not_stream_domain"))
  end.

Definition handle_frame (frame : Frame) : Op E unit := let* _ := admit_frame frame in ret tt.

(** ** The end of the service *)

Definition fail_stream (error : Error) (a : Z) : Op E unit :=
  fire_connected a (fun _ => failure (make_error ErrorCode.cancelled "byte_stream" "gateway_connect_closed")) ;;
  let* h := handle a in
  each (fun r => emit (ReadDone a (read_handler r) [] (mkIo 0 (Some error)))) (reads_ h) ;;
  each (fun w => complete_write a w (mkIo (offset w) (Some error))) (writes_ h) ;;
  update a (fun h => {| h with reads_ := []; writes_ := []; state_ := StreamState.reset |}).

Definition fail_all (error : Error) : Op E unit :=
  let* streams := get (fun s => iterate (streams_ s)) in
  each (fun '(_, a) => fail_stream error a) streams ;;
  modify (fun s => {| s with streams_ := ∅ |}).

(** The destructor. *)
Definition destroy : Op E unit :=
  fail_all (stream_error ErrorCode.cancelled "service_closed") ;;
  modify (fun s => {| s with session_ := session_domain_handler (session_ s) false |}) ;;
  let* channels := get owned_channels_ in
  each (fun channel => session_do (fun e => session_close_channel e channel)) channels.

Definition set_inbound_handler (set : bool) : Op E unit :=
  modify (fun s => {| s with inbound_handler_ := set |}).
Definition set_gateway_inbound_handler (set : bool) : Op E unit :=
  modify (fun s => {| s with gateway_inbound_handler_ := set |}).

End service.
End ByteStream.

Import Wire ProtoCodec Signing PairingProtocol GatewayAddress GatewayPolicy Effects ByteStream.

(** ** The header of a DATA frame *)

(** The bytes of a DATA frame that carries [bytes] at [at_offset]. *)
Definition data_bytes (id : list Z) (at_offset : Z) (bytes : list Z) : list Z :=
  id ++ canonical_uint64 at_offset ++ canonical_uint32 (zlen bytes) ++ bytes.

Lemma read_bytes width bits l bs k o v :
  (forall z, width z = z mod 2 ^ bits) -> bytes_ok bs -> 0 <= o <= zlen l -> 0 <= v ->
  (v + 1) * 256 ^ zlen bs <= 2 ^ bits ->
  foldl (read_byte width (l ++ bs ++ k) o) (Some v) (seqZ (zlen l - o) (zlen bs))
  = Some (foldl (fun a d => a * 256 + d) v bs).
Proof.
  intros Hw. revert l v. induction bs as [| b bs IH]; intros l v Hb Ho Hv Hsize; [done |].
  apply bytes_ok_cons in Hb as [Hb Hbs]. rewrite zlen_cons in *.
  assert (Hn := zlen_nonneg bs). rewrite Z.add_comm, Z.pow_add_r in Hsize by lia.
  assert (Hp : 1 <= 256 ^ zlen bs) by (apply (Z.pow_le_mono_r 256 0); lia).
  assert (Hv' : v * 256 < 2 ^ bits).
  { assert ((1 + v) * 256 * 1 <= (1 + v) * 256 * 256 ^ zlen bs) by (apply Z.mul_le_mono_nonneg_l; lia). lia. }
  rewrite seqZ_cons by lia. cbn [foldl].
  replace (Z.pred (1 + zlen bs)) with (zlen bs) by lia.
  assert (read_byte width (l ++ (b :: bs) ++ k) o (Some v) (zlen l - o) = Some (v * 256 + b)) as ->.
  { unfold read_byte. replace (o + (zlen l - o)) with (zlen l) by lia. unfold zlen at 1. rewrite Nat2Z.id.
    rewrite lookup_app_r by lia. rewrite Nat.sub_diag. cbn. f_equal. rewrite Hw.
    rewrite Z.shiftl_mul_pow2 by lia. change (2 ^ 8) with 256 at 1.
    rewrite Z.mod_small by lia.
    rewrite Z.lor_comm. replace (v * 256) with (Z.shiftl v 8) by (rewrite Z.shiftl_mul_pow2; lia).
    rewrite lor_shiftl_add by zlia. rewrite Z.shiftl_mul_pow2 by lia. lia. }
  replace (l ++ (b :: bs) ++ k) with ((l ++ [b]) ++ bs ++ k) by (by rewrite <- !app_assoc).
  assert (Hl : zlen (l ++ [b]) = zlen l + 1) by (by rewrite zlen_app).
  replace (Z.succ (zlen l - o)) with (zlen (l ++ [b]) - o) by lia.
  apply IH; [done | lia | zlia |]. unfold is_byte in Hb.
  etrans; [apply (Z.mul_le_mono_nonneg_r _ ((1 + v) * 256)); lia | lia].
Qed.

Lemma canonical_layout v :
  append_u64 [] v = canonical_uint64 v /\ append_u32 [] v = canonical_uint32 v.
Proof.
  unfold append_u64, append_u32, canonical_uint64, canonical_uint32, append_uint64, append_uint32, u8.
  cbn [map app]. by rewrite !land_255.
Qed.

Lemma canonical_width_bytes v :
  bytes_ok (canonical_uint64 v) /\ zlen (canonical_uint64 v) = 8 /\
  bytes_ok (canonical_uint32 v) /\ zlen (canonical_uint32 v) = 4.
Proof.
  unfold canonical_uint64, canonical_uint32, append_uint64, append_uint32. cbn [map app].
  rewrite !land_255. split_and!; try done; repeat constructor; by apply Z.mod_pos_bound.
Qed.

Lemma data_payload_bytes h chunk :
  zlen chunk < 2 ^ 32 -> data_payload h chunk = data_bytes (id_ h) (next_send_offset_ h) chunk.
Proof.
  intros Hc. unfold data_payload, data_bytes. rewrite u32_small by zlia.
  assert (Hl := canonical_layout (next_send_offset_ h)). assert (Hc2 := canonical_layout (zlen chunk)).
  unfold append_u64, append_u32 in *. cbn [app] in *. destruct Hl as [<- _], Hc2 as [_ <-].
  by rewrite <- !app_assoc.
Qed.

(** What the receiver reads of it. *)
Lemma read_data_bytes id o bytes :
  sized 16 id -> all_zero id = false -> is_u64 o -> is_u32 (zlen bytes) ->
  let payload := data_bytes id o bytes in
  parse_stream_id payload = success id /\ read_u64 payload 16 = Some o /\
  read_u32 payload 24 = Some (zlen bytes) /\ zlen payload = stream_data_header_bytes + zlen bytes /\
  drop (Z.to_nat stream_data_header_bytes) payload = bytes.
Proof.
  intros [Hid Hlen] Hz Ho Hn payload.
  destruct (canonical_width_bytes o) as (H8 & L8 & _). destruct (canonical_width_bytes (zlen bytes)) as (_ & _ & H4 & L4).
  assert (Hsize : zlen payload = 28 + zlen bytes) by (unfold payload, data_bytes; rewrite !zlen_app; lia).
  split_and!.
  - unfold parse_stream_id. rewrite Hsize.
    destruct (Z.ltb_spec (28 + zlen bytes) 16); [assert (E := zlen_nonneg bytes); lia |].
    assert (take 16 payload = id) as ->; [| by rewrite Hz].
    unfold payload, data_bytes. apply (take_app_length' _ _ 16). zlia.
  - unfold read_u64, payload, data_bytes. rewrite <- Hlen at 1.
    change [0; 1; 2; 3; 4; 5; 6; 7] with (seqZ 0 8). rewrite <- L8, <- (Z.sub_diag (zlen id)).
    rewrite (read_bytes u64 64); [| done | done | zlia | lia | rewrite L8; lia].
    assert (E := canonical_uint64_value o Ho). unfold be in E. by rewrite Z.sub_diag, E.
  - unfold read_u32, payload, data_bytes. rewrite app_assoc.
    change [0; 1; 2; 3] with (seqZ 0 4).
    replace 24 with (zlen (id ++ canonical_uint64 o)) by (rewrite zlen_app; lia).
    rewrite <- L4, <- (Z.sub_diag (zlen (id ++ canonical_uint64 o))).
    rewrite (read_bytes u32 32); [| done | done | zlia | lia | rewrite L4; lia].
    assert (E := canonical_uint32_value _ Hn). unfold be in E. by rewrite Z.sub_diag, E.
  - exact Hsize.
  - unfold payload, data_bytes. rewrite !app_assoc. apply drop_app_length'.
    assert (E : zlen ((id ++ canonical_uint64 o) ++ canonical_uint32 (zlen bytes)) = 28) by (rewrite !zlen_app; lia).
    unfold stream_data_header_bytes. rewrite <- E. apply Nat2Z.id.
Qed.

(** ** The sizes of the payloads *)

(** The largest DATA frame of limits that pass the validation. *)
Definition max_stream_payload : Z := 1024 * 1024 + stream_data_header_bytes.

Lemma varint_short v : zlen (varint v) <= 10.
Proof.
  unfold varint. change (zlen (varint_loop 10 v) <= Z.of_nat 10). generalize 10%nat. intros n. revert v.
  induction n as [| n IH]; intros v; [done |]. cbn [varint_loop].
  destruct (_ =? 0); rewrite zlen_cons; [unfold zlen; cbn; lia | specialize (IH (Z.shiftr v 7)); lia].
Qed.

Lemma append_uint_short p f v : zlen (append_uint p f v) <= zlen p + 20.
Proof.
  unfold append_uint, append_tag, append_varint. rewrite !zlen_app.
  assert (H1 := varint_short v). assert (H2 := varint_short (Z.lor (u64 (Z.shiftl f 3)) 0)). lia.
Qed.

Lemma append_bytes_short p f v : zlen (append_bytes p f v) <= zlen p + 20 + zlen v.
Proof.
  unfold append_bytes, append_tag, append_varint. rewrite !zlen_app.
  assert (H1 := varint_short (zlen v)). assert (H2 := varint_short (Z.lor (u64 (Z.shiftl f 3)) 2)). lia.
Qed.

Lemma payloads_short id :
  zlen id = 16 ->
  (forall h, id_ h = id -> zlen (fin_payload h) <= 1000 /\ zlen (open_payload h) <= 1000) /\
  (forall reason, zlen (reset_payload id reason) <= 1000) /\
  (forall consumed bytes frames, zlen (window_payload id consumed bytes frames) <= 1000).
Proof.
  intros Hid. assert (H0 : zlen ([] : list Z) = 0) by done. assert (Hb := append_bytes_short [] 1 id).
  split_and!; [intros h <-; split | intros reason | intros c b f]; unfold fin_payload, open_payload, reset_payload, window_payload.
  - assert (H1 := append_uint_short (append_bytes [] 1 (id_ h)) 2 (next_send_offset_ h)). lia.
  - assert (H1 := append_uint_short (append_bytes [] 1 (id_ h)) 2 (receive_window_bytes_ h)).
    assert (H2 := append_uint_short (append_uint (append_bytes [] 1 (id_ h)) 2 (receive_window_bytes_ h)) 3
      (receive_window_frames_ h)). lia.
  - assert (H1 := append_uint_short (append_bytes [] 1 id) 2 (stable_status_value reason)). lia.
  - assert (H1 := append_uint_short (append_bytes [] 1 id) 2 c).
    assert (H2 := append_uint_short (append_uint (append_bytes [] 1 id) 2 c) 3 b).
    assert (H3 := append_uint_short (append_uint (append_uint (append_bytes [] 1 id) 2 c) 3 b) 4 f). lia.
Qed.

Lemma connect_short c body : encode_gateway_connect c = success body -> zlen body <= 1000.
Proof.
  intros H. unfold encode_gateway_connect in H. destruct (negb (valid_gateway_host (host c))) eqn:Hh; [done |].
  destruct (_ =? 0); [done |]. destruct (_ && _) eqn:Hp; [done |]. injection H as <-.
  assert (Hhost : zlen (host c) <= 253).
  { unfold valid_gateway_host in Hh. destruct (_ || _) eqn:E in Hh; [done |]. unfold max_gateway_host_bytes in E. lia. }
  assert (Hprof : zlen (connect_profile c) <= 64).
  { destruct (Z.eqb_spec (zlen (connect_profile c)) 0); [lia |]. cbn in Hp. unfold safe_gateway_profile_name in Hp.
    destruct (_ || _) eqn:E in Hp; [done |]. unfold max_gateway_profile_bytes in E. lia. }
  assert (H0 : zlen ([] : list Z) = 0) by done. unfold append_text.
  assert (H1 := append_bytes_short [] 1 (host c)). assert (H2 := append_uint_short (append_bytes [] 1 (host c)) 2 (port c)).
  assert (H3 := append_bytes_short (append_uint (append_bytes [] 1 (host c)) 2 (port c)) 3 (connect_profile c)).
  destruct (zlen (connect_profile c) =? 0); cbn [negb]; lia.
Qed.
