(* ===== verification/ByteStreamInvariant.v ===== *)
(** * The invariant of the byte streams

    What the operations of [ByteStream] keep true of every handle: the bytes it
    accepted and sent, the windows, the queues. The session below is any one whose
    operations return; [Recorded] writes down what it took. *)

From Stdlib Require Import ZArith Lia ZifyBool String.
From stdpp Require Import base tactics option list gmap strings numbers pretty.
From S2P Require Import Prelude Errors Limits Varint Wire Identifiers ProtoCodec FieldCodec Protocol Signing Clock.
From S2P Require Import SessionChannels PairingProtocol GatewayAddress GatewayPolicy PeerSession Effects ByteStream.
Import Wire ProtoCodec Signing PairingProtocol GatewayPolicy Effects ByteStream.
#[local] Open Scope Z_scope.
#[local] Open Scope effect_scope.

(** ** A session that is written down *)

Record Recorded (E : Type) : Type := mkRecorded {
  inner : E;
  sent : list (FrameClass * Frame);
}.
Arguments mkRecorded {E}.
Arguments inner {E}.
Arguments sent {E}.

Definition pass {E A} (f : E -> option (A * E)) (r : Recorded E) : option (A * Recorded E) :=
  match f (inner r) with
  | Some (a, e) => Some (a, mkRecorded e (sent r))
  | None => None
  end.
Definition pass_do {E} (f : E -> option E) (r : Recorded E) : option (Recorded E) :=
  match f (inner r) with
  | Some e => Some (mkRecorded e (sent r))
  | None => None
  end.

#[export] Instance recorded_session {E} `{!StreamSession E} : StreamSession (Recorded E) := {
  session_send_frame r channel klass frame :=
    match session_send_frame (inner r) channel klass frame with
    | Some (success _, e) => Some (success tt, mkRecorded e (sent r ++ [(klass, frame)]))
    | Some (failure x, e) => Some (failure x, mkRecorded e (sent r))
    | None => None
    end;
  session_open_channel r d p f b := pass (fun e => session_open_channel e d p f b) r;
  session_adopt_channel r c d p f b := pass (fun e => session_adopt_channel e c d p f b) r;
  session_has_channel r := session_has_channel (inner r);
  session_close_channel r c := pass_do (fun e => session_close_channel e c) r;
  session_fail_channel r c reason := pass_do (fun e => session_fail_channel e c reason) r;
  session_domain_handler r on := mkRecorded (session_domain_handler (inner r) on) (sent r);
  session_capabilities r := session_capabilities (inner r);
  random_stream_id r := let '(id, e) := random_stream_id (inner r) in (id, mkRecorded e (sent r));
  stream_now r := stream_now (inner r);
}.

(** What the service relies on: the session returns from the calls the service
    makes, which reject frames on a full queue and send payloads of bounded size,
    and the random source draws ids of sixteen bytes that are not all zero. *)
Class LawfulSession (E : Type) `{StreamSession E} : Type := {
  session_ok : E -> Prop;
  send_ok e channel klass frame : session_ok e -> zlen (payload frame) <= max_stream_payload ->
    exists r e', session_send_frame e channel klass frame = Some (r, e') /\ session_ok e';
  open_ok e : session_ok e ->
    exists r e', session_open_channel e ChannelDomain.stream QueueFullPolicy.reject
                   stream_channel_frame_capacity stream_channel_byte_capacity = Some (r, e') /\ session_ok e';
  adopt_ok e c : session_ok e ->
    exists r e', session_adopt_channel e c ChannelDomain.stream QueueFullPolicy.reject
                   stream_channel_frame_capacity stream_channel_byte_capacity = Some (r, e') /\ session_ok e';
  close_ok e c : session_ok e -> exists e', session_close_channel e c = Some e' /\ session_ok e';
  fail_ok e c r : session_ok e -> exists e', session_fail_channel e c r = Some e' /\ session_ok e';
  domain_ok e on : session_ok e -> session_ok (session_domain_handler e on);
  random_ok e : session_ok e ->
    sized 16 (fst (random_stream_id e)) /\ all_zero (fst (random_stream_id e)) = false /\
    session_ok (snd (random_stream_id e));
}.

(** ** The bytes of a stream *)

(** What the reads of a stream got, and what its writes reported. *)
Definition read_of (a : Z) (e : Event) : list Z :=
  match e with ReadDone b _ out _ => if b =? a then out else [] | _ => [] end.
Definition written_of (a : Z) (e : Event) : list Z :=
  match e with
  | WriteDone b _ bytes result => if b =? a then take (Z.to_nat (io_bytes result)) bytes else []
  | _ => []
  end.
Definition delivered (a : Z) (log : list Event) : list Z := concat (map (read_of a) log).
Definition reported (a : Z) (log : list Event) : list Z := concat (map (written_of a) log).

(** The bytes of a pending write that entered the send window. *)
Definition entered (w : PendingWrite) : list Z := take (Z.to_nat (offset w)) (data w).

(** The bytes a stream took from its writes and handed to the session. *)
Definition outgoing (a : Z) (h : ByteStreamHandle) (log : list Event) : list Z :=
  reported a log ++ concat (map entered (writes_ h)).

(** The bytes a stream accepted from the peer: the prelude it keeps to itself,
    what the reads got and what is buffered. *)
Definition incoming (a : Z) (h : ByteStreamHandle) (log : list Event) : list Z :=
  take (Z.to_nat (gateway_prelude_received_ h)) (gateway_prelude_ h)
  ++ delivered a log ++ concat (receive_chunks_ h).

(** An open frame: its size has been charged, its bytes are not stored yet. *)
Definition gap_bytes (g : option Z) : Z := default 0 g.
Definition gap_frames (g : option Z) : Z := match g with Some _ => 1 | None => 0 end.

Record handle_ok (limits : ByteStreamLimits) (g : option Z) (a : Z) (log : list Event) (h : ByteStreamHandle)
    : Prop := {
  ok_id : sized 16 (id_ h) /\ all_zero (id_ h) = false;
  ok_window : is_u64 (receive_window_bytes_ h) /\ is_u32 (receive_window_frames_ h);
  ok_prelude : length (gateway_prelude_ h) = 2%nat /\ 0 <= gateway_prelude_received_ h <= 2;
  ok_buffered : receive_buffered_bytes_ h = zlen (concat (receive_chunks_ h));
  ok_bytes : exists credited, 0 <= credited <= zlen (delivered a log) /\
    consumed_through_offset_ h = u64 (zlen (delivered a log)) /\
    update_reported_consumed_bytes_ h = u64 credited /\
    0 <= receive_window_remaining_bytes_ h /\ 0 <= gap_bytes g /\
    receive_window_remaining_bytes_ h + (zlen (delivered a log) - credited)
      + zlen (concat (receive_chunks_ h)) + gateway_prelude_received_ h + gap_bytes g
      <= receive_window_bytes_ h;
  ok_frames : 0 <= receive_window_remaining_frames_ h /\
    receive_window_remaining_frames_ h + zlen (receive_chunks_ h) + gap_frames g <= receive_window_frames_ h;
  ok_next : state_ h <> StreamState.reset ->
    next_receive_offset_ h = u64 (zlen (incoming a h log) + gap_bytes g);
  ok_reads : zlen (reads_ h) <= max_pending_reads_ h /\ max_pending_reads_ h = max_pending_reads limits /\
    Forall (fun r => 0 < out_size r) (reads_ h);
  ok_writes : zlen (writes_ h) <= max_pending_writes_ h /\ max_pending_writes_ h = max_pending_writes limits;
  ok_backlog : pending_bytes h <= max_pending_write_bytes_ h /\
    max_pending_write_bytes_ h = pending_write_bytes limits;
  ok_offsets : Forall (fun w => 0 <= offset w <= zlen (data w)) (writes_ h) /\
    Forall (fun w => offset w = 0) (tail (writes_ h));
  ok_next_send : next_send_offset_ h = u64 (zlen (outgoing a h log));
  ok_credit : is_u64 (send_credit_bytes_ h) /\ is_u32 (send_credit_frames_ h);
  ok_order : gateway_initiator_ h && gateway_prelude_pending_ h = true ->
    delivered a log = [] /\ receive_chunks_ h = [];
}.

(** Limits of unsigned members that pass the validation. *)
Record limits_ok (l : ByteStreamLimits) : Prop := {
  chunk_ok : 1 <= max_data_chunk_bytes l <= 1024 * 1024;
  window_ok : 1 <= default_receive_window_bytes l <= 64 * 1024 * 1024;
  frames_ok : 1 <= default_receive_window_frames l <= 65536;
  concurrent_ok : 1 <= max_concurrent_streams l <= 1024;
  backlog_ok : 1 <= pending_write_bytes l <= 64 * 1024 * 1024;
  reads_ok : 1 <= max_pending_reads l <= 4096;
  writes_ok : 1 <= max_pending_writes l <= 4096;
}.

Record limits_unsigned (l : ByteStreamLimits) : Prop := {
  chunk_unsigned : 0 <= max_data_chunk_bytes l;
  window_unsigned : 0 <= default_receive_window_bytes l;
  frames_unsigned : 0 <= default_receive_window_frames l;
  concurrent_unsigned : 0 <= max_concurrent_streams l;
  backlog_unsigned : 0 <= pending_write_bytes l;
  reads_unsigned : 0 <= max_pending_reads l;
  writes_unsigned : 0 <= max_pending_writes l;
}.

Section good.
Context {E : Type} `{!StreamSession E} `{!LawfulSession E}.
Abbreviation Service := (ByteStreamService (Recorded E)).
Implicit Types s : Service.

(** A DATA frame the service sent carries bytes of one of its streams, at their
    offset. *)
Definition frame_good s (f : Frame) : Prop :=
  type f = frame_type_value stream_data ->
  exists a h before bytes, heap_ s !! a = Some h /\
    payload f = data_bytes (id_ h) (u64 (zlen before)) bytes /\ zlen bytes < 2 ^ 32 /\
    (before ++ bytes) `prefix_of` outgoing a h (log_ s).

(** [g] says which streams are in the middle of a DATA frame. *)
Record good (g : Z -> option Z) s : Prop := {
  good_session : session_ok (inner (session_ s));
  good_limits : limits_unsigned (limits_ s);
  good_attached : attached_ s = true -> limits_ok (limits_ s) /\ is_Some (service_channel_ s);
  good_heap : forall a h, heap_ s !! a = Some h ->
    a < next_address_ s /\ attached_ s = true /\ handle_ok (limits_ s) (g a) a (log_ s) h;
  good_streams : forall id a, streams_ s !! id = Some a ->
    exists h, heap_ s !! a = Some h /\ id_ h = id /\ is_ended (state_ h) = false;
  good_count : msize (streams_ s) <= max_concurrent_streams (limits_ s);
  good_sent : forall k f, (k, f) ∈ sent (session_ s) -> frame_good s f;
  good_log : forall a, next_address_ s <= a -> delivered a (log_ s) = [] /\ reported a (log_ s) = [];
}.

(** What every step does to the streams: they stay, accept nothing, and send on. *)
Record grows s s' : Prop := {
  grow_limits : limits_ s' = limits_ s;
  grow_heap : forall a h, heap_ s !! a = Some h -> exists h', heap_ s' !! a = Some h' /\
    id_ h' = id_ h /\ incoming a h' (log_ s') = incoming a h (log_ s) /\
    outgoing a h (log_ s) `prefix_of` outgoing a h' (log_ s');
  grow_new : forall a h, heap_ s !! a = None -> heap_ s' !! a = Some h ->
    incoming a h (log_ s') = [];
  grow_sent : sent (session_ s) `prefix_of` sent (session_ s');
  grow_attached : attached_ s = true -> attached_ s' = true;
}.

#[export] Instance grows_preorder : PreOrder grows.
Proof.
  split.
  - intros s. split; try done; [| congruence]. intros a h Ha. exists h. done.
  - intros s1 s2 s3 [L1 H1 N1 S1 A1] [L2 H2 N2 S2 A2]. split; [congruence | | | by etrans | auto].
    + intros a h Ha. destruct (H1 a h Ha) as (h2 & Ha2 & I2 & E2 & P2).
      destruct (H2 a h2 Ha2) as (h3 & Ha3 & I3 & E3 & P3).
      exists h3. split_and!; [done | congruence | congruence | by etrans].
    + intros a h Ha Ha3. destruct (heap_ s2 !! a) as [h2 |] eqn:Ha2; [| by eapply N2].
      destruct (H2 a h2 Ha2) as (h3 & Ha3' & _ & E3 & _). assert (h3 = h) as -> by congruence.
      rewrite E3. by eapply N1.
Qed.

Lemma wp_handle a h (Q : ByteStreamHandle -> Service -> Prop) s :
  heap_ s !! a = Some h -> Q h s -> wp (handle a) Q s.
Proof. intros Ha HQ. exists h, s. unfold handle. by rewrite Ha. Qed.

(** *** States *)

Definition event_stream (e : Event) : Z :=
  match e with
  | ReadDone a _ _ _ | WriteDone a _ _ _ | Connected a _ _ | Inbound a | InboundGateway a _ => a
  end.

Lemma delivered_app a l k : delivered a (l ++ k) = delivered a l ++ delivered a k.
Proof. unfold delivered. by rewrite map_app, concat_app. Qed.

Lemma reported_app a l k : reported a (l ++ k) = reported a l ++ reported a k.
Proof. unfold reported. by rewrite map_app, concat_app. Qed.

Lemma elsewhere_nil a b evs :
  Forall (fun e => event_stream e = a) evs -> b <> a -> delivered b evs = [] /\ reported b evs = [].
Proof.
  intros H Hb. induction H as [| e evs He _ [IH1 IH2]]; [done |]. unfold delivered, reported in *. cbn.
  rewrite IH1, IH2. destruct e; cbn in *; try done; repeat case_match; (done || lia).
Qed.

(** The state with another handle at [a], more events of it and fewer streams. *)
Definition moved s (a : Z) (h : ByteStreamHandle) (evs : list Event) (streams : gmap (list Z) Z) : Service :=
  {| s with heap_ := <[a := h]> (heap_ s); log_ := log_ s ++ evs; streams_ := streams |}.

Lemma moved_moved s a h evs m h' evs' m' :
  moved (moved s a h evs m) a h' evs' m' = moved s a h' (evs ++ evs') m'.
Proof. unfold moved. cbn. f_equal; [by rewrite insert_insert_eq | by rewrite app_assoc]. Qed.

Lemma moved_same s a h : heap_ s !! a = Some h -> moved s a h [] (streams_ s) = s.
Proof. intros Ha. unfold moved. rewrite insert_id, app_nil_r by done. by destruct s. Qed.

Lemma set_handle_moved s a h : set_handle a h s = Some (tt, moved s a h [] (streams_ s)).
Proof. unfold set_handle, modify, moved. by rewrite app_nil_r. Qed.

Lemma emit_moved s a h e : heap_ s !! a = Some h -> emit e s = Some (tt, moved s a h [e] (streams_ s)).
Proof. intros Ha. unfold emit, modify, moved. by rewrite insert_id by done. Qed.

Lemma update_moved s a h f : heap_ s !! a = Some h -> update a f s = Some (tt, moved s a (f h) [] (streams_ s)).
Proof. intros Ha. unfold update, bind, handle. rewrite Ha. apply set_handle_moved. Qed.

Lemma each_emit {A} (f : A -> Event) l s a h :
  heap_ s !! a = Some h -> each (fun x => emit (f x)) l s = Some (tt, moved s a h (map f l) (streams_ s)).
Proof.
  revert s. induction l as [| x l IH]; intros s Ha; cbn [each map].
  - by rewrite moved_same.
  - unfold bind. rewrite (emit_moved s a h) by done.
    rewrite IH by (cbn; by rewrite lookup_insert_eq). by rewrite moved_moved.
Qed.

Lemma good_moved g g' s a h h' evs m :
  good g s -> heap_ s !! a = Some h -> Forall (fun e => event_stream e = a) evs ->
  handle_ok (limits_ s) (g' a) a (log_ s ++ evs) h' -> (forall b, b <> a -> g' b = g b) -> id_ h' = id_ h ->
  m ⊆ streams_ s -> (forall id, m !! id = Some a -> is_ended (state_ h') = false) ->
  outgoing a h (log_ s) `prefix_of` outgoing a h' (log_ s ++ evs) ->
  good g' (moved s a h' evs m).
Proof.
  intros [Gs Gu Ga Gh Gm Gc Gf Gl] Ha Hev Hok Hg Hid Hm Hend Hout.
  assert (Hlog : forall b, b <> a -> delivered b (log_ s ++ evs) = delivered b (log_ s) /\
                                    reported b (log_ s ++ evs) = reported b (log_ s)).
  { intros b Hb. destruct (elsewhere_nil a b evs Hev Hb) as [E1 E2].
    by rewrite delivered_app, reported_app, E1, E2, !app_nil_r. }
  split; cbn [session_ attached_ limits_ heap_ log_ streams_ next_address_ service_channel_ moved].
  - done.
  - done.
  - done.
  - intros b hb. destruct (decide (b = a)) as [-> | Hb].
    + rewrite lookup_insert_eq. intros [= <-]. destruct (Gh a h Ha) as (? & ? & _). done.
    + rewrite lookup_insert_ne by done. intros Hb'. destruct (Gh b hb Hb') as (? & ? & Hok').
      split_and!; [done | done |]. rewrite Hg by done. destruct (Hlog b Hb) as [E1 E2].
      destruct Hok'. split; try done.
      * by rewrite E1.
      * unfold incoming in *. by rewrite E1.
      * unfold outgoing in *. by rewrite E2.
      * by rewrite E1.
  - intros id b Hb. destruct (Gm id b) as (hb & Hb' & Hid' & He); [by eapply lookup_weaken |].
    destruct (decide (b = a)) as [-> | Hne].
    + exists h'. rewrite lookup_insert_eq. split_and!; [done | congruence | by eapply Hend].
    + exists hb. rewrite lookup_insert_ne by done. done.
  - etrans; [by apply msize_subseteq | done].
  - intros k f Hf Hty. destruct (Gf k f Hf Hty) as (b & hb & before & bytes & Hb & Hp & Hn & Hpre).
    destruct (decide (b = a)) as [-> | Hne].
    + exists a, h', before, bytes. cbn [heap_ log_ moved]. rewrite lookup_insert_eq.
      assert (hb = h) as -> by congruence. split_and!; [done | congruence | done | by etrans].
    + exists b, hb, before, bytes. cbn [heap_ log_ moved]. rewrite lookup_insert_ne by done.
      split_and!; [done | done | done |]. unfold outgoing in *. by destruct (Hlog b Hne) as [_ ->].
  - intros b Hb. destruct (decide (b = a)) as [-> | Hne]; [destruct (Gh a h Ha); lia |].
    destruct (Hlog b Hne) as [-> ->]. by apply Gl.
Qed.

Lemma grows_moved s a h h' evs m :
  heap_ s !! a = Some h -> Forall (fun e => event_stream e = a) evs -> id_ h' = id_ h ->
  incoming a h' (log_ s ++ evs) = incoming a h (log_ s) ->
  outgoing a h (log_ s) `prefix_of` outgoing a h' (log_ s ++ evs) ->
  grows s (moved s a h' evs m).
Proof.
  intros Ha Hev Hid Hin Hout. split; [done | | | done | done]; cbn [heap_ log_ moved].
  - intros b hb Hb. destruct (decide (b = a)) as [-> | Hne].
    + exists h'. rewrite lookup_insert_eq. by simplify_eq.
    + exists hb. rewrite lookup_insert_ne by done.
      destruct (elsewhere_nil a b evs Hev Hne) as [E1 E2]. unfold incoming, outgoing.
      by rewrite delivered_app, reported_app, E1, E2, !app_nil_r.
  - intros b hb Hb. destruct (decide (b = a)) as [-> | Hne]; [congruence |].
    rewrite lookup_insert_ne by done. congruence.
Qed.

(** *** The session *)

Lemma frame_good_heap s s' f : heap_ s' = heap_ s -> log_ s' = log_ s -> frame_good s f -> frame_good s' f.
Proof. unfold frame_good. by intros -> ->. Qed.

(** Only the session changes. *)
Lemma good_swap g s e :
  good g s -> session_ok (inner e) -> sent (session_ s) `prefix_of` sent e ->
  (forall k f, (k, f) ∈ sent e -> (k, f) ∈ sent (session_ s) \/ frame_good s f) ->
  good g {| s with session_ := e |} /\ grows s {| s with session_ := e |}.
Proof.
  intros [Gs Gu Ga Gh Gm Gc Gf Gl] He Hp Hf. split.
  - split; try done. intros k f Hin. apply (frame_good_heap s); try done.
    destruct (Hf k f Hin); [by eapply Gf | done].
  - split; try done; [| cbn; congruence]. intros a h Ha. by exists h.
Qed.

(** The service but for the session. *)
Definition beside s s' : Prop := exists e, s' = {| s with session_ := e |}.

Lemma wp_send g s channel t bytes klass :
  good g s -> t <> stream_data -> zlen bytes <= 1000000 ->
  wp (send_stream_frame channel t bytes klass) (fun _ s' => good g s' /\ grows s s' /\ beside s s') s.
Proof.
  intros Hg Ht Hlen. unfold send_stream_frame, session_call, wp. cbn.
  edestruct (send_ok (inner (session_ s)) channel klass (mkFrame (frame_type_value t) 0 channel (repeat 0 16) bytes))
    as (r & e & Hsend & He); [apply Hg | etrans; [exact Hlen | done] |]. cbn in Hsend. rewrite Hsend.
  destruct r as [u | x]; eexists _, _; (split; [done |]).
  - destruct (good_swap g s (mkRecorded e (sent (session_ s) ++ [(klass, mkFrame (frame_type_value t) 0 channel
        (repeat 0 16) bytes)])) Hg) as [H1 H2]; [done | cbn; by eexists | | split_and!; [done | done | by eexists]].
    cbn. intros k f [Hin | Hin]%elem_of_app; [by left |]. apply list_elem_of_singleton in Hin as [= -> ->].
    right. unfold frame_good. cbn. by destruct t.
  - destruct (good_swap g s (mkRecorded e (sent (session_ s))) Hg) as [H1 H2];
      [done | done | by left | split_and!; [done | done | by eexists]].
Qed.

Lemma control_payloads g s a h :
  good g s -> heap_ s !! a = Some h ->
  zlen (fin_payload h) <= 1000000 /\ (forall reason, zlen (reset_payload (id_ h) reason) <= 1000000) /\
  (forall consumed bytes frames, zlen (window_payload (id_ h) consumed bytes frames) <= 1000000).
Proof.
  intros Hg Ha. destruct (good_heap _ _ Hg a h Ha) as (_ & _ & Hok). destruct (ok_id _ _ _ _ _ Hok) as [[_ Hid] _].
  destruct (payloads_short _ Hid) as (P1 & P2 & P3). destruct (P1 h eq_refl) as [P4 _].
  split_and!; [lia | intros r; specialize (P2 r); lia | intros c b f; specialize (P3 c b f); lia].
Qed.

(** *** The end of a stream *)

Lemma wp_swap_rest g s (f : Service -> Service) :
  (forall s, f s = {| s with owned_channels_ := owned_channels_ (f s) |}) ->
  good g s -> wp (modify f) (fun _ s' => good g s' /\ grows s s' /\ heap_ s' = heap_ s /\
    streams_ s' = streams_ s /\ log_ s' = log_ s) s.
Proof.
  intros Hf [Gs Gu Ga Gh Gm Gc Gf Gl]. apply wp_modify. rewrite Hf. split_and!; try done.
  split; try done; [| cbn; congruence]. intros a h Ha. by exists h.
Qed.

Lemma wp_session_do g s (f : E -> option E) :
  (forall e, session_ok e -> exists e', f e = Some e' /\ session_ok e') -> good g s ->
  wp (session_do (pass_do f)) (fun _ s' => good g s' /\ grows s s' /\ beside s s') s.
Proof.
  intros Hf Hg. unfold session_do, session_call, pass_do, wp.
  destruct (Hf (inner (session_ s))) as (e & -> & He); [apply Hg |]. eexists _, _. split; [done |].
  destruct (good_swap g s (mkRecorded e (sent (session_ s))) Hg) as [H1 H2]; [done | done | by left |].
  split_and!; [done | done | by eexists].
Qed.

Lemma wp_release g s channel :
  good g s -> wp (release_channel channel) (fun _ s' => good g s' /\ grows s s' /\ heap_ s' = heap_ s /\
    streams_ s' = streams_ s /\ log_ s' = log_ s) s.
Proof.
  intros Hg. unfold release_channel. apply wp_bind. eapply wp_mono; [by apply (wp_swap_rest g) |].
  intros _ s1 (G1 & R1 & H1 & M1 & L1). cbn beta.
  eapply wp_mono; [apply (wp_session_do g s1 (fun e => session_close_channel e channel)); [| done] |].
  { intros e He. by apply close_ok. }
  intros _ s2 (G2 & R2 & [e ->]). split_and!; [done | by etrans | done | done | done].
Qed.

Lemma fire_connected_moved s a h r :
  heap_ s !! a = Some h -> exists f c evs,
  fire_connected a r s = Some (tt, moved s a {| h with gateway_connected_fired_ := f;
                                                        gateway_connected_handler_ := c |} evs (streams_ s)) /\
  Forall (fun e => event_stream e = a) evs /\ delivered a evs = [] /\ reported a evs = [].
Proof.
  intros Ha. unfold fire_connected, bind, handle. rewrite Ha.
  assert (Hsame : exists f c evs, Some (tt, s) = Some (tt, moved s a {| h with gateway_connected_fired_ := f;
    gateway_connected_handler_ := c |} evs (streams_ s)) /\
    Forall (fun e => event_stream e = a) evs /\ delivered a evs = [] /\ reported a evs = []).
  { exists (gateway_connected_fired_ h), (gateway_connected_handler_ h), [].
    split_and!; try done. rewrite moved_same; [done |]. rewrite Ha. by destruct h. }
  destruct (gateway_connected_handler_ h) as [hd |]; [| exact Hsame].
  destruct (gateway_initiator_ h && negb (gateway_connected_fired_ h)); [| exact Hsame].
  rewrite set_handle_moved. erewrite emit_moved by (cbn; by rewrite lookup_insert_eq).
  rewrite moved_moved. exists true, None, [Connected a hd (r h)].
  split_and!; try done. by repeat constructor.
Qed.

Definition finished (h : ByteStreamHandle) (t : StreamState) (f : bool) (c : option Z) : ByteStreamHandle :=
  {| h with state_ := t; gateway_connected_fired_ := f; gateway_connected_handler_ := c;
            reads_ := []; writes_ := [] |}.

Lemma delivered_nothing {A} a (f : A -> Event) l : (forall x, read_of a (f x) = []) -> delivered a (map f l) = [].
Proof. intros Hf. unfold delivered. induction l as [| x l IH]; [done |]. cbn. by rewrite Hf, IH. Qed.

Lemma reported_map {A} a (f : A -> Event) (v : A -> list Z) l :
  (forall x, x ∈ l -> written_of a (f x) = v x) -> reported a (map f l) = concat (map v l).
Proof.
  unfold reported. induction l as [| x l IH]; intros Hf; [done |]. cbn.
  rewrite Hf by constructor. rewrite IH; [done |]. intros y Hy. apply Hf. by constructor.
Qed.

Lemma reported_nothing {A} a (f : A -> Event) l : (forall x, written_of a (f x) = []) -> reported a (map f l) = [].
Proof. intros Hf. unfold reported. induction l as [| x l IH]; [done |]. cbn. by rewrite Hf, IH. Qed.

(** The events with which the reads and writes of a stream end. *)
Definition ends (a : Z) (h : ByteStreamHandle) (re we : option Error) : list Event :=
  map (fun r => ReadDone a (read_handler r) [] (mkIo 0 re)) (reads_ h)
  ++ map (fun w => WriteDone a (write_handler w) (data w) (mkIo (offset w) we)) (writes_ h).

Lemma ends_stream a h re we : Forall (fun e => event_stream e = a) (ends a h re we).
Proof. apply Forall_app. split; apply Forall_map, Forall_true; done. Qed.

Lemma ends_delivered a h re we : delivered a (ends a h re we) = [].
Proof.
  unfold ends. rewrite delivered_app, !delivered_nothing; [done | done |].
  intros r. cbn. by rewrite Z.eqb_refl.
Qed.

Lemma ends_reported a h re we : reported a (ends a h re we) = concat (map entered (writes_ h)).
Proof.
  unfold ends. rewrite reported_app, reported_nothing by done. cbn. apply reported_map.
  intros w _. cbn. by rewrite Z.eqb_refl.
Qed.

Lemma finished_ok limits g a log h t f c evs re we :
  handle_ok limits g a log h -> (t = StreamState.reset \/ state_ h <> StreamState.reset) ->
  delivered a evs = [] -> reported a evs = [] -> limits_ok limits ->
  handle_ok limits g a (log ++ evs ++ ends a h re we) (finished h t f c) /\
  incoming a (finished h t f c) (log ++ evs ++ ends a h re we) = incoming a h log /\
  outgoing a (finished h t f c) (log ++ evs ++ ends a h re we) = outgoing a h log.
Proof.
  intros Hok Ht Hd Hr Hl.
  assert (Ed : delivered a (log ++ evs ++ ends a h re we) = delivered a log)
    by (by rewrite !delivered_app, Hd, ends_delivered, !app_nil_r).
  assert (Ei : incoming a (finished h t f c) (log ++ evs ++ ends a h re we) = incoming a h log)
    by (unfold incoming; by rewrite Ed).
  assert (Eo : outgoing a (finished h t f c) (log ++ evs ++ ends a h re we) = outgoing a h log)
    by (unfold outgoing; cbn; by rewrite !reported_app, Hr, ends_reported, app_nil_r).
  split; [| done]. destruct Hok, Hl. split; try done.
  - by rewrite Ed.
  - rewrite Ei. cbn. intros Hs. apply ok_next0. by destruct Ht as [-> |].
  - cbn. split_and!; [unfold zlen; cbn; lia | by apply ok_reads0 | done].
  - cbn. split; [unfold zlen; cbn; lia | by apply ok_writes0].
  - unfold pending_bytes. cbn. split; [lia | by apply ok_backlog0].
  - by rewrite Eo.
  - by rewrite Ed.
Qed.

Lemma finish_stream_body s a h t :
  heap_ s !! a = Some h -> exists f c evs we re,
  finish_stream a t s =
    (if is_ended t then
       modify (fun s => {| s with streams_ := delete (id_ h) (streams_ s) |}) ;;
       if gateway_ h then release_channel (stream_channel_ h) else ret tt
     else ret tt) (moved s a (finished h t f c) (evs ++ ends a h re we) (streams_ s)) /\
  Forall (fun e => event_stream e = a) evs /\ delivered a evs = [] /\ reported a evs = [].
Proof.
  intros Ha. unfold finish_stream, complete_write, bind at 1. rewrite (update_moved s a h) by done.
  set (s1 := moved s a _ _ _). set (h1 := {| h with state_ := t |}) in *.
  assert (H1 : heap_ s1 !! a = Some h1) by (cbn; by rewrite lookup_insert_eq).
  destruct (fire_connected_moved s1 a h1 (connect_failure t) H1) as (f & c & evs & E1 & Hev & Hd & Hr).
  unfold bind at 1. rewrite E1. set (h2 := {| h1 with gateway_connected_fired_ := f; gateway_connected_handler_ := c |}).
  set (s2 := moved s1 a h2 evs _). assert (H2 : heap_ s2 !! a = Some h2) by (cbn; by rewrite lookup_insert_eq).
  unfold bind at 1. unfold handle at 1. rewrite H2. cbn zeta.
  unfold bind at 1. rewrite (each_emit _ _ s2 a h2) by done. set (s3 := moved s2 a h2 _ _).
  assert (H3 : heap_ s3 !! a = Some h2) by (cbn; by rewrite lookup_insert_eq).
  unfold bind at 1. rewrite (update_moved s3 a h2) by done. set (h4 := {| h2 with reads_ := [] |}).
  set (s4 := moved s3 a h4 _ _). assert (H4 : heap_ s4 !! a = Some h4) by (cbn; by rewrite lookup_insert_eq).
  unfold bind at 1. rewrite (each_emit _ _ s4 a h4) by done. set (s5 := moved s4 a h4 _ _).
  assert (H5 : heap_ s5 !! a = Some h4) by (cbn; by rewrite lookup_insert_eq).
  unfold bind at 1. rewrite (update_moved s5 a h4) by done.
  exists f, c, evs. do 2 eexists. split; [| done]. f_equal.
  subst s5 s4 s3 s2 s1. rewrite !moved_moved. cbn [streams_ moved app]. rewrite !app_nil_r.
  unfold ends. done.
Qed.

Lemma wp_finish g s a h t :
  good g s -> heap_ s !! a = Some h -> (t = StreamState.reset \/ state_ h <> StreamState.reset) ->
  wp (finish_stream a t) (fun _ s' => good g s' /\ grows s s' /\
    exists f c, heap_ s' !! a = Some (finished h t f c)) s.
Proof.
  intros Hg Ha Ht. destruct (good_heap _ _ Hg a h Ha) as (_ & Hat & Hok).
  destruct (good_attached _ _ Hg Hat) as [Hl _].
  destruct (finish_stream_body s a h t Ha) as (f & c & evs & we & re & Heq & Hev & Hd & Hr).
  destruct (finished_ok _ _ a _ h t f c evs re we Hok Ht Hd Hr Hl) as (Hok' & Hin & Hout).
  unfold wp. rewrite Heq.
  assert (Hev' : Forall (fun e => event_stream e = a) (evs ++ ends a h re we))
    by (apply Forall_app; split; [done | apply ends_stream]).
  assert (Hgr : forall m, grows s (moved s a (finished h t f c) (evs ++ ends a h re we) m)).
  { intros m. apply (grows_moved s a h); try done. by rewrite Hout. }
  destruct (is_ended t) eqn:Et.
  - set (s1 := moved s a (finished h t f c) (evs ++ ends a h re we) (delete (id_ h) (streams_ s))).
    assert (G1 : good g s1).
    { apply (good_moved g g s a h); try done; [apply delete_subseteq | | by rewrite Hout].
      intros id Hid. exfalso. apply lookup_delete_Some in Hid as [Hne Hid].
      destruct (good_streams _ _ Hg id a Hid) as (h0 & Ha0 & Hid0 & _). congruence. }
    change (wp (if gateway_ h then release_channel (stream_channel_ h) else ret tt)
      (fun _ s' => good g s' /\ grows s s' /\ exists f c, heap_ s' !! a = Some (finished h t f c)) s1).
    assert (Hs1 : heap_ s1 !! a = Some (finished h t f c)) by (cbn; by rewrite lookup_insert_eq).
    destruct (gateway_ h).
    + eapply wp_mono; [by apply (wp_release g) |]. intros _ s2 (G2 & R2 & H2 & _).
      split_and!; [done | etrans; [apply Hgr | done] |]. exists f, c. by rewrite H2.
    + apply wp_ret. split_and!; [done | apply Hgr | eauto].
  - apply wp_ret. split_and!; [| apply Hgr | exists f, c; cbn; by rewrite lookup_insert_eq].
    apply (good_moved g g s a h); try done. by rewrite Hout.
Qed.

Lemma wp_reset_for g s a h reason :
  good g s -> heap_ s !! a = Some h ->
  wp (handle_reset_frame_for a reason) (fun _ s' => good g s' /\ grows s s' /\
    exists h', heap_ s' !! a = Some h' /\ state_ h' = StreamState.reset) s.
Proof.
  intros Hg Ha. unfold handle_reset_frame_for. apply wp_bind, (wp_handle a h); [done |]. apply wp_bind.
  case_bool_decide.
  - apply wp_ret. eapply wp_mono; [by apply (wp_finish g s a h); auto |].
    intros _ s1 (G1 & R1 & f & c & H1). eauto 10.
  - destruct (control_payloads g s a h Hg Ha) as (_ & Hsize & _).
    apply wp_bind. eapply wp_mono; [by apply (wp_send g) |]. intros r s1 (G1 & R1 & e & ->). apply wp_ret.
    eapply wp_mono; [by apply (wp_finish g _ a h); auto |].
    intros _ s2 (G2 & R2 & f & c & H2). split_and!; [done | by etrans | eauto].
Qed.

(** *** Reads *)

Lemma u64_distance d c : 0 <= d - c < 2 ^ 64 -> u64 (u64 d - u64 c) = d - c.
Proof. intros H. unfold u64. rewrite <- Zminus_mod. by apply Z.mod_small. Qed.

Lemma u64_sum_l d c : u64 (u64 d + c) = u64 (d + c).
Proof. unfold u64. by rewrite Zplus_mod_idemp_l. Qed.

Lemma credited_ok limits g a log h :
  handle_ok limits g a log h ->
  let consumed := u64 (consumed_through_offset_ h - update_reported_consumed_bytes_ h) in
  handle_ok limits g a log
    {| h with update_reported_consumed_bytes_ := consumed_through_offset_ h;
              update_reported_consumed_frames_ := receive_window_remaining_frames_ h;
              receive_window_remaining_bytes_ :=
                Z.min (u64 (receive_window_remaining_bytes_ h + consumed)) (receive_window_bytes_ h) |}.
Proof.
  intros [] consumed. destruct ok_window0 as [Hw Hf], ok_prelude0 as [Hp1 Hp2].
  destruct ok_bytes0 as (credited & Hc & Ec & Eu & Hr & Hg & Hsum).
  assert (Hn := zlen_nonneg (concat (receive_chunks_ h))). unfold is_u64 in Hw.
  assert (consumed = zlen (delivered a log) - credited) as ->.
  { unfold consumed. rewrite Ec, Eu. apply u64_distance. lia. }
  split; cbn; try done. exists (zlen (delivered a log)). rewrite (u64_small (receive_window_remaining_bytes_ h + _)) by lia.
  rewrite Z.min_l by lia. split_and!; try done; lia.
Qed.

Lemma wp_window_update g s a h :
  good g s -> heap_ s !! a = Some h ->
  wp (maybe_send_window_update a) (fun _ s' => good g s' /\ grows s s' /\
    exists h', heap_ s' !! a = Some h' /\ reads_ h' = reads_ h /\ state_ h' = state_ h) s.
Proof.
  intros Hg Ha. unfold maybe_send_window_update. apply wp_bind, (wp_handle a h); [done |]. cbn zeta.
  destruct (_ && _); [apply wp_ret; split_and!; eauto; done |].
  destruct (control_payloads g s a h Hg Ha) as (_ & _ & Hsize).
  apply wp_bind. eapply wp_mono; [by apply (wp_send g) |]. intros r s1 (G1 & R1 & e & Hs1).
  assert (H1 : heap_ s1 !! a = Some h) by (by rewrite Hs1).
  destruct r as [u | x]; [| apply wp_ret; split_and!; eauto; done].
  destruct (good_heap _ _ G1 a h H1) as (_ & _ & Hok). apply credited_ok in Hok. cbn zeta in Hok.
  eexists _, _. split; [by apply (update_moved s1 a h) |]. split_and!.
  - eapply (good_moved g g s1 a h); try done; [by rewrite app_nil_r | | by rewrite app_nil_r].
    intros id Hid. by destruct (good_streams _ _ G1 id a Hid) as (h0 & Ha0 & _ & He); simplify_eq.
  - etrans; [exact R1 |]. apply (grows_moved s1 a h); try done; by rewrite app_nil_r.
  - eexists. cbn. rewrite lookup_insert_eq. done.
Qed.

(** A read takes [count] bytes of the front chunk. *)
Lemma consume_ok limits g a log h chunk chunks read reads :
  handle_ok limits g a log h -> receive_chunks_ h = chunk :: chunks -> reads_ h = read :: reads ->
  let count := Z.min (out_size read) (zlen chunk) in
  let h' := consume_chunk h chunk chunks count reads in
  let log' := log ++ [ReadDone a (read_handler read) (take (Z.to_nat count) chunk) (mkIo count None)] in
  handle_ok limits g a log' h' /\ incoming a h' log' = incoming a h log /\
  outgoing a h' log' = outgoing a h log.
Proof.
  intros Hok Hch Hrd count h' log'.
  assert (Hcount : 0 <= count <= zlen chunk).
  { destruct (ok_reads _ _ _ _ _ Hok) as (_ & _ & Hf). rewrite Hrd in Hf. apply Forall_cons_1 in Hf as [Hf _].
    assert (Hn := zlen_nonneg chunk). unfold count. lia. }
  clearbody count.
  assert (Hchunks : concat (receive_chunks_ h') = drop (Z.to_nat count) chunk ++ concat chunks).
  { cbn. destruct (Z.eqb_spec count (zlen chunk)) as [-> | Hne]; cbn; [| done]. by rewrite drop_ge by zlia. }
  assert (Ed : delivered a log' = delivered a log ++ take (Z.to_nat count) chunk).
  { unfold log'. rewrite delivered_app. cbn. by rewrite Z.eqb_refl, app_nil_r. }
  assert (Er : reported a log' = reported a log) by (unfold log'; rewrite reported_app; cbn; by rewrite app_nil_r).
  assert (Ei : incoming a h' log' = incoming a h log).
  { unfold incoming. rewrite Ed, Hchunks, Hch. cbn. f_equal. rewrite <- !app_assoc. f_equal.
    by rewrite (app_assoc (take _ _)), take_drop. }
  assert (Eo : outgoing a h' log' = outgoing a h log) by (unfold outgoing; by rewrite Er).
  assert (Hfr : 0 <= receive_window_remaining_frames_ h' /\
    receive_window_remaining_frames_ h' + zlen (receive_chunks_ h') + gap_frames g <= receive_window_frames_ h).
  { destruct (ok_frames _ _ _ _ _ Hok) as [F1 F2], (ok_window _ _ _ _ _ Hok) as [_ Hw].
    rewrite Hch, zlen_cons in F2. assert (Hn := zlen_nonneg chunks). unfold is_u32 in Hw.
    assert (Hgap : 0 <= gap_frames g) by (destruct g; cbn; lia).
    cbn -[gap_frames]. destruct (count =? zlen chunk); [rewrite u32_small by lia | rewrite zlen_cons]; lia. }
  assert (Ezl : zlen (concat (receive_chunks_ h')) = zlen (concat (receive_chunks_ h)) - count).
  { rewrite Hchunks, Hch. cbn. rewrite !zlen_app, zlen_drop. lia. }
  assert (Edz : zlen (delivered a log') = zlen (delivered a log) + count).
  { rewrite Ed, zlen_app, zlen_take. lia. }
  clearbody log'. split; [| done]. destruct Hok. split; rewrite ?Ei, ?Eo; try done.
  - rewrite Ezl. cbn. rewrite ok_buffered0. destruct ok_bytes0 as (cr & ? & ? & ? & ? & ? & Hsum).
    destruct ok_window0 as [Hw _], ok_prelude0 as [_ Hp]. unfold is_u64 in Hw.
    rewrite Hch in *. cbn in *. rewrite zlen_app in *. assert (Hn := zlen_nonneg (concat chunks)).
    apply u64_small. lia.
  - destruct ok_bytes0 as (cr & ? & Ec & Eu & ? & ? & Hsum). exists cr. rewrite Edz, Ezl. cbn.
    rewrite Ec, u64_sum_l. split_and!; try done; lia.
  - destruct ok_reads0 as (H1 & H2 & H3). rewrite Hrd in *. rewrite zlen_cons in H1.
    apply Forall_cons_1 in H3 as [_ H3]. cbn. split_and!; [lia | done | done].
  - intros Hp. destruct (ok_order0 Hp) as [_ Hnil]. by rewrite Hch in Hnil.
Qed.

Lemma live_state g s id a h : good g s -> heap_ s !! a = Some h -> streams_ s !! id = Some a -> is_ended (state_ h) = false.
Proof. intros Hg Ha Hs. destruct (good_streams _ _ Hg id a Hs) as (h0 & Ha0 & _ & He). by simplify_eq. Qed.

Lemma wp_dispatch g s a h fuel :
  good g s -> heap_ s !! a = Some h -> state_ h <> StreamState.reset -> (length (reads_ h) <= fuel)%nat ->
  wp (dispatch_loop fuel a) (fun _ s' => good g s' /\ grows s s' /\
    exists h', heap_ s' !! a = Some h' /\ state_ h' <> StreamState.reset) s.
Proof.
  revert s h. induction fuel as [| fuel IH]; intros s h Hg Ha Hst Hlen;
    cbn [dispatch_loop]; apply wp_bind, (wp_handle a h); try done;
    destruct (reads_ h) as [| read reads] eqn:Hrd; cbn in Hlen; try lia;
    try (apply wp_ret; split_and!; [done | done | by exists h]; fail).
  destruct (good_heap _ _ Hg a h Ha) as (_ & Hat & Hok).
  destruct (receive_chunks_ h) as [| chunk chunks] eqn:Hch.
  - destruct (_ && _); [| apply wp_ret; split_and!; [done | done | by exists h]].
    set (h1 := {| h with reads_ := reads |}).
    apply wp_bind. eexists _, _. split; [by apply (update_moved s a h) |].
    apply wp_bind. eexists _, _. split; [apply (emit_moved _ a h1); cbn; by rewrite lookup_insert_eq |].
    rewrite moved_moved. cbn [streams_ moved app]. set (ev := ReadDone _ _ _ _). set (s1 := moved _ _ _ _ _).
    assert (H1 : heap_ s1 !! a = Some h1) by (cbn; by rewrite lookup_insert_eq).
    assert (Hok1 : handle_ok (limits_ s) (g a) a (log_ s ++ [ev]) h1 /\
      incoming a h1 (log_ s ++ [ev]) = incoming a h (log_ s) /\
      outgoing a h1 (log_ s ++ [ev]) = outgoing a h (log_ s)).
    { assert (Ed : delivered a (log_ s ++ [ev]) = delivered a (log_ s))
        by (rewrite delivered_app; cbn; by rewrite Z.eqb_refl, app_nil_r).
      assert (Er : reported a (log_ s ++ [ev]) = reported a (log_ s)) by (rewrite reported_app; cbn; by rewrite app_nil_r).
      unfold incoming, outgoing. rewrite Ed, Er. split; [| done]. destruct Hok.
      split; unfold incoming, outgoing; rewrite ?Ed, ?Er; try done.
      destruct ok_reads0 as (R1 & R2 & R3). rewrite Hrd in *. rewrite zlen_cons in R1.
      apply Forall_cons_1 in R3 as [_ R3]. cbn. split_and!; [lia | done | done]. }
    destruct Hok1 as (Hok1 & Hin1 & Hout1).
    assert (G1 : good g s1).
    { apply (good_moved g g s a h); try done; [by repeat constructor | | by rewrite Hout1].
      intros id Hid. exact (live_state g s id a h Hg Ha Hid). }
    assert (R1 : grows s s1) by (apply (grows_moved s a h); try done; [by repeat constructor | by rewrite Hout1]).
    apply wp_bind. destruct (fin_sent_ h).
    + eapply wp_mono; [by apply (wp_finish g s1 a h1); auto |]. intros _ s2 (G2 & R2 & f & c & H2).
      eapply wp_mono; [apply (IH s2 (finished h1 StreamState.closed f c)); try done; cbn; lia |].
      intros _ s3 (G3 & R3 & H3). split_and!; [done | by do 2 (etrans; [done |]) | done].
    + apply wp_ret. eapply wp_mono; [apply (IH s1 h1); try done; cbn; lia |].
      intros _ s3 (G3 & R3 & H3). split_and!; [done | by etrans | done].
  - cbn zeta. destruct (consume_ok _ _ a _ h chunk chunks read reads Hok Hch Hrd) as (Hok1 & Hin1 & Hout1).
    cbn zeta in Hok1, Hin1, Hout1. set (count := Z.min (out_size read) (zlen chunk)) in *.
    set (h1 := consume_chunk h chunk chunks count reads) in *.
    assert (Hs1 : state_ h1 = state_ h /\ id_ h1 = id_ h) by done.
    apply wp_bind. eexists _, _. split; [apply set_handle_moved |].
    apply wp_bind. eexists _, _. split; [apply (emit_moved _ a h1); cbn; by rewrite lookup_insert_eq |].
    rewrite moved_moved. cbn [streams_ moved app]. set (ev := ReadDone _ _ _ _) in *. set (s1 := moved _ _ _ _ _).
    assert (H1 : heap_ s1 !! a = Some h1) by (cbn; by rewrite lookup_insert_eq).
    assert (G1 : good g s1).
    { apply (good_moved g g s a h); try done; [by repeat constructor | | by rewrite Hout1].
      intros id Hid. destruct Hs1 as [-> _]. exact (live_state g s id a h Hg Ha Hid). }
    assert (R1 : grows s s1)
      by (apply (grows_moved s a h); try done; [by repeat constructor | by rewrite Hout1]).
    apply wp_bind. eapply wp_mono; [by apply (wp_window_update g s1 a h1) |].
    intros _ s2 (G2 & R2 & h2 & H2 & Er2 & Es2).
    eapply wp_mono; [apply (IH s2 h2); try done; [destruct Hs1; congruence | rewrite Er2; cbn; lia] |].
    intros _ s3 (G3 & R3 & H3). split_and!; [done | by do 2 (etrans; [done |]) | done].
Qed.

Lemma wp_try_dispatch g s a h :
  good g s -> heap_ s !! a = Some h -> state_ h <> StreamState.reset ->
  wp (try_dispatch_reads a) (fun _ s' => good g s' /\ grows s s' /\
    exists h', heap_ s' !! a = Some h' /\ state_ h' <> StreamState.reset) s.
Proof.
  intros Hg Ha Hst. unfold try_dispatch_reads. apply wp_bind, (wp_handle a h); [done |]. by apply (wp_dispatch g s a h).
Qed.

(** *** Writes *)

Lemma prefix_eq {A} (l k : list A) : l = k -> l `prefix_of` k.
Proof. by intros ->. Qed.

Lemma entered_zero l : Forall (fun w => offset w = 0) l -> concat (map entered l) = [].
Proof. induction 1 as [| w l Hw _ IH]; [done |]. cbn. rewrite IH. unfold entered. by rewrite Hw. Qed.

Lemma tail_zero (l : list PendingWrite) : Forall (fun w => offset w = 0) l -> Forall (fun w => offset w = 0) (tail l).
Proof. intros []; by cbn. Qed.

(** The front write is done with the bytes that entered the window. *)
Lemma write_done_ok limits g a log h w rest n e :
  handle_ok limits g a log h -> writes_ h = w :: rest -> take (Z.to_nat n) (data w) = entered w ->
  let h' := {| h with writes_ := rest |} in
  let log' := log ++ [WriteDone a (write_handler w) (data w) (mkIo n e)] in
  handle_ok limits g a log' h' /\ incoming a h' log' = incoming a h log /\
  outgoing a h' log' = outgoing a h log.
Proof.
  intros Hok Hw Hn h' log'.
  assert (Ed : delivered a log' = delivered a log) by (unfold log'; rewrite delivered_app; cbn; by rewrite app_nil_r).
  assert (Er : reported a log' = reported a log ++ entered w).
  { unfold log'. rewrite reported_app. cbn. by rewrite Z.eqb_refl, Hn, app_nil_r. }
  clearbody log'.
  assert (Ei : incoming a h' log' = incoming a h log) by (unfold incoming; by rewrite Ed).
  assert (Eo : outgoing a h' log' = outgoing a h log)
    by (unfold outgoing; rewrite Er, Hw; cbn; by rewrite <- app_assoc).
  split; [| done]. destruct Hok. split; rewrite ?Ei, ?Eo; try done.
  - by rewrite Ed.
  - rewrite Hw, zlen_cons in ok_writes0. cbn. split; [lia | by apply ok_writes0].
  - destruct ok_backlog0 as [B1 B2], ok_offsets0 as [O1 _]. split; [| done]. rewrite Hw in O1.
    apply Forall_cons_1 in O1 as [O1 _]. unfold pending_bytes in *. rewrite Hw in B1. cbn in *. lia.
  - destruct ok_offsets0 as [O1 O2]. rewrite Hw in *. cbn in *. apply Forall_cons_1 in O1 as [_ O1].
    split; [done | by apply tail_zero].
  - by rewrite Ed.
Qed.

(** A chunk of the front write entered the window. *)
Lemma chunk_ok_sent limits g a log h w rest chunk :
  handle_ok limits g a log h -> writes_ h = w :: rest ->
  1 <= chunk <= zlen (data w) - offset w -> chunk <= send_credit_bytes_ h -> send_credit_frames_ h <> 0 ->
  let h' := chunk_sent h w rest chunk in
  handle_ok limits g a log h' /\ incoming a h' log = incoming a h log /\
  outgoing a h' log = outgoing a h log ++ subspan (offset w) chunk (data w).
Proof.
  intros Hok Hw Hc Hb Hf h'.
  assert (Hoff : 0 <= offset w <= zlen (data w) /\ Forall (fun w => offset w = 0) rest /\
                 Forall (fun w => 0 <= offset w <= zlen (data w)) rest).
  { destruct (ok_offsets _ _ _ _ _ Hok) as [O1 O2]. rewrite Hw in *. cbn in *.
    by apply Forall_cons_1 in O1 as [O1 O3]. }
  destruct Hoff as (Hoff & Hz & Hr).
  assert (Eo : outgoing a h' log = outgoing a h log ++ subspan (offset w) chunk (data w)).
  { unfold outgoing. rewrite Hw. cbn. rewrite (entered_zero rest) by done. rewrite !app_nil_r, <- app_assoc.
    f_equal. unfold entered, subspan. cbn. rewrite Z2Nat.inj_add by lia. by rewrite take_take_drop. }
  assert (Ez : zlen (outgoing a h' log) = zlen (outgoing a h log) + chunk).
  { rewrite Eo, zlen_app, zlen_subspan by lia. lia. }
  split; [| done]. destruct Hok. split; try done.
  - cbn. rewrite Hw in ok_writes0. by rewrite zlen_cons in *.
  - destruct ok_backlog0 as [B1 B2]. split; [| done]. unfold pending_bytes in *. rewrite Hw in B1. cbn in *. lia.
  - cbn. split; [constructor; [cbn; lia | done] | done].
  - rewrite Ez. cbn. rewrite ok_next_send0. apply u64_sum_l.
  - destruct ok_credit0 as [C1 C2]. unfold is_u64, is_u32 in *. cbn. lia.
Qed.

Lemma send_data_cases g s a h w rest chunk :
  good g s -> heap_ s !! a = Some h -> writes_ h = w :: rest ->
  1 <= chunk <= zlen (data w) - offset w -> chunk <= 1024 * 1024 ->
  chunk <= send_credit_bytes_ h -> send_credit_frames_ h <> 0 ->
  exists r e, let s1 := {| s with session_ := e |} in
    send_stream_frame (stream_channel_ h) stream_data
      (data_payload h (subspan (offset w) chunk (data w))) FrameClass.bulk s = Some (r, s1) /\
    match r with
    | failure _ => good g s1 /\ grows s s1
    | success _ => good g (moved s1 a (chunk_sent h w rest chunk) [] (streams_ s)) /\
                   grows s (moved s1 a (chunk_sent h w rest chunk) [] (streams_ s))
    end.
Proof.
  intros Hg Ha Hw Hc Hc20 Hb Hf. destruct (good_heap _ _ Hg a h Ha) as (_ & _ & Hok).
  assert (Hc32 : chunk < 2 ^ 32) by lia.
  assert (Hz : zlen (subspan (offset w) chunk (data w)) = chunk)
    by (destruct (ok_offsets _ _ _ _ _ Hok) as [O1 _]; rewrite Hw in O1;
        apply Forall_cons_1 in O1 as [O1 _]; rewrite zlen_subspan by lia; lia).
  assert (Hlen : zlen (data_payload h (subspan (offset w) chunk (data w))) <= max_stream_payload).
  { rewrite data_payload_bytes by (by rewrite Hz). destruct (ok_id _ _ _ _ _ Hok) as [Hid Hz0].
    assert (Hn : is_u64 (next_send_offset_ h)) by (rewrite (ok_next_send _ _ _ _ _ Hok); by apply Z.mod_pos_bound).
    destruct (read_data_bytes (id_ h) (next_send_offset_ h) (subspan (offset w) chunk (data w)) Hid Hz0 Hn)
      as (_ & _ & _ & -> & _); [rewrite Hz; split; lia |]. rewrite Hz. unfold max_stream_payload. lia. }
  unfold send_stream_frame, session_call. cbn.
  edestruct (send_ok (inner (session_ s)) (stream_channel_ h) FrameClass.bulk (mkFrame (frame_type_value stream_data) 0
    (stream_channel_ h) (repeat 0 16) (data_payload h (subspan (offset w) chunk (data w))))) as (r & e & Hs & He);
    [apply Hg | exact Hlen |]. cbn in Hs. rewrite Hs.
  destruct (chunk_ok_sent _ _ a _ h w rest chunk Hok Hw Hc Hb Hf) as (Hok' & Hin & Hout).
  destruct r as [u | x].
  - set (f := mkFrame _ _ _ _ _). exists (success tt), (mkRecorded e (sent (session_ s) ++ [(FrameClass.bulk, f)])).
    split; [done |].
    set (s1 := moved s a (chunk_sent h w rest chunk) [] (streams_ s)).
    assert (Hpre : outgoing a h (log_ s) `prefix_of` outgoing a (chunk_sent h w rest chunk) (log_ s ++ [])).
    { rewrite app_nil_r, Hout. by eexists. }
    assert (G1 : good g s1).
    { apply (good_moved g g s a h); try done; [by rewrite app_nil_r |].
      intros id Hid. exact (live_state g s id a h Hg Ha Hid). }
    assert (R1 : grows s s1) by (apply (grows_moved s a h); try done; by rewrite app_nil_r).
    destruct (good_swap g s1 (mkRecorded e (sent (session_ s) ++ [(FrameClass.bulk, f)])) G1) as [G2 R2]; [done | by eexists | |].
    { cbn. intros k f' [Hin' | Hin']%elem_of_app; [by left | right].
      apply list_elem_of_singleton in Hin' as [= -> ->]. intros _.
      exists a, (chunk_sent h w rest chunk), (outgoing a h (log_ s)), (subspan (offset w) chunk (data w)).
      unfold s1. cbn [heap_ log_ moved]. rewrite lookup_insert_eq, app_nil_r, Hout.
      split_and!; [done | | by rewrite Hz | done].
      cbn. rewrite data_payload_bytes by (by rewrite Hz). by rewrite (ok_next_send _ _ _ _ _ Hok). }
    split; [exact G2 | etrans; [exact R1 | exact R2]].
  - exists (failure x), (mkRecorded e (sent (session_ s))). split; [done |].
    destruct (good_swap g s (mkRecorded e (sent (session_ s))) Hg); [done | done | by left | done].
Qed.

Lemma pump_fuel_cons h w rest : writes_ h = w :: rest ->
  pump_fuel h = (S (length (data w) - Z.to_nat (offset w)) + pump_fuel {| h with writes_ := rest |})%nat.
Proof. intros Hw. unfold pump_fuel. by rewrite Hw. Qed.

Lemma wp_pump_loop g s a h fuel :
  good g s -> heap_ s !! a = Some h -> is_ended (state_ h) = false -> (pump_fuel h <= fuel)%nat ->
  wp (pump_loop fuel a) (fun _ s' => good g s' /\ grows s s') s.
Proof.
  revert s h. induction fuel as [| fuel IH]; intros s h Hg Ha Hst Hfuel;
    cbn [pump_loop]; apply wp_bind, (wp_handle a h); try done;
    destruct (writes_ h) as [| w rest] eqn:Hw; try (by apply wp_ret);
    assert (Hcost := pump_fuel_cons h w rest Hw); [lia |].
  destruct (good_heap _ _ Hg a h Ha) as (_ & Hat & Hok). destruct (good_attached _ _ Hg Hat) as [Hl _].
  assert (Hoff : 0 <= offset w <= zlen (data w)).
  { destruct (ok_offsets _ _ _ _ _ Hok) as [O1 _]. rewrite Hw in O1. by apply Forall_cons_1 in O1 as [O1 _]. }
  assert (Hstate : state_ h <> StreamState.reset) by (intros E0; by rewrite E0 in Hst).
  assert (Hlive : forall id, streams_ s !! id = Some a -> is_ended (state_ h) = false) by done.
  destruct (Z.ltb_spec (offset w) (zlen (data w))) as [Hlt | Hge].
  - destruct (_ || _) eqn:Hcr; [by apply wp_ret |]. apply wp_bind, wp_get. cbn zeta.
    destruct (ok_credit _ _ _ _ _ Hok) as [C1 C2]. unfold is_u64, is_u32 in *. destruct (chunk_ok _ Hl) as [K1 K2].
    set (chunk := Z.min _ _).
    assert (Hchunk : 1 <= chunk <= zlen (data w) - offset w /\ chunk <= 1024 * 1024 /\ chunk <= send_credit_bytes_ h)
      by (unfold chunk; lia).
    destruct Hchunk as (Hc1 & Hc2 & Hc3). clearbody chunk.
    destruct (send_data_cases g s a h w rest chunk) as (r & e & Hsend & Hr); try done; [lia |]. cbn zeta in Hsend, Hr.
    apply wp_bind. eexists _, _. split; [exact Hsend |]. set (s1 := {| s with session_ := e |}) in *.
    destruct r as [u | x].
    + destruct Hr as [G1 R1]. apply wp_bind. eexists _, _. split; [apply set_handle_moved |].
      set (s2 := moved s1 _ _ _ _) in *.
      eapply wp_mono; [apply (IH s2 (chunk_sent h w rest chunk)); [done | cbn; by rewrite lookup_insert_eq | done |] |].
      { rewrite (pump_fuel_cons (chunk_sent h w rest chunk) {| w with offset := offset w + chunk |} rest) by done.
        change (pump_fuel {| (chunk_sent h w rest chunk) with writes_ := rest |}) with (pump_fuel {| h with writes_ := rest |}).
        cbn [data offset]. rewrite Z2Nat.inj_add by lia. unfold zlen in *. lia. }
      intros _ s3 (G3 & R3). split; [done | by etrans].
    + destruct Hr as [G1 R1]. case_bool_decide; [by apply wp_ret |].
      destruct (write_done_ok _ _ a (log_ s) h w rest (offset w) (Some x) Hok Hw eq_refl) as (Hok' & Hin & Hout).
      cbn zeta in Hok', Hin, Hout. apply wp_bind. eexists _, _. split; [by apply (emit_moved s1 a h) |].
      apply wp_bind. eexists _, _. split; [apply set_handle_moved |]. rewrite moved_moved. cbn [app streams_ moved].
      set (s2 := moved s1 a _ _ _). set (h2 := {| h with writes_ := rest |}) in *.
      assert (G2 : good g s2).
      { apply (good_moved g g s1 a h); try done; [by repeat constructor | exact (prefix_eq _ _ (eq_sym Hout))]. }
      assert (R2 : grows s1 s2) by (apply (grows_moved s1 a h); try done; [by repeat constructor | exact (prefix_eq _ _ (eq_sym Hout))]).
      eapply wp_mono; [apply (wp_reset_for g s2 a h2); [done | cbn; by rewrite lookup_insert_eq] |].
      intros _ s3 (G3 & R3 & _). split; [done | by do 2 (etrans; [done |])].
  - assert (Hall : take (Z.to_nat (zlen (data w))) (data w) = entered w).
    { unfold entered. by replace (offset w) with (zlen (data w)) by lia. }
    destruct (write_done_ok _ _ a (log_ s) h w rest (zlen (data w)) None Hok Hw Hall) as (Hok' & Hin & Hout).
    cbn zeta in Hok', Hin, Hout. apply wp_bind. eexists _, _. split; [by apply (emit_moved s a h) |].
    apply wp_bind. eexists _, _. split; [apply set_handle_moved |]. rewrite moved_moved. cbn [app streams_ moved].
    set (s2 := moved s a _ _ _). set (h2 := {| h with writes_ := rest |}) in *.
    assert (H2 : heap_ s2 !! a = Some h2) by (cbn; by rewrite lookup_insert_eq).
    assert (G2 : good g s2).
    { apply (good_moved g g s a h); try done; [by repeat constructor | exact (prefix_eq _ _ (eq_sym Hout))]. }
    assert (R2 : grows s s2) by (apply (grows_moved s a h); try done; [by repeat constructor | exact (prefix_eq _ _ (eq_sym Hout))]).
    destruct (fin_after w).
    + destruct (control_payloads g s a h Hg Ha) as (Hsize & _).
      apply wp_bind. eapply wp_mono; [by apply (wp_send g s2) |]. intros r s3 (G3 & R3 & e & ->).
      eapply wp_mono; [by apply (wp_finish g _ a h2); auto |].
      intros _ s4 (G4 & R4 & _). split; [done | by do 2 (etrans; [done |])].
    + eapply wp_mono; [apply (IH s2 h2); try done; lia |]. intros _ s3 (G3 & R3). split; [done | by etrans].
Qed.

Lemma wp_pump g s a h :
  good g s -> heap_ s !! a = Some h -> wp (pump_writes a) (fun _ s' => good g s' /\ grows s s') s.
Proof.
  intros Hg Ha. unfold pump_writes. apply wp_bind, (wp_handle a h); [done |].
  destruct (is_ended (state_ h)) eqn:He; [by apply wp_ret | by apply (wp_pump_loop g s a h)].
Qed.

(** *** Deadlines *)

Lemma entered_filter p w rest :
  Forall (fun w => offset w = 0) rest ->
  concat (map entered (List.filter p (w :: rest)))
  ++ concat (map entered (List.filter (fun w => negb (p w)) (w :: rest))) = concat (map entered (w :: rest)).
Proof.
  intros Hz. assert (Hf : forall q, concat (map entered (List.filter q rest)) = []).
  { intros q. apply entered_zero. apply list.Forall_forall. intros x Hx.
    apply list_elem_of_In, filter_In in Hx as [Hx _]. rewrite list.Forall_forall in Hz. by apply Hz, list_elem_of_In. }
  cbn. destruct (p w); cbn; rewrite !Hf, entered_zero by done; by rewrite ?app_nil_r.
Qed.

Lemma Forall_keep {A} (P : A -> Prop) p l : Forall P l -> Forall P (List.filter p l).
Proof. induction 1; [done |]. cbn. case_match; by try constructor. Qed.

Lemma zlen_keep {A} p (l : list A) : zlen (List.filter p l) <= zlen l.
Proof. unfold zlen. apply inj_le, List.filter_length_le. Qed.

Lemma backlog_keep p l :
  Forall (fun w => 0 <= offset w <= zlen (data w)) l ->
  foldr Z.add 0 (map (fun w => zlen (data w) - offset w) (List.filter p l))
  <= foldr Z.add 0 (map (fun w => zlen (data w) - offset w) l).
Proof. induction 1; [done |]. cbn. case_match; cbn; lia. Qed.

Lemma tail_keep p w rest :
  Forall (fun w => offset w = 0) rest -> Forall (fun w => offset w = 0) (tail (List.filter p (w :: rest))).
Proof. intros Hz. cbn. case_match; cbn; [| apply tail_zero]; by apply Forall_keep. Qed.

Lemma wp_sweep_stream g s a h now :
  good g s -> heap_ s !! a = Some h ->
  wp (sweep_stream now a) (fun _ s' => good g s' /\ grows s s' /\ streams_ s' = streams_ s) s.
Proof.
  intros Hg Ha. unfold sweep_stream, complete_write. apply wp_bind, (wp_handle a h); [done |].
  apply wp_bind. eexists _, _. split; [by apply (each_emit _ _ s a h) |].
  apply wp_bind. eexists _, _. split; [apply (each_emit _ _ _ a h); cbn; by rewrite lookup_insert_eq |].
  rewrite moved_moved. eexists _, _. split; [apply (update_moved _ a h); cbn; by rewrite lookup_insert_eq |].
  rewrite moved_moved, app_nil_r. cbn [streams_ moved]. set (evs := _ ++ _). set (h1 := {| h with reads_ := _; writes_ := _ |}).
  destruct (good_heap _ _ Hg a h Ha) as (_ & _ & Hok).
  assert (Hev : Forall (fun e => event_stream e = a) evs)
    by (apply Forall_app; split; apply Forall_map, Forall_true; done).
  assert (Ed : delivered a evs = []).
  { unfold evs. rewrite delivered_app, !delivered_nothing; [done | done |]. intros r. cbn. by rewrite Z.eqb_refl. }
  assert (Er : reported a evs = concat (map entered (List.filter (fun w => expired now (write_deadline w)) (writes_ h)))).
  { unfold evs. rewrite reported_app, reported_nothing by done. cbn. apply reported_map.
    intros w _. cbn. by rewrite Z.eqb_refl. }
  clearbody evs.
  assert (Ei : incoming a h1 (log_ s ++ evs) = incoming a h (log_ s))
    by (unfold incoming; by rewrite delivered_app, Ed, app_nil_r).
  assert (Eo : outgoing a h1 (log_ s ++ evs) = outgoing a h (log_ s)).
  { unfold outgoing. rewrite reported_app, Er, <- app_assoc. f_equal. cbn.
    destruct (ok_offsets _ _ _ _ _ Hok) as [_ O2]. destruct (writes_ h) as [| w rest]; [done |].
    by apply entered_filter. }
  assert (Hok1 : handle_ok (limits_ s) (g a) a (log_ s ++ evs) h1).
  { destruct Hok. split; rewrite ?Ei, ?Eo; try done.
    - by rewrite delivered_app, Ed, app_nil_r.
    - destruct ok_reads0 as (R1 & R2 & R3). cbn. split_and!; [etrans; [apply zlen_keep | done] | done | by apply Forall_keep].
    - cbn. split; [etrans; [apply zlen_keep | apply ok_writes0] | apply ok_writes0].
    - split; [etrans; [apply backlog_keep; apply ok_offsets0 | apply ok_backlog0] | apply ok_backlog0].
    - destruct ok_offsets0 as [O1 O2]. cbn. split; [by apply Forall_keep |].
      destruct (writes_ h) as [| w rest]; [done | by apply tail_keep].
    - by rewrite delivered_app, Ed, app_nil_r. }
  split_and!; [| | done].
  - apply (good_moved g g s a h); try done; [| exact (prefix_eq _ _ (eq_sym Eo))].
    intros id Hid. exact (live_state g s id a h Hg Ha Hid).
  - apply (grows_moved s a h); try done. exact (prefix_eq _ _ (eq_sym Eo)).
Qed.

Definition allocated s (a : Z) : Prop := is_Some (heap_ s !! a).

Lemma grows_allocated s s' a : grows s s' -> allocated s a -> allocated s' a.
Proof. intros R [h Ha]. destruct (grow_heap _ _ R a h Ha) as (h' & Ha' & _). by exists h'. Qed.

Lemma wp_sweep g s now streams :
  good g s -> Forall (fun '(_, a) => allocated s a) streams ->
  wp (sweep now streams) (fun late s' => good g s' /\ grows s s' /\ Forall (allocated s') late) s.
Proof.
  revert s. induction streams as [| [id a] streams IH]; intros s Hg Hall; cbn [sweep].
  { apply wp_ret. done. }
  apply Forall_cons_1 in Hall as [[h Ha] Hall].
  apply wp_bind, (wp_handle a h); [done |]. apply wp_bind. eapply wp_mono; [by apply (wp_sweep_stream g s a h) |].
  intros _ s1 (G1 & R1 & _). apply wp_bind.
  eapply wp_mono; [apply (IH s1); [done |] |].
  { eapply list.Forall_impl; [exact Hall |]. intros [id' b] Hb. by apply (grows_allocated s). }
  intros late s2 (G2 & R2 & Hl). apply wp_ret. split_and!; [done | by etrans |].
  destruct (dial_expired now h); [constructor; [| done] | done].
  apply (grows_allocated s); [by etrans | by exists h].
Qed.

Lemma wp_each_good {A} g s (f : A -> Op (Recorded E) unit) (P : Service -> A -> Prop) l :
  (forall s s' x, grows s s' -> P s x -> P s' x) ->
  (forall s x, good g s -> P s x -> wp (f x) (fun _ s' => good g s' /\ grows s s') s) ->
  good g s -> Forall (P s) l -> wp (each f l) (fun _ s' => good g s' /\ grows s s') s.
Proof.
  intros Hp Hf. revert s. induction l as [| x l IH]; intros s Hg Hall; cbn [each]; [by apply wp_ret |].
  apply Forall_cons_1 in Hall as [Hx Hall]. apply wp_bind. eapply wp_mono; [by apply Hf |].
  intros _ s1 (G1 & R1). eapply wp_mono; [apply (IH s1); [done |] |].
  { eapply list.Forall_impl; [exact Hall |]. intros y. by apply Hp. }
  intros _ s2 (G2 & R2). split; [done | by etrans].
Qed.

Lemma streams_allocated g s : good g s -> Forall (fun '(_, a) => allocated s a) (iterate (streams_ s)).
Proof.
  intros Hg. apply list.Forall_forall. intros [id a] Hin%elem_of_iterate.
  destruct (good_streams _ _ Hg id a Hin) as (h & Ha & _). by exists h.
Qed.

Lemma wp_deadlines g s : good g s -> wp check_deadlines (fun _ s' => good g s' /\ grows s s') s.
Proof.
  intros Hg. unfold check_deadlines. apply wp_bind, wp_get, wp_bind, wp_get, wp_bind.
  eapply wp_mono; [by apply (wp_sweep g); [| by eapply streams_allocated] |]. intros late s1 (G1 & R1 & Hl).
  eapply wp_mono; [apply (wp_each_good g s1 _ allocated); [apply grows_allocated | | done | done] |].
  - intros s2 a G2 [h Ha]. apply wp_bind, (wp_handle a h); [done |]. apply wp_bind, wp_get.
    destruct (seen _); [| by apply wp_ret].
    eapply wp_mono; [by apply (wp_reset_for g s2 a h) |]. intros _ s3 (G3 & R3 & _). done.
  - intros _ s2 (G2 & R2). split; [done | by etrans].
Qed.

(** *** The calls of the application *)

(** An event of a stream that reads and writes nothing. *)
Lemma wp_emit g s a h e :
  good g s -> heap_ s !! a = Some h -> event_stream e = a -> read_of a e = [] -> written_of a e = [] ->
  wp (emit e) (fun _ s' => good g s' /\ grows s s') s.
Proof.
  intros Hg Ha He Hr Hw. eexists _, _. split; [by apply (emit_moved s a h) |].
  destruct (good_heap _ _ Hg a h Ha) as (_ & _ & Hok).
  assert (Ed : delivered a (log_ s ++ [e]) = delivered a (log_ s))
    by (rewrite delivered_app; unfold delivered at 2; cbn; by rewrite Hr, app_nil_r).
  assert (Er : reported a (log_ s ++ [e]) = reported a (log_ s))
    by (rewrite reported_app; unfold reported at 2; cbn; by rewrite Hw, app_nil_r).
  split.
  - apply (good_moved g g s a h); try done; [by repeat constructor | | | unfold outgoing; by rewrite Er].
    + destruct Hok. split; unfold incoming, outgoing; rewrite ?Ed, ?Er; done.
    + intros id Hid. exact (live_state g s id a h Hg Ha Hid).
  - apply (grows_moved s a h); try done; [by repeat constructor | unfold incoming; by rewrite Ed | unfold outgoing; by rewrite Er].
Qed.

(** A handle that is changed without an event. *)
Lemma good_set g g' s a h h' :
  good g s -> heap_ s !! a = Some h -> (forall b, b <> a -> g' b = g b) ->
  handle_ok (limits_ s) (g' a) a (log_ s) h' -> id_ h' = id_ h ->
  (is_ended (state_ h) = false -> is_ended (state_ h') = false) ->
  outgoing a h (log_ s) `prefix_of` outgoing a h' (log_ s) ->
  good g' (moved s a h' [] (streams_ s)) /\
  (incoming a h' (log_ s) = incoming a h (log_ s) -> grows s (moved s a h' [] (streams_ s))).
Proof.
  intros Hg Ha Hgg Hok Hid Hst Ho. split.
  - apply (good_moved g g' s a h); try done; [by rewrite app_nil_r | | by rewrite app_nil_r].
    intros id Hin. apply Hst. exact (live_state g s id a h Hg Ha Hin).
  - intros Hi. apply (grows_moved s a h); try done; by rewrite app_nil_r.
Qed.

Lemma wp_async_read g s a size handler deadline :
  good g s -> allocated s a -> 0 <= size ->
  wp (async_read_some a size handler deadline) (fun _ s' => good g s' /\ grows s s') s.
Proof.
  intros Hg [h Ha] Hsize. unfold async_read_some. apply wp_bind, (wp_handle a h); [done |]. cbn zeta.
  assert (Hrefuse : forall e, wp (emit (ReadDone a handler [] (mkIo 0 (Some e))))
    (fun _ s' => good g s' /\ grows s s') s).
  { intros e. apply (wp_emit g s a h); try done. cbn. by rewrite Z.eqb_refl. }
  destruct (Z.eqb_spec size 0); [apply Hrefuse |]. case_bool_decide as Hst; [apply Hrefuse |].
  destruct (Z.leb_spec (max_pending_reads_ h) (zlen (reads_ h))) as [Hle | Hlt]; [apply Hrefuse |].
  destruct (good_heap _ _ Hg a h Ha) as (_ & _ & Hok). apply wp_bind. eexists _, _. split; [apply set_handle_moved |].
  set (h1 := {| h with reads_ := _ |}).
  destruct (good_set g g s a h h1) as [G1 R1]; try done.
  { destruct Hok. split; try done. destruct ok_reads0 as (R1 & R2 & R3). cbn. rewrite zlen_app, zlen_cons, zlen_nil.
    split_and!; [lia | done |]. apply Forall_app. split; [done |]. repeat constructor. cbn. lia. }
  specialize (R1 eq_refl). eapply wp_mono; [apply (wp_try_dispatch g _ a h1); [done | cbn; by rewrite lookup_insert_eq | done] |].
  intros _ s2 (G2 & R2 & _). split; [done | by etrans].
Qed.

Lemma wp_async_write g s a bytes handler deadline :
  good g s -> allocated s a ->
  wp (async_write a bytes handler deadline) (fun _ s' => good g s' /\ grows s s') s.
Proof.
  intros Hg [h Ha]. unfold async_write. apply wp_bind, (wp_handle a h); [done |]. cbn zeta.
  assert (Hanswer : forall e, wp (emit (WriteDone a handler bytes (mkIo 0 e)))
    (fun _ s' => good g s' /\ grows s s') s).
  { intros e. apply (wp_emit g s a h); try done. cbn. by rewrite Z.eqb_refl. }
  destruct (is_ended _) eqn:Hst; [apply Hanswer |]. destruct (_ || _); [apply Hanswer |].
  destruct (zlen bytes =? 0); [apply Hanswer |].
  destruct (Z.ltb_spec (max_pending_write_bytes_ h) (pending_bytes h + zlen bytes)) as [Hlt | Hfit]; [apply Hanswer |].
  destruct (Z.leb_spec (max_pending_writes_ h) (zlen (writes_ h))) as [Hle | Hroom]; [apply Hanswer |].
  destruct (good_heap _ _ Hg a h Ha) as (_ & _ & Hok). apply wp_bind. eexists _, _. split; [apply set_handle_moved |].
  set (w := mkWrite bytes 0 handler deadline false). set (h1 := {| h with writes_ := writes_ h ++ [w] |}).
  assert (Eo : outgoing a h1 (log_ s) = outgoing a h (log_ s)).
  { unfold outgoing. cbn. rewrite map_app, concat_app. cbn. by rewrite !app_nil_r. }
  destruct (good_set g g s a h h1) as [G1 R1]; try done; [| by rewrite Eo |].
  { destruct Hok. split; rewrite ?Eo; try done.
    - cbn. rewrite zlen_app, zlen_cons, zlen_nil. split; [lia | by apply ok_writes0].
    - destruct ok_backlog0 as [B1 B2]. split; [| done]. unfold pending_bytes in *. cbn. rewrite map_app, foldr_app. cbn.
      replace (foldr Z.add (zlen bytes - 0 + 0) (map (fun w => zlen (data w) - offset w) (writes_ h)))
        with (foldr Z.add 0 (map (fun w => zlen (data w) - offset w) (writes_ h)) + zlen bytes); [lia |].
      clear. induction (writes_ h) as [| x l IH]; cbn; lia.
    - destruct ok_offsets0 as [O1 O2]. cbn. split.
      + apply Forall_app. split; [done |]. repeat constructor; cbn; [lia | apply zlen_nonneg].
      + destruct (writes_ h) as [| x l]; [done |]. cbn in *. apply Forall_app. split; [done | by repeat constructor]. }
  specialize (R1 eq_refl). apply wp_bind.
  eapply wp_mono; [apply (wp_pump g _ a h1); [done | cbn; by rewrite lookup_insert_eq] |]. intros _ s2 (G2 & R2).
  eapply wp_mono; [by apply (wp_deadlines g) |]. intros _ s3 (G3 & R3).
  split; [done | by do 2 (etrans; [done |])].
Qed.

Lemma mark_last_map {B} (f : PendingWrite -> B) l :
  (forall w b, f {| w with fin_after := b |} = f w) -> map f (mark_last l) = map f l.
Proof.
  intros Hf. unfold mark_last. destruct (last l) as [w |] eqn:Hl; [| by apply last_None in Hl as ->].
  apply last_Some in Hl as [l' ->]. rewrite removelast_last, !map_app. cbn. by rewrite Hf.
Qed.

Lemma wp_shutdown g s a :
  good g s -> allocated s a -> wp (shutdown_write a) (fun _ s' => good g s' /\ grows s s') s.
Proof.
  intros Hg [h Ha]. unfold shutdown_write. apply wp_bind, (wp_handle a h); [done |].
  destruct (_ || _) eqn:Hst; [by apply wp_ret |]. apply orb_false_iff in Hst as [_ Hst].
  assert (Hstate : state_ h <> StreamState.reset) by (intros E0; by rewrite E0 in Hst).
  destruct (good_heap _ _ Hg a h Ha) as (_ & _ & Hok). destruct (negb _).
  - apply wp_bind. eexists _, _. split; [apply set_handle_moved |]. apply wp_ret.
    set (h1 := {| h with writes_ := _; fin_sent_ := true |}).
    assert (Eo : outgoing a h1 (log_ s) = outgoing a h (log_ s)) by (unfold outgoing; cbn; by rewrite mark_last_map).
    destruct (good_set g g s a h h1) as [G1 R1]; try done; [| by rewrite Eo | split; [done | by apply R1]].
    assert (El : zlen (mark_last (writes_ h)) = zlen (writes_ h))
      by (unfold zlen; rewrite <- !(length_map offset), mark_last_map; done).
    assert (Hf : forall P : Z * list Z -> Prop, Forall P (map (fun w => (offset w, data w)) (mark_last (writes_ h))) <->
                 Forall P (map (fun w => (offset w, data w)) (writes_ h))) by (intros P; by rewrite mark_last_map).
    destruct Hok. split; rewrite ?Eo; try done.
    + cbn. by rewrite El.
    + unfold pending_bytes in *. cbn. by rewrite mark_last_map.
    + destruct ok_offsets0 as [O1 O2]. cbn. split.
      * specialize (Hf (fun '(o, d) => 0 <= o <= zlen d)). rewrite !Forall_map in Hf. by apply Hf.
      * assert (Ht : map offset (tail (mark_last (writes_ h))) = map offset (tail (writes_ h))).
        { destruct (writes_ h) as [| x l]; [done |].
          assert (Em := mark_last_map offset (x :: l) ltac:(done)). destruct (mark_last (x :: l)); [done |].
          by injection Em. }
        apply (Forall_map offset (fun o => o = 0)). rewrite Ht. by apply (Forall_map offset (fun o => o = 0)).
  - apply wp_bind. eexists _, _. split; [apply set_handle_moved |]. set (h1 := {| h with fin_sent_ := true |}).
    destruct (good_set g g s a h h1) as [G1 R1]; try done; [by destruct Hok; split |]. specialize (R1 eq_refl).
    destruct (control_payloads g s a h Hg Ha) as (Hsize & _).
    apply wp_bind. eapply wp_mono; [by apply (wp_send g _) |]. intros r s2 (G2 & R2 & e & Hs2).
    destruct r; [| apply wp_ret; split; [done | by etrans]]. apply wp_bind.
    eapply wp_mono; [apply (wp_finish g _ a h1); [done | rewrite Hs2; cbn; by rewrite lookup_insert_eq | by right] |].
    intros _ s3 (G3 & R3 & _). apply wp_ret. split; [done | by do 2 (etrans; [done |])].
Qed.

Lemma wp_reset g s a reason :
  good g s -> allocated s a -> wp (reset a reason) (fun _ s' => good g s' /\ grows s s') s.
Proof.
  intros Hg [h Ha]. unfold reset. apply wp_bind, (wp_handle a h); [done |]. destruct (is_ended _); [by apply wp_ret |].
  eapply wp_mono; [by apply (wp_reset_for g s a h) |]. by intros _ s1 (G1 & R1 & _).
Qed.

End good.
