(* ===== verification/ByteStreamFrames.v ===== *)
(** * Opening streams and the frames of the peer

    The operations of [ByteStream] that make handles, the handlers of the five
    frame types and the end of the service keep the invariant of
    [ByteStreamInvariant]. A DATA frame is the only thing that adds to the bytes a
    stream accepted, and only its bytes at the offset they belong to. *)

From Stdlib Require Import ZArith Lia ZifyBool String.
From stdpp Require Import base tactics option list gmap strings numbers pretty.
From S2P Require Import Prelude Errors Limits Varint Wire Identifiers ProtoCodec FieldCodec Protocol Signing Clock.
From S2P Require Import SessionChannels PairingProtocol GatewayAddress GatewayPolicy PeerSession Effects ByteStream ByteStreamInvariant.
Import Wire ProtoCodec Signing PairingProtocol GatewayPolicy Effects ByteStream.
#[local] Open Scope Z_scope.
#[local] Open Scope effect_scope.

Definition no_gap : Z -> option Z := fun _ => None.

Section frames.
Context {E : Type} `{!StreamSession E} `{!LawfulSession E}.
Abbreviation Service := (ByteStreamService (Recorded E)).
Implicit Types s : Service.

(** ** New handles *)

Lemma validate_limits_ok l : limits_unsigned l -> validate_byte_stream_limits l = success tt -> limits_ok l.
Proof.
  intros [] H. unfold validate_byte_stream_limits in H.
  repeat match type of H with (if ?c then _ else _) = _ => destruct c eqn:?; [done |] end. split; lia.
Qed.

(** A handle no byte has passed through. *)
Record fresh (limits : ByteStreamLimits) (h : ByteStreamHandle) : Prop := {
  fresh_id : sized 16 (id_ h) /\ all_zero (id_ h) = false;
  fresh_window : is_u64 (receive_window_bytes_ h) /\ is_u32 (receive_window_frames_ h);
  fresh_remaining : receive_window_remaining_bytes_ h = receive_window_bytes_ h /\
    receive_window_remaining_frames_ h = receive_window_frames_ h;
  fresh_prelude : gateway_prelude_ h = [0; 0] /\ gateway_prelude_received_ h = 0;
  fresh_receive : receive_chunks_ h = [] /\ receive_buffered_bytes_ h = 0 /\ consumed_through_offset_ h = 0 /\
    update_reported_consumed_bytes_ h = 0 /\ next_receive_offset_ h = 0;
  fresh_send : next_send_offset_ h = 0 /\ is_u64 (send_credit_bytes_ h) /\ is_u32 (send_credit_frames_ h);
  fresh_queues : reads_ h = [] /\ writes_ h = [];
  fresh_limits : max_pending_reads_ h = max_pending_reads limits /\
    max_pending_writes_ h = max_pending_writes limits /\ max_pending_write_bytes_ h = pending_write_bytes limits;
}.

Lemma fresh_ok limits a log h :
  fresh limits h -> limits_unsigned limits -> delivered a log = [] -> reported a log = [] ->
  handle_ok limits None a log h /\ incoming a h log = [].
Proof.
  intros [F1 F2 [F3 F3'] [F4 F4'] (F5 & F6 & F7 & F8 & F9) (F10 & F11 & F12) [F13 F14] (F15 & F16 & F17)] [] Hd Hr.
  assert (Hin : incoming a h log = []) by (unfold incoming; by rewrite F4, F4', F5, Hd).
  assert (Hout : outgoing a h log = []) by (unfold outgoing; by rewrite Hr, F14).
  split; [| done]. unfold is_u64, is_u32 in *.
  split; rewrite ?Hin, ?Hout, ?F4, ?F4', ?F5, ?F6, ?F7, ?F8, ?F9, ?F10, ?F13, ?F14; try done.
  - exists 0. rewrite Hd, F3. unfold zlen. cbn. split_and!; (done || lia).
  - rewrite F3'. unfold zlen. cbn. lia.
  - rewrite F15. unfold zlen. cbn. split_and!; [lia | done | done].
  - rewrite F16. unfold zlen. cbn. split; [lia | done].
  - rewrite F17. unfold pending_bytes. rewrite F14. cbn. split; [lia | done].
Qed.

Lemma wp_allocate s h :
  good no_gap s -> attached_ s = true -> fresh (limits_ s) h ->
  wp (allocate h) (fun a s' => good no_gap s' /\ grows s s' /\ heap_ s' !! a = Some h /\ streams_ s' = streams_ s /\
    limits_ s' = limits_ s /\ attached_ s' = attached_ s /\ (forall id, streams_ s' !! id <> Some a)) s.
Proof.
  intros [Gs Gu Ga Gh Gm Gc Gf Gl] Hat Hf. eexists _, _. split; [done |].
  assert (Hnew : heap_ s !! next_address_ s = None).
  { destruct (heap_ s !! next_address_ s) as [h0 |] eqn:Ha; [| done]. destruct (Gh _ _ Ha). lia. }
  destruct (Gl (next_address_ s) ltac:(lia)) as [Hd Hr].
  destruct (fresh_ok _ _ _ h Hf Gu Hd Hr) as [Hok Hin].
  assert (Hne : forall a h0, heap_ s !! a = Some h0 -> a <> next_address_ s) by (intros a h0 Ha ->; congruence).
  split_and!; cbn; try done; [| | by rewrite lookup_insert_eq |].
  - split; cbn; try done.
    + intros a h0. destruct (decide (a = next_address_ s)) as [-> | Hn].
      * rewrite lookup_insert_eq. intros [= <-]. split_and!; [lia | done | done].
      * rewrite lookup_insert_ne by done. intros Ha. destruct (Gh a h0 Ha) as (? & ? & ?). split_and!; [lia | done | done].
    + intros id a Hin'. destruct (Gm id a Hin') as (h0 & Ha & Hid & He). exists h0.
      rewrite lookup_insert_ne by (apply not_eq_sym; by eapply Hne). done.
    + intros k f Hk Hty. destruct (Gf k f Hk Hty) as (a & h0 & before & bytes & Ha & Hrest).
      exists a, h0, before, bytes. cbn. rewrite lookup_insert_ne by (apply not_eq_sym; by eapply Hne). done.
    + intros a Hle. apply Gl. lia.
  - split; cbn; try done.
    + intros a h0 Ha. exists h0. rewrite lookup_insert_ne by (apply not_eq_sym; by eapply Hne). done.
    + intros a h0 Ha. destruct (decide (a = next_address_ s)) as [-> | Hn].
      * rewrite lookup_insert_eq. by intros [= <-].
      * rewrite lookup_insert_ne by done. congruence.
  - intros id Hid. destruct (Gm id _ Hid) as (h0 & Ha & _). congruence.
Qed.

Lemma wp_emplace s a h :
  good no_gap s -> heap_ s !! a = Some h -> is_ended (state_ h) = false ->
  msize (streams_ s) < max_concurrent_streams (limits_ s) ->
  wp (emplace_stream a) (fun _ s' => good no_gap s' /\ grows s s' /\ heap_ s' = heap_ s /\ limits_ s' = limits_ s /\
    log_ s' = log_ s) s.
Proof.
  intros Hg Ha He Hc. unfold emplace_stream. apply wp_bind, (wp_handle a h); [done |]. apply wp_modify.
  destruct (streams_ s !! id_ h) as [b |] eqn:Hb; cbn; [done |].
  destruct Hg as [Gs Gu Ga Gh Gm Gc Gf Gl]. split_and!; try done.
  - split; cbn; try done.
    + intros id b. destruct (decide (id = id_ h)) as [-> | Hn].
      * rewrite lookup_insert_eq. intros [= <-]. by exists h.
      * rewrite lookup_insert_ne by done. apply Gm.
    + rewrite msize_insert_new by done. lia.
  - split; cbn; try done; [| congruence]. intros b hb Hb'. by exists hb.
Qed.

Lemma wp_open_channel s :
  good no_gap s -> wp open_channel (fun _ s' => good no_gap s' /\ grows s s' /\ beside s s') s.
Proof.
  intros Hg. unfold open_channel, session_call, wp. cbn. unfold pass.
  edestruct (open_ok (inner (session_ s))) as (r & e & -> & He); [apply Hg |]. eexists _, _. split; [done |].
  destruct (good_swap no_gap s (mkRecorded e (sent (session_ s))) Hg) as [G1 R1]; [done | done | by left |].
  split_and!; [done | done | by eexists].
Qed.

Lemma wp_draw s :
  good no_gap s -> wp draw_stream_id (fun id s' => good no_gap s' /\ grows s s' /\ beside s s' /\
    sized 16 id /\ all_zero id = false) s.
Proof.
  intros Hg. unfold draw_stream_id, session_call, wp. cbn.
  destruct (random_ok (inner (session_ s))) as (H1 & H2 & H3); [apply Hg |].
  destruct (random_stream_id (inner (session_ s))) as [id e]. cbn in *. eexists _, _. split; [done |].
  destruct (good_swap no_gap s (mkRecorded e (sent (session_ s))) Hg) as [G1 R1]; [done | done | by left |].
  split_and!; [done | done | by eexists | done | done].
Qed.

Lemma wp_send_open s h gateway :
  good no_gap s -> sized 16 (id_ h) -> wp (send_stream_open h gateway) (fun _ s' => good no_gap s' /\ grows s s' /\ beside s s') s.
Proof.
  intros Hg [_ Hid]. destruct (payloads_short _ Hid) as (P1 & _). destruct (P1 h eq_refl) as [_ Ho].
  unfold send_stream_open. destruct gateway as [connect |]; [| apply (wp_send no_gap); [done | done | lia]].
  destruct (encode_gateway_connect connect) as [body |] eqn:Hb.
  { apply connect_short in Hb. assert (H1 := append_bytes_short (open_payload h) 4 body).
    apply (wp_send no_gap); [done | done | lia]. }
  apply wp_ret.
  split_and!; [done | done | exists (session_ s); by destruct s].
Qed.

Lemma wp_attach s : good no_gap s -> wp attach (fun _ s' => good no_gap s' /\ grows s s') s.
Proof.
  intros Hg. unfold attach. apply wp_bind, wp_get. destruct (validate_byte_stream_limits (limits_ s)) as [[] |] eqn:Hv;
    [| by apply wp_ret].
  apply validate_limits_ok in Hv; [| apply Hg]. apply wp_bind. eapply wp_mono; [by apply wp_open_channel |].
  intros r s1 (G1 & R1 & e & Hs1). destruct r as [c |]; [| by apply wp_ret].
  apply wp_bind, wp_modify, wp_bind, wp_modify, wp_ret.
  assert (Hl : limits_ s1 = limits_ s) by (by rewrite Hs1). destruct G1 as [Gs Gu Ga Gh Gm Gc Gf Gl]. split.
  - split; cbn; try done; [by apply domain_ok | | ].
    + intros _. rewrite Hl. split; [done | by eexists].
    + intros a h Ha. by destruct (Gh a h Ha) as (? & _ & ?).
  - etrans; [exact R1 |]. split; cbn; try done; [| congruence]. intros a h Ha. by exists h.
Qed.

Lemma new_handle_fresh limits id channel window_bytes window_frames :
  sized 16 id -> all_zero id = false -> is_u64 window_bytes -> is_u32 window_frames ->
  fresh limits (new_handle limits id channel window_bytes window_frames).
Proof. intros. by split. Qed.

Lemma wp_open_stream s window_bytes window_frames :
  good no_gap s -> is_u64 window_bytes -> is_u32 window_frames ->
  wp (open_stream window_bytes window_frames) (fun _ s' => good no_gap s' /\ grows s s') s.
Proof.
  intros Hg Hb Hf. unfold open_stream. apply wp_bind, wp_get. destruct (attached_ s) eqn:Hat; [| by apply wp_ret].
  cbn [negb]. destruct (_ || _); [by apply wp_ret |]. apply wp_bind, wp_get, wp_bind, wp_get.
  destruct (Z.leb_spec (max_concurrent_streams (limits_ s)) (msize (streams_ s))) as [| Hroom]; [by apply wp_ret |].
  apply wp_bind, wp_get. destruct (good_attached _ _ Hg Hat) as [Hl [channel Hc]]. rewrite Hc.
  apply wp_bind. eapply wp_mono; [by apply wp_draw |]. intros id s1 (G1 & R1 & [e1 Hs1] & Hid & Hz). cbn zeta.
  set (h := new_handle _ _ _ _ _). apply wp_bind.
  assert (Hs1' : streams_ s1 = streams_ s /\ limits_ s1 = limits_ s /\ attached_ s1 = true) by (by rewrite Hs1).
  destruct Hs1' as (Hm1 & Hl1 & Hat1).
  eapply wp_mono; [apply (wp_allocate s1 h); [done | done | rewrite Hl1; by apply new_handle_fresh] |].
  intros a s2 (G2 & R2 & H2 & Hm2 & Hl2 & Hat2 & Hnot). apply wp_bind.
  eapply wp_mono; [by apply wp_send_open |]. intros r s3 (G3 & R3 & e3 & Hs3).
  assert (R13 : grows s s3) by (do 2 (etrans; [done |]); done).
  destruct r as [u |]; [| by apply wp_ret].
  assert (H3 : heap_ s3 !! a = Some h) by (by rewrite Hs3).
  apply wp_bind. eexists _, _. split; [by apply (update_moved s3 a h) |].
  destruct (good_heap _ _ G3 a h H3) as (_ & _ & Hok).
  destruct (good_set no_gap no_gap s3 a h {| h with state_ := StreamState.open |}) as [G4 R4]; try done.
  { destruct Hok. split; try done. intros _. by apply ok_next. }
  specialize (R4 eq_refl). apply wp_bind. eapply wp_mono.
  { apply (wp_emplace _ a {| h with state_ := StreamState.open |}); [done | cbn; by rewrite lookup_insert_eq | done |].
    cbn. rewrite Hs3. cbn. rewrite Hm2, Hl2, Hm1, Hl1. done. }
  intros _ s5 (G5 & R5 & _). apply wp_ret. split; [done |]. do 2 (etrans; [done |]). done.
Qed.

Lemma wp_owned s (f : list Z -> list Z) :
  good no_gap s -> wp (modify (fun s => {| s with owned_channels_ := f (owned_channels_ s) |}))
    (fun _ s' => good no_gap s' /\ grows s s' /\ heap_ s' = heap_ s /\ streams_ s' = streams_ s /\
       limits_ s' = limits_ s /\ attached_ s' = attached_ s) s.
Proof.
  intros [Gs Gu Ga Gh Gm Gc Gf Gl]. apply wp_modify. split_and!; try done.
  split; try done; [| cbn; congruence]. intros a h Ha. by exists h.
Qed.

Lemma wp_open_gateway s target window_bytes window_frames deadline on_connected :
  good no_gap s -> is_u64 window_bytes -> is_u32 window_frames ->
  wp (open_gateway_stream target window_bytes window_frames deadline on_connected)
    (fun _ s' => good no_gap s' /\ grows s s') s.
Proof.
  intros Hg Hb Hf. unfold open_gateway_stream. apply wp_bind, wp_get.
  destruct (attached_ s) eqn:Hat; [| by apply wp_ret]. cbn [negb]. destruct (_ || _); [by apply wp_ret |].
  destruct (validate_gateway_connect target); [| by apply wp_ret]. apply wp_bind, wp_get.
  destruct (negb _); [by apply wp_ret |]. apply wp_bind, wp_get, wp_bind, wp_get.
  destruct (Z.leb_spec (max_concurrent_streams (limits_ s)) (msize (streams_ s))) as [| Hroom]; [by apply wp_ret |].
  apply wp_bind. eapply wp_mono; [by apply wp_open_channel |]. intros r s1 (G1 & R1 & e1 & Hs1).
  destruct r as [channel |]; [| by apply wp_ret].
  apply wp_bind. eapply wp_mono; [by apply (wp_owned s1 (fun l => l ++ [channel])) |].
  intros _ s2 (G2 & R2 & Hh2 & Hm2 & Hl2 & Ha2). apply wp_bind.
  eapply wp_mono; [by apply wp_draw |]. intros id s3 (G3 & R3 & [e3 Hs3] & Hid & Hz). cbn zeta.
  set (h := gateway_handle _ _ _). apply wp_bind.
  assert (Hkeep : streams_ s3 = streams_ s /\ limits_ s3 = limits_ s /\ attached_ s3 = true).
  { rewrite Hs3. cbn. rewrite Hm2, Hl2, Ha2, Hs1. done. }
  destruct Hkeep as (Hm3 & Hl3 & Ha3).
  eapply wp_mono; [apply (wp_allocate s3 h); [done | done | rewrite Hl3; by split] |].
  intros a s4 (G4 & R4 & H4 & Hm4 & Hl4 & Ha4 & _). apply wp_bind.
  eapply wp_mono; [by apply wp_send_open |]. intros r s5 (G5 & R5 & e5 & Hs5).
  assert (R15 : grows s s5) by (do 4 (etrans; [done |]); done).
  destruct r as [u | x]; apply wp_bind.
  - eapply wp_mono; [apply (wp_emplace s5 a h); [done | by rewrite Hs5 | done |] |].
    { rewrite Hs5. cbn. by rewrite Hm4, Hl4, Hm3, Hl3. }
    intros _ s6 (G6 & R6 & _). apply wp_ret. split; [done | by etrans].
  - eapply wp_mono; [apply (wp_session_do no_gap s5 (fun e => session_close_channel e channel)); [| done] |].
    { intros e He. by apply close_ok. }
    intros _ s6 (G6 & R6 & _). apply wp_bind. eapply wp_mono; [by apply (wp_owned s6 (filter (fun c => c <> channel))) |].
    intros _ s7 (G7 & R7 & _). apply wp_ret. split; [done | by do 2 (etrans; [done |])].
Qed.

(** ** STREAM_OPEN *)

Lemma pb_id_sized bytes id : bytes_ok bytes -> parse_pb_stream_id bytes = success id -> sized 16 id /\ all_zero id = false.
Proof.
  intros Hb H. unfold parse_pb_stream_id in H. destruct (Z.ltb_spec (zlen bytes) 18); [done |].
  destruct (_ || _); [done |]. destruct (all_zero (subspan 2 16 bytes)) eqn:Hz; [done |]. injection H as <-.
  split; [| done]. split; [by apply bytes_ok_subspan | rewrite zlen_subspan; lia].
Qed.

Lemma parse_open_typed bytes w f field :
  bytes_ok bytes -> parse_open bytes = Some (w, f, field) -> is_u64 w /\ is_u32 f.
Proof.
  intros Hb H. unfold parse_open in H.
  destruct (parse_proto open_step bytes "proto" (mkOpenFields None None None)) as [[ob ofr og] |] eqn:Hp; [| done].
  apply (parse_proto_invariant (fun s : OpenFields => collected is_u64 (open_bytes s) /\ collected is_u64 (open_frames s))) in Hp;
    [| | done | by split].
  - destruct Hp as [P1 P2]. cbn in *. destruct ob as [ob |]; [| done]. destruct ofr as [ofr |]; [| done].
    destruct (_ || _) eqn:Hc in H; [done |]. injection H as <- <- <-.
    specialize (P1 ob eq_refl). specialize (P2 ofr eq_refl). unfold is_u64, is_u32, u32_max in *. lia.
  - intros s0 fd s1 Hf [P1 P2] Hs. unfold open_step in Hs.
    destruct (_ && _) eqn:E1 in Hs.
    { injection Hs as <-. cbn. split; [apply collected_some, integer_u64; [done | lia] | done]. }
    destruct (_ && _) eqn:E2 in Hs.
    { injection Hs as <-. cbn. split; [done | apply collected_some, integer_u64; [done | lia]]. }
    destruct (_ && _) in Hs; [destruct (seen _) in Hs; [done |] |]; by injection Hs as <-.
Qed.

Lemma wp_refuse s id channel status :
  good no_gap s -> sized 16 id -> wp (refuse_open id channel status) (fun _ s' => good no_gap s' /\ grows s s') s.
Proof.
  intros Hg [_ Hid]. destruct (payloads_short _ Hid) as (_ & P2 & _).
  unfold refuse_open. apply wp_bind. eapply wp_mono; [apply (wp_send no_gap); [done | done | specialize (P2 status); lia] |].
  intros r s1 (G1 & R1 & _). by apply wp_ret.
Qed.

Lemma wp_adopt s channel :
  good no_gap s -> wp (adopt_channel channel) (fun _ s' => good no_gap s' /\ grows s s' /\ streams_ s' = streams_ s /\
    limits_ s' = limits_ s /\ attached_ s' = attached_ s) s.
Proof.
  intros Hg. unfold adopt_channel. apply wp_bind, wp_get. destruct (session_has_channel _ _); [by apply wp_ret |].
  apply wp_bind. unfold session_call, wp at 1. cbn. unfold pass.
  edestruct (adopt_ok (inner (session_ s)) channel) as (r & e & -> & He); [apply Hg |]. eexists _, _. split; [done |].
  destruct (good_swap no_gap s (mkRecorded e (sent (session_ s))) Hg) as [G1 R1]; [done | done | by left |].
  destruct r as [u |]; [| apply wp_ret; done]. apply wp_bind.
  eapply wp_mono; [by apply (wp_owned _ (fun l => l ++ [channel])) |]. intros _ s2 (G2 & R2 & ? & ? & ? & ?).
  apply wp_ret. split_and!; [done | by etrans | done | done | done].
Qed.

Lemma wp_accept s id channel w f gateway :
  good no_gap s -> attached_ s = true -> sized 16 id -> all_zero id = false -> is_u64 w -> is_u32 f ->
  msize (streams_ s) < max_concurrent_streams (limits_ s) ->
  wp (accept_stream id channel w f gateway) (fun a s' => good no_gap s' /\ grows s s' /\
    exists h, heap_ s' !! a = Some h /\ id_ h = id) s.
Proof.
  intros Hg Hat Hid Hz Hw Hf Hroom. unfold accept_stream. apply wp_bind, wp_get. cbn zeta.
  destruct (good_attached _ _ Hg Hat) as [[] _]. set (h := {| (new_handle _ _ _ _ _) with state_ := _; gateway_ := _;
    send_credit_bytes_ := _; send_credit_frames_ := _ |}).
  apply wp_bind. eapply wp_mono; [apply (wp_allocate s h); [done | done |] |].
  { split; try done; cbn; [split; unfold is_u64, is_u32; lia | rewrite u32_small by done; done]. }
  intros a s1 (G1 & R1 & H1 & Hm1 & Hl1 & Ha1 & _). apply wp_bind.
  eapply wp_mono; [apply (wp_emplace s1 a h); [done | done | done | by rewrite Hm1, Hl1] |].
  intros _ s2 (G2 & R2 & Hh2 & _). assert (H2 : heap_ s2 !! a = Some h) by (by rewrite Hh2).
  apply wp_bind. unfold grant_initial_credit. apply wp_bind, (wp_handle a h); [done |]. apply wp_bind.
  destruct (control_payloads no_gap s2 a h G2 H2) as (_ & _ & Hsize).
  eapply wp_mono; [by apply (wp_send no_gap s2) |]. intros r s3 (G3 & R3 & e & Hs3). apply wp_ret, wp_ret.
  split_and!; [done | by do 2 (etrans; [done |]) | exists h; split; [by rewrite Hs3 | done]].
Qed.

Lemma wp_retract s a h channel status :
  good no_gap s -> heap_ s !! a = Some h ->
  wp (retract_stream a (id_ h) channel status) (fun _ s' => good no_gap s' /\ grows s s') s.
Proof.
  intros Hg Ha. unfold retract_stream. apply wp_bind. eexists _, _. split; [by apply (update_moved s a h) |].
  apply wp_bind, wp_modify. set (h1 := {| h with state_ := StreamState.reset |}).
  change (wp (refuse_open (id_ h) channel status) (fun _ s' => good no_gap s' /\ grows s s')
    (moved s a h1 [] (delete (id_ h) (streams_ s)))).
  destruct (good_heap _ _ Hg a h Ha) as (_ & _ & Hok).
  assert (G1 : good no_gap (moved s a h1 [] (delete (id_ h) (streams_ s)))).
  { apply (good_moved no_gap no_gap s a h); try done; [| apply delete_subseteq | | by rewrite app_nil_r].
    - rewrite app_nil_r. destruct Hok. by split.
    - intros id [Hne Hid]%lookup_delete_Some. destruct (good_streams _ _ Hg id a Hid) as (h0 & Ha0 & Hid0 & _). congruence. }
  assert (R1 : grows s (moved s a h1 [] (delete (id_ h) (streams_ s))))
    by (apply (grows_moved s a h); try done; by rewrite app_nil_r).
  eapply wp_mono; [apply wp_refuse; [done | apply (ok_id _ _ _ _ _ Hok)] |]. intros _ s2 (G2 & R2). split; [done | by etrans].
Qed.

Lemma wp_plain_open s id channel w f :
  good no_gap s -> attached_ s = true -> sized 16 id -> all_zero id = false -> is_u64 w -> is_u32 f ->
  wp (handle_plain_open id channel w f) (fun _ s' => good no_gap s' /\ grows s s') s.
Proof.
  intros Hg Hat Hid Hz Hw Hf. unfold handle_plain_open. apply wp_bind, wp_get, wp_bind, wp_get.
  destruct (Z.leb_spec (max_concurrent_streams (limits_ s)) (msize (streams_ s))) as [| Hroom]; [by apply wp_refuse |].
  apply wp_bind. eapply wp_mono; [by apply wp_adopt |]. intros r s1 (G1 & R1 & Hm1 & Hl1 & Ha1).
  destruct r; [| by apply wp_ret]. cbn [negb]. apply wp_bind.
  eapply wp_mono; [apply (wp_accept s1); try done; [congruence | by rewrite Hm1, Hl1] |].
  intros a s2 (G2 & R2 & h & H2 & Hid2). apply wp_bind, wp_get. destruct (inbound_handler_ s2).
  - eapply wp_mono; [by apply (wp_emit no_gap s2 a h) |]. intros _ s3 (G3 & R3). split; [done | by do 2 (etrans; [done |])].
  - subst id. eapply wp_mono; [by apply (wp_retract s2 a h) |]. intros _ s3 (G3 & R3).
    split; [done | by do 2 (etrans; [done |])].
Qed.

Lemma wp_gateway_open s id channel w f field :
  good no_gap s -> attached_ s = true -> sized 16 id -> all_zero id = false -> is_u64 w -> is_u32 f ->
  wp (handle_gateway_open id channel w f field) (fun _ s' => good no_gap s' /\ grows s s') s.
Proof.
  intros Hg Hat Hid Hz Hw Hf. unfold handle_gateway_open. cbn zeta. apply wp_bind, wp_get.
  assert (Hreject : wp (session_do (fun e => session_fail_channel e channel CloseReason.protocol_error))
    (fun _ s' => good no_gap s' /\ grows s s') s).
  { eapply wp_mono; [apply (wp_session_do no_gap s (fun e => session_fail_channel e channel CloseReason.protocol_error)); [| done] |].
    - intros e He. by apply fail_ok.
    - by intros _ s1 (G1 & R1 & _). }
  destruct (negb _); [done |]. destruct (parse_gateway_connect field) as [connect |]; [| done].
  destruct (validate_gateway_connect connect); [| by apply wp_refuse]. apply wp_bind, wp_get, wp_bind, wp_get.
  destruct (Z.leb_spec (max_concurrent_streams (limits_ s)) (msize (streams_ s))) as [| Hroom]; [by apply wp_refuse |].
  apply wp_bind. eapply wp_mono; [by apply wp_adopt |]. intros r s1 (G1 & R1 & Hm1 & Hl1 & Ha1).
  destruct r; [| by apply wp_ret]. cbn [negb]. apply wp_bind.
  eapply wp_mono; [apply (wp_accept s1); try done; [congruence | by rewrite Hm1, Hl1] |].
  intros a s2 (G2 & R2 & h & H2 & Hid2). apply wp_bind, wp_get. destruct (gateway_inbound_handler_ s2).
  - eapply wp_mono; [by apply (wp_emit no_gap s2 a h) |]. intros _ s3 (G3 & R3). split; [done | by do 2 (etrans; [done |])].
  - subst id. apply wp_bind. eapply wp_mono; [by apply (wp_retract s2 a h) |]. intros _ s3 (G3 & R3).
    eapply wp_mono; [by apply (wp_release no_gap s3) |]. intros _ s4 (G4 & R4 & _).
    split; [done | by do 3 (etrans; [done |])].
Qed.

Lemma wp_handle_open s frame channel :
  good no_gap s -> attached_ s = true -> bytes_ok (payload frame) ->
  wp (handle_open frame channel) (fun _ s' => good no_gap s' /\ grows s s') s.
Proof.
  intros Hg Hat Hb. unfold handle_open. destruct (parse_pb_stream_id (payload frame)) as [id |] eqn:Hid; [| by apply wp_ret].
  apply pb_id_sized in Hid as [Hid Hz]; [| done]. apply wp_bind, wp_get.
  destruct (streams_ s !! id) as [a |] eqn:Ha.
  - destruct (good_streams _ _ Hg id a Ha) as (h & Hh & _). apply wp_bind, (wp_handle a h); [done |].
    case_bool_decide; [by apply wp_ret |]. eapply wp_mono; [by apply (wp_reset_for no_gap s a h) |].
    by intros _ s1 (G1 & R1 & _).
  - destruct (parse_open (payload frame)) as [[[w f] [field |]] |] eqn:Hp; [| | by apply wp_ret];
      apply parse_open_typed in Hp as [Hw Hf]; try done; [by apply wp_gateway_open | by apply wp_plain_open].
Qed.

(** ** Credit, end and reset *)

Lemma field_integer f : field_ok f -> is_u64 (integer f).
Proof. intros (_ & [(_ & H & _) | (_ & -> & _)]); [done | unfold is_u64; lia]. Qed.

Lemma parse_window_typed bytes c b f :
  bytes_ok bytes -> parse_proto window_step bytes "proto" (mkWindowFields None None None)
    = success (mkWindowFields (Some c) (Some b) (Some f)) -> is_u64 c /\ is_u64 b /\ is_u64 f.
Proof.
  intros Hb Hp.
  apply (parse_proto_invariant (fun x : WindowFields => collected is_u64 (window_consumed x) /\
    collected is_u64 (window_bytes x) /\ collected is_u64 (window_frames x))) in Hp; [| | done | by split_and!].
  - destruct Hp as (P1 & P2 & P3). cbn in *. split_and!; [by apply P1 | by apply P2 | by apply P3].
  - intros x fd y Hf (P1 & P2 & P3) Hs. unfold window_step in Hs. apply field_integer in Hf.
    repeat case_match; injection Hs as <-; cbn; split_and!; try done; by apply collected_some.
Qed.

Lemma known_good g s id a : good g s -> streams_ s !! id = Some a -> exists h, heap_ s !! a = Some h /\ id_ h = id.
Proof. intros Hg H. destruct (good_streams _ _ Hg id a H) as (h & ? & ? & _). by exists h. Qed.

Lemma wp_known s id (Q : option Z -> Service -> Prop) :
  Q (match id with success i => streams_ s !! i | failure _ => None end) s -> wp (known_stream id) Q s.
Proof. intros H. destruct id; [by apply wp_get | by apply wp_ret]. Qed.

Lemma wp_handle_window s frame :
  good no_gap s -> bytes_ok (payload frame) ->
  wp (handle_window_update frame) (fun _ s' => good no_gap s' /\ grows s s') s.
Proof.
  intros Hg Hb. unfold handle_window_update. apply wp_bind, wp_known.
  destruct (match parse_pb_stream_id (payload frame) with success i => streams_ s !! i | failure _ => None end)
    as [a |] eqn:Hf; [| by apply wp_ret].
  destruct (parse_pb_stream_id (payload frame)) as [id |]; [| done].
  destruct (parse_proto window_step _ _ _) as [[[c |] [b |] [f |]] |] eqn:Hp; try by apply wp_ret.
  apply parse_window_typed in Hp as (Hc & Hbytes & Hfr); [| done].
  destruct (known_good _ _ _ _ Hg Hf) as (h & Ha & _). apply wp_bind, (wp_handle a h); [done |].
  destruct (c <? _); [by apply wp_ret |].
  assert (Hreset : forall s1 h1 r, good no_gap s1 -> grows s s1 -> heap_ s1 !! a = Some h1 ->
    wp (handle_reset_frame_for a r) (fun _ s' => good no_gap s' /\ grows s s') s1).
  { intros s1 h1 r G1 R1 H1. eapply wp_mono; [by apply (wp_reset_for no_gap s1 a h1) |].
    intros _ s2 (G2 & R2 & _). split; [done | by etrans]. }
  destruct (_ <? c); [by eapply Hreset |].
  destruct (good_heap _ _ Hg a h Ha) as (_ & _ & Hok). cbn zeta.
  set (h1 := {| h with send_consumed_by_peer_ := c |}).
  destruct (good_set no_gap no_gap s a h h1 Hg Ha) as [G1 R1]; try done; [by destruct Hok |].
  apply wp_bind. eexists _, _. split; [apply set_handle_moved |].
  assert (H1 : heap_ (moved s a h1 [] (streams_ s)) !! a = Some h1) by apply lookup_insert_eq.
  specialize (R1 eq_refl). destruct (Z.ltb_spec (u64_max - send_credit_bytes_ h1) b) as [| Hroom];
    [by eapply Hreset |].
  set (h2 := {| h1 with send_credit_bytes_ := _; send_credit_frames_ := _ |}).
  destruct (good_set no_gap no_gap _ a h1 h2 G1 H1) as [G2 R2]; try done.
  { assert (Hok1 := good_heap _ _ G1 a h1 H1). destruct Hok1 as (_ & _ & []). split; try done.
    destruct ok_credit as [C1 C2]. cbn in *. unfold is_u64, is_u32, u64_max, u32_max, u64 in *.
    split; [lia |]. assert (0 <= (f + send_credit_frames_ h) mod 2 ^ 64) by (by apply Z.mod_pos_bound). lia. }
  apply wp_bind. eexists _, _. split; [apply set_handle_moved |].
  eapply wp_mono; [apply (wp_pump no_gap _ a h2); [done | apply lookup_insert_eq] |].
  intros _ s3 (G3 & R3). split; [done |]. do 2 (etrans; [done |]). etrans; [by apply R2 | done].
Qed.

Lemma wp_finish_received g s a h :
  good g s -> heap_ s !! a = Some h -> state_ h <> StreamState.reset ->
  wp (finish_received a) (fun _ s' => good g s' /\ grows s s') s.
Proof.
  intros Hg Ha Hst. unfold finish_received. apply wp_bind, (wp_handle a h); [done |].
  eapply wp_mono; [by apply (wp_finish g s a h); auto |]. by intros _ s1 (G1 & R1 & _).
Qed.

Lemma wp_handle_fin s frame :
  good no_gap s -> wp (handle_fin frame) (fun _ s' => good no_gap s' /\ grows s s') s.
Proof.
  intros Hg. unfold handle_fin. apply wp_bind, wp_known.
  destruct (match parse_pb_stream_id (payload frame) with success i => streams_ s !! i | failure _ => None end)
    as [a |] eqn:Hf; [| by apply wp_ret].
  destruct (parse_pb_stream_id (payload frame)) as [id |]; [| done].
  destruct (known_good _ _ _ _ Hg Hf) as (h & Ha & _). apply wp_bind, (wp_handle a h); [done |].
  destruct (is_ended (state_ h)) eqn:Hst; [by apply wp_ret |].
  assert (Hne : state_ h <> StreamState.reset) by (intros E0; by rewrite E0 in Hst).
  destruct (parse_proto fin_step _ _ _) as [[final |] |]; try by apply wp_ret.
  destruct (good_heap _ _ Hg a h Ha) as (_ & _ & Hok).
  set (h1 := {| h with fin_received_ := true; final_receive_offset_ := final |}).
  destruct (good_set no_gap no_gap s a h h1 Hg Ha) as [G1 R1]; try done; [by destruct Hok |].
  apply wp_bind. eexists _, _. split; [apply set_handle_moved |]. specialize (R1 eq_refl).
  assert (H1 : heap_ (moved s a h1 [] (streams_ s)) !! a = Some h1) by apply lookup_insert_eq.
  destruct (negb _).
  { eapply wp_mono; [by apply (wp_reset_for no_gap _ a h1) |]. intros _ s2 (G2 & R2 & _). split; [done | by etrans]. }
  apply wp_bind. eapply wp_mono; [by apply (wp_try_dispatch no_gap _ a h1) |].
  intros _ s2 (G2 & R2 & h2 & H2 & Hne2). apply wp_bind, (wp_handle a h2); [done |].
  destruct (_ =? _); [| apply wp_ret; split; [done | by etrans]].
  eapply wp_mono; [by apply (wp_finish_received no_gap s2 a h2) |]. intros _ s3 (G3 & R3).
  split; [done | by do 2 (etrans; [done |])].
Qed.

Lemma wp_handle_reset s frame :
  good no_gap s -> wp (handle_reset frame) (fun _ s' => good no_gap s' /\ grows s s') s.
Proof.
  intros Hg. unfold handle_reset. apply wp_bind, wp_known.
  destruct (match parse_pb_stream_id (payload frame) with success i => streams_ s !! i | failure _ => None end)
    as [a |] eqn:Hf; [| by apply wp_ret].
  destruct (parse_pb_stream_id (payload frame)) as [id |]; [| done].
  destruct (known_good _ _ _ _ Hg Hf) as (h & Ha & _). apply wp_bind, (wp_handle a h); [done |].
  case_bool_decide; [by apply wp_ret |]. destruct (good_heap _ _ Hg a h Ha) as (_ & _ & Hok).
  set (h1 := {| h with reset_reason_ := _ |}).
  destruct (good_set no_gap no_gap s a h h1 Hg Ha) as [G1 R1]; try done; [by destruct Hok |].
  apply wp_bind. eexists _, _. split; [apply set_handle_moved |]. specialize (R1 eq_refl).
  eapply wp_mono; [apply (wp_finish no_gap _ a h1); [done | apply lookup_insert_eq | by left] |].
  intros _ s2 (G2 & R2 & _). split; [done | by etrans].
Qed.

(** ** DATA *)

Definition gap_at (a n : Z) : Z -> option Z := fun b => if b =? a then Some n else None.

(** Like [grows], but the stream [a] accepts [w]. *)
Record accepts (a : Z) (w : list Z) s s' : Prop := {
  accept_limits : limits_ s' = limits_ s;
  accept_heap : forall b h, heap_ s !! b = Some h -> exists h', heap_ s' !! b = Some h' /\
    id_ h' = id_ h /\ incoming b h' (log_ s') = incoming b h (log_ s) ++ (if b =? a then w else []) /\
    outgoing b h (log_ s) `prefix_of` outgoing b h' (log_ s');
  accept_new : forall b h, heap_ s !! b = None -> heap_ s' !! b = Some h -> incoming b h (log_ s') = [];
  accept_sent : sent (session_ s) `prefix_of` sent (session_ s');
  accept_attached : attached_ s = true -> attached_ s' = true;
}.

Lemma grows_accepts a s s' : grows s s' -> accepts a [] s s'.
Proof.
  intros [L H N S A]. split; try done. intros b h Hb. destruct (H b h Hb) as (h' & ? & ? & ? & ?).
  exists h'. assert ((if b =? a then [] else []) = ([] : list Z)) as -> by (by destruct (b =? a)). by rewrite app_nil_r.
Qed.

Lemma accepts_trans a v w s1 s2 s3 :
  allocated s1 a -> accepts a v s1 s2 -> accepts a w s2 s3 -> accepts a (v ++ w) s1 s3.
Proof.
  intros [h0 H0] [L1 H1 N1 S1 A1] [L2 H2 N2 S2 A2]. split; [congruence | | | by etrans | auto].
  - intros b h Hb. destruct (H1 b h Hb) as (h2 & Hb2 & I2 & E2 & P2).
    destruct (H2 b h2 Hb2) as (h3 & Hb3 & I3 & E3 & P3).
    exists h3. split_and!; [done | congruence | | by etrans].
    rewrite E3, E2, <- app_assoc. by destruct (b =? a).
  - intros b h Hb Hb3. destruct (heap_ s2 !! b) as [h2 |] eqn:Hb2; [| by eapply N2].
    destruct (H2 b h2 Hb2) as (h3 & Hb3' & _ & E3 & _). assert (h3 = h) as -> by congruence.
    rewrite E3, (N1 b h2) by done. destruct (Z.eqb_spec b a) as [-> |]; [congruence | done].
Qed.

Lemma accepts_then a w s1 s2 s3 : allocated s1 a -> accepts a w s1 s2 -> grows s2 s3 -> accepts a w s1 s3.
Proof.
  intros Ha H1 H2. rewrite <- (app_nil_r w). eapply accepts_trans; [done | done | by apply grows_accepts].
Qed.

(** A step on the handle alone. *)
Lemma good_accept g g' s a h h' w :
  good g s -> heap_ s !! a = Some h -> (forall b, b <> a -> g' b = g b) ->
  handle_ok (limits_ s) (g' a) a (log_ s) h' -> id_ h' = id_ h ->
  (is_ended (state_ h) = false -> is_ended (state_ h') = false) ->
  outgoing a h' (log_ s) = outgoing a h (log_ s) ->
  incoming a h' (log_ s) = incoming a h (log_ s) ++ w ->
  good g' (moved s a h' [] (streams_ s)) /\ accepts a w s (moved s a h' [] (streams_ s)).
Proof.
  intros Hg Ha Hgg Hok Hid Hst Ho Hin. split.
  - apply (good_set g g' s a h h'); try done. exact (prefix_eq _ _ (eq_sym Ho)).
  - split; try done; cbn [heap_ log_ moved]; rewrite app_nil_r.
    + intros b hb Hb. destruct (Z.eqb_spec b a) as [-> | Hne].
      * exists h'. rewrite lookup_insert_eq. simplify_eq. split_and!; try done. exact (prefix_eq _ _ (eq_sym Ho)).
      * exists hb. by rewrite lookup_insert_ne, app_nil_r by done.
    + intros b hb Hb. destruct (decide (b = a)) as [-> | Hne]; [congruence |].
      rewrite lookup_insert_ne by done. congruence.
Qed.

(** Once a stream is reset, the frame it was in the middle of is forgotten. *)
Lemma good_close a n s h :
  good (gap_at a n) s -> heap_ s !! a = Some h -> state_ h = StreamState.reset -> good no_gap s.
Proof.
  intros Hg Ha Hst. destruct (good_heap _ _ Hg a h Ha) as (_ & _ & Hok).
  rewrite <- (moved_same s a h Ha). apply (good_set (gap_at a n) no_gap s a h h); try done.
  - intros b Hb. unfold gap_at. by destruct (Z.eqb_spec b a).
  - unfold gap_at in Hok. rewrite Z.eqb_refl in Hok. destruct Hok. split; try done.
    + destruct ok_bytes as (cr & ? & ? & ? & ? & ? & ?). exists cr. cbn in *. split_and!; (done || lia).
    + cbn in *. lia.
Qed.

Lemma charge_ok limits a log h n :
  handle_ok limits None a log h -> 0 <= n <= receive_window_remaining_bytes_ h ->
  receive_window_remaining_frames_ h <> 0 -> handle_ok limits (Some n) a log (charge_data h n).
Proof.
  intros [] Hn Hf. split; try done; cbn in *.
  - destruct ok_bytes as (cr & ? & ? & ? & ? & ? & ?). exists cr. split_and!; (done || lia).
  - lia.
  - intros Hst. rewrite (ok_next Hst), u64_sum_l. f_equal. unfold incoming. cbn. lia.
Qed.

Lemma take_prelude_ok limits a log h bytes h' d :
  handle_ok limits (Some (zlen bytes)) a log h -> gateway_initiator_ h && gateway_prelude_pending_ h = true ->
  take_prelude h bytes = (h', d) ->
  exists w, bytes = w ++ d /\ handle_ok limits (Some (zlen d)) a log h' /\
    incoming a h' log = incoming a h log ++ w /\ (gateway_prelude_received_ h' <> 2 -> d = []).
Proof.
  intros Hok Hp H. unfold take_prelude in H. injection H as <- <-.
  set (n := Z.to_nat (gateway_prelude_received_ h)). change (Z.to_nat gateway_prelude_bytes) with 2%nat.
  set (t := ((2 - n) `min` length bytes)%nat).
  destruct (ok_order _ _ _ _ _ Hok Hp) as [Hd Hc]. destruct (ok_prelude _ _ _ _ _ Hok) as [Hlen Hr].
  assert (Ht : (t <= 2 - n /\ t <= length bytes)%nat) by lia.
  set (h' := {| h with gateway_prelude_ := _; gateway_prelude_received_ := _ |}).
  assert (Hi : incoming a h' log = incoming a h log ++ take t bytes).
  { unfold incoming. rewrite Hd. cbn [receive_chunks_ gateway_prelude_ gateway_prelude_received_ h']. rewrite Hc. cbn.
    rewrite !app_nil_r, Z2Nat.inj_add, Nat2Z.id by lia. fold n. rewrite app_assoc.
    rewrite take_app_length' by (rewrite length_app, !length_take; lia). done. }
  exists (take t bytes). split_and!; [by rewrite take_drop | | done |].
  - assert (Hz : zlen (drop t bytes) = zlen bytes - Z.of_nat t) by (rewrite zlen_drop; unfold zlen; lia).
    assert (Hw : zlen (take t bytes) = Z.of_nat t) by (rewrite zlen_take; unfold zlen; lia).
    destruct Hok. split; try done.
    + cbn. rewrite !length_app, !length_take, length_drop. lia.
    + destruct ok_bytes as (cr & ? & ? & ? & ? & ? & ?). exists cr. cbn in *. assert (Hz0 := zlen_nonneg (drop t bytes)).
      split_and!; (done || lia).
    + intros Hst. cbn [next_receive_offset_ h']. rewrite (ok_next Hst), Hi, zlen_app. cbn. f_equal. lia.
  - cbn. intros Hne. apply drop_ge. lia.
Qed.

Lemma deliver_ok limits a log h d :
  handle_ok limits (Some (zlen d)) a log h ->
  (gateway_initiator_ h && gateway_prelude_pending_ h = true -> d = []) ->
  let h' := {| h with receive_buffered_bytes_ := u64 (receive_buffered_bytes_ h + zlen d);
                      receive_chunks_ := if zlen d =? 0 then receive_chunks_ h else receive_chunks_ h ++ [d] |} in
  handle_ok limits None a log h' /\ incoming a h' log = incoming a h log ++ d.
Proof.
  intros Hok Hp h'.
  assert (Hc : concat (receive_chunks_ h') = concat (receive_chunks_ h) ++ d).
  { cbn. destruct (Z.eqb_spec (zlen d) 0) as [H0 |]; [| by rewrite concat_app; cbn; rewrite app_nil_r].
    destruct d; [by rewrite app_nil_r | rewrite zlen_cons in H0; assert (Hn := zlen_nonneg d); lia]. }
  assert (Hi : incoming a h' log = incoming a h log ++ d).
  { unfold incoming. rewrite Hc, <- !app_assoc. done. }
  split; [| done]. assert (Hn := zlen_nonneg d). assert (Hm := zlen_nonneg (concat (receive_chunks_ h))).
  destruct Hok. split; try done.
  - rewrite Hc, zlen_app. cbn. rewrite ok_buffered. destruct ok_bytes as (cr & ? & ? & ? & ? & ? & ?).
    destruct ok_window as [Hw _], ok_prelude as [_ Hr]. cbn in *. apply u64_small. unfold is_u64 in Hw. lia.
  - destruct ok_bytes as (cr & ? & ? & ? & ? & ? & ?). exists cr. rewrite Hc, zlen_app. cbn in *.
    split_and!; (done || lia).
  - cbn in *. destruct (zlen d =? 0); [| rewrite zlen_app; unfold zlen at 2; cbn]; lia.
  - intros Hst. rewrite Hi, zlen_app. cbn [next_receive_offset_ h']. rewrite (ok_next Hst). cbn. f_equal. lia.
  - intros H1. cbn in H1. destruct (ok_order H1) as [O1 O2]. cbn. rewrite (Hp H1). by split.
Qed.

Lemma gap_elsewhere a n m b : b <> a -> gap_at a n b = gap_at a m b.
Proof. intros Hb. unfold gap_at. by destruct (Z.eqb_spec b a). Qed.

Lemma gap_here a n : gap_at a n a = Some n.
Proof. unfold gap_at. by rewrite Z.eqb_refl. Qed.

(** [fire_connected] and the state change of a completed prelude. *)
Lemma wp_connected g s a h r :
  good g s -> heap_ s !! a = Some h ->
  wp (fire_connected a r) (fun _ s' => good g s' /\ grows s s' /\ exists h', heap_ s' !! a = Some h' /\
    state_ h' = state_ h /\ gateway_prelude_pending_ h' = gateway_prelude_pending_ h) s.
Proof.
  intros Hg Ha. destruct (fire_connected_moved s a h r Ha) as (f & c & evs & Heq & Hev & Hd & Hr).
  eexists _, _. split; [done |]. set (h' := {| h with gateway_connected_fired_ := f; gateway_connected_handler_ := c |}).
  destruct (good_heap _ _ Hg a h Ha) as (_ & _ & Hok).
  assert (Ed : delivered a (log_ s ++ evs) = delivered a (log_ s)) by (by rewrite delivered_app, Hd, app_nil_r).
  assert (Er : reported a (log_ s ++ evs) = reported a (log_ s)) by (by rewrite reported_app, Hr, app_nil_r).
  split_and!.
  - apply (good_moved g g s a h); try done; [| | unfold outgoing; by rewrite Er].
    + destruct Hok. split; unfold incoming, outgoing; rewrite ?Ed, ?Er; done.
    + intros id Hid. exact (live_state g s id a h Hg Ha Hid).
  - apply (grows_moved s a h); try done; [unfold incoming; by rewrite Ed | unfold outgoing; by rewrite Er].
  - exists h'. split_and!; [apply lookup_insert_eq | done | done].
Qed.

(** What is left for the reader, or nothing once the stream was reset. *)
Definition prelude_done a bytes s (left : option (list Z)) s' : Prop :=
  exists w, accepts a w s s' /\
  match left with
  | None => w `prefix_of` bytes /\ good no_gap s'
  | Some d => bytes = w ++ d /\ good (gap_at a (zlen d)) s' /\
      exists h', heap_ s' !! a = Some h' /\ state_ h' <> StreamState.reset /\
        (gateway_initiator_ h' && gateway_prelude_pending_ h' = true -> d = [])
  end.

Lemma wp_receive_prelude s a h bytes :
  good (gap_at a (zlen bytes)) s -> heap_ s !! a = Some h -> state_ h <> StreamState.reset ->
  wp (receive_prelude a bytes) (prelude_done a bytes s) s.
Proof.
  intros Hg Ha Hst. unfold receive_prelude. apply wp_bind, (wp_handle a h); [done |].
  assert (Hal : allocated s a) by (by exists h).
  destruct (gateway_initiator_ h && gateway_prelude_pending_ h) eqn:Hp; cbn [negb].
  2: { apply wp_ret. exists []. split; [by apply grows_accepts |]. split_and!; [done | done |]. exists h.
       split_and!; [done | done | congruence]. }
  destruct (take_prelude h bytes) as [h1 d] eqn:Ht.
  destruct (good_heap _ _ Hg a h Ha) as (_ & _ & Hok). rewrite gap_here in Hok.
  destruct (take_prelude_ok _ _ _ _ _ _ _ Hok Hp Ht) as (w & -> & Hok1 & Hin & Hd).
  assert (Hsame : id_ h1 = id_ h /\ state_ h1 = state_ h /\ writes_ h1 = writes_ h)
    by (unfold take_prelude in Ht; injection Ht as <- _; done).
  destruct Hsame as (Hid & Hs & Hw). clear Ht.
  assert (Hstep : forall h2, handle_ok (limits_ s) (Some (zlen d)) a (log_ s) h2 -> id_ h2 = id_ h ->
    state_ h2 = state_ h -> writes_ h2 = writes_ h -> incoming a h2 (log_ s) = incoming a h (log_ s) ++ w ->
    good (gap_at a (zlen d)) (moved s a h2 [] (streams_ s)) /\ accepts a w s (moved s a h2 [] (streams_ s))).
  { intros h2 Hok2 Hid2 Hs2 Hw2 Hin2. apply (good_accept (gap_at a (zlen (w ++ d)))  _ s a h h2 w); try done.
    - intros b Hb. by apply gap_elsewhere.
    - by rewrite gap_here.
    - by rewrite Hs2.
    - unfold outgoing. by rewrite Hw2. }
  destruct (Z.eqb_spec (gateway_prelude_received_ h1) gateway_prelude_bytes) as [Hfull | Hpart]; cbn [negb].
  - set (h2 := {| h1 with gateway_prelude_pending_ := false |}).
    destruct (Hstep h2) as [G2 R2]; try done.
    { destruct Hok1. split; try done. cbn. by rewrite andb_false_r. }
    apply wp_bind. eexists _, _. split; [apply set_handle_moved |].
    assert (H2 : heap_ (moved s a h2 [] (streams_ s)) !! a = Some h2) by apply lookup_insert_eq.
    destruct (parse_gateway_prelude _); apply wp_bind.
    + eexists _, _. split; [by apply (update_moved _ a h2) |]. rewrite moved_moved. cbn [app streams_ moved].
      set (h3 := if bool_decide (state_ h2 = StreamState.opening) then _ else h2).
      assert (Hh3 : state_ h3 <> StreamState.reset /\ gateway_prelude_pending_ h3 = false).
      { unfold h3. case_bool_decide; cbn; [done |]. by rewrite Hs. }
      assert (Hg3 : good (gap_at a (zlen d)) (moved s a h3 [] (streams_ s)) /\
        accepts a w s (moved s a h3 [] (streams_ s))).
      { unfold h3. case_bool_decide as Hop; [| done].
        destruct (good_set (gap_at a (zlen d)) (gap_at a (zlen d)) _ a h2
          {| h2 with state_ := StreamState.open |} G2 H2) as [G3 R3]; try done.
        - destruct (good_heap _ _ G2 a h2 H2) as (_ & _ & []). split; try done. cbn in *. intros _. apply ok_next.
          by rewrite Hs.
        - rewrite moved_moved in *. split; [done |].
          eapply (accepts_then a w _ _ _ Hal R2). exact (R3 eq_refl). }
      destruct Hg3 as [G3 R3]. apply wp_bind.
      eapply wp_mono; [apply (wp_connected (gap_at a (zlen d)) _ a h3); [done | apply lookup_insert_eq] |].
      intros _ s4 (G4 & R4 & h4 & H4 & Hs4 & Hp4). apply wp_ret. exists w.
      split; [exact (accepts_then a w _ _ _ Hal R3 R4) |]. split_and!; [done | done |]. exists h4.
      split_and!; [done | by rewrite Hs4; apply Hh3 |]. destruct Hh3 as [_ Hh3]. by rewrite Hp4, Hh3, andb_false_r.
    + eapply wp_mono; [by apply (wp_reset_for (gap_at a (zlen d)) _ a h2) |].
      intros _ s3 (G3 & R3 & h3 & H3 & Hs3). apply wp_ret. exists w.
      split; [exact (accepts_then a w _ _ _ Hal R2 R3) |]. split; [by apply prefix_app_r | by eapply good_close].
  - destruct (Hstep h1) as [G1 R1]; try done. apply wp_bind. eexists _, _. split; [apply set_handle_moved |].
    apply wp_ret. exists w. split; [done |]. split_and!; [done | done |]. exists h1.
    split_and!; [apply lookup_insert_eq | by rewrite Hs | by intros _; apply Hd].
Qed.

Lemma wp_deliver s a h d :
  good (gap_at a (zlen d)) s -> heap_ s !! a = Some h -> state_ h <> StreamState.reset ->
  (gateway_initiator_ h && gateway_prelude_pending_ h = true -> d = []) ->
  wp (deliver_data a d) (fun _ s' => good no_gap s' /\ accepts a d s s') s.
Proof.
  intros Hg Ha Hst Hp. unfold deliver_data. apply wp_bind. eexists _, _. split; [by apply (update_moved s a h) |].
  assert (Hal : allocated s a) by (by exists h).
  destruct (good_heap _ _ Hg a h Ha) as (_ & _ & Hok). rewrite gap_here in Hok.
  destruct (deliver_ok _ _ _ _ _ Hok Hp) as [Hok1 Hin1]. set (h1 := {| h with receive_buffered_bytes_ := _;
    receive_chunks_ := _ |}) in *.
  destruct (good_accept (gap_at a (zlen d)) no_gap s a h h1 d) as [G1 R1]; try done.
  { intros b Hb. unfold gap_at. by destruct (Z.eqb_spec b a). }
  apply wp_bind. eapply wp_mono; [apply (wp_try_dispatch no_gap _ a h1); [done | apply lookup_insert_eq | done] |].
  intros _ s2 (G2 & R2 & h2 & H2 & Hst2). apply wp_bind, (wp_handle a h2); [done |].
  assert (R12 := accepts_then a d _ _ _ Hal R1 R2).
  match goal with |- wp (if ?c then _ else _) _ _ => destruct c end; [| by apply wp_ret].
  eapply wp_mono; [by apply (wp_finish_received no_gap s2 a h2) |]. intros _ s3 (G3 & R3).
  split; [done | exact (accepts_then a d _ _ _ Hal R12 R3)].
Qed.

(** The header of a payload of 28 bytes can be read. *)
Lemma read_defined width bytes o : forall indices v, Forall (fun i => 0 <= o + i < zlen bytes) indices ->
  is_Some (foldl (read_byte width bytes o) (Some v) indices).
Proof.
  induction indices as [| i indices IH]; intros v H; [by eexists |]. apply Forall_cons_1 in H as [Hi H]. cbn.
  destruct (bytes !! Z.to_nat (o + i)) as [b |] eqn:Hb; [by apply IH |]. apply lookup_ge_None in Hb. unfold zlen in *. lia.
Qed.

Lemma read_past width bytes o : forall indices v, Exists (fun i => zlen bytes <= o + i) indices ->
  foldl (read_byte width bytes o) v indices = None.
Proof.
  assert (Hnone : forall l, foldl (read_byte width bytes o) None l = None) by (by induction l).
  induction indices as [| i indices IH]; intros v H; [by apply Exists_nil in H |].
  apply Exists_cons in H as [Hi | H]; cbn; [| by apply IH]. destruct v as [v |]; [| apply Hnone]. cbn.
  rewrite lookup_ge_None_2; [apply Hnone |]. unfold zlen in *. lia.
Qed.

Lemma header_defined bytes : 28 <= zlen bytes -> is_Some (read_u64 bytes 16) /\ is_Some (read_u32 bytes 24).
Proof. intros H. split; apply read_defined; repeat constructor; lia. Qed.

(** A DATA payload with a stream id has a whole header. *)
Definition whole (frame : Frame) : Prop :=
  type frame = frame_type_value stream_data -> 16 <= zlen (payload frame) -> 28 <= zlen (payload frame).

(** The stream that accepts bytes of a DATA frame, and the bytes: they are the
    next ones of that stream. *)
Definition data_accepted s (frame : Frame) (a : Z) (w : list Z) : Prop :=
  w = [] \/
  exists h, heap_ s !! a = Some h /\ parse_stream_id (payload frame) = success (id_ h) /\
    read_u64 (payload frame) 16 = Some (u64 (zlen (incoming a h (log_ s)))) /\
    w `prefix_of` drop (Z.to_nat stream_data_header_bytes) (payload frame).

Lemma wp_handle_data s frame :
  good no_gap s -> (16 <= zlen (payload frame) -> 28 <= zlen (payload frame)) ->
  wp (handle_data frame) (fun _ s' => good no_gap s' /\ exists a w, accepts a w s s' /\ data_accepted s frame a w) s.
Proof.
  intros Hg Hw. unfold handle_data. apply wp_bind, wp_known.
  assert (Hquiet : forall s', good no_gap s' /\ grows s s' -> good no_gap s' /\
    exists a w, accepts a w s s' /\ data_accepted s frame a w).
  { intros s' [G R]. split; [done |]. exists 0, []. split; [by apply grows_accepts | by left]. }
  assert (Hret : wp (ret tt : Op (Recorded E) unit) (fun _ s' => good no_gap s' /\
    exists a w, accepts a w s s' /\ data_accepted s frame a w) s) by (apply wp_ret, Hquiet; by split).
  destruct (match parse_stream_id (payload frame) with success i => streams_ s !! i | failure _ => None end)
    as [a |] eqn:Hf; [| done].
  destruct (parse_stream_id (payload frame)) as [id |] eqn:Hid; [| done].
  assert (H16 : 16 <= zlen (payload frame)).
  { unfold parse_stream_id in Hid. destruct (Z.ltb_spec (zlen (payload frame)) 16); [done | lia]. }
  destruct (header_defined _ (Hw H16)) as [[o Ho] [n Hn]].
  destruct (known_good _ _ _ _ Hg Hf) as (h & Ha & Hidh). apply wp_bind, (wp_handle a h); [done |].
  destruct (is_ended (state_ h)) eqn:Hst; [done |]. rewrite Ho, Hn.
  assert (Hne : state_ h <> StreamState.reset) by (intros E0; by rewrite E0 in Hst).
  assert (Hreset : forall r, wp (handle_reset_frame_for a r) (fun _ s' => good no_gap s' /\
    exists a w, accepts a w s s' /\ data_accepted s frame a w) s).
  { intros r. eapply wp_mono; [by apply (wp_reset_for no_gap s a h) |]. intros _ s1 (G1 & R1 & _). by apply Hquiet. }
  destruct (negb _); [apply Hreset |]. cbn zeta. set (bytes := drop _ _).
  destruct (Z.ltb_spec o (next_receive_offset_ h)) as [| H1]; [done |].
  destruct (Z.ltb_spec (next_receive_offset_ h) o) as [| H2]; [apply Hreset |].
  destruct (_ || _) eqn:Hroom; [apply Hreset |]. apply orb_false_iff in Hroom as [Hb Hfr].
  destruct (good_heap _ _ Hg a h Ha) as (_ & _ & Hok). assert (Hnn := zlen_nonneg bytes).
  assert (Hok1 : handle_ok (limits_ s) (Some (zlen bytes)) a (log_ s) (charge_data h (zlen bytes)))
    by (apply charge_ok; [done | lia | lia]).
  set (h1 := charge_data h (zlen bytes)) in *.
  destruct (good_set no_gap (gap_at a (zlen bytes)) s a h h1 Hg Ha) as [G1 R1]; try done.
  { intros b Hb'. unfold gap_at. by destruct (Z.eqb_spec b a). }
  { by rewrite gap_here. }
  specialize (R1 eq_refl). apply wp_bind. eexists _, _. split; [apply set_handle_moved |].
  assert (Hal : allocated s a) by (by exists h).
  assert (Hacc : forall w, w `prefix_of` bytes -> data_accepted s frame a w).
  { intros w Hpre. right. exists h. split_and!; [done | congruence | | done].
    rewrite Ho. f_equal. transitivity (next_receive_offset_ h); [lia |]. rewrite (ok_next _ _ _ _ _ Hok Hne).
    cbn. by rewrite Z.add_0_r. }
  apply wp_bind. eapply wp_mono; [apply (wp_receive_prelude _ a h1 bytes); [done | apply lookup_insert_eq | done] |].
  intros left s2 (w & R2 & Hleft).
  assert (R12 : accepts a w s s2) by exact (accepts_trans a [] w _ _ _ Hal (grows_accepts a _ _ R1) R2).
  destruct left as [d |].
  - destruct Hleft as (Hsplit & G2 & h2 & Hh2 & Hne2 & Hp2).
    eapply wp_mono; [by apply (wp_deliver s2 a h2 d) |]. intros _ s3 (G3 & R3). split; [done |].
    exists a, (w ++ d). split; [exact (accepts_trans a w d _ _ _ Hal R12 R3) |]. apply Hacc. by rewrite Hsplit.
  - destruct Hleft as [Hpre G2]. apply wp_ret. split; [done |]. exists a, w. split; [done | by apply Hacc].
Qed.

(** A frame of the peer: first the deadlines, then its handler. *)
Definition frame_handled s (frame : Frame) s' : Prop :=
  exists s1 a w, good no_gap s1 /\ grows s s1 /\ accepts a w s1 s' /\
    (w = [] \/ type frame = frame_type_value stream_data /\ data_accepted s1 frame a w).

Lemma frame_type_value_of n t : SessionChannels.frame_type_of n = Some t -> n = frame_type_value t.
Proof. intros H. apply find_some in H as [_ H]. lia. Qed.

Lemma wp_admit s frame :
  good no_gap s -> attached_ s = true -> bytes_ok (payload frame) -> whole frame ->
  wp (admit_frame frame) (fun _ s' => good no_gap s' /\ frame_handled s frame s') s.
Proof.
  intros Hg Hat Hb Hw. unfold admit_frame. apply wp_bind. eapply wp_mono; [by apply (wp_deadlines no_gap) |].
  intros _ s1 (G1 & R1). assert (Hat1 := grow_attached _ _ R1 Hat).
  assert (Hquiet : forall s' (r : Result unit), good no_gap s' /\ grows s1 s' ->
    wp (ret r) (fun _ s' => good no_gap s' /\ frame_handled s frame s') s').
  { intros s' r [G R]. apply wp_ret. split; [done |]. exists s1, 0, [].
    split_and!; [done | done | by apply grows_accepts | by left]. }
  destruct (SessionChannels.frame_type_of (type frame)) as [t |] eqn:Ht; [| by apply Hquiet].
  apply frame_type_value_of in Ht. destruct t; try (by apply Hquiet); apply wp_bind.
  - eapply wp_mono; [by apply wp_handle_open |]. intros u s2 H2. by apply Hquiet.
  - eapply wp_mono; [apply wp_handle_data; [done | by apply Hw] |]. intros _ s2 (G2 & a & w & R2 & Hacc). apply wp_ret.
    split; [done |]. exists s1, a, w. split_and!; [done | done | done | by right].
  - eapply wp_mono; [by apply wp_handle_window |]. intros u s2 H2. by apply Hquiet.
  - eapply wp_mono; [by apply wp_handle_fin |]. intros u s2 H2. by apply Hquiet.
  - eapply wp_mono; [by apply wp_handle_reset |]. intros u s2 H2. by apply Hquiet.
Qed.

(** ** The end of the service *)

Definition without_streams s : Service := {| s with streams_ := ∅ |}.

Lemma fail_stream_moved s a h error :
  heap_ s !! a = Some h -> exists f c evs,
  fail_stream error a s = Some (tt, moved s a (finished h StreamState.reset f c)
                                      (evs ++ ends a h (Some error) (Some error)) (streams_ s)) /\
  Forall (fun e => event_stream e = a) evs /\ delivered a evs = [] /\ reported a evs = [].
Proof.
  intros Ha. unfold fail_stream, complete_write, bind at 1.
  destruct (fire_connected_moved s a h (fun _ => failure (make_error ErrorCode.cancelled "byte_stream"
    "gateway_connect_closed")) Ha) as (f & c & evs & E1 & Hev & Hd & Hr). rewrite E1.
  set (h1 := {| h with gateway_connected_fired_ := f; gateway_connected_handler_ := c |}).
  set (s1 := moved s a h1 evs _). assert (H1 : heap_ s1 !! a = Some h1) by apply lookup_insert_eq.
  unfold bind at 1. unfold handle at 1. rewrite H1. unfold bind at 1. rewrite (each_emit _ _ s1 a h1) by done.
  set (s2 := moved s1 a h1 _ _). assert (H2 : heap_ s2 !! a = Some h1) by apply lookup_insert_eq.
  unfold bind at 1. rewrite (each_emit _ _ s2 a h1) by done. set (s3 := moved s2 a h1 _ _).
  assert (H3 : heap_ s3 !! a = Some h1) by apply lookup_insert_eq. rewrite (update_moved s3 a h1) by done.
  exists f, c, evs. split; [| done]. subst s3 s2 s1. rewrite !moved_moved, app_nil_r. cbn [streams_ moved].
  unfold ends. done.
Qed.

Lemma wp_fail_stream s a h error :
  good no_gap (without_streams s) -> heap_ s !! a = Some h ->
  wp (fail_stream error a) (fun _ s' => good no_gap (without_streams s') /\ grows s s') s.
Proof.
  intros Hg Ha. destruct (good_heap _ _ Hg a h Ha) as (_ & Hat & Hok). destruct (good_attached _ _ Hg Hat) as [Hl _].
  destruct (fail_stream_moved s a h error Ha) as (f & c & evs & Heq & Hev & Hd & Hr).
  destruct (finished_ok _ _ a _ h StreamState.reset f c evs (Some error) (Some error) Hok (or_introl eq_refl) Hd Hr Hl)
    as (Hok' & Hin & Hout).
  assert (Hev' : Forall (fun e => event_stream e = a) (evs ++ ends a h (Some error) (Some error)))
    by (apply Forall_app; split; [done | apply ends_stream]).
  eexists _, _. split; [done |]. split.
  - change (good no_gap (moved (without_streams s) a (finished h StreamState.reset f c)
      (evs ++ ends a h (Some error) (Some error)) ∅)).
    apply (good_moved no_gap no_gap (without_streams s) a h); try done. exact (prefix_eq _ _ (eq_sym Hout)).
  - apply (grows_moved s a h); try done. exact (prefix_eq _ _ (eq_sym Hout)).
Qed.

Lemma wp_fail_all s error :
  good no_gap s -> wp (fail_all error) (fun _ s' => good no_gap s' /\ grows s s') s.
Proof.
  intros Hg. unfold fail_all. apply wp_bind, wp_get, wp_bind.
  assert (Hall := streams_allocated no_gap s Hg). revert Hall. generalize (iterate (streams_ s)). intros l Hall.
  assert (Hc : good no_gap (without_streams s)).
  { destruct Hg as [Gs Gu Ga Gh Gm Gc Gf Gl]. split; try done. cbn.
    etrans; [apply (msize_subseteq ∅ (streams_ s)), map_empty_subseteq | done]. }
  assert (Hloop : wp (each (fun '(_, a) => fail_stream error a) l)
    (fun _ s' => good no_gap (without_streams s') /\ grows s s') s).
  { clear Hg. revert s Hall Hc. induction l as [| [id a] l IH]; intros s Hall Hc; cbn [each]; [by apply wp_ret |].
    apply Forall_cons_1 in Hall as [[h Ha] Hall]. apply wp_bind.
    eapply wp_mono; [by apply (wp_fail_stream s a h) |]. intros _ s1 (G1 & R1).
    eapply wp_mono; [apply (IH s1); [| done] |].
    - eapply list.Forall_impl; [exact Hall |]. intros [i b]. by apply grows_allocated.
    - intros _ s2 (G2 & R2). split; [done | by etrans]. }
  eapply wp_mono; [exact Hloop |]. intros _ s1 (G1 & R1). apply wp_modify. split; [done |].
  etrans; [exact R1 |]. split; try done; [| cbn; congruence]. intros a h Ha. by exists h.
Qed.

Lemma wp_destroy s : good no_gap s -> wp destroy (fun _ s' => good no_gap s' /\ grows s s') s.
Proof.
  intros Hg. unfold destroy. apply wp_bind. eapply wp_mono; [by apply wp_fail_all |]. intros _ s1 (G1 & R1).
  apply wp_bind, wp_modify. set (e := session_domain_handler (session_ s1) false).
  destruct (good_swap no_gap s1 e G1) as [G2 R2]; [cbn; by apply domain_ok, G1 | done | by left |].
  apply wp_bind, wp_get.
  eapply wp_mono; [apply (wp_each_good no_gap _ (fun channel => session_do (fun e => session_close_channel e channel))
    (fun _ _ => True)); [done | | done | by apply Forall_true] |].
  - intros s3 c G3 _. eapply wp_mono; [apply (wp_session_do no_gap s3 (fun e => session_close_channel e c)); [| done] |].
    { intros e' He. by apply close_ok. }
    by intros _ s4 (G4 & R4 & _).
  - intros _ s3 (G3 & R3). split; [done |]. do 2 (etrans; [done |]). done.
Qed.

Lemma wp_set_handlers s (f : Service -> Service) :
  (forall s, exists i g, f s = {| s with inbound_handler_ := i; gateway_inbound_handler_ := g |}) ->
  good no_gap s -> wp (modify f) (fun _ s' => good no_gap s' /\ grows s s') s.
Proof.
  intros Hf [Gs Gu Ga Gh Gm Gc Gf Gl]. apply wp_modify. destruct (Hf s) as (i & g & ->). split; [done |].
  split; try done; [| cbn; congruence]. intros a h Ha. by exists h.
Qed.

End frames.
