(* ===== verification/ByteStreamRuns.v ===== *)
(** * Runs of byte-stream services

    The calls of the application and the frames of the peer in any order: what a
    service keeps, that every call and frame returns, and what two services carry
    from one application to the other when the network drops, repeats and
    reorders the frames of one on their way to the other. *)

From Stdlib Require Import ZArith Lia ZifyBool String.
From stdpp Require Import base tactics option list gmap strings numbers pretty.
From S2P Require Import Prelude Errors Limits Varint Wire Identifiers ProtoCodec FieldCodec Protocol Signing Clock.
From S2P Require Import SessionChannels PairingProtocol GatewayAddress GatewayPolicy PeerSession Effects ByteStream ByteStreamInvariant ByteStreamFrames.
Import Wire ProtoCodec Signing PairingProtocol GatewayPolicy Effects ByteStream.
#[local] Open Scope Z_scope.
#[local] Open Scope effect_scope.

(** ** Calls *)

(** A call of the application; a stream is named by the address of its handle. *)
Inductive Call : Type :=
  | Attach
  | OpenStream (window_bytes window_frames : Z)
  | OpenGateway (target : GatewayConnect) (window_bytes window_frames dial_deadline : Z) (on_connected : option Z)
  | ReadSome (a size handler : Z) (deadline : option Z)
  | Write (a : Z) (bytes : list Z) (handler : Z) (deadline : option Z)
  | ShutdownWrite (a : Z)
  | ResetStream (a : Z) (reason : StableStatus)
  | CheckDeadlines
  | SetInbound (on : bool)
  | SetGatewayInbound (on : bool)
  | FailAll (error : Error).

Section runs.
Context {E : Type} `{!StreamSession E} `{!LawfulSession E}.
Abbreviation Service := (ByteStreamService (Recorded E)).
Implicit Types s : Service.

Definition quietly {A} (m : Op (Recorded E) A) : Op (Recorded E) unit := let* _ := m in ret tt.

Definition serve (c : Call) : Op (Recorded E) unit :=
  match c with
  | Attach => quietly attach
  | OpenStream w f => quietly (open_stream w f)
  | OpenGateway target w f d on_connected => quietly (open_gateway_stream target w f d on_connected)
  | ReadSome a size handler deadline => async_read_some a size handler deadline
  | Write a bytes handler deadline => async_write a bytes handler deadline
  | ShutdownWrite a => quietly (shutdown_write a)
  | ResetStream a reason => reset a reason
  | CheckDeadlines => check_deadlines
  | SetInbound on => set_inbound_handler on
  | SetGatewayInbound on => set_gateway_inbound_handler on
  | FailAll error => fail_all error
  end.

(** The arguments have their C++ types, and handles are ones the service made. *)
Definition call_ok s (c : Call) : Prop :=
  match c with
  | OpenStream w f | OpenGateway _ w f _ _ => is_u64 w /\ is_u32 f
  | ReadSome a size _ _ => allocated s a /\ 0 <= size
  | Write a _ _ _ | ShutdownWrite a | ResetStream a _ => allocated s a
  | _ => True
  end.

(** The handler of the stream domain is installed by [attach]. *)
Definition arriving s (f : Frame) : Prop := attached_ s = true /\ bytes_ok (payload f).

(** One step of a service: a call, a frame of the peer, or a change of the
    session and the clock below it. *)
Inductive step (may_arrive : Frame -> Prop) : Service -> Service -> Prop :=
  | step_call c s u s' : call_ok s c -> serve c s = Some (u, s') -> step may_arrive s s'
  | step_frame f s u s' : may_arrive f -> arriving s f -> handle_frame f s = Some (u, s') -> step may_arrive s s'
  | step_session e s : session_ok e -> step may_arrive s {| s with session_ := mkRecorded e (sent (session_ s)) |}.

Inductive initial : Service -> Prop :=
  | is_initial e limits : session_ok e -> limits_unsigned limits -> initial (new_service (mkRecorded e []) limits).

(** The states a service reaches when the headers of the DATA frames are whole. *)
Inductive reached : Service -> Prop :=
  | reached_new s : initial s -> reached s
  | reached_step s s' : reached s -> step whole s s' -> reached s'.

(** *** Every step keeps the invariant *)

Lemma wp_quietly {A} (m : Op (Recorded E) A) s (Q : Service -> Prop) :
  wp m (fun _ s' => Q s') s -> wp (quietly m) (fun _ s' => Q s') s.
Proof. intros H. apply wp_bind. eapply wp_mono; [exact H |]. intros x s' HQ. by apply wp_ret. Qed.

Lemma wp_serve s c : good no_gap s -> call_ok s c -> wp (serve c) (fun _ s' => good no_gap s' /\ grows s s') s.
Proof.
  intros Hg Hc. destruct c; cbn [serve call_ok] in *; try apply wp_quietly.
  - by apply wp_attach.
  - destruct Hc. by apply wp_open_stream.
  - destruct Hc. by apply wp_open_gateway.
  - destruct Hc. by apply wp_async_read.
  - by apply wp_async_write.
  - by apply wp_shutdown.
  - by apply wp_reset.
  - by apply wp_deadlines.
  - apply wp_set_handlers; [| done]. intros s0. by exists on, (gateway_inbound_handler_ s0).
  - apply wp_set_handlers; [| done]. intros s0. by exists (inbound_handler_ s0), on.
  - by apply wp_fail_all.
Qed.

Lemma wp_handle_frame s f :
  good no_gap s -> arriving s f -> whole f ->
  wp (handle_frame f) (fun _ s' => good no_gap s' /\ frame_handled s f s') s.
Proof.
  intros Hg [Ha Hb] Hw. unfold handle_frame. apply wp_bind. eapply wp_mono; [by apply wp_admit |].
  intros r s' H. by apply wp_ret.
Qed.

(** What a step does: the invariant stays, and bytes are accepted from a DATA
    frame that may arrive. *)
Definition stepped (may_arrive : Frame -> Prop) s s' : Prop :=
  grows s s' \/ exists f, may_arrive f /\ frame_handled s f s'.

Lemma step_good (may_arrive : Frame -> Prop) s s' :
  (forall f, may_arrive f -> whole f) -> good no_gap s -> step may_arrive s s' ->
  good no_gap s' /\ stepped may_arrive s s'.
Proof.
  intros Hw Hg H. destruct H as [c s u s' Hc Hs | f s u s' Hf Hok Hs | e s He].
  - destruct (wp_run _ _ _ _ _ (wp_serve s c Hg Hc) Hs) as [G R]. split; [done | by left].
  - destruct (wp_run _ _ _ _ _ (wp_handle_frame s f Hg Hok (Hw f Hf)) Hs) as [G R]. split; [done | right; eauto].
  - destruct (good_swap no_gap s (mkRecorded e (sent (session_ s))) Hg) as [G R]; [done | done | by left |].
    split; [done | by left].
Qed.

Lemma initial_good s : initial s -> good no_gap s.
Proof.
  intros [e limits He Hl]. split; try done.
  - cbn. apply Hl.
  - intros k f Hin. by apply not_elem_of_nil in Hin.
Qed.

Lemma reached_good s : reached s -> good no_gap s.
Proof.
  induction 1 as [s Hi | s s' _ IH Hs]; [by apply initial_good |]. by apply (step_good whole s s').
Qed.

(** The state after an operation that returns. *)
Definition after {A} (m : Op (Recorded E) A) s : Service :=
  match m s with Some (_, s') => s' | None => s end.

Lemma step_serve (P : Frame -> Prop) s c : good no_gap s -> call_ok s c -> step P s (after (serve c) s).
Proof.
  intros Hg Hc. destruct (wp_serve s c Hg Hc) as (u & s' & Hs & _). unfold after. rewrite Hs. by apply (step_call P c s u s').
Qed.

Lemma step_handle (P : Frame -> Prop) s f :
  good no_gap s -> P f -> whole f -> arriving s f -> step P s (after (handle_frame f) s).
Proof.
  intros Hg Hp Hw Hf. destruct (wp_handle_frame s f Hg Hf Hw) as (u & s' & Hs & _). unfold after. rewrite Hs.
  by apply (step_frame P f s u s').
Qed.

Lemma reached_serve s c : reached s -> call_ok s c -> reached (after (serve c) s).
Proof. intros Hr Hc. apply (reached_step s); [done |]. apply step_serve; [by apply reached_good | done]. Qed.

Lemma reached_handle s f : reached s -> whole f -> arriving s f -> reached (after (handle_frame f) s).
Proof. intros Hr Hw Hf. apply (reached_step s); [done |]. apply step_handle; [by apply reached_good | done ..]. Qed.

(** *** What a service keeps *)

(** C16. In every state a service reaches, whatever the application calls and the
    peer sends: every stream buffers at most the receive window it granted, in
    bytes and in frames, the reads, the writes and the write backlog stay within
    the configured limits, and so does the number of streams. *)
Theorem stream_memory_bounded s :
  reached s ->
  msize (streams_ s) <= max_concurrent_streams (limits_ s) /\
  forall a h, heap_ s !! a = Some h ->
    receive_buffered_bytes_ h = zlen (concat (receive_chunks_ h)) /\
    receive_window_remaining_bytes_ h + receive_buffered_bytes_ h <= receive_window_bytes_ h /\
    receive_window_remaining_frames_ h + zlen (receive_chunks_ h) <= receive_window_frames_ h /\
    0 <= receive_window_remaining_bytes_ h /\ 0 <= receive_window_remaining_frames_ h /\
    zlen (reads_ h) <= max_pending_reads (limits_ s) /\
    zlen (writes_ h) <= max_pending_writes (limits_ s) /\
    pending_bytes h <= pending_write_bytes (limits_ s).
Proof.
  intros Hr. apply reached_good in Hr. split; [apply Hr |]. intros a h Ha.
  destruct (good_heap _ _ Hr a h Ha) as (_ & _ & []). cbn in *.
  destruct ok_bytes as (cr & ? & ? & ? & ? & ? & ?). rewrite ok_buffered in *. split_and!; try done; try lia.
Qed.

(** Every call with arguments of its types, on handles the service made, returns,
    and so does every frame of the peer whose DATA header is whole and the
    destructor: the loops of the reads and the writes end, and no member is used
    before it is set. *)
Lemma calls_return s :
  reached s ->
  (forall c, call_ok s c -> is_Some (serve c s)) /\
  (forall f, arriving s f -> whole f -> is_Some (handle_frame f s)) /\
  is_Some (destroy s).
Proof.
  intros Hr. apply reached_good in Hr. split_and!.
  - intros c Hc. destruct (wp_serve s c Hr Hc) as (u & s' & -> & _). eauto.
  - intros f Hf Hw. destruct (wp_handle_frame s f Hr Hf Hw) as (u & s' & -> & _). eauto.
  - destruct (wp_destroy s Hr) as (u & s' & -> & _). eauto.
Qed.

(** C18. [handle_data] reads the offset and the length of a DATA frame without
    looking at the size of the payload. It has no defined result exactly when the
    payload names a stream the service has and is shorter than the header of 28
    bytes. *)
Theorem short_data_undefined s f :
  reached s ->
  (handle_data f s = None <->
   exists id a, parse_stream_id (payload f) = success id /\ streams_ s !! id = Some a /\ zlen (payload f) < 28).
Proof.
  intros Hr. apply reached_good in Hr. split.
  - intros Hn. destruct (parse_stream_id (payload f)) as [id |] eqn:Hid.
    2: { unfold handle_data, bind at 1, known_stream in Hn. by rewrite Hid in Hn. }
    destruct (streams_ s !! id) as [a |] eqn:Ha.
    2: { unfold handle_data, bind at 1, known_stream, get in Hn. by rewrite Hid, Ha in Hn. }
    exists id, a. split_and!; [done | done |]. destruct (Z.lt_ge_cases (zlen (payload f)) 28) as [| Hl]; [done |].
    destruct (wp_handle_data s f Hr) as (u & s' & E1 & _); [done | congruence].
  - intros (id & a & Hid & Ha & Hl). destruct (good_streams _ _ Hr id a Ha) as (h & Hh & _ & Hst).
    unfold handle_data, bind at 1, known_stream, get. rewrite Hid, Ha. unfold bind at 1, handle. rewrite Hh, Hst.
    assert (read_u32 (payload f) 24 = None) as ->; [| by destruct (read_u64 _ _)].
    apply read_past. do 3 apply Exists_cons_tl. apply Exists_cons_hd. lia.
Qed.

End runs.

(** ** Two services *)

Section pair.
Context {E1 : Type} `{!StreamSession E1} `{!LawfulSession E1}.
Context {E2 : Type} `{!StreamSession E2} `{!LawfulSession E2}.

(** The frames that may arrive from [s]: the DATA frames are ones it sent, at any
    time, in any order and any number of times; other frames are arbitrary. *)
Definition from {E} (s : ByteStreamService (Recorded E)) (f : Frame) : Prop :=
  type f = frame_type_value stream_data -> exists k, (k, f) ∈ sent (session_ s).

Inductive linked : ByteStreamService (Recorded E1) -> ByteStreamService (Recorded E2) -> Prop :=
  | linked_new s1 s2 : initial s1 -> initial s2 -> linked s1 s2
  | linked_left s1 s1' s2 : linked s1 s2 -> step (from s2) s1 s1' -> linked s1' s2
  | linked_right s1 s2 s2' : linked s1 s2 -> step (from s1) s2 s2' -> linked s1 s2'.

End pair.

Section carried.
Context {E1 : Type} `{!StreamSession E1} `{!LawfulSession E1}.
Context {E2 : Type} `{!StreamSession E2} `{!LawfulSession E2}.
Implicit Types (sA : ByteStreamService (Recorded E1)) (sB : ByteStreamService (Recorded E2)).

Lemma from_whole sA f : good no_gap sA -> from sA f -> whole f.
Proof.
  intros Hg Hf Hty _. destruct (Hf Hty) as [k Hin].
  destruct (good_sent _ _ Hg k f Hin Hty) as (a & h & before & bytes & Ha & -> & Hn & _).
  destruct (good_heap _ _ Hg a h Ha) as (_ & _ & Hok). destruct (ok_id _ _ _ _ _ Hok) as [[_ Hid] _].
  unfold data_bytes. destruct (canonical_width_bytes (u64 (zlen before))) as (_ & L8 & _).
  destruct (canonical_width_bytes (zlen bytes)) as (_ & _ & _ & L4). rewrite !zlen_app. assert (H := zlen_nonneg bytes). lia.
Qed.

(** One stream of [sA] has the id of [h], and it has sent fewer than 2^64 bytes. *)
Definition sole_sender sA (id : list Z) : Prop :=
  (forall a a' h h', heap_ sA !! a = Some h -> heap_ sA !! a' = Some h' -> id_ h = id -> id_ h' = id -> a = a') /\
  (forall a h, heap_ sA !! a = Some h -> id_ h = id -> zlen (outgoing a h (log_ sA)) < 2 ^ 64).

Definition carried sA sB : Prop :=
  forall b hb, heap_ sB !! b = Some hb -> sole_sender sA (id_ hb) ->
  incoming b hb (log_ sB) = [] \/
  exists a ha, heap_ sA !! a = Some ha /\ id_ ha = id_ hb /\
    incoming b hb (log_ sB) `prefix_of` outgoing a ha (log_ sA).

Lemma carried_sender sA sA' sB :
  (forall a h, heap_ sA !! a = Some h -> exists h', heap_ sA' !! a = Some h' /\ id_ h' = id_ h /\
     outgoing a h (log_ sA) `prefix_of` outgoing a h' (log_ sA')) ->
  carried sA sB -> carried sA' sB.
Proof.
  intros Hp Hc b hb Hb [Hu Hn]. destruct (Hc b hb Hb) as [| (a & ha & Ha & Hid & Hpre)]; [split | by left | right].
  - intros a a' h h' Ha Ha' Hi Hi'. destruct (Hp a h Ha) as (x & Hx & Ix & _), (Hp a' h' Ha') as (y & Hy & Iy & _).
    apply (Hu a a' x y); congruence.
  - intros a h Ha Hi. destruct (Hp a h Ha) as (x & Hx & Ix & [k Hk]). assert (Hnx := Hn a x Hx ltac:(congruence)).
    rewrite Hk, zlen_app in Hnx. assert (H := zlen_nonneg k). lia.
  - destruct (Hp a ha Ha) as (x & Hx & Ix & Px). exists a, x. split_and!; [done | congruence | by etrans].
Qed.

Lemma carried_grows sA sB sB' : grows sB sB' -> carried sA sB -> carried sA sB'.
Proof.
  intros R Hc b hb Hb Hs. destruct (heap_ sB !! b) as [h |] eqn:Hb0; [| left; by eapply (grow_new _ _ R)].
  destruct (grow_heap _ _ R b h Hb0) as (h' & Hb' & Hid & Hin & _). assert (h' = hb) as -> by congruence.
  rewrite Hin, Hid in *. by apply (Hc b h).
Qed.

Lemma prefix_same_length {A} (l k m : list A) :
  l `prefix_of` m -> k `prefix_of` m -> zlen l = zlen k -> l = k.
Proof. intros [x ->] [y Hy] Hl. unfold zlen in Hl. apply app_inj_1 in Hy as [Hy _]; [done | lia]. Qed.

(** A DATA frame of [sA] extends what [sB] accepted along what [sA] sent. *)
Lemma carried_accepts sA sB sB' f b w :
  good no_gap sA -> from sA f -> type f = frame_type_value stream_data ->
  data_accepted sB f b w -> accepts b w sB sB' -> carried sA sB -> carried sA sB'.
Proof.
  intros Hg Hf Hty Hd R Hc c hc Hc' Hs.
  destruct (heap_ sB !! c) as [h |] eqn:Hc0; [| left; by eapply (accept_new _ _ _ _ R)].
  destruct (accept_heap _ _ _ _ R c h Hc0) as (h' & Hh' & Hid & Hin & _). assert (h' = hc) as -> by congruence.
  rewrite Hid in *. rewrite Hin. assert (Hold := Hc c h Hc0 Hs).
  destruct (Z.eqb_spec c b) as [-> |]; [| by rewrite app_nil_r].
  destruct Hd as [-> | (h0 & Hh0 & Hpid & Hoff & Hpre)]; [by rewrite app_nil_r |].
  assert (h0 = h) as -> by congruence. destruct (Hf Hty) as [k Hsent].
  destruct (good_sent _ _ Hg k f Hsent Hty) as (a & ha & before & bytes & Ha & Hp & Hn & Hout).
  destruct (good_heap _ _ Hg a ha Ha) as (_ & _ & Hok). destruct (ok_id _ _ _ _ _ Hok) as [Hid16 Hz].
  assert (Hn0 := zlen_nonneg bytes). assert (Hb0 := zlen_nonneg before).
  destruct (read_data_bytes (id_ ha) (u64 (zlen before)) bytes) as (P1 & P2 & _ & _ & P5);
    [done | done | by apply Z.mod_pos_bound | split; lia |].
  rewrite Hp in *. rewrite P5 in Hpre. rewrite P1 in Hpid. rewrite P2 in Hoff.
  injection Hpid as Hia. injection Hoff as Hoff. destruct Hs as [Hu Hlim].
  assert (Hlong := Hlim a ha Ha Hia).
  assert (Hbefore : before `prefix_of` outgoing a ha (log_ sA)) by (etrans; [by apply prefix_app_r | done]).
  assert (Hinc : incoming b h (log_ sB) `prefix_of` outgoing a ha (log_ sA)).
  { destruct Hold as [-> | (a' & ha' & Ha' & Hi' & Hpre')]; [apply prefix_nil |].
    assert (a' = a) as -> by (by apply (Hu a' a ha' ha)). by simplify_eq. }
  assert (Hsmall : forall l, l `prefix_of` outgoing a ha (log_ sA) -> u64 (zlen l) = zlen l).
  { intros l [x Hx]. rewrite Hx, zlen_app in Hlong. apply u64_small. assert (H1 := zlen_nonneg l). assert (H2 := zlen_nonneg x). lia. }
  rewrite !Hsmall in Hoff by done. right. exists a, ha. split_and!; [done | done |].
  rewrite <- (prefix_same_length before _ _ Hbefore Hinc Hoff). etrans; [| exact Hout]. by apply prefix_app.
Qed.

Lemma carried_receiver sA sB sB' : good no_gap sA -> carried sA sB -> stepped (from sA) sB sB' -> carried sA sB'.
Proof.
  intros Hg Hc [R | (f & Hf & s1 & a & w & G1 & R1 & R2 & Hacc)]; [by eapply carried_grows |].
  assert (Hc1 := carried_grows _ _ _ R1 Hc). destruct Hacc as [-> | [Hty Hacc]]; [| by eapply carried_accepts].
  intros c hc Hc' Hs. destruct (heap_ s1 !! c) as [h |] eqn:Hc0; [| left; by eapply (accept_new _ _ _ _ R2)].
  destruct (accept_heap _ _ _ _ R2 c h Hc0) as (h' & Hh' & Hid & Hin & _). assert (h' = hc) as -> by congruence.
  rewrite Hid, Hin in *. replace (if c =? a then [] else []) with ([] : list Z) by (by destruct (c =? a)).
  rewrite app_nil_r. by apply (Hc1 c h).
Qed.

Lemma stepped_keeps (P : Frame -> Prop) sA sA' :
  stepped P sA sA' -> forall a h, heap_ sA !! a = Some h -> exists h', heap_ sA' !! a = Some h' /\ id_ h' = id_ h /\
     outgoing a h (log_ sA) `prefix_of` outgoing a h' (log_ sA').
Proof.
  intros [R | (f & Hf & s1 & b & w & G1 & R1 & R2 & Hacc)] a h Ha.
  - destruct (grow_heap _ _ R a h Ha) as (h' & ? & ? & _ & ?). eauto.
  - destruct (grow_heap _ _ R1 a h Ha) as (h1 & Ha1 & Hi1 & _ & Ho1).
    destruct (accept_heap _ _ _ _ R2 a h1 Ha1) as (h' & ? & ? & _ & ?). exists h'.
    split_and!; [done | congruence | by etrans].
Qed.

End carried.

Section linked.
Context {E1 : Type} `{!StreamSession E1} `{!LawfulSession E1}.
Context {E2 : Type} `{!StreamSession E2} `{!LawfulSession E2}.
Implicit Types (sA : ByteStreamService (Recorded E1)) (sB : ByteStreamService (Recorded E2)).

Lemma linked_carried sA sB :
  linked sA sB -> good no_gap sA /\ good no_gap sB /\ carried sA sB /\ carried sB sA.
Proof.
  induction 1 as [sA sB HA HB | sA sA' sB _ (GA & GB & CAB & CBA) Hs | sA sB sB' _ (GA & GB & CAB & CBA) Hs].
  - split_and!; [by apply initial_good | by apply initial_good | |].
    + destruct HB. intros b hb Hb. done.
    + destruct HA. intros b hb Hb. done.
  - destruct (step_good (from sB) sA sA') as [GA' St]; [intros f; by apply from_whole | done | done |].
    split_and!; [done | done | | by eapply carried_receiver].
    eapply carried_sender; [by eapply stepped_keeps | done].
  - destruct (step_good (from sA) sB sB') as [GB' St]; [intros f; by apply from_whole | done | done |].
    split_and!; [done | done | by eapply carried_receiver |].
    eapply carried_sender; [by eapply stepped_keeps | done].
Qed.

(** C14. Two services whose DATA frames the network drops, repeats, delays and
    reorders but does not forge, with arbitrary other frames, calls and sessions
    on both sides: the bytes a stream accepted from its peer, which start with the
    ones its reads returned, are a prefix of the bytes the stream of that id took
    from its writes and sent, in order and without a gap, a repetition or a change.
    The stream id is the only link, so it must be the id of one stream of the
    sender, which has sent fewer than 2^64 bytes. *)
Theorem stream_integrity sA sB b hb :
  linked sA sB -> heap_ sB !! b = Some hb -> sole_sender sA (id_ hb) ->
  incoming b hb (log_ sB) = [] \/
  exists a ha, heap_ sA !! a = Some ha /\ id_ ha = id_ hb /\
    incoming b hb (log_ sB) `prefix_of` outgoing a ha (log_ sA).
Proof. intros Hl. destruct (linked_carried _ _ Hl) as (_ & _ & Hc & _). apply Hc. Qed.

(** Runs, step by step. *)
Lemma linked_serve_left sA sB c : linked sA sB -> call_ok sA c -> linked (after (serve c) sA) sB.
Proof. intros Hl Hc. apply (linked_left sA); [done |]. apply step_serve; [apply (linked_carried _ _ Hl) | done]. Qed.

Lemma linked_serve_right sA sB c : linked sA sB -> call_ok sB c -> linked sA (after (serve c) sB).
Proof. intros Hl Hc. apply (linked_right sA sB); [done |]. apply step_serve; [apply (linked_carried _ _ Hl) | done]. Qed.

Lemma linked_frame_left sA sB f : linked sA sB -> from sB f -> arriving sA f -> linked (after (handle_frame f) sA) sB.
Proof.
  intros Hl Hp Hf. destruct (linked_carried _ _ Hl) as (GA & GB & _). apply (linked_left sA); [done |].
  apply step_handle; [done | done | exact (from_whole sB f GB Hp) | done].
Qed.

Lemma linked_frame_right sA sB f : linked sA sB -> from sA f -> arriving sB f -> linked sA (after (handle_frame f) sB).
Proof.
  intros Hl Hp Hf. destruct (linked_carried _ _ Hl) as (GA & GB & _). apply (linked_right sA sB); [done |].
  apply step_handle; [done | done | exact (from_whole sA f GA Hp) | done].
Qed.

End linked.
