(* ===== verification/ByteStreamTransfer.v ===== *)
(** * A transfer from one service to another

    What [ByteStreamRuns] bounds from above is reached: a write within the credit
    of its stream, over a session that takes its frames, is sent in pieces, and a
    peer that handles them in order and has the room buffers exactly its bytes.
    Then the credit of the first window update, which exceeds the room of the
    reader. *)

From Stdlib Require Import ZArith Lia ZifyBool String.
From stdpp Require Import base tactics option list gmap strings numbers pretty.
From S2P Require Import Prelude Errors Limits Varint Wire Identifiers ProtoCodec FieldCodec Protocol Signing Clock.
From S2P Require Import SessionChannels PairingProtocol GatewayAddress GatewayPolicy PeerSession Effects ByteStream ByteStreamInvariant ByteStreamFrames ByteStreamRuns.
Import Wire ProtoCodec Signing PairingProtocol GatewayPolicy Effects ByteStream.
#[local] Open Scope Z_scope.
#[local] Open Scope effect_scope.

(** ** Pieces *)

Fixpoint pieces (fuel k : nat) (bytes : list Z) : list (list Z) :=
  match fuel, bytes with
  | S fuel, _ :: _ => take k bytes :: pieces fuel k (drop k bytes)
  | _, _ => []
  end.

(** The DATA frames that carry the pieces from the offset [o] on. *)
Fixpoint data_frames (channel : Z) (id : list Z) (o : Z) (ps : list (list Z)) : list (FrameClass * Frame) :=
  match ps with
  | [] => []
  | p :: ps =>
      (FrameClass.bulk, mkFrame (frame_type_value stream_data) 0 channel (repeat 0 16) (data_bytes id o p))
      :: data_frames channel id (u64 (o + zlen p)) ps
  end.

Lemma pieces_fuel k n m bytes : (1 <= k)%nat -> (length bytes <= n)%nat -> (length bytes <= m)%nat ->
  pieces n k bytes = pieces m k bytes.
Proof.
  intros Hk. revert m bytes. induction n as [| n IH]; intros [| m] [| b bytes] Hn Hm; try done; cbn in Hn, Hm; try lia.
  cbn. f_equal. apply IH; rewrite length_drop; cbn; lia.
Qed.

Lemma pieces_concat k n bytes : (1 <= k)%nat -> (length bytes <= n)%nat -> concat (pieces n k bytes) = bytes.
Proof.
  intros Hk. revert bytes. induction n as [| n IH]; intros [| b bytes] Hn; try done; [cbn in Hn; lia |].
  cbn [pieces concat]. rewrite IH, take_drop; [done |]. rewrite length_drop. cbn in *. lia.
Qed.

Lemma pieces_sizes k n bytes : (1 <= k)%nat -> Forall (fun p => 1 <= zlen p <= Z.of_nat k) (pieces n k bytes).
Proof.
  intros Hk. revert bytes. induction n as [| n IH]; intros [| b bytes]; cbn; try done.
  constructor; [| apply IH]. rewrite zlen_take, zlen_cons. assert (H := zlen_nonneg bytes). lia.
Qed.

(** The first piece of what follows an offset. *)
Lemma next_piece k o bytes : (1 <= k)%nat -> 0 <= o < zlen bytes ->
  let rest := drop (Z.to_nat o) bytes in
  let chunk := Z.min (Z.of_nat k) (zlen rest) in
  exists ps, pieces (length rest) k rest = take k rest :: ps /\
    ps = pieces (length (drop k rest)) k (drop k rest) /\
    subspan o chunk bytes = take k rest /\ drop k rest = drop (Z.to_nat (o + chunk)) bytes /\
    zlen (take k rest) = chunk.
Proof.
  intros Hk Ho rest chunk. assert (Hrest : zlen rest = zlen bytes - o) by (unfold rest; rewrite zlen_drop; lia).
  assert (Hchunk : Z.to_nat chunk = (k `min` length rest)%nat) by (unfold chunk, zlen; lia).
  exists (pieces (length (drop k rest)) k (drop k rest)). split_and!; [| done | | |].
  - destruct rest as [| x rest']; [unfold zlen in *; cbn in *; lia |]. cbn [length pieces]. f_equal.
    apply pieces_fuel; [done | rewrite length_drop; cbn; lia | done].
  - unfold subspan. fold rest. rewrite Hchunk.
    destruct (Nat.min_spec k (length rest)) as [[? ->] | [? ->]]; [done | by rewrite !take_ge by lia].
  - rewrite Z2Nat.inj_add by (unfold chunk, zlen; lia). rewrite <- drop_drop. fold rest. rewrite Hchunk.
    destruct (Nat.min_spec k (length rest)) as [[? ->] | [? ->]]; [done | by rewrite !drop_ge by lia].
  - rewrite zlen_take. unfold chunk. lia.
Qed.

(** ** Deadlines that have not passed *)

Section idle.
Context {E : Type} `{!StreamSession E}.
Implicit Types s : ByteStreamService E.

Definition handle_idle (now : Z) (h : ByteStreamHandle) : Prop :=
  Forall (fun r => expired now (read_deadline r) = false) (reads_ h) /\
  Forall (fun w => expired now (write_deadline w) = false) (writes_ h) /\
  dial_expired now h = false.

(** No read, write or dial of a stream has passed its deadline at [now]. *)
Definition idle_at (now : Z) s : Prop :=
  forall id a h, streams_ s !! id = Some a -> heap_ s !! a = Some h -> handle_idle now h.

Definition idle s : Prop := idle_at (stream_now (session_ s)) s.

Lemma filter_none {A} (f : A -> bool) l : Forall (fun x => f x = false) l ->
  List.filter f l = [] /\ List.filter (fun x => negb (f x)) l = l.
Proof. induction 1 as [| x l Hx _ [IH1 IH2]]; [done |]. cbn. rewrite Hx, IH1. cbn. by rewrite IH2. Qed.

Lemma sweep_stream_idle s a h now :
  heap_ s !! a = Some h -> handle_idle now h -> sweep_stream now a s = Some (tt, s).
Proof.
  intros Ha (Hr & Hw & _). apply filter_none in Hr as [R1 R2], Hw as [W1 W2].
  unfold sweep_stream, bind at 1, handle. rewrite Ha, R1, W1. cbn. unfold update, bind, handle. rewrite Ha.
  rewrite R2, W2. unfold set_handle, modify. do 2 f_equal. rewrite insert_id; [by destruct s |].
  rewrite Ha. by destruct h.
Qed.

Lemma sweep_idle s now l :
  Forall (fun '(_, a) => exists h, heap_ s !! a = Some h /\ handle_idle now h) l -> sweep now l s = Some ([], s).
Proof.
  induction 1 as [| [id a] l (h & Ha & Hi) _ IH]; [done |]. cbn [sweep]. unfold bind at 1, handle. rewrite Ha.
  unfold bind at 1. rewrite (sweep_stream_idle s a h) by done. unfold bind. rewrite IH.
  destruct Hi as (_ & _ & ->). done.
Qed.

Lemma deadlines_idle s :
  (forall id a, streams_ s !! id = Some a -> is_Some (heap_ s !! a)) -> idle s -> check_deadlines s = Some (tt, s).
Proof.
  intros Hl Hi. unfold check_deadlines, get, bind at 1 2 3. rewrite sweep_idle; [done |].
  apply list.Forall_forall. intros [id a] Hin%elem_of_iterate. destruct (Hl id a Hin) as [h Ha]. exists h. eauto.
Qed.

End idle.

(** ** The sender *)

Section sender.
Context {E : Type} `{!StreamSession E} `{!LawfulSession E}.
Abbreviation Service := (ByteStreamService (Recorded E)).
Implicit Types s : Service.

(** The session takes the frames one after the other, and is [e'] after them. *)
Fixpoint takes (e : E) (channel : Z) (frames : list (FrameClass * Frame)) (e' : E) : Prop :=
  match frames with
  | [] => e' = e
  | (klass, f) :: frames =>
      exists e1, session_send_frame e channel klass f = Some (success tt, e1) /\ takes e1 channel frames e'
  end.

(** The handle once [n] bytes in [m] frames have been sent. *)
Definition drained (h : ByteStreamHandle) (n m : Z) : ByteStreamHandle :=
  {| h with send_credit_bytes_ := send_credit_bytes_ h - n; send_credit_frames_ := send_credit_frames_ h - m;
            next_send_offset_ := u64 (next_send_offset_ h + n); writes_ := [] |}.

Lemma send_taken s channel t bytes klass e :
  session_send_frame (inner (session_ s)) channel klass
    (mkFrame (frame_type_value t) 0 channel (repeat 0 16) bytes) = Some (success tt, e) ->
  send_stream_frame channel t bytes klass s = Some (success tt, {| s with session_ := mkRecorded e
    (sent (session_ s) ++ [(klass, mkFrame (frame_type_value t) 0 channel (repeat 0 16) bytes)]) |}).
Proof.
  intros He. unfold send_stream_frame, session_call. cbn -[frame_type_value repeat]. by rewrite He.
Qed.

Lemma pump_sends fuel s a h w e :
  1 <= max_data_chunk_bytes (limits_ s) < 2 ^ 32 ->
  heap_ s !! a = Some h -> writes_ h = [w] -> fin_after w = false -> 0 <= offset w <= zlen (data w) ->
  is_u64 (next_send_offset_ h) ->
  let rest := drop (Z.to_nat (offset w)) (data w) in
  let ps := pieces (length rest) (Z.to_nat (max_data_chunk_bytes (limits_ s))) rest in
  let frames := data_frames (stream_channel_ h) (id_ h) (next_send_offset_ h) ps in
  zlen rest <= send_credit_bytes_ h -> zlen ps <= send_credit_frames_ h -> (length rest < fuel)%nat ->
  takes (inner (session_ s)) (stream_channel_ h) frames e ->
  pump_loop fuel a s = Some (tt, moved {| s with session_ := mkRecorded e (sent (session_ s) ++ frames) |} a
      (drained h (zlen rest) (zlen ps))
      [WriteDone a (write_handler w) (data w) (mkIo (zlen (data w)) None)] (streams_ s)).
Proof.
  revert s h w. induction fuel as [| fuel IH]; intros s h w Hmax Ha Hw Hfin Hoff Hnext rest ps frames Hb Hf Hfuel Htk; [lia |].
  assert (Hrest : zlen rest = zlen (data w) - offset w) by (unfold rest; rewrite zlen_drop; lia).
  cbn [pump_loop]. unfold bind at 1, handle. rewrite Ha, Hw.
  destruct (Z.ltb_spec (offset w) (zlen (data w))) as [Hlt | Hge].
  - destruct (next_piece (Z.to_nat (max_data_chunk_bytes (limits_ s))) (offset w) (data w))
      as (qs & Hps & Hqs & Hpiece & Hdrop & Hzp); [lia | lia |]. fold rest in Hps, Hqs, Hpiece, Hdrop, Hzp. fold ps in Hps.
    rewrite Z2Nat.id in Hpiece, Hdrop, Hzp by lia. rewrite Hps, zlen_cons in Hf. assert (Hq0 := zlen_nonneg qs).
    destruct (Z.eqb_spec (send_credit_bytes_ h) 0) as [| _]; [lia |].
    destruct (Z.eqb_spec (send_credit_frames_ h) 0) as [| _]; [lia |]. cbn [orb].
    unfold bind at 1, get. cbn beta iota zeta. set (chunk := Z.min _ _).
    assert (Hchunk : chunk = Z.min (max_data_chunk_bytes (limits_ s)) (zlen rest)) by (unfold chunk; lia).
    rewrite <- Hchunk in Hpiece, Hdrop, Hzp. assert (Hc : 1 <= chunk <= zlen rest /\ chunk < 2 ^ 32) by lia.
    clearbody chunk. set (p := take _ rest) in *.
    rewrite Hpiece, data_payload_bytes by lia. 
    unfold frames in Htk. rewrite Hps in Htk. cbn [data_frames takes] in Htk. destruct Htk as (e1 & He1 & Htk).
    unfold bind at 1. rewrite (send_taken s _ _ _ _ e1 He1). set (s1 := {| s with session_ := _ |}). unfold bind at 1. rewrite set_handle_moved.
    set (h1 := chunk_sent h w [] chunk). set (s2 := moved s1 a h1 [] _).
    assert (Hrun := IH s2 h1 {| w with offset := offset w + chunk |}). etrans; [apply Hrun; try done |]; clear IH Hrun.
    + apply lookup_insert_eq.
    + cbn. lia.
    + by apply Z.mod_pos_bound.
    + cbn. rewrite zlen_drop. lia.
    + cbn. rewrite <- Hdrop, <- Hqs. lia.
    + cbn. rewrite length_drop. unfold zlen in *. lia.
    + cbn. rewrite <- Hdrop, <- Hqs, <- Hzp. exact Htk.
    + unfold frames. cbn [data offset write_handler limits_ moved s1 s2]. rewrite <- Hdrop, <- Hqs.
      assert (Hz : zlen (drop (Z.to_nat (max_data_chunk_bytes (limits_ s))) rest) = zlen rest - chunk)
        by (rewrite zlen_drop; lia).
      rewrite Hz, Hps, zlen_cons. unfold moved, s2, s1, moved. cbn. rewrite insert_insert_eq, app_nil_r, <- app_assoc.
      do 2 f_equal. f_equal.
      * cbn. by rewrite Hzp.
      * f_equal. unfold drained, h1, chunk_sent. cbn. f_equal; [rewrite u64_sum_l; f_equal; lia | lia | lia].
  - assert (Hnil : rest = []) by (unfold rest; apply drop_ge; unfold zlen in *; lia).
    unfold frames in *. unfold ps in *. rewrite Hnil in *. cbn [length pieces data_frames takes] in *. subst e.
    unfold complete_write, bind at 1. rewrite (emit_moved s a h) by done.
    unfold bind at 1. rewrite set_handle_moved, moved_moved. rewrite Hfin.
    destruct fuel as [| fuel]; cbn [pump_loop]; unfold bind, handle; cbn [heap_ moved]; rewrite lookup_insert_eq;
      cbn [writes_]; unfold ret; do 2 f_equal; unfold moved; cbn; rewrite app_nil_r;
      (f_equal; [by destruct (session_ s) |]); f_equal; unfold drained; cbn;
      rewrite !Z.sub_0_r, Z.add_0_r, u64_small by done; by destruct h.
Qed.

Lemma write_sends s a h bytes handler deadline e :
  good no_gap s -> heap_ s !! a = Some h -> state_ h = StreamState.open -> fin_sent_ h = false -> writes_ h = [] ->
  1 <= zlen bytes <= pending_write_bytes (limits_ s) ->
  let ps := pieces (length bytes) (Z.to_nat (max_data_chunk_bytes (limits_ s))) bytes in
  let frames := data_frames (stream_channel_ h) (id_ h) (next_send_offset_ h) ps in
  zlen bytes <= send_credit_bytes_ h -> zlen ps <= send_credit_frames_ h ->
  takes (inner (session_ s)) (stream_channel_ h) frames e -> idle_at (stream_now e) s ->
  async_write a bytes handler deadline s =
    Some (tt, moved {| s with session_ := mkRecorded e (sent (session_ s) ++ frames) |} a
      (drained h (zlen bytes) (zlen ps)) [WriteDone a handler bytes (mkIo (zlen bytes) None)] (streams_ s)).
Proof.
  intros Hg Ha Hst Hfin Hw Hlen ps frames Hcb Hcf Htk Hi.
  destruct (good_heap _ _ Hg a h Ha) as (_ & Hat & Hok). destruct (good_attached _ _ Hg Hat) as [Hl _].
  destruct (chunk_ok _ Hl) as [K1 K2]. destruct Hok. destruct (writes_ok _ Hl) as [W1 _].
  assert (Hnext : is_u64 (next_send_offset_ h)) by (rewrite ok_next_send; by apply Z.mod_pos_bound).
  assert (Hend : is_ended (state_ h) = false) by (by rewrite Hst).
  set (w := mkWrite bytes 0 handler deadline false). set (h1 := {| h with writes_ := [w] |}).
  set (s1 := moved s a h1 [] (streams_ s)).
  opose proof (pump_sends (pump_fuel h1) s1 a h1 w e _ _ _ _ _ _ _ _ _ _) as Hpump; try done.
  { cbn. lia. } { apply lookup_insert_eq. } { cbn. lia. } { unfold pump_fuel. cbn. rewrite length_drop. lia. }
  cbn [data offset w limits_ s1 moved Z.to_nat drop] in Hpump. fold ps in Hpump.
  match type of Hpump with _ = Some (_, ?x) => set (s' := x) in * end.
  assert (Hpw : pump_writes a s1 = Some (tt, s')).
  { unfold pump_writes, bind, handle. assert (H1 : heap_ s1 !! a = Some h1) by apply lookup_insert_eq. rewrite H1.
    change (state_ h1) with (state_ h). by rewrite Hend. }
  assert (Hrun : async_write a bytes handler deadline s = Some (tt, s')).
  { unfold async_write, bind at 1, handle at 1. rewrite Ha, Hend.
    assert (fin_sent_ h || bool_decide (state_ h = StreamState.half_closed_local) = false) as ->
      by (rewrite Hfin, bool_decide_false by congruence; done).
    rewrite Hw. destruct (Z.eqb_spec (zlen bytes) 0) as [| _]; [lia |].
    unfold pending_bytes. rewrite Hw. cbn [map foldr].
    destruct (Z.ltb_spec (max_pending_write_bytes_ h) (0 + zlen bytes)) as [| _]; [destruct ok_backlog; lia |].
    destruct (Z.leb_spec (max_pending_writes_ h) (zlen ([] : list PendingWrite))) as [Hle | _];
      [destruct ok_writes as [_ Hmw]; unfold zlen in Hle; cbn in Hle; lia |].
    cbn [app]. unfold bind at 1. rewrite set_handle_moved. unfold bind.
    match goal with |- context [pump_writes a ?x] => change x with s1 end. rewrite Hpw. apply deadlines_idle.
    - intros id c Hc. cbn [heap_ s' moved]. destruct (decide (c = a)) as [-> | Hne].
      + rewrite lookup_insert_eq. by eexists.
      + rewrite lookup_insert_ne by done. cbn [heap_ s1 moved]. rewrite lookup_insert_ne by done.
        destruct (good_streams _ _ Hg id c Hc) as (hc & Hhc & _). by eexists.
    - intros id c hc Hc Hh. cbn [session_ s' moved stream_now recorded_session inner].
      cbn [heap_ s' moved] in Hh. destruct (decide (c = a)) as [-> | Hne].
      + rewrite lookup_insert_eq in Hh. injection Hh as <-. destruct (Hi id a h Hc Ha) as (I1 & I2 & I3).
        split_and!; [exact I1 | constructor | exact I3].
      + rewrite lookup_insert_ne in Hh by done. cbn [heap_ s1 moved] in Hh. rewrite lookup_insert_ne in Hh by done.
        exact (Hi id c hc Hc Hh). }
  rewrite Hrun. unfold s', moved. cbn. by rewrite insert_insert_eq, app_nil_r.
Qed.

End sender.

(** ** The receiver *)

Section receiver.
Context {E : Type} `{!StreamSession E} `{!LawfulSession E}.
Abbreviation Service := (ByteStreamService (Recorded E)).
Implicit Types s : Service.

(** The stream [b] with the handle [h] waits for the byte [o] with room for [n]
    bytes in [m] frames. *)
Record ready s (b : Z) (h : ByteStreamHandle) (o n m : Z) : Prop := {
  ready_stream : streams_ s !! id_ h = Some b;
  ready_heap : heap_ s !! b = Some h;
  ready_live : is_ended (state_ h) = false;
  ready_reads : reads_ h = [];
  ready_fin : fin_received_ h = false;
  ready_prelude : gateway_initiator_ h && gateway_prelude_pending_ h = false;
  ready_next : next_receive_offset_ h = o;
  ready_room : n <= receive_window_remaining_bytes_ h /\ m <= receive_window_remaining_frames_ h;
}.

(** The handle with one more piece. *)
Definition buffered (h : ByteStreamHandle) (p : list Z) : ByteStreamHandle :=
  {| (charge_data h (zlen p)) with receive_buffered_bytes_ := u64 (receive_buffered_bytes_ h + zlen p);
                                   receive_chunks_ := receive_chunks_ h ++ [p] |}.

Lemma piece_arrives s b h channel o n m p :
  ready s b h o (zlen p + n) (1 + m) -> 1 <= zlen p < 2 ^ 32 -> 0 <= m -> 0 <= n -> is_u64 o ->
  sized 16 (id_ h) -> all_zero (id_ h) = false ->
  (forall id a, streams_ s !! id = Some a -> is_Some (heap_ s !! a)) -> idle s ->
  handle_frame (mkFrame (frame_type_value stream_data) 0 channel (repeat 0 16) (data_bytes (id_ h) o p)) s
  = Some (tt, moved s b (buffered h p) [] (streams_ s)).
Proof.
  intros [R1 R2 R3 R4 R5 R6 R7 [R8 R9]] Hp Hm Hn Ho Hid Hz Hl Hi.
  unfold handle_frame, admit_frame, bind at 1 2. rewrite deadlines_idle by done.
  cbn [type SessionChannels.frame_type_of]. change (SessionChannels.frame_type_of (frame_type_value stream_data)) with (Some stream_data).
  cbn iota. assert (handle_data (mkFrame (frame_type_value stream_data) 0 channel (repeat 0 16) (data_bytes (id_ h) o p)) s
    = Some (tt, moved s b (buffered h p) [] (streams_ s))) as Hd; [| unfold bind; by rewrite Hd].
  destruct (read_data_bytes (id_ h) o p) as (P1 & P2 & P3 & P4 & P5); try done; [split; lia |].
  unfold handle_data. cbn [payload]. rewrite P1. unfold known_stream, get, bind at 1. rewrite R1.
  unfold bind at 1, handle at 1. rewrite R2, R3, P2, P3, P4, P5, Z.eqb_refl, R7, Z.ltb_irrefl. cbn [negb].
  destruct (Z.ltb_spec (receive_window_remaining_bytes_ h) (zlen p)) as [| _]; [lia |].
  destruct (Z.eqb_spec (receive_window_remaining_frames_ h) 0) as [| _]; [lia |]. cbn [orb].
  unfold bind at 1. rewrite set_handle_moved. set (s1 := moved s b _ _ _).
  assert (H1 : heap_ s1 !! b = Some (charge_data h (zlen p))) by apply lookup_insert_eq.
  unfold bind at 1, receive_prelude, bind at 1, handle at 1. rewrite H1.
  change (gateway_initiator_ (charge_data h (zlen p)) && gateway_prelude_pending_ (charge_data h (zlen p)))
    with (gateway_initiator_ h && gateway_prelude_pending_ h). rewrite R6. cbn [negb ret].
  unfold deliver_data, bind at 1. rewrite (update_moved s1 b _ _ H1).
  destruct (Z.eqb_spec (zlen p) 0) as [| _]; [lia |]. unfold s1. rewrite moved_moved. cbn [app].
  set (s2 := moved s b _ _ _).
  assert (H2 : heap_ s2 !! b = Some (buffered h p)) by apply lookup_insert_eq.
  unfold try_dispatch_reads, bind at 1 2, handle at 1. rewrite H2.
  change (reads_ (buffered h p)) with (reads_ h). rewrite R4. cbn [length dispatch_loop]. unfold bind at 1, handle at 1.
  rewrite H2. change (reads_ (buffered h p)) with (reads_ h). rewrite R4. cbn [ret].
  unfold bind, handle. rewrite H2. change (fin_received_ (buffered h p)) with (fin_received_ h). by rewrite R5.
Qed.

Lemma pieces_arrive channel ps : forall s b h o,
  ready s b h o (zlen (concat ps)) (zlen ps) -> Forall (fun p => 1 <= zlen p < 2 ^ 32) ps -> is_u64 o ->
  sized 16 (id_ h) -> all_zero (id_ h) = false ->
  (forall id a, streams_ s !! id = Some a -> is_Some (heap_ s !! a)) -> idle s ->
  exists h', each (fun '(_, f) => handle_frame f) (data_frames channel (id_ h) o ps) s
             = Some (tt, moved s b h' [] (streams_ s)) /\
    concat (receive_chunks_ h') = concat (receive_chunks_ h) ++ concat ps /\
    next_receive_offset_ h' = u64 (o + zlen (concat ps)) /\ reads_ h' = reads_ h.
Proof.
  induction ps as [| p ps IH]; intros s b h o Hr Hp Ho Hid Hz Hl Hi.
  - exists h. cbn. destruct Hr. rewrite moved_same, app_nil_r, Z.add_0_r, u64_small by done. done.
  - apply Forall_cons_1 in Hp as [Hp Hps]. cbn [concat] in *. rewrite zlen_app, zlen_cons in Hr.
    assert (Hn1 := zlen_nonneg (concat ps)). assert (Hn2 := zlen_nonneg ps). cbn [data_frames each].
    unfold bind at 1. rewrite (piece_arrives s b h channel o (zlen (concat ps)) (zlen ps) p) by done.
    set (s1 := moved s b (buffered h p) [] (streams_ s)). destruct Hr as [R1 R2 R3 R4 R5 R6 R7 [R8 R9]].
    destruct (IH s1 b (buffered h p) (u64 (o + zlen p))) as (h' & Hrun & Hch & Hnx & Hrd); try done.
    + split; try done; [apply lookup_insert_eq | cbn; by rewrite R7 | cbn; lia].
    + by apply Z.mod_pos_bound.
    + intros id a Ha. unfold s1. cbn [heap_ moved]. destruct (decide (a = b)) as [-> | Hne].
      * rewrite lookup_insert_eq. by eexists.
      * rewrite lookup_insert_ne by done. by apply (Hl id).
    + intros id a h2 Ha Hh. unfold s1 in Hh. cbn [heap_ moved] in Hh. destruct (decide (a = b)) as [-> | Hne].
      * rewrite lookup_insert_eq in Hh. injection Hh as <-. exact (Hi _ _ _ R1 R2).
      * rewrite lookup_insert_ne in Hh by done. exact (Hi _ _ _ Ha Hh).
    + exists h'. split_and!.
      * etrans; [exact Hrun |]. unfold s1. by rewrite moved_moved.
      * rewrite Hch. cbn. rewrite concat_app. cbn. by rewrite app_nil_r, <- app_assoc.
      * rewrite Hnx, u64_sum_l, zlen_app. f_equal. lia.
      * exact Hrd.
Qed.

End receiver.

(** ** Both *)

Section transfer.
Context {E1 : Type} `{!StreamSession E1} `{!LawfulSession E1}.
Context {E2 : Type} `{!StreamSession E2} `{!LawfulSession E2}.

(** C15. A write is carried over. The sender's stream is open, has no other write and
    has sent no FIN; the write is within its byte and frame credit and its backlog;
    and the session takes the DATA frames of the write one after the other, which is
    what a session with room in its queue does. No deadline of either service has
    passed. Then the write is sent at once and reported complete, the frames are the
    pieces of the write in order, and a peer that handles them in that order, whose
    stream of that id waits for the next byte, has the room, has no read pending and
    no gateway prelude to receive, ends with exactly these bytes appended to its
    buffer and both offsets in step. *)
Theorem stream_transfer (sA : ByteStreamService (Recorded E1)) (sB : ByteStreamService (Recorded E2))
    a h b hb bytes handler deadline eA :
  reached sA -> reached sB ->
  heap_ sA !! a = Some h -> state_ h = StreamState.open -> fin_sent_ h = false -> writes_ h = [] ->
  1 <= zlen bytes <= pending_write_bytes (limits_ sA) ->
  let ps := pieces (length bytes) (Z.to_nat (max_data_chunk_bytes (limits_ sA))) bytes in
  let frames := data_frames (stream_channel_ h) (id_ h) (next_send_offset_ h) ps in
  zlen bytes <= send_credit_bytes_ h -> zlen ps <= send_credit_frames_ h ->
  takes (inner (session_ sA)) (stream_channel_ h) frames eA -> idle_at (stream_now eA) sA ->
  ready sB b hb (next_send_offset_ h) (zlen bytes) (zlen ps) -> id_ hb = id_ h -> idle sB ->
  exists sA' sB' h' hb',
    async_write a bytes handler deadline sA = Some (tt, sA') /\
    session_ sA' = mkRecorded eA (sent (session_ sA) ++ frames) /\
    log_ sA' = log_ sA ++ [WriteDone a handler bytes (mkIo (zlen bytes) None)] /\
    each (fun '(_, f) => handle_frame f) frames sB = Some (tt, sB') /\
    heap_ sA' !! a = Some h' /\ heap_ sB' !! b = Some hb' /\
    concat (receive_chunks_ hb') = concat (receive_chunks_ hb) ++ bytes /\
    next_receive_offset_ hb' = next_send_offset_ h'.
Proof.
  intros HA HB Ha Hst Hfin Hw Hlen ps frames Hcb Hcf Htk HiA Hr Hid HiB. apply reached_good in HA, HB.
  destruct (good_heap _ _ HA a h Ha) as (_ & Hat & Hok). destruct (good_attached _ _ HA Hat) as [Hl _].
  destruct (chunk_ok _ Hl) as [K1 K2]. destruct Hok.
  assert (Hk : (1 <= Z.to_nat (max_data_chunk_bytes (limits_ sA)))%nat) by lia.
  assert (Hnext : is_u64 (next_send_offset_ h)) by (rewrite ok_next_send; by apply Z.mod_pos_bound).
  assert (Hrun := write_sends sA a h bytes handler deadline eA HA Ha Hst Hfin Hw Hlen Hcb Hcf Htk HiA).
  assert (Hconcat : concat ps = bytes) by (by apply pieces_concat).
  destruct (pieces_arrive (stream_channel_ h) ps sB b hb (next_send_offset_ h)) as (hb' & Hrecv & Hch & Hnx & _); try done.
  { by rewrite Hconcat. }
  { eapply list.Forall_impl; [by apply pieces_sizes |]. cbn. intros p Hp. lia. }
  { rewrite Hid. apply ok_id. } { rewrite Hid. apply ok_id. }
  { intros id c Hc. destruct (good_streams _ _ HB id c Hc) as (hc & Hhc & _). by eexists. }
  rewrite Hconcat in Hch, Hnx. rewrite Hid in Hrecv.
  do 2 eexists. exists (drained h (zlen bytes) (zlen ps)), hb'. split_and!; [exact Hrun | done | done | exact Hrecv | | | done | done].
  - apply lookup_insert_eq.
  - apply lookup_insert_eq.
Qed.

End transfer.

(** ** The frame credit of the first window update *)

Section credit.
Context {E1 : Type} `{!StreamSession E1}.
Context {E2 : Type} `{!StreamSession E2}.



(** A frame at the right offset that finds no frame left in the window resets the stream. *)
Lemma frame_window_exceeded (s : ByteStreamService (Recorded E1)) b h channel p :
  streams_ s !! id_ h = Some b -> heap_ s !! b = Some h -> is_ended (state_ h) = false -> fin_received_ h = false ->
  sized 16 (id_ h) -> all_zero (id_ h) = false -> 1 <= zlen p < 2 ^ 32 -> is_u64 (next_receive_offset_ h) ->
  receive_window_remaining_frames_ h = 0 ->
  handle_data (mkFrame (frame_type_value stream_data) 0 channel (repeat 0 16) (data_bytes (id_ h) (next_receive_offset_ h) p)) s
    = handle_reset_frame_for b StableStatus.resource_exhausted s.
Proof.
  intros R1 R2 R3 R5 Hid Hz Hp Ho Hrem.
  destruct (read_data_bytes (id_ h) (next_receive_offset_ h) p) as (P1 & P2 & P3 & P4 & P5); try done; [split; lia |].
  unfold handle_data. cbn [payload]. rewrite P1. unfold known_stream, get, bind at 1. rewrite R1.
  unfold bind at 1, handle at 1. rewrite R2, R3, P2, P3, P4, P5, Z.eqb_refl, Z.ltb_irrefl, Hrem. cbn [negb].
  by rewrite orb_true_r.
Qed.

End credit.
