(* ===== verification/ServiceSession.v ===== *)
(** * The session below a service

    What the services for messages and calls need of the session below them: a
    channel of their domain, frames, limits and the clock. [Recorded] is a session
    that writes down the frames it took and the readings of the clock;
    [LawfulService] says what the theorems about the services rely on, which the
    session of [PeerSession] is shown to keep in [PeerSessionServices]. *)

From Stdlib Require Import ZArith Lia String.
From stdpp Require Import base tactics option list gmap.
From S2P Require Import Prelude Errors Limits Wire SessionChannels PeerSession.
Import Wire.
#[local] Open Scope Z_scope.

(** The operations are partial as those of [PeerSession] are. *)
Class ServiceSession (E : Type) : Type := {
  session_send_frame : E -> Z -> FrameClass -> Frame -> option (Result unit * E);
  session_open_channel : E -> ChannelDomain -> QueueFullPolicy -> Z -> Z -> option (Result Z * E);
  session_adopt_channel : E -> Z -> ChannelDomain -> QueueFullPolicy -> Z -> Z -> option (Result Z * E);
  session_has_channel : E -> Z -> bool;
  session_close_channel : E -> Z -> option E;
  session_fail_channel : E -> Z -> CloseReason -> option E;
  session_domain_handler : E -> ChannelDomain -> bool -> E;
  session_limits : E -> Limits;
  wall_clock : E -> Z * E;
}.

(** ** A session that is written down *)

Record Recorded (E : Type) : Type := mkRecorded {
  inner : E;
  sent : list (FrameClass * Frame);
  readings : list Z;
}.
Arguments mkRecorded {E}.
Arguments inner {E}.
Arguments sent {E}.
Arguments readings {E}.

Definition pass {E A} (f : E -> option (A * E)) (r : Recorded E) : option (A * Recorded E) :=
  match f (inner r) with
  | Some (a, e) => Some (a, {| r with inner := e |})
  | None => None
  end.
Definition pass_do {E} (f : E -> option E) (r : Recorded E) : option (Recorded E) :=
  match f (inner r) with
  | Some e => Some {| r with inner := e |}
  | None => None
  end.
(** A call that always returns. *)
Definition pass_total {E A} (f : E -> A * E) (r : Recorded E) : A * Recorded E :=
  let '(a, e) := f (inner r) in (a, {| r with inner := e |}).

#[export] Instance recorded_service {E} `{!ServiceSession E} : ServiceSession (Recorded E) := {
  session_send_frame r channel klass frame :=
    match session_send_frame (inner r) channel klass frame with
    | Some (success _, e) => Some (success tt, {| r with inner := e; sent := sent r ++ [(klass, frame)] |})
    | Some (failure x, e) => Some (failure x, {| r with inner := e |})
    | None => None
    end;
  session_open_channel r d p f b := pass (fun e => session_open_channel e d p f b) r;
  session_adopt_channel r c d p f b := pass (fun e => session_adopt_channel e c d p f b) r;
  session_has_channel r := session_has_channel (inner r);
  session_close_channel r c := pass_do (fun e => session_close_channel e c) r;
  session_fail_channel r c reason := pass_do (fun e => session_fail_channel e c reason) r;
  session_domain_handler r d on := {| r with inner := session_domain_handler (inner r) d on |};
  session_limits r := session_limits (inner r);
  wall_clock r := let '(t, e) := wall_clock (inner r) in (t, {| r with inner := e; readings := readings r ++ [t] |});
}.

(** What a service of the given domain relies on: the session returns from the calls
    the service makes, which reject frames on a full queue and send payloads with
    the given bound. Nothing is asked of the clock. *)
Class LawfulService (E : Type) `{ServiceSession E} (domain : ChannelDomain) (room : Limits -> Z) : Type := {
  session_ok : E -> Prop;
  send_ok e channel klass frame : session_ok e -> zlen (payload frame) <= room (session_limits e) ->
    exists r e', session_send_frame e channel klass frame = Some (r, e') /\ session_ok e';
  open_ok e frames bytes : session_ok e -> 0 <= frames -> 0 <= bytes ->
    exists r e', session_open_channel e domain QueueFullPolicy.reject frames bytes = Some (r, e') /\ session_ok e';
  adopt_ok e c frames bytes : session_ok e -> 0 <= frames -> 0 <= bytes ->
    exists r e', session_adopt_channel e c domain QueueFullPolicy.reject frames bytes = Some (r, e') /\ session_ok e';
  close_ok e c : session_ok e -> exists e', session_close_channel e c = Some e' /\ session_ok e';
  fail_ok e c r : session_ok e -> exists e', session_fail_channel e c r = Some e' /\ session_ok e';
  domain_ok e on : session_ok e -> session_ok (session_domain_handler e domain on);
  clock_ok e : session_ok e -> session_ok (snd (wall_clock e));
}.
