(* ===== verification/PeerSessionServices.v ===== *)
(** * What a peer session promises the services above it

    The services of the client open channels that reject frames on a full queue and
    send frames of bounded size. A session of [PeerSession] returns from every such
    call and stays able to, whatever the service: [peer_ok]. [room] bounds the
    payloads of the service, in terms of the limits of the session. *)

From Stdlib Require Import ZArith Lia ZifyBool String.
From stdpp Require Import base tactics option list gmap strings numbers pretty.
From S2P Require Import Prelude Errors Limits Varint Wire Identifiers ProtoCodec FieldCodec Protocol Signing Clock.
From S2P Require Import Operation FrameStream SessionChannels PairingProtocol PeerSession PeerSessionRuns ServiceSession.
Import Wire PeerSession.
#[local] Open Scope Z_scope.
#[local] Open Scope session_scope.

(** ** The channels keep their policies *)

(** No channel is new, and none has another policy. *)
Record tame (m m' : SessionChannels.Manager) : Prop := {
  tame_limits : SessionChannels.limits_ m' = SessionChannels.limits_ m;
  tame_policy : forall id c', SessionChannels.channels_ m' !! id = Some c' ->
    exists c, SessionChannels.channels_ m !! id = Some c /\ SessionChannels.policy c' = SessionChannels.policy c;
}.

#[export] Instance tame_preorder : PreOrder tame.
Proof.
  split.
  - intros m. split; [done |]. intros id c Hc. by exists c.
  - intros m1 m2 m3 [L1 P1] [L2 P2]. split; [congruence |]. intros id c Hc.
    destruct (P2 id c Hc) as (c2 & Hc2 & E2). destruct (P1 id c2 Hc2) as (c1 & Hc1 & E1). exists c1. split; [done | congruence].
Qed.

Lemma tame_same m m' : same_accounts m m' -> tame m m'.
Proof.
  intros H. split; [symmetry; apply (same_limits _ _ H) |]. intros id c' Hc'. assert (Hs := same_channels _ _ H id).
  rewrite Hc' in Hs. inversion Hs as [c ? Hq Hc |]; subst. exists c. split; [done |]. symmetry. apply Hq.
Qed.

(** Queues, tokens and counters do not matter. *)
Lemma tame_channels m m' :
  SessionChannels.limits_ m' = SessionChannels.limits_ m ->
  SessionChannels.channels_ m' = SessionChannels.channels_ m -> tame m m'.
Proof. intros Hl Hc. split; [done |]. rewrite Hc. eauto. Qed.

Lemma tame_insert m m' id c c' :
  SessionChannels.channels_ m !! id = Some c -> SessionChannels.policy c' = SessionChannels.policy c ->
  SessionChannels.limits_ m' = SessionChannels.limits_ m ->
  SessionChannels.channels_ m' = <[id := c']> (SessionChannels.channels_ m) -> tame m m'.
Proof.
  intros Hc Hp Hl Hm. split; [done |]. intros i x. rewrite Hm, lookup_insert_Some.
  intros [[<- <-] | [_ Hx]]; [by exists c | by exists x].
Qed.

Lemma tame_close m id : tame m (SessionChannels.close_channel m id).
Proof.
  unfold SessionChannels.close_channel. destruct (SessionChannels.channels_ m !! id) as [c |]; [| done].
  etransitivity; [apply tame_same, (complete_waiters_same m (SessionChannels.waiters c)) |].
  split; [done |]. intros i x Hx. cbn in Hx. apply lookup_delete_Some in Hx as [_ Hx]. by exists x.
Qed.

Lemma tame_uncharge m e size : tame m (SessionChannels.uncharge m e size).
Proof.
  unfold SessionChannels.uncharge. destruct (bool_decide _); [by apply tame_channels |].
  destruct (SessionChannels.channels_ m !! _) as [c |] eqn:Hc; [| by apply tame_channels].
  set (c' := SessionChannels.set_stats _ _). set (m1 := SessionChannels.set_channels m _).
  assert (H1 : tame m m1) by (by apply (tame_insert m m1 (SessionChannels.queued_channel_id e) c c')).
  transitivity m1; [done |]. cbv zeta. destruct (SessionChannels.waiters c'); [by apply tame_channels |].
  etransitivity; [apply tame_same, notify_capacity_same |]. by apply tame_channels.
Qed.

Lemma tame_pick ks m e m' : SessionChannels.pick m ks = Some (e, m') -> tame m m'.
Proof.
  revert m. induction ks as [| k ks IH]; intros m H; cbn [SessionChannels.pick] in H; [by simplify_eq |].
  destruct (SessionChannels.class_get k _) as [| q queue]; [by apply IH |]. destruct (_ =? 0); [by apply IH |].
  destruct (SessionChannels.frame_wire_size _ _); [| done]. injection H as <- <-.
  etransitivity; [| apply tame_uncharge]. by apply tame_channels.
Qed.

Lemma tame_next fuel m e m' : SessionChannels.next_to_send_fuel fuel m = Some (e, m') -> tame m m'.
Proof.
  revert m. induction fuel as [| fuel IH]; intros m H; cbn [SessionChannels.next_to_send_fuel] in H; [by simplify_eq |].
  destruct (SessionChannels.pick m _) as [[[q |] m1] |] eqn:Hp; [| | done]; apply tame_pick in Hp.
  - by injection H as <- <-.
  - destruct (negb _); [by injection H as <- <- |]. apply IH in H. etransitivity; [exact Hp |].
    etransitivity; [| exact H]. by apply tame_channels.
Qed.

Lemma tame_return m e m' : SessionChannels.return_to_send m e = Some m' -> tame m m'.
Proof.
  unfold SessionChannels.return_to_send. destruct (SessionChannels.frame_wire_size _ _); [| done]. intros [= <-].
  destruct (bool_decide _); [by apply tame_channels |].
  destruct (SessionChannels.channels_ m !! _) as [c |] eqn:Hc; [| by apply tame_channels].
  eapply (tame_insert m _ (SessionChannels.queued_channel_id e) c); [done | | done | reflexivity]. done.
Qed.

Lemma tame_push m id k f size receipt : tame m (snd (SessionChannels.push_business m id k f size receipt)).
Proof.
  unfold SessionChannels.push_business. destruct (SessionChannels.channels_ m !! id) as [c |] eqn:Hc; [| done].
  destruct (_ || _); (eapply (tame_insert m _ id c); [done | | done | reflexivity]; done).
Qed.

(** Every channel rejects frames when its queue is full. *)
Definition rejecting (m : SessionChannels.Manager) : Prop :=
  map_Forall (fun _ c => SessionChannels.policy c = QueueFullPolicy.reject) (SessionChannels.channels_ m).

Lemma tame_rejecting m m' : tame m m' -> rejecting m -> rejecting m'.
Proof. intros [_ Hp] Hr id c' Hc'. destruct (Hp id c' Hc') as (c & Hc & ->). by apply (Hr id). Qed.

Lemma tame_enqueue m id k f r m' : rejecting m -> SessionChannels.enqueue m id k f = Some (r, m') -> tame m m'.
Proof.
  intros Hr. unfold SessionChannels.enqueue. destruct (bool_decide _).
  { unfold SessionChannels.enqueue_control. destruct (_ <? _); [by intros [= <- <-] |].
    destruct (SessionChannels.frame_wire_size _ _); [| done]. destruct (_ <? _); intros [= <- <-]; [done |].
    by apply tame_channels. }
  destruct (SessionChannels.channels_ m !! id) as [c |] eqn:Hc; [| by intros [= <- <-]].
  destruct (negb _); [by intros [= <- <-] |]. unfold SessionChannels.enqueue_business.
  destruct (SessionChannels.frame_wire_size _ _) as [size |]; [| done]. cbv zeta.
  assert (Hp : SessionChannels.policy c = QueueFullPolicy.reject) by (by apply (Hr id)).
  assert (Hcount : tame m (SessionChannels.set_channels m (<[id := SessionChannels.set_stats c
    (SessionChannels.count_rejected (SessionChannels.stats c))]> (SessionChannels.channels_ m))))
    by (by apply (tame_insert m _ id c (SessionChannels.set_stats c (SessionChannels.count_rejected (SessionChannels.stats c))))).
  match goal with |- (if ?b then _ else _) = _ -> _ => destruct b end; [by intros [= <- <-] |].
  match goal with |- (if ?b then _ else _) = _ -> _ => destruct b end.
  - unfold SessionChannels.evict. rewrite Hp. by intros [= <- <-].
  - intros [= Heq]. assert (Ht := tame_push m id k f size (SessionChannels.mkReceipt false false 0)).
    by rewrite Heq in Ht.
Qed.

(** ** The operations of the session *)

Section steady.
Context {E H : Type} `{!SessionEnv E}.
Implicit Types s : PeerSession E H.

Definition steady s s' : Prop := config_ s' = config_ s /\ tame (channels_ s) (channels_ s').

#[export] Instance steady_preorder : PreOrder steady.
Proof.
  split; [intros s; by split |]. intros s1 s2 s3 [C1 T1] [C2 T2]. split; [congruence | by etransitivity].
Qed.

(** A step that leaves the configuration and the channels alone. *)
Lemma steady_aside s s' : config_ s' = config_ s -> channels_ s' = channels_ s -> steady s s'.
Proof. intros Hc Hm. split; [done |]. by rewrite Hm. Qed.

Lemma steady_modify (f : PeerSession E H -> PeerSession E H) :
  (forall s, config_ (f s) = config_ s /\ channels_ (f s) = channels_ s) -> within steady (modify f).
Proof. intros Hf s a s' [= <- <-]. by apply steady_aside; apply Hf. Qed.

Lemma steady_call {A} (f : E -> A * E) : within steady (call (H := H) f).
Proof. intros s a s'. unfold call. destruct (f (env_ s)). intros [= <- <-]. by apply steady_aside. Qed.

Lemma steady_record stage source reason : within steady (record (E := E) (H := H) stage source reason).
Proof.
  intros s a s'. unfold record. destruct (timeline_ s); [| by intros [= <- <-]].
  destruct (_ || _); [by intros [= <- <-] |]. destruct (Operation.transition _ _ _ _ _). intros [= <- <-]. by apply steady_aside.
Qed.

Lemma steady_fail e : within steady (fail (E := E) (H := H) e).
Proof.
  unfold fail. apply within_bind; [apply _ | by apply steady_modify |]. intros _.
  apply within_bind; [apply _ | apply steady_record |]. intros _. apply within_bind; [apply _ | apply within_get, _ |].
  intros t. destruct t; [apply steady_call | apply within_ret, _].
Qed.

Lemma steady_close_logical id : within steady (manage (E := E) (H := H) (fun m => SessionChannels.close_channel m id)).
Proof. intros s a s' [= <- <-]. split; [done | apply tame_close]. Qed.

Lemma steady_return queued : within steady (return_to_send (E := E) (H := H) queued).
Proof.
  intros s a s'. unfold return_to_send, manage_partial.
  destruct (SessionChannels.return_to_send (channels_ s) queued) as [m |] eqn:Hr; [| done]. intros [= <- <-].
  split; [done | by eapply tame_return].
Qed.

Lemma steady_next : within steady (manage_partial (E := E) (H := H) SessionChannels.next_to_send).
Proof.
  intros s a s'. unfold manage_partial. destruct (SessionChannels.next_to_send (channels_ s)) as [[e m] |] eqn:Hn; [| done].
  intros [= <- <-]. split; [done | by eapply tame_next].
Qed.

Lemma steady_pump_loop fuel : within steady (pump_loop (E := E) (H := H) fuel).
Proof.
  induction fuel as [| fuel IH]; cbn [pump_loop]; [apply within_ub |].
  apply within_bind; [apply _ | apply within_get, _ |]. intros b. destruct (negb b); [apply within_ret, _ |].
  apply within_bind; [apply _ | apply steady_next |]. intros [queued |]; [| apply within_ret, _]. cbv zeta.
  assert (Hclose : within steady (manage (E := E) (H := H) (fun m =>
    SessionChannels.close_channel m (SessionChannels.queued_channel_id queued)))) by apply steady_close_logical.
  destruct (route queued) as [find |]; [| by apply within_bind; [apply _ | |]].
  apply within_bind; [apply _ | apply within_get, _ |]. intros [channel |]; [| apply steady_return].
  apply within_bind; [apply _ | apply within_get, _ |]. intros l. destruct (encode_frame _ l) as [encoded | e].
  - apply within_bind; [apply _ | apply steady_call |]. intros [u | e]; [done |].
    destruct (bool_decide _); [apply steady_return |]. apply within_bind; [apply _ | done |]. intros _. apply steady_fail.
  - apply within_bind; [apply _ | done |]. intros _. apply steady_fail.
Qed.

Lemma steady_ensure domain : within steady (ensure_physical_channel (E := E) (H := H) domain).
Proof.
  unfold ensure_physical_channel. apply within_bind; [apply _ | apply within_get, _ |]. intros present.
  destruct present; [apply within_ret, _ |]. apply within_bind; [apply _ | apply within_get, _ |]. intros opening.
  destruct opening; [apply within_ret, _ |]. apply within_bind; [apply _ | apply within_get, _ |]. intros left.
  destruct left; [apply within_ret, _ |]. apply within_bind; [apply _ | by apply steady_modify |]. intros _. apply steady_call.
Qed.

(** [ensure_physical_channel] and [activate] return. *)
Lemma ensure_returns domain s : exists s', ensure_physical_channel domain s = Some (tt, s') /\ steady s s' /\
  channels_ s' = channels_ s.
Proof.
  assert (Hs := steady_ensure domain s tt). unfold ensure_physical_channel, bind, get in *.
  destruct (_ || _); [by exists s |]. destruct (bool_decide _); [by exists s |]. destruct (_ && _); [by exists s |].
  unfold modify, effect, call, ret in *. eexists. split; [done |]. split; [by apply Hs | done].
Qed.

End steady.

(** ** The calls of a service *)

Section promises.
Context {E H : Type} `{!SessionEnv E}.
Context (room : Limits -> Z).
Implicit Types s : PeerSession E H.

(** A session that keeps what a service needs. *)
Record peer_ok s : Prop := {
  peer_transport : transport (config_ s) = true;
  peer_manager : manager_wf (channels_ s);
  peer_rejecting : rejecting (channels_ s);
  peer_room : room (SessionChannels.limits_ (channels_ s)) + 64
              <= Z.min (max_frame_bytes (SessionChannels.limits_ (channels_ s))) u32_max;
}.

Lemma peer_ok_aside s s' : config_ s' = config_ s -> channels_ s' = channels_ s -> peer_ok s -> peer_ok s'.
Proof. intros Hc Hm []. by split; rewrite ?Hc, ?Hm. Qed.

Lemma peer_ok_steady s s' : steady s s' -> manager_wf (channels_ s') -> peer_ok s -> peer_ok s'.
Proof.
  intros [Hc Ht] Hwf []. split; [by rewrite Hc | done | by eapply tame_rejecting | by rewrite (tame_limits _ _ Ht)].
Qed.

Lemma varint_size_short v : varint_size v <= 11.
Proof.
  unfold varint_size. change 11 with (1 + Z.of_nat 10). generalize 1, 10%nat. intros size n. revert v size.
  induction n as [| n IH]; intros v size; cbn [varint_size_loop]; [lia |].
  destruct (128 <=? v); [specialize (IH (Z.shiftr v 7) (size + 1)) |]; lia.
Qed.

Lemma service_frame_sized s f :
  peer_ok s -> zlen (payload f) <= room (SessionChannels.limits_ (channels_ s)) ->
  is_Some (SessionChannels.frame_wire_size f (SessionChannels.limits_ (channels_ s))).
Proof.
  intros [_ _ _ Hroom] Hp. apply frame_wire_size_defined.
  assert (Hv := varint_size_short (channel_id f)). assert (Hn := zlen_nonneg (payload f)).
  unfold fixed_body_size, message_id_bytes, u32_max in *. lia.
Qed.

Lemma enqueue_returns m id klass f :
  manager_wf m -> rejecting m -> is_Some (SessionChannels.frame_wire_size f (SessionChannels.limits_ m)) ->
  exists r m', SessionChannels.enqueue m id klass f = Some (r, m') /\ manager_wf m'.
Proof.
  intros Hwf Hr Hs. unfold SessionChannels.enqueue. case_bool_decide as Hk; [subst; by apply enqueue_control_wf |].
  destruct (SessionChannels.channels_ m !! id) as [c |] eqn:Hc; [| by eexists _, _].
  destruct (negb _); [by eexists _, _ |]. apply enqueue_business_wf; try done. left. by apply (Hr id).
Qed.

Lemma send_returns s channel klass f :
  peer_ok s -> zlen (payload f) <= room (SessionChannels.limits_ (channels_ s)) ->
  exists r s', send_frame channel klass f s = Some (r, s') /\ peer_ok s'.
Proof.
  intros Hok Hp. unfold send_frame, bind at 1, get at 1. destruct (negb _); [by eexists _, s |].
  set (draw := if all_zero (message_id f) then call (fun e => random_nonzero e 16) else ret (message_id f)).
  assert (Hdraw : exists id s1, draw s = Some (id, s1) /\ peer_ok s1 /\ channels_ s1 = channels_ s).
  { unfold draw, call, ret. destruct (all_zero (message_id f)); [| by eexists _, s].
    destruct (random_nonzero (env_ s) 16). eexists _, _. split_and!; [done | by apply (peer_ok_aside s) | done]. }
  destruct Hdraw as (id & s1 & Hd & Hok1 & Hl1). unfold bind at 1. rewrite Hd. clear Hd draw. cbv zeta.
  set (frame := mkFrame _ _ _ _ _). unfold bind at 1.
  destruct (ensure_returns (default ChannelDomain.message (SessionChannels.frame_type_domain (type frame))) s1)
    as (s2 & -> & [C2 _] & M2). assert (Hok2 : peer_ok s2) by (by apply (peer_ok_aside s1)).
  unfold bind at 1, enqueue, manage_partial.
  destruct (enqueue_returns (channels_ s2) channel klass frame) as (r & m & Hq & Hwf);
    [apply Hok2 | apply Hok2 | apply service_frame_sized; [done |]; by rewrite M2, Hl1 |]. rewrite Hq.
  assert (Hok3 : peer_ok {| s2 with channels_ := m |}).
  { apply (peer_ok_steady s2); [| done | done]. split; [done |]. eapply tame_enqueue; [apply Hok2 | exact Hq]. }
  destruct r as [receipt |]; [| by eexists _, _]. set (s3 := {| s2 with channels_ := m |}) in *.
  destruct (pump_loop_stops (S (length (entries (channels_ s3)))) s3) as (s4 & Hp4 & Hwf4 & _);
    [apply Hok3 | apply Hok3 | lia |].
  assert (Hpump : pump s3 = Some (tt, s4)) by exact Hp4. unfold bind. rewrite Hpump. eexists _, s4. split; [done |].
  apply (peer_ok_steady s3); [| done | done]. by eapply steady_pump_loop.
Qed.

Lemma open_channel_rejecting m id d fc bc :
  rejecting m -> rejecting (snd (SessionChannels.open_channel m id d QueueFullPolicy.reject fc bc)).
Proof.
  intros Hr. unfold SessionChannels.open_channel. repeat (case_match; [done |]). cbn.
  by apply map_Forall_insert_2.
Qed.

Lemma open_channel_limits m id d p fc bc :
  SessionChannels.limits_ (snd (SessionChannels.open_channel m id d p fc bc)) = SessionChannels.limits_ m.
Proof. unfold SessionChannels.open_channel. by repeat case_match. Qed.

Lemma allocate_rejecting fuel candidate m d fc bc :
  rejecting m ->
  rejecting (snd (SessionChannels.allocate_loop fuel candidate m d QueueFullPolicy.reject fc bc)) /\
  SessionChannels.limits_ (snd (SessionChannels.allocate_loop fuel candidate m d QueueFullPolicy.reject fc bc))
    = SessionChannels.limits_ m.
Proof.
  revert candidate. induction fuel as [| fuel IH]; intros candidate Hr; cbn [SessionChannels.allocate_loop]; [done |].
  destruct (negb _); [done |]. destruct (bool_decide _); [by apply IH |].
  assert (H1 := open_channel_rejecting m candidate d fc bc Hr).
  assert (H2 := open_channel_limits m candidate d QueueFullPolicy.reject fc bc).
  destruct (SessionChannels.open_channel m candidate d QueueFullPolicy.reject fc bc) as [[] m']; done.
Qed.

Lemma open_returns s domain frames bytes handler :
  0 <= frames -> 0 <= bytes -> peer_ok s -> exists r s', open_business_channel domain QueueFullPolicy.reject frames bytes handler s = Some (r, s') /\
    peer_ok s'.
Proof.
  intros Hfc Hbc [Ht Hwf Hr Hl]. unfold open_business_channel, bind at 1 2, get at 1 2. destruct (_ || _); [by eexists _, s |].
  unfold bind at 1, get at 1. destruct (negb _); [by eexists _, s |]. unfold bind at 1, get at 1.
  unfold bind at 1, manage_result.
  set (allocated := SessionChannels.allocate_channel (channels_ s) _ _ _ _ _).
  assert (Hall : manager_wf (snd allocated) /\ rejecting (snd allocated) /\
    SessionChannels.limits_ (snd allocated) = SessionChannels.limits_ (channels_ s)).
  { unfold allocated, SessionChannels.allocate_channel. split; [by apply allocate_loop_wf | by apply allocate_rejecting]. }
  destruct allocated as [r m]. cbn in Hall. destruct Hall as (Hwf1 & Hr1 & Hl1).
  assert (Hok1 : peer_ok {| s with channels_ := m |}) by (split; cbn; [done | done | done | by rewrite Hl1]).
  destruct r as [id |]; [| by eexists _, _]. unfold bind at 1, emplace_handler, modify.
  match goal with |- exists r s', bind _ _ ?x = _ /\ _ => set (s2 := x) end.
  destruct (ensure_returns domain s2) as (s3 & He & [C3 _] & M3). unfold bind at 1. rewrite He.
  unfold bind, activate, diagnose, modify, ret. eexists _, _. split; [done |].
  apply (peer_ok_aside {| s with channels_ := m |}); [| | done]; cbn; [by rewrite C3 | by rewrite M3].
Qed.

Lemma adopt_returns s channel domain frames bytes handler :
  0 <= frames -> 0 <= bytes -> peer_ok s -> exists r s', adopt_business_channel channel domain QueueFullPolicy.reject frames bytes handler s = Some (r, s') /\
    peer_ok s'.
Proof.
  intros Hfc Hbc [Ht Hwf Hr Hl]. unfold adopt_business_channel, bind at 1, get. destruct (negb _); [by eexists _, s |].
  unfold bind at 1, manage_result.
  set (opened := SessionChannels.open_channel (channels_ s) _ _ _ _ _).
  assert (Hall : manager_wf (snd opened) /\ rejecting (snd opened) /\
    SessionChannels.limits_ (snd opened) = SessionChannels.limits_ (channels_ s)).
  { unfold opened. split_and!; [by apply open_channel_wf | by apply open_channel_rejecting | apply open_channel_limits]. }
  destruct opened as [r m]. cbn in Hall. destruct Hall as (Hwf1 & Hr1 & Hl1).
  assert (Hok1 : peer_ok {| s with channels_ := m |}) by (split; cbn; [done | done | done | by rewrite Hl1]).
  destruct r as [u |]; [| by eexists _, _]. unfold bind at 1, emplace_handler, modify.
  match goal with |- exists r s', bind _ _ ?x = _ /\ _ => set (s2 := x) end.
  destruct (ensure_returns domain s2) as (s3 & He & [C3 _] & M3). unfold bind. rewrite He.
  eexists _, s3. split; [done |].
  apply (peer_ok_aside {| s with channels_ := m |}); [| | done]; cbn; [by rewrite C3 | by rewrite M3].
Qed.

Lemma forget_ok s channel : peer_ok s -> exists s', forget_channel channel s = Some (tt, s') /\ peer_ok s'.
Proof.
  intros Hok. eexists. split; [done |]. apply (peer_ok_steady s); [| | done].
  - split; [done | apply tame_close].
  - apply close_channel_wf, Hok.
Qed.

Lemma fail_returns s channel reason :
  peer_ok s -> exists s', fail_business_channel channel reason s = Some (tt, s') /\ peer_ok s'.
Proof.
  intros Hok. unfold fail_business_channel, bind at 1, diagnose, modify, bind at 1, get.
  set (s1 := {| s with diagnostics_ := _ |}). assert (Hok1 : peer_ok s1) by (by apply (peer_ok_aside s)).
  destruct (forget_ok s1 channel Hok1) as (s2 & Hf & Hok2). unfold bind at 1. rewrite Hf.
  destruct (SessionChannels.channel_domain _ _) as [d |]; [| by exists s2].
  unfold bind, get. destruct (physical_channels_ s2 !! d) as [physical |]; [| by exists s2].
  eexists. split; [done |]. by apply (peer_ok_aside s2).
Qed.

Lemma close_returns s channel :
  peer_ok s -> exists s', (snd <$> close_business_channel channel s) = Some s' /\ peer_ok s'.
Proof.
  intros Hok. destruct (forget_ok s channel Hok) as (s' & Hf & Hok'). exists s'.
  split; [| done]. change ((snd <$> forget_channel channel s) = Some s'). by rewrite Hf.
Qed.

End promises.

(** ** The session of a service *)

Section instance.
Context {E H : Type} `{!SessionEnv E}.
(** The handlers the service installs, by name, and the wall clock. *)
Context (channel_handler domain_handler : H) (clock : E -> Z * E).
Context (domain : ChannelDomain) (room : Limits -> Z).

#[local] Instance peer_service : ServiceSession (PeerSession E H) := {|
  session_send_frame s channel klass frame := send_frame channel klass frame s;
  session_open_channel s domain policy frames bytes :=
    open_business_channel domain policy frames bytes channel_handler s;
  session_adopt_channel s channel domain policy frames bytes :=
    adopt_business_channel channel domain policy frames bytes channel_handler s;
  session_has_channel s channel := SessionChannels.has_channel (channels_ s) channel;
  session_close_channel s channel := snd <$> close_business_channel channel s;
  session_fail_channel s channel reason := snd <$> fail_business_channel channel reason s;
  session_domain_handler s domain on :=
    {| s with domain_handlers_ := if on then <[domain := domain_handler]> (domain_handlers_ s)
                                  else delete domain (domain_handlers_ s) |};
  ServiceSession.session_limits s := SessionChannels.limits_ (channels_ s);
  ServiceSession.wall_clock s := let '(t, e) := clock (env_ s) in (t, {| s with env_ := e |});
|}.

Definition peer_service_lawful : LawfulService (PeerSession E H) domain room.
Proof.
  exists (peer_ok room).
  - intros s channel klass f. exact (send_returns room s channel klass f).
  - intros s frames bytes Hok Hf Hb. by apply open_returns.
  - intros s channel frames bytes Hok Hf Hb. by apply adopt_returns.
  - intros s channel. by apply close_returns.
  - intros s channel reason Hok. destruct (fail_returns _ s channel reason Hok) as (s' & Hf & Hok'). exists s'.
    split; [| done]. change ((snd <$> fail_business_channel channel reason s) = Some s'). by rewrite Hf.
  - intros s on Hok. by apply (peer_ok_aside _ s).
  - intros s Hok. cbn. destruct (clock (env_ s)). by apply (peer_ok_aside _ s).
Defined.

End instance.

Lemma mailbox_drawn (e : Mailbox) : sized 16 (fst (random_nonzero e 16)) /\ all_zero (fst (random_nonzero e 16)) = false.
Proof. split; [apply sized_decide; vm_compute; reflexivity | reflexivity]. Qed.

Lemma sample_peer_ok room : room default_limits <= 2 * 1024 * 1024 - 64 -> peer_ok room (sample_session (sample_config None)).
Proof.
  intros Hroom. split; [reflexivity | apply sample_manager_wf; by left | |].
  - replace (channels_ (sample_session (sample_config None)))
      with (SessionChannels.new_manager SessionChannels.default_budget default_limits) by (vm_compute; reflexivity).
    apply map_Forall_empty.
  - replace (SessionChannels.limits_ (channels_ (sample_session (sample_config None)))) with default_limits
      by (vm_compute; reflexivity). change (max_frame_bytes default_limits) with (2 * 1024 * 1024). unfold u32_max. lia.
Qed.
