(* ===== verification/ByteStreamSession.v ===== *)
(** * Byte streams over a peer session

    The session of [PeerSession] is the session the byte streams call: it returns
    from every call the service makes as long as its channels reject frames on a
    full queue, which is how the service opens them, and its frame limit has room
    for the largest DATA frame. So what [ByteStreamRuns] proves against the
    interface holds for the service on top of that code. *)

From Stdlib Require Import ZArith Lia ZifyBool String.
From stdpp Require Import base tactics option list gmap strings numbers pretty.
From S2P Require Import Prelude Errors Limits Varint Wire Identifiers ProtoCodec FieldCodec Protocol Signing Clock.
From S2P Require Import Operation FrameStream SessionChannels PairingProtocol GatewayAddress GatewayPolicy PeerSession PeerSessionRuns.
From S2P Require Import PeerSessionServices Effects ByteStream ByteStreamInvariant ByteStreamFrames ByteStreamRuns.
Import Wire PeerSession.
#[local] Open Scope Z_scope.
#[local] Open Scope session_scope.

(** ** The instance *)

Section instance.
Context {E H : Type} `{!SessionEnv E}.
(** The wall clock of the service, and the handlers it installs, by name. *)
Context (now : E -> Z) (channel_handler domain_handler : H).
(** [randombytes_buf] fills the bytes, and the loop ends with one that is not zero. *)
Hypothesis random_drawn : forall e : E,
  sized 16 (fst (random_nonzero e 16)) /\ all_zero (fst (random_nonzero e 16)) = false.
Implicit Types s : PeerSession E H.

#[local] Instance peer_stream_session : ByteStream.StreamSession (PeerSession E H) := {|
  ByteStream.session_send_frame s channel klass frame := send_frame channel klass frame s;
  ByteStream.session_open_channel s domain policy frames bytes :=
    open_business_channel domain policy frames bytes channel_handler s;
  ByteStream.session_adopt_channel s channel domain policy frames bytes :=
    adopt_business_channel channel domain policy frames bytes channel_handler s;
  ByteStream.session_has_channel s channel := SessionChannels.has_channel (channels_ s) channel;
  ByteStream.session_close_channel s channel := snd <$> close_business_channel channel s;
  ByteStream.session_fail_channel s channel reason := snd <$> fail_business_channel channel reason s;
  ByteStream.session_domain_handler s on :=
    {| s with domain_handlers_ := if on then <[ChannelDomain.stream := domain_handler]> (domain_handlers_ s)
                                  else delete ChannelDomain.stream (domain_handlers_ s) |};
  ByteStream.session_capabilities s := negotiated_capabilities (diagnostics_ s);
  ByteStream.random_stream_id s :=
    let '(id, e) := random_nonzero (env_ s) 16 in (id, {| s with env_ := e |});
  ByteStream.stream_now s := now (env_ s);
|}.

Definition stream_room (_ : Limits) : Z := max_stream_payload.

#[local] Instance peer_lawful : LawfulSession (PeerSession E H).
Proof.
  exists (peer_ok stream_room).
  - intros s channel klass f. by apply send_returns.
  - intros s. by apply open_returns.
  - intros s channel. by apply adopt_returns.
  - intros s channel. by apply close_returns.
  - intros s channel reason Hok. destruct (fail_returns _ s channel reason Hok) as (s' & Hf & Hok'). exists s'.
    split; [| done]. change ((snd <$> fail_business_channel channel reason s) = Some s'). by rewrite Hf.
  - intros s on Hok. by apply (peer_ok_aside _ s).
  - intros s Hok. assert (Hr := random_drawn (env_ s)). cbn. destruct (random_nonzero (env_ s) 16) as [id e].
    destruct Hr as [R1 R2]. split_and!; [exact R1 | exact R2 | by apply (peer_ok_aside _ s)].
Defined.

(** C17. A service over a peer session that has a transport, a well-formed channel
    manager whose channels reject when full, and a frame limit with room for the
    largest DATA frame: in every state it reaches, with the session changing as it
    likes within that, every call with arguments of its types on handles the service
    made returns, and so does every frame of the peer whose DATA header is whole, and
    the destructor. The loops of the reads, the writes and the send queues end, and
    no member is used before it is set. *)
Theorem peer_streams_return (s : ByteStream.ByteStreamService (Recorded (PeerSession E H))) :
  reached s ->
  (forall c, call_ok s c -> is_Some (serve c s)) /\
  (forall f, arriving s f -> whole f -> is_Some (ByteStream.handle_frame f s)) /\
  is_Some (ByteStream.destroy s).
Proof. apply calls_return. Qed.

End instance.

(** A service over the sample session of [PeerSessionRuns]. *)
Definition session_streams : ByteStream.ByteStreamService (Recorded (PeerSession Mailbox unit)) :=
  ByteStream.new_service (mkRecorded (sample_session (sample_config None)) []) ByteStream.default_stream_limits.

Lemma peer_streams_return_witness :
  is_Some (@serve _ (peer_stream_session (fun _ => 0) tt tt) Attach session_streams).
Proof.
  assert (Hr : @reached _ (peer_stream_session (fun _ => 0) tt tt) (peer_lawful (fun _ => 0) tt tt mailbox_drawn) session_streams)
    by (apply reached_new; constructor; [by apply sample_peer_ok; vm_compute | split; vm_compute; discriminate]).
  destruct (@peer_streams_return Mailbox unit mailbox_env (fun _ => 0) tt tt mailbox_drawn session_streams Hr) as [Hc _].
  exact (Hc Attach I).
Defined.
