(* ===== verification/ByteStreamExamples.v ===== *)
(** * Sample services

    A pipe as the session, two services over it, runs of the two that show that
    the hypotheses of the theorems can hold, and runs in which honest peers lose
    a stream. *)

From Stdlib Require Import ZArith Lia ZifyBool String.
From stdpp Require Import base tactics option list gmap strings numbers pretty.
From S2P Require Import Prelude Errors Limits Varint Wire Identifiers ProtoCodec FieldCodec Protocol Signing Clock.
From S2P Require Import SessionChannels PairingProtocol GatewayAddress GatewayPolicy PeerSession.
From S2P Require Import Effects ByteStream ByteStreamInvariant ByteStreamFrames ByteStreamRuns ByteStreamTransfer.
Import Wire ProtoCodec Signing PairingProtocol GatewayPolicy Effects ByteStream.
#[local] Open Scope Z_scope.
#[local] Open Scope effect_scope.

(** ** A pipe *)

(** It takes every frame unless it is full, and draws ids that end in 1, 2, 3, ... *)
Record Pipe : Type := mkPipe { pipe_now : Z; pipe_full : bool; pipe_drawn : Z; pipe_channels : list Z }.

#[export] Instance pipe_session : StreamSession Pipe := {
  session_send_frame p _ _ _ :=
    Some (if pipe_full p then failure (make_error ErrorCode.would_block "session" "queue_full")
          else success tt, p);
  session_open_channel p _ _ _ _ :=
    let c := 2 + zlen (pipe_channels p) in
    Some (success c, {| p with pipe_channels := pipe_channels p ++ [c] |});
  session_adopt_channel p c _ _ _ _ := Some (success c, {| p with pipe_channels := pipe_channels p ++ [c] |});
  session_has_channel p c := bool_decide (c ∈ pipe_channels p);
  session_close_channel p c := Some {| p with pipe_channels := filter (fun d => d <> c) (pipe_channels p) |};
  session_fail_channel p c _ := Some {| p with pipe_channels := filter (fun d => d <> c) (pipe_channels p) |};
  session_domain_handler p _ := p;
  session_capabilities p := 0;
  random_stream_id p := (repeat 7 15 ++ [1 + pipe_drawn p mod 255], {| p with pipe_drawn := pipe_drawn p + 1 |});
  stream_now p := pipe_now p;
}.

#[export] Instance pipe_lawful : LawfulSession Pipe.
Proof.
  exists (fun p => pipe_full p = false); try (intros; cbn; eauto; fail).
  intros e He. cbn. split_and!; [| done | done].
  split; [| done]. repeat constructor; try (unfold is_byte; lia).
  all: assert (B := Z.mod_pos_bound (pipe_drawn e) 255 ltac:(lia)); lia.
Defined.

Lemma pipe_takes (p : Pipe) channel frames : pipe_full p = false -> takes p channel frames p.
Proof. intros Hp. induction frames as [| [k f] frames IH]; [done |]. exists p. cbn. by rewrite Hp. Qed.

(** ** Two services *)

(** Chunks of 4 bytes, windows of 8 bytes and 2 frames. *)
Definition small_limits : ByteStreamLimits := mkStreamLimits 4 8 2 16 100 4 4.

Abbreviation Piped := (ByteStreamService (Recorded Pipe)).

Definition sample_service : Piped := new_service (mkRecorded (mkPipe 1000 false 0 []) []) small_limits.

Definition frame_at (n : nat) (s : Piped) : Frame :=
  match sent (session_ s) !! n with Some (_, f) => f | None => mkFrame 0 0 0 [] [] end.

(** The opener and the accepter, before and after the handshake of a stream. *)
Definition opener : Piped := after (serve (OpenStream 8 2)) (after (serve Attach) sample_service).
Definition accepter : Piped := after (serve (SetInbound true)) (after (serve Attach) sample_service).
Definition accepted : Piped := after (handle_frame (frame_at 0 opener)) accepter.
Definition granted : Piped := after (handle_frame (frame_at 0 accepted)) opener.

Lemma sample_initial : initial sample_service.
Proof. constructor; [done | by split]. Qed.

Lemma from_at n s : from s (frame_at n s).
Proof.
  intros H. unfold frame_at in *. destruct (sent (session_ s) !! n) as [[k f] |] eqn:E; [| done].
  exists k. by eapply list_elem_of_lookup_2.
Qed.

Ltac frame_ready := split; [vm_compute; reflexivity | apply bytes_ok_decide; vm_compute; reflexivity].

Lemma opened_pair : linked granted accepted.
Proof.
  unfold granted. apply linked_frame_left; [| apply from_at | frame_ready].
  unfold accepted. apply linked_frame_right; [| apply from_at | frame_ready].
  unfold accepter. apply linked_serve_right; [| done]. apply linked_serve_right; [| done].
  unfold opener. apply linked_serve_left; [| by vm_compute]. apply linked_serve_left; [| done].
  apply linked_new; apply sample_initial.
Qed.

(** ** Witnesses *)

Lemma not_data_whole f : type f <> frame_type_value stream_data -> whole f.
Proof. by intros H H'. Qed.

Ltac frame_whole := apply not_data_whole; vm_compute; discriminate.

Lemma opener_reached : reached opener.
Proof. unfold opener. do 2 (apply reached_serve; [| by vm_compute]). apply reached_new, sample_initial. Qed.

Lemma accepted_reached : reached accepted.
Proof.
  unfold accepted. apply reached_handle; [| frame_whole | frame_ready]. unfold accepter.
  do 2 (apply reached_serve; [| done]). apply reached_new, sample_initial.
Qed.

Lemma granted_reached : reached granted.
Proof. unfold granted. apply reached_handle; [apply opener_reached | frame_whole | frame_ready]. Qed.

Definition handle_at (a : Z) (s : Piped) : ByteStreamHandle :=
  default (new_handle small_limits [] 0 0 0) (heap_ s !! a).

Lemma stream_memory_bounded_witness :
  heap_ accepted !! 0 = Some (handle_at 0 accepted) /\ zlen (reads_ (handle_at 0 accepted)) <= 4.
Proof.
  assert (H : heap_ accepted !! 0 = Some (handle_at 0 accepted)) by (vm_compute; reflexivity).
  destruct (stream_memory_bounded accepted accepted_reached) as [_ Hb].
  destruct (Hb 0 _ H) as (_ & _ & _ & _ & _ & Hr & _). split; [exact H | exact Hr].
Defined.

(** A DATA frame of the stream that ends after the offset. *)
Definition short_frame : Frame :=
  mkFrame (frame_type_value stream_data) 0 2 (repeat 1 16) (id_ (handle_at 0 accepted) ++ repeat 0 8).

Lemma short_data_undefined_witness : handle_data short_frame accepted = None.
Proof.
  apply (short_data_undefined accepted short_frame accepted_reached).
  exists (id_ (handle_at 0 accepted)), 0. split; [vm_compute; reflexivity |].
  split; [vm_compute; reflexivity | vm_compute; reflexivity].
Defined.

(** Three bytes on their way. *)
Definition written : Piped := after (serve (Write 0 [1; 2; 3] 9 None)) granted.
Definition received : Piped := after (handle_frame (frame_at 1 written)) accepted.

Lemma written_pair : linked written received.
Proof.
  unfold received. apply linked_frame_right; [| apply from_at | frame_ready].
  unfold written. apply linked_serve_left; [apply opened_pair |]. eexists. vm_compute. reflexivity.
Qed.

Lemma sole_handle (s : Piped) a h b k : map_to_list (heap_ s) = [(a, h)] -> heap_ s !! b = Some k -> b = a /\ k = h.
Proof.
  intros Hl Hb. apply elem_of_map_to_list in Hb. rewrite Hl in Hb. apply list_elem_of_singleton in Hb.
  by injection Hb as -> ->.
Qed.

Lemma written_alone a h : heap_ written !! a = Some h -> a = 0 /\ h = handle_at 0 written.
Proof. apply (sole_handle written). vm_compute. reflexivity. Qed.

Lemma stream_integrity_witness :
  incoming 0 (handle_at 0 received) (log_ received) = [] \/
  exists a ha, heap_ written !! a = Some ha /\ id_ ha = id_ (handle_at 0 received) /\
    incoming 0 (handle_at 0 received) (log_ received) `prefix_of` outgoing a ha (log_ written).
Proof.
  apply (stream_integrity written received 0 (handle_at 0 received) written_pair); [vm_compute; reflexivity |]. split.
  - intros a a' h h' Ha Ha' _ _. destruct (written_alone a h Ha) as [-> _], (written_alone a' h' Ha') as [-> _]. reflexivity.
  - intros a h Ha _. destruct (written_alone a h Ha) as [-> ->]. vm_compute. reflexivity.
Defined.

Lemma sample_idle (s : Piped) a h : map_to_list (heap_ s) = [(a, h)] -> handle_idle (stream_now (session_ s)) h -> idle s.
Proof.
  intros Hl Hi id b hb _ Hb. by destruct (sole_handle s a h b hb Hl Hb) as [-> ->].
Qed.

Lemma stream_transfer_witness :
  let h := handle_at 0 granted in
  let ps := pieces 5 (Z.to_nat (max_data_chunk_bytes (limits_ granted))) [1; 2; 3; 4; 5] in
  let frames := data_frames (stream_channel_ h) (id_ h) (next_send_offset_ h) ps in
  exists sA' sB' h' hb',
    async_write 0 [1; 2; 3; 4; 5] 9 None granted = Some (tt, sA') /\
    session_ sA' = mkRecorded (inner (session_ granted)) (sent (session_ granted) ++ frames) /\
    log_ sA' = log_ granted ++ [WriteDone 0 9 [1; 2; 3; 4; 5] (mkIo (zlen [1; 2; 3; 4; 5]) None)] /\
    each (fun '(_, f) => handle_frame f) frames accepted = Some (tt, sB') /\
    heap_ sA' !! 0 = Some h' /\ heap_ sB' !! 0 = Some hb' /\
    concat (receive_chunks_ hb') = concat (receive_chunks_ (handle_at 0 accepted)) ++ [1; 2; 3; 4; 5] /\
    next_receive_offset_ hb' = next_send_offset_ h'.
Proof.
  intros h ps frames. assert (Hidle : idle granted /\ idle accepted).
  { split; [apply (sample_idle granted 0 (handle_at 0 granted)) | apply (sample_idle accepted 0 (handle_at 0 accepted))];
      first [vm_compute; reflexivity | split; [constructor | split; [constructor | vm_compute; reflexivity]]]. }
  assert (Hready : ready accepted 0 (handle_at 0 accepted) (next_send_offset_ (handle_at 0 granted)) 5 2).
  { split; try (vm_compute; reflexivity). vm_compute. split; discriminate. }
  apply (stream_transfer granted accepted 0 (handle_at 0 granted) 0 (handle_at 0 accepted)
    [1; 2; 3; 4; 5] 9 None (inner (session_ granted)) granted_reached accepted_reached).
  - vm_compute. reflexivity.
  - vm_compute. reflexivity.
  - vm_compute. reflexivity.
  - vm_compute. reflexivity.
  - vm_compute. split; discriminate.
  - vm_compute. discriminate.
  - vm_compute. discriminate.
  - apply pipe_takes. vm_compute. reflexivity.
  - apply Hidle.
  - exact Hready.
  - vm_compute. reflexivity.
  - apply Hidle.
Defined.

(** ** Honest peers that lose a stream *)

(** The reader takes the first two bytes, and its window update reaches the writer. *)
Definition wrote_two : Piped := after (serve (Write 0 [1; 2] 1 None)) granted.
Definition read_two : Piped :=
  after (serve (ReadSome 0 10 1 None)) (after (handle_frame (frame_at 1 wrote_two)) accepted).
Definition updated : Piped := after (handle_frame (frame_at 1 read_two)) wrote_two.
(** Three writes of one byte, and their frames in the order they were sent. *)
Definition wrote_three : Piped :=
  after (serve (Write 0 [5] 4 None)) (after (serve (Write 0 [4] 3 None)) (after (serve (Write 0 [3] 2 None)) updated)).
Definition overrun : Piped :=
  after (handle_frame (frame_at 4 wrote_three))
    (after (handle_frame (frame_at 3 wrote_three)) (after (handle_frame (frame_at 2 wrote_three)) read_two)).

(** The first update of two honest peers over a pipe that keeps the order leaves the
    writer with a credit of three frames for a window of two, three small writes are
    sent at once, and the reader resets the stream because its window is exceeded. *)
Lemma frame_credit_overrun :
  linked wrote_three overrun /\
  send_credit_frames_ (handle_at 0 updated) = 3 /\
  receive_window_frames_ (handle_at 0 read_two) = 2 /\ receive_window_remaining_frames_ (handle_at 0 read_two) = 2 /\
  state_ (handle_at 0 overrun) = StreamState.reset /\
  map (fun '(_, f) => payload f) (drop 2 (sent (session_ overrun)))
    = [reset_payload (id_ (handle_at 0 overrun)) StableStatus.resource_exhausted].
Proof.
  split; [| vm_compute; repeat split; reflexivity].
  unfold overrun. do 3 (apply linked_frame_right; [| apply from_at | frame_ready]).
  unfold wrote_three. do 3 (apply linked_serve_left; [| eexists; vm_compute; reflexivity]).
  unfold updated. apply linked_frame_left; [| apply from_at | frame_ready].
  unfold read_two. apply linked_serve_right; [| split; [eexists; vm_compute; reflexivity | lia]].
  apply linked_frame_right; [| apply from_at | frame_ready].
  unfold wrote_two. apply linked_serve_left; [apply opened_pair | eexists; vm_compute; reflexivity].
Qed.



(** The writer ends its direction after three bytes: DATA, then FIN. *)
Definition shut : Piped := after (serve (ShutdownWrite 0)) written.

(** The two frames through the queues of a session. *)
Definition queued_two : option SessionChannels.Manager :=
  let m := snd (SessionChannels.open_channel
                  (SessionChannels.new_manager SessionChannels.default_budget default_limits)
                  2 ChannelDomain.stream QueueFullPolicy.reject stream_channel_frame_capacity stream_channel_byte_capacity) in
  foldl (fun m '(k, f) => match m with
                          | Some m => snd <$> SessionChannels.enqueue m 2 k f
                          | None => None
                          end) (Some m) (drop 1 (sent (session_ shut))).

(** The order in which the manager gives its frames to the transport. *)
Fixpoint drained_types (fuel : nat) (m : SessionChannels.Manager) : list Z :=
  match fuel, SessionChannels.next_to_send m with
  | S fuel, Some (Some e, m) => type (SessionChannels.queued_frame e) :: drained_types fuel m
  | _, _ => []
  end.

(** The end of a stream overtakes its data. The writer hands DATA and then FIN
    to the session; FIN is of the control class, so when both wait the session sends
    FIN first, and the reader, for whom the final offset is not the next one,
    resets the stream and never returns the bytes. In the order of the writer the
    reader has the bytes and a clean end. *)
Theorem fin_overtakes_data :
  map (fun '(k, f) => (k, type f)) (drop 1 (sent (session_ shut)))
    = [(FrameClass.bulk, frame_type_value stream_data); (FrameClass.control, frame_type_value stream_fin)] /\
  option_map (drained_types 2) queued_two = Some [frame_type_value stream_fin; frame_type_value stream_data] /\
  (let overtaken := after (handle_frame (frame_at 1 shut)) (after (handle_frame (frame_at 2 shut)) accepted) in
   state_ (handle_at 0 overtaken) = StreamState.reset /\ receive_chunks_ (handle_at 0 overtaken) = []) /\
  (let in_order := after (handle_frame (frame_at 2 shut)) (after (handle_frame (frame_at 1 shut)) accepted) in
   state_ (handle_at 0 in_order) = StreamState.open /\ receive_chunks_ (handle_at 0 in_order) = [[1; 2; 3]] /\
   fin_received_ (handle_at 0 in_order) = true).
Proof. vm_compute. repeat split; reflexivity. Qed.

(** The end of the own direction cancels the reads of the other one, which stays
    open: a pending read of the reader ends with [stream_reset] when the reader
    shuts its own direction, and bytes that arrive later are there to be read. *)
Lemma half_close_cancels_reads :
  let waiting := after (serve (ReadSome 0 4 7 None)) accepted in
  let halved := after (serve (ShutdownWrite 0)) waiting in
  let later := after (serve (ReadSome 0 4 8 None)) (after (handle_frame (frame_at 1 written)) halved) in
  state_ (handle_at 0 halved) = StreamState.half_closed_local /\
  drop (length (log_ waiting)) (log_ halved)
    = [ReadDone 0 7 [] (mkIo 0 (Some (stream_error ErrorCode.cancelled "stream_reset")))] /\
  drop (length (log_ halved)) (log_ later) = [ReadDone 0 8 [1; 2; 3] (mkIo 3 None)].
Proof. vm_compute. repeat split; reflexivity. Qed.

(** The end that waits for a write is lost with it: when the last write times out
    the stream has no FIN to send, and it refuses to be shut again. *)
Lemma fin_lost_with_write :
  let waiting := after (serve (ShutdownWrite 0)) (after (serve (Write 0 [1; 2; 3; 4; 5; 6; 7; 8; 9] 1 (Some 1001))) granted) in
  let late := {| waiting with session_ := mkRecorded (mkPipe 2000 false 1 [2]) (sent (session_ waiting)) |} in
  let swept := after (serve CheckDeadlines) late in
  writes_ (handle_at 0 swept) = [] /\ state_ (handle_at 0 swept) = StreamState.open /\
  map (fun '(_, f) => type f) (sent (session_ swept))
    = [frame_type_value stream_open; frame_type_value stream_data; frame_type_value stream_data] /\
  fst <$> shutdown_write 0 swept = Some (failure (stream_error ErrorCode.protocol "fin_not_sendable")).
Proof. vm_compute. repeat split; reflexivity. Qed.
