(* ===== verification/MessageProtocol.v ===== *)
(** * The message protocol

    [include/heyaki/message.hpp] and [src/core/message_protocol.cpp]: the envelope
    of a point-to-point message, its acknowledgement, their validation and their
    wire codecs.

    The theorems: an envelope that encodes is parsed back unchanged when its
    encoding is within the ceiling of the parser and refused as oversized when it
    is not; whatever is parsed is a valid envelope; acknowledgements are read back
    unchanged. *)

From Stdlib Require Import ZArith Lia ZifyBool String.
From stdpp Require Import base tactics option list numbers strings.
From S2P Require Import Prelude Errors Limits Varint ProtoCodec FieldCodec.
#[local] Open Scope Z_scope.

(** [enum class MessageDeliveryMode], with the other values its underlying type
    holds. *)
Module MessageDeliveryMode.
Inductive MessageDeliveryMode : Type := best_effort | peer_acked | unnamed (value : Z).
End MessageDeliveryMode.
Abbreviation MessageDeliveryMode := MessageDeliveryMode.MessageDeliveryMode.

#[export] Instance MessageDeliveryMode_eq_dec : EqDecision MessageDeliveryMode.
Proof. solve_decision. Defined.

(** [enum class MessageDeliveryEvent]. *)
Module MessageDeliveryEvent.
Inductive MessageDeliveryEvent : Type :=
  queued | send_failed | acked | peer_rejected | ack_timeout | session_closed.
End MessageDeliveryEvent.
Abbreviation MessageDeliveryEvent := MessageDeliveryEvent.MessageDeliveryEvent.

#[export] Instance MessageDeliveryEvent_eq_dec : EqDecision MessageDeliveryEvent.
Proof. solve_decision. Defined.

Module MessageProtocol.
Import ProtoCodec.

Definition kDeliveryModeBestEffort : Z := 1.
Definition kDeliveryModePeerAcked : Z := 2.

(** [static_cast<std::uint32_t>(mode)]. *)
Definition delivery_mode_value (mode : MessageDeliveryMode) : Z :=
  match mode with
  | MessageDeliveryMode.best_effort => 1
  | MessageDeliveryMode.peer_acked => 2
  | MessageDeliveryMode.unnamed value => value
  end.

Definition name_character (character : Z) : bool :=
  let lower := (97 <=? character) && (character <=? 122) in
  let upper := (65 <=? character) && (character <=? 90) in
  let digit := (48 <=? character) && (character <=? 57) in
  lower || upper || digit || (character =? 95) || (character =? 45) || (character =? 46).

Definition name_token (value : list Z) : bool := forallb name_character value.

Definition envelope_error (detail : string) : Error := make_error ErrorCode.protocol "message" detail.

Definition message_delivery_mode_name (mode : MessageDeliveryMode) : string :=
  match mode with
  | MessageDeliveryMode.best_effort => "best_effort"
  | MessageDeliveryMode.peer_acked => "peer_acked"
  | MessageDeliveryMode.unnamed _ => "unknown"
  end.

Definition message_delivery_event_name (event : MessageDeliveryEvent) : string :=
  match event with
  | MessageDeliveryEvent.queued => "queued"
  | MessageDeliveryEvent.send_failed => "send_failed"
  | MessageDeliveryEvent.acked => "acked"
  | MessageDeliveryEvent.peer_rejected => "peer_rejected"
  | MessageDeliveryEvent.ack_timeout => "ack_timeout"
  | MessageDeliveryEvent.session_closed => "session_closed"
  end.

Definition max_message_type_bytes : Z := 128.
Definition max_message_headers : Z := 64.
Definition max_message_header_name_bytes : Z := 64.
Definition max_message_header_value_bytes : Z := 256.
Definition min_message_ttl_milliseconds : Z := 1.
Definition max_message_ttl_milliseconds : Z := 600000.
Definition default_message_ttl_milliseconds : Z := 30000.

Record MessageHeader : Type := mkHeader {
  header_name : list Z;
  header_value : list Z;
}.

Record MessageEnvelope : Type := mkEnvelope {
  message_id : list Z;
  type : list Z;
  schema_version : Z;
  ttl_milliseconds : Z;
  delivery_mode : MessageDeliveryMode;
  headers : list MessageHeader;
  envelope_payload : list Z;
  wall_time_unix_milliseconds : option Z;
}.

(** The default member initialisers. *)
Definition default_envelope : MessageEnvelope :=
  mkEnvelope (repeat 0 16) [] 1 default_message_ttl_milliseconds MessageDeliveryMode.best_effort [] [] None.

Definition mode_named (mode : MessageDeliveryMode) : bool :=
  bool_decide (mode = MessageDeliveryMode.best_effort) || bool_decide (mode = MessageDeliveryMode.peer_acked).

(** The body of the loop over the headers. *)
Fixpoint validate_headers (headers : list MessageHeader) : Result unit :=
  match headers with
  | [] => success tt
  | header :: headers =>
      fail_if (zlen (header_name header) =? 0)
              || (max_message_header_name_bytes <? zlen (header_name header))
              || negb (name_token (header_name header))
        with envelope_error "header_name_invalid";
      fail_if max_message_header_value_bytes <? zlen (header_value header)
        with envelope_error "header_value_oversized";
      validate_headers headers
  end.

Definition validate_message_envelope (envelope : MessageEnvelope) (limits : Limits) : Result unit :=
  fail_if all_zero (message_id envelope) with envelope_error "message_id_missing";
  fail_if (zlen (type envelope) =? 0) || (max_message_type_bytes <? zlen (type envelope))
          || negb (name_token (type envelope))
    with envelope_error "message_type_invalid";
  fail_if schema_version envelope =? 0 with envelope_error "schema_version_invalid";
  fail_if (ttl_milliseconds envelope <? min_message_ttl_milliseconds)
          || (max_message_ttl_milliseconds <? ttl_milliseconds envelope)
    with envelope_error "ttl_out_of_range";
  fail_if negb (mode_named (delivery_mode envelope)) with envelope_error "delivery_mode_invalid";
  fail_if max_message_headers <? zlen (headers envelope) with envelope_error "header_count_exceeded";
  let? _ := validate_headers (headers envelope) in
  fail_if max_message_bytes limits <? zlen (envelope_payload envelope)
    with envelope_error "payload_oversized";
  success tt.

Definition append_header_entry (output : list Z) (header : MessageHeader) : list Z :=
  let entry := append_text [] 1 (header_name header) in
  let entry := append_bytes entry 2 (header_value header) in
  append_bytes output 6 entry.

Definition encode_message_envelope (envelope : MessageEnvelope) (limits : Limits) : Result (list Z) :=
  let? _ := validate_message_envelope envelope limits in
  let output := append_bytes [] 1 (message_id envelope) in
  let output := append_text output 2 (type envelope) in
  let output := append_uint output 3 (schema_version envelope) in
  let output := append_uint output 4 (ttl_milliseconds envelope) in
  let output := append_uint output 5 (delivery_mode_value (delivery_mode envelope)) in
  let output := foldl append_header_entry output (headers envelope) in
  let output := append_bytes output 7 (envelope_payload envelope) in
  let output := match wall_time_unix_milliseconds envelope with
                | Some time => append_uint output 8 time
                | None => output
                end in
  success output.

(** The header a nested entry has filled in, and [have_key]. *)
Definition header_step (entry : MessageHeader * bool) (field : ProtoField) : Result (MessageHeader * bool) :=
  let '(header, have_key) := entry in
  if (number field =? 1) && (wire_type field =? 2) then
    success ({| header with header_name := field_bytes field |}, true)
  else if (number field =? 2) && (wire_type field =? 2) then
    success ({| header with header_value := field_bytes field |}, have_key)
  else success (header, have_key).

(** The locals of [parse_message_envelope]. *)
Record EnvelopeFields : Type := mkEnvelopeFields {
  envelope : MessageEnvelope;
  have_id : bool;
  have_type : bool;
  have_schema : bool;
  have_ttl : bool;
  have_mode : bool;
}.

Definition no_envelope_fields : EnvelopeFields :=
  mkEnvelopeFields default_envelope false false false false false.

(** The body of the loop of [parse_message_envelope]; the time passes through a
    signed type and back. *)
Definition envelope_step (p : EnvelopeFields) (field : ProtoField) : Result EnvelopeFields :=
  let e := envelope p in
  let n := number field in
  let w := wire_type field in
  if (n =? 1) && (w =? 2) then
    fail_if negb (zlen (field_bytes field) =? 16) with envelope_error "message_id_field_invalid";
    success {| p with envelope := {| e with message_id := field_bytes field |}; have_id := true |}
  else if (n =? 2) && (w =? 2) then
    success {| p with envelope := {| e with type := field_bytes field |}; have_type := true |}
  else if (n =? 3) && (w =? 0) then
    success {| p with envelope := {| e with schema_version := u32 (integer field) |}; have_schema := true |}
  else if (n =? 4) && (w =? 0) then
    success {| p with envelope := {| e with ttl_milliseconds := u32 (integer field) |}; have_ttl := true |}
  else if (n =? 5) && (w =? 0) then
    let mode := u32 (integer field) in
    if mode =? kDeliveryModeBestEffort then
      success {| p with envelope := {| e with delivery_mode := MessageDeliveryMode.best_effort |};
                        have_mode := true |}
    else if mode =? kDeliveryModePeerAcked then
      success {| p with envelope := {| e with delivery_mode := MessageDeliveryMode.peer_acked |};
                        have_mode := true |}
    else failure (envelope_error "delivery_mode_invalid")
  else if (n =? 6) && (w =? 2) then
    fail_if max_message_headers <=? zlen (headers e) with envelope_error "header_count_exceeded";
    let? header, have_key := parse_proto header_step (field_bytes field) "proto" (mkHeader [] [], false) in
    fail_if negb have_key with envelope_error "header_key_missing";
    success {| p with envelope := {| e with headers := headers e ++ [header] |} |}
  else if (n =? 7) && (w =? 2) then
    success {| p with envelope := {| e with envelope_payload := field_bytes field |} |}
  else if (n =? 8) && (w =? 0) then
    success {| p with envelope := {| e with wall_time_unix_milliseconds := Some (integer field) |} |}
  else success p.

Definition parse_message_envelope (payload : list Z) (limits : Limits) : Result MessageEnvelope :=
  fail_if max_message_bytes limits <? zlen payload with envelope_error "envelope_oversized";
  let? p := parse_proto envelope_step payload "proto" no_envelope_fields in
  fail_if negb (have_id p) || negb (have_type p) || negb (have_schema p) || negb (have_ttl p)
          || negb (have_mode p)
    with envelope_error "envelope_field_missing";
  let? _ := validate_message_envelope (envelope p) limits in
  success (envelope p).

Record MessageAckBody : Type := mkAck {
  ack_message_id : list Z;
  protocol_accepted : bool;
}.

Definition encode_message_ack (ack : MessageAckBody) : Result (list Z) :=
  fail_if all_zero (ack_message_id ack) with envelope_error "message_id_missing";
  let output := append_bytes [] 1 (ack_message_id ack) in
  let output := append_uint output 2 (if protocol_accepted ack then 1 else 0) in
  success output.

(** The body of the loop of [parse_message_ack], with [have_id]. *)
Definition ack_step (p : MessageAckBody * bool) (field : ProtoField) : Result (MessageAckBody * bool) :=
  let '(ack, have_id) := p in
  if (number field =? 1) && (wire_type field =? 2) then
    fail_if negb (zlen (field_bytes field) =? 16) with envelope_error "message_id_field_invalid";
    success ({| ack with ack_message_id := field_bytes field |}, true)
  else if (number field =? 2) && (wire_type field =? 0) then
    success ({| ack with protocol_accepted := negb (integer field =? 0) |}, have_id)
  else success (ack, have_id).

Definition parse_message_ack (payload : list Z) : Result MessageAckBody :=
  let? ack, have_id := parse_proto ack_step payload "proto" (mkAck (repeat 0 16) false, false) in
  fail_if negb have_id with envelope_error "message_id_field_missing";
  fail_if all_zero (ack_message_id ack) with envelope_error "message_id_missing";
  success ack.

End MessageProtocol.

Import ProtoCodec MessageProtocol.

#[local] Arguments validate_message_envelope : simpl never.

(** ** The types of the members *)

Definition header_typed (h : MessageHeader) : Prop := bytes_ok (header_name h) /\ bytes_ok (header_value h).

Record envelope_typed (e : MessageEnvelope) : Prop := {
  typed_id : sized 16 (message_id e);
  typed_type : bytes_ok (type e);
  typed_schema : is_u32 (schema_version e);
  typed_ttl : is_u32 (ttl_milliseconds e);
  typed_headers : Forall header_typed (headers e);
  typed_payload : bytes_ok (envelope_payload e) /\ zlen (envelope_payload e) < 2 ^ 64;
  typed_time : collected is_u64 (wall_time_unix_milliseconds e);
}.

Definition ack_typed (a : MessageAckBody) : Prop := sized 16 (ack_message_id a).

(** What a valid envelope keeps to. *)
Record envelope_valid (e : MessageEnvelope) (limits : Limits) : Prop := {
  valid_id : all_zero (message_id e) = false;
  valid_type : 1 <= zlen (type e) <= 128 /\ name_token (type e) = true;
  valid_schema : schema_version e <> 0;
  valid_ttl : 1 <= ttl_milliseconds e <= 600000;
  valid_mode : delivery_mode e = MessageDeliveryMode.best_effort \/ delivery_mode e = MessageDeliveryMode.peer_acked;
  valid_count : zlen (headers e) <= 64;
  valid_headers : Forall (fun h => 1 <= zlen (header_name h) <= 64 /\ name_token (header_name h) = true /\
                                   zlen (header_value h) <= 256) (headers e);
  valid_payload : zlen (envelope_payload e) <= max_message_bytes limits;
}.

Lemma validate_headers_spec hs :
  validate_headers hs = success tt <->
  Forall (fun h => 1 <= zlen (header_name h) <= 64 /\ name_token (header_name h) = true /\
                   zlen (header_value h) <= 256) hs.
Proof.
  unfold validate_headers, max_message_header_name_bytes, max_message_header_value_bytes.
  induction hs as [| h hs IH]; [done |]. rewrite Forall_cons, <- IH. clear IH.
  assert (Hz := zlen_nonneg (header_name h)). split.
  - intros H. destruct (_ || _) eqn:E1 in H; [done |]. destruct (_ <? _) eqn:E2 in H; [done |].
    split; [| done]. split_and!; [lia | lia | by destruct (name_token _); [| lia] | lia].
  - intros ((H1 & H2 & H3) & H4). rewrite H2. rewrite (proj2 (orb_false_iff _ _)) by (cbn; lia).
    by rewrite (proj2 (Z.ltb_ge _ _)) by lia.
Qed.

Lemma mode_named_spec m :
  mode_named m = true <-> m = MessageDeliveryMode.best_effort \/ m = MessageDeliveryMode.peer_acked.
Proof. unfold mode_named. by rewrite orb_true_iff, !bool_decide_eq_true. Qed.

Lemma validate_envelope_spec e limits :
  validate_message_envelope e limits = success tt <->
  (all_zero (message_id e) = false /\ (1 <= zlen (type e) <= 128 /\ name_token (type e) = true) /\
   schema_version e <> 0 /\ 1 <= ttl_milliseconds e <= 600000 /\ mode_named (delivery_mode e) = true /\
   zlen (headers e) <= 64 /\ validate_headers (headers e) = success tt /\
   zlen (envelope_payload e) <= max_message_bytes limits).
Proof.
  unfold validate_message_envelope, max_message_type_bytes, min_message_ttl_milliseconds,
    max_message_ttl_milliseconds, max_message_headers. assert (Hz := zlen_nonneg (type e)). split.
  - intros H. inv_step H.
    split_and!; done || lia || (repeat match goal with x : unit |- _ => destruct x end; done).
  - intros (-> & (Ht & ->) & Hs & Hl & -> & Hc & Hv & Hp).
    rewrite (proj2 (orb_false_iff _ _)) by (cbn; lia). rewrite (proj2 (Z.eqb_neq _ _)) by done.
    rewrite (proj2 (orb_false_iff _ _)) by lia. cbn [negb]. rewrite (proj2 (Z.ltb_ge _ _)) by lia. rewrite Hv.
    cbn [result_bind]. by rewrite (proj2 (Z.ltb_ge _ _)) by lia.
Qed.

Lemma validate_envelope_valid e limits :
  validate_message_envelope e limits = success tt <-> envelope_valid e limits.
Proof.
  rewrite validate_envelope_spec, mode_named_spec, validate_headers_spec. split.
  - intros (? & ? & ? & ? & ? & ? & ? & ?). by split.
  - intros []. tauto.
Qed.

(** ** The envelope codec *)

Definition header_fields (h : MessageHeader) : list ProtoField :=
  [bytes_field 1 (header_name h); bytes_field 2 (header_value h)].

Definition header_field (h : MessageHeader) : ProtoField := bytes_field 6 (encode_fields (header_fields h)).

Definition time_fields (time : option Z) : list ProtoField :=
  match time with Some time => [uint_field 8 time] | None => [] end.

Definition envelope_fields (e : MessageEnvelope) : list ProtoField :=
  [bytes_field 1 (message_id e); bytes_field 2 (type e); uint_field 3 (schema_version e);
   uint_field 4 (ttl_milliseconds e); uint_field 5 (delivery_mode_value (delivery_mode e))]
  ++ map header_field (headers e)
  ++ [bytes_field 7 (envelope_payload e)] ++ time_fields (wall_time_unix_milliseconds e).

Lemma append_header_field output h : append_header_entry output h = output ++ encode_field (header_field h).
Proof.
  unfold append_header_entry, append_text, header_field. rewrite append_bytes_field. do 2 f_equal.
  unfold header_fields. f_equal. fold_writers.
Qed.

Lemma append_header_fields hs output :
  foldl append_header_entry output hs = output ++ encode_fields (map header_field hs).
Proof.
  revert output. induction hs as [| h hs IH]; intros output; cbn [foldl map]; [by rewrite app_nil_r |].
  rewrite IH, append_header_field. unfold encode_fields. cbn [map concat]. by rewrite <- app_assoc.
Qed.

Lemma encode_envelope_layout e limits b :
  encode_message_envelope e limits = success b <->
  validate_message_envelope e limits = success tt /\ b = encode_fields (envelope_fields e).
Proof.
  unfold encode_message_envelope. rewrite result_bind_success.
  match goal with |- (exists x, _ /\ success ?o = _) <-> _ => assert (E : o = encode_fields (envelope_fields e)) end.
  { rewrite append_header_fields. unfold envelope_fields, append_text. rewrite !encode_fields_app.
    destruct (wall_time_unix_milliseconds e); cbn [time_fields]; fold_writers. }
  rewrite E. split; [intros ([] & Hv & [= <-]); done | intros [Hv ->]; by exists tt].
Qed.

Lemma header_fields_ok h :
  header_typed h -> zlen (header_name h) <= 64 -> zlen (header_value h) <= 256 -> Forall field_ok (header_fields h).
Proof. intros [Hn Hv] Ln Lv. unfold header_fields. rewrite !Forall_cons. split_and!; [apply bytes_field_ok; (done || lia).. | done]. Qed.

Lemma header_field_ok h :
  header_typed h -> zlen (header_name h) <= 64 -> zlen (header_value h) <= 256 -> field_ok (header_field h).
Proof.
  intros Ht Ln Lv. assert (Hok := header_fields_ok h Ht Ln Lv).
  apply bytes_field_ok; [lia | by apply encode_fields_bytes_ok |]. destruct Ht as [Hn Hv].
  unfold header_fields, encode_fields. cbn [map concat]. autorewrite with wire.
  assert (H1 := zlen_bytes_field 1 (header_name h) ltac:(lia) Hn ltac:(lia)).
  assert (H2 := zlen_bytes_field 2 (header_value h) ltac:(lia) Hv ltac:(lia)). lia.
Qed.

Lemma mode_value_range m :
  m = MessageDeliveryMode.best_effort \/ m = MessageDeliveryMode.peer_acked -> is_u64 (delivery_mode_value m).
Proof. by intros [-> | ->]. Qed.

Lemma envelope_fields_ok e limits :
  envelope_typed e -> envelope_valid e limits -> Forall field_ok (envelope_fields e).
Proof.
  intros [[B1 L1] B2 U3 U4 Hh [B7 L7] U8] []. unfold is_u32 in *. unfold envelope_fields.
  rewrite !Forall_app. split_and!.
  - rewrite !Forall_cons. split_and!; [apply bytes_field_ok; (done || lia).. | | | | done];
      apply uint_field_ok; try lia; [unfold is_u64; lia.. | by apply mode_value_range].
  - apply Forall_map, Forall_forall. intros h Hin. rewrite Forall_forall in Hh, valid_headers0.
    destruct (valid_headers0 h Hin) as (? & _ & ?). apply header_field_ok; [by apply Hh | lia | lia].
  - rewrite Forall_cons. split; [apply bytes_field_ok; (done || lia) | done].
  - destruct (wall_time_unix_milliseconds e) as [time |]; [| constructor]. cbn [time_fields]. rewrite Forall_cons. split; [| done].
    apply uint_field_ok; [lia | by apply U8].
Qed.

Lemma envelope_step_header p h :
  header_typed h -> zlen (header_name h) <= 64 -> zlen (header_value h) <= 256 ->
  zlen (headers (envelope p)) < 64 ->
  envelope_step p (header_field h) =
  success {| p with envelope := {| (envelope p) with headers := headers (envelope p) ++ [h] |} |}.
Proof.
  intros Ht Ln Lv Hl. unfold envelope_step, header_field. cbn [number wire_type bytes_field Z.eqb Pos.eqb andb field_bytes].
  rewrite (proj2 (Z.leb_gt _ _)) by (unfold max_message_headers; lia).
  rewrite parse_proto_encode by (by apply header_fields_ok). by destruct h.
Qed.

Lemma fold_headers hs p rest :
  Forall header_typed hs ->
  Forall (fun h => 1 <= zlen (header_name h) <= 64 /\ name_token (header_name h) = true /\
                   zlen (header_value h) <= 256) hs ->
  zlen (headers (envelope p)) + zlen hs <= 64 ->
  fold_fields envelope_step (map header_field hs ++ rest) p =
  fold_fields envelope_step rest {| p with envelope := {| (envelope p) with headers := headers (envelope p) ++ hs |} |}.
Proof.
  intros Ht Hv. revert p. induction Ht as [| h hs Hh Ht IH]; intros p Hl; cbn [map app].
  { rewrite app_nil_r. by destruct p as [[] ]. }
  apply Forall_cons in Hv as [(Hn & _ & Hw) Hv]. rewrite zlen_cons in Hl. assert (Hz := zlen_nonneg hs).
  erewrite fold_fields_cons by (apply envelope_step_header; done || lia). rewrite IH by (try done; cbn; rewrite zlen_app; change (zlen [h]) with 1; lia).
  cbn. by rewrite <- app_assoc.
Qed.

Lemma mode_parsed m p :
  m = MessageDeliveryMode.best_effort \/ m = MessageDeliveryMode.peer_acked ->
  envelope_step p (uint_field 5 (delivery_mode_value m)) =
  success {| p with envelope := {| (envelope p) with delivery_mode := m |}; have_mode := true |}.
Proof. by intros [-> | ->]. Qed.

Lemma parse_encode_envelope e limits b :
  envelope_typed e -> encode_message_envelope e limits = success b -> zlen b <= max_message_bytes limits ->
  parse_message_envelope b limits = success e.
Proof.
  intros Ht [Hv ->]%encode_envelope_layout Hz. assert (Hok := proj1 (validate_envelope_valid _ _) Hv).
  assert (Hfields := envelope_fields_ok e limits Ht Hok). destruct Hok, Ht as [[B1 L1] B2 U3 U4 Hh [B7 L7] U8].
  unfold parse_message_envelope. rewrite (proj2 (Z.ltb_ge _ _)) by lia. rewrite parse_proto_encode by done.
  unfold envelope_fields. cbn [app].
  erewrite fold_fields_cons by (cbn; rewrite L1; reflexivity). erewrite fold_fields_cons by (cbn; reflexivity).
  erewrite fold_fields_cons by (cbn; rewrite u32_small by done; reflexivity).
  erewrite fold_fields_cons by (cbn; rewrite u32_small by done; reflexivity).
  erewrite fold_fields_cons by (by apply mode_parsed). cbn.
  rewrite fold_headers by (try done; cbn; rewrite zlen_nil; lia). cbn. destruct e as [i t s l m hs pl [w |]]; cbn in *; by rewrite Hv.
Qed.

(** The encoding has room for every header at its largest. *)
Lemma encode_envelope_bound e limits b :
  envelope_typed e -> encode_message_envelope e limits = success b ->
  bytes_ok b /\ zlen b <= max_message_bytes limits + 32768.
Proof.
  intros Ht [Hv ->]%encode_envelope_layout. apply validate_envelope_valid in Hv.
  assert (Hfields := envelope_fields_ok e limits Ht Hv). split; [by apply encode_fields_bytes_ok |].
  destruct Hv, Ht as [[B1 L1] B2 U3 U4 Hh [B7 L7] U8]. unfold is_u32 in *. unfold envelope_fields. cbn [app].
  unfold encode_fields. cbn [map concat]. rewrite map_app, concat_app. cbn [map concat app]. autorewrite with wire.
  assert (H1 := zlen_bytes_field 1 _ ltac:(lia) B1 ltac:(lia)).
  assert (H2 := zlen_bytes_field 2 _ ltac:(lia) B2 ltac:(lia)).
  assert (H3 := zlen_uint_field 3 _ ltac:(lia) (ltac:(unfold is_u64; lia) : is_u64 (schema_version e))).
  assert (H4 := zlen_uint_field 4 _ ltac:(lia) (ltac:(unfold is_u64; lia) : is_u64 (ttl_milliseconds e))).
  assert (H5 := zlen_uint_field 5 _ ltac:(lia) (mode_value_range _ valid_mode0)).
  assert (H7 := zlen_bytes_field 7 _ ltac:(lia) B7 ltac:(lia)).
  assert (H6 : zlen (encode_fields (map header_field (headers e))) <= 400 * zlen (map header_field (headers e))).
  { apply encode_fields_bound, Forall_map, Forall_forall. intros h Hin. rewrite Forall_forall in Hh, valid_headers0.
    destruct (valid_headers0 h Hin) as (Ln & _ & Lv). destruct (Hh h Hin) as [Bn Bv].
    assert (K1 := zlen_bytes_field 1 _ ltac:(lia) Bn ltac:(lia)).
    assert (K2 := zlen_bytes_field 2 _ ltac:(lia) Bv ltac:(lia)).
    unfold header_field. etransitivity; [apply zlen_bytes_field; [lia | |] |];
      unfold header_fields, encode_fields; cbn [map concat]; rewrite ?app_nil_r; autorewrite with wire; try lia.
    apply bytes_ok_app. split; apply encode_field_bytes_ok, bytes_field_ok; done || lia. }
  unfold encode_fields in H6. replace (zlen (map header_field (headers e))) with (zlen (headers e)) in H6
    by (unfold zlen; by rewrite length_map).
  assert (H8 : zlen (concat (map encode_field (time_fields (wall_time_unix_milliseconds e)))) <= 20).
  { destruct (wall_time_unix_milliseconds e) as [w |]; cbn; [| unfold zlen; cbn; lia]. rewrite app_nil_r. apply zlen_uint_field; [lia | by apply U8]. }
  lia.
Qed.

(** ** What is parsed is well formed *)

Definition header_parsed (p : MessageHeader * bool) : Prop := header_typed (fst p).

Lemma header_step_typed p f p' :
  field_ok f -> header_parsed p -> header_step p f = success p' -> header_parsed p'.
Proof.
  intros Hf [H1 H2] H. destruct p as [h k]. unfold header_step in H.
  assert (Hb : wire_type f = 2 -> bytes_ok (field_bytes f)) by (by apply field_bytes_ok).
  repeat match type of H with (if ?c then _ else _) = _ => destruct c eqn:? end; injection H as <-; split; cbn in *; try done; apply Hb; lia.
Qed.

Lemma parse_header_typed input h k :
  bytes_ok input -> parse_proto header_step input "proto" (mkHeader [] [], false) = success (h, k) -> header_typed h.
Proof.
  intros Hok H. change (header_parsed (h, k)). eapply parse_proto_invariant; [| exact Hok | | exact H]; [exact header_step_typed |].
  split; apply bytes_ok_nil.
Qed.

Definition envelope_collected (p : EnvelopeFields) : Prop :=
  (bytes_ok (message_id (envelope p)) /\ zlen (message_id (envelope p)) = 16) /\
  bytes_ok (type (envelope p)) /\ is_u32 (schema_version (envelope p)) /\
  is_u32 (ttl_milliseconds (envelope p)) /\ Forall header_typed (headers (envelope p)) /\
  (bytes_ok (envelope_payload (envelope p)) /\ zlen (envelope_payload (envelope p)) < 2 ^ 64) /\
  collected is_u64 (wall_time_unix_milliseconds (envelope p)).

Lemma envelope_step_typed p f p' :
  field_ok f -> envelope_collected p -> envelope_step p f = success p' -> envelope_collected p'.
Proof.
  intros Hf ([H1 H1'] & H2 & H3 & H4 & H5 & [H6 H6'] & H7) H. unfold envelope_step in H.
  assert (Hb : wire_type f = 2 -> bytes_ok (field_bytes f)) by (by apply field_bytes_ok).
  assert (Hl : wire_type f = 2 -> zlen (field_bytes f) < 2 ^ 64) by (by apply field_bytes_short).
  assert (Hi : wire_type f = 0 -> is_u64 (integer f)) by (by apply integer_u64).
  repeat match type of H with (if ?c then _ else _) = _ => destruct c eqn:? end; try discriminate H;
    try (apply result_bind_success in H as ([h k] & Hh%parse_header_typed & H); [| apply Hb; lia];
         destruct (negb k); [discriminate H |]);
    injection H as <-; unfold envelope_collected; cbn; split_and!; try done; try apply u32_is;
    try (apply Hb; lia); try (apply Hl; lia); try lia.
  - by apply Forall_app_2; [| constructor].
  - apply collected_some, Hi. lia.
Qed.

Lemma parse_envelope_sound payload limits e :
  bytes_ok payload -> parse_message_envelope payload limits = success e ->
  envelope_typed e /\ envelope_valid e limits /\ zlen payload <= max_message_bytes limits.
Proof.
  intros Hok H. unfold parse_message_envelope in H. destruct (_ <? _) eqn:Hz; [done |].
  apply result_bind_success in H as (p & Hp & H). destruct (_ || _) in H; [done |].
  apply result_bind_success in H as ([] & Hv & H). injection H as <-.
  assert (Hc : envelope_collected p).
  { eapply parse_proto_invariant; [exact envelope_step_typed | exact Hok | | exact Hp].
    unfold envelope_collected. cbn. split_and!; done || concrete. }
  destruct Hc as ([? ?] & ? & ? & ? & ? & ? & ?).
  split_and!; [by split | by apply validate_envelope_valid | lia].
Qed.

(** C24. The message envelope on the wire: an envelope that encodes is parsed back
    unchanged by a peer with the same limits when its encoding is within
    [max_message_bytes], and refused as oversized when it is not, since the encoder
    bounds the payload only and the parser the whole envelope; and whatever the
    parser returns, from any bytes, has an identifier of sixteen bytes and passes
    the validation the sender applies. *)
Theorem message_envelope_codec limits :
  (forall e b, envelope_typed e -> encode_message_envelope e limits = success b ->
     parse_message_envelope b limits =
     if max_message_bytes limits <? zlen b then failure (envelope_error "envelope_oversized") else success e) /\
  (forall payload e, bytes_ok payload -> parse_message_envelope payload limits = success e ->
     envelope_typed e /\ envelope_valid e limits /\ zlen payload <= max_message_bytes limits).
Proof.
  split; [| intros payload e; apply parse_envelope_sound].
  intros e b Ht He. destruct (Z.ltb_spec (max_message_bytes limits) (zlen b)) as [Hz | Hz].
  - unfold parse_message_envelope. by rewrite (proj2 (Z.ltb_lt _ _)).
  - by apply parse_encode_envelope.
Qed.

(** ** Acknowledgements *)

Definition ack_fields (a : MessageAckBody) : list ProtoField :=
  [bytes_field 1 (ack_message_id a); uint_field 2 (if protocol_accepted a then 1 else 0)].

Lemma encode_ack_layout a :
  encode_message_ack a =
  if all_zero (ack_message_id a) then failure (envelope_error "message_id_missing")
  else success (encode_fields (ack_fields a)).
Proof. unfold encode_message_ack, ack_fields. destruct (all_zero _); [done |]. f_equal. fold_writers. Qed.

Lemma ack_fields_ok a : ack_typed a -> Forall field_ok (ack_fields a).
Proof.
  intros Ht. unfold ack_fields. rewrite !Forall_cons. split_and!; [| | done].
  - eapply sized_field_ok; [lia | done | lia].
  - apply uint_field_ok; [lia |]. unfold is_u64. destruct (protocol_accepted a); lia.
Qed.

Lemma parse_encode_ack a b :
  ack_typed a -> encode_message_ack a = success b ->
  parse_message_ack b = success a /\ bytes_ok b /\ zlen b <= 56.
Proof.
  intros Ht H. rewrite encode_ack_layout in H. destruct (all_zero _) eqn:Hz; [done |]. injection H as <-.
  assert (Hok := ack_fields_ok a Ht). destruct Ht as [B L]. split_and!.
  - unfold parse_message_ack. rewrite parse_proto_encode by done. unfold ack_fields.
    erewrite fold_fields_cons by (cbn; rewrite L; reflexivity). erewrite fold_fields_cons by (cbn; reflexivity).
    destruct a as [i []]; cbn in *; by rewrite Hz.
  - by apply encode_fields_bytes_ok.
  - unfold ack_fields, encode_fields. cbn [map concat]. autorewrite with wire.
    assert (H1 := zlen_bytes_field 1 _ ltac:(lia) B ltac:(lia)).
    assert (H2 : zlen (encode_field (uint_field 2 (if protocol_accepted a then 1 else 0))) <= 20).
    { apply zlen_uint_field; [lia |]. unfold is_u64. destruct (protocol_accepted a); lia. } lia.
Qed.

Definition ack_collected (p : MessageAckBody * bool) : Prop := ack_typed (fst p).

Lemma ack_step_typed p f p' : field_ok f -> ack_collected p -> ack_step p f = success p' -> ack_collected p'.
Proof.
  intros Hf [H1 H2] H. destruct p as [a k]. unfold ack_step in H.
  assert (Hb : wire_type f = 2 -> bytes_ok (field_bytes f)) by (by apply field_bytes_ok).
  repeat match type of H with (if ?c then _ else _) = _ => destruct c eqn:? end; try discriminate H;
    injection H as <-; split; cbn in *; try done; [apply Hb; lia | lia].
Qed.

Lemma parse_ack_sound payload a :
  bytes_ok payload -> parse_message_ack payload = success a -> ack_typed a /\ all_zero (ack_message_id a) = false.
Proof.
  intros Hok H. unfold parse_message_ack in H. apply result_bind_success in H as ([b k] & Hp & H).
  destruct (negb k); [done |]. destruct (all_zero _) eqn:Hz; [done |]. injection H as <-. split; [| done].
  change (ack_collected (b, k)). eapply parse_proto_invariant; [exact ack_step_typed | exact Hok | | exact Hp].
  split; concrete.
Qed.
