(* ===== verification/MessageService.v ===== *)
(** * The message service

    [src/client/message_service.hpp] and [src/client/message_service.cpp]:
    envelopes sent and received over one peer session. A message of the peer-acked
    mode is tracked until its acknowledgement, its lifetime or the session ends;
    inbound envelopes are deduplicated by id in a bounded cache, checked against
    the scope of the session and handed to the executor.

    The session, the wall clock, the random source, the executor and the scope
    check are the interface [MessageSession]: the clock may answer anything at each
    reading. [std::map] is a finite map iterated in key order. A call of a sink is
    an event of a log; a sink that calls back into the service before it returns is
    not modelled. A dispatched handler runs later, as the step [run_task], or never. *)

From Stdlib Require Import ZArith Lia ZifyBool String.
From stdpp Require Import base tactics option list gmap strings numbers.
From S2P Require Import Prelude Errors Limits Varint Wire Identifiers ProtoCodec FieldCodec Protocol Identity Signing Clock.
From S2P Require Import SessionChannels PairingProtocol PeerSession ServiceSession Effects MessageProtocol.
#[local] Open Scope Z_scope.

Module MessageService.
Import Wire MessageProtocol Effects.
#[local] Open Scope effect_scope.

Definition envelope_digest_bytes : Z := 32.

(** The digest array starts zeroed, and the status of the hash is not looked at. *)
Definition envelope_digest `{Sodium} (encoded : list Z) : list Z :=
  default (repeat 0 32) (crypto_hash_sha256 encoded).

Definition message_service_error (code : ErrorCode) (detail : string) : Error :=
  make_error code "message" detail.

(** What the service calls: the session with the clock, [dispatch_], and
    [scope_check_] with the scope of message senders. [random_message_id] is the
    value with which the loop of the function of that name ended. *)
Class MessageSession (E : Type) : Type := {
  message_session :: ServiceSession E;
  random_message_id : E -> list Z * E;
  dispatch : E -> Result unit * E;
  scope_covers : E -> bool;
}.

Record MessageServiceConfig : Type := mkMessageConfig {
  dedup_capacity : Z;
  pending_ack_capacity : Z;
  channel_frame_capacity : Z;
  channel_byte_capacity : Z;
}.

Definition default_message_config : MessageServiceConfig := mkMessageConfig 512 256 256 (1024 * 1024).

Record MessageServiceStats : Type := mkMessageStats {
  sent_best_effort : Z;
  sent_peer_acked : Z;
  send_rejected : Z;
  acked : Z;
  ack_rejected : Z;
  ack_timed_out : Z;
  unknown_acks : Z;
  acks_on_closed : Z;
  received : Z;
  invalid_envelopes : Z;
  duplicates : Z;
  dedup_expired : Z;
  dedup_evictions : Z;
  scope_rejected : Z;
  acks_sent : Z;
  ack_send_failures : Z;
  dispatched : Z;
  dispatch_rejected : Z;
  handler_completed : Z;
  handler_exceptions : Z;
}.

Definition new_message_stats : MessageServiceStats := mkMessageStats 0 0 0 0 0 0 0 0 0 0 0 0 0 0 0 0 0 0 0 0.

Record DispatchRecord : Type := mkDispatchRecord {
  done : bool;
  completed : Z;
  exceptions : Z;
}.

Record DedupEntry : Type := mkDedupEntry {
  dedup_expires : Z;
  dedup_digest : list Z;
}.

Record PendingAck : Type := mkPendingAck {
  ack_expires : Z;
}.

(** A call of the acknowledgement sink, and a run of the inbound sink. *)
Inductive Event : Type :=
  | Ack (id : list Z) (event : MessageDeliveryEvent) (error : option Error)
  | Handled (envelope : MessageEnvelope).

(** The members, of the function-valued ones whether they are set; with the tasks
    the executor has taken and not run, and the log of the sinks. *)
Record MessageService (E : Type) : Type := mkMessageService {
  session_ : E;
  config_ : MessageServiceConfig;
  dispatch_ : bool;
  scope_check_ : bool;
  inbound_sink_ : bool;
  ack_sink_ : bool;
  dedup_ : gmap (list Z) DedupEntry;
  pending_acks_ : gmap (list Z) PendingAck;
  dispatch_records_ : gmap Z DispatchRecord;
  next_dispatch_id_ : Z;
  stats_ : MessageServiceStats;
  channel_id_ : Z;
  owned_channels_ : list Z;
  attached_ : bool;
  tasks_ : gmap Z MessageEnvelope;
  log_ : list Event;
}.
Arguments mkMessageService {E}.
Arguments session_ {E}.
Arguments config_ {E}.
Arguments dispatch_ {E}.
Arguments scope_check_ {E}.
Arguments inbound_sink_ {E}.
Arguments ack_sink_ {E}.
Arguments dedup_ {E}.
Arguments pending_acks_ {E}.
Arguments dispatch_records_ {E}.
Arguments next_dispatch_id_ {E}.
Arguments stats_ {E}.
Arguments channel_id_ {E}.
Arguments owned_channels_ {E}.
Arguments attached_ {E}.
Arguments tasks_ {E}.
Arguments log_ {E}.

Definition new_message_service {E} (session : E) (config : MessageServiceConfig) (dispatch scope_check : bool)
    : MessageService E :=
  mkMessageService session config dispatch scope_check false false ∅ ∅ ∅ 1 new_message_stats 0 [] false ∅ [].

(** A call of the session. *)
Definition session_call {E A} (f : E -> option (A * E)) : M (MessageService E) A := fun s =>
  match f (session_ s) with
  | Some (a, e) => Some (a, {| s with session_ := e |})
  | None => None
  end.
Definition session_do {E} (f : E -> option E) : M (MessageService E) unit :=
  session_call (fun e => match f e with Some e => Some (tt, e) | None => None end).

Definition count {E} (f : MessageServiceStats -> MessageServiceStats) : M (MessageService E) unit :=
  modify (fun s => {| s with stats_ := f (stats_ s) |}).

Definition emit {E} (e : Event) : M (MessageService E) unit :=
  modify (fun s => {| s with log_ := log_ s ++ [e] |}).

Section service.
Context {E : Type} `{!MessageSession E} `{Sodium}.
Abbreviation Op := (M (MessageService E)).

Definition now : Op Z := session_call (fun e => Some (wall_clock e)).

Definition config_valid (c : MessageServiceConfig) : bool :=
  negb ((dedup_capacity c =? 0) || (65536 <? dedup_capacity c)
        || (pending_ack_capacity c =? 0) || (65536 <? pending_ack_capacity c)
        || (channel_frame_capacity c =? 0) || (65536 <? channel_frame_capacity c)
        || (channel_byte_capacity c =? 0) || (256 * 1024 * 1024 <? channel_byte_capacity c)).

Definition attach : Op (Result unit) :=
  let* s := get id in
  if attached_ s then ret (success tt)
  else if negb (config_valid (config_ s)) then
    ret (failure (message_service_error ErrorCode.configuration "message_config_invalid"))
  else if negb (dispatch_ s) then
    ret (failure (message_service_error ErrorCode.configuration "dispatch_missing"))
  else
    let* opened := session_call (fun e => session_open_channel e ChannelDomain.message QueueFullPolicy.reject
                     (channel_frame_capacity (config_ s)) (channel_byte_capacity (config_ s))) in
    match opened with
    | failure error => ret (failure error)
    | success channel =>
        modify (fun s => {| s with channel_id_ := channel; owned_channels_ := owned_channels_ s ++ [channel];
                                   session_ := session_domain_handler (session_ s) ChannelDomain.message true;
                                   attached_ := true |}) ;;
        ret (success tt)
    end.

Definition observe_ack (id : list Z) (event : MessageDeliveryEvent) (error : option Error) : Op unit :=
  let* set := get ack_sink_ in
  if set then emit (Ack id event error) else ret tt.

(** The two loops of [prune_expired]; [current] is read once. *)
Definition expire_dedup (current : Z) : Op unit :=
  let* entries := get (fun s => iterate (dedup_ s)) in
  each (fun kv =>
    if dedup_expires (snd kv) <=? current then
      count (fun t => {| t with dedup_expired := u64 (dedup_expired t + 1) |}) ;;
      modify (fun s => {| s with dedup_ := delete (fst kv) (dedup_ s) |})
    else ret tt) entries.

Definition expire_acks (current : Z) : Op unit :=
  let* entries := get (fun s => iterate (pending_acks_ s)) in
  each (fun kv =>
    if ack_expires (snd kv) <=? current then
      count (fun t => {| t with ack_timed_out := u64 (ack_timed_out t + 1) |}) ;;
      modify (fun s => {| s with pending_acks_ := delete (fst kv) (pending_acks_ s) |}) ;;
      observe_ack (fst kv) MessageDeliveryEvent.ack_timeout
        (Some (message_service_error ErrorCode.timeout "ack_ttl_expired"))
    else ret tt) entries.

Definition prune_expired : Op unit :=
  let* current := now in
  expire_dedup current ;;
  expire_acks current.

(** The entry with the smallest id ages out when the table is full. *)
Definition make_ack_room : Op unit :=
  let* s := get id in
  match iterate (pending_acks_ s) with
  | (oldest, _) :: _ =>
      if pending_ack_capacity (config_ s) <=? msize (pending_acks_ s) then
        count (fun t => {| t with ack_timed_out := u64 (ack_timed_out t + 1) |}) ;;
        observe_ack oldest MessageDeliveryEvent.ack_timeout
          (Some (message_service_error ErrorCode.timeout "ack_tracking_capacity")) ;;
        modify (fun s => {| s with pending_acks_ := delete oldest (pending_acks_ s) |})
      else ret tt
  | [] => ret tt
  end.

(** Both failures of [send] after the id is known. *)
Definition reject_send (id : list Z) (error : Error) : Op (Result (list Z)) :=
  count (fun t => {| t with send_rejected := u64 (send_rejected t + 1) |}) ;;
  observe_ack id MessageDeliveryEvent.send_failed (Some error) ;;
  ret (failure error).

Definition is_peer_acked (envelope : MessageEnvelope) : bool :=
  bool_decide (delivery_mode envelope = MessageDeliveryMode.peer_acked).

(** The tracking of a message of the peer-acked mode. *)
Definition track_ack (envelope : MessageEnvelope) : Op unit :=
  count (fun t => {| t with sent_peer_acked := u64 (sent_peer_acked t + 1) |}) ;;
  prune_expired ;;
  make_ack_room ;;
  let* current := now in
  modify (fun s => {| s with pending_acks_ :=
    <[message_id envelope := mkPendingAck (u64 (current + ttl_milliseconds envelope))]> (pending_acks_ s) |}) ;;
  observe_ack (message_id envelope) MessageDeliveryEvent.queued None.

(** [send] once the envelope has an id. *)
Definition send_assigned (envelope : MessageEnvelope) : Op (Result (list Z)) :=
  let id := message_id envelope in
  let* limits := get (fun s => session_limits (session_ s)) in
  match encode_message_envelope envelope limits with
  | failure error => reject_send id error
  | success encoded =>
      let* channel := get channel_id_ in
      let frame := mkFrame (frame_type_value message) 0 channel (repeat 0 16) encoded in
      let* sent := session_call (fun e => session_send_frame e channel FrameClass.standard frame) in
      match sent with
      | failure error => reject_send id error
      | success _ =>
          (if is_peer_acked envelope then track_ack envelope
           else count (fun t => {| t with sent_best_effort := u64 (sent_best_effort t + 1) |})) ;;
          ret (success id)
      end
  end.

Definition send (envelope : MessageEnvelope) : Op (Result (list Z)) :=
  let* attached := get attached_ in
  if negb attached then
    ret (failure (message_service_error ErrorCode.configuration "service_not_attached"))
  else if all_zero (message_id envelope) then
    let* id := session_call (fun e => Some (random_message_id e)) in
    send_assigned {| envelope with message_id := id |}
  else send_assigned envelope.

Definition set_inbound_sink (set : bool) : Op unit := modify (fun s => {| s with inbound_sink_ := set |}).

Definition set_ack_sink (set : bool) : Op unit := modify (fun s => {| s with ack_sink_ := set |}).

Definition merge_dispatch_records : Op unit :=
  let* entries := get (fun s => iterate (dispatch_records_ s)) in
  each (fun kv =>
    if done (snd kv) then
      count (fun t => {| t with handler_completed := u64 (handler_completed t + completed (snd kv));
                                handler_exceptions := u64 (handler_exceptions t + exceptions (snd kv)) |}) ;;
      modify (fun s => {| s with dispatch_records_ := delete (fst kv) (dispatch_records_ s) |})
    else ret tt) entries.

Definition prune : Op unit := merge_dispatch_records ;; prune_expired.

Definition handle_session_closed : Op unit :=
  let* entries := get (fun s => iterate (pending_acks_ s)) in
  each (fun kv =>
    count (fun t => {| t with acks_on_closed := u64 (acks_on_closed t + 1) |}) ;;
    observe_ack (fst kv) MessageDeliveryEvent.session_closed
      (Some (message_service_error ErrorCode.transport "session_closed"))) entries ;;
  modify (fun s => {| s with pending_acks_ := ∅ |}).

(** The first loop that makes room in the full cache: expired entries go, in key
    order, until there is room. *)
Fixpoint drop_expired (entries : list (list Z * DedupEntry)) : Op unit :=
  match entries with
  | [] => ret tt
  | (id, entry) :: entries =>
      let* current := now in
      if dedup_expires entry <=? current then
        count (fun t => {| t with dedup_expired := u64 (dedup_expired t + 1) |}) ;;
        modify (fun s => {| s with dedup_ := delete id (dedup_ s) |}) ;;
        let* s := get Datatypes.id in
        if msize (dedup_ s) <? dedup_capacity (config_ s) then ret tt else drop_expired entries
      else drop_expired entries
  end.

(** The second loop: the entries with the smallest ids go. *)
Fixpoint evict (fuel : nat) : Op unit :=
  let* s := get id in
  match iterate (dedup_ s), fuel with
  | (first, _) :: _, S fuel =>
      if dedup_capacity (config_ s) <=? msize (dedup_ s) then
        count (fun t => {| t with dedup_evictions := u64 (dedup_evictions t + 1) |}) ;;
        modify (fun s => {| s with dedup_ := delete first (dedup_ s) |}) ;;
        evict fuel
      else ret tt
  | _, _ => ret tt
  end.

(** Every turn of the second loop removes an entry. *)
Definition make_dedup_room : Op unit :=
  let* s := get id in
  if dedup_capacity (config_ s) <=? msize (dedup_ s) then
    drop_expired (iterate (dedup_ s)) ;;
    evict (size (dedup_ s))
  else ret tt.

Definition send_ack_for (envelope : MessageEnvelope) (channel_id : Z) : Op unit :=
  match encode_message_ack (mkAck (message_id envelope) true) with
  | failure _ => count (fun t => {| t with ack_send_failures := u64 (ack_send_failures t + 1) |})
  | success encoded =>
      let frame := mkFrame (frame_type_value message_ack) 0 channel_id (repeat 0 16) encoded in
      let* sent := session_call (fun e => session_send_frame e channel_id FrameClass.control frame) in
      match sent with
      | success _ => count (fun t => {| t with acks_sent := u64 (acks_sent t + 1) |})
      | failure _ => count (fun t => {| t with ack_send_failures := u64 (ack_send_failures t + 1) |})
      end
  end.

(** The task of an admitted dispatch is with the executor. *)
Definition deliver_to_handler (envelope : MessageEnvelope) : Op unit :=
  let* set := get inbound_sink_ in
  if negb set then ret tt
  else
    let* record_id := get next_dispatch_id_ in
    modify (fun s => {| s with next_dispatch_id_ := u64 (next_dispatch_id_ s + 1);
                               dispatch_records_ := <[record_id := mkDispatchRecord false 0 0]> (dispatch_records_ s) |}) ;;
    count (fun t => {| t with dispatched := u64 (dispatched t + 1) |}) ;;
    let* dispatched := session_call (fun e => Some (dispatch e)) in
    match dispatched with
    | success _ => modify (fun s => {| s with tasks_ := <[record_id := envelope]> (tasks_ s) |})
    | failure _ =>
        modify (fun s => {| s with dispatch_records_ := delete record_id (dispatch_records_ s) |}) ;;
        count (fun t => {| t with dispatch_rejected := u64 (dispatch_rejected t + 1) |})
    end.

(** The executor runs a task it has taken: the handler returns or throws. *)
Definition run_task (record_id : Z) (throws : bool) : Op unit :=
  let* s := get id in
  match tasks_ s !! record_id with
  | None => ret tt
  | Some envelope =>
      modify (fun s => {| s with tasks_ := delete record_id (tasks_ s) |}) ;;
      emit (Handled envelope) ;;
      match dispatch_records_ s !! record_id with
      | None => ret tt
      | Some r =>
          let r := if throws then {| r with exceptions := u64 (exceptions r + 1) |}
                   else {| r with completed := u64 (completed r + 1) |} in
          modify (fun s => {| s with dispatch_records_ := <[record_id := {| r with done := true |}]> (dispatch_records_ s) |})
      end
  end.

(** The end of [handle_inbound_message], from the bound of the cache on. *)
Definition accept_envelope (frame : Frame) (envelope : MessageEnvelope) : Op unit :=
  make_dedup_room ;;
  let* current := now in
  modify (fun s => {| s with dedup_ :=
    <[MessageProtocol.message_id envelope :=
        mkDedupEntry (u64 (current + ttl_milliseconds envelope)) (envelope_digest (payload frame))]> (dedup_ s) |}) ;;
  let* allowed := get (fun s => scope_check_ s && scope_covers (session_ s)) in
  if negb allowed then
    count (fun t => {| t with scope_rejected := u64 (scope_rejected t + 1) |})
  else
    (if is_peer_acked envelope then send_ack_for envelope (channel_id frame) else ret tt) ;;
    count (fun t => {| t with received := u64 (received t + 1) |}) ;;
    deliver_to_handler envelope.

Definition handle_inbound_message (frame : Frame) : Op unit :=
  prune_expired ;;
  let* limits := get (fun s => session_limits (session_ s)) in
  match parse_message_envelope (payload frame) limits with
  | failure _ => count (fun t => {| t with invalid_envelopes := u64 (invalid_envelopes t + 1) |})
  | success envelope =>
      let digest := envelope_digest (payload frame) in
      let id := MessageProtocol.message_id envelope in
      let* existing := get (fun s => dedup_ s !! id) in
      let* live := match existing with
                   | Some entry => let* current := now in ret (current <? dedup_expires entry)
                   | None => ret false
                   end in
      match existing, live with
      | Some entry, true =>
          if bytes_eqb (dedup_digest entry) digest then
            count (fun t => {| t with duplicates := u64 (duplicates t + 1) |}) ;;
            if is_peer_acked envelope then send_ack_for envelope (channel_id frame) else ret tt
          else
            session_do (fun e => session_fail_channel e (channel_id frame) CloseReason.protocol_error)
      | _, _ =>
          match existing with
          | Some _ =>
              count (fun t => {| t with dedup_expired := u64 (dedup_expired t + 1) |}) ;;
              modify (fun s => {| s with dedup_ := delete id (dedup_ s) |})
          | None => ret tt
          end ;;
          accept_envelope frame envelope
      end
  end.

Definition handle_inbound_ack (frame : Frame) : Op unit :=
  match parse_message_ack (payload frame) with
  | failure _ => count (fun t => {| t with invalid_envelopes := u64 (invalid_envelopes t + 1) |})
  | success ack =>
      let* pending := get (fun s => pending_acks_ s !! ack_message_id ack) in
      match pending with
      | None => count (fun t => {| t with unknown_acks := u64 (unknown_acks t + 1) |})
      | Some _ =>
          modify (fun s => {| s with pending_acks_ := delete (ack_message_id ack) (pending_acks_ s) |}) ;;
          if protocol_accepted ack then
            count (fun t => {| t with acked := u64 (acked t + 1) |}) ;;
            observe_ack (ack_message_id ack) MessageDeliveryEvent.acked None
          else
            count (fun t => {| t with ack_rejected := u64 (ack_rejected t + 1) |}) ;;
            observe_ack (ack_message_id ack) MessageDeliveryEvent.peer_rejected
              (Some (message_service_error ErrorCode.protocol "peer_rejected_envelope"))
      end
  end.

Definition admit_frame (frame : Frame) : Op (Result unit) :=
  let* s := get id in
  if negb (attached_ s) then
    ret (failure (message_service_error ErrorCode.configuration "service_not_attached"))
  else if Wire.type frame =? frame_type_value message then
    let* adopted :=
      if negb (session_has_channel (session_ s) (channel_id frame)) then
        let* adopted := session_call (fun e => session_adopt_channel e (channel_id frame) ChannelDomain.message
                          QueueFullPolicy.reject (channel_frame_capacity (config_ s))
                          (channel_byte_capacity (config_ s))) in
        match adopted with
        | failure error => ret (failure error)
        | success channel =>
            modify (fun s => {| s with owned_channels_ := owned_channels_ s ++ [channel] |}) ;;
            ret (success tt)
        end
      else ret (success tt) in
    match adopted with
    | failure error => ret (failure error)
    | success _ => handle_inbound_message frame ;; ret (success tt)
    end
  else if Wire.type frame =? frame_type_value message_ack then
    handle_inbound_ack frame ;; ret (success tt)
  else ret (failure (message_service_error ErrorCode.protocol "message_domain_frame_unknown")).

Definition handle_frame (frame : Frame) : Op unit := admit_frame frame ;; ret tt.

Definition stats : Op MessageServiceStats := merge_dispatch_records ;; get stats_.

Definition pending_acks (s : MessageService E) : Z := msize (pending_acks_ s).
Definition dedup_entries (s : MessageService E) : Z := msize (dedup_ s).

(** The destructor. *)
Definition destroy : Op unit :=
  modify (fun s => {| s with session_ := session_domain_handler (session_ s) ChannelDomain.message false |}) ;;
  let* channels := get owned_channels_ in
  each (fun channel => session_do (fun e => session_close_channel e channel)) channels.

End service.
End MessageService.
