(* ===== verification/MessageServiceRules.v ===== *)
(** * The operations of the message service, one by one

    What each operation of [MessageService] does to the members, over any session
    whose calls return: the rules from which [MessageServiceRuns] proves what holds
    over whole runs. The counters are left open: no later step depends on them. *)

From Stdlib Require Import ZArith Lia ZifyBool String.
From stdpp Require Import base tactics option list gmap strings numbers.
From S2P Require Import Prelude Errors Limits Varint Wire Identifiers ProtoCodec FieldCodec Protocol Identity Signing Clock.
From S2P Require Import SessionChannels PairingProtocol PeerSession ServiceSession Effects MessageProtocol MessageService.
Import Wire Effects MessageProtocol MessageService.
#[local] Open Scope Z_scope.
#[local] Open Scope effect_scope.

(** ** The session *)

#[export] Instance recorded_session {E} `{!MessageSession E} : MessageSession (Recorded E) := {
  random_message_id := pass_total random_message_id;
  dispatch := pass_total dispatch;
  scope_covers r := scope_covers (inner r);
}.

(** The largest envelope. *)
Definition message_room (l : Limits) : Z := Z.max 0 (max_message_bytes l) + 32768.

(** What the service relies on: the session returns, and the random source draws ids
    of sixteen bytes that are not all zero. *)
Class LawfulSession (E : Type) `{MessageSession E} : Type := {
  message_lawful :: LawfulService E ChannelDomain.message message_room;
  random_ok e : session_ok e ->
    sized 16 (fst (random_message_id e)) /\ all_zero (fst (random_message_id e)) = false /\
    session_ok (snd (random_message_id e));
  dispatch_ok e : session_ok e -> session_ok (snd (dispatch e));
}.

(** The members of a configuration are unsigned. *)
Record config_unsigned (c : MessageServiceConfig) : Prop := {
  dedup_unsigned : 0 <= dedup_capacity c;
  pending_unsigned : 0 <= pending_ack_capacity c;
  frames_unsigned : 0 <= channel_frame_capacity c;
  bytes_unsigned : 0 <= channel_byte_capacity c;
}.

Section rules.
Context {E : Type} `{!MessageSession E} `{!LawfulSession E} `{Sodium}.
Abbreviation Service := (MessageService (Recorded E)).
Implicit Types s : Service.

Definition env_ok s : Prop := session_ok (inner (session_ s)).

(** The service after its session has changed, taken frames and read the clock. *)
Definition after (e : E) (frames : list (FrameClass * Frame)) (ts : list Z) s : Service :=
  {| s with session_ := mkRecorded e (sent (session_ s) ++ frames) (readings (session_ s) ++ ts) |}.

Lemma after_nothing s : after (inner (session_ s)) [] [] s = s.
Proof. unfold after. rewrite !app_nil_r. by destruct s as [[]]. Qed.

Lemma wp_count f (Q : unit -> Service -> Prop) s : (forall st, Q tt {| s with stats_ := st |}) -> wp (count f) Q s.
Proof. intros HQ. apply wp_modify, HQ. Qed.

Lemma wp_now (Q : Z -> Service -> Prop) s :
  env_ok s -> (forall t e, session_ok e -> Q t (after e [] [t] s)) -> wp now Q s.
Proof.
  intros Hs HQ. apply clock_ok in Hs. unfold wp, now, session_call. cbn.
  destruct (wall_clock (inner (session_ s))) as [t e]. do 2 eexists. split; [done |].
  specialize (HQ t e Hs). unfold after in HQ. by rewrite app_nil_r in HQ.
Qed.

Lemma wp_send_frame channel klass frame (Q : Result unit -> Service -> Prop) s :
  env_ok s -> zlen (payload frame) <= message_room (session_limits (inner (session_ s))) ->
  (forall e, session_ok e -> Q (success tt) (after e [(klass, frame)] [] s)) ->
  (forall x e, session_ok e -> Q (failure x) (after e [] [] s)) ->
  wp (session_call (fun e => session_send_frame e channel klass frame)) Q s.
Proof.
  intros Hs Hz H1 H2. destruct (send_ok _ channel klass frame Hs Hz) as (r & e & Er & He).
  unfold wp, session_call. cbn. rewrite Er. destruct r as [[] | x]; do 2 eexists; (split; [done |]).
  - specialize (H1 e He). unfold after in H1. by rewrite app_nil_r in H1.
  - specialize (H2 x e He). unfold after in H2. by rewrite !app_nil_r in H2.
Qed.

(** A call that takes no frame and does not read the clock. *)
Lemma wp_pass {A} (f : E -> option (A * E)) (Q : A -> Service -> Prop) s :
  (exists r e, f (inner (session_ s)) = Some (r, e) /\ session_ok e) ->
  (forall r e, f (inner (session_ s)) = Some (r, e) -> session_ok e -> Q r (after e [] [] s)) ->
  wp (session_call (pass f)) Q s.
Proof.
  intros (r & e & Er & He) HQ. unfold wp, session_call, pass. rewrite Er. do 2 eexists. split; [done |].
  specialize (HQ r e Er He). unfold after in HQ. by rewrite !app_nil_r in HQ.
Qed.

Lemma wp_pass_do (f : E -> option E) (Q : unit -> Service -> Prop) s :
  (exists e, f (inner (session_ s)) = Some e /\ session_ok e) ->
  (forall e, session_ok e -> Q tt (after e [] [] s)) -> wp (session_do (pass_do f)) Q s.
Proof.
  intros (e & Er & He) HQ. unfold wp, session_do, session_call, pass_do. rewrite Er. do 2 eexists. split; [done |].
  specialize (HQ e He). unfold after in HQ. by rewrite !app_nil_r in HQ.
Qed.

(** What the acknowledgement sink hears. *)
Definition heard s (evs : list Event) : list Event := if ack_sink_ s then evs else [].

Lemma wp_observe id event error (Q : unit -> Service -> Prop) s :
  Q tt {| s with log_ := log_ s ++ heard s [Ack id event error] |} -> wp (observe_ack id event error) Q s.
Proof.
  intros HQ. unfold observe_ack. apply wp_bind, wp_get. unfold heard in HQ. destruct s as [? ? ? ? ? []]; cbn in *.
  - apply wp_modify, HQ.
  - apply wp_ret. by rewrite app_nil_r in HQ.
Qed.

(** ** Maintenance *)

Definition expired (current : Z) (e : DedupEntry) : bool := dedup_expires e <=? current.
Definition lapsed (current : Z) (p : PendingAck) : bool := ack_expires p <=? current.

Lemma wp_expire_dedup current (Q : unit -> Service -> Prop) s :
  (forall st, Q tt {| s with dedup_ := filter (fun kv => expired current (snd kv) = false) (dedup_ s); stats_ := st |}) ->
  wp (expire_dedup current) Q s.
Proof.
  intros HQ. unfold expire_dedup. apply wp_bind, wp_get. rewrite <- erase_loop_entries in HQ. unfold erase_loop in HQ.
  revert HQ. generalize 0. generalize (iterate (dedup_ s)). intros l. revert s.
  induction l as [| [k v] l IH]; intros s n HQ; cbn [each].
  - apply wp_ret. specialize (HQ (stats_ s)). by destruct s.
  - apply wp_bind. cbn [foldl fst snd] in *. unfold erase_step at 2, expired at 2 in HQ. cbn [fst snd] in HQ.
    destruct (dedup_expires v <=? current).
    + apply wp_bind, wp_count. intros st. apply wp_modify. by apply (IH _ (n + 1)).
    + apply wp_ret. by apply (IH _ n).
Qed.

(** The entries of an iteration that satisfy a test, by id. *)
Definition ids_where {V} (P : V -> bool) (l : list (list Z * V)) : list (list Z) :=
  map fst (List.filter (fun kv => P (snd kv)) l).

Definition timeout_event (id : list Z) : Event :=
  Ack id MessageDeliveryEvent.ack_timeout (Some (message_service_error ErrorCode.timeout "ack_ttl_expired")).

Lemma heard_app s (a b : list Event) : heard s (a ++ b) = heard s a ++ heard s b.
Proof. unfold heard. by destruct (ack_sink_ s). Qed.

Lemma wp_expire_acks current (Q : unit -> Service -> Prop) s :
  (forall st, Q tt {| s with
     pending_acks_ := filter (fun kv => lapsed current (snd kv) = false) (pending_acks_ s);
     log_ := log_ s ++ heard s (map timeout_event (ids_where (lapsed current) (iterate (pending_acks_ s))));
     stats_ := st |}) ->
  wp (expire_acks current) Q s.
Proof.
  intros HQ. unfold expire_acks. apply wp_bind, wp_get. rewrite <- erase_loop_entries in HQ. unfold erase_loop in HQ.
  revert HQ. generalize 0. generalize (iterate (pending_acks_ s)). intros l. revert s.
  induction l as [| [k v] l IH]; intros s n HQ; cbn [each].
  - apply wp_ret. specialize (HQ (stats_ s)). cbn in HQ. unfold heard in HQ.
    replace (if ack_sink_ s then [] else []) with (@nil Event) in HQ by by destruct (ack_sink_ s).
    rewrite app_nil_r in HQ. by destruct s.
  - apply wp_bind. unfold ids_where in *. cbn [foldl List.filter fst snd] in *.
    unfold erase_step at 2, lapsed at 2 in HQ. unfold lapsed at 2 in HQ. cbn [fst snd] in HQ.
    destruct (ack_expires v <=? current); cbn [map] in HQ.
    + apply wp_bind, wp_count. intros st. apply wp_bind, wp_modify, wp_observe. apply (IH _ (n + 1)). intros st'.
      specialize (HQ st'). revert HQ. unfold heard. cbn. rewrite <- app_assoc. by destruct (ack_sink_ s).
    + apply wp_ret. by apply (IH _ n).
Qed.

(** The service after a reading [t] of [prune_expired]. *)
Definition pruned (t : Z) (e : E) (st : MessageServiceStats) s : Service :=
  let s := after e [] [t] s in
  {| s with dedup_ := filter (fun kv => expired t (snd kv) = false) (dedup_ s);
            pending_acks_ := filter (fun kv => lapsed t (snd kv) = false) (pending_acks_ s);
            log_ := log_ s ++ heard s (map timeout_event (ids_where (lapsed t) (iterate (pending_acks_ s))));
            stats_ := st |}.

Lemma wp_prune_expired (Q : unit -> Service -> Prop) s :
  env_ok s -> (forall t e st, session_ok e -> Q tt (pruned t e st s)) -> wp prune_expired Q s.
Proof.
  intros Hs HQ. unfold prune_expired. apply wp_bind, wp_now; [done |]. intros t e He.
  apply wp_bind, wp_expire_dedup. intros st. apply wp_expire_acks. intros st'. by apply HQ.
Qed.

Definition capacity_event (id : list Z) : Event :=
  Ack id MessageDeliveryEvent.ack_timeout (Some (message_service_error ErrorCode.timeout "ack_tracking_capacity")).

(** Either there is room, or one pending message is given up. *)
Lemma wp_make_ack_room (Q : unit -> Service -> Prop) s :
  (msize (pending_acks_ s) < pending_ack_capacity (config_ s) \/ pending_acks_ s = ∅ -> Q tt s) ->
  (forall id p st, pending_acks_ s !! id = Some p -> pending_ack_capacity (config_ s) <= msize (pending_acks_ s) ->
     Q tt {| s with pending_acks_ := delete id (pending_acks_ s); log_ := log_ s ++ heard s [capacity_event id];
                    stats_ := st |}) ->
  wp make_ack_room Q s.
Proof.
  intros H1 H2. unfold make_ack_room. apply wp_bind, wp_get. cbn [id].
  destruct (iterate (pending_acks_ s)) as [| [k p] l] eqn:Ei.
  - apply wp_ret, H1. right. apply map_size_empty_inv. assert (Hl := length_iterate (pending_acks_ s)).
    rewrite Ei in Hl. unfold msize, zlen in Hl. cbn in Hl. lia.
  - assert (Hk : pending_acks_ s !! k = Some p) by (apply elem_of_iterate; rewrite Ei; by left).
    destruct (Z.leb_spec (pending_ack_capacity (config_ s)) (msize (pending_acks_ s))).
    + apply wp_bind, wp_count. intros st. apply wp_bind, wp_observe, wp_modify. by eapply H2.
    + apply wp_ret, H1. by left.
Qed.

Definition closed_event (id : list Z) : Event :=
  Ack id MessageDeliveryEvent.session_closed (Some (message_service_error ErrorCode.transport "session_closed")).

Lemma wp_handle_session_closed (Q : unit -> Service -> Prop) s :
  (forall st, Q tt {| s with pending_acks_ := ∅;
                             log_ := log_ s ++ heard s (map closed_event (map fst (iterate (pending_acks_ s))));
                             stats_ := st |}) ->
  wp handle_session_closed Q s.
Proof.
  intros HQ. unfold handle_session_closed. apply wp_bind, wp_get, wp_bind.
  revert HQ. generalize (iterate (pending_acks_ s)). intros l. revert s.
  induction l as [| [k v] l IH]; intros s HQ; cbn [each map fst] in *.
  - apply wp_ret, wp_modify. specialize (HQ (stats_ s)). unfold heard in HQ.
    replace (if ack_sink_ s then [] else []) with (@nil Event) in HQ by by destruct (ack_sink_ s).
    by rewrite app_nil_r in HQ.
  - apply wp_bind, wp_bind, wp_count. intros st. apply wp_observe. apply IH. intros st'. specialize (HQ st').
    revert HQ. unfold heard. cbn. rewrite <- app_assoc. by destruct (ack_sink_ s).
Qed.

Lemma wp_merge_dispatch_records (Q : unit -> Service -> Prop) s :
  (forall records st, Q tt {| s with dispatch_records_ := records; stats_ := st |}) -> wp merge_dispatch_records Q s.
Proof.
  intros HQ. unfold merge_dispatch_records. apply wp_bind, wp_get. generalize (iterate (dispatch_records_ s)).
  intros l. revert s HQ. induction l as [| [k v] l IH]; intros s HQ; cbn [each].
  - apply wp_ret. specialize (HQ (dispatch_records_ s) (stats_ s)). by destruct s.
  - apply wp_bind. cbn [snd fst]. destruct (done v).
    + apply wp_bind, wp_count. intros st. apply wp_modify, IH. intros. by apply HQ.
    + by apply wp_ret, IH.
Qed.

(** ** Room in the cache *)

Lemma after_after e1 f1 t1 e2 f2 t2 s : after e2 f2 t2 (after e1 f1 t1 s) = after e2 (f1 ++ f2) (t1 ++ t2) s.
Proof. unfold after. cbn. by rewrite !app_assoc. Qed.

(** At every reading every entry is alive. *)
Definition alive (ts : list Z) (l : list (list Z * DedupEntry)) : Prop :=
  forall t kv, t ∈ ts -> kv ∈ l -> t < dedup_expires (snd kv).

Lemma wp_drop_expired l (Q : unit -> Service -> Prop) s :
  env_ok s ->
  (forall e ts m st, session_ok e -> m ⊆ dedup_ s -> (size m <= size (dedup_ s))%nat ->
     (alive ts l -> m = dedup_ s) ->
     Q tt (let s := after e [] ts s in {| s with dedup_ := m; stats_ := st |})) ->
  wp (drop_expired l) Q s.
Proof.
  revert s. induction l as [| [k v] l IH]; intros s Hs HQ; cbn [drop_expired].
  - apply wp_ret. specialize (HQ (inner (session_ s)) [] (dedup_ s) (stats_ s) Hs). rewrite after_nothing in HQ.
    specialize (HQ ltac:(done) ltac:(done) ltac:(done)). by destruct s.
  - apply wp_bind, wp_now; [done |]. intros t e He.
    assert (Hd : delete k (dedup_ s) ⊆ dedup_ s) by apply delete_subseteq.
    assert (Hz := map_subseteq_size _ _ Hd).
    destruct (Z.leb_spec (dedup_expires v) t) as [Hx | Hx].
    + assert (Hdead : forall ts, alive (t :: ts) ((k, v) :: l) -> delete k (dedup_ s) = dedup_ s).
      { intros ts Ha. specialize (Ha t (k, v) ltac:(by left) ltac:(by left)). cbn in Ha. lia. }
      apply wp_bind, wp_count. intros st. apply wp_bind, wp_modify, wp_bind, wp_get.
      cbn [Datatypes.id dedup_ config_ after]. destruct (_ <? _).
      * apply wp_ret. apply (HQ e [t] (delete k (dedup_ s)) st He); [done | done | apply (Hdead [])].
      * apply IH; [done |]. intros e' ts m st' He' Hm Hz' Ha. cbn [dedup_ after] in *.
        specialize (HQ e' ([t] ++ ts) m st' He' ltac:(by etrans) ltac:(lia)). revert HQ. unfold after. cbn.
        rewrite <- !app_assoc. intros HQ. apply HQ. intros Hal. rewrite <- (Hdead ts Hal). apply Ha.
        intros t' kv Ht Hkv. apply (Hal t' kv); by right.
    + apply IH; [done |]. intros e' ts m st' He' Hm Hz' Ha. specialize (HQ e' ([t] ++ ts) m st' He' Hm Hz').
      revert HQ. unfold after. cbn. rewrite <- !app_assoc. intros HQ. apply HQ. intros Hal. apply Ha.
      intros t' kv Ht Hkv. apply (Hal t' kv); by right.
Qed.

Lemma iterate_head `{Countable K} `{KeyOrder K} `{forall a b : K, Decision (key_le a b)} {V} (m : gmap K V) :
  (iterate m = [] -> m = ∅) /\ (forall k v l, iterate m = (k, v) :: l -> m !! k = Some v).
Proof.
  split.
  - intros Ei. apply map_size_empty_inv. assert (Hl := length_iterate m). rewrite Ei in Hl.
    unfold msize, zlen in Hl. cbn in Hl. lia.
  - intros k v l Ei. apply elem_of_iterate. rewrite Ei. by left.
Qed.

(** One eviction makes room in a cache at its capacity. *)
Lemma wp_evict fuel (Q : unit -> Service -> Prop) s :
  (size (dedup_ s) <= fuel)%nat -> 1 <= dedup_capacity (config_ s) ->
  (forall m st, m ⊆ dedup_ s -> msize m < dedup_capacity (config_ s) ->
     (msize (dedup_ s) < dedup_capacity (config_ s) -> m = dedup_ s) ->
     (forall k v l, msize (dedup_ s) = dedup_capacity (config_ s) -> iterate (dedup_ s) = (k, v) :: l ->
        m = delete k (dedup_ s)) ->
     Q tt {| s with dedup_ := m; stats_ := st |}) ->
  wp (evict fuel) Q s.
Proof.
  revert s. induction fuel as [| fuel IH]; intros s Hf Hc HQ; cbn [evict]; apply wp_bind, wp_get; cbn [Datatypes.id];
    destruct (iterate_head (dedup_ s)) as [He Hh].
  1,2: destruct (iterate (dedup_ s)) as [| [k v] l] eqn:Ei.
  1,3: apply wp_ret; specialize (HQ (dedup_ s) (stats_ s)); specialize (He eq_refl);
    rewrite He, msize_empty in HQ; specialize (HQ ltac:(done) ltac:(lia) ltac:(done) ltac:(done));
    rewrite <- He in HQ at 1; by destruct s.
  - specialize (Hh k v l eq_refl). assert (size (dedup_ s) = 0)%nat by lia.
    by rewrite (map_size_empty_inv (dedup_ s)) in Hh.
  - specialize (Hh k v l eq_refl). destruct (Z.leb_spec (dedup_capacity (config_ s)) (msize (dedup_ s))).
    + assert (Hsize : msize (delete k (dedup_ s)) < msize (dedup_ s)).
      { unfold msize. rewrite map_size_delete_Some by done. unfold msize in *. lia. }
      apply wp_bind, wp_count. intros st. apply wp_bind, wp_modify, IH; cbn [dedup_ config_].
      * rewrite map_size_delete_Some by done. lia.
      * done.
      * intros m st' Hm Hz Hroom _. apply HQ; [| done | lia |]; [etrans; [done | apply delete_subseteq] |].
        intros k' v' l' Hfull [= <- <- <-]. apply Hroom. lia.
    + apply wp_ret. specialize (HQ (dedup_ s) (stats_ s) ltac:(done) ltac:(lia) ltac:(done) ltac:(lia)). by destruct s.
Qed.

Lemma wp_make_dedup_room (Q : unit -> Service -> Prop) s :
  env_ok s -> 1 <= dedup_capacity (config_ s) ->
  (forall e ts m st, session_ok e -> m ⊆ dedup_ s -> msize m < dedup_capacity (config_ s) ->
     (msize (dedup_ s) < dedup_capacity (config_ s) -> m = dedup_ s) ->
     (forall k v l, msize (dedup_ s) = dedup_capacity (config_ s) -> iterate (dedup_ s) = (k, v) :: l ->
        alive ts (iterate (dedup_ s)) -> m = delete k (dedup_ s)) ->
     Q tt (let s := after e [] ts s in {| s with dedup_ := m; stats_ := st |})) ->
  wp make_dedup_room Q s.
Proof.
  intros Hs Hc HQ. unfold make_dedup_room. apply wp_bind, wp_get. cbn [Datatypes.id].
  destruct (Z.leb_spec (dedup_capacity (config_ s)) (msize (dedup_ s))) as [Hf | Hf].
  - apply wp_bind, wp_drop_expired; [done |]. intros e ts m st He Hm Hz Ha.
    apply wp_evict; [done | done |]. intros m' st' Hm' Hz' _ Hone. cbn [dedup_ config_ after] in *.
    apply (HQ e ts m' st'); [done | by etrans | done | lia |].
    intros k v l Hfull Hi Hal. rewrite (Ha Hal) in Hone. by apply (Hone k v l).
  - apply wp_ret. specialize (HQ (inner (session_ s)) [] (dedup_ s) (stats_ s) Hs). rewrite after_nothing in HQ.
    specialize (HQ ltac:(done) Hf ltac:(done) ltac:(lia)). by destruct s.
Qed.

(** ** Inbound messages *)

Definition ack_frame (channel : Z) (id : list Z) : Frame :=
  mkFrame (frame_type_value message_ack) 0 channel (repeat 0 16) (encode_fields (ack_fields (mkAck id true))).

(** The acknowledgement that may go out for an envelope. *)
Definition ack_for (channel : Z) (e : MessageEnvelope) (frames : list (FrameClass * Frame)) : Prop :=
  frames = [] \/ is_peer_acked e = true /\ frames = [(FrameClass.control, ack_frame channel (MessageProtocol.message_id e))].

Lemma wp_acknowledge e channel (Q : unit -> Service -> Prop) s :
  env_ok s -> sized 16 (MessageProtocol.message_id e) -> all_zero (MessageProtocol.message_id e) = false ->
  (forall x frames st, session_ok x -> ack_for channel e frames ->
     Q tt (let s := after x frames [] s in {| s with stats_ := st |})) ->
  wp (if is_peer_acked e then send_ack_for e channel else ret tt) Q s.
Proof.
  intros Hs Ht Hz HQ. destruct (is_peer_acked e) eqn:Hp.
  - unfold send_ack_for. rewrite encode_ack_layout. cbn [ack_message_id]. rewrite Hz.
    destruct (parse_encode_ack (mkAck (MessageProtocol.message_id e) true) (encode_fields (ack_fields (mkAck (MessageProtocol.message_id e) true))))
      as (_ & _ & Hl); [done | rewrite encode_ack_layout; cbn [ack_message_id]; by rewrite Hz |].
    apply wp_bind, wp_send_frame; [done | unfold message_room; cbn [payload]; lia | |].
    + intros x Hx. apply wp_count. intros st. apply HQ; [done |]. by right.
    + intros err x Hx. apply wp_count. intros st. apply HQ; [done |]. by left.
  - apply wp_ret. specialize (HQ (inner (session_ s)) [] (stats_ s) Hs ltac:(by left)). rewrite after_nothing in HQ.
    by destruct s.
Qed.

Lemma wp_deliver_to_handler e (Q : unit -> Service -> Prop) s :
  env_ok s ->
  (forall x records next tasks st, session_ok x -> (tasks = tasks_ s \/ exists r, tasks = <[r := e]> (tasks_ s)) ->
     Q tt (let s := after x [] [] s in
           {| s with dispatch_records_ := records; next_dispatch_id_ := next; tasks_ := tasks; stats_ := st |})) ->
  wp (deliver_to_handler e) Q s.
Proof.
  intros Hs HQ. unfold deliver_to_handler. apply wp_bind, wp_get. destruct (inbound_sink_ s); cbn [negb].
  - apply wp_bind, wp_get, wp_bind, wp_modify, wp_bind, wp_count. intros st.
    apply wp_bind. assert (Hd := dispatch_ok _ Hs). unfold wp, session_call. cbn. unfold pass_total. cbn.
    destruct (dispatch (inner (session_ s))) as [r x] eqn:Ed. do 2 eexists. split; [done |]. cbn in Hd.
    destruct r as [u | err].
    + apply wp_modify. cbn. refine (eq_rect _ (Q tt) (HQ x _ _ _ st Hd ltac:(right; by eexists)) _ _).
      unfold after. cbn. by rewrite !app_nil_r.
    + apply wp_bind, wp_modify, wp_count. intros st'. cbn.
      refine (eq_rect _ (Q tt) (HQ x _ _ _ st' Hd ltac:(by left)) _ _). unfold after. cbn. by rewrite !app_nil_r.
  - apply wp_ret. specialize (HQ (inner (session_ s)) (dispatch_records_ s) (next_dispatch_id_ s) (tasks_ s) (stats_ s) Hs ltac:(by left)).
    rewrite after_nothing in HQ. by destruct s.
Qed.

(** What an operation did: the frames the session took, the readings of the clock,
    and the members the later steps depend on. *)
Record outcome s s' (frames : list (FrameClass * Frame)) (ts : list Z) (dd : gmap (list Z) DedupEntry)
    (pa : gmap (list Z) PendingAck) (tk : gmap Z MessageEnvelope) (evs : list Event) : Prop := {
  out_ok : env_ok s';
  out_sent : sent (session_ s') = sent (session_ s) ++ frames;
  out_readings : readings (session_ s') = readings (session_ s) ++ ts;
  out_config : config_ s' = config_ s;
  out_sink : ack_sink_ s' = ack_sink_ s;
  out_attached : attached_ s' = attached_ s;
  out_dedup : dedup_ s' = dd;
  out_pending : pending_acks_ s' = pa;
  out_tasks : tasks_ s' = tk;
  out_log : log_ s' = log_ s ++ evs;
  out_scope : scope_check_ s' = scope_check_ s;
}.

(** What is left after a reading [t], and what the sink hears of the rest. *)
Definition fresh_dedup (t : Z) s := filter (fun kv => expired t (snd kv) = false) (dedup_ s).
Definition fresh_pending (t : Z) s := filter (fun kv => lapsed t (snd kv) = false) (pending_acks_ s).
Definition timeouts (t : Z) s : list Event :=
  heard s (map timeout_event (ids_where (lapsed t) (iterate (pending_acks_ s)))).

(** The outcomes of a MESSAGE frame: nothing is taken from it; it is a duplicate;
    it is accepted, and its id is remembered until its lifetime is over. *)
Inductive inbound s (f : Frame) s' : Prop :=
  | inbound_nothing t ts :
      outcome s s' [] (t :: ts) (fresh_dedup t s) (fresh_pending t s) (tasks_ s) (timeouts t s) -> inbound s f s'
  | inbound_duplicate t ts e entry limits frames :
      outcome s s' frames (t :: ts) (fresh_dedup t s) (fresh_pending t s) (tasks_ s) (timeouts t s) ->
      parse_message_envelope (payload f) limits = success e ->
      fresh_dedup t s !! MessageProtocol.message_id e = Some entry ->
      dedup_digest entry = envelope_digest (payload f) -> ack_for (channel_id f) e frames -> inbound s f s'
  | inbound_accepted t ts now e limits m frames tasks :
      outcome s s' frames (t :: ts)
        (<[MessageProtocol.message_id e := mkDedupEntry (u64 (now + ttl_milliseconds e)) (envelope_digest (payload f))]> m)
        (fresh_pending t s) tasks (timeouts t s) ->
      parse_message_envelope (payload f) limits = success e -> now ∈ ts ->
      (forall entry, fresh_dedup t s !! MessageProtocol.message_id e = Some entry ->
         exists t', t' ∈ ts /\ dedup_expires entry <= t') ->
      m ⊆ delete (MessageProtocol.message_id e) (fresh_dedup t s) -> msize m < dedup_capacity (config_ s) ->
      (msize (fresh_dedup t s) < dedup_capacity (config_ s) ->
         m = delete (MessageProtocol.message_id e) (fresh_dedup t s)) ->
      ack_for (channel_id f) e frames -> tasks = tasks_ s \/ (exists r, tasks = <[r := e]> (tasks_ s)) ->
      ((forall x, scope_check_ s && scope_covers (x : E) = false) -> frames = [] /\ tasks = tasks_ s) -> inbound s f s'.

Lemma outcome_env s s' x frames ts fs us dd pa tk evs :
  outcome s s' fs us dd pa tk evs -> session_ok x -> outcome s (after x frames ts s') (fs ++ frames) (us ++ ts) dd pa tk evs.
Proof. intros [] Hx. split; try done; cbn; by rewrite ?out_sent0, ?out_readings0, app_assoc. Qed.

Lemma wp_accept_envelope f s t ts0 e limits s2 :
  outcome s s2 [] (t :: ts0) (delete (MessageProtocol.message_id e) (fresh_dedup t s)) (fresh_pending t s)
    (tasks_ s) (timeouts t s) ->
  scope_check_ s2 = scope_check_ s -> 1 <= dedup_capacity (config_ s) ->
  envelope_typed e -> envelope_valid e limits -> parse_message_envelope (payload f) limits = success e ->
  (forall entry, fresh_dedup t s !! MessageProtocol.message_id e = Some entry ->
     exists t', t' ∈ ts0 /\ dedup_expires entry <= t') ->
  wp (accept_envelope f e) (fun _ => inbound s f) s2.
Proof.
  intros Ho Hsc Hc Ht Hv Hp Hdead. unfold accept_envelope. destruct Ho as [Os Of Or Oc Oa Ot Od Op Ok Ol].
  apply wp_bind, wp_make_dedup_room; [done | by rewrite Oc |]. intros x1 ts1 m st1 Hx1 Hm Hz Hsame _.
  apply wp_bind, wp_now; [done |]. intros t3 x3 Hx3. apply wp_bind, wp_modify, wp_bind, wp_get.
  rewrite Od, Oc in *.
  match goal with |- wp _ _ ?x => set (s3 := x) end.
  assert (Hout : outcome s s3 [] (t :: ts0 ++ ts1 ++ [t3])
    (<[MessageProtocol.message_id e := mkDedupEntry (u64 (t3 + ttl_milliseconds e)) (envelope_digest (payload f))]> m)
    (fresh_pending t s) (tasks_ s) (timeouts t s)).
  { split; try done; cbn; [by rewrite Of, !app_nil_r | by rewrite Or, <- !app_assoc]. }
  assert (Hacc : forall s' frames tasks us,
    outcome s s' frames (t :: (ts0 ++ ts1 ++ [t3]) ++ us) (<[MessageProtocol.message_id e := mkDedupEntry (u64 (t3 + ttl_milliseconds e)) (envelope_digest (payload f))]> m)
      (fresh_pending t s) tasks (timeouts t s) ->
    ack_for (channel_id f) e frames -> tasks = tasks_ s \/ (exists r, tasks = <[r := e]> (tasks_ s)) ->
    ((forall x, scope_check_ s && scope_covers (x : E) = false) -> frames = [] /\ tasks = tasks_ s) -> inbound s f s').
  { intros s' frames tasks us Ho' Ha Hta Hsc'. eapply (inbound_accepted _ _ _ t _ t3 e limits m); try done.
    - set_solver.
    - intros entry Hen. destruct (Hdead entry Hen) as (t' & Hin & Hle). exists t'. split; [set_solver | done].
    - intros Hlt. apply Hsame. eapply Z.le_lt_trans; [apply msize_delete_le | done]. }
  destruct (scope_check_ s3 && scope_covers (session_ s3)) eqn:Hallow; cbn [negb].
  - apply wp_bind, wp_acknowledge; [done | apply Ht | apply Hv |]. intros x4 frames st4 Hx4 Ha.
    apply wp_bind, wp_count. intros st5. apply wp_deliver_to_handler; [done |]. intros x6 rs nx tasks st6 Hx6 Hta.
    assert (Hscope : (forall x : E, scope_check_ s && scope_covers x = false) -> False).
    { intros Hno. rewrite <- Hsc in Hno. specialize (Hno x3). cbn in Hallow. congruence. }
    eapply (Hacc _ frames tasks []); [| done | by rewrite <- Ok | by intros []%Hscope].
    rewrite app_nil_r. destruct Hout. split; try done; cbn; by rewrite ?Of, ?Or, ?app_nil_r, <- ?app_assoc.
  - apply wp_count. intros st4. eapply (Hacc _ [] (tasks_ s) []); [| by left | by left | done].
    rewrite app_nil_r. destruct Hout; by split.
Qed.

Lemma wp_handle_inbound_message f s :
  env_ok s -> 1 <= dedup_capacity (config_ s) -> bytes_ok (payload f) ->
  wp (handle_inbound_message f) (fun _ => inbound s f) s.
Proof.
  intros Hs Hc Hb. unfold handle_inbound_message. apply wp_bind, wp_prune_expired; [done |]. intros t e st He.
  apply wp_bind, wp_get. set (s1 := pruned t e st s).
  destruct (parse_message_envelope (payload f) _) as [env | err] eqn:Hp.
  2:{ apply wp_count. intros st'. by apply (inbound_nothing _ _ _ t []). }
  destruct (parse_envelope_sound _ _ _ Hb Hp) as (Ht & Hv & _).
  assert (Hid := typed_id _ Ht). assert (Hnz := valid_id _ _ Hv). cbn zeta.
  apply wp_bind, wp_get. change (dedup_ s1) with (fresh_dedup t s).
  destruct (fresh_dedup t s !! MessageProtocol.message_id env) as [entry |] eqn:Hx.
  - apply wp_bind, wp_bind, wp_now; [done |]. intros t2 e2 He2. apply wp_ret.
    destruct (Z.ltb_spec t2 (dedup_expires entry)) as [Hlive | Hdead].
    + destruct (bytes_eqb (dedup_digest entry) (envelope_digest (payload f))) eqn:Hd.
      * apply wp_bind, wp_count. intros st2. apply wp_acknowledge; [done | done | done |].
        intros x frames st3 Hx3 Ha. apply bytes_eqb_eq in Hd.
        apply (inbound_duplicate _ _ _ t [t2] env entry (session_limits e) frames); try done.
        split; try done; cbn; by rewrite ?app_nil_r, <- ?app_assoc.
      * apply wp_pass_do; [by apply fail_ok |]. intros x Hx3. apply (inbound_nothing _ _ _ t [t2]).
        split; try done; cbn; by rewrite ?app_nil_r, <- ?app_assoc.
    + apply wp_bind, wp_bind, wp_count. intros st2. apply wp_modify. apply (wp_accept_envelope _ _ t [t2] env (session_limits e)); try done.
      * split; try done; cbn; by rewrite ?app_nil_r, <- ?app_assoc.
      * intros entry' He'. exists t2. split; [by left |]. by simplify_eq.
  - apply wp_bind, wp_ret, wp_bind, wp_ret. apply (wp_accept_envelope _ _ t [] env (session_limits e)); try done.
    + split; try done; cbn. by rewrite delete_id.
    + intros entry' He'. by rewrite Hx in He'.
Qed.

(** ** Acknowledgements *)

Definition settled (a : MessageAckBody) : Event :=
  if protocol_accepted a then Ack (ack_message_id a) MessageDeliveryEvent.acked None
  else Ack (ack_message_id a) MessageDeliveryEvent.peer_rejected
         (Some (message_service_error ErrorCode.protocol "peer_rejected_envelope")).

Inductive answered s (f : Frame) s' : Prop :=
  | answered_nothing : outcome s s' [] [] (dedup_ s) (pending_acks_ s) (tasks_ s) [] -> answered s f s'
  | answered_pending a p :
      outcome s s' [] [] (dedup_ s) (delete (ack_message_id a) (pending_acks_ s)) (tasks_ s) (heard s [settled a]) ->
      parse_message_ack (payload f) = success a -> pending_acks_ s !! ack_message_id a = Some p -> answered s f s'.

Lemma wp_handle_inbound_ack f s : env_ok s -> wp (handle_inbound_ack f) (fun _ => answered s f) s.
Proof.
  intros Hs. unfold handle_inbound_ack.
  assert (Hno : forall st, answered s f {| s with stats_ := st |}).
  { intros st. apply answered_nothing. split; try done; cbn; by rewrite app_nil_r. }
  destruct (parse_message_ack (payload f)) as [a | err] eqn:Hp; [| by apply wp_count].
  apply wp_bind, wp_get. destruct (pending_acks_ s !! ack_message_id a) as [p |] eqn:Hx; [| by apply wp_count].
  apply wp_bind, wp_modify. destruct (protocol_accepted a) eqn:Ha;
    (apply wp_bind, wp_count; intros st; apply wp_observe; apply (answered_pending _ _ _ a p); try done;
     unfold settled; rewrite Ha; split; try done; cbn; by rewrite app_nil_r).
Qed.

(** ** Sending *)

Definition message_frame (channel : Z) (encoded : list Z) : Frame :=
  mkFrame (frame_type_value message) 0 channel (repeat 0 16) encoded.

(** What [make_ack_room] does to the pending messages [pa]. *)
Definition room_made s (pa pa' : gmap (list Z) PendingAck) (evs : list Event) : Prop :=
  (pa' = pa /\ evs = [] /\ (msize pa < pending_ack_capacity (config_ s) \/ pa = ∅)) \/
  (exists old p, pa !! old = Some p /\ pa' = delete old pa /\
     pending_ack_capacity (config_ s) <= msize pa /\ evs = heard s [capacity_event old]).

(** The outcomes of a send: it is refused, or the session took the frame; a message
    of the peer-acked mode is then pending, after old ones have timed out and one
    has made room. *)
Inductive sending s s' : Result (list Z) -> Prop :=
  | sending_detached error :
      attached_ s = false -> outcome s s' [] [] (dedup_ s) (pending_acks_ s) (tasks_ s) [] -> sending s s' (failure error)
  | sending_refused id error :
      attached_ s = true ->
      outcome s s' [] [] (dedup_ s) (pending_acks_ s) (tasks_ s)
        (heard s [Ack id MessageDeliveryEvent.send_failed (Some error)]) -> sending s s' (failure error)
  | sending_best_effort id channel encoded :
      attached_ s = true ->
      outcome s s' [(FrameClass.standard, message_frame channel encoded)] [] (dedup_ s) (pending_acks_ s) (tasks_ s) [] ->
      sending s s' (success id)
  | sending_peer_acked e limits channel encoded t now pa evs :
      attached_ s = true -> encode_message_envelope e limits = success encoded ->
      delivery_mode e = MessageDeliveryMode.peer_acked ->
      room_made s (fresh_pending t s) pa evs ->
      outcome s s' [(FrameClass.standard, message_frame channel encoded)] [t; now] (fresh_dedup t s)
        (<[MessageProtocol.message_id e := mkPendingAck (u64 (now + ttl_milliseconds e))]> pa) (tasks_ s)
        ((timeouts t s ++ evs) ++ heard s [Ack (MessageProtocol.message_id e) MessageDeliveryEvent.queued None]) ->
      sending s s' (success (MessageProtocol.message_id e)).

Lemma wp_reject_send id error s s0 :
  attached_ s0 = true ->
  outcome s0 s [] [] (dedup_ s0) (pending_acks_ s0) (tasks_ s0) [] ->
  wp (reject_send id error) (fun r s' => sending s0 s' r) s.
Proof.
  intros Ha []. unfold reject_send. apply wp_bind, wp_count. intros st. apply wp_bind, wp_observe, wp_ret.
  apply (sending_refused _ _ id); [done |]. split; try done; cbn. unfold heard. cbn. by rewrite out_sink0, out_log0, app_nil_r.
Qed.

Lemma outcome_refl s : env_ok s -> outcome s s [] [] (dedup_ s) (pending_acks_ s) (tasks_ s) [].
Proof. intros Hs. split; try done; by rewrite app_nil_r. Qed.

Lemma typed_with_id e i : envelope_typed e -> sized 16 i -> envelope_typed {| e with MessageProtocol.message_id := i |}.
Proof. intros [] Hi. by split. Qed.

Lemma wp_track_ack e s fs dd tk evs s0 :
  outcome s0 s fs [] dd (pending_acks_ s0) tk evs ->
  wp (track_ack e) (fun _ s' => exists t now pa room, room_made s0 (fresh_pending t s0) pa room /\
    outcome s0 s' fs [t; now] (filter (fun kv => expired t (snd kv) = false) dd)
      (<[MessageProtocol.message_id e := mkPendingAck (u64 (now + ttl_milliseconds e))]> pa) tk
      (((evs ++ timeouts t s0) ++ room) ++ heard s0 [Ack (MessageProtocol.message_id e) MessageDeliveryEvent.queued None])) s.
Proof.
  intros [O0 O1 O2 O3 O4 O5 O6 O7 O8 O9]. unfold track_ack. apply wp_bind, wp_count. intros st.
  apply wp_bind, wp_prune_expired; [done |]. intros t y st2 Hy.
  apply wp_bind, wp_make_ack_room; cbn [pending_acks_ config_ pruned after]; rewrite O7, O3.
  - intros Hroom. apply wp_bind, wp_now; [done |]. intros now z Hz. apply wp_bind, wp_modify, wp_observe.
    exists t, now, (fresh_pending t s0), []. split; [by left |].
    split; try done; unfold timeouts, heard; cbn; by rewrite ?O1, ?O2, ?O4, ?O6, ?O7, ?O9, ?app_nil_r, <- ?app_assoc.
  - intros old p st3 Hold Hfull. apply wp_bind, wp_now; [done |]. intros now z Hz. apply wp_bind, wp_modify, wp_observe.
    exists t, now, (delete old (fresh_pending t s0)), (heard s0 [capacity_event old]). split; [right; by exists old, p |].
    split; try done; unfold timeouts, heard; cbn; by rewrite ?O1, ?O2, ?O4, ?O6, ?O7, ?O9, ?app_nil_r, <- ?app_assoc.
Qed.

Lemma wp_send_assigned e s s0 :
  attached_ s0 = true -> outcome s0 s [] [] (dedup_ s0) (pending_acks_ s0) (tasks_ s0) [] -> envelope_typed e ->
  wp (send_assigned e) (fun r s' => sending s0 s' r) s.
Proof.
  intros Ha Ho Ht. unfold send_assigned. apply wp_bind, wp_get.
  destruct (encode_message_envelope e _) as [encoded | err] eqn:Hen; [| by apply wp_reject_send].
  destruct (encode_envelope_bound _ _ _ Ht Hen) as [_ Hz]. cbn [session_limits recorded_session recorded_service message_session] in *.
  assert (Hok := out_ok _ _ _ _ _ _ _ _ Ho). apply wp_bind, wp_get, wp_bind, wp_send_frame; [done | unfold message_room; cbn [payload]; lia | |].
  2:{ intros x y Hy. apply wp_reject_send; [done |]. apply (outcome_env _ _ y [] []) in Ho; done. }
  intros x Hx. apply (outcome_env _ _ x [(FrameClass.standard, message_frame (channel_id_ s) encoded)] []) in Ho; [| done].
  apply wp_bind. destruct (is_peer_acked e) eqn:Hm.
  - apply bool_decide_eq_true in Hm. eapply wp_mono; [by apply wp_track_ack |].
    intros u s' (t & now & pa & room & Hroom & Ho'). apply wp_ret.
    by apply (sending_peer_acked _ _ e (session_limits (inner (session_ s))) (channel_id_ s) encoded t now pa room).
  - apply wp_count. intros st. apply wp_ret. apply (sending_best_effort _ _ _ (channel_id_ s) encoded); [done |].
    destruct Ho. by split.
Qed.

Lemma wp_send_message e s : env_ok s -> envelope_typed e -> wp (send e) (fun r s' => sending s s' r) s.
Proof.
  intros Hs Ht. unfold send. apply wp_bind, wp_get. destruct (attached_ s) eqn:Ha; cbn [negb].
  2:{ apply wp_ret. apply sending_detached; [done |]. by apply outcome_refl. }
  destruct (all_zero _).
  - apply wp_bind. unfold wp, session_call. cbn. unfold pass_total. cbn. destruct (random_ok _ Hs) as (H1 & H2 & H3).
    destruct (random_message_id (inner (session_ s))) as [i x]. do 2 eexists. split; [done |].
    apply wp_send_assigned; [done | | by apply typed_with_id]. split; try done; cbn; by rewrite app_nil_r.
  - apply wp_send_assigned; [done | by apply outcome_refl | done].
Qed.

(** ** Frames, tasks and the life of the service *)

(** The outcomes of a frame. *)
Inductive admitted s (f : Frame) s' : Prop :=
  | admitted_nothing : outcome s s' [] [] (dedup_ s) (pending_acks_ s) (tasks_ s) [] -> admitted s f s'
  | admitted_message :
      attached_ s = true -> Wire.type f = frame_type_value message -> inbound s f s' -> admitted s f s'
  | admitted_ack :
      attached_ s = true -> Wire.type f = frame_type_value message_ack -> answered s f s' -> admitted s f s'.

(** An inbound message after a channel has been adopted for it. *)
Lemma inbound_after s s1 f s' :
  outcome s s1 [] [] (dedup_ s) (pending_acks_ s) (tasks_ s) [] -> scope_check_ s1 = scope_check_ s ->
  inbound s1 f s' -> inbound s f s'.
Proof.
  intros [O0 O1 O2 O3 O4 O5 O6 O7 O8 O9] Hsc Hi.
  assert (Hp : forall t, fresh_pending t s1 = fresh_pending t s) by (intros t; unfold fresh_pending; by rewrite O7).
  assert (Hd : forall t, fresh_dedup t s1 = fresh_dedup t s) by (intros t; unfold fresh_dedup; by rewrite O6).
  assert (He : forall t, timeouts t s1 = timeouts t s) by (intros t; unfold timeouts, heard; by rewrite O4, O7).
  assert (Hout : forall frames ts dd pa tk evs, outcome s1 s' frames ts dd pa tk evs -> outcome s s' frames ts dd pa tk evs).
  { intros frames ts dd pa tk evs []. split; try done; try congruence.
    - by rewrite out_sent0, O1, app_nil_r.
    - by rewrite out_readings0, O2, app_nil_r.
    - by rewrite out_log0, O9, app_nil_r. }
  destruct Hi as [t ts Ho | t ts e entry limits frames Ho | t ts now e limits m frames tasks Ho];
    rewrite ?Hp, ?Hd, ?He, ?O3, ?O8, ?Hsc in *; apply Hout in Ho.
  - by eapply inbound_nothing.
  - by eapply inbound_duplicate.
  - by eapply inbound_accepted.
Qed.

Lemma wp_admit_frame f s :
  env_ok s -> config_unsigned (config_ s) -> (attached_ s = true -> 1 <= dedup_capacity (config_ s)) ->
  bytes_ok (payload f) -> wp (admit_frame f) (fun _ => admitted s f) s.
Proof.
  intros Hs Hu Hc Hb. unfold admit_frame. apply wp_bind, wp_get. cbn [Datatypes.id].
  assert (Hno : forall r, wp (ret r : M Service (Result unit)) (fun _ => admitted s f) s).
  { intros r. apply wp_ret. by apply admitted_nothing, outcome_refl. }
  destruct (attached_ s) eqn:Ha; cbn [negb]; [| apply Hno]. specialize (Hc eq_refl).
  destruct (Z.eqb_spec (Wire.type f) (frame_type_value message)) as [Ht | Ht].
  - destruct (session_has_channel _ _); cbn [negb].
    + apply wp_bind, wp_ret, wp_bind. eapply wp_mono; [by apply wp_handle_inbound_message |].
      intros u s' Hi. apply wp_ret. by apply admitted_message.
    + apply wp_bind, wp_bind. change (fun e : Recorded E => session_adopt_channel e (channel_id f) ChannelDomain.message
        QueueFullPolicy.reject (channel_frame_capacity (config_ s)) (channel_byte_capacity (config_ s)))
        with (pass (fun e : E => session_adopt_channel e (channel_id f) ChannelDomain.message
          QueueFullPolicy.reject (channel_frame_capacity (config_ s)) (channel_byte_capacity (config_ s)))).
      apply wp_pass; [apply adopt_ok; [done | apply Hu | apply Hu] |]. intros r e _ He.
      assert (Ho : outcome s (after e [] [] s) [] [] (dedup_ s) (pending_acks_ s) (tasks_ s) []).
      { apply (outcome_env s s e [] [] [] []); [by apply outcome_refl | done]. }
      destruct r as [channel | err].
      * apply wp_bind, wp_modify, wp_ret, wp_bind. eapply wp_mono; [by apply wp_handle_inbound_message |].
        intros u s' Hi. apply wp_ret. apply admitted_message; [done | done |]. eapply inbound_after; [| | exact Hi]; [| done].
        destruct Ho. by split.
      * apply wp_ret, wp_ret. by apply admitted_nothing.
  - destruct (Z.eqb_spec (Wire.type f) (frame_type_value message_ack)) as [Ht' |]; [| apply Hno].
    apply wp_bind. eapply wp_mono; [by apply wp_handle_inbound_ack |]. intros u s' Hi. apply wp_ret. by apply admitted_ack.
Qed.

Lemma wp_attach_messages s :
  env_ok s -> config_unsigned (config_ s) -> wp attach (fun _ s' => env_ok s' /\ sent (session_ s') = sent (session_ s) /\
    readings (session_ s') = readings (session_ s) /\ config_ s' = config_ s /\ ack_sink_ s' = ack_sink_ s /\
    scope_check_ s' = scope_check_ s /\ dedup_ s' = dedup_ s /\ pending_acks_ s' = pending_acks_ s /\
    tasks_ s' = tasks_ s /\ log_ s' = log_ s /\
    (attached_ s' = attached_ s \/ config_valid (config_ s) = true)) s.
Proof.
  intros Hs Hu. unfold attach. apply wp_bind, wp_get. cbn [Datatypes.id].
  destruct (attached_ s) eqn:Ha; [apply wp_ret; split_and!; by try left |].
  destruct (config_valid (config_ s)) eqn:Hv; cbn [negb]; [| apply wp_ret; split_and!; by try left].
  destruct (dispatch_ s); cbn [negb]; [| apply wp_ret; split_and!; by try left].
  apply wp_bind. change (fun e : Recorded E => session_open_channel e ChannelDomain.message QueueFullPolicy.reject
      (channel_frame_capacity (config_ s)) (channel_byte_capacity (config_ s)))
    with (pass (fun e : E => session_open_channel e ChannelDomain.message QueueFullPolicy.reject
      (channel_frame_capacity (config_ s)) (channel_byte_capacity (config_ s)))).
  apply wp_pass; [apply open_ok; [done | apply Hu | apply Hu] |]. intros r e _ He. destruct r as [channel | err].
  - apply wp_bind, wp_modify, wp_ret. cbn. rewrite !app_nil_r. split_and!; try done; [by apply domain_ok | by right].
  - apply wp_ret. cbn. rewrite !app_nil_r. split_and!; try done. by left.
Qed.

Lemma wp_run_task r throws s :
  env_ok s -> wp (run_task r throws) (fun _ s' =>
    outcome s s' [] [] (dedup_ s) (pending_acks_ s) (tasks_ s) [] \/
    exists e, tasks_ s !! r = Some e /\
      outcome s s' [] [] (dedup_ s) (pending_acks_ s) (delete r (tasks_ s)) [Handled e]) s.
Proof.
  intros Hs. unfold run_task. apply wp_bind, wp_get. cbn [Datatypes.id].
  destruct (tasks_ s !! r) as [e |] eqn:He; [| apply wp_ret; left; by apply outcome_refl].
  apply wp_bind, wp_modify, wp_bind, wp_modify. destruct (dispatch_records_ s !! r).
  - apply wp_modify. right. exists e. split; [done |]. split; try done; cbn; by rewrite app_nil_r.
  - apply wp_ret. right. exists e. split; [done |]. split; try done; cbn; by rewrite app_nil_r.
Qed.

Lemma wp_destroy_messages s :
  env_ok s -> wp destroy (fun _ s' => outcome s s' [] [] (dedup_ s) (pending_acks_ s) (tasks_ s) []) s.
Proof.
  intros Hs. unfold destroy. apply wp_bind, wp_modify, wp_bind, wp_get. cbn [owned_channels_]. apply wp_each.
  - split; try done; cbn; rewrite ?app_nil_r; try done. by apply domain_ok.
  - intros channel s' _ Ho. assert (Hok := out_ok _ _ _ _ _ _ _ _ Ho). apply wp_pass_do; [by apply close_ok |].
    intros e He. by apply (outcome_env _ _ e [] []) in Ho.
Qed.
End rules.
