(* ===== verification/MessageServiceCache.v ===== *)
(** * What the duplicate cache of the message service remembers

    Two consequences of the order in which [MessageService::handle_inbound_message]
    works, for every state of the service: the id of a message is remembered before
    the scope of its sender is checked, and a cache at its capacity gives up the
    smallest id, however new it is. *)

From Stdlib Require Import ZArith Lia ZifyBool String.
From stdpp Require Import base tactics option list gmap strings numbers sorting.
From S2P Require Import Prelude Errors Limits Varint Wire Identifiers ProtoCodec FieldCodec Protocol Identity Signing Clock.
From S2P Require Import SessionChannels PairingProtocol PeerSession ServiceSession Effects MessageProtocol MessageService.
From S2P Require Import MessageServiceRules.
Import Wire ProtoCodec Effects MessageProtocol MessageService.
#[local] Open Scope Z_scope.

(** ** The first entry of a map *)

#[local] Instance pair_le_total {V} : Total (pair_le (K := list Z) (V := V)).
Proof.
  intros [a v] [b w]. unfold pair_le, key_le, bytes_order. cbn [fst].
  destruct (lex_lt b a) eqn:Hb; [right; by apply lex_lt_asym | by left].
Qed.

Lemma lex_le_trans a b c : lex_lt b a = false -> lex_lt c b = false -> lex_lt c a = false.
Proof.
  intros Hab Hbc. destruct (lex_lt c a) eqn:Hca; [| done]. exfalso. destruct (lex_lt a b) eqn:E.
  - by rewrite (lex_lt_trans c a b Hca E) in Hbc.
  - rewrite (lex_lt_total a b E Hab) in Hca. congruence.
Qed.

#[local] Instance pair_le_trans {V} : Transitive (pair_le (K := list Z) (V := V)).
Proof. intros [a v] [b w] [c x]. unfold pair_le, key_le, bytes_order. cbn [fst]. apply lex_le_trans. Qed.

(** [m.begin()] is the entry with the smallest key. *)
Lemma iterate_smallest {V} (m : gmap (list Z) V) id v :
  m !! id = Some v -> (forall k, is_Some (m !! k) -> key_le id k) -> exists l, iterate m = (id, v) :: l.
Proof.
  intros Hid Hmin. assert (Hs := StronglySorted_merge_sort pair_le (map_to_list m)).
  change (merge_sort pair_le (map_to_list m)) with (iterate m) in Hs.
  assert (Hin : (id, v) ∈ iterate m) by (by apply elem_of_iterate).
  destruct (iterate m) as [| [k w] l] eqn:Ei; [by apply not_elem_of_nil in Hin |].
  assert (Hk : m !! k = Some w) by (apply elem_of_iterate; rewrite Ei; by left).
  assert (k = id) as ->; [| rewrite Hid in Hk; injection Hk as <-; by exists l].
  apply elem_of_cons in Hin as [[= -> _] | Hin]; [done |].
  apply StronglySorted_inv in Hs as [_ Hall]. rewrite Forall_forall in Hall.
  assert (Hle := Hall _ Hin). specialize (Hmin k ltac:(by eexists)).
  unfold pair_le, key_le, bytes_order in *. cbn in Hle. by apply lex_lt_total.
Qed.

Section cache.
Context {E : Type} `{!MessageSession E} `{!LawfulSession E} `{Sodium}.
Abbreviation Service := (MessageService (Recorded E)).
Implicit Types s : Service.

Definition entry_for (f : Frame) (e : MessageEnvelope) (t : Z) : DedupEntry :=
  mkDedupEntry (u64 (t + ttl_milliseconds e)) (envelope_digest (payload f)).

Ltac read_with Hp :=
  match goal with |- context [parse_message_envelope ?p ?l] =>
    let Hx := fresh in assert (Hx : parse_message_envelope p l = success _) by exact (Hp _); rewrite Hx; clear Hx end.

(** What accepting an envelope leaves in the cache and takes from the session. *)
Lemma wp_accept_cached f e (Q : unit -> Service -> Prop) s :
  env_ok s -> 1 <= dedup_capacity (config_ s) ->
  sized 16 (MessageProtocol.message_id e) -> all_zero (MessageProtocol.message_id e) = false ->
  (forall s' ts t m frames,
     readings (session_ s') = readings (session_ s) ++ ts ++ [t] ->
     dedup_ s' = <[MessageProtocol.message_id e := entry_for f e t]> m ->
     (forall k v l, msize (dedup_ s) = dedup_capacity (config_ s) -> iterate (dedup_ s) = (k, v) :: l ->
        alive ts (iterate (dedup_ s)) -> m = delete k (dedup_ s)) ->
     sent (session_ s') = sent (session_ s) ++ frames ->
     ((forall x, scope_check_ s && scope_covers (x : E) = false) -> frames = [] /\ tasks_ s' = tasks_ s) -> Q tt s') ->
  wp (accept_envelope f e) Q s.
Proof.
  intros Hs Hc Hid Hz HQ. unfold accept_envelope.
  apply wp_bind, wp_make_dedup_room; [done | done |]. intros x1 ts m st1 Hx1 _ _ _ Hone.
  apply wp_bind, wp_now; [done |]. intros t x3 Hx3. apply wp_bind, wp_modify, wp_bind, wp_get.
  match goal with |- wp _ _ ?x => set (s3 := x) end.
  destruct (scope_check_ s3 && scope_covers (session_ s3)) eqn:Hallow; cbn [negb].
  - apply wp_bind, wp_acknowledge; [done | done | done |]. intros x4 frames st4 Hx4 Ha.
    apply wp_bind, wp_count. intros st5. apply wp_deliver_to_handler; [done |]. intros x6 rs nx tasks st6 Hx6 Hta.
    eapply (HQ _ ts t m frames); cbn; rewrite ?app_nil_r, <- ?app_assoc; try done.
    intros Hno. specialize (Hno x3). cbn in Hallow. congruence.
  - apply wp_count. intros st4. eapply (HQ _ ts t m []); cbn; rewrite ?app_nil_r, <- ?app_assoc; done.
Qed.

(** A new message, from the first reading of the clock on. *)
Lemma wp_new_message f e (Q : unit -> Service -> Prop) s :
  env_ok s -> 1 <= dedup_capacity (config_ s) -> bytes_ok (payload f) ->
  (forall x : E, parse_message_envelope (payload f) (session_limits x) = success e) ->
  dedup_ s !! MessageProtocol.message_id e = None ->
  (forall s' t0 ts t m frames,
     readings (session_ s') = readings (session_ s) ++ t0 :: ts ++ [t] ->
     dedup_ s' = <[MessageProtocol.message_id e := entry_for f e t]> m ->
     (forall k v l, msize (fresh_dedup t0 s) = dedup_capacity (config_ s) -> iterate (fresh_dedup t0 s) = (k, v) :: l ->
        alive ts (iterate (fresh_dedup t0 s)) -> m = delete k (fresh_dedup t0 s)) ->
     sent (session_ s') = sent (session_ s) ++ frames ->
     ((forall x, scope_check_ s && scope_covers (x : E) = false) -> frames = [] /\ tasks_ s' = tasks_ s) -> Q tt s') ->
  wp (handle_inbound_message f) Q s.
Proof.
  intros Hs Hc Hb Hp Hnew HQ. unfold handle_inbound_message. apply wp_bind, wp_prune_expired; [done |]. intros t0 x0 st He.
  apply wp_bind, wp_get. set (s1 := pruned t0 x0 st s). read_with Hp.
  destruct (parse_envelope_sound _ _ _ Hb (Hp x0)) as (Ht & Hv & _).
  assert (Hid := typed_id _ Ht). assert (Hnz := valid_id _ _ Hv). cbn zeta.
  apply wp_bind, wp_get. change (dedup_ s1) with (fresh_dedup t0 s).
  assert (fresh_dedup t0 s !! MessageProtocol.message_id e = None) as -> by (unfold fresh_dedup; rewrite map_lookup_filter, Hnew; done).
  apply wp_bind, wp_ret, wp_bind, wp_ret. apply wp_accept_cached; [done | done | done | done |].
  intros s' ts t m frames Hr Hd Hone Hf Hscope. apply (HQ s' t0 ts t m frames); try done.
  - rewrite Hr. cbn. by rewrite <- app_assoc.
  - rewrite Hf. cbn. by rewrite app_nil_r.
Qed.

(** The reading of the clock of this session. *)
Lemma wp_now_exact t x (Q : Z -> Service -> Prop) s :
  wall_clock (inner (session_ s)) = (t, x) -> Q t (after x [] [t] s) -> wp now Q s.
Proof.
  intros Hw HQ. unfold wp, now, session_call. cbn. rewrite Hw. do 2 eexists. split; [done |].
  unfold after in HQ. by rewrite app_nil_r in HQ.
Qed.

(** A peer-acked message that is remembered and alive is acknowledged, without a
    look at the scope of its sender. *)
Lemma wp_remembered_acked f e entry t1 x1 t2 x2 x3 s :
  bytes_ok (payload f) -> (forall x : E, parse_message_envelope (payload f) (session_limits x) = success e) ->
  is_peer_acked e = true -> dedup_ s !! MessageProtocol.message_id e = Some entry ->
  dedup_digest entry = envelope_digest (payload f) ->
  wall_clock (inner (session_ s)) = (t1, x1) -> wall_clock x1 = (t2, x2) ->
  t1 < dedup_expires entry -> t2 < dedup_expires entry ->
  session_send_frame x2 (channel_id f) FrameClass.control (ack_frame (channel_id f) (MessageProtocol.message_id e))
    = Some (success tt, x3) ->
  exists s', handle_inbound_message f s = Some (tt, s') /\
    sent (session_ s') = sent (session_ s) ++
      [(FrameClass.control, ack_frame (channel_id f) (MessageProtocol.message_id e))] /\ tasks_ s' = tasks_ s.
Proof.
  intros Hb Hp Hack Hd Hdig Hw1 Hw2 H1 H2 Hsend.
  destruct (parse_envelope_sound _ _ _ Hb (Hp x1)) as (_ & Hv & _). assert (Hnz := valid_id _ _ Hv).
  enough (Hwp : wp (handle_inbound_message f) (fun _ s' => sent (session_ s') = sent (session_ s) ++
    [(FrameClass.control, ack_frame (channel_id f) (MessageProtocol.message_id e))] /\ tasks_ s' = tasks_ s) s)
    by (destruct Hwp as ([] & s' & Hrun & Hq); by exists s').
  unfold handle_inbound_message, prune_expired. apply wp_bind, wp_bind, (wp_now_exact t1 x1); [done |].
  apply wp_bind, wp_expire_dedup. intros st. apply wp_expire_acks. intros st'. apply wp_bind, wp_get.
  match goal with |- wp _ _ ?x => set (s1 := x) end.
  read_with Hp.
  cbn zeta. apply wp_bind, wp_get.
  assert (dedup_ s1 !! MessageProtocol.message_id e = Some entry) as ->.
  { cbn. rewrite map_lookup_filter, Hd. cbn. unfold expired. rewrite option_guard_True; [done |]. cbn. lia. }
  apply wp_bind, wp_bind, (wp_now_exact t2 x2); [done |]. apply wp_ret.
  destruct (Z.ltb_spec t2 (dedup_expires entry)) as [_ |]; [| lia]. rewrite Hdig, bytes_eqb_refl.
  apply wp_bind, wp_count. intros st2. rewrite Hack. unfold send_ack_for. rewrite encode_ack_layout. cbn [ack_message_id].
  rewrite Hnz. apply wp_bind.
  match goal with |- wp _ _ ?x => set (s2 := x) end.
  assert (Hx : inner (session_ s2) = x2) by done.
  unfold wp at 1, session_call. cbn [session_send_frame recorded_service message_session recorded_session].
  rewrite Hx. change (mkFrame _ _ _ _ _) with (ack_frame (channel_id f) (MessageProtocol.message_id e)). rewrite Hsend.
  do 2 eexists. split; [done |]. apply wp_count. intros st3. split; [| done]. cbn. by rewrite !app_nil_r.
Qed.

(** C25. An unauthorised sender is acknowledged. The service remembers an id before it
    checks the scope of the session. So a peer-acked message of a sender without the
    scope is refused when it arrives first: no frame is sent and no handler is
    queued. But in any later state that still remembers the id, while the entry is
    alive, the same frame is answered with the acknowledgement that says the message
    was accepted, when the session takes it. *)
Theorem unauthorized_sender_acked f e s :
  env_ok s -> 1 <= dedup_capacity (config_ s) -> bytes_ok (payload f) ->
  (forall x : E, parse_message_envelope (payload f) (session_limits x) = success e) -> is_peer_acked e = true ->
  (forall x : E, scope_check_ s && scope_covers x = false) -> dedup_ s !! MessageProtocol.message_id e = None ->
  exists s1 t,
    handle_inbound_message f s = Some (tt, s1) /\ sent (session_ s1) = sent (session_ s) /\ tasks_ s1 = tasks_ s /\
    last (readings (session_ s1)) = Some t /\
    dedup_ s1 !! MessageProtocol.message_id e = Some (entry_for f e t) /\
    forall s2 t1 x1 t2 x2 x3, dedup_ s2 !! MessageProtocol.message_id e = Some (entry_for f e t) ->
      wall_clock (inner (session_ s2)) = (t1, x1) -> wall_clock x1 = (t2, x2) ->
      t1 < u64 (t + ttl_milliseconds e) -> t2 < u64 (t + ttl_milliseconds e) ->
      session_send_frame x2 (channel_id f) FrameClass.control (ack_frame (channel_id f) (MessageProtocol.message_id e))
        = Some (success tt, x3) ->
      exists s3, handle_inbound_message f s2 = Some (tt, s3) /\
        sent (session_ s3) = sent (session_ s2) ++
          [(FrameClass.control, ack_frame (channel_id f) (MessageProtocol.message_id e))] /\
        tasks_ s3 = tasks_ s2.
Proof.
  intros Hs Hc Hb Hp Hack Hno Hnew.
  destruct (wp_new_message f e (fun _ s1 => exists t, sent (session_ s1) = sent (session_ s) /\ tasks_ s1 = tasks_ s /\
    last (readings (session_ s1)) = Some t /\
    dedup_ s1 !! MessageProtocol.message_id e = Some (entry_for f e t)) s) as ([] & s1 & Hrun & t & Hf & Ht & Hl & Hd); try done.
  { intros s' t0 ts t m frames Hr Hd _ Hsent Hscope. destruct (Hscope Hno) as [-> Ht]. exists t.
    split_and!; [by rewrite Hsent, app_nil_r | done | | rewrite Hd; apply lookup_insert_eq].
    rewrite Hr, app_comm_cons, app_assoc. apply last_snoc. }
  exists s1, t. split_and!; try done. intros s2 t1 x1 t2 x2 x3 Hd2 Hw1 Hw2 H1 H2 Hsend.
  by eapply (wp_remembered_acked f e (entry_for f e t) t1 x1 t2 x2 x3 s2).
Qed.

Lemma fresh_alive t s : alive [t] (iterate (dedup_ s)) -> fresh_dedup t s = dedup_ s.
Proof.
  intros Ha. unfold fresh_dedup. apply map_filter_id. intros k v Hk. unfold expired.
  assert (Hlt := Ha t (k, v) ltac:(by left) ltac:(by apply elem_of_iterate)). cbn in *. lia.
Qed.

(** C26. The full cache forgets its newest id. When a new message arrives at a cache
    at its capacity in which no entry expires while the message is handled, the
    entry with the smallest id is given up, whatever its age and its lifetime, and
    all others are kept, with the new id. *)
Theorem newest_id_forgotten f e id s :
  env_ok s -> 1 <= dedup_capacity (config_ s) -> bytes_ok (payload f) ->
  (forall x : E, parse_message_envelope (payload f) (session_limits x) = success e) ->
  dedup_ s !! MessageProtocol.message_id e = None -> msize (dedup_ s) = dedup_capacity (config_ s) ->
  is_Some (dedup_ s !! id) -> (forall k, is_Some (dedup_ s !! k) -> key_le id k) ->
  exists s' ts t,
    handle_inbound_message f s = Some (tt, s') /\ readings (session_ s') = readings (session_ s) ++ ts ++ [t] /\
    (alive ts (iterate (dedup_ s)) ->
     dedup_ s' !! id = None /\
     dedup_ s' = <[MessageProtocol.message_id e := entry_for f e t]> (delete id (dedup_ s))).
Proof.
  intros Hs Hc Hb Hp Hnew Hfull [v Hid] Hmin. destruct (iterate_smallest _ _ _ Hid Hmin) as (l & Hi).
  destruct (wp_new_message f e (fun _ s' => exists ts t, readings (session_ s') = readings (session_ s) ++ ts ++ [t] /\
    (alive ts (iterate (dedup_ s)) ->
     dedup_ s' = <[MessageProtocol.message_id e := entry_for f e t]> (delete id (dedup_ s)))) s)
    as ([] & s' & Hrun & ts & t & Hr & Hd); try done.
  { intros s' t0 ts t m frames Hr Hd Hone _ _. exists (t0 :: ts), t. split; [by rewrite Hr |]. intros Ha. rewrite Hd. f_equal.
    assert (Hf : fresh_dedup t0 s = dedup_ s).
    { apply fresh_alive. intros t' kv ->%list_elem_of_singleton Hkv. apply Ha; [by left | done]. }
    rewrite Hf in Hone. apply (Hone id v l); [done | done |]. intros t' kv Ht Hkv. apply Ha; [by right | done]. }
  exists s', ts, t. split_and!; [done | done |]. intros Ha. specialize (Hd Ha). split; [| done].
  rewrite Hd, lookup_insert_ne by congruence. apply lookup_delete_eq.
Qed.

End cache.
