(* ===== verification/MessageServiceRuns.v ===== *)
(** * Runs of the message service

    What holds of a message service over any sequence of calls, frames of the peer
    and steps of the executor, whatever the clock answers: every call returns and
    the tables stay within their capacities; a tracked message ends once; a message
    is handled at most once in its lifetime; handlers run for authorised senders
    only; and an acknowledged message was received by the peer. *)

From Stdlib Require Import ZArith Lia ZifyBool String.
From stdpp Require Import base tactics option list gmap strings numbers.
From S2P Require Import Prelude Errors Limits Varint Wire Identifiers ProtoCodec FieldCodec Protocol Identity Signing Clock.
From S2P Require Import SessionChannels PairingProtocol PeerSession ServiceSession Effects MessageProtocol MessageService MessageServiceRules.
Import Wire Effects MessageProtocol MessageService.
#[local] Open Scope Z_scope.
#[local] Open Scope effect_scope.

(** ** Calls *)

Inductive Call (E : Type) : Type :=
  | Attach
  | Send (envelope : MessageEnvelope)
  | Receive (frame : Frame)
  | Prune
  | SessionClosed
  | SetInboundSink (set : bool)
  | SetAckSink (set : bool)
  | RunTask (record : Z) (throws : bool)
  | Stats
  | Destroy
  | Elsewhere (change : E -> E).
Arguments Attach {E}.
Arguments Send {E}.
Arguments Receive {E}.
Arguments Prune {E}.
Arguments SessionClosed {E}.
Arguments SetInboundSink {E}.
Arguments SetAckSink {E}.
Arguments RunTask {E}.
Arguments Stats {E}.
Arguments Destroy {E}.
Arguments Elsewhere {E}.

Section runs.
Context {E : Type} `{!MessageSession E} `{!LawfulSession E} `{Sodium}.
Abbreviation Service := (MessageService (Recorded E)).
Implicit Types s : Service.

Definition serve (c : Call E) : M Service unit :=
  match c with
  | Attach => attach ;; ret tt
  | Send envelope => send envelope ;; ret tt
  | Receive frame => handle_frame frame
  | Prune => prune
  | SessionClosed => handle_session_closed
  | SetInboundSink set => set_inbound_sink set
  | SetAckSink set => set_ack_sink set
  | RunTask record throws => run_task record throws
  | Stats => stats ;; ret tt
  | Destroy => destroy
  | Elsewhere change =>
      modify (fun s => {| s with session_ := let r := session_ s in {| r with inner := change (inner r) |} |})
  end.

(** Arguments of the types the code gives them; what happens to the session
    elsewhere keeps what the service relies on. *)
Definition call_ok (c : Call E) : Prop :=
  match c with
  | Send envelope => envelope_typed envelope
  | Receive frame => bytes_ok (payload frame)
  | Elsewhere change => forall e, session_ok e -> session_ok (change e)
  | _ => True
  end.

Definition run (cs : list (Call E)) : M Service unit := each serve cs.

(** A service that has just been made, with sinks installed or not. *)
Record initial s : Prop := {
  initial_ok : env_ok s;
  initial_config : config_unsigned (config_ s);
  initial_attached : attached_ s = false;
  initial_dedup : dedup_ s = ∅;
  initial_pending : pending_acks_ s = ∅;
  initial_tasks : tasks_ s = ∅;
  initial_log : log_ s = [];
  initial_sent : sent (session_ s) = [];
  initial_readings : readings (session_ s) = [];
}.

(** What a call does. *)
Inductive served s s' : Call E -> Prop :=
  | served_quiet c :
      env_ok s' -> sent (session_ s') = sent (session_ s) -> readings (session_ s') = readings (session_ s) ->
      config_ s' = config_ s -> dedup_ s' = dedup_ s -> pending_acks_ s' = pending_acks_ s -> tasks_ s' = tasks_ s ->
      log_ s' = log_ s -> scope_check_ s' = scope_check_ s ->
      (attached_ s' = attached_ s \/ config_valid (config_ s) = true) ->
      (ack_sink_ s' = ack_sink_ s \/ exists set, c = SetAckSink set /\ ack_sink_ s' = set) -> served s s' c
  | served_send e r : sending s s' r -> served s s' (Send e)
  | served_frame f : admitted s f s' -> served s s' (Receive f)
  | served_prune t :
      outcome s s' [] [t] (fresh_dedup t s) (fresh_pending t s) (tasks_ s) (timeouts t s) -> served s s' Prune
  | served_closed :
      outcome s s' [] [] (dedup_ s) ∅ (tasks_ s) (heard s (map closed_event (map fst (iterate (pending_acks_ s))))) ->
      served s s' SessionClosed
  | served_task r throws e :
      tasks_ s !! r = Some e ->
      outcome s s' [] [] (dedup_ s) (pending_acks_ s) (delete r (tasks_ s)) [Handled e] -> served s s' (RunTask r throws).

Lemma served_outcome s s' c :
  outcome s s' [] [] (dedup_ s) (pending_acks_ s) (tasks_ s) [] -> served s s' c.
Proof.
  intros [Oe Os Or Oc Ok Oa Od Op Ot Ol Osc]. rewrite !app_nil_r in *. apply served_quiet; try done; by left.
Qed.

Lemma config_valid_spec c :
  config_unsigned c -> config_valid c = true -> 1 <= dedup_capacity c /\ 1 <= pending_ack_capacity c.
Proof. unfold config_valid. intros [H1 H2 _ _] Hv. lia. Qed.

(** What every call keeps: the session answers, and nothing is in the tables
    before the service is attached. *)
Record sound s : Prop := {
  sound_ok : env_ok s;
  sound_config : config_unsigned (config_ s);
  sound_attached : attached_ s = true -> config_valid (config_ s) = true;
  sound_dedup : msize (dedup_ s) <= dedup_capacity (config_ s);
  sound_pending : msize (pending_acks_ s) <= pending_ack_capacity (config_ s);
}.

Lemma wp_serve_call c s : sound s -> call_ok c -> wp (serve c) (fun _ s' => served s s' c) s.
Proof.
  intros [Hs Hu Ha _ _] Hc. destruct c; cbn [serve call_ok] in *.
  - apply wp_bind. eapply wp_mono; [by apply wp_attach_messages |].
    intros u s' (? & ? & ? & ? & ? & ? & ? & ? & ? & ? & ?). apply wp_ret. apply served_quiet; try done. by left.
  - apply wp_bind. eapply wp_mono; [by apply wp_send_message |]. intros r s' Hr. apply wp_ret. eapply served_send, Hr.
  - unfold handle_frame. apply wp_bind. eapply wp_mono; [apply wp_admit_frame; [done | done | | done] |].
    + intros Hat. by destruct (config_valid_spec _ Hu (Ha Hat)).
    + intros r s' Hr. apply wp_ret. by apply served_frame.
  - unfold prune. apply wp_bind, wp_merge_dispatch_records. intros records st. apply wp_prune_expired; [done |].
    intros t e st' He. apply (served_prune _ _ t). split; try done; cbn; by rewrite app_nil_r.
  - apply wp_handle_session_closed. intros st. apply served_closed. split; try done; cbn; by rewrite app_nil_r.
  - apply wp_modify. apply served_quiet; try done; by left.
  - apply wp_modify. apply served_quiet; try done; [by left | right; by exists set].
  - eapply wp_mono; [by apply wp_run_task |]. intros u s' [Ho | (e & He & Ho)]; [by apply served_outcome | by eapply served_task].
  - unfold stats. apply wp_bind, wp_bind, wp_merge_dispatch_records. intros records st. apply wp_get, wp_ret.
    apply served_quiet; try done; by left.
  - eapply wp_mono; [by apply wp_destroy_messages |]. intros u s' Ho. by apply served_outcome.
  - apply wp_modify. apply served_quiet; try done; [by apply Hc | by left | by left].
Qed.

(** ** Bounded tables *)

Lemma fresh_pending_size t s : msize (fresh_pending t s) <= msize (pending_acks_ s).
Proof. apply msize_subseteq, map_filter_subseteq. Qed.
Lemma fresh_dedup_size t s : msize (fresh_dedup t s) <= msize (dedup_ s).
Proof. apply msize_subseteq, map_filter_subseteq. Qed.

Lemma msize_insert_le `{Countable K} {V} (m : gmap K V) k v : msize (<[k := v]> m) <= msize m + 1.
Proof.
  destruct (m !! k) as [w |] eqn:Hk; [rewrite (msize_insert_old _ _ _ w) by done; lia |].
  rewrite msize_insert_new by done. lia.
Qed.

Lemma room_made_size s pa pa' evs :
  1 <= pending_ack_capacity (config_ s) -> msize pa <= pending_ack_capacity (config_ s) ->
  room_made s pa pa' evs -> msize pa' + 1 <= pending_ack_capacity (config_ s).
Proof.
  intros H1 H2 [(-> & _ & [Hlt | ->]) | (old & p & Ho & -> & Hf & _)]; [lia | by rewrite msize_empty |].
  rewrite (msize_delete_old _ _ p) by done. lia.
Qed.

(** What [outcome] keeps of [sound], given the tables. *)
Lemma sound_outcome s s' frames ts dd pa tk evs :
  sound s -> outcome s s' frames ts dd pa tk evs ->
  msize dd <= dedup_capacity (config_ s) -> msize pa <= pending_ack_capacity (config_ s) -> sound s'.
Proof. intros [] [Oe _ _ Oc _ Oa Od Op _ _ _] Hd Hp. split; by rewrite ?Oc, ?Oa, ?Od, ?Op. Qed.

Lemma sound_served s s' c : sound s -> served s s' c -> sound s'.
Proof.
  intros Hs Hv. assert (Hs' := Hs). destruct Hs' as [Hok Hu Ha Hd Hp].
  assert (Hfp := fun t => Z.le_trans _ _ _ (fresh_pending_size t s) Hp).
  assert (Hfd := fun t => Z.le_trans _ _ _ (fresh_dedup_size t s) Hd).
  destruct Hv as [c O0 O1 O2 O3 O4 O5 O6 O7 O8 O9 O10 | e r Hr | f Hf | t Ho | Ho | r throws e He Ho].
  - split; rewrite ?O3, ?O4, ?O5; try done. destruct O9 as [-> |]; [done | intros _; done].
  - destruct Hr as [error Hat Ho | id error Hat Ho | id channel encoded Hat Ho | e' limits channel encoded t now pa evs Hat He Hm Hr Ho];
      try by eapply sound_outcome.
    destruct (config_valid_spec _ Hu (Ha Hat)) as [_ H1]. eapply sound_outcome; [done | exact Ho | apply Hfd |].
    etrans; [apply msize_insert_le |]. eapply room_made_size; [done | apply Hfp | done].
  - destruct Hf as [Ho | Hat Ht Hi | Hat Ht Hi].
    + by eapply sound_outcome.
    + destruct Hi as [t ts Ho | t ts e entry limits frames Ho | t ts now e limits m frames tasks Ho Hpa Hnow Hdead Hm Hz];
        [by eapply sound_outcome; eauto.. |].
      eapply sound_outcome; [done | exact Ho | | apply Hfp]. etrans; [apply msize_insert_le | lia].
    + destruct Hi as [Ho | a p Ho Hpa Hx]; [by eapply sound_outcome |].
      eapply sound_outcome; [done | exact Ho | done |]. etrans; [apply msize_delete_le | done].
  - by eapply sound_outcome; eauto.
  - eapply sound_outcome; [done | exact Ho | done |]. rewrite msize_empty. by destruct Hu.
  - by eapply sound_outcome.
Qed.

Lemma initial_sound s : initial s -> sound s.
Proof.
  intros [Ie Ic Ia Id Ip _ _ _ _]. split; try done; [by rewrite Ia | |]; rewrite ?Id, ?Ip, msize_empty; apply Ic.
Qed.

(** An invariant of the calls holds after a run. *)
Lemma wp_runs (P : Call E -> Prop) (I : Service -> Prop) cs s :
  sound s -> I s -> Forall call_ok cs -> Forall P cs ->
  (forall c s s', P c -> sound s -> I s -> served s s' c -> I s') ->
  wp (run cs) (fun _ s' => sound s' /\ I s') s.
Proof.
  intros Hs HI Hok HP Hstep. apply (wp_each serve (fun s => sound s /\ I s)); [done |].
  intros c s1 Hc [Hs1 HI1]. apply list_elem_of_In in Hc. apply (proj1 (Forall_forall _ _) Hok) in Hc as Hcok. apply (proj1 (Forall_forall _ _) HP) in Hc.
  eapply wp_mono; [by apply wp_serve_call |]. intros u s' Hv. split; [exact (sound_served _ _ _ Hs1 Hv) |].
  exact (Hstep _ _ _ Hc Hs1 HI1 Hv).
Qed.

(** The invariant of a run that has happened. *)
Lemma run_invariant (P : Call E -> Prop) (I : Service -> Prop) cs s s' :
  sound s -> I s -> Forall call_ok cs -> Forall P cs ->
  (forall c s s', P c -> sound s -> I s -> served s s' c -> I s') ->
  run cs s = Some (tt, s') -> sound s' /\ I s'.
Proof. intros Hs HI Hok HP Hstep Hr. exact (wp_run _ _ _ _ _ (wp_runs P I cs s Hs HI Hok HP Hstep) Hr). Qed.

(** Every sequence of calls returns, and leaves the tables within their capacities. *)
Lemma calls_bounded cs s :
  initial s -> Forall call_ok cs ->
  exists s', run cs s = Some (tt, s') /\
    dedup_entries s' <= dedup_capacity (config_ s') /\ pending_acks s' <= pending_ack_capacity (config_ s').
Proof.
  intros Hi Hc.
  destruct (wp_runs (fun _ => True) (fun _ => True) cs s) as ([] & s' & Hr & [Hs _]);
    [by apply initial_sound | done | done | by apply Forall_true | done |].
  exists s'. destruct Hs. done.
Qed.

(** ** A tracked message ends once *)

Definition is_queued (id : list Z) (e : Event) : bool :=
  match e with Ack i MessageDeliveryEvent.queued _ => bytes_eqb i id | _ => false end.

Definition is_end (id : list Z) (e : Event) : bool :=
  match e with
  | Ack i (MessageDeliveryEvent.acked | MessageDeliveryEvent.peer_rejected | MessageDeliveryEvent.ack_timeout
          | MessageDeliveryEvent.session_closed) _ => bytes_eqb i id
  | _ => false
  end.

Definition times (P : Event -> bool) (log : list Event) : nat := length (List.filter P log).

Lemma times_app P l k : times P (l ++ k) = (times P l + times P k)%nat.
Proof. unfold times. by rewrite List.filter_app, length_app. Qed.

(** How often a message was queued, has ended, and is pending. *)
Definition queued_times (id : list Z) (log : list Event) : nat := times (is_queued id) log.
Definition end_times (id : list Z) (log : list Event) : nat := times (is_end id) log.
Definition tracked (id : list Z) (pa : gmap (list Z) PendingAck) : nat :=
  match pa !! id with Some _ => 1 | None => 0 end.

(** No end without a beginning, and one end for a message that was queued once. *)
Definition accounted (pa : gmap (list Z) PendingAck) (log : list Event) : Prop := forall id,
  (end_times id log + tracked id pa <= queued_times id log)%nat /\
  ((queued_times id log <= 1)%nat -> (end_times id log + tracked id pa = queued_times id log)%nat).

Lemma accounted_settle pa pa' log evs :
  accounted pa log ->
  (forall id, queued_times id evs = 0%nat /\ (end_times id evs + tracked id pa' = tracked id pa)%nat) ->
  accounted pa' (log ++ evs).
Proof.
  intros Ha He id. destruct (Ha id) as [H1 H2], (He id) as [H3 H4]. unfold queued_times, end_times in *.
  rewrite !times_app. lia.
Qed.

Lemma accounted_queue pa log id p error :
  accounted pa log -> accounted (<[id := p]> pa) (log ++ [Ack id MessageDeliveryEvent.queued error]).
Proof.
  intros Ha i. destruct (Ha i) as [H1 H2]. unfold queued_times, end_times, tracked in *. rewrite !times_app.
  unfold times in *. cbn. destruct (decide (i = id)) as [-> | Hne].
  - rewrite lookup_insert_eq, bytes_eqb_refl. cbn. destruct (pa !! id); cbn in *; lia.
  - rewrite lookup_insert_ne by done. destruct (bytes_eqb id i) eqn:Hb; [by apply bytes_eqb_eq in Hb |]. cbn. lia.
Qed.

(** The ends of distinct messages, one for each id of a list. *)
Lemma end_times_ids (end_of : list Z -> Event) ids id :
  (forall i, is_end id (end_of i) = bytes_eqb i id) -> NoDup ids ->
  end_times id (map end_of ids) = if decide (id ∈ ids) then 1%nat else 0%nat.
Proof.
  intros He. unfold end_times, times. induction 1 as [| i ids Hni Hnd IH]; [done |].
  cbn [map List.filter]. rewrite He. destruct (bytes_eqb i id) eqn:Hb.
  - apply bytes_eqb_eq in Hb as ->. cbn [length]. rewrite IH. rewrite decide_False by done. by rewrite decide_True by (by left).
  - rewrite IH. assert (Hne : i <> id) by (intros ->; by rewrite bytes_eqb_refl in Hb).
    destruct (decide (id ∈ ids)); [rewrite decide_True by (by right) | rewrite decide_False by set_solver]; done.
Qed.

Lemma queued_times_ids (end_of : list Z -> Event) ids id :
  (forall i, is_queued id (end_of i) = false) -> queued_times id (map end_of ids) = 0%nat.
Proof. intros He. unfold queued_times, times. induction ids as [| i ids IH]; [done |]. cbn. by rewrite He. Qed.

Lemma ids_where_nodup {V} (P : V -> bool) (m : gmap (list Z) V) : NoDup (ids_where P (iterate m)).
Proof.
  assert (Hn := iterate_nodup m). unfold ids_where. induction (iterate m) as [| kv l IH]; cbn; [constructor |].
  cbn in Hn. inversion Hn as [| ? ? Hni Hnd]; subst. specialize (IH Hnd). destruct (P (snd kv)); [| done].
  cbn. constructor; [| done]. intros Hin. apply Hni. apply list_elem_of_fmap in Hin as (x & Hx & Hin).
  apply list_elem_of_In, filter_In in Hin as [Hin _]. apply list_elem_of_fmap. exists x. split; [done |]. by apply list_elem_of_In.
Qed.

Lemma elem_of_ids_where {V} (P : V -> bool) (m : gmap (list Z) V) id :
  id ∈ ids_where P (iterate m) <-> exists v, m !! id = Some v /\ P v = true.
Proof.
  unfold ids_where. split.
  - intros Hin. apply list_elem_of_fmap in Hin as ([k v] & -> & Hin). apply list_elem_of_In, filter_In in Hin as [Hin HP].
    exists v. split; [by apply elem_of_iterate, list_elem_of_In | done].
  - intros (v & Hv & HP). apply list_elem_of_fmap. exists (id, v). split; [done |].
    apply list_elem_of_In, filter_In. split; [by apply list_elem_of_In, elem_of_iterate | done].
Qed.

(** Events that end exactly the messages that are no longer pending. *)
Definition ends (pa pa' : gmap (list Z) PendingAck) (evs : list Event) : Prop := forall id,
  queued_times id evs = 0%nat /\ (end_times id evs + tracked id pa' = tracked id pa)%nat.

Lemma ends_none pa : ends pa pa [].
Proof. by intros id. Qed.

Lemma ends_app pa1 pa2 pa3 evs evs' : ends pa1 pa2 evs -> ends pa2 pa3 evs' -> ends pa1 pa3 (evs ++ evs').
Proof.
  intros H1 H2 id. destruct (H1 id), (H2 id). unfold queued_times, end_times in *. rewrite !times_app. lia.
Qed.

Lemma ends_timeouts t s : ack_sink_ s = true -> ends (pending_acks_ s) (fresh_pending t s) (timeouts t s).
Proof.
  intros Hk id. unfold timeouts, heard. rewrite Hk. rewrite queued_times_ids by done.
  rewrite end_times_ids by (done || apply ids_where_nodup). split; [done |].
  unfold tracked, fresh_pending. destruct (pending_acks_ s !! id) as [p |] eqn:Hp.
  - destruct (lapsed t p) eqn:Hl.
    + rewrite decide_True by (apply elem_of_ids_where; by exists p).
      destruct (filter _ _ !! id) as [q |] eqn:Hq; [| done]. apply map_lookup_filter_Some in Hq as [Hq Hd]. cbn in Hd. congruence.
    + rewrite decide_False by (intros (q & Hq & Hd)%elem_of_ids_where; congruence).
      by rewrite (map_lookup_filter_Some_2 _ _ _ p).
  - rewrite decide_False by (intros (q & Hq & Hd)%elem_of_ids_where; congruence).
    destruct (filter _ _ !! id) as [q |] eqn:Hq; [| done]. apply map_lookup_filter_Some in Hq as [Hq _]. congruence.
Qed.

(** One message leaves with one event. *)
Lemma ends_one pa id p e :
  pa !! id = Some p -> (forall i, is_queued i e = false) -> (forall i, is_end i e = bytes_eqb id i) ->
  ends pa (delete id pa) [e].
Proof.
  intros Hp Hq He i. unfold queued_times, end_times, times, tracked. cbn. rewrite Hq, He. split; [done |].
  destruct (decide (i = id)) as [-> | Hne].
  - by rewrite bytes_eqb_refl, lookup_delete_eq, Hp.
  - rewrite lookup_delete_ne by done. destruct (bytes_eqb id i) eqn:Hb; [by apply bytes_eqb_eq in Hb | done].
Qed.

Lemma ends_room s pa pa' evs : ack_sink_ s = true -> room_made s pa pa' evs -> ends pa pa' evs.
Proof.
  intros Hk [(-> & -> & _) | (old & p & Hp & -> & _ & ->)]; [apply ends_none |].
  unfold heard. rewrite Hk. by apply (ends_one _ _ p).
Qed.

Lemma ends_closed s :
  ack_sink_ s = true -> ends (pending_acks_ s) ∅ (heard s (map closed_event (map fst (iterate (pending_acks_ s))))).
Proof.
  intros Hk id. unfold heard. rewrite Hk. rewrite queued_times_ids by done.
  rewrite end_times_ids by (done || apply iterate_nodup). split; [done |].
  unfold tracked. rewrite lookup_empty. destruct (pending_acks_ s !! id) as [p |] eqn:Hp.
  - rewrite decide_True; [done |]. apply list_elem_of_fmap. exists (id, p). split; [done | by apply elem_of_iterate].
  - rewrite decide_False; [done |]. intros Hin. apply list_elem_of_fmap in Hin as ([k v] & -> & Hin).
    apply elem_of_iterate in Hin. cbn in Hp. congruence.
Qed.

(** The invariant of the acknowledgements of a service whose sink is installed. *)
Definition listening s : Prop := ack_sink_ s = true /\ accounted (pending_acks_ s) (log_ s).

Lemma listening_outcome s s' frames ts dd pa tk evs :
  listening s -> outcome s s' frames ts dd pa tk evs -> ends (pending_acks_ s) pa evs -> listening s'.
Proof.
  intros [Hk Ha] [_ _ _ _ Ok _ _ Op _ Ol _] He. split; [congruence |]. rewrite Op, Ol. by eapply accounted_settle.
Qed.

Lemma listening_sending s s' r : listening s -> sending s s' r -> listening s'.
Proof.
  intros [Hk Ha] Hs. assert (Hl : listening s) by done.
  destruct Hs as [error Hat Ho | id error Hat Ho | id channel encoded Hat Ho | e limits channel encoded t now pa evs Hat He Hm Hr Ho].
  - eapply listening_outcome; [done | exact Ho | apply ends_none].
  - eapply listening_outcome; [done | exact Ho |]. unfold heard. rewrite Hk. by intros i.
  - eapply listening_outcome; [done | exact Ho | apply ends_none].
  - destruct Ho as [_ _ _ _ Ok _ _ Op _ Ol _]. split; [congruence |]. rewrite Op, Ol, app_assoc.
    unfold heard. rewrite Hk. apply accounted_queue. eapply accounted_settle; [done |].
    eapply ends_app; [by apply ends_timeouts | by eapply ends_room].
Qed.

Lemma listening_admitted s f s' : listening s -> admitted s f s' -> listening s'.
Proof.
  intros Hl Ha. assert (Hk := proj1 Hl). destruct Ha as [Ho | Hat Ht Hi | Hat Ht Hi].
  - eapply listening_outcome; [done | exact Ho | apply ends_none].
  - destruct Hi as [t ts Ho | t ts e entry limits frames Ho | t ts now e limits m frames tasks Ho];
      (eapply listening_outcome; [done | exact Ho | by apply ends_timeouts]).
  - destruct Hi as [Ho | a p Ho Hpa Hx]; [eapply listening_outcome; [done | exact Ho | apply ends_none] |].
    eapply listening_outcome; [done | exact Ho |]. unfold heard. rewrite Hk.
    apply (ends_one _ _ p); [done | intros i; unfold settled; by destruct (protocol_accepted a) ..].
Qed.

Definition keeps_listening (c : Call E) : Prop := c <> SetAckSink false.

Lemma listening_served c s s' : keeps_listening c -> listening s -> served s s' c -> listening s'.
Proof.
  intros Hc Hl Hv. assert (Hk := proj1 Hl).
  destruct Hv as [c _ _ _ _ _ Op _ Ol _ _ Ok | e r Hr | f Hf | t Ho | Ho | r throws e He Ho].
  - destruct Hl as [_ Ha]. split; [| by rewrite Op, Ol]. destruct Ok as [-> | (set & -> & ->)]; [done |]. by destruct set.
  - by eapply listening_sending.
  - by eapply listening_admitted.
  - eapply listening_outcome; [done | exact Ho | by apply ends_timeouts].
  - eapply listening_outcome; [done | exact Ho | by apply ends_closed].
  - eapply listening_outcome; [done | exact Ho |]. by intros i.
Qed.

(** C21. A tracked message ends once: over any calls of a service whose
    acknowledgement sink stays installed, no message is reported acknowledged,
    rejected, timed out or lost with the session more often than it was reported
    queued, and one that was queued once has either been reported as ended, once, or
    is still pending; once the session has closed it has been reported as ended. *)
Theorem acks_end_once cs s s' id :
  initial s -> ack_sink_ s = true -> Forall call_ok cs -> Forall keeps_listening cs -> run cs s = Some (tt, s') ->
  (end_times id (log_ s') + tracked id (pending_acks_ s') <= queued_times id (log_ s'))%nat /\
  (queued_times id (log_ s') = 1%nat -> (end_times id (log_ s') + tracked id (pending_acks_ s') = 1)%nat) /\
  exists s'', handle_session_closed s' = Some (tt, s'') /\
    (queued_times id (log_ s') = 1%nat -> end_times id (log_ s'') = 1%nat).
Proof.
  intros Hi Hk Hok Hkeep Hr. destruct Hi as [Ie Ic Ia Id Ip It Il Is Ird] eqn:Hi'.
  destruct (run_invariant keeps_listening listening cs s s') as [Hs Hl];
    [by apply initial_sound | | done | done | intros c s1 s2 Hc _; by apply listening_served | done |].
  { split; [done |]. rewrite Ip, Il. by intros i. }
  destruct (proj2 Hl id) as [H1 H2]. split_and!; [done | intros Hq; rewrite <- Hq; apply H2; lia |].
  assert (He := ends_closed s' (proj1 Hl)).
  destruct (wp_handle_session_closed (fun _ s'' => log_ s'' = log_ s' ++ heard s' (map closed_event (map fst (iterate (pending_acks_ s'))))) s')
    as ([] & s'' & Hc & Hlog); [done |].
  exists s''. split; [done |]. intros Hq. rewrite Hlog. assert (Ha := accounted_settle _ _ _ _ (proj2 Hl) He id).
  destruct (He id) as [Hq' _]. unfold queued_times, end_times in *. rewrite !times_app in *.
  change (tracked id ∅) with 0%nat in Ha. lia.
Qed.

(** ** A message is handled at most once in its lifetime *)

Definition is_handled (id : list Z) (e : Event) : bool :=
  match e with Handled envelope => bytes_eqb (MessageProtocol.message_id envelope) id | Ack _ _ _ => false end.

Definition waiting (id : list Z) (tk : gmap Z MessageEnvelope) : nat :=
  size (filter (fun kv => MessageProtocol.message_id (snd kv) = id) tk).

(** The runs of the handler for an id, with those the executor has yet to start. *)
Definition handled_times (id : list Z) s : nat := (times (is_handled id) (log_ s) + waiting id (tasks_ s))%nat.

Lemma waiting_insert id tk r e :
  (waiting id (<[r := e]> tk) <= waiting id tk + (if bytes_eqb (MessageProtocol.message_id e) id then 1 else 0))%nat.
Proof.
  unfold waiting. destruct (bytes_eqb _ _) eqn:Hb.
  - apply bytes_eqb_eq in Hb. rewrite map_filter_insert_True by done.
    assert (Hz := msize_insert_le (filter (fun kv => MessageProtocol.message_id (snd kv) = id) tk) r e). unfold msize in Hz. lia.
  - rewrite map_filter_insert_False by (cbn; intros Heq; by rewrite Heq, bytes_eqb_refl in Hb).
    rewrite Nat.add_0_r. apply map_subseteq_size, map_filter_subseteq_mono, delete_subseteq.
Qed.

Lemma waiting_run id tk r e :
  tk !! r = Some e ->
  (times (is_handled id) [Handled e] + waiting id (delete r tk) = waiting id tk)%nat.
Proof.
  intros Hr. unfold waiting, times. cbn. rewrite map_filter_delete. destruct (bytes_eqb _ _) eqn:Hb; cbn.
  - apply bytes_eqb_eq in Hb. rewrite map_size_delete_Some by (exists e; by apply map_lookup_filter_Some).
    assert (size (filter (fun kv => MessageProtocol.message_id (snd kv) = id) tk) <> 0)%nat; [| lia].
    intros Hz%map_size_empty_inv. assert (Hl : filter (fun kv => MessageProtocol.message_id (snd kv) = id) tk !! r = Some e)
      by (by apply map_lookup_filter_Some). by rewrite Hz in Hl.
  - rewrite delete_id; [done |]. apply map_lookup_filter_None. right. intros x Hx Heq. cbn in Heq.
    simplify_eq. by rewrite bytes_eqb_refl in Hb.
Qed.

Definition acks_only (evs : list Event) : Prop := forall id, times (is_handled id) evs = 0%nat.

Lemma acks_only_ids (end_of : list Z -> Event) s ids :
  (forall id i, is_handled id (end_of i) = false) -> acks_only (heard s (map end_of ids)).
Proof.
  intros He id. unfold heard. destruct (ack_sink_ s); [| done]. unfold times.
  induction ids as [| i ids IH]; [done |]. cbn. by rewrite He.
Qed.

Lemma acks_only_app a b : acks_only a -> acks_only b -> acks_only (a ++ b).
Proof. intros Ha Hb id. rewrite times_app, (Ha id), (Hb id). done. Qed.

Lemma acks_only_timeouts t s : acks_only (timeouts t s).
Proof. by apply acks_only_ids. Qed.

Lemma acks_only_ack s id event error : acks_only (heard s [Ack id event error]).
Proof. by apply (acks_only_ids (fun i => Ack i event error) s [id]). Qed.

Lemma acks_only_room s pa pa' evs : room_made s pa pa' evs -> acks_only evs.
Proof. intros [(_ & -> & _) | (old & p & _ & _ & _ & ->)]; [done | apply acks_only_ack]. Qed.

Lemma acks_only_settled s a : acks_only (heard s [settled a]).
Proof. unfold settled. destruct (protocol_accepted a); apply acks_only_ack. Qed.

Section window.
Context (id : list Z) (t0 w : Z).
Hypothesis window_fits : 0 <= t0 /\ t0 + w + 600000 < 2 ^ 64.

Definition in_window (t : Z) : Prop := t0 <= t < t0 + w.

(** The id has not been handled, or it has and is remembered past the window. *)
Definition remembered s : Prop :=
  handled_times id s = 0%nat \/
  (handled_times id s <= 1)%nat /\ exists entry, dedup_ s !! id = Some entry /\ t0 + w <= dedup_expires entry.

Definition lives_long (f : Frame) : Prop := forall limits e,
  parse_message_envelope (payload f) limits = success e -> MessageProtocol.message_id e = id -> w <= ttl_milliseconds e.

Lemma fresh_keeps t s entry :
  in_window t -> dedup_ s !! id = Some entry -> t0 + w <= dedup_expires entry -> fresh_dedup t s !! id = Some entry.
Proof.
  intros Ht He Hx. unfold fresh_dedup. apply map_lookup_filter_Some. split; [done |]. unfold expired, in_window in *. cbn. lia.
Qed.

(** A step that hands nothing over and only prunes. *)
Lemma remembered_outcome s s' frames ts dd pa evs :
  remembered s -> outcome s s' frames ts dd pa (tasks_ s) evs -> acks_only evs ->
  (dd = dedup_ s \/ exists t, in_window t /\ dd = fresh_dedup t s) -> remembered s'.
Proof.
  intros Hr [_ _ _ _ _ _ Od _ Ot Ol _] He Hd. unfold remembered, handled_times in *. rewrite Od, Ot, Ol, times_app, (He id).
  rewrite Nat.add_0_r. destruct Hr as [Hr | (Hr & entry & Hx & Hlong)]; [by left |]. right. split; [done |].
  exists entry. split; [| done]. destruct Hd as [-> | (t & Ht & ->)]; [done | by apply fresh_keeps].
Qed.

(** Every reading of a later state is in the window. *)
Definition timely s : Prop := Forall in_window (readings (session_ s)).

Lemma outcome_timely s s' frames ts dd pa tk evs :
  outcome s s' frames ts dd pa tk evs -> timely s' -> timely s /\ Forall in_window ts.
Proof. intros [_ _ Or _ _ _ _ _ _ _ _]. unfold timely. by rewrite Or, Forall_app. Qed.

Lemma remembered_inbound s f s' :
  remembered s -> inbound s f s' -> timely s' -> bytes_ok (payload f) -> lives_long f ->
  msize (dedup_ s) < dedup_capacity (config_ s) -> remembered s'.
Proof.
  intros Hr Hi Ht Hb Hlong Hroom.
  destruct Hi as [t ts Ho | t ts e entry limits frames Ho | t ts now e limits m frames tasks Ho Hp Hnow Hdead Hm Hz Hsame _ Htasks];
    apply (outcome_timely _ _ _ _ _ _ _ _ Ho) in Ht as Hw; destruct Hw as [_ [Hwt Hws]%Forall_cons_1].
  1,2: eapply remembered_outcome; [done | exact Ho | apply acks_only_timeouts | right; by exists t].
  destruct Ho as [_ _ _ _ _ _ Od _ Ot Ol _]. destruct (parse_envelope_sound _ _ _ Hb Hp) as (_ & Hv & _).
  assert (Hlt : msize (fresh_dedup t s) < dedup_capacity (config_ s))
    by (eapply Z.le_lt_trans; [apply fresh_dedup_size | done]).
  rewrite (Hsame Hlt) in Od. clear Hsame. unfold remembered, handled_times in *.
  rewrite Od, Ot, Ol, times_app, (acks_only_timeouts t s id), Nat.add_0_r.
  destruct (decide (MessageProtocol.message_id e = id)) as [Hid | Hne].
  - destruct Hr as [Hr | (Hr & entry & Hx & Hl)].
    + assert (Hin : in_window now) by (apply list_elem_of_In in Hnow; exact (proj1 (Forall_forall _ _) Hws _ Hnow)).
      assert (Hle := Hlong _ _ Hp Hid). assert (Hvt := valid_ttl _ _ Hv). unfold in_window in Hin. right. split.
      * destruct Htasks as [-> | (r & ->)]; [lia |]. assert (Hwi := waiting_insert id (tasks_ s) r e).
        rewrite Hid, bytes_eqb_refl in Hwi. lia.
      * rewrite Hid, lookup_insert_eq. eexists. split; [done |]. cbn. rewrite u64_small by lia. lia.
    + destruct (Hdead entry) as (t' & Hin & Hle); [rewrite Hid; by apply fresh_keeps |].
      apply list_elem_of_In in Hin. apply (proj1 (Forall_forall _ _) Hws) in Hin. unfold in_window in Hin. lia.
  - assert (Hw : (waiting id tasks <= waiting id (tasks_ s))%nat).
    { destruct Htasks as [-> | (r & ->)]; [done |]. assert (Hwi := waiting_insert id (tasks_ s) r e).
      destruct (bytes_eqb _ _) eqn:Hb' in Hwi; [by apply bytes_eqb_eq in Hb' | lia]. }
    destruct Hr as [Hr | (Hr & entry & Hx & Hl)]; [left; lia |]. right. split; [lia |]. exists entry. split; [| done].
    rewrite lookup_insert_ne, lookup_delete_ne by done. by apply fresh_keeps.
Qed.

Definition is_receive (c : Call E) : bool := match c with Receive _ => true | _ => false end.

(** What the window theorem asks of a call. *)
Definition long_lived (c : Call E) : Prop := forall f, c = Receive f -> lives_long f.

Lemma remembered_served s s' c :
  sound s -> remembered s -> served s s' c -> timely s' -> call_ok c -> long_lived c ->
  (is_receive c = true -> msize (dedup_ s) < dedup_capacity (config_ s)) -> remembered s'.
Proof.
  intros Hs Hr Hv Ht Hc Hlong Hroom.
  destruct Hv as [c _ _ _ _ Od _ Ot Ol _ _ _ | e r Hsend | f Hf | t Ho | Ho | r throws e He Ho].
  - unfold remembered, handled_times in *. by rewrite Od, Ot, Ol.
  - destruct Hsend as [error Hat Ho | i error Hat Ho | i channel encoded Hat Ho | e' limits channel encoded t now pa evs Hat He Hm Hrm Ho].
    1,3: eapply remembered_outcome; [done | exact Ho | done | by left].
    + eapply remembered_outcome; [done | exact Ho | apply acks_only_ack | by left].
    + apply (outcome_timely _ _ _ _ _ _ _ _ Ho) in Ht as [_ [Hw _]%Forall_cons_1].
      eapply remembered_outcome; [done | exact Ho | | right; by exists t].
      apply acks_only_app; [| apply acks_only_ack]. apply acks_only_app; [apply acks_only_timeouts | by eapply acks_only_room].
  - destruct Hf as [Ho | Hat Hty Hi | Hat Hty Hi].
    + eapply remembered_outcome; [done | exact Ho | done | by left].
    + eapply remembered_inbound; try done; [by apply Hlong | by apply Hroom].
    + destruct Hi as [Ho | a p Ho Hpa Hx]; (eapply remembered_outcome; [done | exact Ho | | by left]); [done | apply acks_only_settled].
  - apply (outcome_timely _ _ _ _ _ _ _ _ Ho) in Ht as [_ [Hw _]%Forall_cons_1].
    eapply remembered_outcome; [done | exact Ho | apply acks_only_timeouts | right; by exists t].
  - eapply remembered_outcome; [done | exact Ho | by apply acks_only_ids | by left].
  - destruct Ho as [_ _ _ _ _ _ Od _ Ot Ol _]. unfold remembered, handled_times in *. rewrite Od, Ot, Ol, times_app.
    assert (Hw := waiting_run id _ _ _ He).
    replace (times (is_handled id) (log_ s) + times (is_handled id) [Handled e] + waiting id (delete r (tasks_ s)))%nat
      with (times (is_handled id) (log_ s) + waiting id (tasks_ s))%nat by lia. done.
Qed.

Definition receives (cs : list (Call E)) : Z := zlen (List.filter is_receive cs).

(** A call remembers one id more, at most, and only for a frame. *)
Lemma dedup_growth s s' c :
  served s s' c -> msize (dedup_ s') <= msize (dedup_ s) + (if is_receive c then 1 else 0) /\ config_ s' = config_ s.
Proof.
  assert (Hgrow : forall frames ts dd pa tk evs, outcome s s' frames ts dd pa tk evs -> msize dd <= msize (dedup_ s) + (if is_receive c then 1 else 0) ->
    msize (dedup_ s') <= msize (dedup_ s) + (if is_receive c then 1 else 0) /\ config_ s' = config_ s).
  { intros frames ts dd pa tk evs [_ _ _ Oc _ _ Od _ _ _ _] Hd. by rewrite Od. }
  assert (Hf := fun t => fresh_dedup_size t s).
  intros Hv. destruct Hv as [c _ _ _ Oc Od _ _ _ _ _ _ | e r Hsend | f Hfr | t Ho | Ho | r throws e He Ho]; cbn [is_receive] in *.
  - rewrite Od. split; [| done]. destruct (is_receive c); lia.
  - destruct Hsend as [error Hat Ho | i error Hat Ho | i channel encoded Hat Ho | e' limits channel encoded t now pa evs Hat He Hm Hrm Ho];
      (eapply Hgrow; [exact Ho |]); [lia.. |]. specialize (Hf t). lia.
  - destruct Hfr as [Ho | Hat Hty Hi | Hat Hty Hi].
    + eapply Hgrow; [exact Ho | lia].
    + destruct Hi as [t ts Ho | t ts e entry limits frames Ho | t ts now e limits m frames tasks Ho Hp Hnow Hdead Hm Hz];
        (eapply Hgrow; [exact Ho |]); specialize (Hf t); [lia.. |].
      etrans; [apply msize_insert_le |]. apply msize_subseteq in Hm.
      assert (Hdl := msize_delete_le (fresh_dedup t s) (MessageProtocol.message_id e)). lia.
    + destruct Hi as [Ho | a p Ho Hpa Hx]; (eapply Hgrow; [exact Ho | lia]).
  - eapply Hgrow; [exact Ho |]. specialize (Hf t). lia.
  - eapply Hgrow; [exact Ho | lia].
  - eapply Hgrow; [exact Ho | lia].
Qed.

Lemma served_timely s s' c : served s s' c -> timely s' -> timely s.
Proof.
  intros Hv Ht. assert (Ho := fun frames ts dd pa tk evs H => proj1 (outcome_timely s s' frames ts dd pa tk evs H Ht)).
  destruct Hv as [c _ _ Or _ _ _ _ _ _ _ _ | e r Hsend | f Hf | t Hx | Hx | r throws e He Hx]; [| | | by eapply Ho..].
  - unfold timely in *. by rewrite <- Or.
  - destruct Hsend; by eapply Ho.
  - destruct Hf as [Hx | Hat Hty Hi | Hat Hty Hi]; [by eapply Ho | destruct Hi; by eapply Ho..].
Qed.

Lemma run_cons c cs s s' :
  run (c :: cs) s = Some (tt, s') -> exists s1, serve c s = Some (tt, s1) /\ run cs s1 = Some (tt, s').
Proof.
  unfold run. cbn [each]. unfold bind. destruct (serve c s) as [[[] s1] |]; [| done]. intros Hr. by exists s1.
Qed.

Lemma run_timely cs s s' : sound s -> Forall call_ok cs -> run cs s = Some (tt, s') -> timely s' -> timely s.
Proof.
  intros Hs Hok. revert s Hs. induction Hok as [| c cs Hc Hok IH]; intros s Hs Hr Ht; [by injection Hr as <- |].
  apply run_cons in Hr as (s1 & Hc1 & Hr). assert (Hv := wp_run _ _ _ _ _ (wp_serve_call c s Hs Hc) Hc1).
  eapply served_timely; [exact Hv |]. by apply (IH s1 (sound_served _ _ _ Hs Hv)).
Qed.

Lemma remembered_run cs s s' :
  sound s -> remembered s -> Forall call_ok cs -> Forall long_lived cs -> run cs s = Some (tt, s') -> timely s' ->
  msize (dedup_ s) + receives cs <= dedup_capacity (config_ s) -> remembered s'.
Proof.
  intros Hs Hr Hok. revert s Hs Hr. induction Hok as [| c cs Hc Hok IH]; intros s Hs Hr Hlong Hrun Ht Hroom.
  { by injection Hrun as <-. }
  apply Forall_cons_1 in Hlong as [Hl Hlong]. apply run_cons in Hrun as (s1 & Hc1 & Hrun).
  assert (Hv := wp_run _ _ _ _ _ (wp_serve_call c s Hs Hc) Hc1). assert (Hs1 := sound_served _ _ _ Hs Hv).
  destruct (dedup_growth _ _ _ Hv) as [Hg Hcf]. unfold receives in Hroom. cbn [List.filter] in Hroom.
  assert (Hz := zlen_nonneg (List.filter is_receive cs)).
  apply (IH s1); [done | | done | done | done |].
  - eapply remembered_served; [exact Hs | done | exact Hv | by eapply run_timely | done | done |].
    intros Hcr. rewrite Hcr, zlen_cons in Hroom. lia.
  - rewrite Hcf. unfold receives. destruct (is_receive c); [rewrite zlen_cons in Hroom |]; lia.
Qed.

End window.

(** C20. A message is handled at most once in its lifetime: in a run that takes no
    more frames than the cache has room for, and in which the clock, which may jump
    in any way, stays in a window no longer than the lifetime of the messages with
    an id, the handler is started at most once for that id, counting the tasks the
    executor still holds. *)
Theorem handled_once id t0 w cs s s' :
  initial s -> Forall call_ok cs -> run cs s = Some (tt, s') ->
  0 <= t0 -> t0 + w + 600000 < 2 ^ 64 -> Forall (in_window t0 w) (readings (session_ s')) ->
  Forall (long_lived id w) cs -> receives cs <= dedup_capacity (config_ s) ->
  (handled_times id s' <= 1)%nat.
Proof.
  intros Hi Hok Hr H0 Hw Ht Hl Hroom.
  assert (Hrem : remembered id t0 w s').
  { eapply remembered_run; try done; [by apply initial_sound | | by rewrite (initial_dedup _ Hi), msize_empty].
    left. unfold handled_times. by rewrite (initial_log _ Hi), (initial_tasks _ Hi). }
  destruct Hrem as [-> | [Hle _]]; lia.
Qed.

(** ** Unauthorised senders *)

Definition unhandled s : Prop := tasks_ s = ∅ /\ forall e, Handled e ∉ log_ s.

Lemma served_scope s s' c : served s s' c -> scope_check_ s' = scope_check_ s.
Proof.
  assert (Ho := fun frames ts dd pa tk evs H => out_scope s s' frames ts dd pa tk evs H).
  intros Hv. destruct Hv as [c _ _ _ _ _ _ _ _ Osc _ _ | e r Hsend | f Hf | t Hx | Hx | r throws e He Hx]; [done | | | by eapply Ho..].
  - destruct Hsend; by eapply Ho.
  - destruct Hf as [Hx | Hat Hty Hi | Hat Hty Hi]; [by eapply Ho | destruct Hi; by eapply Ho..].
Qed.

Lemma handled_elem log e : Handled e ∈ log -> (1 <= times (is_handled (MessageProtocol.message_id e)) log)%nat.
Proof.
  intros Hin. unfold times. assert (Hf : Handled e ∈ List.filter (is_handled (MessageProtocol.message_id e)) log).
  { apply list_elem_of_In, filter_In. split; [by apply list_elem_of_In | apply bytes_eqb_refl]. }
  destruct (List.filter _ _); [by apply elem_of_nil in Hf | cbn; lia].
Qed.

Lemma unhandled_served s s' c :
  unhandled s -> (forall e : E, scope_check_ s && scope_covers e = false) -> served s s' c -> unhandled s'.
Proof.
  intros [Ht Hu] Hno Hv.
  assert (Hkeep : forall frames ts dd pa evs, outcome s s' frames ts dd pa (tasks_ s) evs -> acks_only evs -> unhandled s').
  { intros frames ts dd pa evs [_ _ _ _ _ _ _ _ Ot Ol _] He. split; [by rewrite Ot |]. intros e. rewrite Ol, elem_of_app.
    intros [Hin | Hin]; [by apply (Hu e) |]. apply handled_elem in Hin. rewrite He in Hin. lia. }
  destruct Hv as [c _ _ _ _ _ _ Ot Ol _ _ _ | e r Hsend | f Hf | t Ho | Ho | r throws e He Ho].
  - unfold unhandled. by rewrite Ot, Ol.
  - destruct Hsend as [error Hat Ho | i error Hat Ho | i channel encoded Hat Ho | e' limits channel encoded t now pa evs Hat He Hm Hrm Ho];
      (eapply Hkeep; [exact Ho |]); [done | apply acks_only_ack | done |].
    apply acks_only_app; [| apply acks_only_ack]. apply acks_only_app; [apply acks_only_timeouts | by eapply acks_only_room].
  - destruct Hf as [Ho | Hat Hty Hi | Hat Hty Hi]; [by eapply Hkeep | |].
    + destruct Hi as [t ts Ho | t ts e entry limits frames Ho | t ts now e limits m frames tasks Ho Hp Hnow Hdead Hm Hz Hsame _ _ Hscope];
        [eapply Hkeep; [exact Ho | apply acks_only_timeouts] .. |].
      destruct (Hscope Hno) as [_ ->]. eapply Hkeep; [exact Ho | apply acks_only_timeouts].
    + destruct Hi as [Ho | a p Ho Hpa Hx]; (eapply Hkeep; [exact Ho |]); [done | apply acks_only_settled].
  - eapply Hkeep; [exact Ho | apply acks_only_timeouts].
  - eapply Hkeep; [exact Ho | by apply acks_only_ids].
  - by rewrite Ht in He.
Qed.

(** A handler runs for authorised senders only: when the session covers the
    scope of message senders at no time, no handler is started and none waits with
    the executor. *)
Theorem unauthorized_never_handled cs s s' :
  initial s -> Forall call_ok cs -> run cs s = Some (tt, s') ->
  (forall e : E, scope_check_ s && scope_covers e = false) -> unhandled s'.
Proof.
  intros Hi Hok Hr Hno.
  destruct (run_invariant (fun _ => True) (fun x => scope_check_ x = scope_check_ s /\ unhandled x) cs s s') as [_ [_ Hu]];
    [by apply initial_sound | | done | by apply Forall_true | | done | done].
  { split; [done |]. unfold unhandled. rewrite (initial_log _ Hi), (initial_tasks _ Hi). split; [done |].
    intros e He. by apply elem_of_nil in He. }
  intros c s1 s2 _ _ [Hsc Hu] Hv. rewrite <- Hsc in Hno. assert (Hq := unhandled_served _ _ _ Hu Hno Hv).
  split; [| done]. rewrite <- Hsc. by eapply served_scope.
Qed.

(** ** Two services over a network *)

Definition handed (c : Call E) : list Frame := match c with Receive f => [f] | _ => [] end.

(** Two services whose sessions carry frames between them: a frame that is handed
    to one was sent by the other. Frames may be lost, repeated and reordered. The
    list holds the frames the second was handed. *)
Inductive linked : Service -> Service -> list Frame -> Prop :=
  | linked_start a b : initial a -> initial b -> linked a b []
  | linked_left a b fs c a' :
      linked a b fs -> call_ok c -> (forall f, c = Receive f -> exists k, (k, f) ∈ sent (session_ b)) ->
      serve c a = Some (tt, a') -> linked a' b fs
  | linked_right a b fs c b' :
      linked a b fs -> call_ok c -> (forall f, c = Receive f -> exists k, (k, f) ∈ sent (session_ a)) ->
      serve c b = Some (tt, b') -> linked a b' (fs ++ handed c).

(** A frame the peer read as a message of the peer-acked mode. *)
Definition reads_as (f : Frame) (id : list Z) : Prop :=
  Wire.type f = frame_type_value message /\ exists limits e,
    parse_message_envelope (payload f) limits = success e /\ MessageProtocol.message_id e = id /\ is_peer_acked e = true.

(** Every acknowledgement sent answers a message that was handed over. *)
Definition answers s (fs : list Frame) : Prop := forall k f,
  (k, f) ∈ sent (session_ s) -> Wire.type f = frame_type_value message_ack ->
  exists g id, g ∈ fs /\ reads_as g id /\ sized 16 id /\ all_zero id = false /\
    payload f = encode_fields (ack_fields (mkAck id true)).

(** Every message reported acknowledged has an acknowledgement among the frames. *)
Definition heard_from s (frames : list (FrameClass * Frame)) : Prop := forall id error,
  Ack id MessageDeliveryEvent.acked error ∈ log_ s ->
  exists k f, (k, f) ∈ frames /\ Wire.type f = frame_type_value message_ack /\
    parse_message_ack (payload f) = success (mkAck id true).

Lemma sent_growth s s' c fs :
  call_ok c -> served s s' c -> exists frames, sent (session_ s') = sent (session_ s) ++ frames /\
    (answers s fs -> answers s' (fs ++ handed c)).
Proof.
  intros Hc Hv.
  assert (Hplain : forall frames ts dd pa tk evs, outcome s s' frames ts dd pa tk evs ->
    (forall k f, (k, f) ∈ frames -> Wire.type f = frame_type_value message_ack ->
       exists g id, g ∈ handed c /\ reads_as g id /\ sized 16 id /\ all_zero id = false /\
         payload f = encode_fields (ack_fields (mkAck id true))) ->
    exists frames, sent (session_ s') = sent (session_ s) ++ frames /\ (answers s fs -> answers s' (fs ++ handed c))).
  { intros frames ts dd pa tk evs [_ Os _ _ _ _ _ _ _ _ _] Hf. exists frames. split; [done |].
    intros Ha k f. rewrite Os, elem_of_app. intros [Hin | Hin] Hty.
    - destruct (Ha k f Hin Hty) as (g & id & Hg & Hrest). exists g, id. split; [set_solver | done].
    - destruct (Hf k f Hin Hty) as (g & id & Hg & Hrest). exists g, id. split; [set_solver | done]. }
  assert (Hnone : forall (P : FrameClass -> Frame -> Prop) k f, (k, f) ∈ ([] : list (FrameClass * Frame)) -> P k f).
  { intros P k f Hin. by apply elem_of_nil in Hin. }
  destruct Hv as [c _ Os _ _ _ _ _ _ _ _ _ | e r Hsend | f Hf | t Ho | Ho | r throws e He Ho].
  - exists []. rewrite app_nil_r. split; [done |]. intros Ha k f. rewrite Os. intros Hin Hty.
    destruct (Ha k f Hin Hty) as (g & id & Hg & Hrest). exists g, id. split; [set_solver | done].
  - destruct Hsend as [error Hat Ho | i error Hat Ho | i channel encoded Hat Ho | e' limits channel encoded t now pa evs Hat He Hm Hrm Ho];
      (eapply Hplain; [exact Ho |]); [by intros k f ?%elem_of_nil | by intros k f ?%elem_of_nil | |];
      intros k f [= -> ->]%list_elem_of_singleton; done.
  - destruct Hf as [Ho | Hat Hty Hi | Hat Hty Hi]; [eapply Hplain; [exact Ho |]; by intros k g ?%elem_of_nil | |].
    + assert (Hack : forall limits e frames, parse_message_envelope (payload f) limits = success e -> ack_for (channel_id f) e frames ->
        forall k g, (k, g) ∈ frames -> Wire.type g = frame_type_value message_ack ->
        exists g' id, g' ∈ handed (Receive f : Call E) /\ reads_as g' id /\ sized 16 id /\ all_zero id = false /\
          payload g = encode_fields (ack_fields (mkAck id true))).
      { intros limits e frames Hp [-> | [Hpa ->]] k g Hin _; [by apply elem_of_nil in Hin |].
        apply list_elem_of_singleton in Hin as [= -> ->]. destruct (parse_envelope_sound _ _ _ Hc Hp) as (Ht & Hvalid & _).
        exists f, (MessageProtocol.message_id e). split_and!; [by left | | apply Ht | apply Hvalid | done].
        split; [done |]. by exists limits, e. }
      destruct Hi as [t ts Ho | t ts e entry limits frames Ho Hp _ _ Hak | t ts now e limits m frames tasks Ho Hp _ _ _ _ _ Hak];
        (eapply Hplain; [exact Ho |]); [by intros k g ?%elem_of_nil | by eapply Hack..].
    + destruct Hi as [Ho | a p Ho Hpa Hx]; (eapply Hplain; [exact Ho |]; by intros k g ?%elem_of_nil).
  - eapply Hplain; [exact Ho |]. by intros k g ?%elem_of_nil.
  - eapply Hplain; [exact Ho |]. by intros k g ?%elem_of_nil.
  - eapply Hplain; [exact Ho |]. by intros k g ?%elem_of_nil.
Qed.

(** Events that report no acknowledgement. *)
Definition is_acked (e : Event) : bool :=
  match e with Ack _ MessageDeliveryEvent.acked _ => true | _ => false end.
Definition unacked (evs : list Event) : Prop := Forall (fun e => is_acked e = false) evs.

Lemma unacked_ids (end_of : list Z -> Event) s ids :
  (forall i, is_acked (end_of i) = false) -> unacked (heard s (map end_of ids)).
Proof.
  intros He. unfold heard, unacked. destruct (ack_sink_ s); [| constructor].
  induction ids; constructor; [apply He | done].
Qed.

Lemma unacked_one s e : is_acked e = false -> unacked (heard s [e]).
Proof. intros He. by apply (unacked_ids (fun _ => e) s [[]]). Qed.

Lemma unacked_timeouts t s : unacked (timeouts t s).
Proof. by apply unacked_ids. Qed.

Lemma heard_from_served s s' c frames :
  heard_from s frames -> served s s' c -> (forall f, c = Receive f -> exists k, (k, f) ∈ frames) -> heard_from s' frames.
Proof.
  intros Hh Hv Hfrom.
  assert (Hkeep : forall fs ts dd pa tk evs, outcome s s' fs ts dd pa tk evs -> unacked evs -> heard_from s' frames).
  { intros fs ts dd pa tk evs [_ _ _ _ _ _ _ _ _ Ol _] He id error. rewrite Ol, elem_of_app.
    intros [Hin | Hin]; [by eapply Hh |]. apply list_elem_of_In in Hin. apply (proj1 (Forall_forall _ _) He) in Hin. done. }
  destruct Hv as [c _ _ _ _ _ _ _ Ol _ _ _ | e r Hsend | f Hf | t Ho | Ho | r throws e He Ho].
  - intros id error. rewrite Ol. apply Hh.
  - destruct Hsend as [error Hat Ho | i error Hat Ho | i channel encoded Hat Ho | e' limits channel encoded t now pa evs Hat He Hm Hrm Ho];
      (eapply Hkeep; [exact Ho |]); [constructor | by apply unacked_one | constructor |].
    apply Forall_app_2; [apply Forall_app_2; [apply unacked_timeouts |] | by apply unacked_one].
    destruct Hrm as [(_ & -> & _) | (old & p & _ & _ & _ & ->)]; [constructor | by apply unacked_one].
  - destruct Hf as [Ho | Hat Hty Hi | Hat Hty Hi]; [eapply Hkeep; [exact Ho | constructor] | |].
    + destruct Hi; (eapply Hkeep; [eassumption | apply unacked_timeouts]).
    + destruct Hi as [Ho | a p Ho Hpa Hx]; [eapply Hkeep; [exact Ho | constructor] |].
      intros id error. rewrite (out_log _ _ _ _ _ _ _ _ Ho), elem_of_app. intros [Hin | Hin]; [by eapply Hh |].
      destruct (Hfrom f eq_refl) as (k & Hk). exists k, f. split_and!; [done | done |]. rewrite Hpa.
      unfold heard, settled in Hin. destruct (ack_sink_ s); [| by apply elem_of_nil in Hin].
      destruct a as [i []]; apply list_elem_of_singleton in Hin; [| done]. cbn in Hin. by injection Hin as ->.
  - eapply Hkeep; [exact Ho | apply unacked_timeouts].
  - eapply Hkeep; [exact Ho | by apply unacked_ids].
  - eapply Hkeep; [exact Ho |]. constructor; [done | constructor].
Qed.

Lemma linked_facts a b fs :
  linked a b fs -> sound a /\ sound b /\ answers b fs /\ heard_from a (sent (session_ b)) /\
    (forall f, f ∈ fs -> exists k, (k, f) ∈ sent (session_ a)).
Proof.
  induction 1 as [a b Ha Hb | a b fs c a' _ (Sa & Sb & Hans & Hh & Hfs) Hc Hnet Hstep | a b fs c b' _ (Sa & Sb & Hans & Hh & Hfs) Hc Hnet Hstep].
  - split_and!; [by apply initial_sound | by apply initial_sound | | |].
    + intros k f. rewrite (initial_sent _ Hb). by intros ?%elem_of_nil.
    + intros id error. rewrite (initial_log _ Ha). by intros ?%elem_of_nil.
    + by intros f ?%elem_of_nil.
  - assert (Hv := wp_run _ _ _ _ _ (wp_serve_call c a Sa Hc) Hstep). split_and!; [exact (sound_served _ _ _ Sa Hv) | done | done | exact (heard_from_served _ _ _ _ Hh Hv Hnet) |].
    intros f Hf. destruct (Hfs f Hf) as (k & Hk). exists k. destruct (sent_growth _ _ _ [] Hc Hv) as (frames & -> & _). set_solver.
  - assert (Hv := wp_run _ _ _ _ _ (wp_serve_call c b Sb Hc) Hstep). destruct (sent_growth _ _ _ fs Hc Hv) as (frames & Hs & Hans').
    split_and!; [done | exact (sound_served _ _ _ Sb Hv) | by apply Hans' | |].
    + intros id error Hin. destruct (Hh id error Hin) as (k & f & Hk & Hrest). exists k, f. rewrite Hs. split; [set_solver | done].
    + intros f [Hf | Hf]%elem_of_app; [by apply Hfs |]. destruct c; try (by apply elem_of_nil in Hf).
      apply list_elem_of_singleton in Hf as ->. by apply Hnet.
Qed.

(** C22. An acknowledged message was received: when two services exchange frames over
    a network that loses, repeats and reorders them but makes none up, a message the
    first reports as acknowledged was sent by it in a frame that the second was
    handed and read as a message of the peer-acked mode with that id. *)
Theorem acked_was_received a b fs id error :
  linked a b fs -> Ack id MessageDeliveryEvent.acked error ∈ log_ a ->
  exists f k, f ∈ fs /\ (k, f) ∈ sent (session_ a) /\ reads_as f id.
Proof.
  intros (_ & _ & Hans & Hh & Hfs)%linked_facts Hin. destruct (Hh _ _ Hin) as (k & f & Hf & Hty & Hp).
  destruct (Hans k f Hf Hty) as (g & i & Hg & Hr & Hs & Hz & Hpay). destruct (Hfs g Hg) as (k' & Hk').
  exists g, k'. split_and!; [done | done |].
  destruct (parse_encode_ack (mkAck i true) (payload f)) as [Hp' _]; [done | | congruence].
  rewrite encode_ack_layout, Hpay. cbn [ack_message_id]. by rewrite Hz.
Qed.

End runs.
