(* ===== verification/MessageServiceSession.v ===== *)
(** * Messages over a peer session

    The session of [PeerSession] is the session the message service calls: it
    returns from every call the service makes as long as its channels reject frames
    on a full queue and its frame limit has room for the largest envelope. So what
    [MessageServiceRuns] proves against the interface holds for the service on top
    of that code. *)

From Stdlib Require Import ZArith Lia ZifyBool String.
From stdpp Require Import base tactics option list gmap strings numbers.
From S2P Require Import Prelude Errors Limits Varint Wire Identifiers ProtoCodec FieldCodec Protocol Identity Signing Clock.
From S2P Require Import SessionChannels PairingProtocol PeerSession PeerSessionRuns ServiceSession PeerSessionServices.
From S2P Require Import Effects MessageProtocol MessageService MessageServiceRules MessageServiceRuns.
Import Wire PeerSession.
#[local] Open Scope Z_scope.

Section instance.
Context {E H : Type} `{!SessionEnv E} `{Sodium}.
(** The handlers the service installs, by name, the wall clock, the executor and
    the check of the scopes. *)
Context (channel_handler domain_handler : H) (clock : E -> Z * E) (executor : E -> Result unit * E).
Context (covers : PeerSession E H -> bool).
(** [randombytes_buf] fills the bytes, and the loop ends with one that is not zero. *)
Hypothesis random_drawn : forall e : E,
  sized 16 (fst (random_nonzero e 16)) /\ all_zero (fst (random_nonzero e 16)) = false.
Implicit Types s : PeerSession E H.

#[local] Instance peer_message_session : MessageService.MessageSession (PeerSession E H) := {|
  MessageService.message_session := peer_service channel_handler domain_handler clock;
  MessageService.random_message_id s :=
    let '(id, e) := random_nonzero (env_ s) 16 in (id, {| s with env_ := e |});
  MessageService.dispatch s := let '(r, e) := executor (env_ s) in (r, {| s with env_ := e |});
  MessageService.scope_covers := covers;
|}.

#[local] Instance peer_message_lawful : LawfulSession (PeerSession E H).
Proof.
  exists (peer_service_lawful channel_handler domain_handler clock ChannelDomain.message message_room).
  - intros s Hok. assert (Hr := random_drawn (env_ s)). cbn. destruct (random_nonzero (env_ s) 16) as [id e].
    destruct Hr as [R1 R2]. split_and!; [exact R1 | exact R2 | by apply (peer_ok_aside _ s)].
  - intros s Hok. cbn. destruct (executor (env_ s)). by apply (peer_ok_aside _ s).
Defined.

(** C23. A message service over a peer session that has a transport, a well-formed
    channel manager whose channels reject when full, and a frame limit with room for
    the largest envelope: every sequence of calls with arguments of their types,
    frames of the peer and steps of the executor returns, with the session changing
    as it likes within that and whatever the clock answers, and leaves at most
    [dedup_capacity] remembered ids and [pending_ack_capacity] tracked messages. *)
Theorem peer_messages_bounded cs (s : MessageService.MessageService (Recorded (PeerSession E H))) :
  initial s -> Forall call_ok cs ->
  exists after, run cs s = Some (tt, after) /\
    MessageService.dedup_entries after <= MessageService.dedup_capacity (MessageService.config_ after) /\
    MessageService.pending_acks after <= MessageService.pending_ack_capacity (MessageService.config_ after).
Proof. apply calls_bounded. Qed.

End instance.

(** A service over the sample session of [PeerSessionRuns]. *)
Definition session_messages : MessageService.MessageService (Recorded (PeerSession Mailbox unit)) :=
  MessageService.new_message_service (mkRecorded (sample_session (sample_config None)) [] [])
    MessageService.default_message_config true true.

Lemma peer_messages_bounded_witness :
  exists s', @run _ (peer_message_session tt tt (fun e => (0, e)) (fun e => (success tt, e)) (fun _ => true)) toy_sodium
               [Attach; Prune; SessionClosed] session_messages = Some (tt, s') /\
    MessageService.dedup_entries s' <= MessageService.dedup_capacity (MessageService.config_ s') /\
    MessageService.pending_acks s' <= MessageService.pending_ack_capacity (MessageService.config_ s').
Proof.
  apply (@peer_messages_bounded Mailbox unit mailbox_env toy_sodium tt tt (fun e => (0, e)) (fun e => (success tt, e))
           (fun _ => true) mailbox_drawn).
  - constructor; try reflexivity; [apply sample_peer_ok; vm_compute; discriminate | by split].
  - repeat (apply List.Forall_cons; [exact I |]). apply List.Forall_nil.
Defined.
