(* ===== verification/MessageServiceExamples.v ===== *)
(** * Sample message services

    A desk as the session, runs over it that show that the hypotheses of the
    theorems can hold, and a run the comments of the code rule out: a message is
    handled twice because the full cache forgot its id. *)

From Stdlib Require Import ZArith Lia ZifyBool String.
From stdpp Require Import base tactics option list gmap strings numbers.
From S2P Require Import Prelude Errors Limits Varint Wire Identifiers ProtoCodec FieldCodec Protocol Identity Signing Clock.
From S2P Require Import SessionChannels PairingProtocol PeerSession ServiceSession Effects MessageProtocol MessageService.
From S2P Require Import MessageServiceRules MessageServiceCache MessageServiceRuns.
Import Wire ProtoCodec Effects MessageProtocol MessageService.
#[local] Open Scope Z_scope.
#[local] Existing Instance toy_sodium.

(** ** A desk *)

(** It takes every frame and every task; its clock is set by hand. *)
Record Desk : Type := mkDesk { desk_time : Z; desk_scope : bool }.

#[export] Instance desk_service : ServiceSession Desk := {
  session_send_frame d _ _ _ := Some (success tt, d);
  session_open_channel d _ _ _ _ := Some (success 2, d);
  session_adopt_channel d c _ _ _ _ := Some (success c, d);
  session_has_channel d c := c =? 2;
  session_close_channel d _ := Some d;
  session_fail_channel d _ _ := Some d;
  session_domain_handler d _ _ := d;
  session_limits d := default_limits;
  wall_clock d := (desk_time d, d);
}.

#[export] Instance desk_session : MessageSession Desk := {
  random_message_id d := (repeat 7 16, d);
  dispatch d := (success tt, d);
  scope_covers d := desk_scope d;
}.

#[export] Instance desk_lawful_service domain room : LawfulService Desk domain room.
Proof. exists (fun _ => True); intros; cbn; eauto. Defined.

#[export] Instance desk_lawful : LawfulSession Desk.
Proof. exists (desk_lawful_service _ _); [| done]. intros e He. cbn. split_and!; [by apply sized_decide | done | done]. Defined.

(** ** Services and frames *)

Abbreviation Mail := (MessageService (Recorded Desk)).

(** A service with both sinks, made at time 1000. *)
Definition sample_mail (config : MessageServiceConfig) (scope : bool) : Mail :=
  let s := new_message_service (mkRecorded (mkDesk 1000 scope) [] []) config true true in
  {| s with inbound_sink_ := true; ack_sink_ := true |}.

Definition sample_id (n : Z) : list Z := repeat n 16.

Definition sample_message (n : Z) : MessageEnvelope :=
  {| default_envelope with message_id := sample_id n; MessageProtocol.type := bytes_of_string "note";
                           delivery_mode := MessageDeliveryMode.peer_acked; envelope_payload := [1; 2; 3] |}.

Definition sample_frame (n : Z) : Frame :=
  message_frame 2 (match encode_message_envelope (sample_message n) default_limits with
                   | success b => b
                   | failure _ => []
                   end).

Definition at_time (t : Z) : Call Desk := Elsewhere (fun d => {| d with desk_time := t |}).

(** The state after a run. *)
Definition mail_after (cs : list (Call Desk)) (s : Mail) : Mail :=
  match run cs s with Some (_, s') => s' | None => s end.

Lemma mail_after_run cs s : (if run cs s is Some _ then true else false) = true -> run cs s = Some (tt, mail_after cs s).
Proof. unfold mail_after. by destruct (run cs s) as [[[] s'] |]. Qed.

Lemma sample_initial_mail config scope : config_unsigned config -> initial (sample_mail config scope).
Proof. intros Hc. by split. Qed.

Lemma default_unsigned : config_unsigned default_message_config.
Proof. by split. Qed.

Lemma sample_typed n : is_byte n -> envelope_typed (sample_message n).
Proof.
  intros Hn. split.
  - split; [by repeat constructor; apply Hn | done].
  - by apply bytes_ok_decide.
  - by unfold is_u32.
  - by unfold is_u32.
  - constructor.
  - split; [by apply bytes_ok_decide | done].
  - apply collected_none.
Qed.

(** The two runs of the examples below: a message is sent and acknowledged, and a
    message is received twice. *)
Definition sample_ack : Frame := ack_frame 2 (sample_id 9).
Definition sender_run : list (Call Desk) := [Attach; Send (sample_message 9); at_time 1005; Receive sample_ack; Prune].
Definition receiver_run : list (Call Desk) := [Attach; Receive (sample_frame 9); RunTask 1 false; Receive (sample_frame 9); Stats].

(** Decides [Forall] over a literal list of calls. *)
Ltac calls :=
  repeat (apply List.Forall_cons; [first [exact I | by apply sample_typed | apply bytes_ok_decide; by vm_compute | by intros] |]);
  apply List.Forall_nil.

Lemma sender_ok : Forall call_ok sender_run.
Proof. calls. Qed.

Lemma receiver_ok : Forall call_ok receiver_run.
Proof. calls. Qed.

(** The message of [sender_run] is queued and acknowledged. *)
Lemma acks_end_once_witness :
  let s' := mail_after sender_run (sample_mail default_message_config true) in
  log_ s' = [Ack (sample_id 9) MessageDeliveryEvent.queued None; Ack (sample_id 9) MessageDeliveryEvent.acked None] /\
  (queued_times (sample_id 9) (log_ s') = 1%nat ->
   (end_times (sample_id 9) (log_ s') + tracked (sample_id 9) (pending_acks_ s') = 1)%nat).
Proof.
  split; [by vm_compute |]. apply (acks_end_once sender_run (sample_mail default_message_config true)).
  - apply sample_initial_mail, default_unsigned.
  - reflexivity.
  - apply sender_ok.
  - repeat (apply List.Forall_cons; [done |]); apply List.Forall_nil.
  - apply mail_after_run. by vm_compute.
Defined.

(** The frame is read as the message it was made from, or not at all. *)
Lemma sample_read limits e :
  parse_message_envelope (payload (sample_frame 9)) limits = success e -> e = sample_message 9.
Proof.
  unfold parse_message_envelope. destruct (_ <? _); [done |].
  replace (parse_proto envelope_step (payload (sample_frame 9)) "proto" no_envelope_fields)
    with (success (mkEnvelopeFields (sample_message 9) true true true true true)) by (by vm_compute).
  cbn [result_bind have_id have_type have_schema have_ttl have_mode negb orb envelope].
  destruct (validate_message_envelope _ _); [| done]. by intros [= <-].
Qed.

(** The message of [receiver_run] arrives twice and is handled once. *)
Lemma handled_once_witness :
  let s' := mail_after receiver_run (sample_mail default_message_config true) in
  log_ s' = [Handled (sample_message 9)] /\ (handled_times (sample_id 9) s' <= 1)%nat.
Proof.
  split; [by vm_compute |].
  apply (handled_once (sample_id 9) 1000 30000 receiver_run (sample_mail default_message_config true)).
  - apply sample_initial_mail, default_unsigned.
  - apply receiver_ok.
  - apply mail_after_run. by vm_compute.
  - lia.
  - lia.
  - vm_compute. repeat (apply List.Forall_cons; [split; done |]). apply List.Forall_nil.
  - repeat (apply List.Forall_cons; [intros f; try done; intros [= <-] limits e ->%sample_read _; done |]). apply List.Forall_nil.
  - by vm_compute.
Defined.

(** ** An unauthorised sender *)

(** A session that never covers the scope, its check answered by the service. *)
Definition closed_mail : Mail := let s := sample_mail default_message_config false in {| s with scope_check_ := false |}.

Lemma unauthorized_never_handled_witness : unhandled (mail_after receiver_run closed_mail).
Proof.
  apply (unauthorized_never_handled receiver_run closed_mail).
  - by split.
  - apply receiver_ok.
  - apply mail_after_run. by vm_compute.
  - by intros e.
Defined.

Lemma sample_parsed n limits : limits = default_limits -> n = 9 \/ n = 5 ->
  parse_message_envelope (payload (sample_frame n)) limits = success (sample_message n).
Proof. intros -> [-> | ->]; by vm_compute. Qed.

(** The message is refused, and acknowledged when it arrives again. *)
Lemma unauthorized_sender_acked_witness : exists s1 s3,
  handle_inbound_message (sample_frame 9) closed_mail = Some (tt, s1) /\ sent (session_ s1) = [] /\
  handle_inbound_message (sample_frame 9) s1 = Some (tt, s3) /\
  sent (session_ s3) = [(FrameClass.control, ack_frame 2 (sample_id 9))].
Proof.
  destruct (unauthorized_sender_acked (sample_frame 9) (sample_message 9) closed_mail)
    as (s1 & t & Hrun & Hsent & _ & Hlast & Hd & Hagain).
  - exact I.
  - vm_compute. discriminate.
  - apply bytes_ok_decide. vm_compute. reflexivity.
  - intros x. apply sample_parsed; [reflexivity | left; reflexivity].
  - reflexivity.
  - intros x. reflexivity.
  - reflexivity.
  - assert (Ht : option_map (fun r => (list.last (readings (session_ (snd r))), inner (session_ (snd r))))
      (handle_inbound_message (sample_frame 9) closed_mail) = Some (Some 1000, mkDesk 1000 false)) by (vm_compute; reflexivity).
    rewrite Hrun in Ht. cbn [option_map snd] in Ht. rewrite Hlast in Ht. injection Ht as -> Hdesk.
    destruct (Hagain s1 1000 (mkDesk 1000 false) 1000 (mkDesk 1000 false) (mkDesk 1000 false) Hd) as (s3 & Hrun3 & Hsent3 & _).
    + rewrite Hdesk. reflexivity.
    + reflexivity.
    + vm_compute. reflexivity.
    + vm_compute. reflexivity.
    + reflexivity.
    + rewrite Hsent in Hsent3. exists s1, s3. split; [exact Hrun |]. split; [exact Hsent |].
      split; [exact Hrun3 |]. exact Hsent3.
Defined.

(** ** A full cache *)

Definition small_cache : MessageServiceConfig := mkMessageConfig 2 256 256 (1024 * 1024).

(** The ids 9, 8, 1 and 5 arrive in this order, a millisecond apart, and 1 again. *)
Definition crowded_run : list (Call Desk) :=
  [Attach; Receive (sample_frame 9); at_time 1001; Receive (sample_frame 8); at_time 1002;
   Receive (sample_frame 1); at_time 1003; Receive (sample_frame 5); at_time 1004; Receive (sample_frame 1)].

(** The last message is handed to the executor a second time two milliseconds after
    it arrived, in a lifetime of thirty seconds, while the older 9 is remembered. *)
Lemma forgotten_id_handled_twice :
  let s' := mail_after crowded_run (sample_mail small_cache true) in
  run crowded_run (sample_mail small_cache true) = Some (tt, s') /\
  handled_times (sample_id 1) s' = 2%nat /\ is_Some (dedup_ s' !! sample_id 9) /\
  dedup_evictions (stats_ s') = 3.
Proof. split_and!; try by vm_compute. vm_compute. by eexists. Qed.

(** The cache with 9 and 1, before 5 arrives. *)
Definition crowded : Mail := mail_after (take 7 crowded_run) (sample_mail small_cache true).

Lemma newest_id_forgotten_witness : exists s',
  handle_inbound_message (sample_frame 5) crowded = Some (tt, s') /\
  dedup_ s' !! sample_id 1 = None /\ is_Some (dedup_ s' !! sample_id 9).
Proof.
  assert (Hkeys : map fst (map_to_list (dedup_ crowded)) = [sample_id 1; sample_id 9] \/
    map fst (map_to_list (dedup_ crowded)) = [sample_id 9; sample_id 1])
    by (first [left; vm_compute; reflexivity | right; vm_compute; reflexivity]).
  destruct (newest_id_forgotten (sample_frame 5) (sample_message 5) (sample_id 1) crowded)
    as (s' & ts & t & Hrun & Hr & Hd).
  - exact I.
  - vm_compute. discriminate.
  - apply bytes_ok_decide. vm_compute. reflexivity.
  - intros x. apply sample_parsed; [reflexivity | right; reflexivity].
  - vm_compute. reflexivity.
  - vm_compute. reflexivity.
  - vm_compute. eexists. reflexivity.
  - intros k [v Hk]. apply elem_of_map_to_list in Hk. apply (list_elem_of_fmap_2 fst) in Hk. cbn [fst] in Hk.
    change (fst <$> map_to_list (dedup_ crowded)) with (map fst (map_to_list (dedup_ crowded))) in Hk.
    destruct Hkeys as [Hkeys | Hkeys]; rewrite Hkeys in Hk;
      (apply elem_of_cons in Hk as [-> | Hk]; [vm_compute; reflexivity |]);
      apply list_elem_of_singleton in Hk; subst k; vm_compute; reflexivity.
  - assert (Hts : option_map (fun r => drop (length (readings (session_ crowded))) (readings (session_ (snd r))))
      (handle_inbound_message (sample_frame 5) crowded) = Some ([1003; 1003; 1003] ++ [1003])) by (vm_compute; reflexivity).
    rewrite Hrun in Hts. cbn [option_map snd] in Hts. rewrite Hr, drop_app_length in Hts. apply (inj Some) in Hts.
    apply app_inj_tail in Hts as [Hts Ht3]. subst ts t.
    destruct Hd as [Hnone Hd].
    { intros t' kv Ht Hkv. assert (Hall : Forall (fun kv => 1003 < dedup_expires (snd kv)) (iterate (dedup_ crowded)))
        by (vm_compute; repeat constructor).
      assert (Hlt := proj1 (list.Forall_forall _ _) Hall kv Hkv). cbn beta in Hlt.
      assert (t' = 1003) by (repeat (apply elem_of_cons in Ht as [Ht | Ht]; [exact Ht |]); destruct (not_elem_of_nil _ Ht)).
      subst t'. exact Hlt. }
    exists s'. split; [exact Hrun |]. split; [exact Hnone |]. rewrite Hd. vm_compute. eexists. reflexivity.
Defined.

(** The table of pending messages gives up the smallest id as well: of 9, 8 and 7
    sent in this order with room for two, 8 times out at once and 9 stays. *)
Definition small_table : MessageServiceConfig := mkMessageConfig 512 2 256 (1024 * 1024).

Lemma newer_message_given_up :
  let s' := mail_after [Attach; Send (sample_message 9); Send (sample_message 8); Send (sample_message 7)]
              (sample_mail small_table true) in
  end_times (sample_id 8) (log_ s') = 1%nat /\ tracked (sample_id 9) (pending_acks_ s') = 1%nat.
Proof. split; by vm_compute. Qed.

(** ** Two services *)

Definition sender : Mail := mail_after [Attach; Send (sample_message 9)] (sample_mail default_message_config true).
Definition receiver : Mail := mail_after [Attach; Receive (sample_frame 9)] (sample_mail default_message_config true).
Definition answered_sender : Mail := mail_after [Receive sample_ack] sender.

Lemma sample_linked : linked answered_sender receiver [sample_frame 9].
Proof.
  assert (Hi := sample_initial_mail default_message_config true default_unsigned).
  assert (H1 : linked (mail_after [Attach] (sample_mail default_message_config true)) (sample_mail default_message_config true) []).
  { apply (linked_left (sample_mail default_message_config true) _ _ Attach); [by apply linked_start | exact I | done | by vm_compute]. }
  assert (H2 : linked sender (sample_mail default_message_config true) []).
  { eapply (linked_left _ _ _ (Send (sample_message 9))); [exact H1 | by apply sample_typed | done | by vm_compute]. }
  assert (H3 : linked sender (mail_after [Attach] (sample_mail default_message_config true)) []).
  { apply (linked_right _ _ [] Attach _ H2); [exact I | done | by vm_compute]. }
  assert (H4 : linked sender receiver [sample_frame 9]).
  { apply (linked_right _ _ [] (Receive (sample_frame 9)) _ H3); [apply bytes_ok_decide; by vm_compute | | by vm_compute].
    intros f [= <-]. exists FrameClass.standard. apply list_elem_of_In. vm_compute. by left. }
  apply (linked_left _ _ _ (Receive sample_ack) _ H4); [apply bytes_ok_decide; by vm_compute | | by vm_compute].
  intros f [= <-]. exists FrameClass.control. apply list_elem_of_In. vm_compute. by left.
Qed.

Lemma acked_was_received_witness :
  exists f k, f ∈ [sample_frame 9] /\ (k, f) ∈ sent (session_ answered_sender) /\ reads_as f (sample_id 9).
Proof.
  apply (acked_was_received answered_sender receiver [sample_frame 9] (sample_id 9) None); [apply sample_linked |].
  apply list_elem_of_In. vm_compute. right. by left.
Defined.
